(* ===== verification/_CoqProject ===== *)
-Q . S2P
Prelude.v
Sha256.v
Threads.v
StringLists.v
Netip.v
PricingMoney.v
PricingRule.v
PricingEval.v
PricingEngine.v
ProviderCapacity.v
ProviderPermit.v
Float64.v
Canonical.v
AccessModel.v
RoutingModel.v
CredentialCapacity.v
UsageDimensions.v
Calendar.v
GoTime.v
Repository.v
Service.v
GatewayModels.v
GatewayPolicy.v
APIKeys.v
RoutingPrices.v
ProviderAccounts.v
UsageQueries.v
Alerts.v
PricingCatalog.v
PricingService.v
JobModel.v
FairQueue.v
Outbox.v
Attempts.v
Dispatch.v
BillingHolds.v
HoldEstimate.v
Settlement.v
DeliveryQueue.v
JobRepository.v
ReadyIndex.v
Progress.v
UsagePricing.v
System.v
JobLeases.v
UsageBilling.v
UsageRecording.v
RealtimeSessions.v
