(* ===== verification/Prelude.v ===== *)
(** * AsterRouter backend: verification library

    AsterRouter is a gateway in front of AI providers, written in Go.  A request
    becomes an _operation_ with _attempts_ at providers; asynchronous requests
    also become durable _jobs_ that workers claim; money is reserved in a
    _billing hold_ before the work and settled from the recorded usage after it;
    what other systems must learn is written to a _transactional outbox_ in the
    same critical section.  Around this stand the pricing engine, which
    evaluates rule expressions, and the capacity stores, which limit what an
    account or a credential may have under way.  This library models those
    parts of [backend/internal] and proves what makes them correct.

    ** Conventions

    - [int] and [int64] are [Z]; additions and multiplications of the code wrap
      where they can overflow ([+i], [wrap64], [max_int64] in this file).
      Instants and durations are nanoseconds in [Z].
    - Strings are [String.string], byte strings as in Go.  A Go map is a [gmap];
      the order Go leaves open when it ranges over a map is the class
      [MapRange]: theorems hold for every instance, [canonical_range] is the one
      the concrete examples use.  Case mapping outside ASCII and
      JSON escaping and the quoting of [%q] are the parameters [UnicodeCase], [UnicodeUpper],
      [JSONText] and [UnicodeQuote].
    - Errors are values of [go_error] in a [result]; an error made by
      [fmt.Errorf] keeps its format and arguments.
    - A function that reads or writes the repository is an [M A]: a state
      transformer over [MemoryRepository] that keeps the writes made before an
      error, as the code does.  One such function is one critical section of
      the repository's mutex, so the operations of a run interleave as whole
      functions; the permit and the compile cache, which release their mutex in
      the middle, are step relations with one step per critical section.
    - The standard library is modelled where the code leans on it: [Sha256], and
      [Netip] for addresses and prefixes, [GoTime] for [time.Parse]; Go's float64 is
      Rocq's [SpecFloat] ([Float64]).
    - A method of a service calls the repository several times without a lock of
      its own: it is a program of critical sections ([Threads]), and its theorems
      hold with any other calls running in between, unless they say that calls
      run one at a time.  Its random identifiers and readings of the clock are
      arguments; no two calls draw the same identifier, and fewer than
      [2^63 - 1] critical sections run.  [srv] is such a program with errors over
      [MemoryRepository]; [serv] one over the state of [Service], which holds the
      repository and the audit log.

    ** Files

    - [Prelude]: integers, errors, Go's string functions, sorting by a
      comparison, sums over lists and maps; [Sha256]: the hash, executable;
      [Threads]: programs of critical sections, rely and guarantee, pools;
      [StringLists]: the lists of names of [service.go]; [Netip]: addresses and
      prefixes, parsed and printed; [Float64].
    - [Canonical], [AccessModel], [RoutingModel]: the records and constants of
      [gatewaycore/model.go], [model.go], [governance_policy_model.go],
      [gateway_model_model.go] and [effective_pricing_model.go].
    - [GatewayPolicy]: [api_key_policy.go] and [gateway_policy_runtime.go], what a
      key allows and which governance policy applies to it.
    - [Service]: the state a [Service] shares, its programs [serv] and its audit
      log; [GatewayModels]: [gateway_model_service.go] and
      [gateway_model_repository.go], the models a gateway offers and their routes;
      [GoTime]: [time.Parse] and [parseOptionalDate]; [APIKeys]: keys created,
      updated, rotated, disabled and presented ([service.go],
      [application_service.go], [api_key_policy.go], [repository.go]).
    - [RoutingPrices]: [routing_policy_runtime.go] and the candidate rules of
      [gateway_pipeline.go], which candidates a routing policy lets a request try
      and in which order; [ProviderAccounts]: the cooldown, the circuit breaker
      and the slots of an account in [service.go], and [effectiveCircuitState].
    - [PricingMoney], [PricingRule], [PricingEval], [PricingEngine]:
      [pricing/money.go], [compile.go], [evaluate.go] and the compile cache of
      [compile.go].  The parser, the bytecode compiler and the virtual machine of
      the expr package are parameters; a program is seen as the tree of the
      calls it makes into the environment.
    - [ProviderCapacity]: [controlplane/provider_capacity.go], the contract of a
      capacity store (a type class) and the store in memory; [ProviderPermit]:
      [provider_capacity_service.go], the permit against any such store.
    - [CredentialCapacity]: [gateway_credential_capacity.go].
    - [UsageDimensions]: [usage_dimension.go]; [Calendar]: months.
    - [Repository]: the records of [operation_model.go], [ai_job_model.go],
      [billing_hold.go], [pricing_model.go], [artifact_model.go] and [model.go],
      the maps of [MemoryRepository], the monad [M], and the notions of
      read-only, total and traceless operation.
    - [JobModel]: [ai_job_model.go], [ai_job_admission.go] and the transition
      records of [ai_job_repository.go]; [FairQueue]: [ai_job_fair_queue.go].
    - [Outbox]: [transactional_outbox.go] and the outbox of
      [operation_repository.go]; [Attempts]: its operations and attempts;
      [Dispatch]: the attempts of [operation_service.go] and
      [provider_dispatch.go], from preparing a call of a provider to reconciling
      what became of it;
      [Settlement]: its [ApplyUsageSettlement].
    - [PricingCatalog]: the rules and versions in memory of
      [pricing_repository.go]; [PricingService]: [pricing_service.go], against the
      compiler of [PricingEngine] without its cache, which answers the same
      ([PricingEngine.Compile_answers]).
    - [BillingHolds]: [billing_hold.go] and [billing_hold_repository.go];
      [HoldEstimate]: the service half of [billing_hold.go], which selects a
      rule, evaluates it and builds the admission.
    - [JobRepository]: the jobs in memory of [ai_job_repository.go]; [Progress]:
      the progress events of [ai_job_progress_repository.go]; [ReadyIndex]: the
      index of queued jobs of [ai_job_ready_index.go].
    - [DeliveryQueue]: [ai_job_delivery_queue.go], the in-memory queue between
      the dispatcher and the workers, and the match of an envelope with its job
      of [ai_job_delivery_worker.go].
    - [UsagePricing]: [buildUsageSettlement] of [operation_service.go], the
      settlement that a record of usage is given under the prices its hold has
      fixed.
    - [System]: all operations together as a step relation; [JobLeases]: what they
      do to a job while a worker holds it; [UsageBilling]: the
      settlement built, and applied, while those operations and the calls of the
      pricing service run.
    - [UsageRecording]: [RecordGatewayUsage] of [service.go] with the estimate of
      [effective_pricing_usage.go], on top of [UsageBilling] and [Alerts], and the
      calls of [operation_usage.go] that end in it.
    - [UsageQueries]: the usage records of [repository.go] as they are stored,
      listed, summed up for a key and aggregated by model ([service.go]).
    - [Alerts]: [alert_service.go] and the memory half of [alert_repository.go].
    - [RealtimeSessions]: [realtime_session.go], its store in memory and its
      service, on top of [System].

    [UsagePricing] reads what [Attempts], [BillingHolds] and [PricingCatalog] write
    and builds what [Settlement] applies; [PricingService] calls [PricingCatalog], and [HoldEstimate] both
    [PricingService] and [BillingHolds]; [Settlement] calls [BillingHolds] to settle a hold; [JobRepository] calls
    [BillingHolds] to admit and release, [JobModel] to prepare transitions and
    [FairQueue] to rank; all write outbox events, which [Outbox] leases and
    publishes.  [DeliveryQueue] and [ReadyIndex] have stores of their own, with
    their own mutexes: they point to jobs, and [JobRepository] checks again what
    they point to ([ClaimAIJobsByReadyReferences], [aiJobDeliveryMatches]).

    ** What is shown

    - The whole repository ([System]): whatever operations run in whatever order,
      jobs are well formed, the current version of each job has the event and the
      outbox event that describe it, an operation has at most one hold, holds are
      coherent, no two ledger entries bill one usage for one purpose, and the
      progress of an attempt only goes forward; an operation that fails writes
      nothing, except that a claim of jobs keeps the whole claims made before the
      failure.
    - Money: rounding is exact or an overflow is reported; a bill is the sum of
      lines that each reproduce their price, the same at estimate, settlement and
      replay; a missing fact stops the evaluation; budgets are enforced exactly
      within [int64]; holds settle at the exact sum; a settlement is applied once
      and is all or nothing.
    - Usage billed: a settlement is the one that the operation, the hold and the
      published versions it names give, and it passes the repository's validation;
      built and applied again, at any time and among any other calls, it has entries of the
      same content and changes nothing; the ledger and the usage records only
      grow, and what an operation is billed by stays fixed ([UsageBilling]).
    - Usage recorded: presented again - by whomever, with whatever latency or
      provider, among any other calls - a usage that was new finds its settlement
      known and changes nothing; the estimate of what a provider charges is, at the
      price in force, the sum of exact arithmetic, multiplied in double precision
      and rounded; a new usage that costs something
      leaves the alert about the budget of its key as the budget demands
      ([UsageRecording]).
    - Usage queried: the aggregate of the records a query finds is that of a
      reference definition (counts, sums, means, one summary for each model in
      order), whatever order the map is ranged over in.
    - Alerts: calls that run one at a time keep one alert for one thing, with the
      moments that belong to its status; the alert about a budget is open exactly
      above 79 percent, and dispatched when it is new, reopened or changes its
      severity.
    - Realtime sessions: one for each operation and attempt; whatever runs, its
      counters and versions never go back, its end stays, and of the updates made
      for one version at most one succeeds.
    - Price rules: in every interleaving of service calls the catalogue stays
      coherent (one rule per slot, an active version that is published and of the
      rule, distinct revisions); a published version never changes; a write with a stale lock
      version is refused; a selection is the one some single state of the
      catalogue gives; an admission prepared from it reserves the larger of the
      request's limit and the price, and the repository accepts it.
    - Jobs: no resubmission without proof, terminal statuses stay, transitions
      record themselves, creation respects the limits; a claimed job stays with its
      worker until the lease ends, whatever others do ([JobLeases]);
      cancellation releases the money; the ranking is fair between applications,
      independent of the order of maps, and free of starvation by priority.
    - Dispatch: in every interleaving of the calls, a provider is called only for
      a submission that the same call has stored, once for each; an attempt whose
      task is known is never submitted again, nor is one proven not to have
      created a task, and between two submissions the outcome was unknown.
    - Policies: what a normalised key policy admits, ranges of addresses
      included, and that normalising it again changes nothing; the governance
      policy is chosen by priority and only restricts.
    - Models and routes: calls that run one at a time keep the catalogue coherent,
      and a requested name resolves to the active model it stands for and to
      nothing else.
    - Keys: however calls interleave no two keys have one hash, a key is never
      removed, and is replaced at most once while nobody else changes it; a key
      revoked stays revoked; a raw key authenticates exactly when its record, its
      application and its principal say so; a change writes back the record it has
      read, whatever happened to it meanwhile.
    - Routing: the rules of a policy try or report each candidate once, what is
      tried respects the price limits, and in the documented order.
    - Accounts: the circuit and the cooldown of an account are those of an
      abstract breaker over the history of its requests; the slots under way are
      counted exactly.
    - Delivery queue: a delivery has one consumer until its lease ends and is
      final once acknowledged; what is published is delivered at least once; a
      consumer that sleeps is woken before anything becomes ready.  Ready index:
      candidates are due, distinct, and shared in turn between principals.
      Progress: sequence numbers are distinct, percentages never fall.
    - Outbox: leases are exclusive, versions of an aggregate go out in order,
      retries back off without overflow, and a refused event ends in the dead
      letters after its allowed attempts.
    - Compile cache: bounded, coherent, in flight exactly what is being compiled;
      it answers like [compileV1] without a cache, and serves every waiter.  Rules: accepted exactly within the grammar and
      the limits.
    - Capacity: admitted concurrency, requests and tokens per minute never exceed
      their limits, and what a restore brings back counts at the next admission; leases are idempotent; a released permit stays released and ends
      once; a retained lease lasts until the reconciliation; credential limits
      hold and their keys do not collide.
    - Usage: a canonical, idempotent normal form, merging as right-biased union,
      a stored form of ASCII maps that reads back as it was written (given a JSON
      codec that does so, the hypothesis [json_codec], met by a concrete codec), totals that are the true sums cut off at the largest [int64].

    ** Fuel

    [PricingEngine.evict] is called with the length of the list it shortens, the
    selection loop of [FairQueue] with the number of candidates (it removes one in
    every round), the decimal printer with the number of binary digits the
    SHA-256 loops with their fixed round counts and the rounds of
    [ReadyIndex] with one more than the limit (every round but the last adds an
    entry), so none of them runs out: [evict_spec], [select_takes],
    [digits_go_spec] and [loop_fair] show it.

    ** Divergences found

    - Provider capacity and the monthly budget add a limit and a request in
      wrapping arithmetic, so amounts near the largest [int64] pass
      ([BillingHolds.budget_wraps_around]).
    - A claim of several jobs that fails in the middle keeps the jobs claimed so
      far, where the database variant rolls back.
    - A settlement may hold two ledger entries under one identifier; its replay
      is then reported as a conflict.
    - Progress events are sorted by a comparison that is not transitive when
      attempts share timestamps.
    - Updating a draft lists the replaced draft beside the new one in the answer.
    - [Extend] may shorten a lease of a delivery without waking the consumers
      that wait for its end.
    - An accepted attempt marked unknown loses its final provider status, and
      then takes observations that move the task backwards.
    - An update of a key, and a use or a failure of an account, read a record in
      one critical section and save all of it in another: what happened between
      is undone ([APIKeys.update_undoes_rotation],
      [ProviderAccounts.touch_undoes_failure]).  Models, routes and applications
      are checked in one section and saved in another.
    - The last use of a key counts as a change of it, so a key in use may refuse to rotate.
    - Routes are ranked by a comparison that is not transitive.
    - A price multiple below one excludes every candidate; the pool of low prices
      drops candidates that share a key without reporting them.
    - The duration of a rule that makes an account unschedulable has no upper
      bound, and a large one ends in the past ([ProviderAccounts.Demo.cooldown_wraps]).
    - Two calls that raise one alert at once store it twice
      ([Alerts.Demo.raised_twice]); for amounts near the largest [int64] a budget
      alert is resolved instead of raised ([Alerts.Demo.percent_overflows]).
    - A cost of exactly [2^63] passes the test against the largest [int64], made in
      floats, and becomes negative ([UsageRecording.Demo.multiplier_overflows]).
    - The total cost of an aggregate leaves out the disputed and unpriced records
      that the summaries by model count.

    ** Not modelled

    - The PostgreSQL repositories and the Redis stores: their meaning is in SQL
      text and Lua scripts that run in other programs.
    - Among the operations modelled: the creation and the transitions of artifacts
      are not steps of [System]; [ScheduleAIAttemptReconciliationAdmin] and
      [RetryArtifactDelivery], the administrator's wrappers of operations of
      [Attempts], are not calls of [Dispatch]; the writers of
      [onboarding_service.go] are not among the calls of [GatewayModels] and
      [APIKeys], nor the deletion of resolved alerts by [retention_service.go] among
      those of [Alerts].
    - The direct calls that end in a recording of usage; gateway traces; the pipeline around the candidate rules with its affinity
      and its scheduler; the workers and the service of durable jobs: calls of
      providers, timers and goroutines around the operations modelled here.
    - The protocol translation of [gatewaycore], effective pricing, provider
      billing, identity, applications, artifacts, settings, plugins and
      the HTTP server: I/O, administration and JSON dialects.
    - Data races: the code takes its mutex around each operation modelled here. *)

From Stdlib Require Import Ascii.
From Stdlib Require Export ZArith Lia.
From stdpp Require Export base gmap strings list sorting fin_maps numbers.

(** stdpp's names for lemmas on lists come before the Standard Library's. *)
Export stdpp.list_basics.list stdpp.list_relations.list stdpp.list_monad.list stdpp.list_misc.list.

#[export] Set Default Goal Selector "!".

(** ** Machine integers *)

Declare Scope go_scope.
Delimit Scope go_scope with go.
Open Scope Z_scope.

Definition max_int64 : Z := 9223372036854775807.
Definition min_int64 : Z := -9223372036854775808.
Definition two64 : Z := 18446744073709551616.
Definition max_uint64 : Z := 18446744073709551615.

(** Go's [int], [int64] and [time.Duration] are 64-bit two's complement
    numbers: every sum or product is the mathematical one wrapped. *)
Definition wrap64 (z : Z) : Z := (z - min_int64) mod two64 + min_int64.
Definition in_int64 (z : Z) : Prop := min_int64 <= z <= max_int64.

Notation "a +i b" := (wrap64 (a + b)) (at level 50, left associativity) : go_scope.
Notation "a -i b" := (wrap64 (a - b)) (at level 50, left associativity) : go_scope.
Open Scope go_scope.

(** ** Results and errors *)

(** The pair [(T, error)] a fallible Go function returns. *)
Inductive result (E A : Type) : Type :=
| Ok (a : A)
| Err (e : E).
Arguments Ok {E A} _.
Arguments Err {E A} _.

#[export] Instance result_ret {E} : MRet (result E) := fun A a => Ok a.
#[export] Instance result_bind {E} : MBind (result E) := fun A B f m =>
  match m with Ok a => f a | Err e => Err e end.

(** [if cond { return ..., err }] *)
Definition guard_err {E} (cond : bool) (e : E) : result E unit :=
  if cond then Err e else Ok tt.

(** An [error] built with [errors.New], or with [fmt.Errorf], whose format and
    arguments are kept unevaluated; [ErrWrap] is the [%w] verb. *)
Inductive fmt_arg := FmtInt (z : Z) | FmtStr (s : string).
Inductive go_error :=
| ErrNew (msg : string)
| ErrFmt (format : string) (args : list fmt_arg)
| ErrWrap (format : string) (inner : go_error).

#[export] Instance fmt_arg_eq_dec : EqDecision fmt_arg.
Proof. solve_decision. Defined.
#[export] Instance go_error_eq_dec : EqDecision go_error.
Proof. solve_decision. Defined.

(** ** Record update *)

Class Settable (R : Type) := eta_of : R -> R.
Class Setter {R T : Type} (getter : R -> T) := set : (T -> T) -> R -> R.
Arguments set {R T} getter {_} _ _ : assert.

Ltac solve_setter :=
  lazymatch goal with
  | |- @Setter ?R ?T ?getter =>
      let inst := constr:(_ : Settable R) in
      let inst := eval hnf in inst in
      let e := eval pattern getter in inst in
      lazymatch e with
      | ?F getter =>
          let f := eval cbv beta in
            (fun (f : T -> T) (r : R) => F (fun x => f (getter x)) r) in
          exact f
      end
  end.
#[export] Hint Extern 1 (Setter _) => solve_setter : typeclass_instances.

Notation "r <| proj := v |>" := (set proj (fun _ => v) r)
  (at level 1, left associativity, proj at level 200, v at level 200).

(** ** Strings *)

(** A Go string is a sequence of bytes: Rocq's [string].  [len] counts bytes. *)
Infix "=s" := String.eqb (at level 70, no associativity) : go_scope.
Notation "a <>s b" := (negb (String.eqb a b)) (at level 70, no associativity) : go_scope.

Definition go_len (s : string) : Z := Z.of_nat (String.length s).

(** [oneOf(value, allowed...)] and [contains(values, needle)] of service.go. *)
Definition oneOf (value : string) (allowed : list string) : bool :=
  existsb (fun item => value =s item) allowed.
Definition contains (values : list string) (needle : string) : bool :=
  existsb (fun value => value =s needle) values.

(** [nonNegative] and [nonNegativeInt64] of service.go, on [int] and [int64]. *)
Definition nonNegative (value : Z) : Z := if value <? 0 then 0 else value.
Definition nonNegativeInt64 (value : Z) : Z := if value <? 0 then 0 else value.

(** White space as [unicode.IsSpace] sees it in UTF-8: six ASCII characters,
    U+0085 and U+00A0 on two bytes, and U+1680, U+2000-U+200A, U+2028, U+2029,
    U+202F, U+205F, U+3000 on three. *)
Definition ascii_in (a : ascii) (lo hi : N) : bool :=
  (lo <=? N_of_ascii a)%N && (N_of_ascii a <=? hi)%N.
Definition space1 (a : ascii) : bool := ascii_in a 9 13 || ascii_in a 32 32.
Definition space2 (a b : ascii) : bool :=
  ascii_in a 194 194 && (ascii_in b 133 133 || ascii_in b 160 160).
Definition space3 (a b c : ascii) : bool :=
  (ascii_in a 225 225 && ascii_in b 154 154 && ascii_in c 128 128)
  || (ascii_in a 226 226 && ascii_in b 128 128
      && (ascii_in c 128 138 || ascii_in c 168 169 || ascii_in c 175 175))
  || (ascii_in a 226 226 && ascii_in b 129 129 && ascii_in c 159 159)
  || (ascii_in a 227 227 && ascii_in b 128 128 && ascii_in c 128 128).

Section Trim.
Context (s2 : ascii -> ascii -> bool) (s3 : ascii -> ascii -> ascii -> bool).

Definition starts_space (l : list ascii) : bool :=
  match l with
  | a :: b :: c :: _ => space1 a || s2 a b || s3 a b c
  | [a; b] => space1 a || s2 a b
  | [a] => space1 a
  | [] => false
  end.

Fixpoint trim_go (l : list ascii) : list ascii :=
  match l with
  | [] => []
  | a :: l1 =>
      if space1 a then trim_go l1 else
      match l1 with
      | [] => l
      | b :: l2 =>
          if s2 a b then trim_go l2 else
          match l2 with
          | [] => l
          | c :: l3 => if s3 a b c then trim_go l3 else l
          end
      end
  end.
End Trim.

Definition trim_left (l : list ascii) : list ascii := trim_go space2 space3 l.
Definition trim_right (l : list ascii) : list ascii :=
  rev (trim_go (fun a b => space2 b a) (fun a b c => space3 c b a) (rev l)).

(** [strings.TrimSpace] *)
Definition TrimSpace (s : string) : string :=
  String.string_of_list_ascii (trim_right (trim_left (String.list_ascii_of_string s))).

(** [strings.ContainsAny] *)
Definition ContainsAny (s chars : string) : bool :=
  existsb (fun a => existsb (Ascii.eqb a) (String.list_ascii_of_string chars))
    (String.list_ascii_of_string s).

(** [strings.Contains] *)
Definition Contains (s sub : string) : bool :=
  match String.index 0 sub s with Some _ => true | None => false end.

(** [strings.HasPrefix], [strings.TrimPrefix], [strings.HasSuffix] *)
Definition HasPrefix (s p : string) : bool := String.prefix p s.
Definition TrimPrefix (s p : string) : string :=
  if String.prefix p s
  then String.substring (String.length p) (String.length s - String.length p) s else s.
Definition HasSuffix (s p : string) : bool :=
  (String.length p <=? String.length s)%nat
  && (String.substring (String.length s - String.length p) (String.length p) s =s p).

(** [strings.ToLower]: byte-wise on ASCII strings; Unicode's case table is a
    parameter for the strings that hold other runes. *)
Class UnicodeCase := lower_unicode : string -> string.
Definition lower_ascii (a : ascii) : ascii :=
  if ascii_in a 65 90 then ascii_of_N (N_of_ascii a + 32) else a.
Definition all_ascii (s : string) : bool :=
  forallb (fun a => ascii_in a 0 127) (String.list_ascii_of_string s).
Definition ToLower `{UnicodeCase} (s : string) : string :=
  if all_ascii s
  then String.string_of_list_ascii (map lower_ascii (String.list_ascii_of_string s))
  else lower_unicode s.
(** [strings.ToUpper], likewise. *)
Class UnicodeUpper := upper_unicode : string -> string.
Definition upper_ascii (a : ascii) : ascii :=
  if ascii_in a 97 122 then ascii_of_N (N_of_ascii a - 32) else a.
Definition ToUpper `{UnicodeUpper} (s : string) : string :=
  if all_ascii s
  then String.string_of_list_ascii (map upper_ascii (String.list_ascii_of_string s))
  else upper_unicode s.

(** [strings.Compare] and the order [<] on strings: lexicographic on bytes. *)
Definition str_ltb (s t : string) : bool :=
  match String.compare s t with Lt => true | _ => false end.

(** Control bytes that Go writes as escapes. *)
Definition nul : string := String (ascii_of_nat 0) "".
Definition lf : string := String (ascii_of_nat 10) "".
Definition cr : string := String (ascii_of_nat 13) "".

(** [strconv.Itoa] *)
Definition digit (n : N) : ascii := ascii_of_N (48 + n).
Fixpoint digits_go (fuel : nat) (n : N) (acc : string) : string :=
  match fuel with
  | O => acc
  | S fuel' =>
      let acc' := String (digit (n mod 10)%N) acc in
      if (n <? 10)%N then acc' else digits_go fuel' (n / 10)%N acc'
  end.
Definition Itoa_N (n : N) : string := digits_go (S (N.to_nat (N.log2 n))) n "".
Definition Itoa (z : Z) : string :=
  if z <? 0 then String "-" (Itoa_N (Z.to_N (- z))) else Itoa_N (Z.to_N z).

(** ** Time *)

(** An instant is its distance in nanoseconds from Go's zero [time.Time]; the
    comparisons the code makes ([After], [Before], [Equal]) see only that. *)
Notation time := Z (only parsing).
Notation duration := Z (only parsing).
Definition nanosecond : duration := 1.
Definition microsecond : duration := 1000.
Definition millisecond : duration := 1000000.
Definition second : duration := 1000000000.
Definition minute : duration := 60 * second.
Definition hour : duration := 60 * minute.
Definition IsZero (t : time) : bool := t =? 0.
Definition After (t u : time) : bool := u <? t.
Definition Before (t u : time) : bool := t <? u.
(** [t.Sub(u)] saturates at the ends of [time.Duration]. *)
Definition TimeSub (t u : time) : duration := Z.max min_int64 (Z.min max_int64 (t - u)).

(** ** Maps and iteration order *)

(** [for k, v := range m] visits a map in an order Go leaves open: a parameter
    of the development, of which only this is known. *)
Class MapRange := {
  map_range : forall {V : Type}, gmap string V -> list (string * V);
  map_range_perm : forall {V : Type} (m : gmap string V), map_range m ≡ₚ map_to_list m;
}.

Definition map_values `{MapRange} {V} (m : gmap string V) : list V := (map_range m).*2.

(** The loop that returns the first value satisfying a test. *)
Definition find_value `{MapRange} {V} (p : V -> bool) (m : gmap string V) : option V :=
  List.find p (map_values m).

(** The order used to evaluate the development on concrete inputs. *)
Definition canonical_range : MapRange :=
  {| map_range := fun V m => map_to_list m; map_range_perm := fun V m => Permutation_refl _ |}.

(** ** Sorting *)

(** [sort.SliceStable] (and [sort.Slice] where the order is total): insertion
    before the first element that is not less. *)
Fixpoint insert_by {A} (less : A -> A -> bool) (x : A) (l : list A) : list A :=
  match l with
  | [] => [x]
  | y :: l' => if less y x then y :: insert_by less x l' else x :: l
  end.
Definition sort_by {A} (less : A -> A -> bool) (l : list A) : list A :=
  foldr (insert_by less) [] l.

(** Sums, and a fold that can stop with an error. *)
Fixpoint sum_Z {A} (f : A -> Z) (l : list A) : Z :=
  match l with [] => 0 | x :: l' => f x + sum_Z f l' end.
Fixpoint foldM {E A B} (f : B -> A -> result E B) (b : B) (l : list A) : result E B :=
  match l with
  | [] => Ok b
  | x :: l' => match f b x with Ok b' => foldM f b' l' | Err e => Err e end
  end.

(** Keep these folded when a proof simplifies the code around them. *)
#[global] Arguments wrap64 : simpl never.
#[global] Arguments contains : simpl never.
#[global] Arguments oneOf : simpl never.
#[global] Arguments TrimSpace : simpl never.
#[global] Arguments ContainsAny : simpl never.
#[global] Arguments String.eqb : simpl never.
#[global] Arguments Z.max : simpl never.
#[global] Arguments Z.min : simpl never.
#[global] Arguments HasSuffix : simpl never.
#[global] Arguments HasPrefix : simpl never.

(** ** Lemmas: machine integers *)

Create HintDb go discriminated.

Lemma wrap64_id z : in_int64 z -> wrap64 z = z.
Proof.
  unfold in_int64, wrap64, min_int64, max_int64, two64. intros ?.
  rewrite Z.mod_small; lia.
Qed.

Lemma wrap64_range z : in_int64 (wrap64 z).
Proof.
  unfold in_int64, wrap64, min_int64, max_int64, two64.
  pose proof (Z.mod_pos_bound (z - -9223372036854775808) 18446744073709551616). lia.
Qed.

Lemma wrap64_add_l a b : wrap64 (wrap64 a + b) = wrap64 (a + b).
Proof.
  unfold wrap64. f_equal.
  replace ((a - min_int64) mod two64 + min_int64 + b - min_int64)
    with ((a - min_int64) mod two64 + b) by lia.
  rewrite Zplus_mod_idemp_l. f_equal. lia.
Qed.

Lemma wrap64_add_r a b : wrap64 (a + wrap64 b) = wrap64 (a + b).
Proof. rewrite (Z.add_comm a (wrap64 b)), wrap64_add_l. f_equal; lia. Qed.

#[export] Hint Resolve wrap64_range : go.

(** ** Lemmas: results *)

Lemma bind_Ok {E A B} (m : result E A) (f : A -> result E B) b :
  (m ≫= f) = Ok b <-> exists a, m = Ok a /\ f a = Ok b.
Proof.
  destruct m as [a|e]; cbn; split.
  - eauto.
  - intros (? & [= ->] & ?); done.
  - discriminate.
  - intros (? & [=] & _).
Qed.

Lemma bind_Err {E A B} (m : result E A) (f : A -> result E B) e :
  (m ≫= f) = Err e <-> m = Err e \/ exists a, m = Ok a /\ f a = Err e.
Proof.
  destruct m as [a|e']; cbn; split.
  - eauto.
  - intros [[=]|(? & [= ->] & ?)]; done.
  - intros [= ->]. auto.
  - intros [[= ->]|(? & [=] & _)]; done.
Qed.

Lemma guard_Ok {E} c (e : E) u : guard_err c e = Ok u <-> c = false.
Proof. destruct c, u; cbn; split; congruence. Qed.

Lemma guard_Err {E} c (e e' : E) : guard_err c e = Err e' <-> c = true /\ e = e'.
Proof. destruct c; cbn; split; [|intros [? ->]| |intros []]; naive_solver. Qed.

(** ** Tactics *)

(** Split a boolean test of the code into the facts it states. *)
Ltac boolify :=
  repeat match goal with
  | H : _ && _ = true |- _ => apply andb_true_iff in H as [? ?]
  | H : _ || _ = false |- _ => apply orb_false_iff in H as [? ?]
  | H : negb _ = true |- _ => apply negb_true_iff in H
  | H : negb _ = false |- _ => apply negb_false_iff in H
  | H : String.eqb _ _ = true |- _ => apply String.eqb_eq in H
  | H : String.eqb _ _ = false |- _ => apply String.eqb_neq in H
  | H : (_ =? _) = true |- _ => apply Z.eqb_eq in H
  | H : (_ =? _) = false |- _ => apply Z.eqb_neq in H
  | H : (_ <? _) = true |- _ => apply Z.ltb_lt in H
  | H : (_ <? _) = false |- _ => apply Z.ltb_ge in H
  | H : (_ <=? _) = true |- _ => apply Z.leb_le in H
  | H : (_ <=? _) = false |- _ => apply Z.leb_gt in H
  | H : (_ >? _) = true |- _ => rewrite Z.gtb_ltb in H
  | H : (_ >? _) = false |- _ => rewrite Z.gtb_ltb in H
  | H : (_ >=? _) = true |- _ => rewrite Z.geb_leb in H
  | H : (_ >=? _) = false |- _ => rewrite Z.geb_leb in H
  | H : bool_decide _ = true |- _ => apply bool_decide_eq_true in H
  | H : bool_decide _ = false |- _ => apply bool_decide_eq_false in H
  end.

(** Follow a successful run of monadic code backwards. *)
Ltac run_inv :=
  repeat match goal with
  | H : (_ ≫= _) = Ok _ |- _ => apply bind_Ok in H as (? & ? & ?)
  | H : guard_err _ _ = Ok _ |- _ => apply guard_Ok in H
  | H : Ok _ = Ok _ |- _ => injection H as H; subst
  | H : Err _ = Err _ |- _ => injection H as H; subst
  | H : Ok _ = Err _ |- _ => discriminate H
  | H : Err _ = Ok _ |- _ => discriminate H
  end.

(** Evaluate the comparisons of the goal that linear arithmetic settles. *)
Ltac decide_tests :=
  rewrite ?Z.gtb_ltb, ?Z.geb_leb;
  repeat match goal with
  | |- context [?a <? ?b] =>
      first [rewrite (proj2 (Z.ltb_lt a b)) by lia | rewrite (proj2 (Z.ltb_ge a b)) by lia]
  | |- context [?a <=? ?b] =>
      first [rewrite (proj2 (Z.leb_le a b)) by lia | rewrite (proj2 (Z.leb_gt a b)) by lia]
  | |- context [?a =? ?b] =>
      first [rewrite (proj2 (Z.eqb_eq a b)) by lia | rewrite (proj2 (Z.eqb_neq a b)) by lia]
  end; cbn [orb andb negb].

(** Split a membership in a concrete list. *)
Ltac elem_cases H :=
  repeat match type of H with
  | _ ∈ _ :: _ => apply elem_of_cons in H as [H|H]
  | _ ∈ [] => by apply elem_of_nil in H
  end.

(** Evaluate the comparisons of closed strings. *)
Ltac str_eval :=
  repeat match goal with
  | H : context [String.eqb ?a ?b] |- _ =>
      let v := eval vm_compute in (String.eqb a b) in
      lazymatch v with true => idtac | false => idtac end; change (String.eqb a b) with v in H
  | |- context [String.eqb ?a ?b] =>
      let v := eval vm_compute in (String.eqb a b) in
      lazymatch v with true => idtac | false => idtac end; change (String.eqb a b) with v
  end; cbv iota in *.

(** Case analysis on every test and match of the code under study. *)
Ltac cases := repeat (case_match; simplify_eq; try done).

(** ** Lemmas: strings *)

Lemma oneOf_In v l : oneOf v l = true <-> v ∈ l.
Proof.
  unfold oneOf. rewrite existsb_exists, list_elem_of_In. split.
  - intros (x & Hx & ->%String.eqb_eq). done.
  - intros Hv. exists v. by rewrite String.eqb_refl.
Qed.

Lemma oneOf_not_In v l : oneOf v l = false <-> v ∉ l.
Proof. rewrite <- not_true_iff_false, oneOf_In. done. Qed.

Lemma contains_In l v : contains l v = true <-> v ∈ l.
Proof.
  unfold contains. rewrite existsb_exists, list_elem_of_In. split.
  - intros (x & Hx & ->%String.eqb_eq). done.
  - intros Hv. exists v. by rewrite String.eqb_refl.
Qed.

Lemma HasPrefix_app p s : HasPrefix s p = true <-> exists r, s = (p +:+ r)%string.
Proof.
  unfold HasPrefix. revert s. induction p as [|a p IH]; intros s.
  { destruct s; cbn; split; eauto. }
  destruct s as [|b s]; cbn; [split; [done|intros [r [=]]]|].
  destruct (Ascii.ascii_dec a b) as [->|Hab].
  - rewrite IH. split; intros [r Hr]; exists r; [by rewrite Hr|by injection Hr].
  - split; [done|]. intros [r [= -> _]]. done.
Qed.

Lemma substring_all s : String.substring 0 (String.length s) s = s.
Proof. induction s as [|a s IH]; cbn; [done|]. by rewrite IH. Qed.

Lemma TrimPrefix_app p r : TrimPrefix (p +:+ r)%string p = r.
Proof.
  unfold TrimPrefix.
  assert (Hp : String.prefix p (p +:+ r)%string = true) by (apply HasPrefix_app; eauto).
  rewrite Hp. clear Hp. induction p as [|a p IH]; cbn; [|apply IH].
  by rewrite Nat.sub_0_r, substring_all.
Qed.

(** *** Decimal text *)

Definition is_digit (a : ascii) : bool := ascii_in a 48 57.

Fixpoint all_digits (s : string) : bool :=
  match s with EmptyString => true | String a s' => is_digit a && all_digits s' end.

(** The number a text of digits denotes, after a prefix that denotes [acc]. *)
Fixpoint digits_value (acc : N) (s : string) : N :=
  match s with
  | EmptyString => acc
  | String a s' => digits_value (10 * acc + (N_of_ascii a - 48)) s'
  end.

Lemma digit_spec n : (n < 10)%N -> is_digit (digit n) = true /\ (N_of_ascii (digit n) - 48 = n)%N.
Proof.
  intros Hn. unfold is_digit, digit, ascii_in. rewrite N_ascii_embedding by lia.
  split; [apply andb_true_iff; rewrite !N.leb_le; lia|lia].
Qed.

Lemma digits_go_spec fuel n acc : (n < 2 ^ N.of_nat fuel)%N ->
  (all_digits acc = true -> all_digits (digits_go fuel n acc) = true) /\
  (fuel <> O -> digits_value 0 (digits_go fuel n acc) = digits_value n acc).
Proof.
  revert n acc. induction fuel as [|fuel IH]; intros n acc Hn; cbn [digits_go]; [done|].
  assert (Hm : (n mod 10 < 10)%N) by (apply N.mod_lt; lia).
  destruct (digit_spec _ Hm) as [Hd Hv].
  destruct (N.ltb_spec n 10) as [Hlt|Hge].
  - split.
    + intros Ha. cbn. by rewrite Hd.
    + intros _. cbn [digits_value]. rewrite Hv, N.mod_small by done. f_equal.
  - assert (Hq : (n / 10 < 2 ^ N.of_nat fuel)%N).
    { apply N.Div0.div_lt_upper_bound. rewrite Nat2N.inj_succ, N.pow_succ_r' in Hn. lia. }
    destruct (IH (n / 10)%N (String (digit (n mod 10)) acc) Hq) as [IH1 IH2]. split.
    + intros Ha. apply IH1. cbn. by rewrite Hd.
    + intros _. rewrite IH2.
      * cbn [digits_value]. rewrite Hv. f_equal. symmetry. apply N.div_mod'.
      * intros ->. cbn in Hq. apply N.lt_1_r in Hq. pose proof (N.div_mod' n 10). lia.
Qed.

Lemma Itoa_N_digits n : all_digits (Itoa_N n) = true /\ digits_value 0 (Itoa_N n) = n.
Proof.
  unfold Itoa_N.
  assert (Hn : (n < 2 ^ N.of_nat (S (N.to_nat (N.log2 n))))%N).
  { rewrite Nat2N.inj_succ, N2Nat.id. destruct n as [|p]; [by vm_compute|].
    by apply N.log2_spec. }
  destruct (digits_go_spec _ n "" Hn) as [H1 H2]. split; [by apply H1|]. by apply H2.
Qed.

(** Texts of digits closed by a byte that is not a digit split in one way. *)
Lemma digits_split d1 d2 s1 s2 a :
  all_digits d1 = true -> all_digits d2 = true -> is_digit a = false ->
  (d1 +:+ String a s1)%string = (d2 +:+ String a s2)%string -> d1 = d2 /\ s1 = s2.
Proof.
  intros H1 H2 Ha. revert d2 H2. induction d1 as [|b d1 IH]; intros [|c d2] H2 E; cbn in *.
  - by injection E.
  - injection E as -> _. by rewrite Ha in H2.
  - injection E as -> _. by rewrite Ha in H1.
  - injection E as -> E. apply andb_true_iff in H1 as [_ H1], H2 as [_ H2].
    destruct (IH H1 d2 H2 E) as [-> ->]. done.
Qed.

Lemma app_split_length (a1 a2 b1 b2 : string) :
  String.length a1 = String.length a2 -> (a1 +:+ b1)%string = (a2 +:+ b2)%string -> a1 = a2 /\ b1 = b2.
Proof.
  revert a2. induction a1 as [|x a1 IH]; intros [|y a2] Hl E; cbn in *; try done.
  injection E as -> E. destruct (IH a2 ltac:(lia) E) as [-> ->]. done.
Qed.

Lemma string_app_assoc (a b c : string) : ((a +:+ b) +:+ c = a +:+ (b +:+ c))%string.
Proof. induction a as [|x a IH]; [done|]. exact (f_equal (String x) IH). Qed.

Lemma string_app_nil (a : string) : (a +:+ "")%string = a.
Proof. induction a as [|x a IH]; [done|]. exact (f_equal (String x) IH). Qed.

(** [strconv.Itoa(len(s)) + ":" + s], the encoding that lets strings be
    concatenated without ambiguity. *)
Definition length_prefixed (s : string) : string := (Itoa (go_len s) +:+ ":" +:+ s)%string.

Lemma length_prefixed_inj s1 s2 t1 t2 :
  (length_prefixed s1 +:+ t1)%string = (length_prefixed s2 +:+ t2)%string -> s1 = s2 /\ t1 = t2.
Proof.
  unfold length_prefixed, go_len, Itoa.
  rewrite !(proj2 (Z.ltb_ge _ _)) by lia. rewrite <- !nat_N_Z, !N2Z.id.
  rewrite !string_app_assoc. intros E.
  destruct (Itoa_N_digits (N.of_nat (String.length s1))) as [Hd1 Hv1].
  destruct (Itoa_N_digits (N.of_nat (String.length s2))) as [Hd2 Hv2].
  apply digits_split in E as [E1 E2]; [|done|done|done].
  apply app_split_length in E2; [done|]. rewrite E1, Hv2 in Hv1. lia.
Qed.

Section TrimLemmas.
Context (s2 : ascii -> ascii -> bool) (s3 : ascii -> ascii -> ascii -> bool).

Lemma trim_go_fixed l : starts_space s2 s3 l = false -> trim_go s2 s3 l = l.
Proof.
  destruct l as [|a [|b [|c l]]]; cbn; intros H; boolify;
    repeat match goal with H : _ = false |- _ => rewrite H end; try done.
Qed.

Lemma trim_go_starts_aux (n : nat) l :
  (length l <= n)%nat -> starts_space s2 s3 (trim_go s2 s3 l) = false.
Proof.
  revert l. induction n as [|n IH]; intros l Hn.
  { destruct l; cbn in *; [done|lia]. }
  destruct l as [|a [|b [|c l]]]; cbn [length] in Hn; cbn [trim_go].
  - done.
  - destruct (space1 a) eqn:E; cbn; [done|by rewrite E].
  - destruct (space1 a) eqn:E; [apply (IH [b]); cbn; lia|].
    destruct (s2 a b) eqn:E2; cbn; [done|]. by rewrite E, E2.
  - destruct (space1 a) eqn:E; [apply (IH (b :: c :: l)); cbn; lia|].
    destruct (s2 a b) eqn:E2; [apply (IH (c :: l)); cbn; lia|].
    destruct (s3 a b c) eqn:E3; [apply IH; lia|]. cbn. by rewrite E, E2, E3.
Qed.

Lemma trim_go_starts l : starts_space s2 s3 (trim_go s2 s3 l) = false.
Proof. by apply (trim_go_starts_aux (length l)). Qed.

Lemma trim_go_suffix_aux (n : nat) l :
  (length l <= n)%nat -> exists p, l = p ++ trim_go s2 s3 l.
Proof.
  revert l. induction n as [|n IH]; intros l Hn.
  { destruct l; cbn in *; [by exists []|lia]. }
  destruct l as [|a [|b [|c l]]]; cbn [length] in Hn; cbn [trim_go].
  - by exists [].
  - destruct (space1 a); [by exists [a]|by exists []].
  - destruct (space1 a).
    { destruct (IH [b]) as [p Hp]; [cbn; lia|]. exists (a :: p). exact (f_equal (cons a) Hp). }
    destruct (s2 a b); [by exists [a; b]|by exists []].
  - destruct (space1 a).
    { destruct (IH (b :: c :: l)) as [p Hp]; [cbn; lia|]. exists (a :: p). exact (f_equal (cons a) Hp). }
    destruct (s2 a b).
    { destruct (IH (c :: l)) as [p Hp]; [cbn; lia|]. exists (a :: b :: p). exact (f_equal (fun x => a :: b :: x) Hp). }
    destruct (s3 a b c); [|by exists []].
    destruct (IH l) as [p Hp]; [lia|]. exists (a :: b :: c :: p).
    exact (f_equal (fun x => a :: b :: c :: x) Hp).
Qed.

Lemma trim_go_suffix l : exists p, l = p ++ trim_go s2 s3 l.
Proof. by apply (trim_go_suffix_aux (length l)). Qed.

Lemma starts_space_prefix l k :
  starts_space s2 s3 (l ++ k) = false -> starts_space s2 s3 l = false.
Proof.
  destruct l as [|a [|b [|c l]]]; cbn; try done; destruct k as [|d [|e k]]; cbn;
    intros H; boolify; repeat match goal with H : _ = false |- _ => rewrite H end; done.
Qed.
End TrimLemmas.

Lemma trim_right_prefix l : exists q, l = trim_right l ++ q.
Proof.
  unfold trim_right. set (f2 := fun a b => space2 b a). set (f3 := fun a b c => space3 c b a).
  destruct (trim_go_suffix f2 f3 (rev l)) as [p Hp]. exists (rev p).
  rewrite <- rev_app_distr, <- Hp, rev_involutive. done.
Qed.

Lemma trim_right_idemp l : trim_right (trim_right l) = trim_right l.
Proof.
  unfold trim_right. f_equal. rewrite rev_involutive.
  apply trim_go_fixed, trim_go_starts.
Qed.

Lemma trim_left_right l : trim_left (trim_right (trim_left l)) = trim_right (trim_left l).
Proof.
  apply trim_go_fixed. destruct (trim_right_prefix (trim_left l)) as [q Hq].
  apply (starts_space_prefix _ _ _ q). rewrite <- Hq. apply trim_go_starts.
Qed.

Lemma TrimSpace_idemp s : TrimSpace (TrimSpace s) = TrimSpace s.
Proof.
  unfold TrimSpace. rewrite String.list_ascii_of_string_of_list_ascii, trim_left_right, trim_right_idemp. done.
Qed.

(** Printable ASCII without spaces, on which trimming does nothing. *)
Definition plain_char (a : ascii) : bool := ascii_in a 33 127.

Lemma plain_no_space a : plain_char a = true ->
  space1 a = false /\ (forall b, space2 a b = false) /\ (forall b c, space3 a b c = false).
Proof.
  destruct a as [[] [] [] [] [] [] [] []]; intros H; try discriminate H; repeat split; reflexivity.
Qed.

Lemma trim_go_plain (s2 : ascii -> ascii -> bool) s3 l :
  (forall a b, plain_char a = true -> plain_char b = true -> s2 a b = false) ->
  (forall a b c, plain_char a = true -> plain_char b = true -> plain_char c = true ->
     s3 a b c = false) ->
  forallb plain_char l = true -> trim_go s2 s3 l = l.
Proof.
  intros H2 H3 Hl. apply trim_go_fixed.
  destruct l as [|a [|b [|c l]]]; cbn in *; boolify; try done;
    repeat match goal with H : plain_char _ = true |- _ =>
      lazymatch goal with
      | _ : space1 ?x = false |- _ => fail
      | _ => destruct (plain_no_space _ H) as [-> _]
      end end; cbn; rewrite ?H2, ?H3 by done; done.
Qed.

Lemma TrimSpace_plain s : forallb plain_char (String.list_ascii_of_string s) = true -> TrimSpace s = s.
Proof.
  intros Hs. unfold TrimSpace, trim_left, trim_right.
  rewrite (trim_go_plain space2 space3) by
    (try done; intros; by apply plain_no_space).
  rewrite trim_go_plain.
  - by rewrite rev_involutive, String.string_of_list_ascii_of_string.
  - intros a b _ Hb. by apply plain_no_space.
  - intros a b c _ _ Hc. by apply plain_no_space.
  - apply forallb_forall. intros x Hx%in_rev. by apply (proj1 (forallb_forall _ _) Hs).
Qed.

(** ** Comparators *)

(** A three-way comparison that is a total preorder: what a [less] function
    handed to [sort.Slice] or used to choose a minimum has to be. *)
Class Comparator {A} (c : A -> A -> comparison) : Prop := {
  cmp_opp x y : c x y = CompOpp (c y x);
  cmp_trans x y z : c x y = Lt -> c y z = Lt -> c x z = Lt;
  cmp_eq_l x y z : c x y = Eq -> c x z = c y z;
}.

Lemma cmp_refl `{Comparator A c} x : c x x = Eq.
Proof. pose proof (cmp_opp x x) as E. destruct (c x x); done. Qed.

Lemma cmp_eq_r `{Comparator A c} x y z : c x y = Eq -> c z x = c z y.
Proof. intros E. rewrite (cmp_opp z x), (cmp_opp z y). f_equal. by apply cmp_eq_l. Qed.

Lemma cmp_eq_sym `{Comparator A c} x y : c x y = Eq -> c y x = Eq.
Proof. intros E. rewrite cmp_opp, E. done. Qed.

Lemma cmp_not_lt_trans `{Comparator A c} x y z : c x y <> Lt -> c y z <> Lt -> c x z <> Lt.
Proof.
  intros H1 H2 H3. destruct (c x y) eqn:E1; [|done|].
  - apply H2. rewrite <- H3. symmetry. by apply cmp_eq_l.
  - apply H2. apply (cmp_trans _ x); [|done]. rewrite cmp_opp, E1. done.
Qed.

#[export] Instance Z_comparator : Comparator Z.compare.
Proof.
  split.
  - intros x y. by rewrite <- Z.compare_antisym.
  - intros x y z. rewrite !Z.compare_lt_iff. lia.
  - intros x y z ->%Z.compare_eq_iff. done.
Qed.

#[export] Instance string_comparator : Comparator String.compare.
Proof.
  assert (Hrefl : forall a, Ascii.compare a a = Eq) by (intros; apply N.compare_refl).
  assert (Heq : forall x y, String.compare x y = Eq -> x = y)
    by apply String.compare_eq_iff.
  split.
  - apply String.compare_antisym.
  - induction x as [|a x IH]; intros [|b y] [|d z]; cbn; try done.
    unfold Ascii.compare.
    destruct (N.compare_spec (N_of_ascii a) (N_of_ascii b)) as [E1|E1|E1];
      destruct (N.compare_spec (N_of_ascii b) (N_of_ascii d)) as [E2|E2|E2];
      destruct (N.compare_spec (N_of_ascii a) (N_of_ascii d)) as [E3|E3|E3];
      try done; try lia; eauto.
  - intros x y z ->%Heq. done.
Qed.

(** Comparison of images, the reverse order, [true] before [false], and the
    lexicographic combination of two comparisons. *)
Definition cmp_on {A B} (f : A -> B) (c : B -> B -> comparison) (x y : A) := c (f x) (f y).
Definition cmp_rev {A} (c : A -> A -> comparison) (x y : A) := c y x.
Definition cmp_true_first (x y : bool) : comparison :=
  match x, y with true, false => Lt | false, true => Gt | _, _ => Eq end.
Definition cmp_then {A} (c d : A -> A -> comparison) (x y : A) : comparison :=
  match c x y with Eq => d x y | r => r end.

#[export] Typeclasses Opaque cmp_on cmp_rev cmp_then.

#[export] Instance cmp_on_comparator {A B} (f : A -> B) c :
  Comparator c -> Comparator (cmp_on f c).
Proof.
  intros H. unfold cmp_on. split; intros.
  - apply cmp_opp.
  - by eapply cmp_trans.
  - by apply cmp_eq_l.
Qed.

#[export] Instance cmp_rev_comparator {A} (c : A -> A -> comparison) :
  Comparator c -> Comparator (cmp_rev c).
Proof.
  intros H. unfold cmp_rev. split; intros.
  - apply cmp_opp.
  - by eapply cmp_trans.
  - apply cmp_eq_r. by apply cmp_eq_sym.
Qed.

#[export] Instance cmp_true_first_comparator : Comparator cmp_true_first.
Proof. split; [intros [] []|intros [] [] []|intros [] [] []]; done. Qed.

#[export] Instance cmp_then_comparator {A} (c d : A -> A -> comparison) :
  Comparator c -> Comparator d -> Comparator (cmp_then c d).
Proof.
  intros Hc Hd. unfold cmp_then. split.
  - intros x y. rewrite (cmp_opp (c:=c) x y), (cmp_opp (c:=d) x y).
    destruct (c y x); done.
  - intros x y z. destruct (c x y) eqn:E1; [|intros _|done].
    + rewrite (cmp_eq_l x y z E1). destruct (c y z); [|done|done]. apply cmp_trans.
    + destruct (c y z) eqn:E2; [|intros _|done].
      * rewrite <- (cmp_eq_r y z x E2), E1. done.
      * by rewrite (cmp_trans x y z).
  - intros x y z. destruct (c x y) eqn:E1; [|done|done]. intros E2.
    rewrite (cmp_eq_l x y z E1). destruct (c y z); [|done|done]. by apply cmp_eq_l.
Qed.

Definition is_lt (c : comparison) : bool := match c with Lt => true | _ => false end.

Lemma is_lt_iff c : is_lt c = true <-> c = Lt.
Proof. destruct c; done. Qed.

Lemma str_compare_eq s t : String.compare s t = Eq <-> s = t.
Proof. split; [apply String.compare_eq_iff|]. intros ->. apply cmp_refl. Qed.

(** ** Lemmas: sorting *)

Lemma insert_by_perm {A} less (x : A) l : insert_by less x l ≡ₚ x :: l.
Proof.
  induction l as [|y l IH]; cbn; [done|]. destruct (less y x); [|done].
  rewrite IH. apply Permutation_swap.
Qed.

Lemma sort_by_perm {A} less (l : list A) : sort_by less l ≡ₚ l.
Proof. induction l as [|x l IH]; cbn; [done|]. by rewrite insert_by_perm, IH. Qed.

Lemma sort_by_length {A} less (l : list A) : length (sort_by less l) = length l.
Proof. by rewrite sort_by_perm. Qed.

Lemma elem_of_sort_by {A} less (x : A) l : x ∈ sort_by less l <-> x ∈ l.
Proof. by rewrite sort_by_perm. Qed.

Lemma insert_by_ext {A} (less less' : A -> A -> bool) x l :
  (forall x y, less x y = less' x y) -> insert_by less x l = insert_by less' x l.
Proof. intros Hless. induction l as [|y l IH]; cbn; [done|]. by rewrite Hless, IH. Qed.

Lemma sort_by_ext {A} (less less' : A -> A -> bool) l :
  (forall x y, less x y = less' x y) -> sort_by less l = sort_by less' l.
Proof.
  intros Hless. unfold sort_by. induction l as [|x l IH]; cbn; [done|]. rewrite IH. by apply insert_by_ext.
Qed.

(** [Sorted] here says that no element is less than an earlier one. *)
Definition not_after {A} (c : A -> A -> comparison) (x y : A) : Prop := c y x <> Lt.

Section SortBy.
Context {A} (c : A -> A -> comparison) `{!Comparator c}.
Let less x y := is_lt (c x y).

Lemma insert_by_sorted x l :
  StronglySorted (not_after c) l -> StronglySorted (not_after c) (insert_by less x l).
Proof.
  induction 1 as [|y l Hl IH Hy]; cbn.
  { repeat constructor. }
  destruct (less y x) eqn:E.
  - constructor; [done|]. rewrite insert_by_perm. constructor; [|done].
    apply is_lt_iff in E. unfold not_after. rewrite cmp_opp, E. done.
  - constructor; [by constructor|].
    assert (Hx : not_after c x y) by (intros Hlt; unfold less in E; rewrite Hlt in E; done).
    constructor; [done|]. eapply Forall_impl; [exact Hy|].
    intros z Hz. by eapply cmp_not_lt_trans.
Qed.

Lemma sort_by_sorted l : StronglySorted (not_after c) (sort_by less l).
Proof. induction l as [|x l IH]; cbn; [constructor|]. by apply insert_by_sorted. Qed.

(** A comparator that separates the elements of a list has one sorted
    permutation of it: the order the list came in does not matter. *)
Lemma sort_by_unique l1 l2 :
  l1 ≡ₚ l2 -> (forall x y, x ∈ l1 -> y ∈ l1 -> c x y = Eq -> x = y) ->
  sort_by less l1 = sort_by less l2.
Proof.
  intros Hp Hsep. apply (StronglySorted_unique_strong (not_after c)).
  - intros x y Hx%elem_of_sort_by Hy%elem_of_sort_by H1 H2.
    rewrite <- Hp in Hy. apply Hsep; [done|done|].
    unfold not_after in *. rewrite (cmp_opp y x) in H1.
    destruct (c x y); done.
  - apply sort_by_sorted.
  - apply sort_by_sorted.
  - by rewrite !sort_by_perm.
Qed.
End SortBy.

(** ** Lemmas: sums, folds, iteration *)

Lemma sum_Z_app {A} (f : A -> Z) l k : sum_Z f (l ++ k) = sum_Z f l + sum_Z f k.
Proof. induction l as [|x l IH]; cbn; [lia|]. rewrite IH. lia. Qed.

Lemma sum_Z_perm {A} (f : A -> Z) l k : l ≡ₚ k -> sum_Z f l = sum_Z f k.
Proof. induction 1; cbn; lia. Qed.

Lemma sum_Z_nonneg {A} (f : A -> Z) l : (forall x, x ∈ l -> 0 <= f x) -> 0 <= sum_Z f l.
Proof.
  induction l as [|x l IH]; cbn; intros H; [lia|].
  pose proof (H x ltac:(left)). assert (0 <= sum_Z f l); [|lia].
  apply IH. intros y Hy. apply H. by right.
Qed.

#[export] Instance sum_Z_proper {A} (f : A -> Z) : Proper (Permutation ==> eq) (sum_Z f).
Proof. intros l k. apply sum_Z_perm. Qed.

Lemma sum_Z_submseteq {A} (f : A -> Z) l k :
  (forall x, x ∈ k -> 0 <= f x) -> l ⊆+ k -> sum_Z f l <= sum_Z f k.
Proof.
  intros Hf [r Hr]%submseteq_Permutation. rewrite Hr, sum_Z_app.
  assert (0 <= sum_Z f r); [|lia]. apply sum_Z_nonneg. intros x Hx. apply Hf. rewrite Hr. set_solver.
Qed.

Lemma sum_Z_ext {A} (f g : A -> Z) l : (forall x, x ∈ l -> f x = g x) -> sum_Z f l = sum_Z g l.
Proof.
  induction l as [|x l IH]; cbn; intros H; [done|].
  rewrite (H x) by (apply elem_of_cons; by left). f_equal. apply IH. intros y Hy. apply H.
  apply elem_of_cons. by right.
Qed.

Lemma sum_Z_map {A B} (f : B -> Z) (g : A -> B) l : sum_Z f (map g l) = sum_Z (fun x => f (g x)) l.
Proof. induction l as [|x l IH]; cbn; congruence. Qed.

Lemma sum_Z_const {A} (l : list A) : sum_Z (fun _ => 1) l = Z.of_nat (length l).
Proof. induction l as [|x l IH]; cbn; lia. Qed.

(** A running [int] sum is the sum, wrapped. *)
Lemma foldl_wrap {A} (f : A -> Z) acc l :
  in_int64 acc -> foldl (fun acc x => acc +i f x) acc l = wrap64 (acc + sum_Z f l).
Proof.
  revert acc. induction l as [|x l IH]; intros acc Hacc; cbn.
  - by rewrite Z.add_0_r, wrap64_id.
  - rewrite IH by apply wrap64_range. rewrite wrap64_add_l. f_equal. lia.
Qed.

(** The same sum where the loop skips some elements. *)
Lemma foldl_wrap_if {A} (p : A -> bool) (f : A -> Z) acc l :
  in_int64 acc -> foldl (fun acc x => if p x then acc +i f x else acc) acc l =
  wrap64 (acc + sum_Z (fun x => if p x then f x else 0) l).
Proof.
  revert acc. induction l as [|x l IH]; intros acc Hacc; cbn.
  - by rewrite Z.add_0_r, wrap64_id.
  - destruct (p x); rewrite IH by (done || apply wrap64_range);
      rewrite ?wrap64_add_l; f_equal; lia.
Qed.

(** *** Sums over the values of a map *)

Definition sum_map {V} (f : V -> Z) (m : gmap string V) : Z := sum_Z (fun x => f x.2) (map_to_list m).

Section SumMap.
Context {V : Type} (f : V -> Z).
Implicit Types m : gmap string V.

Lemma sum_map_empty : sum_map f ∅ = 0.
Proof. unfold sum_map. by rewrite map_to_list_empty. Qed.

Lemma sum_map_insert m k v : m !! k = None -> sum_map f (<[k := v]> m) = f v + sum_map f m.
Proof. intros Hk. unfold sum_map. by rewrite map_to_list_insert. Qed.

Lemma sum_map_delete m k v : m !! k = Some v -> sum_map f (delete k m) = sum_map f m - f v.
Proof.
  intros Hk. rewrite <- (insert_delete_id m k v Hk) at 2.
  rewrite sum_map_insert by apply lookup_delete_eq. lia.
Qed.

Lemma sum_map_update m k v v' : m !! k = Some v -> sum_map f (<[k := v']> m) = sum_map f m - f v + f v'.
Proof.
  intros Hk. rewrite <- insert_delete_eq, sum_map_insert by apply lookup_delete_eq.
  rewrite (sum_map_delete m k v Hk). lia.
Qed.

Lemma sum_map_insert_le m k v :
  (forall k v, m !! k = Some v -> 0 <= f v) -> sum_map f (<[k := v]> m) <= sum_map f m + f v.
Proof.
  intros Hf. destruct (m !! k) as [w|] eqn:E.
  - rewrite (sum_map_update m k w v E). specialize (Hf _ _ E). lia.
  - rewrite sum_map_insert by done. lia.
Qed.

Lemma sum_map_nonneg m : (forall k v, m !! k = Some v -> 0 <= f v) -> 0 <= sum_map f m.
Proof.
  intros H. apply sum_Z_nonneg. intros [k v] Hkv%elem_of_map_to_list. by eapply H.
Qed.

Lemma sum_map_mono m1 m2 :
  (forall k v, m2 !! k = Some v -> 0 <= f v) -> m1 ⊆ m2 -> sum_map f m1 <= sum_map f m2.
Proof.
  intros Hf Hs. apply sum_Z_submseteq; [|by apply map_to_list_submseteq].
  intros [k v] Hkv%elem_of_map_to_list. by eapply Hf.
Qed.
End SumMap.

Lemma sum_map_ext {V} (f g : V -> Z) (m : gmap string V) :
  (forall k v, m !! k = Some v -> f v = g v) -> sum_map f m = sum_map g m.
Proof. intros H. apply sum_Z_ext. intros [k v] Hkv%elem_of_map_to_list. by eapply H. Qed.

Lemma sum_map_size {V} (f : V -> Z) (m : gmap string V) :
  (forall v, f v <= 1) -> sum_map f m <= Z.of_nat (size m).
Proof.
  intros Hf. rewrite <- length_map_to_list. unfold sum_map.
  induction (map_to_list m) as [|x l IH]; cbn; [lia|]. specialize (Hf x.2). lia.
Qed.

Section RangeLemmas.
Context `{MapRange} {V : Type}.
Implicit Types m : gmap string V.

Lemma map_values_perm m : map_values m ≡ₚ (map_to_list m).*2.
Proof. unfold map_values. by rewrite map_range_perm. Qed.

Lemma sum_map_values (f : V -> Z) m : sum_Z f (map_values m) = sum_map f m.
Proof. rewrite map_values_perm. apply sum_Z_map. Qed.

Lemma elem_of_map_values m v : v ∈ map_values m <-> exists k, m !! k = Some v.
Proof.
  rewrite map_values_perm, list_elem_of_fmap. split.
  - intros ([k v'] & -> & Hk%elem_of_map_to_list). eauto.
  - intros [k Hk]. exists (k, v). split; [done|]. by apply elem_of_map_to_list.
Qed.

Lemma find_value_Some p m v :
  find_value p m = Some v -> (exists k, m !! k = Some v) /\ p v = true.
Proof.
  intros [Hin Hp]%List.find_some. split; [|done].
  apply elem_of_map_values. by apply list_elem_of_In.
Qed.

Lemma find_value_None p m :
  find_value p m = None <-> forall k v, m !! k = Some v -> p v = false.
Proof.
  split.
  - intros Hf k v Hk. apply (List.find_none _ _ Hf), list_elem_of_In, elem_of_map_values. eauto.
  - intros Hall. unfold find_value. destruct (List.find p (map_values m)) as [v|] eqn:E; [|done].
    apply List.find_some in E as [Hin Hp].
    apply list_elem_of_In, elem_of_map_values in Hin as [k Hk].
    by rewrite (Hall k v) in Hp.
Qed.
End RangeLemmas.

(** ** Lemmas: loops over lists in any order *)

Lemma filter_nil {A} (p : A -> bool) l : (forall x, x ∈ l -> p x = false) -> List.filter p l = [].
Proof.
  induction l as [|x l IH]; cbn; intros H; [done|].
  rewrite (H x) by (apply elem_of_cons; by left). apply IH. intros y Hy. apply H.
  apply elem_of_cons. by right.
Qed.

(** A loop whose rounds commute does not depend on the order of the list. *)
Lemma foldl_perm {A B} (f : B -> A -> B) l k acc :
  (forall acc x y, f (f acc x) y = f (f acc y) x) -> l ≡ₚ k -> foldl f acc l = foldl f acc k.
Proof.
  intros Hf Hp. revert acc.
  induction Hp as [|x l k _ IH|x y l|l1 l2 l3 _ IH1 _ IH2]; intros acc; cbn; [done|apply IH| |].
  - by rewrite Hf.
  - by rewrite IH1.
Qed.
