(* ===== verification/Sha256.v ===== *)
(** * SHA-256 and hexadecimal encoding

    The hash of Go's [crypto/sha256] and [encoding/hex], as the backend uses them:
    [ExpressionHash] in [pricing/types.go], [hashAPIKey] and [prefix] in
    [controlplane/service.go].  Executable, so that identities derived from a
    hash evaluate on concrete records. *)

From S2P Require Import Prelude.
From Stdlib Require Import Ascii.

Definition w32 (z : Z) : Z := Z.land z 4294967295.
Definition rotr (n x : Z) : Z :=
  Z.lor (Z.shiftr x n) (w32 (Z.shiftl x (32 - n))).
Definition sha_ch (x y z : Z) : Z := Z.lxor (Z.land x y) (Z.land (4294967295 - x) z).
Definition sha_maj (x y z : Z) : Z :=
  Z.lxor (Z.lxor (Z.land x y) (Z.land x z)) (Z.land y z).
Definition big_sigma0 (x : Z) : Z := Z.lxor (Z.lxor (rotr 2 x) (rotr 13 x)) (rotr 22 x).
Definition big_sigma1 (x : Z) : Z := Z.lxor (Z.lxor (rotr 6 x) (rotr 11 x)) (rotr 25 x).
Definition small_sigma0 (x : Z) : Z := Z.lxor (Z.lxor (rotr 7 x) (rotr 18 x)) (Z.shiftr x 3).
Definition small_sigma1 (x : Z) : Z := Z.lxor (Z.lxor (rotr 17 x) (rotr 19 x)) (Z.shiftr x 10).

Definition sha_k : list Z := [
  1116352408; 1899447441; 3049323471; 3921009573; 961987163; 1508970993; 2453635748; 2870763221;
  3624381080; 310598401; 607225278; 1426881987; 1925078388; 2162078206; 2614888103; 3248222580;
  3835390401; 4022224774; 264347078; 604807628; 770255983; 1249150122; 1555081692; 1996064986;
  2554220882; 2821834349; 2952996808; 3210313671; 3336571891; 3584528711; 113926993; 338241895;
  666307205; 773529912; 1294757372; 1396182291; 1695183700; 1986661051; 2177026350; 2456956037;
  2730485921; 2820302411; 3259730800; 3345764771; 3516065817; 3600352804; 4094571909; 275423344;
  430227734; 506948616; 659060556; 883997877; 958139571; 1322822218; 1537002063; 1747873779;
  1955562222; 2024104815; 2227730452; 2361852424; 2428436474; 2756734187; 3204031479; 3329325298].

Definition sha_h0 : list Z :=
  [1779033703; 3144134277; 1013904242; 2773480762; 1359893119; 2600822924; 528734635; 1541459225].

(** Big-endian words of a list of bytes. *)
Fixpoint be_words (l : list Z) : list Z :=
  match l with
  | a :: b :: c :: d :: l' =>
      Z.shiftl a 24 + Z.shiftl b 16 + Z.shiftl c 8 + d :: be_words l'
  | _ => []
  end.

(** [extend] keeps the last sixteen schedule words, newest first. *)
Fixpoint sha_rounds (ks : list Z) (w : list Z) (st : list Z) : list Z :=
  match ks, w, st with
  | k :: ks', w0 :: w', [a; b; c; d; e; f; g; h] =>
      let t1 := w32 (h + big_sigma1 e + sha_ch e f g + k + w0) in
      let t2 := w32 (big_sigma0 a + sha_maj a b c) in
      let w16 := w32 (small_sigma1 (nth 13 w' 0) + nth 8 w' 0
                      + small_sigma0 (nth 0 w' 0) + w0) in
      sha_rounds ks' (w' ++ [w16]) [w32 (t1 + t2); a; b; c; w32 (d + t1); e; f; g]
  | _, _, _ => st
  end.

Definition sha_block (st : list Z) (block : list Z) : list Z :=
  zip_with (fun x y => w32 (x + y)) st (sha_rounds sha_k (be_words block) st).

Fixpoint sha_blocks (n : nat) (st : list Z) (l : list Z) : list Z :=
  match n with
  | O => st
  | S n' => sha_blocks n' (sha_block st (take 64 l)) (drop 64 l)
  end.

Definition be_bytes (n : nat) (z : Z) : list Z :=
  rev (map (fun i => Z.land (Z.shiftr z (8 * Z.of_nat i)) 255) (seq 0 n)).

Definition sha_pad (l : list Z) : list Z :=
  let n := length l in
  let zeros := Z.to_nat ((55 - Z.of_nat n) mod 64) in
  l ++ 128 :: repeat 0 zeros ++ be_bytes 8 (8 * Z.of_nat n).

Definition bytes_of_string (s : string) : list Z :=
  map (fun a => Z.of_N (N_of_ascii a)) (String.list_ascii_of_string s).

(** [sha256.Sum256] *)
Definition Sum256 (s : string) : list Z :=
  let l := sha_pad (bytes_of_string s) in
  flat_map (be_bytes 4) (sha_blocks (length l / 64) sha_h0 l).

(** [hex.EncodeToString] *)
Definition hex_digit (n : Z) : ascii :=
  ascii_of_N (Z.to_N (if n <? 10 then 48 + n else 87 + n)).
Definition EncodeToString (l : list Z) : string :=
  String.string_of_list_ascii
    (flat_map (fun b => [hex_digit (Z.shiftr b 4); hex_digit (Z.land b 15)]) l).

Definition sha256_hex (s : string) : string := EncodeToString (Sum256 s).

(** [hashAPIKey] and [prefix] of service.go *)
Definition hashAPIKey (value : string) : string := EncodeToString (Sum256 value).
Definition prefix (value : string) (length : nat) : string :=
  if (String.length value <=? length)%nat then value else String.substring 0 length value.

Example sha256_empty :
  sha256_hex "" = "e3b0c44298fc1c149afbf4c8996fb92427ae41e4649b934ca495991b7852b855"%string.
Proof. vm_compute. reflexivity. Qed.

Example sha256_abc :
  sha256_hex "abc" = "ba7816bf8f01cfea414140de5dae2223b00361a396177a9cb410ff61f20015ad"%string.
Proof. vm_compute. reflexivity. Qed.

Example sha256_two_blocks :
  sha256_hex "abcdbcdecdefdefgefghfghighijhijkijkljklmklmnlmnomnopnopq"
  = "248d6a61d20638b8e5c026930c3e6039a33ce45964ff2167f6ecedd419db06c1"%string.
Proof. vm_compute. reflexivity. Qed.

(** ** Identities derived from a hash are plain text *)

Notation plain_text s := (forallb plain_char (String.list_ascii_of_string s) = true) (only parsing).

Lemma hex_digit_all (p : ascii -> bool) n :
  forallb (fun n => p (hex_digit n)) (map Z.of_nat (seq 0 16)) = true -> 0 <= n < 16 -> p (hex_digit n) = true.
Proof.
  intros Hall Hn. apply (proj1 (forallb_forall _ _) Hall), in_map_iff.
  exists (Z.to_nat n). split; [lia|]. apply in_seq. lia.
Qed.

Lemma hex_all (p : ascii -> bool) l :
  forallb (fun n => p (hex_digit n)) (map Z.of_nat (seq 0 16)) = true -> Forall (fun b => 0 <= b < 256) l ->
  forallb p (String.list_ascii_of_string (EncodeToString l)) = true.
Proof.
  intros Hp Hl. unfold EncodeToString. rewrite String.list_ascii_of_string_of_list_ascii.
  induction Hl as [|b l Hb _ IH]; cbn [flat_map app forallb]; [done|].
  rewrite !(hex_digit_all p), IH; [done|done| |done|].
  - change 15 with (Z.ones 4). rewrite Z.land_ones by lia. apply Z.mod_pos_bound. lia.
  - rewrite Z.shiftr_div_pow2 by lia. cbn. split; [apply Z.div_pos; lia|apply Z.div_lt_upper_bound; lia].
Qed.

Lemma hex_plain l : Forall (fun b => 0 <= b < 256) l -> plain_text (EncodeToString l).
Proof. apply hex_all. vm_compute. reflexivity. Qed.

Lemma be_bytes_range n z : Forall (fun b => 0 <= b < 256) (be_bytes n z).
Proof.
  apply Forall_rev, Forall_map, Forall_forall. intros i _. change 255 with (Z.ones 8).
  rewrite Z.land_ones by lia. apply Z.mod_pos_bound. lia.
Qed.

Lemma Sum256_range s : Forall (fun b => 0 <= b < 256) (Sum256 s).
Proof.
  unfold Sum256. induction (sha_blocks _ _ _) as [|w l IH]; cbn [flat_map]; [constructor|].
  apply Forall_app. split; [apply be_bytes_range|done].
Qed.

Lemma hash_plain s : plain_text (hashAPIKey s).
Proof. apply hex_plain, Sum256_range. Qed.

(** A hash in hexadecimal has no upper-case letters. *)
Lemma hash_lower `{UnicodeCase} s : ToLower (sha256_hex s) = sha256_hex s.
Proof.
  unfold ToLower, all_ascii, sha256_hex.
  rewrite (hex_all (fun a => ascii_in a 0 127)) by (first [apply Sum256_range|vm_compute; reflexivity]).
  pose proof (hex_all (fun a => Ascii.eqb (lower_ascii a) a) (Sum256 s)
    ltac:(vm_compute; reflexivity) (Sum256_range s)) as Hl.
  rewrite <- (String.string_of_list_ascii_of_string (EncodeToString _)) at 2. f_equal.
  revert Hl. induction (String.list_ascii_of_string _) as [|a l IH]; cbn; [done|].
  intros [Ha%Ascii.eqb_eq Hl]%andb_true_iff. by rewrite Ha, IH.
Qed.

Lemma substring_plain n m s : plain_text s -> plain_text (String.substring n m s).
Proof.
  revert n m. induction s as [|a s IH]; intros [|n] [|m]; cbn; try done.
  - intros [Ha Hs]%andb_true_iff. cbn. by rewrite Ha, IH.
  - intros [Ha Hs]%andb_true_iff. by apply IH.
  - intros [Ha Hs]%andb_true_iff. by apply IH.
Qed.

Lemma prefix_plain s n : plain_text s -> plain_text (prefix s n).
Proof. unfold prefix. destruct (_ <=? _)%nat; [done|apply substring_plain]. Qed.

Lemma plain_app s t : plain_text s -> plain_text t -> plain_text (s +:+ t)%string.
Proof.
  induction s as [|a s IH]; [done|]. cbn. intros [Ha Hs]%andb_true_iff Ht. apply andb_true_iff.
  split; [done|]. by apply IH.
Qed.
