(* ===== verification/Threads.v ===== *)
(** * Service calls as interleaved programs

    A method of [Service] reads and writes the repository several times, and
    other calls run between two of these critical sections.  Here a method is a
    program of critical sections, a pool is the calls under way, and [holds] is a
    rely-guarantee predicate: what a program needs to know of the others, and
    what it promises them.  [pool_sound] says that programs that keep their
    promises keep the invariant of the store in every interleaving. *)

From S2P Require Import Prelude.

(** ** Programs *)

Section Programs.
Context {state : Type}.

(** [Atomic act k] runs one critical section and goes on with its answer. *)
Inductive prog (A : Type) : Type :=
| Ret (a : A)
| Atomic {X : Type} (act : state -> X * state) (k : X -> prog A).
Arguments Ret {A}.
Arguments Atomic {A X}.

Fixpoint prog_bind {A B} (p : prog A) (f : A -> prog B) : prog B :=
  match p with
  | Ret a => f a
  | Atomic act k => Atomic act (fun x => prog_bind (k x) f)
  end.

(** ** Rely and guarantee

    A world is a store with the number of critical sections run so far, which
    stays below [bound].  [ok] is the invariant of the store, [later] what no
    critical section undoes, and [present] the identifiers the store knows. *)
Context (bound : Z) (ok : Z * state -> Prop) (later : Z * state -> Z * state -> Prop).
Context (present : string -> state -> Prop).

(** What a program with the random identifiers [ids] may assume of the others,
    and what it promises: nobody else brings its identifiers into the store. *)
Definition rely (ids : gset string) (w w' : Z * state) : Prop :=
  ok w' /\ later w w' /\ forall id, id ∈ ids -> present id w'.2 -> present id w.2.
Definition guar (ids : gset string) (w w' : Z * state) : Prop :=
  ok w' /\ later w w' /\ forall id, present id w'.2 -> present id w.2 \/ id ∈ ids.

Definition after {X} (act : state -> X * state) (w : Z * state) : X * (Z * state) :=
  ((act w.2).1, (w.1 + 1, (act w.2).2)).

(** A program that nobody interrupts. *)
Fixpoint run_in {A} (p : prog A) (w : Z * state) : A * (Z * state) :=
  match p with
  | Ret a => (a, w)
  | Atomic act k => let '(x, w') := after act w in run_in (k x) w'
  end.

Fixpoint holds {A} (ids : gset string) (p : prog A) (Q : A -> Z * state -> Prop) (w : Z * state) : Prop :=
  forall w', rely ids w w' ->
  match p with
  | Ret a => Q a w'
  | Atomic act k =>
      w'.1 < bound ->
      guar ids w' (after act w').2 /\ holds ids (k (after act w').1) Q (after act w').2
  end.

Context (later_refl : forall w, later w w).
Context (later_trans : forall w1 w2 w3, later w1 w2 -> later w2 w3 -> later w1 w3).

Lemma rely_refl ids w : ok w -> rely ids w w.
Proof. done. Qed.

Lemma rely_trans ids w1 w2 w3 : rely ids w1 w2 -> rely ids w2 w3 -> rely ids w1 w3.
Proof. intros (_ & L1 & P1) (O2 & L2 & P2). split_and!; [done|by eapply later_trans|auto]. Qed.

Lemma holds_later {A} ids (p : prog A) Q w w' : holds ids p Q w -> rely ids w w' -> holds ids p Q w'.
Proof. destruct p; cbn; intros Hp Hr w2 Hr2; apply Hp; by eapply rely_trans. Qed.

Lemma holds_ret {A} ids (a : A) Q w : (forall w', rely ids w w' -> Q a w') -> holds ids (Ret a) Q w.
Proof. done. Qed.

Lemma holds_bind {A B} ids (p : prog A) (f : A -> prog B) Q w :
  holds ids p (fun a w' => holds ids (f a) Q w') w -> ok w -> holds ids (prog_bind p f) Q w.
Proof.
  revert w. induction p as [a|X act k IH]; intros w; cbn [holds prog_bind]; intros Hp Hok.
  - apply Hp. by apply rely_refl.
  - intros w' Hr Hb. destruct (Hp w' Hr Hb) as [Hg Hk]. split; [done|]. apply IH; [done|]. apply Hg.
Qed.

Lemma holds_impl {A} ids (p : prog A) (Q Q' : A -> Z * state -> Prop) w :
  (forall a w', ok w' -> Q a w' -> Q' a w') -> holds ids p Q w -> holds ids p Q' w.
Proof.
  intros HQ. revert w. induction p as [a|X act k IH]; intros w; cbn; intros Hp w' Hr.
  - apply HQ; [by destruct Hr|auto].
  - intros Hb. destruct (Hp w' Hr Hb). auto.
Qed.

(** Whatever a program and the others do, nothing is undone. *)
Lemma holds_grows {A} ids (p : prog A) Q w :
  holds ids p Q w -> holds ids p (fun a w' => Q a w' /\ later w w') w.
Proof.
  intros Hp. assert (H : forall w0, later w0 w -> holds ids p (fun a w' => Q a w' /\ later w0 w') w); [|by apply H].
  revert w Hp. induction p as [a|X act k IH]; intros w Hp w0 Hl w1 (Ho & Hl1 & Hpr).
  - split; [by apply Hp|]. by eapply later_trans.
  - intros Hb. destruct (Hp w1 (conj Ho (conj Hl1 Hpr)) Hb) as [Hg Hk]. split; [done|].
    apply IH; [done|]. eapply later_trans; [exact Hl|]. eapply later_trans; [exact Hl1|]. apply Hg.
Qed.

(** What [others] does, seen by a program with other identifiers. *)
Lemma guar_rely mine others w w' : mine ## others -> guar others w w' -> rely mine w w'.
Proof.
  intros Hd (Ho & Hl & Hp). split_and!; [done..|]. intros id Hid Hpr.
  destruct (Hp id Hpr) as [?|Hin]; [done|]. by destruct (Hd id Hid Hin).
Qed.

(** ** Pools *)

Record thread := mkThread { owned : gset string; answer : Type; code : prog answer }.

Record pool := mkPool { world : Z * state; used : gset string; threads : list thread }.

(** A call starts with identifiers never drawn before; a call under way runs its
    next critical section; the rest of the system changes what the programs do
    not speak about. *)
Inductive pool_step (calls : thread -> Prop) (outside : state -> state -> Prop) : pool -> pool -> Prop :=
| Step_call t P :
    calls t -> owned t ## used P ->
    pool_step calls outside P (mkPool (world P) (owned t ∪ used P) (t :: threads P))
| Step_section l1 l2 ids A X (act : state -> X * state) (k : X -> prog A) w u :
    w.1 < bound ->
    pool_step calls outside (mkPool w u (l1 ++ mkThread ids A (Atomic act k) :: l2))
      (mkPool (after act w).2 u (l1 ++ mkThread ids A (k (after act w).1) :: l2))
| Step_outside P s :
    outside (world P).2 s ->
    pool_step calls outside P (mkPool ((world P).1, s) (used P) (threads P)).

Inductive pool_steps (calls : thread -> Prop) (outside : state -> state -> Prop) : pool -> pool -> Prop :=
| Steps_refl P : pool_steps calls outside P P
| Steps_step P1 P2 P3 :
    pool_steps calls outside P1 P2 -> pool_step calls outside P2 P3 -> pool_steps calls outside P1 P3.

Record pool_ok (P : pool) : Prop := {
  pool_world : ok (world P);
  pool_used : forall id, present id (world P).2 -> id ∈ used P;
  pool_owned : Forall (fun t => owned t ⊆ used P) (threads P);
  pool_disjoint : ForallOrdPairs (fun t1 t2 => owned t1 ## owned t2) (threads P);
  pool_holds : Forall (fun t => holds (owned t) (code t) (fun _ _ => True) (world P)) (threads P);
}.

Context (calls : thread -> Prop) (outside : state -> state -> Prop).

Lemma pool_steps_trans P1 P2 P3 :
  pool_steps calls outside P1 P2 -> pool_steps calls outside P2 P3 -> pool_steps calls outside P1 P3.
Proof.
  intros H1 H2. induction H2 as [|P2 P3 P4 _ IH Hs]; [done|]. eapply Steps_step; [by apply IH|exact Hs].
Qed.

Lemma run_in_clock {A} (p : prog A) w : w.1 <= (run_in p w).2.1.
Proof.
  revert w. induction p as [a|X act k IH]; intros w; cbn; [lia|]. unfold after in *.
  specialize (IH (act w.2).1 (w.1 + 1, (act w.2).2)). cbn in IH. lia.
Qed.

(** One of the schedules of a pool: a call runs to its end. *)
Lemma run_thread l1 l2 ids A (p : prog A) w u : (run_in p w).2.1 <= bound ->
  pool_steps calls outside (mkPool w u (l1 ++ mkThread ids A p :: l2))
    (mkPool (run_in p w).2 u (l1 ++ mkThread ids A (Ret (run_in p w).1) :: l2)).
Proof.
  revert w. induction p as [a|X act k IH]; intros w Hb; [apply Steps_refl|].
  eapply pool_steps_trans; [eapply Steps_step; [apply Steps_refl|apply Step_section]|apply IH; exact Hb].
  pose proof (run_in_clock (k (after act w).1) (after act w).2) as Hc. cbn in Hb, Hc. unfold after in *. cbn in *. lia.
Qed.

Lemma call_runs t P : calls t -> owned t ## used P -> (run_in (code t) (world P)).2.1 <= bound ->
  pool_steps calls outside P
    (mkPool (run_in (code t) (world P)).2 (owned t ∪ used P)
       (mkThread (owned t) (answer t) (Ret (run_in (code t) (world P)).1) :: threads P)).
Proof.
  intros Ht Hd Hb. eapply pool_steps_trans; [eapply Steps_step; [apply Steps_refl|by apply Step_call]|].
  destruct t as [ids A p]. by apply (run_thread []).
Qed.

(** What a component proves: its calls keep their promises, and the outside
    leaves its part of the store alone. *)
Definition calls_hold : Prop := forall t w,
  calls t -> ok w -> (forall id, id ∈ owned t -> ~ present id w.2) ->
  holds (owned t) (code t) (fun _ _ => True) w.
Definition outside_quiet : Prop := forall n s s', outside s s' -> ok (n, s) ->
  ok (n, s') /\ later (n, s) (n, s') /\ forall id, present id s' <-> present id s.

Lemma disjoint_middle l1 (t : thread) l2 :
  ForallOrdPairs (fun t1 t2 => owned t1 ## owned t2) (l1 ++ t :: l2) ->
  Forall (fun t' => owned t' ## owned t) (l1 ++ l2) /\
  forall t', owned t' = owned t -> ForallOrdPairs (fun t1 t2 => owned t1 ## owned t2) (l1 ++ t' :: l2).
Proof.
  induction l1 as [|t1 l1 IH]; cbn; intros Hd; inversion Hd as [|? ? H1 H2]; subst.
  - split; [|intros t' E; constructor; [by rewrite E|done]]. eapply Forall_impl; [exact H1|]. done.
  - destruct (IH H2) as [IH1 IH2]. apply Forall_app in H1 as [Ha [Hb Hc]%Forall_cons]. split.
    + constructor; [done|done].
    + intros t' E. constructor; [|by apply IH2]. apply Forall_app. split; [done|]. constructor; [by rewrite E|done].
Qed.

Theorem pool_step_ok P P' : calls_hold -> outside_quiet ->
  pool_step calls outside P P' -> pool_ok P -> pool_ok P' /\ later (world P) (world P').
Proof.
  intros Hcalls Hout Hs [Hw Hu Ho Hd Hh].
  destruct Hs as [t P Ht Hnew|l1 l2 ids A X act k w u Hb|P s Hs]; cbn in *.
  - split; [|done]. split; cbn; [done|set_solver| | |].
    + constructor; [set_solver|]. eapply Forall_impl; [exact Ho|]. set_solver.
    + constructor; [|done]. eapply Forall_impl; [exact Ho|]. set_solver.
    + constructor; [|done]. apply Hcalls; [done..|]. intros id Hid Hp. apply (Hnew id Hid). auto.
  - apply Forall_app in Hh as [Hh1 [Hh Hh2]%Forall_cons]. cbn [owned code] in Hh.
    apply Forall_app in Ho as [Ho1 [Ho Ho2]%Forall_cons]. cbn [owned] in Ho.
    destruct (disjoint_middle _ _ _ Hd) as [Hd1 Hd2]. apply Forall_app in Hd1 as [Hd1 Hd3].
    destruct (Hh w (rely_refl ids w Hw) Hb) as [Hg Hk]. split; [|apply Hg].
    assert (Hothers : forall l, Forall (fun t' => owned t' ## ids) l ->
      Forall (fun t => holds (owned t) (code t) (fun _ _ => True) w) l ->
      Forall (fun t => holds (owned t) (code t) (fun _ _ => True) (after act w).2) l).
    { intros l Hdl Hl. rewrite !Forall_forall in *. intros t Ht. eapply holds_later; [by apply Hl|].
      exact (guar_rely _ _ _ _ (Hdl t Ht) Hg). }
    split; cbn [world used threads].
    + apply Hg.
    + intros id Hp. destruct Hg as (_ & _ & Hg). destruct (Hg id Hp); [auto|set_solver].
    + apply Forall_app. split; [done|]. constructor; done.
    + by apply Hd2.
    + apply Forall_app. split; [auto|]. constructor; [done|auto].
  - destruct P as [[n s0] u ts]. cbn in *. destruct (Hout n s0 s Hs Hw) as (Hok & Hl & Hp).
    split; [|done]. split; cbn; [done| |done|done|].
    + intros id Hid. apply Hu. by apply Hp.
    + eapply Forall_impl; [exact Hh|]. intros t Ht. eapply holds_later; [exact Ht|].
      split_and!; [done..|]. intros id _. apply Hp.
Qed.

Lemma pool_sound P P' : calls_hold -> outside_quiet ->
  pool_steps calls outside P P' -> pool_ok P -> pool_ok P' /\ later (world P) (world P').
Proof.
  intros Hcalls Hout Hs HP. induction Hs as [P|P1 P2 P3 _ IH Hs]; [done|].
  destruct (IH HP) as [H2 L2]. destruct (pool_step_ok _ _ Hcalls Hout Hs H2). eauto.
Qed.
End Programs.

Arguments prog : clear implicits.
Arguments Ret {state A}.
Arguments Atomic {state A X}.
Arguments thread : clear implicits.
Arguments pool : clear implicits.
