(* ===== verification/StringLists.v ===== *)
(** * Lists of names

    [cleanStringList] and its relatives of [backend/internal/controlplane/service.go]:
    the lists of models, scopes, addresses and adapters that requests carry are
    trimmed, deduplicated and sorted before they are stored or compared.  The map
    [seen] is a set. *)

From S2P Require Import Prelude.

Fixpoint clean_go (seen : gset string) (values : list string) : list string :=
  match values with
  | [] => []
  | value :: values =>
      let item := TrimSpace value in
      if item =s "" then clean_go seen values
      else if decide (item ∈ seen) then clean_go seen values
      else item :: clean_go ({[item]} ∪ seen) values
  end.

Definition cleanOrderedStringList (values : list string) : list string := clean_go ∅ values.
Definition sort_Strings : list string -> list string := sort_by str_ltb.
Definition cleanStringList (values : list string) : list string := sort_Strings (cleanOrderedStringList values).
Definition mergeStringLists (left right : list string) : list string := cleanStringList (left ++ right).

(** The loop of [sameStringList] over two lists of one length. *)
Fixpoint same_strings (left right : list string) : bool :=
  match left, right with
  | x :: xs, y :: ys => (x =s y) && same_strings xs ys
  | _, _ => true
  end.
Definition sameStringList (left right : list string) : bool :=
  let left := cleanStringList left in
  let right := cleanStringList right in
  if negb (Z.of_nat (length left) =? Z.of_nat (length right)) then false else same_strings left right.

(** ** What they compute *)

(** A name of the list: the trimmed form of one of its values, not empty. *)
Definition named (values : list string) (item : string) : Prop :=
  item <> ""%string /\ exists value, value ∈ values /\ TrimSpace value = item.

Lemma named_cons value values item :
  named (value :: values) item <-> item <> ""%string /\ TrimSpace value = item \/ named values item.
Proof. unfold named. setoid_rewrite elem_of_cons. naive_solver. Qed.

Lemma elem_of_clean_go seen values item :
  item ∈ clean_go seen values <-> named values item /\ item ∉ seen.
Proof.
  revert seen. induction values as [|value values IH]; intros seen; cbn [clean_go].
  - unfold named. split; [intros H; exfalso; set_solver|]. intros [(_ & v & Hv & _) _]. exfalso. set_solver.
  - rewrite named_cons. destruct (TrimSpace value =s "") eqn:E; boolify; [rewrite IH; intuition congruence|].
    destruct (decide (TrimSpace value ∈ seen)).
    + rewrite IH. split; [tauto|]. intros [[[_ <-]|?] ?]; tauto.
    + rewrite elem_of_cons, IH, not_elem_of_union, not_elem_of_singleton.
      destruct (decide (item = TrimSpace value)) as [->|]; [tauto|]. intuition congruence.
Qed.

Lemma elem_of_clean_ordered values item : item ∈ cleanOrderedStringList values <-> named values item.
Proof. unfold cleanOrderedStringList. rewrite elem_of_clean_go. set_solver. Qed.

Lemma elem_of_clean values item : item ∈ cleanStringList values <-> named values item.
Proof. unfold cleanStringList, sort_Strings. by rewrite elem_of_sort_by, elem_of_clean_ordered. Qed.

Lemma clean_go_NoDup seen values : NoDup (clean_go seen values).
Proof.
  revert seen. induction values as [|value values IH]; intros seen; cbn; [constructor|].
  destruct (_ =s _); [done|]. destruct (decide _); [done|]. constructor; [|done].
  rewrite elem_of_clean_go. set_solver.
Qed.

Lemma clean_ordered_NoDup values : NoDup (cleanOrderedStringList values).
Proof. apply clean_go_NoDup. Qed.

Lemma clean_NoDup values : NoDup (cleanStringList values).
Proof. unfold cleanStringList, sort_Strings. rewrite sort_by_perm. apply clean_ordered_NoDup. Qed.

Lemma clean_sorted values : StronglySorted (not_after String.compare) (cleanStringList values).
Proof. apply sort_by_sorted, _. Qed.

(** A clean list has its names as its elements, and cleaning keeps it. *)
Definition clean (values : list string) : Prop :=
  NoDup values /\ Forall (fun v => TrimSpace v = v /\ v <> ""%string) values.

Lemma clean_is_clean values : clean (cleanStringList values).
Proof.
  split; [apply clean_NoDup|]. apply Forall_forall. intros v (Hv & w & _ & <-)%elem_of_clean.
  by rewrite TrimSpace_idemp.
Qed.

Lemma clean_go_id seen values : clean values -> (forall v, v ∈ values -> v ∉ seen) -> clean_go seen values = values.
Proof.
  intros [Hn Hf]. revert seen. induction values as [|v values IH]; intros seen Hs; cbn [clean_go]; [done|].
  apply NoDup_cons in Hn as [Hv Hn]. apply Forall_cons in Hf as [[Ht He] Hf]. rewrite Ht.
  rewrite (proj2 (String.eqb_neq _ _) He), decide_False by (apply Hs; by left).
  f_equal. apply IH; [done|done|]. set_solver.
Qed.

Lemma clean_ordered_id values : clean values -> cleanOrderedStringList values = values.
Proof. intros H. apply clean_go_id; [done|]. set_solver. Qed.

(** The names decide: their order and repetitions do not matter. *)
Lemma clean_canonical left right :
  (forall item, named left item <-> named right item) -> cleanStringList left = cleanStringList right.
Proof.
  intros H. apply (sort_by_unique String.compare); [|by intros x y _ _ ->%str_compare_eq].
  apply NoDup_Permutation; [apply clean_ordered_NoDup..|]. intros x. rewrite !elem_of_clean_ordered. apply H.
Qed.

Lemma named_clean values item : clean values -> named values item <-> item ∈ values.
Proof.
  intros [_ Hf]. rewrite Forall_forall in Hf. split.
  - intros (Hne & v & Hv & Ht). destruct (Hf v Hv) as [E _]. congruence.
  - intros Hi. destruct (Hf item Hi). split; [done|]. by exists item.
Qed.

Lemma cleanStringList_idemp values : cleanStringList (cleanStringList values) = cleanStringList values.
Proof.
  apply clean_canonical. intros item. rewrite (named_clean _ _ (clean_is_clean values)). apply elem_of_clean.
Qed.

Lemma cleanStringList_app_l left right :
  cleanStringList (cleanStringList left ++ right) = cleanStringList (left ++ right).
Proof.
  assert (H : forall l r item, named (l ++ r) item <-> named l item \/ named r item).
  { intros l r item. unfold named. setoid_rewrite elem_of_app. naive_solver. }
  apply clean_canonical. intros item. rewrite !H, (named_clean _ _ (clean_is_clean left)), elem_of_clean. done.
Qed.

Lemma mergeStringLists_comm left right : mergeStringLists left right = mergeStringLists right left.
Proof. apply clean_canonical. intros item. unfold named. setoid_rewrite elem_of_app. naive_solver. Qed.

Lemma same_strings_eq left right :
  length left = length right -> same_strings left right = true <-> left = right.
Proof.
  revert right. induction left as [|x left IH]; intros [|y right]; cbn; try done. intros [= El].
  rewrite andb_true_iff, String.eqb_eq, IH by done. split; [intros [-> ->]; done|by intros [= -> ->]].
Qed.

(** [sameStringList] compares the sets of names. *)
Lemma sameStringList_spec left right :
  sameStringList left right = true <-> forall item, named left item <-> named right item.
Proof.
  unfold sameStringList. set (l := cleanStringList left). set (r := cleanStringList right).
  assert (E : (if negb (Z.of_nat (length l) =? Z.of_nat (length r)) then false else same_strings l r) = true <-> l = r).
  { destruct (Z.of_nat (length l) =? Z.of_nat (length r)) eqn:El; cbn; boolify.
    - apply same_strings_eq. lia.
    - split; [done|]. intros H. rewrite H in El. done. }
  rewrite E. split; [|apply clean_canonical]. intros H item. rewrite <- !elem_of_clean. unfold l, r in H. by rewrite H.
Qed.

#[export] Hint Resolve clean_is_clean clean_NoDup clean_ordered_NoDup : go.

(** ** Cutting at the last colon *)

(** What stands before and behind the last [c]: [strings.LastIndex]. *)
Fixpoint split_last (c : string) (s : string) : option (string * string) :=
  match s with
  | EmptyString => None
  | String a rest =>
      match split_last c rest with
      | Some (before, behind) => Some (String a before, behind)
      | None => if String a "" =s c then Some (""%string, rest) else None
      end
  end.

(** [model[:separator]] where [separator > 0]. *)
Definition base_model (model : string) : string :=
  match split_last ":" model with
  | Some (before, _) => if before =s "" then model else before
  | None => model
  end.

Lemma split_last_spec c s before behind : split_last c s = Some (before, behind) ->
  s = (before +:+ c +:+ behind)%string.
Proof.
  revert before behind. induction s as [|a s IH]; cbn; intros before behind; [done|].
  destruct (split_last c s) as [[b r]|].
  - intros [= <- <-]. rewrite (IH b r eq_refl). done.
  - destruct (String a "" =s c) eqn:E; [|done]. intros [= <- <-]. boolify. by rewrite <- E.
Qed.
