(* ===== verification/Netip.v ===== *)
(** * Internet addresses

    What the key policies use of Go's [net/netip]: parsing addresses and prefixes,
    masking, printing and containment.  An address is a number of 32 or 128 bits;
    an error of the package is [None], since its text is never looked at. *)

From Stdlib Require Import Ascii.
From S2P Require Import Prelude.

Record Addr := mkAddr { is4 : bool; addr_value : Z; addr_zone : string }.
Definition BitLen (a : Addr) : Z := if is4 a then 32 else 128.

Record NetPrefix := mkPrefix { prefix_addr : Addr; Bits : Z }.
(** [PrefixFrom] drops the zone. *)
Definition PrefixFrom (a : Addr) (bits : Z) : NetPrefix := mkPrefix (mkAddr (is4 a) (addr_value a) "") bits.

(** ** Parsing *)

Definition dot : ascii := "."%char.
Definition colon : ascii := ":"%char.

(** [parseIPv4Fields]: [val] and [digits] are the octet read so far, [fields] the
    octets before it, last first. *)
Fixpoint parse_octets (l : list ascii) (val : Z) (digits : nat) (fields : list Z) : option (list Z) :=
  match l with
  | [] => if (length fields <? 3)%nat then None else Some (val :: fields)
  | c :: rest =>
      if is_digit c then
        if (digits =? 1)%nat && (val =? 0) then None
        else
          let val := val * 10 + (Z.of_N (N_of_ascii c) - 48) in
          if val >? 255 then None else parse_octets rest val (S digits) fields
      else if Ascii.eqb c dot then
        if (digits =? 0)%nat || (match rest with [] => true | _ => false end) then None
        else if (length fields =? 3)%nat then None
        else parse_octets rest 0 O (val :: fields)
      else None
  end.

(** The number of a list of digits in base [2^width], last digit first. *)
Definition number (width : Z) (l : list Z) : Z := foldr (fun d n => Z.shiftl n width + d) 0 l.

Definition parseIPv4 (l : list ascii) : option Addr :=
  fields ← parse_octets l 0 O [];
  Some (mkAddr true (number 8 fields) "").

Definition hex_digit (c : ascii) : option Z :=
  let n := Z.of_N (N_of_ascii c) in
  if ascii_in c 48 57 then Some (n - 48)
  else if ascii_in c 97 102 then Some (n - 97 + 10)
  else if ascii_in c 65 70 then Some (n - 65 + 10)
  else None.

(** The hex digits at the front: how many, their number, and the rest; [None]
    where there are more than four. *)
Fixpoint hex_group (l : list ascii) (off : nat) (acc : Z) : option (nat * Z * list ascii) :=
  match l with
  | [] => Some (off, acc, [])
  | c :: rest =>
      match hex_digit c with
      | None => Some (off, acc, l)
      | Some d => if (3 <? off)%nat then None else hex_group rest (S off) (Z.shiftl acc 4 + d)
      end
  end.

(** The groups read, first first, with the place of the ellipsis. *)
Definition expand (groups : list Z) (ellipsis : option nat) : option (list Z) :=
  match ellipsis with
  | None => if (length groups =? 8)%nat then Some groups else None
  | Some at_ =>
      if (length groups <? 8)%nat
      then Some (take at_ groups ++ repeat 0 (8 - length groups) ++ drop at_ groups)
      else None
  end.

(** The loop of [parseIPv6]; [fuel] bounds the groups, at most eight. *)
Fixpoint parse_groups (fuel : nat) (l : list ascii) (groups : list Z) (ellipsis : option nat) : option (list Z) :=
  match fuel with
  | O => (* all sixteen bytes are read, and something is left *) None
  | S fuel =>
      '(off, acc, rest) ← hex_group l O 0;
      if (off =? 0)%nat then None else
      match rest with
      | [] => expand (groups ++ [acc]) ellipsis
      | c :: rest' =>
          if Ascii.eqb c dot then
            if (if ellipsis then false else negb (length groups =? 6)%nat) || (6 <? length groups)%nat then None
            else
              octets ← parse_octets l 0 O [];
              match octets with
              | [o3; o2; o1; o0] => expand (groups ++ [Z.shiftl o0 8 + o1; Z.shiftl o2 8 + o3]) ellipsis
              | _ => None
              end
          else if negb (Ascii.eqb c colon) then None
          else match rest' with
          | [] => None
          | c' :: rest'' =>
              let groups := groups ++ [acc] in
              if Ascii.eqb c' colon then
                if ellipsis then None
                else match rest'' with
                | [] => expand groups (Some (length groups))
                | _ => if (length groups =? 8)%nat then None else parse_groups fuel rest'' groups (Some (length groups))
                end
              else if (length groups =? 8)%nat then None else parse_groups fuel rest' groups ellipsis
          end
      end
  end.

Fixpoint split_zone (l : list ascii) : list ascii * option (list ascii) :=
  match l with
  | [] => ([], None)
  | c :: rest =>
      if Ascii.eqb c "%"%char then ([], Some rest)
      else let '(before, zone) := split_zone rest in (c :: before, zone)
  end.

Definition parseIPv6 (l : list ascii) : option Addr :=
  let '(s, zone) := split_zone l in
  match zone with
  | Some [] => None
  | _ =>
      let zone := match zone with Some z => String.string_of_list_ascii z | None => ""%string end in
      groups ← match s with
               | c1 :: c2 :: rest =>
                   if Ascii.eqb c1 colon && Ascii.eqb c2 colon then
                     match rest with
                     | [] => Some (repeat 0 8)
                     | _ => parse_groups 8 rest [] (Some O)
                     end
                   else parse_groups 8 s [] None
               | _ => parse_groups 8 s [] None
               end;
      Some (mkAddr false (number 16 (rev groups)) zone)
  end.

(** The first of the three marks decides. *)
Fixpoint address_kind (l : list ascii) : option ascii :=
  match l with
  | [] => None
  | c :: rest => if Ascii.eqb c dot || Ascii.eqb c colon || Ascii.eqb c "%"%char then Some c else address_kind rest
  end.

Definition ParseAddr (s : string) : option Addr :=
  let l := String.list_ascii_of_string s in
  match address_kind l with
  | Some c => if Ascii.eqb c dot then parseIPv4 l else if Ascii.eqb c colon then parseIPv6 l else None
  | None => None
  end.

(** The text before and after the last slash. *)
Fixpoint last_slash (l : list ascii) : option (list ascii * list ascii) :=
  match l with
  | [] => None
  | c :: rest =>
      match last_slash rest with
      | Some (before, behind) => Some (c :: before, behind)
      | None => if Ascii.eqb c "/"%char then Some ([], rest) else None
      end
  end.

Definition parse_bits (s : string) : option Z :=
  match s with
  | EmptyString => None
  | String c rest =>
      if negb (rest =s "") && negb (ascii_in c 49 57) then None
      else if all_digits s then Some (Z.of_N (digits_value 0 s)) else None
  end.

Definition ParsePrefix (s : string) : option NetPrefix :=
  '(before, behind) ← last_slash (String.list_ascii_of_string s);
  ip ← ParseAddr (String.string_of_list_ascii before);
  if negb (is4 ip) && (addr_zone ip <>s "") then None else
  bits ← parse_bits (String.string_of_list_ascii behind);
  if bits >? BitLen ip then None else Some (PrefixFrom ip bits).

(** ** Masks and containment *)

Definition mask (len bits : Z) : Z := Z.shiftl (Z.ones bits) (len - bits).
Definition Masked (p : NetPrefix) : NetPrefix :=
  let a := prefix_addr p in
  mkPrefix (mkAddr (is4 a) (Z.land (addr_value a) (mask (BitLen a) (Bits p))) "") (Bits p).

Definition prefix_Contains (p : NetPrefix) (a : Addr) : bool :=
  let pa := prefix_addr p in
  if (addr_zone a <>s "") || negb (Bool.eqb (is4 pa) (is4 a)) then false
  else Z.land (Z.lxor (addr_value a) (addr_value pa)) (mask (BitLen a) (Bits p)) =? 0.

(** ** Printing *)

Definition field (width index value : Z) : Z := Z.land (Z.shiftr value (width * index)) (Z.ones width).

Definition string4 (value : Z) : string :=
  (Itoa (field 8 3 value) +:+ "." +:+ Itoa (field 8 2 value) +:+ "." +:+ Itoa (field 8 1 value)
   +:+ "." +:+ Itoa (field 8 0 value))%string.

Definition hex_char (d : Z) : ascii := ascii_of_N (Z.to_N (if d <? 10 then 48 + d else 87 + d)).
(** Without the zeros at the front, but with the last digit. *)
Fixpoint skip_zeros (l : list Z) : list Z :=
  match l with
  | 0 :: ((_ :: _) as rest) => skip_zeros rest
  | _ => l
  end.
Definition hex16 (v : Z) : string :=
  String.string_of_list_ascii (map hex_char (skip_zeros [field 4 3 v; field 4 2 v; field 4 1 v; field 4 0 v])).

Definition groups_of (value : Z) : list Z := map (fun i => field 16 (7 - Z.of_nat i) value) (seq 0 8).

(** The length of the run of zeros at the front. *)
Fixpoint zeros (l : list Z) : nat := match l with 0 :: rest => S (zeros rest) | _ => O end.
(** The longest run of two zeros or more, the first of them: [(start, length)]. *)
Fixpoint zero_run (i : nat) (l : list Z) (best : nat * nat) : nat * nat :=
  match l with
  | [] => best
  | _ :: rest =>
      let n := zeros l in
      zero_run (S i) rest (if (2 <=? n)%nat && (snd best <? n)%nat then (i, n) else best)
  end.

Definition string6 (value : Z) : string :=
  let groups := groups_of value in
  let '(start, n) := zero_run 0 groups (0, 0)%nat in
  if (n =? 0)%nat then String.concat ":" (map hex16 groups)
  else (String.concat ":" (map hex16 (take start groups)) +:+ "::"
        +:+ String.concat ":" (map hex16 (drop (start + n) groups)))%string.

Definition addr_String (a : Addr) : string :=
  let zone := if addr_zone a =s "" then ""%string else ("%" +:+ addr_zone a)%string in
  if is4 a then string4 (addr_value a)
  else if Z.shiftr (addr_value a) 32 =? 65535
  then ("::ffff:" +:+ string4 (addr_value a) +:+ zone)%string
  else (string6 (addr_value a) +:+ zone)%string.

Definition prefix_String (p : NetPrefix) : string :=
  (addr_String (prefix_addr p) +:+ "/" +:+ Itoa (Bits p))%string.

(** ** What masking keeps *)

Lemma Masked_idemp p : Masked (Masked p) = Masked p.
Proof. unfold Masked, BitLen. cbn. by rewrite <- Z.land_assoc, Z.land_diag. Qed.

Lemma Contains_Masked p a : prefix_Contains (Masked p) a = prefix_Contains p a.
Proof.
  unfold prefix_Contains, Masked, BitLen. cbn [prefix_addr is4 addr_value Bits].
  destruct (_ || _) eqn:E; [done|]. boolify. apply eqb_prop in H0. rewrite H0. f_equal.
  apply Z.bits_inj'. intros n Hn. rewrite !Z.land_spec, !Z.lxor_spec, Z.land_spec.
  destruct (Z.testbit (mask _ _) n); by rewrite ?andb_true_r, ?andb_false_r.
Qed.

(** A prefix contains the address it was made of. *)
Lemma Contains_self a bits : addr_zone a = ""%string -> prefix_Contains (PrefixFrom a bits) a = true.
Proof.
  intros Hz. unfold prefix_Contains, PrefixFrom. cbn. rewrite Hz, Bool.eqb_reflx, Z.lxor_nilpotent, Z.land_0_l. done.
Qed.

(** ** Round trips *)

Notation chars := String.list_ascii_of_string (only parsing).

Lemma chars_app s t : chars (s +:+ t)%string = chars s ++ chars t.
Proof.
  induction s as [|c s IH]; [done|]. change (c :: chars (s +:+ t)%string = c :: (chars s ++ chars t)). by rewrite IH.
Qed.

Lemma field_range w i v : 0 <= w -> 0 <= field w i v < 2 ^ w.
Proof. intros Hw. unfold field. rewrite Z.land_ones by done. apply Z.mod_pos_bound. lia. Qed.

Lemma field_shift w i v : 0 <= w -> 0 <= i -> field w (i + 1) v = field w i (Z.shiftr v w).
Proof. intros Hw Hi. unfold field. rewrite Z.shiftr_shiftr by lia. do 2 f_equal. lia. Qed.

(** A number is the number of its digits. *)
Lemma number_fields w k v : 0 < w -> 0 <= v < 2 ^ (w * Z.of_nat k) ->
  number w (map (fun i => field w (Z.of_nat i) v) (seq 0 k)) = v.
Proof.
  intros Hw. revert v. induction k as [|k IH]; intros v Hv; cbn.
  - rewrite Z.mul_0_r in Hv. cbn in Hv. lia.
  - rewrite <- seq_shift, map_map.
    erewrite map_ext by (intros i; rewrite Nat2Z.inj_succ; unfold Z.succ; apply field_shift; lia).
    change (foldr _ 0 ?l) with (number w l). rewrite IH.
    + unfold field. rewrite Z.mul_0_r, Z.shiftr_0_r, Z.land_ones, Z.shiftl_mul_pow2, Z.shiftr_div_pow2 by lia.
      rewrite (Z.div_mod v (2 ^ w)) at 3 by lia. lia.
    + rewrite Z.shiftr_div_pow2 by lia. split; [apply Z.div_pos; lia|]. apply Z.div_lt_upper_bound; [lia|].
      rewrite <- Z.pow_add_r by lia. replace (w + w * Z.of_nat k) with (w * Z.of_nat (S k)) by lia. lia.
Qed.

(** *** Dotted addresses *)

Ltac small_number n k := replace n with (Z.of_nat (Z.to_nat n)) by lia;
  let H := fresh in assert (H : (Z.to_nat n < k)%nat) by lia; revert H; generalize (Z.to_nat n).

Lemma parse_octet n rest fields : 0 <= n < 256 ->
  exists d, parse_octets (chars (Itoa n) ++ rest) 0 O fields = parse_octets rest n (S d) fields.
Proof.
  intros Hn. small_number n 256%nat. intros k. do 256 (destruct k as [|k]; [intros _; by eexists|]). lia.
Qed.

Lemma hex_octet n rest : 0 <= n < 256 ->
  exists d m, hex_group (chars (Itoa n) ++ dot :: rest) O 0 = Some (S d, m, dot :: rest).
Proof.
  intros Hn. small_number n 256%nat. intros k. do 256 (destruct k as [|k]; [intros _; by do 2 eexists|]). lia.
Qed.

Definition digit_text (l : list ascii) : Prop := exists c rest, l = c :: rest /\ is_digit c = true.

Lemma Itoa_digit n : 0 <= n < 256 ->
  Forall (fun c => is_digit c = true) (chars (Itoa n)) /\ digit_text (chars (Itoa n)).
Proof.
  intros Hn. small_number n 256%nat. intros k.
  do 256 (destruct k as [|k]; [intros _; split; [repeat constructor|by do 2 eexists]|]). lia.
Qed.

Definition octets_of (v : Z) : list Z := map (fun i => field 8 (Z.of_nat i) v) (seq 0 4).

Lemma chars_string4 v : chars (string4 v) =
  chars (Itoa (field 8 3 v)) ++ dot :: chars (Itoa (field 8 2 v)) ++ dot ::
  chars (Itoa (field 8 1 v)) ++ dot :: chars (Itoa (field 8 0 v)).
Proof. unfold string4. by rewrite !chars_app. Qed.

Lemma octet_dot n rest fields : 0 <= n < 256 -> length fields <> 3%nat -> rest <> [] ->
  parse_octets (chars (Itoa n) ++ dot :: rest) 0 O fields = parse_octets rest 0 O (n :: fields).
Proof.
  intros Hn Hf Hr. destruct (parse_octet n (dot :: rest) fields Hn) as [d ->]. cbn.
  destruct rest as [|c rest]; [done|]. apply Nat.eqb_neq in Hf. rewrite Hf. done.
Qed.

Lemma parse_string4 v : parse_octets (chars (string4 v)) 0 O [] = Some (octets_of v).
Proof.
  rewrite chars_string4.
  assert (Hb : forall i, 0 <= field 8 i v < 256) by (intros i; by apply field_range).
  assert (Hne : forall i (l : list ascii), chars (Itoa (field 8 i v)) ++ l <> []).
  { intros i l. destruct (Itoa_digit _ (Hb i)) as [_ (c & rest & -> & _)]. done. }
  rewrite !octet_dot by (done || (cbn; lia) || apply Hne ||
    (destruct (Itoa_digit _ (Hb 0)) as [_ (c & rest & -> & _)]; done)).
  destruct (parse_octet (field 8 0 v) [] [field 8 1 v; field 8 2 v; field 8 3 v] (Hb 0)) as [d E].
  rewrite app_nil_r in E. rewrite E. done.
Qed.

Lemma address_kind_skip l c rest :
  Forall (fun c => Ascii.eqb c dot || Ascii.eqb c colon || Ascii.eqb c "%"%char = false) l ->
  Ascii.eqb c dot || Ascii.eqb c colon || Ascii.eqb c "%"%char = true ->
  address_kind (l ++ c :: rest) = Some c.
Proof. induction 1 as [|x l Hx _ IH]; cbn; intros Hc; [by rewrite Hc|]. rewrite Hx. by apply IH. Qed.

Lemma digit_no_mark l : Forall (fun c => is_digit c = true) l ->
  Forall (fun c => Ascii.eqb c dot || Ascii.eqb c colon || Ascii.eqb c "%"%char = false) l.
Proof.
  intros H. eapply Forall_impl; [exact H|]. intros c Hc.
  destruct (Ascii.eqb_spec c dot) as [->|]; [done|]. destruct (Ascii.eqb_spec c colon) as [->|]; [done|].
  by destruct (Ascii.eqb_spec c "%"%char) as [->|].
Qed.

Lemma ParseAddr_string4 v : 0 <= v < 2 ^ 32 -> ParseAddr (string4 v) = Some (mkAddr true v "").
Proof.
  intros Hv. unfold ParseAddr.
  assert (Ek : address_kind (chars (string4 v)) = Some dot).
  { rewrite chars_string4. apply address_kind_skip; [|done]. apply digit_no_mark, Itoa_digit. by apply field_range. }
  rewrite Ek. unfold parseIPv4. cbn [Ascii.eqb]. rewrite parse_string4. cbn [mbind option_bind].
  unfold octets_of. by rewrite (number_fields 8 4).
Qed.

(** *** Groups of hexadecimal digits *)

Lemma hex_digit_char d : 0 <= d < 16 -> hex_digit (hex_char d) = Some d.
Proof. intros Hd. small_number d 16%nat. intros k. do 16 (destruct k as [|k]; [done|]). lia. Qed.

Lemma hex_char_mark d : 0 <= d < 16 ->
  Ascii.eqb (hex_char d) dot || Ascii.eqb (hex_char d) colon || Ascii.eqb (hex_char d) "%"%char = false.
Proof. intros Hd. small_number d 16%nat. intros k. do 16 (destruct k as [|k]; [done|]). lia. Qed.

Definition hex_value (acc : Z) (ds : list Z) : Z := foldl (fun acc d => Z.shiftl acc 4 + d) acc ds.

Lemma hex_group_digits ds rest off acc : Forall (fun d => 0 <= d < 16) ds -> (off + length ds <= 4)%nat ->
  hex_group (map hex_char ds ++ rest) off acc = hex_group rest (off + length ds) (hex_value acc ds).
Proof.
  intros H. revert off acc. induction H as [|d ds Hd _ IH]; intros off acc Hl; cbn [map length hex_value foldl app] in *.
  - by rewrite Nat.add_0_r.
  - cbn [hex_group]. rewrite (hex_digit_char d Hd). destruct (Nat.ltb_spec 3 off); [lia|].
    rewrite IH by lia. f_equal. lia.
Qed.

Lemma skip_zeros_spec l : l <> [] -> Forall (fun d => 0 <= d < 16) l ->
  hex_value 0 (skip_zeros l) = hex_value 0 l /\ skip_zeros l <> [] /\ (length (skip_zeros l) <= length l)%nat /\
  Forall (fun d => 0 <= d < 16) (skip_zeros l).
Proof.
  induction l as [|d l IH]; intros Hne Hf; [done|]. destruct l as [|d' l]; [by destruct d|].
  destruct d; [|by split_and!..]. apply Forall_cons in Hf as [_ Hf]. destruct IH as (H1 & H2 & H3 & H4); [done..|].
  cbn [skip_zeros length] in *. split_and!; [|done|lia|done]. rewrite H1. done.
Qed.

Definition hex_digits (g : Z) : list Z := skip_zeros [field 4 3 g; field 4 2 g; field 4 1 g; field 4 0 g].

Lemma chars_hex16 g : chars (hex16 g) = map hex_char (hex_digits g).
Proof. unfold hex16. by rewrite String.list_ascii_of_string_of_list_ascii. Qed.

Lemma hex_digits_spec g : 0 <= g < 65536 ->
  Forall (fun d => 0 <= d < 16) (hex_digits g) /\ hex_digits g <> [] /\ (length (hex_digits g) <= 4)%nat /\
  hex_value 0 (hex_digits g) = g.
Proof.
  intros Hg. assert (Hf : Forall (fun d => 0 <= d < 16) [field 4 3 g; field 4 2 g; field 4 1 g; field 4 0 g]).
  { repeat constructor; by apply field_range. }
  destruct (skip_zeros_spec [field 4 3 g; field 4 2 g; field 4 1 g; field 4 0 g]) as (H1 & H2 & H3 & H4); [done..|].
  split_and!; [exact H4|exact H2|exact H3|].
  unfold hex_digits. rewrite H1. rewrite <- (number_fields 4 4 g) at 5 by (cbn; lia). done.
Qed.

(** A text that does not go on with a digit. *)
Definition ends_group (rest : list ascii) : Prop :=
  match rest with [] => True | c :: _ => hex_digit c = None end.

Lemma hex_group_hex16 g rest : 0 <= g < 65536 -> ends_group rest ->
  exists d, hex_group (chars (hex16 g) ++ rest) O 0 = Some (S d, g, rest).
Proof.
  intros Hg Hr. destruct (hex_digits_spec g Hg) as (Hf & Hne & Hl & Hv).
  rewrite chars_hex16, hex_group_digits, Hv by done. destruct (hex_digits g) as [|d ds]; [done|]. cbn [length Nat.add].
  exists (length ds). destruct rest as [|c rest]; cbn; [done|]. by rewrite Hr.
Qed.

Lemma hex16_head g : 0 <= g < 65536 -> exists c rest, chars (hex16 g) = c :: rest /\ Ascii.eqb c colon = false /\ Ascii.eqb c dot = false.
Proof.
  intros Hg. destruct (hex_digits_spec g Hg) as (Hf & Hne & _). rewrite chars_hex16.
  destruct (hex_digits g) as [|d ds]; [done|]. apply Forall_cons in Hf as [Hd _]. cbn. do 2 eexists. split; [done|].
  pose proof (hex_char_mark d Hd) as H. by apply orb_false_iff in H as [[? ?]%orb_false_iff _].
Qed.

Notation group := (fun g => 0 <= g < 65536) (only parsing).
Fixpoint join (gs : list Z) : list ascii :=
  match gs with
  | [] => []
  | [g] => chars (hex16 g)
  | g :: gs => chars (hex16 g) ++ colon :: join gs
  end.

Lemma chars_concat gs : chars (String.concat ":" (map hex16 gs)) = join gs.
Proof.
  induction gs as [|g gs IH]; [done|]. destruct gs as [|g' gs]; [done|].
  change (String.concat ":" (map hex16 (g :: g' :: gs)))
    with (hex16 g +:+ ":" +:+ String.concat ":" (map hex16 (g' :: gs)))%string.
  rewrite !chars_app, IH. done.
Qed.

Lemma join_head g gs : 0 <= g < 65536 ->
  exists c rest, join (g :: gs) = c :: rest /\ Ascii.eqb c colon = false.
Proof.
  intros Hg. destruct (hex16_head g Hg) as (c & rest & E & Hc & _). destruct gs as [|g' gs]; cbn [join]; rewrite E.
  - by exists c, rest.
  - by exists c, (rest ++ colon :: join (g' :: gs)).
Qed.

Lemma parse_join fuel gs acc ellipsis :
  gs <> [] -> Forall group gs -> (length gs <= fuel)%nat -> (length acc + length gs <= 8)%nat ->
  parse_groups fuel (join gs) acc ellipsis = expand (acc ++ gs) ellipsis.
Proof.
  revert fuel acc. induction gs as [|g gs IH]; intros fuel acc Hne Hf Hfuel Hl; [done|].
  apply Forall_cons in Hf as [Hg Hf]. destruct fuel as [|fuel]; [cbn in Hfuel; lia|]. cbn [parse_groups].
  destruct gs as [|g' gs]; [|change (join (g :: g' :: gs)) with (chars (hex16 g) ++ colon :: join (g' :: gs))].
  - cbn [join]. destruct (hex_group_hex16 g [] Hg I) as [d E]. rewrite app_nil_r in E. rewrite E. done.
  - destruct (hex_group_hex16 g (colon :: join (g' :: gs)) Hg eq_refl) as [d E]. rewrite E.
    cbn [mbind option_bind Nat.eqb]. change (Ascii.eqb colon dot) with false. change (Ascii.eqb colon colon) with true.
    cbn [negb]. pose proof Hf as Hf'. apply Forall_cons in Hf' as [Hg' _].
    destruct (join_head g' gs Hg') as (c & rest & Ej & Hc). rewrite Ej, Hc, <- Ej, length_app. cbn [length] in *.
    destruct (Nat.eqb_spec (length acc + 1) 8); [lia|]. rewrite IH; [|done|done|lia|rewrite length_app; cbn; lia].
    by rewrite <- app_assoc.
Qed.

Lemma parse_ellipsis fuel gs hs acc :
  gs <> [] -> Forall group gs -> Forall group hs -> (length gs + length hs <= fuel)%nat ->
  (length acc + length gs + length hs < 8)%nat ->
  parse_groups fuel (join gs ++ colon :: colon :: join hs) acc None
    = expand (acc ++ gs ++ hs) (Some (length acc + length gs)%nat).
Proof.
  revert fuel acc. induction gs as [|g gs IH]; intros fuel acc Hne Hf Hh Hfuel Hl; [done|].
  apply Forall_cons in Hf as [Hg Hf]. destruct fuel as [|fuel]; [cbn in Hfuel; lia|]. cbn [parse_groups].
  destruct gs as [|g' gs]; [|change (join (g :: g' :: gs)) with (chars (hex16 g) ++ colon :: join (g' :: gs))].
  - change (join [g]) with (chars (hex16 g)). destruct (hex_group_hex16 g (colon :: colon :: join hs) Hg eq_refl) as [d E]. rewrite E.
    cbn [mbind option_bind Nat.eqb]. change (Ascii.eqb colon dot) with false. change (Ascii.eqb colon colon) with true.
    cbn [negb]. rewrite length_app. cbn [length] in *. destruct (join hs) eqn:Ej.
    + destruct hs as [|h hs]; [|apply Forall_cons in Hh as [Hh _]; destruct (join_head h hs Hh) as (? & ? & E' & _); congruence].
      done.
    + rewrite <- Ej. destruct (Nat.eqb_spec (length acc + 1) 8); [lia|].
      rewrite parse_join; [by rewrite <- app_assoc|by intros ->|done|lia|rewrite length_app; cbn; lia].
  - rewrite <- app_assoc. cbn [app].
    destruct (hex_group_hex16 g (colon :: join (g' :: gs) ++ colon :: colon :: join hs) Hg eq_refl) as [d E].
    rewrite E. cbn [mbind option_bind Nat.eqb]. change (Ascii.eqb colon dot) with false. change (Ascii.eqb colon colon) with true.
    cbn [negb]. pose proof Hf as Hf'. apply Forall_cons in Hf' as [Hg' _].
    destruct (join_head g' gs Hg') as (c & rest & Ej & Hc). rewrite Ej. cbn [app]. rewrite Hc.
    rewrite length_app. cbn [length] in *. destruct (Nat.eqb_spec (length acc + 1) 8); [lia|].
    change (c :: rest ++ ?l) with ((c :: rest) ++ l). rewrite <- Ej.
    rewrite IH; [|done|done|done|lia|rewrite length_app; cbn; lia].
    replace (length (acc ++ [g]) + S (length gs))%nat with (length acc + S (S (length gs)))%nat
      by (rewrite length_app; cbn; lia).
    by rewrite <- app_assoc.
Qed.

(** *** Addresses and prefixes *)

Definition addr_ok (a : Addr) : Prop := 0 <= addr_value a < 2 ^ BitLen a /\ addr_zone a = ""%string.

(** The bytes of addresses without a zone. *)
Definition no_mark (c : ascii) : Prop :=
  Ascii.eqb c "%"%char = false /\ Ascii.eqb c "/"%char = false /\ plain_char c = true.

Lemma split_zone_none l : Forall no_mark l -> split_zone l = (l, None).
Proof. induction 1 as [|c l [Hc _] _ IH]; cbn; [done|]. by rewrite Hc, IH. Qed.

Lemma digit_no_mark' l : Forall (fun c => is_digit c = true) l -> Forall no_mark l.
Proof.
  intros H. eapply Forall_impl; [exact H|]. intros c Hc. split_and!.
  - by destruct (Ascii.eqb_spec c "%"%char) as [->|].
  - by destruct (Ascii.eqb_spec c "/"%char) as [->|].
  - unfold is_digit, plain_char, ascii_in in *. apply andb_true_iff in Hc as [?%N.leb_le ?%N.leb_le].
    apply andb_true_iff. rewrite !N.leb_le. lia.
Qed.

Lemma hex_no_mark g : 0 <= g < 65536 -> Forall no_mark (chars (hex16 g)).
Proof.
  intros Hg. destruct (hex_digits_spec g Hg) as (Hf & _). rewrite chars_hex16. apply Forall_map.
  eapply Forall_impl; [exact Hf|]. intros d Hd. cbn in Hd. small_number d 16%nat. intros k. do 16 (destruct k as [|k]; [done|]). lia.
Qed.

Lemma join_no_mark gs : Forall group gs -> Forall no_mark (join gs).
Proof.
  induction 1 as [|g gs Hg Hf IH]; [constructor|]. destruct gs as [|g' gs]; [by apply hex_no_mark|].
  change (join (g :: g' :: gs)) with (chars (hex16 g) ++ colon :: join (g' :: gs)).
  apply Forall_app. split; [by apply hex_no_mark|]. by constructor.
Qed.

Lemma zeros_spec l : take (zeros l) l = repeat 0 (zeros l).
Proof. induction l as [|[] l IH]; cbn; [done| |done..]. by rewrite IH. Qed.

(** What [zero_run] finds is a run of zeros. *)
Definition run_of (groups : list Z) (r : nat * nat) : Prop :=
  r.2 = O \/ (2 <= r.2)%nat /\ take r.2 (drop r.1 groups) = repeat 0 r.2.

Lemma zero_run_spec pre l best : run_of (pre ++ l) best -> run_of (pre ++ l) (zero_run (length pre) l best).
Proof.
  revert pre best. induction l as [|x l IH]; intros pre best Hb; cbn [zero_run]; [done|].
  specialize (IH (pre ++ [x])). rewrite <- app_assoc, length_app in IH. cbn in IH.
  replace (S (length pre)) with (length pre + 1)%nat by lia. apply IH. destruct (_ && _) eqn:E; [|done].
  apply andb_true_iff in E as [E _]. apply Nat.leb_le in E. right. split; [done|]. cbn [fst snd].
  rewrite drop_app_length. apply zeros_spec.
Qed.

Lemma groups_of_ok v : Forall group (groups_of v) /\ length (groups_of v) = 8%nat.
Proof.
  split; [|done]. unfold groups_of. apply Forall_map, Forall_true. intros i. by apply field_range.
Qed.

Lemma number_groups v : 0 <= v < 2 ^ 128 -> number 16 (rev (groups_of v)) = v.
Proof. intros Hv. exact (number_fields 16 8 v ltac:(done) Hv). Qed.

(** The text of an address: the groups around the run of zeros. *)
Lemma string6_shape v : exists gs hs n,
  groups_of v = gs ++ repeat 0 n ++ hs /\
  (n = O /\ hs = [] /\ chars (string6 v) = join gs \/
   (2 <= n)%nat /\ chars (string6 v) = join gs ++ colon :: colon :: join hs).
Proof.
  unfold string6. pose proof (zero_run_spec [] (groups_of v) (0, 0)%nat (or_introl eq_refl)) as Hr.
  cbn [app length] in Hr. destruct (zero_run 0 (groups_of v) (0, 0)%nat) as [start n]. destruct (Nat.eqb_spec n 0) as [->|Hn].
  - exists (groups_of v), [], O. split; [by rewrite app_nil_r|]. left. split_and!; [done|done|]. apply chars_concat.
  - destruct Hr as [?|[H2 Hr]]; [done|]. cbn [fst snd] in *.
    exists (take start (groups_of v)), (drop (start + n) (groups_of v)), n. split.
    + rewrite <- Hr, <- drop_drop, take_drop, take_drop. done.
    + right. split; [done|]. rewrite !chars_app, !chars_concat. done.
Qed.

Lemma expand_run gs hs n : (2 <= n)%nat -> length (gs ++ repeat 0 n ++ hs) = 8%nat ->
  expand (gs ++ hs) (Some (length gs)) = Some (gs ++ repeat 0 n ++ hs).
Proof.
  intros Hn Hl. rewrite !length_app, repeat_length in Hl. unfold expand. rewrite length_app.
  destruct (Nat.ltb_spec (length gs + length hs) 8); [|lia]. rewrite take_app_length, drop_app_length.
  by replace (8 - (length gs + length hs))%nat with n by lia.
Qed.

Lemma parseIPv6_string6 v : 0 <= v < 2 ^ 128 -> parseIPv6 (chars (string6 v)) = Some (mkAddr false v "").
Proof.
  intros Hv. destruct (string6_shape v) as (gs & hs & n & E & H). destruct (groups_of_ok v) as [Hg Hl].
  pose proof Hg as Hg'. rewrite E in Hg'. apply Forall_app in Hg' as [Hgs [_ Hhs]%Forall_app].
  assert (Hm : Forall no_mark (chars (string6 v))).
  { destruct H as [(_ & _ & ->)|[_ ->]]; [by apply join_no_mark|]. apply Forall_app. split; [by apply join_no_mark|].
    repeat (constructor; [done|]). by apply join_no_mark. }
  unfold parseIPv6. rewrite split_zone_none by done.
  destruct H as [(-> & -> & Es)|[Hn Es]]; rewrite Es.
  - cbn [repeat] in E. rewrite !app_nil_r in E. subst gs.
    assert (Hp : parse_groups 8 (join (groups_of v)) [] None = Some (groups_of v)).
    { rewrite parse_join; [done|by intros E%(f_equal length)|done|by rewrite Hl|by rewrite Hl]. }
    destruct (groups_of v) as [|g gs'] eqn:Eg; [done|]. apply Forall_cons in Hgs as [Hg0 _].
    destruct (join_head g gs' Hg0) as (c & rest & Ej & Hc). rewrite Ej in *. rewrite Hc. cbn [andb].
    assert (Hmatch : forall A (x : A), match rest with [] => x | _ :: _ => x end = x) by (by destruct rest).
    rewrite Hmatch, Hp. cbn [mbind option_bind]. rewrite <- Eg, number_groups by done. done.
  - assert (Hlen : (length gs + n + length hs = 8)%nat) by (rewrite E, !length_app, repeat_length in Hl; lia).
    assert (Hx : expand (gs ++ hs) (Some (length gs)) = Some (groups_of v)).
    { rewrite E. apply expand_run; [done|]. by rewrite <- E. }
    destruct gs as [|g gs'].
    + cbn [join app]. change (Ascii.eqb colon colon) with true. cbn [andb]. destruct (join hs) eqn:Ej.
      * destruct hs as [|h hs]; [|apply Forall_cons in Hhs as [Hh _]; destruct (join_head h hs Hh) as (? & ? & E' & _); congruence].
        assert (Hz : Some (repeat 0 8) = Some (groups_of v)) by exact Hx. rewrite Hz. cbn [mbind option_bind].
        by rewrite number_groups.
      * rewrite <- Ej, parse_join; [|by intros ->|done|cbn in *; lia|cbn in *; lia].
        cbn [app length] in *. rewrite Hx. cbn [mbind option_bind]. by rewrite number_groups.
    + apply Forall_cons in Hgs as Hgs'. destruct Hgs' as [Hg0 _].
      destruct (join_head g gs' Hg0) as (c & rest & Ej & Hc).
      assert (Hp : parse_groups 8 (join (g :: gs') ++ colon :: colon :: join hs) [] None = Some (groups_of v)).
      { rewrite parse_ellipsis; [exact Hx|done|done|done|lia|cbn in *; lia]. }
      rewrite Ej in *. cbn [app] in *.
      assert (Hmatch : forall A (x y : A) l, match l ++ colon :: colon :: join hs with [] => x | _ :: _ => y end = y) by (by destruct l).
      destruct (rest ++ colon :: colon :: join hs) eqn:Er; [by destruct rest|]. rewrite Hc. cbn [andb].
      rewrite Hp. cbn [mbind option_bind]. by rewrite number_groups.
Qed.

(** An IPv4 address in IPv6 clothes. *)
Lemma parseIPv6_mapped v : 0 <= v < 2 ^ 32 ->
  parseIPv6 (colon :: colon :: chars "ffff:" ++ chars (string4 v)) = Some (mkAddr false (Z.shiftl 65535 32 + v) "").
Proof.
  intros Hv. assert (Hb : forall i, 0 <= field 8 i v < 256) by (intros i; by apply field_range).
  assert (Hm : Forall no_mark (chars (string4 v))).
  { rewrite chars_string4. repeat (first [apply Forall_app; split; [apply digit_no_mark', Itoa_digit, Hb|]
      | constructor; [done|] | apply digit_no_mark', Itoa_digit, Hb]). }
  unfold parseIPv6. rewrite split_zone_none.
  2: { repeat (constructor; [done|]). cbn [app]. repeat (constructor; [done|]). done. }
  change (Ascii.eqb colon colon && Ascii.eqb colon colon) with true. cbn [chars app].
  assert (Hg : forall fuel l, digit_text l ->
    parse_groups (S fuel) (chars "ffff:" ++ l) [] (Some O) = parse_groups fuel l [65535] (Some O)).
  { intros fuel l (c & rest & -> & Hc). cbn [parse_groups].
    assert (E : hex_group (chars "ffff:" ++ c :: rest) O 0 = Some (4%nat, 65535, colon :: c :: rest)) by reflexivity.
    rewrite E. cbn [mbind option_bind Nat.eqb]. change (Ascii.eqb colon dot) with false.
    change (Ascii.eqb colon colon) with true. cbn [negb length Nat.eqb app].
    by destruct (Ascii.eqb_spec c colon) as [->|]. }
  assert (Hd : digit_text (chars (string4 v))).
  { rewrite chars_string4. destruct (Itoa_digit _ (Hb 3)) as [_ (c & rest & -> & Hc)]. by eexists c, _. }
  specialize (Hg 7%nat _ Hd).
  cbn [String.list_ascii_of_string app] in Hg. rewrite Hg. cbn [parse_groups].
  assert (Eg : exists d m, hex_group (chars (string4 v)) O 0 = Some (S d, m,
    dot :: chars (Itoa (field 8 2 v)) ++ dot :: chars (Itoa (field 8 1 v)) ++ dot :: chars (Itoa (field 8 0 v)))).
  { rewrite chars_string4. by apply hex_octet. }
  destruct Eg as (d & m & ->). cbn [mbind option_bind Nat.eqb]. change (Ascii.eqb dot dot) with true. cbn [length Nat.ltb Nat.leb orb].
  rewrite parse_string4. unfold octets_of. cbn [mbind option_bind seq map app]. cbn [expand length Nat.ltb Nat.leb Nat.sub take drop app].
  cbn [mbind option_bind rev app repeat]. do 2 f_equal.
  rewrite <- (number_fields 8 4 v) at 5 by (cbn; lia). unfold number. cbn [seq map foldr Z.of_nat Pos.of_succ_nat Pos.succ].
  rewrite !Z.shiftl_mul_pow2 by lia. cbn. lia.
Qed.

Lemma string4_low v : string4 (field 32 0 v) = string4 v.
Proof.
  assert (H : forall i, 0 <= i < 4 -> field 8 i (field 32 0 v) = field 8 i v).
  { intros i Hi. unfold field. rewrite Z.mul_0_r, Z.shiftr_0_r. apply Z.bits_inj'. intros n Hn.
    rewrite !Z.land_spec, !Z.shiftr_spec, Z.land_spec by lia.
    destruct (Z.ltb_spec n 8); [|by rewrite (Z.ones_spec_high 8), !andb_false_r by lia].
    by rewrite (Z.ones_spec_low 32), andb_true_r by lia. }
  unfold string4. by rewrite !H by lia.
Qed.

Lemma mapped_value v : Z.shiftr v 32 = 65535 -> v = Z.shiftl 65535 32 + field 32 0 v.
Proof.
  intros E. rewrite <- E. unfold field.
  rewrite Z.mul_0_r, Z.shiftr_0_r, Z.land_ones, Z.shiftl_mul_pow2, Z.shiftr_div_pow2 by done.
  rewrite (Z.div_mod v (2 ^ 32)) at 1 by done. lia.
Qed.

Lemma string6_kind v : address_kind (chars (string6 v)) = Some colon.
Proof.
  destruct (string6_shape v) as (gs & hs & n & E & H). destruct (groups_of_ok v) as [Hg Hl].
  assert (Hskip : forall g rest, 0 <= g < 65536 -> address_kind (chars (hex16 g) ++ colon :: rest) = Some colon).
  { intros g rest Hr. apply address_kind_skip; [|done]. destruct (hex_digits_spec g Hr) as (Hf & _). rewrite chars_hex16.
    apply Forall_map. eapply Forall_impl; [exact Hf|]. intros d. apply hex_char_mark. }
  rewrite E in Hg. apply Forall_app in Hg as [Hgs _].
  destruct H as [(-> & -> & Es)|[Hn Es]]; rewrite Es.
  - rewrite E, !app_nil_r in Hl. destruct gs as [|g [|g' gs]]; [done|done|]. apply Forall_cons in Hgs as [Hg0 _].
    change (join (g :: g' :: gs)) with (chars (hex16 g) ++ colon :: join (g' :: gs)). by apply Hskip.
  - destruct gs as [|g gs]; [done|]. apply Forall_cons in Hgs as [Hg0 _]. destruct gs as [|g' gs].
    + by apply Hskip.
    + change (join (g :: g' :: gs)) with (chars (hex16 g) ++ colon :: join (g' :: gs)). rewrite <- app_assoc. by apply Hskip.
Qed.

(** Printing an address and parsing the text gives the address. *)
Lemma addr_roundtrip a : addr_ok a -> ParseAddr (addr_String a) = Some a.
Proof.
  destruct a as [v4 v z]. unfold addr_ok. cbn [addr_value addr_zone BitLen is4]. intros [Hv ->].
  unfold addr_String. cbn [addr_value addr_zone is4]. change ("" =s "") with true. cbn iota. destruct v4.
  - by apply ParseAddr_string4.
  - destruct (Z.shiftr v 32 =? 65535) eqn:E; boolify; rewrite string_app_nil; unfold ParseAddr.
    + rewrite chars_app. cbn [String.list_ascii_of_string app]. change (address_kind (_ :: _)) with (Some colon). cbn iota.
      change (Ascii.eqb colon dot) with false. change (Ascii.eqb colon colon) with true. cbn iota.
      rewrite <- string4_low. rewrite (mapped_value v E) at 2. apply (parseIPv6_mapped (field 32 0 v)).
      by apply (field_range 32).
    + rewrite string6_kind. change (Ascii.eqb colon dot) with false. change (Ascii.eqb colon colon) with true. cbn iota.
      by apply parseIPv6_string6.
Qed.

(** *** Prefixes *)

Definition prefix_ok (p : NetPrefix) : Prop := addr_ok (prefix_addr p) /\ 0 <= Bits p <= BitLen (prefix_addr p).

Lemma bits_text n : 0 <= n <= 128 ->
  parse_bits (Itoa n) = Some n /\ Forall no_mark (chars (Itoa n)).
Proof.
  intros Hn. small_number n 129%nat. intros k.
  do 129 (destruct k as [|k]; [intros _; split; [reflexivity|repeat constructor]|]). lia.
Qed.

Lemma last_slash_app l r : Forall no_mark r -> last_slash (l ++ "/"%char :: r) = Some (l, r).
Proof.
  intros Hr. assert (Hn : last_slash r = None).
  { induction Hr as [|c r (_ & Hc & _) _ IH]; cbn; [done|]. by rewrite IH, Hc. }
  induction l as [|c l IH]; cbn [last_slash app]; [by rewrite Hn|]. by rewrite IH.
Qed.

Lemma prefix_roundtrip p : prefix_ok p -> ParsePrefix (prefix_String p) = Some p.
Proof.
  destruct p as [a bits]. intros [Ha Hb]. cbn [prefix_addr Bits] in *.
  assert (Hbits : 0 <= bits <= 128) by (unfold BitLen in Hb; destruct (is4 a); lia).
  destruct (bits_text bits Hbits) as [Hp Hm]. unfold ParsePrefix, prefix_String. cbn [prefix_addr Bits].
  rewrite !chars_app. cbn [String.list_ascii_of_string app]. rewrite last_slash_app by done.
  cbn [mbind option_bind]. rewrite !String.string_of_list_ascii_of_string, (addr_roundtrip a Ha). cbn [mbind option_bind].
  destruct Ha as [_ Hz]. rewrite Hz. change ("" <>s "") with false. rewrite andb_false_r. rewrite Hp. cbn [mbind option_bind].
  rewrite Z.gtb_ltb, (proj2 (Z.ltb_ge _ _)) by lia. unfold PrefixFrom. by destruct a; cbn in Hz |- *; rewrite Hz.
Qed.

(** What parsing gives. *)
Lemma parse_octets_range l val digits fields v :
  parse_octets l val digits fields = Some v -> 0 <= val <= 255 -> Forall (fun o => 0 <= o < 256) fields ->
  (length fields <= 3)%nat -> length v = 4%nat /\ Forall (fun o => 0 <= o < 256) v.
Proof.
  revert val digits fields. induction l as [|c l IH]; intros val digits fields; cbn [parse_octets].
  - destruct (Nat.ltb_spec (length fields) 3); [done|]. intros [= <-] Hv Hf Hl. split; [cbn; lia|]. constructor; [lia|done].
  - destruct (is_digit c) eqn:Ed.
    + destruct (_ && _); [done|]. destruct (_ >? _) eqn:Eg; [done|]. boolify. intros H Hv. apply (IH _ _ _ H).
      unfold is_digit, ascii_in in Ed. apply andb_true_iff in Ed as [E1 E2]. apply N.leb_le in E1, E2. lia.
    + destruct (Ascii.eqb c dot); [|done]. destruct (_ || _); [done|].
      destruct (Nat.eqb_spec (length fields) 3); [done|]. intros H Hv Hf Hl. apply (IH _ _ _ H); [lia| |cbn; lia].
      constructor; [lia|done].
Qed.

Lemma number_range w l k : 0 < w -> Forall (fun d => 0 <= d < 2 ^ w) l -> length l = k ->
  0 <= number w l < 2 ^ (w * Z.of_nat k).
Proof.
  intros Hw Hf <-. induction Hf as [|d l Hd _ IH]; cbn [number foldr length].
  - rewrite Z.mul_0_r. cbn. lia.
  - change (foldr _ 0 l) with (number w l). rewrite Z.shiftl_mul_pow2 by lia.
    replace (w * Z.of_nat (S (length l))) with (w * Z.of_nat (length l) + w) by lia. rewrite Z.pow_add_r by lia.
    assert (Hp : 0 < 2 ^ w) by lia. split; [nia|].
    assert (number w l * 2 ^ w <= (2 ^ (w * Z.of_nat (length l)) - 1) * 2 ^ w) by (apply Z.mul_le_mono_nonneg_r; lia). lia.
Qed.

Lemma hex_digit_range c d : hex_digit c = Some d -> 0 <= d < 16.
Proof.
  unfold hex_digit, ascii_in. repeat case_match; intros [= <-];
    repeat match goal with H : _ && _ = true |- _ => apply andb_true_iff in H as [?%N.leb_le ?%N.leb_le] end; lia.
Qed.

Lemma hex_group_range l off acc k g rest : hex_group l off acc = Some (k, g, rest) ->
  0 <= acc < 2 ^ (4 * Z.of_nat off) -> (off <= 4)%nat -> 0 <= g < 65536.
Proof.
  revert off acc. induction l as [|c l IH]; intros off acc; cbn [hex_group].
  - intros [= <- <- <-] H Hoff. assert (2 ^ (4 * Z.of_nat off) <= 2 ^ 16) by (apply Z.pow_le_mono_r; lia). lia.
  - destruct (hex_digit c) as [d|] eqn:Ed.
    + destruct (Nat.ltb_spec 3 off); [done|]. intros H' Hacc Hoff. apply (IH _ _ H'); [|lia].
      pose proof (hex_digit_range _ _ Ed). rewrite Z.shiftl_mul_pow2 by lia.
      replace (4 * Z.of_nat (S off)) with (4 * Z.of_nat off + 4) by lia. rewrite Z.pow_add_r by lia. lia.
    + intros [= <- <- <-] H Hoff. assert (2 ^ (4 * Z.of_nat off) <= 2 ^ 16) by (apply Z.pow_le_mono_r; lia). lia.
Qed.

Lemma expand_range gs e v : expand gs e = Some v -> Forall group gs ->
  length v = 8%nat /\ Forall group v.
Proof.
  unfold expand. destruct e as [at_|].
  - destruct (Nat.ltb_spec (length gs) 8); [|done]. intros [= <-] Hf. split.
    + rewrite !length_app, repeat_length, length_take, length_drop. lia.
    + apply Forall_app. split; [by apply Forall_take|]. apply Forall_app. split; [|by apply Forall_drop].
      apply Forall_forall. intros x Hx. apply list_elem_of_In, repeat_spec in Hx. lia.
  - destruct (Nat.eqb_spec (length gs) 8); [|done]. by intros [= <-].
Qed.

Lemma parse_groups_range fuel l gs e v : parse_groups fuel l gs e = Some v -> Forall group gs ->
  length v = 8%nat /\ Forall group v.
Proof.
  revert l gs e. induction fuel as [|fuel IH]; intros l gs e; cbn [parse_groups]; [done|].
  destruct (hex_group l O 0) as [[[off acc] rest]|] eqn:Eh; [|done]. cbn [mbind option_bind].
  pose proof (hex_group_range _ _ _ _ _ _ Eh ltac:(cbn; lia) ltac:(lia)) as Hacc.
  destruct (off =? 0)%nat; [done|]. intros H Hf.
  assert (Hf' : Forall group (gs ++ [acc])) by (apply Forall_app; split; [done|by constructor]).
  destruct rest as [|c rest]; [by eapply expand_range|]. destruct (Ascii.eqb c dot).
  - destruct (_ || _); [done|]. destruct (parse_octets l 0 O []) as [octets|] eqn:Eo; [|done]. cbn [mbind option_bind] in H.
    destruct (parse_octets_range _ _ _ _ _ Eo) as [_ Ho]; [lia|constructor|cbn; lia|].
    destruct octets as [|o3 [|o2 [|o1 [|o0 [|? ?]]]]]; try done.
    repeat (apply Forall_cons in Ho as [? Ho]). eapply expand_range; [exact H|]. apply Forall_app. split; [done|].
    rewrite !Z.shiftl_mul_pow2 by lia. repeat constructor; cbn; lia.
  - destruct (negb _); [done|]. destruct rest as [|c' rest]; [done|]. destruct (Ascii.eqb c' colon).
    + destruct e; [done|]. destruct rest; [by eapply expand_range|]. destruct (length (gs ++ [acc]) =? 8)%nat; [done|]. by eapply IH.
    + destruct (length (gs ++ [acc]) =? 8)%nat; [done|]. by eapply IH.
Qed.

Lemma ParseAddr_range s a : ParseAddr s = Some a -> 0 <= addr_value a < 2 ^ BitLen a.
Proof.
  unfold ParseAddr. destruct (address_kind _) as [c|]; [|done]. destruct (Ascii.eqb c dot).
  - unfold parseIPv4. destruct (parse_octets _ _ _ _) as [octets|] eqn:Eo; [|done]. intros [= <-]. cbn [addr_value BitLen is4].
    destruct (parse_octets_range _ _ _ _ _ Eo) as [Hl Ho]; [lia|constructor|cbn; lia|].
    exact (number_range 8 octets 4 ltac:(lia) Ho Hl).
  - destruct (Ascii.eqb c colon); [|done]. unfold parseIPv6. destruct (split_zone _) as [l zone].
    assert (H : forall o : option (list Z), (forall v, o = Some v -> length v = 8%nat /\ Forall group v) ->
      forall z a, (groups ← o; Some (mkAddr false (number 16 (rev groups)) z)) = Some a -> 0 <= addr_value a < 2 ^ BitLen a).
    { intros [gs|] Ho z b; [|done]. cbn [mbind option_bind]. intros [= <-]. destruct (Ho gs eq_refl) as [Hl Hf].
      cbn [addr_value BitLen is4]. apply (number_range 16 (rev gs) 8); [lia| |by rewrite length_rev].
      by apply Forall_rev. }
    assert (Hlist : forall v, (match l with
        | c1 :: c2 :: rest => if Ascii.eqb c1 colon && Ascii.eqb c2 colon
            then match rest with [] => Some (repeat 0 8) | _ => parse_groups 8 rest [] (Some O) end
            else parse_groups 8 l [] None
        | _ => parse_groups 8 l [] None end) = Some v -> length v = 8%nat /\ Forall group v).
    { intros v. assert (Hp : forall l e, parse_groups 8 l [] e = Some v -> length v = 8%nat /\ Forall group v)
        by (intros ? ? Hp; eapply parse_groups_range; [exact Hp|constructor]).
      destruct l as [|c1 [|c2 rest]]; [apply Hp..|]. destruct (_ && _); [|apply Hp]. destruct rest; [|apply Hp].
      intros [= <-]. split; [done|repeat constructor; lia]. }
    destruct zone as [[|z zone]|]; [done|..]; by apply H.
Qed.

Lemma parse_bits_nonneg s bits : parse_bits s = Some bits -> 0 <= bits.
Proof. unfold parse_bits. destruct s; [done|]. repeat case_match; intros [= <-]; lia. Qed.

Lemma ParsePrefix_ok s p : ParsePrefix s = Some p -> prefix_ok p.
Proof.
  unfold ParsePrefix. destruct (last_slash _) as [[before behind]|]; [|done]. cbn [mbind option_bind].
  destruct (ParseAddr _) as [a|] eqn:Ea; [|done]. cbn [mbind option_bind]. destruct (_ && _); [done|].
  destruct (parse_bits _) as [bits|] eqn:Eb; [|done]. cbn [mbind option_bind]. destruct (bits >? BitLen a) eqn:Eg; [done|].
  intros [= <-]. boolify. pose proof (ParseAddr_range _ _ Ea) as Hr. split; [by split|]. cbn. unfold BitLen in *. cbn.
  pose proof (parse_bits_nonneg _ _ Eb). destruct (is4 a); lia.
Qed.

Lemma PrefixFrom_ok s a : ParseAddr s = Some a -> prefix_ok (PrefixFrom a (BitLen a)).
Proof.
  intros Ha. pose proof (ParseAddr_range _ _ Ha). split; [by split|]. cbn. unfold BitLen. cbn. destruct (is4 a); lia.
Qed.

Lemma Masked_ok p : prefix_ok p -> prefix_ok (Masked p).
Proof.
  intros [[Hv Hz] Hb]. unfold Masked. split; [split|]; cbn [prefix_addr addr_value addr_zone Bits] in *; [|done|done].
  unfold BitLen in *. cbn [is4] in *. set (len := if is4 (prefix_addr p) then 32 else 128) in *.
  assert (Hl : 0 <= len) by (unfold len; destruct (is4 _); lia).
  split; [apply Z.land_nonneg; left; apply Hv|]. eapply Z.le_lt_trans; [|apply Hv].
  apply Z.ldiff_le; [apply Hv|]. apply Z.bits_inj'. intros n Hn'. rewrite Z.ldiff_spec, Z.land_spec, Z.bits_0.
  by destruct (Z.testbit (addr_value _) n), (Z.testbit (mask _ _) n).
Qed.

Lemma prefix_String_plain p : prefix_ok p ->
  forallb plain_char (chars (prefix_String p)) = true /\ prefix_String p <> ""%string.
Proof.
  destruct p as [[v4 v z] bits]. intros [[Hv Hz] Hb]. cbn [prefix_addr Bits addr_value addr_zone] in *. subst z.
  assert (Hbits : 0 <= bits <= 128) by (unfold BitLen in Hb; cbn in Hb; destruct v4; lia).
  assert (H : Forall no_mark (chars (addr_String (mkAddr v4 v "")))).
  { unfold addr_String. cbn [addr_value addr_zone is4]. change ("" =s "") with true. cbn iota.
    assert (H4 : Forall no_mark (chars (string4 v))).
    { rewrite chars_string4. repeat (first [apply Forall_app; split; [by apply digit_no_mark', Itoa_digit, field_range|]
        | constructor; [done|] | by apply digit_no_mark', Itoa_digit, field_range]). }
    destruct v4; [done|]. destruct (_ =? _); rewrite string_app_nil.
    - rewrite chars_app. apply Forall_app. split; [|done]. cbn. repeat (constructor; [done|]). constructor.
    - destruct (string6_shape v) as (gs & hs & n & E & Hs). destruct (groups_of_ok v) as [Hg _].
      rewrite E in Hg. apply Forall_app in Hg as [Hgs [_ Hhs]%Forall_app].
      destruct Hs as [(_ & _ & ->)|[_ ->]]; [by apply join_no_mark|]. apply Forall_app. split; [by apply join_no_mark|].
      repeat (constructor; [done|]). by apply join_no_mark. }
  unfold prefix_String. cbn [prefix_addr Bits]. split.
  - rewrite !chars_app. rewrite !forallb_app, !andb_true_iff.
    assert (Hp : forall l, Forall no_mark l -> forallb plain_char l = true).
    { intros l Hl. apply forallb_forall. rewrite Forall_forall in Hl. intros c Hc. apply Hl. by apply list_elem_of_In. }
    split_and!; [by apply Hp|done|by apply Hp, bits_text].
  - intros E%(f_equal String.list_ascii_of_string). rewrite !chars_app in E. by destruct (chars (addr_String _)).
Qed.
