(* ===== verification/PricingMoney.v ===== *)
(** * Pricing: money arithmetic

    [backend/internal/pricing/money.go] and the [Error] type of [types.go].
    Amounts are micro-dollars in [int64]; every operation either gives the exact
    rational result rounded half up, or reports the overflow. *)

From S2P Require Import Prelude.

(** ** Errors (types.go) *)

Definition ErrorExpressionEmpty := "pricing_expr_empty"%string.
Definition ErrorExpressionTooLarge := "pricing_expr_too_large"%string.
Definition ErrorVersionUnsupported := "pricing_version_unsupported"%string.
Definition ErrorCompileFailed := "pricing_expr_compile_failed"%string.
Definition ErrorForbiddenAST := "pricing_expr_forbidden_ast"%string.
Definition ErrorHashMismatch := "pricing_expr_hash_mismatch"%string.
Definition ErrorFactMissing := "pricing_fact_missing"%string.
Definition ErrorFactInvalid := "pricing_fact_invalid"%string.
Definition ErrorArithmeticOverflow := "pricing_arithmetic_overflow"%string.
Definition ErrorAmountOutOfRange := "pricing_amount_out_of_range"%string.
Definition ErrorTierInvalid := "pricing_tier_invalid"%string.
Definition ErrorBreakdownInvalid := "pricing_breakdown_invalid"%string.

(** A message is the [fmt.Sprintf] call that builds it. *)
Inductive message := Sprintf (format : string) (args : list fmt_arg).

Record Error := mkError {
  Code : string;
  Message : message;
  Line : Z;
  Column : Z;
}.

#[export] Instance message_eq_dec : EqDecision message.
Proof. solve_decision. Defined.
#[export] Instance Error_eq_dec : EqDecision Error.
Proof. solve_decision. Defined.

Definition errorf (code format : string) (args : list fmt_arg) : Error :=
  mkError code (Sprintf format args) 0 0.

(** ** Unsigned arithmetic of [math/bits] *)

Definition u64 (z : Z) : Z := z mod two64.

(** [bits.Mul64]: the high and low words of the 128-bit product. *)
Definition Mul64 (x y : Z) : Z * Z := ((x * y) / two64, (x * y) mod two64).

(** [bits.Div64(hi, lo, y)] for [hi < y]: quotient and remainder. *)
Definition Div64 (hi lo y : Z) : Z * Z :=
  ((hi * two64 + lo) / y, (hi * two64 + lo) mod y).

(** ** money.go *)

Definition basisPointsOne : Z := 10000.

(** A value of Go type [any] as the expression runtime passes it. *)
Inductive value :=
| VInt (z : Z)
| VInt64 (z : Z)
| VBool (b : bool)
| VString (s : string)
| VOther (typename : string).

(** The [%T] verb. *)
Definition typename_of (v : value) : string :=
  match v with
  | VInt _ => "int" | VInt64 _ => "int64" | VBool _ => "bool" | VString _ => "string"
  | VOther typename => typename
  end.

Definition pricingInteger (v : value) : result Error Z :=
  match v with
  | VInt number => Ok number
  | VInt64 number => Ok number
  | _ => Err (errorf ErrorFactInvalid "pricing operand has type %s" [FmtStr (typename_of v)])
  end.

Definition numeric2 (operation : Z -> Z -> result Error Z) (left right : value) : result Error Z :=
  leftValue ← pricingInteger left;
  rightValue ← pricingInteger right;
  operation leftValue rightValue.

Definition numeric3 (operation : Z -> Z -> Z -> result Error Z) (first second third : value)
    : result Error Z :=
  firstValue ← pricingInteger first;
  secondValue ← pricingInteger second;
  thirdValue ← pricingInteger third;
  operation firstValue secondValue thirdValue.

Definition checkedAdd (left right : Z) : result Error Z :=
  if (left <? 0) || (right <? 0) || (left >? max_int64 -i right)
  then Err (errorf ErrorArithmeticOverflow "integer addition overflow" [])
  else Ok (left +i right).

Definition checkedMulDivRoundHalfUp (left right divisor : Z) : result Error Z :=
  if (left <? 0) || (right <? 0) || (divisor <=? 0)
  then Err (errorf ErrorFactInvalid
         "pricing operands must be non-negative and divisor must be positive" [])
  else
    let '(hi, lo) := Mul64 (u64 left) (u64 right) in
    let d := u64 divisor in
    if hi >=? d
    then Err (errorf ErrorArithmeticOverflow "integer multiplication overflow" [])
    else
      let '(quotient, remainder) := Div64 hi lo d in
      quotient ←
        (if remainder >=? u64 (d + 1) / 2
         then if quotient =? max_uint64
              then Err (errorf ErrorArithmeticOverflow "rounded amount overflow" [])
              else Ok (u64 (quotient + 1))
         else Ok quotient);
      if quotient >? max_int64
      then Err (errorf ErrorArithmeticOverflow "amount exceeds int64" [])
      else Ok quotient.

Definition tokenCost (quantity microsPerMillion : Z) : result Error Z :=
  checkedMulDivRoundHalfUp quantity microsPerMillion 1000000.

Definition unitCost (quantity microsPerUnit : Z) : result Error Z :=
  checkedMulDivRoundHalfUp quantity microsPerUnit 1.

Definition blockCost (quantity unitsPerBlock microsPerBlock : Z) : result Error Z :=
  checkedMulDivRoundHalfUp quantity microsPerBlock unitsPerBlock.

Definition multiplyBPS (amount bps : Z) : result Error Z :=
  checkedMulDivRoundHalfUp amount bps basisPointsOne.

(** ** Specification *)

(** [left * right / divisor] as a rational, rounded to the nearest integer with
    halves going up. *)
Definition round_half_up (left right divisor : Z) : Z :=
  (2 * (left * right) + divisor) / (2 * divisor).

(** What [checkedMulDivRoundHalfUp] promises its callers. *)
Definition mul_div_promise (left right divisor : Z) (r : result Error Z) : Prop :=
  if decide (0 <= left /\ 0 <= right /\ 0 < divisor)
  then if decide (round_half_up left right divisor <= max_int64)
       then r = Ok (round_half_up left right divisor)
       else exists e, r = Err e /\ Code e = ErrorArithmeticOverflow
  else exists e, r = Err e /\ Code e = ErrorFactInvalid.

(** ** Lemmas *)

Lemma u64_id z : 0 <= z <= max_uint64 -> u64 z = z.
Proof. unfold u64, max_uint64, two64. intros. apply Z.mod_small. lia. Qed.

(** Rounding through quotient and remainder is rounding half up. *)
Lemma round_by_remainder a d :
  0 <= a -> 0 < d ->
  (2 * a + d) / (2 * d) = a / d + (if a mod d >=? (d + 1) / 2 then 1 else 0).
Proof.
  intros Ha Hd. pose proof (Z.div_mod a d ltac:(lia)) as Hdm.
  pose proof (Z.mod_pos_bound a d Hd) as Hm.
  pose proof (Z.div_mod (d + 1) 2 ltac:(lia)) as Hh.
  pose proof (Z.mod_pos_bound (d + 1) 2 ltac:(lia)) as Hh'.
  rewrite Z.geb_leb. destruct (Z.leb_spec ((d + 1) / 2) (a mod d)).
  - symmetry. apply (Z.div_unique_pos _ _ _ (2 * (a mod d) - d)); nia.
  - symmetry. apply (Z.div_unique_pos _ _ _ (2 * (a mod d) + d)); nia.
Qed.

Lemma Mul64_Div64 a b : Mul64 a b = ((a * b) / two64, (a * b) mod two64) /\
  (a * b) / two64 * two64 + (a * b) mod two64 = a * b.
Proof.
  split; [done|]. pose proof (Z.div_mod (a * b) two64 ltac:(unfold two64; lia)). lia.
Qed.

Lemma round_half_up_nonneg a b d : 0 <= a -> 0 <= b -> 0 < d -> 0 <= round_half_up a b d.
Proof. intros. unfold round_half_up. apply Z.div_pos; nia. Qed.

Lemma checkedMulDiv_rounds left right divisor :
  in_int64 left -> in_int64 right -> in_int64 divisor ->
  mul_div_promise left right divisor (checkedMulDivRoundHalfUp left right divisor).
Proof.
  unfold in_int64, mul_div_promise, checkedMulDivRoundHalfUp. intros Hl Hr Hd.
  case_decide as Hv.
  2: { rewrite (proj2 (orb_true_iff _ _)); [eauto|].
       destruct (Z.ltb_spec left 0), (Z.ltb_spec right 0), (Z.leb_spec divisor 0); cbn; lia. }
  destruct Hv as (H1 & H2 & H3).
  rewrite (proj2 (Z.ltb_ge left 0)), (proj2 (Z.ltb_ge right 0)),
    (proj2 (Z.leb_gt divisor 0)) by lia. cbn [orb].
  unfold min_int64, max_int64 in *.
  rewrite !u64_id by (unfold max_uint64; lia).
  destruct (Mul64_Div64 left right) as [-> Hsplit]. cbn [Div64].
  unfold Div64. rewrite Hsplit.
  set (a := left * right) in *. assert (0 <= a) by nia.
  unfold round_half_up. fold a.
  rewrite (round_by_remainder a divisor) by lia.
  rewrite (Z.geb_leb (a / two64)).
  destruct (Z.leb_spec divisor (a / two64)) as [Hhi|Hhi].
  { rewrite decide_False; [eauto|].
    assert (divisor * two64 <= a).
    { pose proof (Z.mul_div_le a two64 ltac:(unfold two64; lia)). unfold two64 in *. nia. }
    assert (two64 <= a / divisor) by (apply Z.div_le_lower_bound; lia).
    unfold two64 in *. destruct (a mod divisor >=? _); lia. }
  assert (Hq : 0 <= a / divisor < two64).
  { split; [apply Z.div_pos; lia|]. apply Z.div_lt_upper_bound; [lia|].
    pose proof (Z.div_mod a two64 ltac:(unfold two64; lia)).
    pose proof (Z.mod_pos_bound a two64 ltac:(unfold two64; lia)). unfold two64 in *. nia. }
  unfold two64, max_uint64 in *.
  destruct (a mod divisor >=? (divisor + 1) / 2); cbn.
  - destruct (Z.eqb_spec (a / divisor) 18446744073709551615).
    { rewrite decide_False by lia. eauto. }
    rewrite u64_id by (unfold max_uint64; lia). cbn. rewrite Z.gtb_ltb.
    case_decide; [rewrite (proj2 (Z.ltb_ge _ _)) by lia; done|].
    rewrite (proj2 (Z.ltb_lt _ _)) by lia. eauto.
  - rewrite Z.add_0_r, Z.gtb_ltb.
    case_decide; [rewrite (proj2 (Z.ltb_ge _ _)) by lia; done|].
    rewrite (proj2 (Z.ltb_lt _ _)) by lia. eauto.
Qed.

Lemma checkedMulDiv_Ok left right divisor r :
  in_int64 left -> in_int64 right -> in_int64 divisor ->
  checkedMulDivRoundHalfUp left right divisor = Ok r ->
  r = round_half_up left right divisor /\ 0 <= r <= max_int64 /\
  0 <= left /\ 0 <= right /\ 0 < divisor.
Proof.
  intros Hl Hr Hd E. pose proof (checkedMulDiv_rounds left right divisor Hl Hr Hd) as H.
  unfold mul_div_promise in H. rewrite E in H.
  case_decide as Hv; [case_decide|]; [|naive_solver..].
  injection H as ->. pose proof (round_half_up_nonneg left right divisor). naive_solver lia.
Qed.

Definition value_in_range (v : value) : Prop :=
  match v with VInt z | VInt64 z => in_int64 z | _ => True end.

Lemma pricingInteger_Ok v z : value_in_range v -> pricingInteger v = Ok z -> in_int64 z.
Proof. destruct v; cbn; congruence. Qed.

Lemma round_half_up_one a : round_half_up a 1 1 = a.
Proof. unfold round_half_up. symmetry. apply (Z.div_unique_pos _ _ _ 1); lia. Qed.

Lemma round_half_up_bps_one a : round_half_up a basisPointsOne basisPointsOne = a.
Proof.
  unfold round_half_up, basisPointsOne. symmetry. apply (Z.div_unique_pos _ _ _ 10000); lia.
Qed.

Lemma checkedAdd_Ok left right r :
  in_int64 left -> in_int64 right ->
  checkedAdd left right = Ok r <->
  r = left + right /\ 0 <= left /\ 0 <= right /\ left + right <= max_int64.
Proof.
  unfold checkedAdd, in_int64, min_int64, max_int64. intros Hl Hr.
  destruct (Z.ltb_spec left 0); cbn; [naive_solver lia|].
  destruct (Z.ltb_spec right 0); cbn; [naive_solver lia|].
  rewrite Z.gtb_ltb. rewrite wrap64_id by (unfold in_int64, min_int64, max_int64; lia).
  destruct (Z.ltb_spec (9223372036854775807 - right) left); [naive_solver lia|].
  rewrite wrap64_id by (unfold in_int64, min_int64, max_int64; lia). naive_solver lia.
Qed.

(** ** Theorems *)

(** For any [int64] operands the product and quotient are the exact rational
    rounded half up, or the arithmetic-overflow error when that does not fit an
    [int64], or the invalid-operand error for a negative operand or a divisor
    that is not positive: no intermediate result wraps. *)
Theorem checkedMulDivRoundHalfUp_exact left right divisor :
  in_int64 left -> in_int64 right -> in_int64 divisor ->
  mul_div_promise left right divisor (checkedMulDivRoundHalfUp left right divisor).
Proof. apply checkedMulDiv_rounds. Qed.

Lemma checkedMulDivRoundHalfUp_exact_witness :
  mul_div_promise max_int64 3 2 (checkedMulDivRoundHalfUp max_int64 3 2) /\
  checkedMulDivRoundHalfUp 1234567 15 10 = Ok 1851851.
Proof.
  split; [|vm_compute; reflexivity].
  apply checkedMulDivRoundHalfUp_exact; vm_compute; split; discriminate.
Defined.
