(* ===== verification/PricingRule.v ===== *)
(** * Pricing: rule compilation

    [backend/internal/pricing/compile.go] up to the cache, and the rule types of
    [types.go].  The syntax tree, its parser and the bytecode compiler belong to
    the [expr] package: the tree is the inductive type of the node kinds the
    analyser tells apart, the parser and the compiler are parameters. *)

From S2P Require Import Prelude Sha256 PricingMoney.

(** ** Types (types.go) *)

Definition EngineVersionV1 : Z := 1.

Definition ExpressionHash (source : string) : string := sha256_hex source.

Definition validShortString (value : string) : bool :=
  (go_len value <=? 128) && negb (ContainsAny value (cr ++ lf ++ nul)).

Record TierAnalysis := mkTierAnalysis { TierName : string; Conditions : list string }.

Record RuleAnalysis := mkRuleAnalysis {
  AnalysisEngineVersion : Z;
  RequiredFacts : list string;
  Tiers : list TierAnalysis;
  LineCodes : list string;
  VisualEditable : bool;
}.

Record CompiledRule {VMProgram : Type} := mkCompiledRule {
  Source : string;
  RuleHash : string;
  EngineVersion : Z;
  Analysis : RuleAnalysis;
  body : string;
  program : option VMProgram;
}.
Arguments CompiledRule : clear implicits.

(** ** Limits and vocabularies (compile.go) *)

Definition maxExpressionBytes : Z := 8 * 1024.
Definition maxASTNodes : Z := 256.
Definition maxASTDepth : Z := 32.
Definition maxStaticTiers : Z := 16.
Definition maxStaticLines : Z := 32.

Definition factNames : list string := [
  "total_input_tokens"; "uncached_input_tokens"; "cache_read_tokens";
  "cache_write_5m_tokens"; "cache_write_1h_tokens"; "output_tokens"; "cache_fields_present";
  "input_images"; "output_images"; "partial_images"; "input_video_milliseconds";
  "output_video_milliseconds"; "input_audio_milliseconds"; "output_audio_milliseconds";
  "realtime_audio_milliseconds"; "input_characters"; "actions"; "batch_items";
  "input_bytes"; "output_bytes"; "transfer_bytes"; "session_milliseconds";
  "protocol"; "operation"; "modality"; "lane"; "stream"; "output_count"; "service_tier"]%string.

Definition functionNames : list string := [
  "token_cost"; "unit_cost"; "block_cost"; "multiply_bps";
  "token_line"; "adjusted_token_line"; "unit_line"; "adjusted_unit_line";
  "block_line"; "adjusted_block_line"; "fixed_line"; "tier"; "min"; "max"]%string.

Definition allowedBinaryOperator (operator : string) : bool :=
  oneOf operator ["+"; "=="; "!="; "<"; "<="; ">"; ">="; "&&"; "||"]%string.

(** ** Syntax trees ([ast.Node]) *)

Inductive Node :=
| NilNode
| IntegerNode (value : Z)
| BoolNode (value : bool)
| StringNode (value : string)
| IdentifierNode (value : string)
| UnaryNode (operator : string) (node : Node)
| BinaryNode (operator : string) (left right : Node)
| ConditionalNode (cond exp1 exp2 : Node)
| CallNode (callee : Node) (arguments : list Node)
| OtherNode (typename : string).

(** ** parseVersion *)

Definition parseVersion (source : string) : result Error (Z * string) :=
  if TrimSpace source =s "" then
    Err (errorf ErrorExpressionEmpty "expression is required" [])
  else if go_len source >? maxExpressionBytes then
    Err (errorf ErrorExpressionTooLarge "expression exceeds %d bytes" [FmtInt maxExpressionBytes])
  else if negb (HasPrefix source "v1:") then
    Err (errorf ErrorVersionUnsupported "expression must start with v1:" [])
  else
    let body := TrimSpace (TrimPrefix source "v1:") in
    if body =s "" then Err (errorf ErrorExpressionEmpty "expression body is required" [])
    else Ok (EngineVersionV1, body).

(** ** The analyser *)

Record astAnalyzer := mkAnalyzer {
  nodes : Z;
  maxDepth : Z;
  tierCalls : Z;
  lineCalls : Z;
  requiredFacts : gset string;
  tiers : gset string;
  lineCodes : gset string;
  visualEditable : bool;
}.
#[export] Instance astAnalyzer_settable : Settable astAnalyzer := fun a =>
  mkAnalyzer (nodes a) (maxDepth a) (tierCalls a) (lineCalls a)
    (requiredFacts a) (tiers a) (lineCodes a) (visualEditable a).

Definition newASTAnalyzer : astAnalyzer := mkAnalyzer 0 0 0 0 ∅ ∅ ∅ true.

(** The literal a tier or line call is named by, when it is one. *)
Definition first_literal (arguments : list Node) : gset string :=
  match arguments with
  | StringNode value :: _ => if value =s "" then ∅ else {[ value ]}
  | _ => ∅
  end.

Definition recordCall (name : string) (arguments : list Node) (a : astAnalyzer) : astAnalyzer :=
  let a :=
    if name =s "tier" then
      a <| tierCalls := tierCalls a + 1 |> <| tiers := first_literal arguments ∪ tiers a |>
    else a in
  let a :=
    if HasSuffix name "_line" || (name =s "fixed_line") then
      a <| lineCalls := lineCalls a + 1 |> <| lineCodes := first_literal arguments ∪ lineCodes a |>
    else a in
  if (name =s "min") || (name =s "max") || HasSuffix name "_cost" || (name =s "multiply_bps")
  then a <| visualEditable := false |> else a.

Definition forbidden (format : string) (args : list fmt_arg) : Error :=
  errorf ErrorForbiddenAST format args.

(** The two counters and the limit test at the head of [visit]. *)
Definition enter (depth : Z) (a : astAnalyzer) : result Error astAnalyzer :=
  let a := a <| nodes := nodes a + 1 |> in
  let a := if depth >? maxDepth a then a <| maxDepth := depth |> else a in
  if (nodes a >? maxASTNodes) || (depth >? maxASTDepth)
  then Err (forbidden "expression exceeds AST limits" []) else Ok a.

Definition visit_identifier (value : string) (callCallee : bool) (a : astAnalyzer)
    : result Error astAnalyzer :=
  if callCallee then
    if contains functionNames value then Ok a
    else Err (forbidden "function %q is not allowed" [FmtStr value])
  else if contains factNames value then
    Ok (a <| requiredFacts := {[ value ]} ∪ requiredFacts a |>)
  else Err (forbidden "identifier %q is not allowed" [FmtStr value]).

Fixpoint visit (node : Node) (depth : Z) (callCallee : bool) (a : astAnalyzer)
    : result Error astAnalyzer :=
  match node with
  | NilNode => Err (forbidden "nil AST node" [])
  | IntegerNode _ | BoolNode _ => enter depth a
  | StringNode value =>
      a ← enter depth a;
      if negb (validShortString value)
      then Err (forbidden "string literal is invalid or too long" []) else Ok a
  | IdentifierNode value =>
      a ← enter depth a;
      visit_identifier value callCallee a
  | UnaryNode operator operand =>
      a ← enter depth a;
      if operator <>s "!"
      then Err (forbidden "unary operator %q is not allowed" [FmtStr operator])
      else visit operand (depth + 1) false a
  | BinaryNode operator lhs rhs =>
      a ← enter depth a;
      if negb (allowedBinaryOperator operator)
      then Err (forbidden "binary operator %q is not allowed" [FmtStr operator])
      else
        a ← visit lhs (depth + 1) false a;
        visit rhs (depth + 1) false a
  | ConditionalNode cond exp1 exp2 =>
      a ← enter depth a;
      a ← visit cond (depth + 1) false a;
      a ← visit exp1 (depth + 1) false a;
      visit exp2 (depth + 1) false a
  | CallNode callee arguments =>
      a ← enter depth a;
      match callee with
      | IdentifierNode name =>
          a ← visit callee (depth + 1) true a;
          (fix visit_all (args : list Node) (a : astAnalyzer) : result Error astAnalyzer :=
             match args with
             | [] => Ok a
             | argument :: rest =>
                 a ← visit argument (depth + 1) false a;
                 visit_all rest a
             end) arguments (recordCall name arguments a)
      | _ => Err (forbidden "dynamic function calls are not allowed" [])
      end
  | OtherNode typename =>
      a ← enter depth a;
      Err (forbidden "AST node %T is not allowed" [FmtStr typename])
  end.

(** [sortedKeys]: map iteration followed by [sort.Strings]. *)
Definition sortedKeys (values : gset string) : list string :=
  sort_by (fun s t => is_lt (String.compare s t)) (elements values).

Definition analysis (a : astAnalyzer) (version : Z) : RuleAnalysis :=
  mkRuleAnalysis version (sortedKeys (requiredFacts a))
    (map (fun name => mkTierAnalysis name []) (sortedKeys (tiers a)))
    (sortedKeys (lineCodes a)) (visualEditable a).

(** ** compileV1 *)

Section Compile.
(** [parser.Parse] and [expr.Compile] of the [expr] package; their failures are
    reported by the text of the error. *)
Context {VMProgram : Type}.
Context (Parse : string -> result string Node).
Context (CompileExpr : string -> result string VMProgram).

Definition compileV1 (source hash : string) : result Error (CompiledRule VMProgram) :=
  '(version, body) ← parseVersion source;
  tree ← match Parse body with
         | Ok tree => Ok tree
         | Err err => Err (errorf ErrorCompileFailed "%v" [FmtStr err])
         end;
  analyzer ← visit tree 1 false newASTAnalyzer;
  if (nodes analyzer >? maxASTNodes) || (maxDepth analyzer >? maxASTDepth)
  then Err (forbidden "expression exceeds AST limits" [])
  else if (tierCalls analyzer >? maxStaticTiers) || (lineCalls analyzer >? maxStaticLines)
  then Err (forbidden "expression exceeds tier or line limits" [])
  else
    prog ← match CompileExpr body with
              | Ok prog => Ok prog
              | Err err => Err (errorf ErrorCompileFailed "%v" [FmtStr err])
              end;
    Ok (mkCompiledRule VMProgram source hash version (analysis analyzer version) body (Some prog)).

Definition compiledProgram (rule : CompiledRule VMProgram) : result Error VMProgram :=
  let invalid := errorf ErrorHashMismatch "compiled rule is invalid" [] in
  match program rule with
  | None => Err invalid
  | Some prog =>
      if negb (EngineVersion rule =? EngineVersionV1)
         || (RuleHash rule <>s ExpressionHash (Source rule))
      then Err invalid else Ok prog
  end.
End Compile.

(** ** Specification of the analyser *)

(** The trees the language admits: literals, known facts, [!], the listed
    binary operators, conditionals, and calls of known functions by name. *)
Fixpoint allowed (node : Node) : bool :=
  match node with
  | IntegerNode _ | BoolNode _ => true
  | StringNode value => validShortString value
  | IdentifierNode value => contains factNames value
  | UnaryNode operator operand => (operator =s "!") && allowed operand
  | BinaryNode operator lhs rhs => allowedBinaryOperator operator && allowed lhs && allowed rhs
  | ConditionalNode cond exp1 exp2 => allowed cond && allowed exp1 && allowed exp2
  | CallNode (IdentifierNode name) arguments =>
      contains functionNames name && forallb allowed arguments
  | _ => false
  end.

(** Size and height; the callee of a call counts as a node of its own. *)
Fixpoint node_count (node : Node) : Z :=
  match node with
  | UnaryNode _ operand => 1 + node_count operand
  | BinaryNode _ lhs rhs => 1 + node_count lhs + node_count rhs
  | ConditionalNode cond exp1 exp2 => 1 + node_count cond + node_count exp1 + node_count exp2
  | CallNode _ arguments => 2 + sum_Z node_count arguments
  | _ => 1
  end.

Fixpoint max_list (l : list Z) : Z :=
  match l with [] => 0 | x :: l' => Z.max x (max_list l') end.

Fixpoint node_height (node : Node) : Z :=
  match node with
  | UnaryNode _ operand => 1 + node_height operand
  | BinaryNode _ lhs rhs => 1 + Z.max (node_height lhs) (node_height rhs)
  | ConditionalNode cond exp1 exp2 =>
      1 + Z.max (node_height cond) (Z.max (node_height exp1) (node_height exp2))
  | CallNode _ arguments => 1 + Z.max 1 (max_list (map node_height arguments))
  | _ => 1
  end.

(** The facts a tree reads. *)
Fixpoint node_facts (node : Node) : gset string :=
  match node with
  | IdentifierNode value => {[ value ]}
  | UnaryNode _ operand => node_facts operand
  | BinaryNode _ lhs rhs => node_facts lhs ∪ node_facts rhs
  | ConditionalNode cond exp1 exp2 => node_facts cond ∪ (node_facts exp1 ∪ node_facts exp2)
  | CallNode _ arguments => ⋃ (map node_facts arguments)
  | _ => ∅
  end.

(** The calls of a tree, callee name and arguments, in the order of the text. *)
Fixpoint node_calls (node : Node) : list (string * list Node) :=
  match node with
  | UnaryNode _ operand => node_calls operand
  | BinaryNode _ lhs rhs => node_calls lhs ++ node_calls rhs
  | ConditionalNode cond exp1 exp2 => node_calls cond ++ node_calls exp1 ++ node_calls exp2
  | CallNode (IdentifierNode name) arguments =>
      (name, arguments) :: flat_map node_calls arguments
  | _ => []
  end.

Definition record_all (calls : list (string * list Node)) (a : astAnalyzer) : astAnalyzer :=
  foldl (fun a call => recordCall call.1 call.2 a) a calls.

(** The calls counted as tiers and as lines, and those that rule out the
    visual editor. *)
Definition is_tier_call (call : string * list Node) : bool := call.1 =s "tier".
Definition is_line_call (call : string * list Node) : bool :=
  HasSuffix call.1 "_line" || (call.1 =s "fixed_line").
Definition not_visual (call : string * list Node) : bool :=
  (call.1 =s "min") || (call.1 =s "max") || HasSuffix call.1 "_cost" || (call.1 =s "multiply_bps").
Definition calls_where (p : string * list Node -> bool) (node : Node) : list (string * list Node) :=
  List.filter p (node_calls node).
Definition call_count (p : string * list Node -> bool) (node : Node) : Z :=
  Z.of_nat (length (calls_where p node)).
Definition call_names (p : string * list Node -> bool) (node : Node) : gset string :=
  ⋃ (map (fun call => first_literal call.2) (calls_where p node)).

(** The analysis of an accepted tree, read off the tree. *)
Definition tree_analysis (node : Node) : RuleAnalysis :=
  mkRuleAnalysis EngineVersionV1 (sortedKeys (node_facts node))
    (map (fun name => mkTierAnalysis name []) (sortedKeys (call_names is_tier_call node)))
    (sortedKeys (call_names is_line_call node)) (forallb (fun call => negb (not_visual call)) (node_calls node)).

(** What a successful visit adds to the analyser. *)
Definition absorb (node : Node) (depth : Z) (a : astAnalyzer) : astAnalyzer :=
  record_all (node_calls node)
    (a <| nodes := nodes a + node_count node |>
       <| maxDepth := Z.max (maxDepth a) (depth + node_height node - 1) |>
       <| requiredFacts := node_facts node ∪ requiredFacts a |>).

Definition within_limits (node : Node) (depth : Z) (a : astAnalyzer) : Prop :=
  nodes a + node_count node <= maxASTNodes /\ depth + node_height node - 1 <= maxASTDepth.

#[global] Arguments ExpressionHash : simpl never.

(** ** Lemmas *)

(** Induction on trees, with the hypothesis for every argument of a call. *)
Lemma Node_ind' (P : Node -> Prop) :
  P NilNode -> (forall z, P (IntegerNode z)) -> (forall b, P (BoolNode b)) ->
  (forall s, P (StringNode s)) -> (forall s, P (IdentifierNode s)) ->
  (forall op n, P n -> P (UnaryNode op n)) ->
  (forall op l r, P l -> P r -> P (BinaryNode op l r)) ->
  (forall c x y, P c -> P x -> P y -> P (ConditionalNode c x y)) ->
  (forall callee args, P callee -> Forall P args -> P (CallNode callee args)) ->
  (forall t, P (OtherNode t)) -> forall n, P n.
Proof.
  intros H1 H2 H3 H4 H5 H6 H7 H8 H9 H10.
  fix IH 1. intros [ | | | | | | | |callee args| ].
  - apply H1.
  - apply H2.
  - apply H3.
  - apply H4.
  - apply H5.
  - apply H6, IH.
  - apply H7; apply IH.
  - apply H8; apply IH.
  - apply H9; [apply IH|]. induction args as [|x args IHargs]; constructor; [apply IH|apply IHargs].
  - apply H10.
Qed.

Lemma node_count_pos n : 1 <= node_count n.
Proof.
  induction n using Node_ind'; cbn; try lia.
  assert (0 <= sum_Z node_count args); [|lia].
  apply sum_Z_nonneg. intros x Hx. rewrite Forall_forall in H.
  specialize (H x Hx). lia.
Qed.

Lemma node_height_pos n : 1 <= node_height n.
Proof. induction n using Node_ind'; cbn; lia. Qed.

Lemma max_list_le l m : 0 <= m -> max_list l <= m <-> Forall (fun x => x <= m) l.
Proof.
  intros Hm. induction l as [|x l IH]; cbn.
  - split; [constructor|lia].
  - rewrite Forall_cons_iff, <- IH. lia.
Qed.

(** [recordCall] commutes with the other changes a visit makes. *)
Lemma record_all_app c1 c2 a : record_all (c1 ++ c2) a = record_all c2 (record_all c1 a).
Proof. apply foldl_app. Qed.

Definition bump (k m : Z) (f : gset string) (a : astAnalyzer) : astAnalyzer :=
  a <| nodes := nodes a + k |> <| maxDepth := Z.max (maxDepth a) m |>
    <| requiredFacts := f ∪ requiredFacts a |>.

Lemma recordCall_bump name args k m f a :
  recordCall name args (bump k m f a) = bump k m f (recordCall name args a).
Proof.
  unfold recordCall, bump. destruct (name =s "tier"), (HasSuffix name "_line" || (name =s "fixed_line")),
    ((name =s "min") || (name =s "max") || HasSuffix name "_cost" || (name =s "multiply_bps")); done.
Qed.

Lemma record_all_bump calls k m f a :
  record_all calls (bump k m f a) = bump k m f (record_all calls a).
Proof.
  revert a. induction calls as [|[name args] calls IH]; intros a; [done|].
  change (record_all calls (recordCall name args (bump k m f a))
          = bump k m f (record_all calls (recordCall name args a))).
  by rewrite recordCall_bump, IH.
Qed.

Lemma bump_bump k1 m1 f1 k2 m2 f2 a :
  bump k2 m2 f2 (bump k1 m1 f1 a) = bump (k1 + k2) (Z.max m1 m2) (f1 ∪ f2) a.
Proof.
  destruct a as [n md tc lc rf ts cs ve]. unfold bump, set. cbn -[Z.max].
  rewrite Z.add_assoc, Z.max_assoc, (assoc_L (∪)), (comm_L (∪) f2). done.
Qed.

Lemma absorb_bump n d a :
  absorb n d a = bump (node_count n) (d + node_height n - 1) (node_facts n) (record_all (node_calls n) a).
Proof. apply (record_all_bump (node_calls n) (node_count n) (d + node_height n - 1) (node_facts n)). Qed.

Lemma record_all_nodes calls a : nodes (record_all calls a) = nodes a.
Proof.
  revert a. induction calls as [|[name args] calls IH]; intros a; [done|].
  etransitivity; [apply IH|]. unfold recordCall. cbn.
  destruct (name =s "tier"), (HasSuffix name "_line" || (name =s "fixed_line")),
    ((name =s "min") || (name =s "max") || HasSuffix name "_cost" || (name =s "multiply_bps")); done.
Qed.

Lemma record_all_maxDepth calls a : maxDepth (record_all calls a) = maxDepth a.
Proof.
  revert a. induction calls as [|[name args] calls IH]; intros a; [done|].
  etransitivity; [apply IH|]. unfold recordCall. cbn.
  destruct (name =s "tier"), (HasSuffix name "_line" || (name =s "fixed_line")),
    ((name =s "min") || (name =s "max") || HasSuffix name "_cost" || (name =s "multiply_bps")); done.
Qed.

Lemma bump_zero m a : m <= maxDepth a -> bump 0 m ∅ a = a.
Proof.
  intros Hm. destruct a as [n md tc lc rf ts cs ve]. unfold bump. cbn in *.
  rewrite Z.add_0_r, Z.max_l, (left_id_L ∅ (∪)) by lia. done.
Qed.

Lemma enter_Ok d a a' :
  enter d a = Ok a' <-> nodes a + 1 <= maxASTNodes /\ d <= maxASTDepth /\ a' = bump 1 d ∅ a.
Proof.
  unfold enter. destruct a as [n md tc lc rf ts cs ve].
  unfold bump, set. cbn -[Z.max]. rewrite !Z.gtb_ltb, (left_id_L ∅ (∪)).
  destruct (Z.ltb_spec md d); cbn -[Z.max]; [rewrite Z.max_r by lia|rewrite Z.max_l by lia];
    destruct (Z.ltb_spec maxASTNodes (n + 1)), (Z.ltb_spec maxASTDepth d); cbn; naive_solver lia.
Qed.

(** The loop over the arguments of a call. *)
Fixpoint visit_all (args : list Node) (depth : Z) (a : astAnalyzer) : result Error astAnalyzer :=
  match args with
  | [] => Ok a
  | argument :: rest => a ← visit argument depth false a; visit_all rest depth a
  end.

Lemma visit_call name args d b a :
  visit (CallNode (IdentifierNode name) args) d b a =
  (a ← enter d a; a ← visit (IdentifierNode name) (d + 1) true a;
   visit_all args (d + 1) (recordCall name args a)).
Proof.
  cbn. destruct (enter d a) as [a1|]; cbn; [|done].
  destruct (enter (d + 1) a1) as [a2|]; cbn; [|done].
  destruct (contains functionNames name); cbn; [|done].
  generalize (recordCall name args a2). generalize (d + 1). clear.
  induction args as [|x args IH]; intros d a; cbn; [done|].
  destruct (visit x d false a); cbn; [|done]. apply IH.
Qed.

Definition visit_meets_spec (n : Node) : Prop := forall d a a',
  visit n d false a = Ok a' <-> allowed n = true /\ within_limits n d a /\ a' = absorb n d a.

Lemma visit_all_Ok args d a a' :
  Forall visit_meets_spec args -> nodes a <= maxASTNodes -> d <= maxDepth a ->
  visit_all args d a = Ok a' <->
  forallb allowed args = true /\ nodes a + sum_Z node_count args <= maxASTNodes /\
  Forall (fun n => d + node_height n - 1 <= maxASTDepth) args /\
  a' = bump (sum_Z node_count args) (d + max_list (map node_height args) - 1)
         (⋃ (map node_facts args)) (record_all (flat_map node_calls args) a).
Proof.
  intros Hall. revert a. induction Hall as [|x args Hx _ IH]; intros a Hn Hd.
  { cbn. rewrite bump_zero by lia. rewrite Z.add_0_r. naive_solver. }
  cbn [visit_all forallb sum_Z map max_list flat_map union_list]. rewrite bind_Ok.
  rewrite andb_true_iff, Forall_cons_iff, record_all_app. unfold visit_meets_spec in Hx.
  setoid_rewrite Hx. unfold within_limits. setoid_rewrite absorb_bump.
  pose proof (node_height_pos x) as Hhp. split.
  - intros (b & (Hal & (Hl1 & Hl2) & ->) & Hrest).
    apply IH in Hrest as (? & Hl3 & ? & ->).
    2: { cbn. rewrite record_all_nodes. lia. }
    2: { cbn. rewrite record_all_maxDepth. lia. }
    cbn in Hl3. rewrite record_all_nodes in Hl3.
    split_and!; [done|done|lia|done|done|]. rewrite record_all_bump, bump_bump.
    f_equal. lia.
  - intros ((Hal & Hals) & Hc & (Hh & Hhs) & ->).
    assert (0 <= sum_Z node_count args).
    { apply sum_Z_nonneg. intros y _. pose proof (node_count_pos y). lia. }
    eexists. split; [split_and!; [done|lia|done|done]|].
    apply IH.
    + cbn. rewrite record_all_nodes. lia.
    + cbn. rewrite record_all_maxDepth. lia.
    + split_and!; [done| |done|].
      * cbn. rewrite record_all_nodes. lia.
      * rewrite record_all_bump, bump_bump. f_equal. lia.
Qed.

Lemma bump_within n d a :
  within_limits n d a -> nodes a + 1 <= maxASTNodes /\ d <= maxASTDepth.
Proof.
  intros [Hc Hh]. pose proof (node_count_pos n). pose proof (node_height_pos n). lia.
Qed.

Lemma absorb_leaf n d a :
  node_count n = 1 -> node_height n = 1 -> node_calls n = [] ->
  absorb n d a = bump 1 d (node_facts n) a.
Proof.
  intros H1 H2 H3. rewrite absorb_bump, H1, H2, H3. cbn. f_equal. lia.
Qed.


Lemma enter_then {A} d a (f : astAnalyzer -> result Error A) r :
  (enter d a ≫= f) = Ok r <->
  (nodes a + 1 <= maxASTNodes /\ d <= maxASTDepth) /\ f (bump 1 d ∅ a) = Ok r.
Proof.
  rewrite bind_Ok. setoid_rewrite enter_Ok. naive_solver.
Qed.

Lemma visit_leaf n d a a' (test : bool) :
  node_count n = 1 -> node_height n = 1 -> node_calls n = [] ->
  (visit n d false a = Ok a' <->
     (nodes a + 1 <= maxASTNodes /\ d <= maxASTDepth) /\
     test = true /\ a' = bump 1 d (node_facts n) a) ->
  test = allowed n ->
  visit n d false a = Ok a' <-> allowed n = true /\ within_limits n d a /\ a' = absorb n d a.
Proof.
  intros H1 H2 H3 -> ->. rewrite absorb_leaf by done. unfold within_limits. rewrite H1, H2.
  split; intros; destruct_and!; split_and!; (done || lia).
Qed.

Lemma absorb_after n d k m f calls a :
  absorb n d (bump k m f (record_all calls a)) =
  bump (k + node_count n) (Z.max m (d + node_height n - 1)) (f ∪ node_facts n)
    (record_all (calls ++ node_calls n) a).
Proof. by rewrite absorb_bump, record_all_bump, bump_bump, record_all_app. Qed.

Lemma nodes_bump k m f calls a : nodes (bump k m f (record_all calls a)) = nodes a + k.
Proof. cbn. by rewrite record_all_nodes. Qed.

Lemma bump_congr k1 m1 f1 k2 m2 f2 a1 a2 :
  k1 = k2 -> m1 = m2 -> f1 = f2 -> a1 = a2 -> bump k1 m1 f1 a1 = bump k2 m2 f2 a2.
Proof. congruence. Qed.

(** Read the visits of a node's children through the induction hypotheses, and
    compare what they add up to with what the node promises. *)
Ltac child_visit IH :=
  rewrite (IH _ _ _); unfold within_limits; rewrite absorb_after, nodes_bump.
Ltac close_visit :=
  repeat match goal with
  | n : Node |- _ =>
      lazymatch goal with
      | _ : 1 <= node_count n |- _ => fail
      | _ => pose proof (node_count_pos n); pose proof (node_height_pos n)
      end
  end;
  rewrite ?absorb_bump; cbn -[record_all Z.add Z.sub app];
  split; intros; destruct_and!; split_and!; try done; try lia;
  (etransitivity; [eassumption|]; apply bump_congr; [lia|lia|set_solver|by rewrite ?app_nil_l, ?app_assoc]).

Lemma visit_then n d k m f calls a A (g : astAnalyzer -> result Error A) r :
  visit_meets_spec n ->
  (visit n d false (bump k m f (record_all calls a)) ≫= g) = Ok r <->
  (allowed n = true /\ nodes a + k + node_count n <= maxASTNodes /\
   d + node_height n - 1 <= maxASTDepth) /\
  g (bump (k + node_count n) (Z.max m (d + node_height n - 1)) (f ∪ node_facts n)
       (record_all (calls ++ node_calls n) a)) = Ok r.
Proof.
  intros IH. rewrite bind_Ok. setoid_rewrite (IH _ _ _). unfold within_limits.
  rewrite nodes_bump. setoid_rewrite absorb_after. naive_solver.
Qed.

Lemma visit_last n d k m f calls a r :
  visit_meets_spec n ->
  visit n d false (bump k m f (record_all calls a)) = Ok r <->
  (allowed n = true /\ nodes a + k + node_count n <= maxASTNodes /\
   d + node_height n - 1 <= maxASTDepth) /\
  r = bump (k + node_count n) (Z.max m (d + node_height n - 1)) (f ∪ node_facts n)
       (record_all (calls ++ node_calls n) a).
Proof.
  intros IH. rewrite (IH _ _ _). unfold within_limits. rewrite nodes_bump, absorb_after. naive_solver.
Qed.

(** The height of a call, read through its arguments. *)
Lemma heights_le callee args d :
  d + node_height (CallNode callee args) - 1 <= maxASTDepth <->
  d + 1 <= maxASTDepth /\ Forall (fun n => d + 1 + node_height n - 1 <= maxASTDepth) args.
Proof.
  cbn [node_height]. pose proof (max_list_le (map node_height args) (maxASTDepth - d)) as Hm.
  rewrite Forall_map in Hm.
  assert (Hf : Forall (fun n => node_height n <= maxASTDepth - d) args
               <-> Forall (fun n => d + 1 + node_height n - 1 <= maxASTDepth) args).
  { apply Forall_iff. intros n. lia. }
  rewrite <- Hf. split.
  - intros H. assert (0 <= maxASTDepth - d) by lia. rewrite <- Hm by done. lia.
  - intros [H H']. rewrite <- Hm in H' by lia. lia.
Qed.

(** [visit] accepts exactly the admitted trees within the limits, and what it
    leaves in the analyser is [absorb]. *)
Lemma visit_spec n : visit_meets_spec n.
Proof.
  induction n as [ | z | b | s | s | op n IH | op l r IHl IHr | c x y IHc IHx IHy
                 | callee args _ IHargs | t ] using Node_ind'; intros d a a'.
  - cbn. naive_solver.
  - apply (visit_leaf _ _ _ _ true); [done..| |done]. cbn. rewrite enter_Ok. naive_solver.
  - apply (visit_leaf _ _ _ _ true); [done..| |done]. cbn. rewrite enter_Ok. naive_solver.
  - apply (visit_leaf _ _ _ _ (validShortString s)); [done..| |done].
    cbn. rewrite enter_then. destruct (validShortString s); cbn; naive_solver.
  - apply (visit_leaf _ _ _ _ (contains factNames s)); [done..| |done].
    cbn. rewrite enter_then. destruct (contains factNames s); cbn; [|naive_solver].
    split; [intros [? [= <-]]|intros (? & _ & ->)]; (split; [done|]); [split; [done|]|];
      destruct a; unfold bump, set; cbn; by rewrite (left_id_L ∅ (∪)).
  - cbn [visit allowed]. rewrite enter_then, andb_true_iff. unfold within_limits.
    destruct (op =s "!"); cbn [negb]; [|naive_solver].
    change (bump 1 d ∅ a) with (bump 1 d ∅ (record_all [] a)).
    rewrite visit_last by done. close_visit.
  - cbn [visit allowed]. rewrite enter_then, !andb_true_iff. unfold within_limits.
    destruct (allowedBinaryOperator op); cbn [negb]; [|naive_solver].
    change (bump 1 d ∅ a) with (bump 1 d ∅ (record_all [] a)).
    rewrite visit_then, visit_last by done. close_visit.
  - cbn [visit allowed]. rewrite enter_then, !andb_true_iff. unfold within_limits.
    change (bump 1 d ∅ a) with (bump 1 d ∅ (record_all [] a)).
    rewrite !visit_then, visit_last by done. close_visit.
  - destruct callee as [ | | | |name| | | | | ];
      try (cbn; rewrite enter_then; naive_solver).
    assert (Hh : 0 <= sum_Z node_count args).
    { apply sum_Z_nonneg. intros x _. pose proof (node_count_pos x). lia. }
    rewrite visit_call, enter_then. unfold within_limits.
    cbn [visit allowed]. rewrite andb_true_iff, bind_Ok. setoid_rewrite enter_then.
    unfold visit_identifier. destruct (contains functionNames name); [|naive_solver].
    change (bump 1 d ∅ a) with (bump 1 d ∅ (record_all [] a)).
    rewrite nodes_bump.
    assert (Hb : bump 1 (d + 1) ∅ (bump 1 d ∅ (record_all [] a)) = bump 2 (d + 1) ∅ a).
    { rewrite bump_bump. apply bump_congr; [lia|lia|set_solver|done]. }
    rewrite Hb. clear Hb.
    set (a2 := recordCall name args (bump 2 (d + 1) ∅ a)).
    assert (Ha2 : a2 = bump 2 (d + 1) ∅ (record_all [(name, args)] a))
      by apply recordCall_bump.
    assert (Hn2 : nodes a2 = nodes a + 2) by (rewrite Ha2; apply nodes_bump).
    assert (Hd2 : d + 1 <= maxDepth a2) by (rewrite Ha2; cbn; lia).
    rewrite heights_le, absorb_bump. cbn [node_count node_height node_facts node_calls].
    transitivity (nodes a + 2 <= maxASTNodes /\ d + 1 <= maxASTDepth /\
                  visit_all args (d + 1) a2 = Ok a').
    { unfold a2. split.
      - intros (? & ? & (? & [= <-]) & ?). split_and!; (done || lia).
      - intros (? & ? & ?). split; [lia|]. eexists. split; [split; [|done]|done]. lia. }
    split.
    + intros (H1 & H2 & H3). apply visit_all_Ok in H3 as (? & H4 & H5 & ->); [|done|lia|done].
      split_and!; [done|done|lia|done|done|].
      rewrite Ha2, record_all_bump, bump_bump, <- record_all_app.
      apply bump_congr; [lia|lia|set_solver|done].
    + intros ((_ & H1) & (H2 & H3 & H4) & ->). split_and!; [lia|lia|].
      apply visit_all_Ok; [done|lia|done|]. split_and!; [done|lia|done|].
      rewrite Ha2, record_all_bump, bump_bump, <- record_all_app.
      apply bump_congr; [lia|lia|set_solver|done].
  - cbn. rewrite enter_then. naive_solver.
Qed.


(** *** The counters and sets [recordCall] keeps *)

Lemma record_all_cons name args calls a :
  record_all ((name, args) :: calls) a = record_all calls (recordCall name args a).
Proof. done. Qed.

Definition counted (p : string * list Node -> bool) (calls : list (string * list Node)) : Z :=
  Z.of_nat (length (List.filter p calls)).
Definition named (p : string * list Node -> bool) (calls : list (string * list Node)) : gset string :=
  ⋃ (map (fun call => first_literal call.2) (List.filter p calls)).

(** Each field of the analyser follows the calls on its own. *)
Ltac record_field IH name fin :=
  intros a; rewrite record_all_cons, IH; unfold recordCall, counted, named;
  cbn [List.filter map union_list length forallb]; unfold is_tier_call, is_line_call, not_visual;
  cbn [fst snd]; destruct (name =s "tier"), (HasSuffix name "_line" || (name =s "fixed_line")),
    ((name =s "min") || (name =s "max") || HasSuffix name "_cost" || (name =s "multiply_bps"));
  cbn; try done; fin.

Lemma record_all_tierCalls calls a :
  tierCalls (record_all calls a) = tierCalls a + counted is_tier_call calls.
Proof.
  revert a. induction calls as [|[name args] calls IH]; [intros; unfold counted; cbn; lia|record_field IH name ltac:(lia)].
Qed.

Lemma record_all_lineCalls calls a :
  lineCalls (record_all calls a) = lineCalls a + counted is_line_call calls.
Proof.
  revert a. induction calls as [|[name args] calls IH]; [intros; unfold counted; cbn; lia|record_field IH name ltac:(lia)].
Qed.

Lemma record_all_tiers calls a :
  tiers (record_all calls a) = named is_tier_call calls ∪ tiers a.
Proof.
  revert a. induction calls as [|[name args] calls IH]; [intros; unfold named; cbn; by rewrite (left_id_L ∅ (∪))|record_field IH name ltac:(by rewrite (assoc_L (∪)), (comm_L (∪) (union_list _)))].
Qed.

Lemma record_all_lineCodes calls a :
  lineCodes (record_all calls a) = named is_line_call calls ∪ lineCodes a.
Proof.
  revert a. induction calls as [|[name args] calls IH]; [intros; unfold named; cbn; by rewrite (left_id_L ∅ (∪))|record_field IH name ltac:(by rewrite (assoc_L (∪)), (comm_L (∪) (union_list _)))].
Qed.

Lemma record_all_visual calls a :
  visualEditable (record_all calls a) =
  visualEditable a && forallb (fun call => negb (not_visual call)) calls.
Proof.
  revert a. induction calls as [|[name args] calls IH]; [intros; cbn; by rewrite andb_true_r|].
  record_field IH name ltac:(by rewrite andb_false_r).
Qed.

Lemma analysis_absorb node :
  analysis (absorb node 1 newASTAnalyzer) EngineVersionV1 = tree_analysis node.
Proof.
  unfold analysis, tree_analysis, call_names, calls_where. rewrite absorb_bump. cbn.
  rewrite record_all_tiers, record_all_lineCodes, record_all_visual. cbn.
  rewrite !(right_id_L ∅ (∪)).
  assert (Hf : requiredFacts (record_all (node_calls node) newASTAnalyzer) = ∅).
  { generalize (node_calls node). intros calls. change ∅ with (requiredFacts newASTAnalyzer).
    generalize newASTAnalyzer. induction calls as [|[name args] calls IH]; [done|].
    intros a. rewrite record_all_cons, IH. unfold recordCall.
    destruct (name =s "tier"), (HasSuffix name "_line" || (name =s "fixed_line")),
      ((name =s "min") || (name =s "max") || HasSuffix name "_cost" || (name =s "multiply_bps")); done. }
  rewrite Hf, (right_id_L ∅ (∪)). done.
Qed.

(** [sortedKeys] lists a set in increasing order, each element once. *)
Lemma sortedKeys_spec s :
  (forall x, x ∈ sortedKeys s <-> x ∈ s) /\ NoDup (sortedKeys s) /\
  StronglySorted (not_after String.compare) (sortedKeys s).
Proof.
  unfold sortedKeys. split_and!.
  - intros x. rewrite elem_of_sort_by. apply elem_of_elements.
  - rewrite sort_by_perm. apply NoDup_elements.
  - apply sort_by_sorted. apply _.
Qed.

Lemma parseVersion_Ok source version body :
  parseVersion source = Ok (version, body) <->
  TrimSpace source <> ""%string /\ go_len source <= maxExpressionBytes /\
  version = EngineVersionV1 /\
  exists rest, source = ("v1:" +:+ rest)%string /\ body = TrimSpace rest /\ body <> ""%string.
Proof.
  unfold parseVersion. rewrite Z.gtb_ltb.
  destruct (String.eqb_spec (TrimSpace source) ""); [naive_solver|].
  destruct (Z.ltb_spec maxExpressionBytes (go_len source)); [naive_solver lia|].
  destruct (HasPrefix source "v1:") eqn:Hp; cbn [negb].
  - apply HasPrefix_app in Hp as [rest ->]. rewrite TrimPrefix_app.
    destruct (String.eqb_spec (TrimSpace rest) ""); naive_solver.
  - split; [done|]. intros (_ & _ & _ & rest & -> & _).
    assert (HasPrefix ("v1:" +:+ rest) "v1:" = true) by (apply HasPrefix_app; eauto). congruence.
Qed.

(** ** Theorems *)

(** [compileV1] accepts a source exactly when it is [v1:] followed by a
    non-blank body of an admitted tree within the limits of size, depth, tiers
    and lines, and the [expr] package compiles it; the rule then carries the
    analysis of that tree. *)
Theorem compileV1_accepts {VMProgram} (Parse : string -> result string Node)
    (CompileExpr : string -> result string VMProgram) source hash rule :
  compileV1 Parse CompileExpr source hash = Ok rule <->
  exists rest tree prog,
    source = ("v1:" +:+ rest)%string /\ go_len source <= maxExpressionBytes /\
    TrimSpace source <> ""%string /\ TrimSpace rest <> ""%string /\
    Parse (TrimSpace rest) = Ok tree /\ allowed tree = true /\
    node_count tree <= maxASTNodes /\ node_height tree <= maxASTDepth /\
    call_count is_tier_call tree <= maxStaticTiers /\
    call_count is_line_call tree <= maxStaticLines /\
    CompileExpr (TrimSpace rest) = Ok prog /\
    rule = mkCompiledRule VMProgram source hash EngineVersionV1 (tree_analysis tree)
             (TrimSpace rest) (Some prog).
Proof.
  unfold compileV1. split.
  - intros ([version body] & Hv & H)%bind_Ok.
    apply parseVersion_Ok in Hv as (Hne & Hlen & -> & rest & -> & -> & Hb).
    destruct (Parse (TrimSpace rest)) as [tree|] eqn:Ht; cbn in H; [|done].
    apply bind_Ok in H as (a & (Hal & (Hc & Hh) & ->)%visit_spec & H).
    destruct (_ || _) eqn:E1 in H; [done|]. destruct (_ || _) eqn:E2 in H; [done|].
    destruct (CompileExpr (TrimSpace rest)) as [prog|] eqn:Hp; cbn in H; [|done].
    rewrite analysis_absorb in H. injection H as <-.
    boolify. rewrite absorb_bump in *. cbn in *.
    rewrite record_all_tierCalls, record_all_lineCalls in *. cbn in *.
    apply Z.ltb_ge in H, H0. unfold call_count, calls_where, counted in *.
    exists rest, tree, prog. split_and!; (done || lia).
  - intros (rest & tree & prog & -> & Hlen & Hne & Hb & Ht & Hal & Hc & Hh & Htc & Hlc & Hp & ->).
    apply bind_Ok. exists (EngineVersionV1, TrimSpace rest). split.
    { apply parseVersion_Ok. naive_solver. }
    rewrite Ht. cbn. apply bind_Ok. exists (absorb tree 1 newASTAnalyzer). split.
    { apply visit_spec. split_and!; [done| |done]. split; cbn; lia. }
    rewrite analysis_absorb, Hp. cbn. rewrite absorb_bump. cbn.
    rewrite record_all_tierCalls, record_all_lineCalls, record_all_nodes, record_all_maxDepth. cbn.
    unfold call_count, calls_where in *. unfold counted. pose proof (node_height_pos tree). by decide_tests.
Qed.
