(* ===== verification/PricingEval.v ===== *)
(** * Pricing: evaluation of a compiled rule

    [backend/internal/pricing/evaluate.go] with the [Facts], [PricingLine] and
    [Result] types of [types.go].  The virtual machine of the [expr] package is a
    parameter: what it does with a program is a [script], the tree of the calls
    it makes into the environment, each continued by the value the call gives. *)

From S2P Require Import Prelude Sha256 PricingMoney PricingRule.

(** ** Facts and results (types.go) *)

Definition CurrencyUSD := "USD"%string.
Definition PhaseEstimate := "estimate"%string.
Definition PhaseSettlement := "settlement"%string.
Definition PhaseReplay := "replay"%string.

Record Facts := mkFacts {
  TotalInputTokens : Z;
  UncachedInputTokens : Z;
  CacheReadTokens : Z;
  CacheWrite5mTokens : Z;
  CacheWrite1hTokens : Z;
  OutputTokens : Z;
  CacheFieldsPresent : bool;
  InputImages : Z;
  OutputImages : Z;
  PartialImages : Z;
  InputVideoMilliseconds : Z;
  OutputVideoMilliseconds : Z;
  InputAudioMilliseconds : Z;
  OutputAudioMilliseconds : Z;
  RealtimeAudioMilliseconds : Z;
  InputCharacters : Z;
  Actions : Z;
  BatchItems : Z;
  InputBytes : Z;
  OutputBytes : Z;
  TransferBytes : Z;
  SessionMilliseconds : Z;
  Protocol : string;
  Operation : string;
  Modality : string;
  Lane : string;
  Stream : bool;
  OutputCount : Z;
  ServiceTier : string;
  AvailableFacts : gmap string bool;
  NormalizationStatus : string;
  Phase : string;
  ObservedAt : time;
}.
#[export] Instance Facts_settable : Settable Facts := fun f =>
  mkFacts (TotalInputTokens f) (UncachedInputTokens f) (CacheReadTokens f) (CacheWrite5mTokens f)
    (CacheWrite1hTokens f) (OutputTokens f) (CacheFieldsPresent f) (InputImages f)
    (OutputImages f) (PartialImages f) (InputVideoMilliseconds f) (OutputVideoMilliseconds f)
    (InputAudioMilliseconds f) (OutputAudioMilliseconds f) (RealtimeAudioMilliseconds f)
    (InputCharacters f) (Actions f) (BatchItems f) (InputBytes f) (OutputBytes f)
    (TransferBytes f) (SessionMilliseconds f) (Protocol f) (Operation f) (Modality f) (Lane f)
    (Stream f) (OutputCount f) (ServiceTier f) (AvailableFacts f) (NormalizationStatus f)
    (Phase f) (ObservedAt f).

(** The zero [Facts{}]. *)
Definition noFacts : Facts :=
  mkFacts 0 0 0 0 0 0 false 0 0 0 0 0 0 0 0 0 0 0 0 0 0 0 "" "" "" "" false 0 "" ∅ "" "" 0.

Record PricingLine := mkPricingLine {
  LineCode : string;
  Quantity : Z;
  LineUnit : string;
  UnitsPerBlock : Z;
  RateMicros : Z;
  MultiplierBPS : Z;
  AmountMicros : Z;
}.
#[export] Instance PricingLine_settable : Settable PricingLine := fun l =>
  mkPricingLine (LineCode l) (Quantity l) (LineUnit l) (UnitsPerBlock l) (RateMicros l)
    (MultiplierBPS l) (AmountMicros l).

Record Result := mkResult {
  ResultAmountMicros : Z;
  Currency : string;
  MatchedTier : string;
  Lines : list PricingLine;
  ResultEngineVersion : Z;
  ResultExpressionHash : string;
  FactsHash : string;
}.

(** ** factsEnvironment, validateFacts *)

Definition factsEnvironment (f : Facts) : gmap string value := list_to_map [
  ("total_input_tokens", VInt64 (TotalInputTokens f));
  ("uncached_input_tokens", VInt64 (UncachedInputTokens f));
  ("cache_read_tokens", VInt64 (CacheReadTokens f));
  ("cache_write_5m_tokens", VInt64 (CacheWrite5mTokens f));
  ("cache_write_1h_tokens", VInt64 (CacheWrite1hTokens f));
  ("output_tokens", VInt64 (OutputTokens f));
  ("cache_fields_present", VBool (CacheFieldsPresent f));
  ("input_images", VInt64 (InputImages f)); ("output_images", VInt64 (OutputImages f));
  ("partial_images", VInt64 (PartialImages f));
  ("input_video_milliseconds", VInt64 (InputVideoMilliseconds f));
  ("output_video_milliseconds", VInt64 (OutputVideoMilliseconds f));
  ("input_audio_milliseconds", VInt64 (InputAudioMilliseconds f));
  ("output_audio_milliseconds", VInt64 (OutputAudioMilliseconds f));
  ("realtime_audio_milliseconds", VInt64 (RealtimeAudioMilliseconds f));
  ("input_characters", VInt64 (InputCharacters f)); ("actions", VInt64 (Actions f));
  ("batch_items", VInt64 (BatchItems f)); ("input_bytes", VInt64 (InputBytes f));
  ("output_bytes", VInt64 (OutputBytes f)); ("transfer_bytes", VInt64 (TransferBytes f));
  ("session_milliseconds", VInt64 (SessionMilliseconds f)); ("protocol", VString (Protocol f));
  ("operation", VString (Operation f)); ("modality", VString (Modality f));
  ("lane", VString (Lane f)); ("stream", VBool (Stream f));
  ("output_count", VInt64 (OutputCount f)); ("service_tier", VString (ServiceTier f))]%string.

(** The two slices [validateFacts] loops over. *)
Definition fact_values (f : Facts) : list Z := [
  TotalInputTokens f; UncachedInputTokens f; CacheReadTokens f; CacheWrite5mTokens f;
  CacheWrite1hTokens f; OutputTokens f; InputImages f; OutputImages f; PartialImages f;
  InputVideoMilliseconds f; OutputVideoMilliseconds f; InputAudioMilliseconds f;
  OutputAudioMilliseconds f; RealtimeAudioMilliseconds f; InputCharacters f; Actions f;
  BatchItems f; InputBytes f; OutputBytes f; TransferBytes f; SessionMilliseconds f;
  OutputCount f].
Definition fact_strings (f : Facts) : list string :=
  [Protocol f; Operation f; Modality f; Lane f; ServiceTier f; NormalizationStatus f].

(** A map read of a missing key gives [false]. *)
Definition available (f : Facts) (name : string) : bool :=
  default false (AvailableFacts f !! name).

Definition validateFacts (f : Facts) (required : list string) : result Error unit :=
  if existsb (fun value => value <? 0) (fact_values f) then
    Err (errorf ErrorFactInvalid "pricing facts must be non-negative" [])
  else if (UncachedInputTokens f >? TotalInputTokens f) && (TotalInputTokens f >? 0) then
    Err (errorf ErrorFactInvalid "uncached input exceeds total input" [])
  else if existsb (fun value => negb (validShortString value)) (fact_strings f) then
    Err (errorf ErrorFactInvalid "pricing fact string is invalid or too long" [])
  else if (Phase f <>s "") && (Phase f <>s PhaseEstimate) && (Phase f <>s PhaseSettlement)
          && (Phase f <>s PhaseReplay) then
    Err (errorf ErrorFactInvalid "pricing phase is invalid" [])
  else if Z.of_nat (size (AvailableFacts f)) >? 0 then
    match List.find (fun name => negb (available f name)) required with
    | Some name => Err (errorf ErrorFactMissing "required fact %q is unavailable" [FmtStr name])
    | None => Ok tt
    end
  else Ok tt.

(** ** evaluationTrace *)

Record evaluationTrace := mkTrace {
  matchedTier : string;
  tierAmount : Z;
  lines : list PricingLine;
  traceCodes : gset string;
}.
#[export] Instance evaluationTrace_settable : Settable evaluationTrace := fun t =>
  mkTrace (matchedTier t) (tierAmount t) (lines t) (traceCodes t).

Definition newTrace : evaluationTrace := mkTrace "" 0 [] ∅.

(** An environment function: its result and what it does to the trace. *)
Definition traced (A : Type) : Type := evaluationTrace -> result Error (A * evaluationTrace).

Definition addLine (line : PricingLine) : traced Z := fun t =>
  let line := line <| LineCode := TrimSpace (LineCode line) |> in
  let line := line <| LineUnit := TrimSpace (LineUnit line) |> in
  if (LineCode line =s "") || (LineUnit line =s "")
     || negb (validShortString (LineCode line)) || negb (validShortString (LineUnit line))
  then Err (errorf ErrorBreakdownInvalid "line code and unit are required" [])
  else if Z.of_nat (length (lines t)) >=? maxStaticLines
  then Err (errorf ErrorBreakdownInvalid "too many line items" [])
  else if bool_decide (LineCode line ∈ traceCodes t)
  then Err (errorf ErrorBreakdownInvalid "duplicate line code %q" [FmtStr (LineCode line)])
  else if (Quantity line <? 0) || (UnitsPerBlock line <=? 0) || (RateMicros line <? 0)
          || (MultiplierBPS line <? 0) || (AmountMicros line <? 0)
  then Err (errorf ErrorBreakdownInvalid "line item contains invalid values" [])
  else Ok (AmountMicros line,
           t <| traceCodes := {[ LineCode line ]} ∪ traceCodes t |>
             <| lines := lines t ++ [line] |>).

(** ** evaluationEnvironment *)

Definition env_token_line (code : string) (quantityValue rateValue : value) : traced Z := fun t =>
  quantity ← pricingInteger quantityValue;
  rate ← pricingInteger rateValue;
  amount ← tokenCost quantity rate;
  addLine (mkPricingLine code quantity "token" 1000000 rate basisPointsOne amount) t.

Definition env_adjusted_token_line (code : string) (quantityValue rateValue bpsValue : value)
    : traced Z := fun t =>
  quantity ← pricingInteger quantityValue;
  rate ← pricingInteger rateValue;
  bps ← pricingInteger bpsValue;
  base ← tokenCost quantity rate;
  amount ← multiplyBPS base bps;
  addLine (mkPricingLine code quantity "token" 1000000 rate bps amount) t.

Definition env_unit_line (code : string) (quantityValue : value) (unit : string)
    (rateValue : value) : traced Z := fun t =>
  quantity ← pricingInteger quantityValue;
  rate ← pricingInteger rateValue;
  amount ← unitCost quantity rate;
  addLine (mkPricingLine code quantity unit 1 rate basisPointsOne amount) t.

Definition env_adjusted_unit_line (code : string) (quantityValue : value) (unit : string)
    (rateValue bpsValue : value) : traced Z := fun t =>
  quantity ← pricingInteger quantityValue;
  rate ← pricingInteger rateValue;
  bps ← pricingInteger bpsValue;
  base ← unitCost quantity rate;
  amount ← multiplyBPS base bps;
  addLine (mkPricingLine code quantity unit 1 rate bps amount) t.

Definition env_block_line (code : string) (quantityValue : value) (unit : string)
    (unitsPerBlockValue rateValue : value) : traced Z := fun t =>
  quantity ← pricingInteger quantityValue;
  unitsPerBlock ← pricingInteger unitsPerBlockValue;
  rate ← pricingInteger rateValue;
  amount ← blockCost quantity unitsPerBlock rate;
  addLine (mkPricingLine code quantity unit unitsPerBlock rate basisPointsOne amount) t.

Definition env_adjusted_block_line (code : string) (quantityValue : value) (unit : string)
    (unitsPerBlockValue rateValue bpsValue : value) : traced Z := fun t =>
  quantity ← pricingInteger quantityValue;
  unitsPerBlock ← pricingInteger unitsPerBlockValue;
  rate ← pricingInteger rateValue;
  bps ← pricingInteger bpsValue;
  base ← blockCost quantity unitsPerBlock rate;
  amount ← multiplyBPS base bps;
  addLine (mkPricingLine code quantity unit unitsPerBlock rate bps amount) t.

Definition env_fixed_line (code unit : string) (amountValue : value) : traced Z := fun t =>
  amount ← pricingInteger amountValue;
  addLine (mkPricingLine code 1 unit 1 amount basisPointsOne amount) t.

Definition env_tier (name : string) (amountValue : value) : traced Z := fun t =>
  amount ← pricingInteger amountValue;
  let name := TrimSpace name in
  if (name =s "") || negb (validShortString name) || (matchedTier t <>s "")
  then Err (errorf ErrorTierInvalid "exactly one valid tier may be selected" [])
  else if amount <? 0
  then Err (errorf ErrorTierInvalid "tier amount must be non-negative" [])
  else Ok (amount, t <| matchedTier := name |> <| tierAmount := amount |>).

Definition env_min (leftValue rightValue : value) : result Error Z :=
  left ← pricingInteger leftValue;
  right ← pricingInteger rightValue;
  if left <? right then Ok left else Ok right.

Definition env_max (leftValue rightValue : value) : result Error Z :=
  left ← pricingInteger leftValue;
  right ← pricingInteger rightValue;
  if left >? right then Ok left else Ok right.

(** One call of an environment function, by its key in the map. *)
Inductive envCall :=
| call_token_cost (quantity rate : value)
| call_unit_cost (quantity rate : value)
| call_block_cost (quantity unitsPerBlock rate : value)
| call_multiply_bps (amount bps : value)
| call_token_line (code : string) (quantity rate : value)
| call_adjusted_token_line (code : string) (quantity rate bps : value)
| call_unit_line (code : string) (quantity : value) (unit : string) (rate : value)
| call_adjusted_unit_line (code : string) (quantity : value) (unit : string) (rate bps : value)
| call_block_line (code : string) (quantity : value) (unit : string) (unitsPerBlock rate : value)
| call_adjusted_block_line (code : string) (quantity : value) (unit : string)
    (unitsPerBlock rate bps : value)
| call_fixed_line (code unit : string) (amount : value)
| call_tier (name : string) (amount : value)
| call_min (left right : value)
| call_max (left right : value).

(** A function of the environment that leaves the trace alone. *)
Definition untraced (r : result Error Z) : traced Z := fun t => x ← r; Ok (x, t).

Definition evaluationEnvironment (c : envCall) : traced Z :=
  match c with
  | call_token_cost q r => untraced (numeric2 tokenCost q r)
  | call_unit_cost q r => untraced (numeric2 unitCost q r)
  | call_block_cost q u r => untraced (numeric3 blockCost q u r)
  | call_multiply_bps a b => untraced (numeric2 multiplyBPS a b)
  | call_token_line code q r => env_token_line code q r
  | call_adjusted_token_line code q r b => env_adjusted_token_line code q r b
  | call_unit_line code q unit r => env_unit_line code q unit r
  | call_adjusted_unit_line code q unit r b => env_adjusted_unit_line code q unit r b
  | call_block_line code q unit u r => env_block_line code q unit u r
  | call_adjusted_block_line code q unit u r b => env_adjusted_block_line code q unit u r b
  | call_fixed_line code unit a => env_fixed_line code unit a
  | call_tier name a => env_tier name a
  | call_min l r => untraced (env_min l r)
  | call_max l r => untraced (env_max l r)
  end.

(** ** Errors of a run *)

(** The error chain [asPricingError] unwraps: a pricing error, or another error
    with its text and what its [Unwrap] gives. *)
Inductive run_error :=
| PricingError (e : Error)
| OtherError (text : string) (unwrapped : option run_error).

Fixpoint asPricingError (err : run_error) : option Error :=
  match err with
  | PricingError e => Some e
  | OtherError _ (Some inner) => asPricingError inner
  | OtherError _ None => None
  end.

Section Evaluate.
(** [expr.Run]: the program run against the facts makes calls and ends with a
    value or an error; an error of a call ends the run, wrapped by the machine. *)
Inductive script :=
| Return (out : value)
| RunFails (err : run_error)
| Call (c : envCall) (k : Z -> script).

Context {VMProgram : Type}.
Context (Run : VMProgram -> gmap string value -> script).
Context (wrapCallError : Error -> run_error).
(** [fmt.Sprintf] and [json.Marshal] on the values used here. *)
Context (render : message -> string).
Context (Marshal : Facts -> result string string).

Fixpoint run_script (s : script) (t : evaluationTrace)
    : result run_error (value * evaluationTrace) :=
  match s with
  | Return out => Ok (out, t)
  | RunFails err => Err err
  | Call c k =>
      match evaluationEnvironment c t with
      | Ok (z, t') => run_script (k z) t'
      | Err e => Err (wrapCallError e)
      end
  end.

(** The method [Error] of a pricing error. *)
Definition ErrorText (e : Error) : string :=
  if Line e >? 0
  then render (Sprintf "%s at %d:%d: %s"
                 [FmtStr (Code e); FmtInt (Line e); FmtInt (Column e); FmtStr (render (Message e))])
  else (Code e +:+ ": " +:+ render (Message e))%string.

Definition run_error_text (err : run_error) : string :=
  match err with PricingError e => ErrorText e | OtherError text _ => text end.

Definition classifyRuntimeError (err : run_error) : Error :=
  let text := run_error_text err in
  if Contains text ErrorArithmeticOverflow then errorf ErrorArithmeticOverflow "%v" [FmtStr text]
  else if Contains text ErrorBreakdownInvalid then errorf ErrorBreakdownInvalid "%v" [FmtStr text]
  else if Contains text ErrorTierInvalid then errorf ErrorTierInvalid "%v" [FmtStr text]
  else match asPricingError err with
       | Some pricingError => pricingError
       | None => errorf ErrorAmountOutOfRange "expression execution failed: %v" [FmtStr text]
       end.

(** [Facts.CanonicalJSON] and [Facts.Hash] *)
Definition CanonicalJSON (f : Facts) : result string string :=
  Marshal (f <| Phase := "" |> <| ObservedAt := 0 |>).
Definition Facts_Hash (f : Facts) : result string string :=
  payload ← CanonicalJSON f;
  Ok (sha256_hex payload).

(** ** Evaluate *)

Definition addLineTotal (lineTotal : Z) (line : PricingLine) : result Error Z :=
  checkedAdd lineTotal (AmountMicros line).

Definition Evaluate (rule : CompiledRule VMProgram) (facts : Facts) : result Error Result :=
  prog ← compiledProgram rule;
  _ ← validateFacts facts (RequiredFacts (Analysis rule));
  '(out, trace) ← match run_script (Run prog (factsEnvironment facts)) newTrace with
                  | Ok r => Ok r
                  | Err err => Err (classifyRuntimeError err)
                  end;
  amount ← match out with
           | VInt64 amount => Ok amount
           | _ => Err (errorf ErrorAmountOutOfRange "expression returned %T instead of int64"
                         [FmtStr (typename_of out)])
           end;
  if amount <? 0
  then Err (errorf ErrorAmountOutOfRange "expression returned a negative amount" [])
  else
    trace ← (if matchedTier trace =s "" then Ok (trace <| matchedTier := "base"%string |>)
             else if negb (tierAmount trace =? amount)
             then Err (errorf ErrorTierInvalid "tier amount does not equal expression result" [])
             else Ok trace);
    lineTotal ← foldM addLineTotal 0 (lines trace);
    if negb (lineTotal =? amount) || ((amount >? 0) && (Z.of_nat (length (lines trace)) =? 0))
    then Err (errorf ErrorBreakdownInvalid "line item total %d does not equal result %d"
                [FmtInt lineTotal; FmtInt amount])
    else
      match Facts_Hash facts with
      | Err err => Err (errorf ErrorFactInvalid "canonicalize facts: %v" [FmtStr err])
      | Ok factsHash =>
          Ok (mkResult amount CurrencyUSD (matchedTier trace) (lines trace)
                (EngineVersion rule) (RuleHash rule) factsHash)
      end.
End Evaluate.

(** ** Specification *)

(** A line of a breakdown carries the terms its amount was computed from: the
    quantity at a rate per block of units, rounded half up, then scaled by the
    multiplier, rounded half up. *)
Definition line_priced (l : PricingLine) : Prop :=
  AmountMicros l =
  round_half_up (round_half_up (Quantity l) (RateMicros l) (UnitsPerBlock l))
    (MultiplierBPS l) basisPointsOne.

Definition short_name (s : string) : Prop :=
  s <> ""%string /\ TrimSpace s = s /\ validShortString s = true.

Definition line_valid (l : PricingLine) : Prop :=
  short_name (LineCode l) /\ short_name (LineUnit l) /\
  0 <= Quantity l /\ 0 < UnitsPerBlock l /\ 0 <= RateMicros l /\ 0 <= MultiplierBPS l /\
  0 <= AmountMicros l <= max_int64 /\ line_priced l.

Record trace_ok (t : evaluationTrace) : Prop := {
  codes_once : NoDup (map LineCode (lines t));
  codes_known : forall c, c ∈ traceCodes t <-> c ∈ map LineCode (lines t);
  lines_few : Z.of_nat (length (lines t)) <= maxStaticLines;
  lines_valid : Forall line_valid (lines t);
  tier_named : matchedTier t = ""%string \/ short_name (matchedTier t);
}.

(** The operands of a call are [int] or [int64] values in range: what the type
    of a Go value means. *)
Definition call_values (c : envCall) : list value :=
  match c with
  | call_token_cost a b | call_unit_cost a b | call_multiply_bps a b
  | call_token_line _ a b | call_unit_line _ a _ b | call_min a b | call_max a b => [a; b]
  | call_block_cost a b d | call_adjusted_token_line _ a b d
  | call_adjusted_unit_line _ a _ b d | call_block_line _ a _ b d => [a; b; d]
  | call_adjusted_block_line _ a _ b d e => [a; b; d; e]
  | call_fixed_line _ _ a | call_tier _ a => [a]
  end.

Fixpoint well_typed (s : script) : Prop :=
  match s with
  | Return out => value_in_range out
  | RunFails _ => True
  | Call c k => Forall value_in_range (call_values c) /\ forall z, in_int64 z -> well_typed (k z)
  end.

(** ** Lemmas *)

Lemma bps_one_range : in_int64 basisPointsOne.
Proof. by vm_compute. Qed.

Lemma range_of z : 0 <= z <= max_int64 -> in_int64 z.
Proof. unfold in_int64, min_int64. lia. Qed.

Lemma addLine_keeps line t z t' :
  addLine line t = Ok (z, t') -> trace_ok t -> AmountMicros line <= max_int64 ->
  line_priced line -> trace_ok t' /\ in_int64 z.
Proof.
  unfold addLine. intros H [Hn Hk Hf Hv Ht] Ha Hp. cbn in H. rewrite ?Z.geb_leb in H.
  repeat (case_match; [done|]). boolify. simplify_eq. split; [|by apply range_of]. split; cbn.
  - rewrite map_app, list.NoDup_app. split_and!; [done| |apply NoDup_singleton].
    intros c Hc ->%list_elem_of_singleton. naive_solver.
  - intros c. rewrite map_app, elem_of_union, elem_of_app, elem_of_singleton, Hk. cbn. rewrite list_elem_of_singleton.
    cbn. naive_solver.
  - rewrite length_app. cbn. unfold maxStaticLines in *. lia.
  - apply Forall_app. split; [done|]. constructor; [|done].
    unfold line_valid, short_name, line_priced in *. cbn.
    rewrite !TrimSpace_idemp. split_and!; (done || lia).
  - done.
Qed.

(** A line without multiplier is priced at the multiplier one. *)
Lemma line_priced_plain code q unit u r amount :
  amount = round_half_up q r u -> line_priced (mkPricingLine code q unit u r basisPointsOne amount).
Proof. intros ->. unfold line_priced. cbn. by rewrite round_half_up_bps_one. Qed.

Lemma priced_line_keeps code q unit u r t z t' amount :
  addLine (mkPricingLine code q unit u r basisPointsOne amount) t = Ok (z, t') ->
  checkedMulDivRoundHalfUp q r u = Ok amount ->
  trace_ok t -> in_int64 q -> in_int64 u -> in_int64 r -> trace_ok t' /\ in_int64 z.
Proof.
  intros Hl Ha Ht Hq Hu Hr. apply checkedMulDiv_Ok in Ha as (Ha & ? & _); [|done..].
  eapply addLine_keeps; [done|done|cbn; lia|]. by apply line_priced_plain.
Qed.

Lemma adjusted_line_keeps code q unit u r b t z t' base amount :
  addLine (mkPricingLine code q unit u r b amount) t = Ok (z, t') ->
  checkedMulDivRoundHalfUp q r u = Ok base -> multiplyBPS base b = Ok amount ->
  trace_ok t -> in_int64 q -> in_int64 u -> in_int64 r -> in_int64 b ->
  trace_ok t' /\ in_int64 z.
Proof.
  intros Hl Hbase Ha Ht Hq Hu Hr Hb. apply checkedMulDiv_Ok in Hbase as (-> & Hr0 & _); [|done..].
  apply checkedMulDiv_Ok in Ha as (-> & ? & _); [|by apply range_of|done|apply bps_one_range].
  by eapply addLine_keeps; [done|done|cbn; lia|].
Qed.

(** Collect what a call's operands are, after a successful call. *)
Ltac operands :=
  repeat match goal with
  | H : Forall value_in_range (_ :: _) |- _ => apply Forall_cons_iff in H as [? H]
  | Hv : value_in_range ?v, Hz : pricingInteger ?v = Ok ?z |- _ =>
      lazymatch goal with
      | _ : in_int64 z |- _ => fail
      | _ => pose proof (pricingInteger_Ok v z Hv Hz)
      end
  end.

Ltac plain_line := eapply priced_line_keeps; [eassumption|eassumption|done..].
Ltac adjusted_line := eapply adjusted_line_keeps; [eassumption|eassumption|eassumption|done..].

Lemma untraced_Ok r t z t' : untraced r t = Ok (z, t') -> r = Ok z /\ t' = t.
Proof. unfold untraced. destruct r; cbn; naive_solver. Qed.

Lemma cost_range q r u z :
  checkedMulDivRoundHalfUp q r u = Ok z -> in_int64 q -> in_int64 r -> in_int64 u -> in_int64 z.
Proof. intros H ? ? ?. apply checkedMulDiv_Ok in H as (_ & ? & _); [|done..]. by apply range_of. Qed.

Lemma environment_keeps c t z t' :
  Forall value_in_range (call_values c) -> trace_ok t ->
  evaluationEnvironment c t = Ok (z, t') -> trace_ok t' /\ in_int64 z.
Proof.
  assert (H1 : in_int64 1) by by vm_compute.
  assert (Hm : in_int64 1000000) by by vm_compute.
  intros Hv Ht. destruct c; cbn in Hv |- *;
    try (intros [Hz ->]%untraced_Ok; split; [exact Ht|];
         unfold numeric2, numeric3, env_min, env_max in Hz; run_inv; operands;
         first [eapply cost_range; [eassumption|done..]|by cases]).
  - unfold env_token_line. intros H. run_inv. operands. plain_line.
  - unfold env_adjusted_token_line. intros H. run_inv. operands. adjusted_line.
  - unfold env_unit_line. intros H. run_inv. operands. plain_line.
  - unfold env_adjusted_unit_line. intros H. run_inv. operands. adjusted_line.
  - unfold env_block_line. intros H. run_inv. operands. plain_line.
  - unfold env_adjusted_block_line. intros H. run_inv. operands. adjusted_line.
  - unfold env_fixed_line. intros H. run_inv. operands.
    eapply addLine_keeps; [done|done|unfold in_int64 in *; cbn; lia|].
    apply line_priced_plain. unfold round_half_up. apply (Z.div_unique_pos _ _ _ 1); lia.
  - unfold env_tier. intros H. run_inv. repeat (case_match; [done|]). simplify_eq. boolify.
    destruct Ht as [Hn Hk Hf Hl Ht]. split; [|operands; done]. split; cbn; try done. right.
    unfold short_name. rewrite TrimSpace_idemp. done.
Qed.

Lemma run_script_keeps wrap s t out t' :
  well_typed s -> trace_ok t -> run_script wrap s t = Ok (out, t') ->
  trace_ok t' /\ value_in_range out.
Proof.
  revert t. induction s as [v|e|c k IH]; intros t Hw Ht H; cbn in *.
  - by simplify_eq.
  - done.
  - destruct Hw as [Hc Hk]. destruct (evaluationEnvironment c t) as [[z t1]|] eqn:E; [|done].
    apply environment_keeps in E as [Ht1 Hz]; [|done..]. by eapply IH; [apply Hk|..].
Qed.

Lemma newTrace_ok : trace_ok newTrace.
Proof. split; cbn; [constructor|set_solver|unfold maxStaticLines; lia|constructor|by left]. Qed.

Lemma addLineTotal_sum ls n total :
  0 <= n <= max_int64 -> Forall line_valid ls -> foldM addLineTotal n ls = Ok total ->
  total = n + sum_Z AmountMicros ls /\ 0 <= total <= max_int64.
Proof.
  revert n. induction ls as [|l ls IH]; intros n Hn Hv H; cbn in *.
  { simplify_eq. lia. }
  apply Forall_cons_iff in Hv as [Hl Hv]. destruct Hl as (_ & _ & _ & _ & _ & _ & Ha & _).
  unfold addLineTotal in H at 1. destruct (checkedAdd n (AmountMicros l)) as [m|] eqn:E; [|done].
  apply checkedAdd_Ok in E as (-> & ? & ? & ?); [|by apply range_of..].
  apply IH in H; [lia|lia|done].
Qed.

Section EvaluateLemmas.
Context {VMProgram : Type} (Run : VMProgram -> gmap string value -> script).
Context (wrapCallError : Error -> run_error) (render : message -> string).
Context (Marshal : Facts -> result string string).

Lemma Evaluate_Ok rule facts r :
  Evaluate Run wrapCallError render Marshal rule facts = Ok r ->
  exists prog trace,
    compiledProgram rule = Ok prog /\
    validateFacts facts (RequiredFacts (Analysis rule)) = Ok tt /\
    run_script wrapCallError (Run prog (factsEnvironment facts)) newTrace =
      Ok (VInt64 (ResultAmountMicros r), trace) /\
    0 <= ResultAmountMicros r /\ Lines r = lines trace /\
    MatchedTier r = (if matchedTier trace =s "" then "base"%string else matchedTier trace) /\
    (matchedTier trace <> ""%string -> tierAmount trace = ResultAmountMicros r) /\
    foldM addLineTotal 0 (lines trace) = Ok (ResultAmountMicros r) /\
    Facts_Hash Marshal facts = Ok (FactsHash r) /\
    ResultExpressionHash r = RuleHash rule /\ ResultEngineVersion r = EngineVersion rule /\
    Currency r = CurrencyUSD.
Proof.
  unfold Evaluate. intros (prog & Hp & H)%bind_Ok.
  apply bind_Ok in H as ([] & Hf & H). apply bind_Ok in H as ([out trace] & Hr & H).
  destruct (run_script _ _ _) as [[out' trace']|] eqn:E; [|done]. simplify_eq.
  apply bind_Ok in H as (amount & Ha & H). destruct out; simplify_eq.
  destruct (Z.ltb_spec amount 0); [done|].
  apply bind_Ok in H as (trace1 & Ht & H). apply bind_Ok in H as (total & Hs & H).
  destruct (_ || _) eqn:E1 in H; [done|]. boolify. subst total.
  destruct (Facts_Hash Marshal facts) as [h|]; [|done]. simplify_eq. cbn.
  exists prog, trace.
  destruct (String.eqb_spec (matchedTier trace) "").
  - simplify_eq. cbn in *. split_and!; done.
  - destruct (Z.eqb_spec (tierAmount trace) amount); cbn in Ht; simplify_eq.
    split_and!; done.
Qed.
End EvaluateLemmas.

(** ** Theorems *)

(** C9. Every successful evaluation is a balanced bill: a non-negative [int64]
    amount that is the exact sum of at most 32 lines with distinct codes, each
    line's amount being what its own quantity, rate, block and multiplier
    price; the tier of the rule, when it selects one, has a short name. *)
Theorem Evaluate_balanced {VMProgram} (Run : VMProgram -> gmap string value -> script)
    wrapCallError render Marshal rule facts r
    (Htyped : forall prog env, well_typed (Run prog env)) :
  Evaluate Run wrapCallError render Marshal rule facts = Ok r ->
  0 <= ResultAmountMicros r <= max_int64 /\
  sum_Z AmountMicros (Lines r) = ResultAmountMicros r /\
  NoDup (map LineCode (Lines r)) /\ Z.of_nat (length (Lines r)) <= maxStaticLines /\
  Forall line_valid (Lines r) /\ short_name (MatchedTier r).
Proof.
  intros H. apply Evaluate_Ok in H as (prog & t & _ & _ & Hr & Ha & Hl & Hm & _ & Hs & _).
  apply run_script_keeps in Hr as [Ht Hout]; [|apply Htyped|apply newTrace_ok].
  destruct Ht as [Hn Hk Hf Hv Hnamed].
  apply addLineTotal_sum in Hs as [Hs Hs']; [|unfold max_int64; lia|done].
  rewrite Hl, Hm. split_and!; try done; try lia.
  destruct (String.eqb_spec (matchedTier t) ""); [done|]. by destruct Hnamed.
Qed.

(** A fact a rule needs and the caller did not make available stops the
    evaluation with the code for a missing fact, before the machine runs. *)
Theorem Evaluate_missing_fact {VMProgram} (Run : VMProgram -> gmap string value -> script)
    wrapCallError render Marshal rule facts prog name :
  compiledProgram rule = Ok prog -> validateFacts facts [] = Ok tt ->
  AvailableFacts facts <> ∅ -> name ∈ RequiredFacts (Analysis rule) ->
  available facts name = false ->
  exists missing, missing ∈ RequiredFacts (Analysis rule) /\ available facts missing = false /\
    Evaluate Run wrapCallError render Marshal rule facts =
    Err (errorf ErrorFactMissing "required fact %q is unavailable" [FmtStr missing]).
Proof.
  intros Hp Hv Hne Hin Hna. unfold Evaluate. rewrite Hp. cbn.
  unfold validateFacts in *. do 4 (case_match; [done|]). clear Hv.
  assert (Hsize : (size (AvailableFacts facts) <> 0)%nat)
    by (intros E%map_size_empty_iff; done).
  decide_tests.
  destruct (List.find _ _) as [m|] eqn:Hf.
  - apply List.find_some in Hf as [Hm1 Hm2]. boolify. exists m.
    rewrite list_elem_of_In. done.
  - exfalso. apply list_elem_of_In in Hin. apply (List.find_none _ _ Hf) in Hin.
    by rewrite Hna in Hin.
Qed.

(** The phase and the observation time do not enter the price nor the hash of
    the facts: an estimate, its settlement and a replay of the same usage agree. *)
Theorem Evaluate_phase_independent {VMProgram} (Run : VMProgram -> gmap string value -> script)
    wrapCallError render Marshal rule facts phase1 phase2 at1 at2 :
  phase1 ∈ [""; PhaseEstimate; PhaseSettlement; PhaseReplay]%string ->
  phase2 ∈ [""; PhaseEstimate; PhaseSettlement; PhaseReplay]%string ->
  Evaluate Run wrapCallError render Marshal rule
    (facts <| Phase := phase1 |> <| ObservedAt := at1 |>) =
  Evaluate Run wrapCallError render Marshal rule
    (facts <| Phase := phase2 |> <| ObservedAt := at2 |>).
Proof.
  intros H1 H2. unfold Evaluate.
  assert (Hv : forall p t, p ∈ [""; PhaseEstimate; PhaseSettlement; PhaseReplay]%string ->
    validateFacts (facts <| Phase := p |> <| ObservedAt := t |>) (RequiredFacts (Analysis rule)) =
    validateFacts (facts <| Phase := "" |> <| ObservedAt := t |>) (RequiredFacts (Analysis rule))).
  { intros p t Hp. unfold validateFacts. cbn.
    rewrite !elem_of_cons in Hp. by destruct Hp as [->|[->|[->|[->|[]%elem_of_nil]]]]. }
  rewrite (Hv phase1), (Hv phase2) by done. done.
Qed.

(** ** Witnesses *)

Module Demo.
(** One token line under the tier [standard]. *)
Definition run (_ : unit) (env : gmap string value) : script :=
  Call (call_token_line "input" (default (VInt64 0) (env !! "output_tokens"%string)) (VInt64 3000000))
    (fun z => Call (call_tier "standard" (VInt64 z)) (fun z => Return (VInt64 z))).
Definition run_typed (_ : unit) (_ : gmap string value) : script :=
  Call (call_token_line "input" (VInt64 1500) (VInt64 3000000))
    (fun z => Call (call_tier "standard" (VInt64 z)) (fun z => Return (VInt64 z))).
Definition rule : CompiledRule unit :=
  mkCompiledRule unit "v1:x" (ExpressionHash "v1:x") EngineVersionV1
    (mkRuleAnalysis EngineVersionV1 ["output_tokens"] [] [] true) "x" (Some tt).
Definition wrap (e : Error) : run_error := PricingError e.
Definition marshal (f : Facts) : result string string := Ok "{}"%string.
Definition show (_ : message) : string := "".
Definition result : Result :=
  mkResult 4500 "USD" "standard"
    [mkPricingLine "input" 1500 "token" 1000000 3000000 10000 4500]
    1 (ExpressionHash "v1:x") (sha256_hex "{}").
Definition facts : Facts := noFacts <| AvailableFacts := {["stream"%string := true]} |>.
End Demo.

Lemma Evaluate_balanced_witness :
  Evaluate Demo.run_typed Demo.wrap Demo.show Demo.marshal Demo.rule noFacts = Ok Demo.result /\
  sum_Z AmountMicros (Lines Demo.result) = 4500.
Proof.
  assert (H : Evaluate Demo.run_typed Demo.wrap Demo.show Demo.marshal Demo.rule noFacts
              = Ok Demo.result) by (vm_compute; reflexivity).
  split; [exact H|].
  apply (Evaluate_balanced Demo.run_typed Demo.wrap Demo.show Demo.marshal Demo.rule noFacts);
    [|exact H].
  intros prog env. cbn. split.
  - constructor; [vm_compute; split; discriminate|].
    constructor; [vm_compute; split; discriminate|constructor].
  - intros z Hz. split; [constructor; [exact Hz|constructor]|]. intros z' Hz'. exact Hz'.
Defined.

Lemma Evaluate_missing_fact_witness :
  exists missing, missing ∈ RequiredFacts (Analysis Demo.rule) /\
    available Demo.facts missing = false /\
    Evaluate Demo.run Demo.wrap Demo.show Demo.marshal Demo.rule Demo.facts =
    Err (errorf ErrorFactMissing "required fact %q is unavailable" [FmtStr missing]).
Proof.
  apply (Evaluate_missing_fact _ _ _ _ _ _ tt "output_tokens").
  - vm_compute. reflexivity.
  - vm_compute. reflexivity.
  - apply insert_non_empty.
  - left.
  - vm_compute. reflexivity.
Defined.

Lemma Evaluate_phase_independent_witness :
  Evaluate Demo.run Demo.wrap Demo.show Demo.marshal Demo.rule
    (noFacts <| Phase := PhaseEstimate |> <| ObservedAt := 1 |>) =
  Evaluate Demo.run Demo.wrap Demo.show Demo.marshal Demo.rule
    (noFacts <| Phase := PhaseReplay |> <| ObservedAt := 2 |>).
Proof. apply Evaluate_phase_independent; set_solver. Defined.
