(* ===== verification/PricingEngine.v ===== *)
(** * Pricing: the compile cache

    [Engine], [NewEngine], [Compile] and [CompileByHash] of
    [backend/internal/pricing/compile.go]: an LRU cache of compiled rules in
    front of a single-flight compiler.  Each critical section of the engine's
    mutex is one step; any number of callers run between the sections. *)

From S2P Require Import Prelude Sha256 PricingMoney PricingRule.

(** ** State *)

Definition defaultCacheSize : Z := 512.

Section Engine.
Context {VMProgram : Type}.
Context (Parse : string -> result string Node).
Context (CompileExpr : string -> result string VMProgram).
Context {unicode : UnicodeCase}.

Record cacheEntry := mkCacheEntry { key : string; rule : CompiledRule VMProgram }.

(** A [compileCall] is a heap cell: [None] until its [done] channel is closed,
    then the rule or the error. *)
Definition compileCall : Type := option (result Error (CompiledRule VMProgram)).

(** [entries] holds pointers to elements of the list [lru]: an element is its
    identity and its value.  [inflight] holds pointers to calls. *)
Record Engine := mkEngine {
  capacity : Z;
  entries : gmap string nat;
  lru : list (nat * cacheEntry);
  inflight : gmap string nat;
}.
#[export] Instance Engine_settable : Settable Engine := fun e =>
  mkEngine (capacity e) (entries e) (lru e) (inflight e).

Definition NewEngine (capacities : list Z) : Engine :=
  let size := match capacities with c :: _ => if c >? 0 then c else defaultCacheSize
                                  | [] => defaultCacheSize end in
  mkEngine size ∅ [] ∅.

(** ** The list of [container/list] *)

Definition element_at (id : nat) (l : list (nat * cacheEntry)) : option cacheEntry :=
  snd <$> List.find (fun x => Nat.eqb x.1 id) l.

Definition MoveToFront (id : nat) (l : list (nat * cacheEntry)) : list (nat * cacheEntry) :=
  match List.find (fun x => Nat.eqb x.1 id) l with
  | Some x => x :: List.filter (fun y => negb (Nat.eqb y.1 id)) l
  | None => l
  end.

(** The eviction loop; the length of the list bounds its rounds. *)
Fixpoint evict (fuel : nat) (e : Engine) : Engine :=
  match fuel with
  | O => e
  | S fuel' =>
      if Z.of_nat (length (lru e)) >? capacity e then
        match list.last (lru e) with
        | Some (_, entry) =>
            evict fuel' (e <| entries := delete (key entry) (entries e) |>
                           <| lru := removelast (lru e) |>)
        | None => e
        end
      else e
  end.

(** ** CompileByHash *)

(** The engine with the heap it points into and the goroutines inside
    [CompileByHash]: those that compile (between the two critical sections) and
    those that wait on a call.  [next] numbers elements and calls. *)
Record world := mkWorld {
  engine : Engine;
  calls : gmap nat compileCall;
  compiling : list (string * string * nat);   (* source, key, call *)
  waiting : list (string * nat);              (* source, call *)
  next : nat;
}.
#[export] Instance world_settable : Settable world := fun w =>
  mkWorld (engine w) (calls w) (compiling w) (waiting w) (next w).

Definition start (capacities : list Z) : world := mkWorld (NewEngine capacities) ∅ [] [] 0.

Definition hash_mismatch : Error :=
  errorf ErrorHashMismatch "expression hash does not match source" [].

Definition cache_key (hash : string) : string := (Itoa EngineVersionV1 +:+ ":" +:+ hash)%string.

(** What a caller has after the first critical section: its result, or a place
    among the waiting or compiling goroutines. *)
Definition compile_begin (source expectedHash : string) (w : world)
    : option (result Error (CompiledRule VMProgram)) * world :=
  let actualHash := ExpressionHash source in
  if actualHash <>s ToLower (TrimSpace expectedHash) then (Some (Err hash_mismatch), w)
  else
    let key := cache_key actualHash in
    let e := engine w in
    match entries e !! key with
    | Some id =>
        match element_at id (lru e) with
        | Some entry => (Some (Ok (rule entry)), w <| engine := e <| lru := MoveToFront id (lru e) |> |>)
        | None => (None, w)
        end
    | None =>
        match inflight e !! key with
        | Some call => (None, w <| waiting := (source, call) :: waiting w |>)
        | None =>
            let call := next w in
            (None, w <| engine := e <| inflight := <[key := call]> (inflight e) |> |>
                     <| calls := <[call := None]> (calls w) |>
                     <| compiling := (source, key, call) :: compiling w |>
                     <| next := S call |>)
        end
    end.

(** The second critical section, for a goroutine that has compiled. *)
Definition compile_finish (source key : string) (call : nat) (w : world)
    : result Error (CompiledRule VMProgram) * world :=
  let r := compileV1 Parse CompileExpr source (ExpressionHash source) in
  let e := engine w in
  let w := w <| calls := <[call := Some r]> (calls w) |> in
  let e := e <| inflight := delete key (inflight e) |> in
  match r with
  | Err _ => (r, w <| engine := e |>)
  | Ok compiled =>
      let id := next w in
      let e := e <| lru := (id, mkCacheEntry key compiled) :: lru e |>
                 <| entries := <[key := id]> (entries e) |> in
      (r, w <| engine := evict (length (lru e)) e |> <| next := S id |>)
  end.

(** [Compile] asks for the source's own hash. *)
Definition Compile_begin (source : string) (w : world) :=
  compile_begin source (ExpressionHash source) w.

(** Steps; the label is what a caller receives, if one returns. *)
Inductive step : world -> option (string * result Error (CompiledRule VMProgram)) -> world -> Prop :=
| step_begin source expectedHash w r w' :
    compile_begin source expectedHash w = (r, w') ->
    step w ((fun r => (source, r)) <$> r) w'
| step_finish source key call w r w' before after :
    compiling w = before ++ (source, key, call) :: after ->
    compile_finish source key call (w <| compiling := before ++ after |>) = (r, w') ->
    step w (Some (source, r)) w'
| step_wake source call r w before after :
    waiting w = before ++ (source, call) :: after -> calls w !! call = Some (Some r) ->
    step w (Some (source, r)) (w <| waiting := before ++ after |>).

Inductive reachable (capacities : list Z) : world -> Prop :=
| reach_start : reachable capacities (start capacities)
| reach_step w o w' : reachable capacities w -> step w o w' -> reachable capacities w'.

(** ** Specification *)

(** The answer of the compiler for a source with the key's hash. *)
Definition answers (k : string) (r : result Error (CompiledRule VMProgram)) : Prop :=
  exists source, cache_key (ExpressionHash source) = k /\
    r = compileV1 Parse CompileExpr source (ExpressionHash source).

(** The index and the list hold the same elements, each under one key. *)
Record coherent (e : Engine) : Prop := {
  ids_once : NoDup (map fst (lru e));
  entries_lru k id : entries e !! k = Some id <-> exists c, (id, mkCacheEntry k c) ∈ lru e;
}.

Record world_ok (w : world) : Prop := {
  cap_positive : 0 < capacity (engine w);
  cap_held : Z.of_nat (length (lru (engine w))) <= capacity (engine w);
  cache_coherent : coherent (engine w);
  lru_answers id k c : (id, mkCacheEntry k c) ∈ lru (engine w) -> answers k (Ok c);
  inflight_compiling k call : inflight (engine w) !! k = Some call <->
    exists source, (source, k, call) ∈ compiling w;
  compiling_once : NoDup (map (fun x => x.1.2) (compiling w));
  compiling_keys source k call : (source, k, call) ∈ compiling w ->
    k = cache_key (ExpressionHash source) /\ entries (engine w) !! k = None /\
    calls w !! call = Some None;
  calls_once s1 k1 s2 k2 call : (s1, k1, call) ∈ compiling w -> (s2, k2, call) ∈ compiling w -> k1 = k2;
  calls_answer source call : (source, call) ∈ waiting w ->
    (calls w !! call = Some None /\ exists s, (s, cache_key (ExpressionHash source), call) ∈ compiling w)
    \/ exists r, calls w !! call = Some (Some r) /\ answers (cache_key (ExpressionHash source)) r;
  ids_fresh id e : (id, e) ∈ lru (engine w) -> (id < next w)%nat;
  calls_fresh call r : calls w !! call = Some r -> (call < next w)%nat;
}.

(** ** Lemmas *)

Lemma element_at_Some id l entry :
  element_at id l = Some entry -> (id, entry) ∈ l.
Proof.
  unfold element_at. destruct (List.find _ _) as [[i c]|] eqn:E; [|done].
  apply List.find_some in E as [Hin Hi%Nat.eqb_eq]. cbn in *. intros [= <-]. subst.
  by apply list_elem_of_In.
Qed.

Lemma elem_filter_not id (x : nat * cacheEntry) l :
  x ∈ List.filter (fun y => negb (Nat.eqb y.1 id)) l <-> x ∈ l /\ x.1 <> id.
Proof.
  rewrite !list_elem_of_In, List.filter_In, negb_true_iff, Nat.eqb_neq. done.
Qed.

(** Moving an element to the front permutes the list. *)
Lemma MoveToFront_perm id l : NoDup (map fst l) -> MoveToFront id l ≡ₚ l.
Proof.
  unfold MoveToFront. destruct (List.find _ l) as [[i c]|] eqn:E; [|done]. intros Hn.
  induction l as [|[j d] l IH]; cbn in *; [done|]. apply NoDup_cons in Hn as [Hj Hn].
  destruct (Nat.eqb_spec j id) as [->|Hne]; cbn.
  - injection E as -> ->. f_equiv.
    assert (Hall : Forall (fun y : nat * cacheEntry => y.1 <> i) l).
    { apply list.Forall_forall. intros y Hy E. apply Hj. rewrite <- E. by apply list_elem_of_fmap_2. }
    clear -Hall. induction Hall as [|y l Hy _ IH]; cbn; [done|].

    rewrite (proj2 (Nat.eqb_neq _ _) Hy). cbn. by rewrite IH.
  - rewrite Permutation_swap. f_equiv. by apply IH.
Qed.

Lemma ids_unique (l : list (nat * cacheEntry)) id e1 e2 :
  NoDup (map fst l) -> (id, e1) ∈ l -> (id, e2) ∈ l -> e1 = e2.
Proof.
  induction l as [|[j d] l IH]; cbn; [intros _ []%elem_of_nil|].
  intros [Hj Hn]%NoDup_cons. rewrite !elem_of_cons. intros [E1|H1] [E2|H2]; simplify_eq; auto.
  - exfalso. apply Hj. by apply (list_elem_of_fmap_2 fst _ (j, e2)).
  - exfalso. apply Hj. by apply (list_elem_of_fmap_2 fst _ (j, e1)).
Qed.

(** Dropping the last element and its key keeps the cache coherent. *)
Lemma drop_last_coherent e l id entry :
  coherent e -> lru e = l ++ [(id, entry)] ->
  coherent (e <| entries := delete (key entry) (entries e) |> <| lru := l |>).
Proof.
  intros [Hn Hk] Hl. rewrite Hl, map_app in Hn. apply list.NoDup_app in Hn as (Hn & Hd & _).
  split; cbn; [done|]. intros k i. destruct entry as [k0 c0]. cbn.
  assert (Hid : forall c, (id, c) ∉ l).
  { intros c Hc. apply (Hd id); [|by left]. by apply (list_elem_of_fmap_2 fst _ (id, c)). }
  destruct (decide (k = k0)) as [->|Hne].
  - rewrite lookup_delete_eq. split; [done|]. intros [c Hc]. exfalso.
    assert (E1 : entries e !! k0 = Some i) by (apply Hk; rewrite Hl; set_solver).
    assert (E2 : entries e !! k0 = Some id) by (apply Hk; rewrite Hl; set_solver).
    simplify_eq. by eapply Hid.
  - rewrite lookup_delete_ne by done. rewrite Hk, Hl. split; intros [c Hc]; exists c.
    + apply elem_of_app in Hc as [Hc|Hc%list_elem_of_singleton]; [done|]. by simplify_eq.
    + apply elem_of_app. by left.
Qed.

Lemma evict_spec fuel e :
  coherent e -> 0 < capacity e -> (length (lru e) <= fuel)%nat ->
  coherent (evict fuel e) /\ Z.of_nat (length (lru (evict fuel e))) <= capacity e /\
  capacity (evict fuel e) = capacity e /\ inflight (evict fuel e) = inflight e /\
  lru (evict fuel e) ⊆ lru e.
Proof.
  revert e. induction fuel as [|fuel IH]; intros e Hc Hp Hf; cbn.
  { split_and!; (done || lia). }
  rewrite Z.gtb_ltb. destruct (Z.ltb_spec (capacity e) (Z.of_nat (length (lru e)))); [|done].
  destruct (list.last (lru e)) as [[id entry]|] eqn:El.
  - apply last_Some in El as [l El]. rewrite El, removelast_last.
    pose proof (drop_last_coherent e l id entry Hc El) as Hc'.
    apply IH in Hc' as (H1 & H2 & H3 & H4 & H5); cbn in *.
    + split_and!; try done. set_solver.
    + done.
    + rewrite El, length_app in Hf. cbn in Hf. lia.
  - apply last_None in El. rewrite El in *. cbn in *. split_and!; (done || lia).
Qed.

Lemma coherent_equiv e l :
  coherent e -> l ≡ₚ lru e -> coherent (e <| lru := l |>).
Proof.
  intros [Hn Hk] Hl. split; cbn; [by rewrite Hl|]. intros k id. rewrite Hk. by setoid_rewrite Hl.
Qed.

Lemma NewEngine_ok capacities : world_ok (start capacities).
Proof.
  split; cbn; try set_solver; try done.
  - unfold defaultCacheSize. destruct capacities as [|c l]; [lia|]. rewrite Z.gtb_ltb.
    destruct (Z.ltb_spec 0 c); lia.
  - unfold defaultCacheSize. destruct capacities as [|c l]; [lia|]. rewrite Z.gtb_ltb.
    destruct (Z.ltb_spec 0 c); lia.
  - split; cbn; [constructor|]. intros k id. rewrite lookup_empty. set_solver.
  - constructor.
Qed.

Lemma begin_ok source expectedHash w r w' :
  world_ok w -> compile_begin source expectedHash w = (r, w') ->
  world_ok w' /\ forall a, r = Some a -> a = Err hash_mismatch \/ answers (cache_key (ExpressionHash source)) a.
Proof.
  intros Hok H. unfold compile_begin in H.
  destruct (negb _) in H; [by simplify_eq; split; [|naive_solver]|].
  set (k := cache_key (ExpressionHash source)) in *.
  destruct (entries (engine w) !! k) as [id|] eqn:Ek.
  - destruct (element_at id _) as [entry|] eqn:Ee; simplify_eq; [|naive_solver].
    apply element_at_Some in Ee. destruct Hok.
    destruct cache_coherent0 as [Hids Hent].
    assert (Hperm := MoveToFront_perm id _ Hids).
    split.
    + split; cbn; try done.
      * by rewrite Hperm.
      * by apply coherent_equiv.
      * intros i k' c. rewrite Hperm. eauto.
      * intros i e. rewrite Hperm. eauto.
    + intros a [= <-]. right. destruct entry as [k' c]. cbn.
      apply Hent in Ek as [c' Hc']. pose proof (ids_unique _ _ _ _ Hids Hc' Ee). simplify_eq.
      eauto.
  - destruct (inflight (engine w) !! k) as [call|] eqn:Ei; simplify_eq.
    + split; [|naive_solver]. destruct Hok. split; cbn; try done.
      intros s c [E|Hin]%elem_of_cons; [|by eauto]. simplify_eq. left.
      apply inflight_compiling0 in Ei as [s Hs]. split; [|eauto].
      by apply compiling_keys0 in Hs as (_ & _ & ?).
    + split; [|naive_solver]. destruct Hok.
      assert (Hfresh : forall s k' call, (s, k', call) ∈ compiling w -> call <> next w).
      { intros s k' call Hin ->. apply compiling_keys0 in Hin as (_ & _ & Hc).
        apply calls_fresh0 in Hc. lia. }
      assert (Hk : forall s call, (s, k, call) ∉ compiling w).
      { intros s call Hin. assert (Hx : exists s, (s, k, call) ∈ compiling w) by eauto.
        apply inflight_compiling0 in Hx. congruence. }
      split; cbn; try done.
      * destruct cache_coherent0. by split.
      * intros k' call. destruct (decide (k = k')) as [<-|Hne].
        -- rewrite lookup_insert_eq. setoid_rewrite elem_of_cons. split.
           ++ intros [= <-]. eauto.
           ++ intros [s [E|Hin]]; [by simplify_eq|]. by apply Hk in Hin.
        -- rewrite lookup_insert_ne, inflight_compiling0 by done. setoid_rewrite elem_of_cons.
           split; intros [s Hs]; exists s; [by right|]. by destruct Hs; simplify_eq.
      * constructor; [|done]. rewrite list_elem_of_fmap. intros ([[s k'] call] & E & Hin).
        cbn in E. simplify_eq. by apply Hk in Hin.
      * intros s k' call [E|Hin]%elem_of_cons.
        { simplify_eq. rewrite lookup_insert_eq. done. }
        rewrite lookup_insert_ne by (apply not_eq_sym; by eapply Hfresh). by eauto.
      * intros s1 k1 s2 k2 call [E1|H1]%elem_of_cons [E2|H2]%elem_of_cons; simplify_eq; eauto.
        -- by apply Hfresh in H2.
        -- by apply Hfresh in H1.
      * intros s call Hin. destruct (calls_answer0 s call Hin) as [[Hc [s' Hs]]|(r & Hr & Ha)].
        -- left. rewrite lookup_insert_ne by (apply not_eq_sym; by eapply Hfresh).
           split; [done|]. exists s'. by right.
        -- right. exists r. rewrite lookup_insert_ne; [done|]. apply calls_fresh0 in Hr. lia.
      * intros id e Hin. apply ids_fresh0 in Hin. lia.
      * intros call r Hc. destruct (decide (next w = call)) as [<-|Hne]; [lia|].
        rewrite lookup_insert_ne in Hc by done. apply calls_fresh0 in Hc. lia.
Qed.

Lemma push_coherent e id k c :
  coherent e -> entries e !! k = None -> (forall x, (id, x) ∉ lru e) ->
  coherent (e <| lru := (id, mkCacheEntry k c) :: lru e |> <| entries := <[k := id]> (entries e) |>).
Proof.
  intros [Hn Hk] Hnone Hid. split; cbn.
  - constructor; [|done]. rewrite list_elem_of_fmap. intros ([i x] & E & Hin). cbn in E.
    subst. by eapply Hid.
  - intros k' i. setoid_rewrite elem_of_cons. destruct (decide (k = k')) as [<-|Hne].
    + rewrite lookup_insert_eq. split; [intros [= <-]; eauto|].
      intros [c' [E|Hin]]; [by simplify_eq|].
      assert (Hx : entries e !! k = Some i) by (apply Hk; eauto). congruence.
    + rewrite lookup_insert_ne, Hk by done.
      split; intros [c' Hc]; exists c'; [by right|]. by destruct Hc; simplify_eq.
Qed.

(** A goroutine that finishes leaves the others' keys alone. *)
Lemma compiling_others w before after source k call :
  world_ok w -> compiling w = before ++ (source, k, call) :: after ->
  (forall s' c', (s', k, c') ∉ before ++ after) /\
  (forall s' k' c', (s', k', c') ∈ before ++ after -> (s', k', c') ∈ compiling w /\ k' <> k /\ c' <> call).
Proof.
  intros Hok Hc. destruct Hok.
  assert (Hin : (source, k, call) ∈ compiling w) by (rewrite Hc; set_solver).
  assert (Hn : forall s' c', (s', k, c') ∉ before ++ after).
  { intros s' c' Hin'. rewrite Hc in compiling_once0.
    assert (Hp : before ++ (source, k, call) :: after ≡ₚ (source, k, call) :: before ++ after)
      by (symmetry; apply Permutation_middle).
    rewrite Hp in compiling_once0. cbn in compiling_once0.
    apply NoDup_cons in compiling_once0 as [Hx _]. apply Hx.
    by apply (list_elem_of_fmap_2 (fun x => x.1.2) _ (s', k, c')). }
  split; [done|]. intros s' k' c' Hin'.
  assert (Hin2 : (s', k', c') ∈ compiling w) by (rewrite Hc; set_solver).
  assert (k' <> k) by (intros ->; by eapply Hn).
  split_and!; [done|done|]. intros ->. by eapply calls_once0 in Hin; [|exact Hin2].
Qed.

Lemma finish_ok source k call w r w' before after :
  world_ok w -> compiling w = before ++ (source, k, call) :: after ->
  compile_finish source k call (w <| compiling := before ++ after |>) = (r, w') ->
  world_ok w' /\ answers (cache_key (ExpressionHash source)) r.
Proof.
  intros Hok Hcomp H. unfold compile_finish in H.
  destruct (compiling_others _ _ _ _ _ _ Hok Hcomp) as [Hkey Hothers].
  assert (Hin : (source, k, call) ∈ compiling w) by (rewrite Hcomp; set_solver).
  assert (Hinv : forall x, x ∈ compiling w -> x = (source, k, call) \/ x ∈ before ++ after)
    by (rewrite Hcomp; set_solver).
  destruct Hok. destruct (compiling_keys0 _ _ _ Hin) as (Hk & Hentry & Hcall).
  set (res := compileV1 Parse CompileExpr source (ExpressionHash source)) in *.
  assert (Hans : answers k res) by (subst k; by exists source).
  assert (Hcalls : forall s c, (s, c) ∈ waiting w ->
    (<[call:=Some res]> (calls w) !! c = Some None /\
       exists s', (s', cache_key (ExpressionHash s), c) ∈ before ++ after) \/
    exists r, <[call:=Some res]> (calls w) !! c = Some (Some r) /\
       answers (cache_key (ExpressionHash s)) r).
  { intros s c Hw. destruct (calls_answer0 s c Hw) as [[Hc [s' Hs]]|(r' & Hr & Ha)].
    - destruct (Hinv _ Hs) as [E|Hs'].
      + injection E as _ E2 ->. right. exists res. rewrite lookup_insert_eq, E2. done.
      + left. destruct (Hothers _ _ _ Hs') as (_ & _ & Hne).
        rewrite lookup_insert_ne by done. eauto.
    - right. exists r'. rewrite lookup_insert_ne; [done|]. congruence. }
  assert (Hnd : NoDup (map (fun x => x.1.2) (before ++ after))).
  { rewrite Hcomp in compiling_once0. rewrite !map_app in *. cbn in compiling_once0.
    apply list.NoDup_app in compiling_once0 as (? & Hd & [_ ?]%NoDup_cons).
    apply list.NoDup_app. split_and!; [done| |done]. intros x Hx Hx'. apply (Hd x Hx). by right. }
  assert (Hfl : forall k' c', delete k (inflight (engine w)) !! k' = Some c' <->
                exists s', (s', k', c') ∈ before ++ after).
  { intros k' c'. destruct (decide (k = k')) as [<-|Hne].
    - rewrite lookup_delete_eq. split; [done|]. intros [s' Hs']. by apply Hkey in Hs'.
    - rewrite lookup_delete_ne, inflight_compiling0 by done. split; intros [s' Hs']; exists s'.
      + destruct (Hinv _ Hs'); [by simplify_eq|done].
      + by apply Hothers in Hs' as [? _]. }
  assert (Hfresh : forall c0 r0, <[call:=Some res]> (calls w) !! c0 = Some r0 -> (c0 < next w)%nat).
  { intros c0 r0 Hc. destruct (decide (call = c0)) as [<-|Hne]; [by eauto|].
    rewrite lookup_insert_ne in Hc by done. by eauto. }
  destruct res as [compiled|e]; simplify_eq.
  - split; [|done].
    set (e1 := (engine w) <| inflight := delete (cache_key (ExpressionHash source)) (inflight (engine w)) |>
      <| lru := (next w, mkCacheEntry (cache_key (ExpressionHash source)) compiled) :: lru (engine w) |>
      <| entries := <[cache_key (ExpressionHash source) := next w]> (entries (engine w)) |>).
    assert (Hco : coherent e1).
    { set (e0 := (engine w) <| inflight := delete (cache_key (ExpressionHash source)) (inflight (engine w)) |>).
      apply (push_coherent e0); [by destruct cache_coherent0|done|].
      intros x Hx. apply ids_fresh0 in Hx. lia. }
    destruct (evict_spec (S (length (lru (engine w)))) e1) as (H1 & H2 & H3 & H4 & H5); [done|done|done|].
    set (e2 := evict (S (length (lru (engine w)))) e1) in *.
    match goal with |- context [evict ?f ?e] => change (evict f e) with e2 end.
    clearbody e2. cbn in H2, H3, H4, H5.
    split; cbn; rewrite ?H3; try done.
    + intros id k' c Hc. apply H5 in Hc as [E|Hc]%elem_of_cons; [by simplify_eq|by eauto].
    + intros k' c. rewrite H4. apply Hfl.
    + intros s' k' c' Hs'. apply Hothers in Hs' as (Hs' & Hne & Hne').
      destruct (compiling_keys0 _ _ _ Hs') as (? & He & ?). rewrite lookup_insert_ne by done.
      split_and!; [done| |done]. destruct (entries e2 !! k') as [id|] eqn:E; [|done].
      apply (entries_lru _ H1) in E as [c Hc]. apply H5 in Hc as [E|Hc]%elem_of_cons; [congruence|].
      assert (entries (engine w) !! k' = Some id) by (apply (entries_lru _ cache_coherent0); eauto).
      congruence.
    + intros s1 k1 s2 k2 c Hx1 Hx2. apply Hothers in Hx1 as [Hx1 _], Hx2 as [Hx2 _]. eauto.
    + intros id x Hx. apply H5 in Hx as [E|Hx]%elem_of_cons; [by simplify_eq; lia|].
      apply ids_fresh0 in Hx. lia.
    + intros c0 r0 Hc0. apply Hfresh in Hc0. lia.
  - split; [|done]. split; cbn; try done.
    + by destruct cache_coherent0.
    + intros s' k' c' Hs'. apply Hothers in Hs' as (Hs' & Hne & Hne').
      rewrite lookup_insert_ne by done. by apply compiling_keys0 in Hs'.
    + intros s1 k1 s2 k2 c Hx1 Hx2. apply Hothers in Hx1 as [Hx1 _], Hx2 as [Hx2 _]. eauto.
Qed.

Lemma engine_step_ok w o w' : world_ok w -> step w o w' -> world_ok w' /\
  forall source r, o = Some (source, r) ->
    r = Err hash_mismatch \/ answers (cache_key (ExpressionHash source)) r.
Proof.
  intros Hok Hs. revert Hok.
  destruct Hs as [source h w r w1 Hb|source k call w r w1 before after Hc Hf|source call r w before after Hw Hr];
    intros Hok.
  - destruct (begin_ok _ _ _ _ _ Hok Hb) as [? Ha]. split; [done|].
    intros s r' E. destruct r; cbn in E; simplify_eq. eauto.
  - destruct (finish_ok _ _ _ _ _ _ _ _ Hok Hc Hf) as [? Ha]. split; [done|].
    intros s r' E. simplify_eq. eauto.
  - destruct Hok. split.
    + split; cbn; try done. intros s c Hin. apply calls_answer0. rewrite Hw. set_solver.
    + intros s r' E. simplify_eq. right.
      destruct (calls_answer0 s call) as [[Hc _]|(r2 & Hr2 & Ha)]; [rewrite Hw; set_solver|congruence|].
      congruence.
Qed.

Lemma reachable_ok capacities w : reachable capacities w -> world_ok w.
Proof.
  induction 1 as [|w o w' _ IH Hs]; [apply NewEngine_ok|]. by apply (engine_step_ok w o).
Qed.

Lemma cache_key_inj h1 h2 : cache_key h1 = cache_key h2 -> h1 = h2.
Proof. unfold cache_key. intros E. by injection E. Qed.

(** ** Theorems *)

(** C12. However callers interleave, the cache never holds more than its
    capacity, its index and its recency list agree, and what is cached under a
    key is the compilation of a source with that hash.  The in-flight table lists
    exactly the goroutines that are compiling: no two of them compile the same
    key, each compiles a source with its key's hash, the call that its waiters
    wait on is still open, and its key is not in the cache.  In particular an
    entry of the table is gone as soon as its compilation has succeeded or
    failed. *)
Theorem cache_invariant capacities w : reachable capacities w ->
  Z.of_nat (length (lru (engine w))) <= capacity (engine w) /\ coherent (engine w) /\
  (forall id k c, (id, mkCacheEntry k c) ∈ lru (engine w) -> answers k (Ok c)) /\
  (forall k call, inflight (engine w) !! k = Some call <-> exists source, (source, k, call) ∈ compiling w) /\
  NoDup (map (fun x => x.1.2) (compiling w)) /\
  (forall source k call, (source, k, call) ∈ compiling w ->
     k = cache_key (ExpressionHash source) /\ calls w !! call = Some None /\ entries (engine w) !! k = None).
Proof.
  intros Hw. apply reachable_ok in Hw as []. split_and!; try done.
  intros source k call Hin. by destruct (compiling_keys0 _ _ _ Hin) as (? & ? & ?).
Qed.

(** Every answer a caller gets, from the cache, from its own compilation or
    from the one it waited on, is a hash mismatch or the compilation of a source
    with the same hash as its own. *)
Theorem Compile_answers capacities w source r w' :
  reachable capacities w -> step w (Some (source, r)) w' ->
  r = Err hash_mismatch \/
  exists s, ExpressionHash s = ExpressionHash source /\
    r = compileV1 Parse CompileExpr s (ExpressionHash s).
Proof.
  intros Hw Hs. apply reachable_ok in Hw. destruct (engine_step_ok _ _ _ Hw Hs) as [_ Ha].
  destruct (Ha _ _ eq_refl) as [?|(s & Hk & ->)]; [by left|right].
  apply cache_key_inj in Hk. eauto.
Qed.

(** No caller is stranded: one that waits can either return now, or the
    goroutine that compiles for it is running and wakes it by finishing. *)
Theorem waiters_served capacities w source call :
  reachable capacities w -> (source, call) ∈ waiting w ->
  (exists r w', step w (Some (source, r)) w') \/
  exists s k r1 w1 r2 w2, (s, k, call) ∈ compiling w /\
    step w (Some (s, r1)) w1 /\ step w1 (Some (source, r2)) w2.
Proof.
  intros Hw Hin. apply reachable_ok in Hw.
  destruct (calls_answer _ Hw _ _ Hin) as [[Hc [s Hs]]|(r & Hr & _)].
  - right. apply list_elem_of_split in Hs as (before & after & Hsplit).
    destruct (compile_finish s (cache_key (ExpressionHash source)) call
                (w <| compiling := before ++ after |>)) as [r1 w1] eqn:Hf.
    assert (Hw1 : waiting w1 = waiting w /\ exists r2, calls w1 !! call = Some (Some r2)).
    { unfold compile_finish in Hf. case_match; simplify_eq; cbn; rewrite lookup_insert_eq; eauto. }
    destruct Hw1 as [Hw1 [r2 Hr2]]. rewrite <- Hw1 in Hin.
    apply list_elem_of_split in Hin as (b2 & a2 & Hsplit2).
    eexists s, _, r1, w1, r2, _. split_and!.
    + rewrite Hsplit. apply elem_of_app. right. apply elem_of_cons. by left.
    + by eapply step_finish.
    + by eapply step_wake.
  - left. apply list_elem_of_split in Hin as (before & after & Hsplit).
    eexists r, _. by eapply step_wake.
Qed.
End Engine.

(** ** Witnesses *)

(** Two callers of one source with a cache of one rule: the first compiles, the
    second waits, the first finishes. *)
Module Demo.
Definition unicode : UnicodeCase := fun s => s.
Definition parse (_ : string) : result string Node := Ok (IntegerNode 1).
Definition compile (_ : string) : result string unit := Ok tt.
Definition source : string := "v1:1".
Definition w0 : world (VMProgram := unit) := start [1].
Definition w1 := (Compile_begin (unicode := unicode) source w0).2.
Definition w2 := (Compile_begin (unicode := unicode) source w1).2.
Definition w3 :=
  (compile_finish parse compile source (cache_key (ExpressionHash source)) 0
     (w2 <| compiling := [] ++ [] |>)).2.

Lemma reach2 : reachable (unicode := unicode) parse compile [1] w2.
Proof.
  eapply reach_step; [eapply reach_step; [apply reach_start|]|].
  - apply (step_begin _ _ source (ExpressionHash source) w0 None w1). vm_compute. reflexivity.
  - apply (step_begin _ _ source (ExpressionHash source) w1 None w2). vm_compute. reflexivity.
Qed.

Lemma finish2 : exists r, step (unicode := unicode) parse compile w2 (Some (source, r)) w3.
Proof.
  eexists. apply (step_finish _ _ source (cache_key (ExpressionHash source)) 0 w2 _ w3 [] []);
    vm_compute; reflexivity.
Qed.

Lemma reach3 : reachable (unicode := unicode) parse compile [1] w3.
Proof. destruct finish2 as [r Hr]. exact (reach_step _ _ _ _ _ _ reach2 Hr). Qed.
End Demo.

(** With one goroutine compiling and one waiting, and after the compilation. *)
Lemma cache_invariant_witness :
  (exists source, (source, cache_key (ExpressionHash Demo.source), 0%nat) ∈ compiling Demo.w2) /\
  length (lru (engine Demo.w3)) = 1%nat /\
  Z.of_nat (length (lru (engine Demo.w3))) <= capacity (engine Demo.w3).
Proof.
  split; [|split; [vm_compute; reflexivity|]].
  - apply (cache_invariant (unicode := Demo.unicode) _ _ _ _ Demo.reach2). vm_compute. reflexivity.
  - apply (cache_invariant (unicode := Demo.unicode) _ _ _ _ Demo.reach3).
Defined.

Lemma Compile_answers_witness : exists r,
  r = Err hash_mismatch \/
  exists s, ExpressionHash s = ExpressionHash Demo.source /\
    r = compileV1 Demo.parse Demo.compile s (ExpressionHash s).
Proof.
  destruct Demo.finish2 as [r Hr]. exists r.
  exact (Compile_answers (unicode := Demo.unicode) _ _ _ _ _ _ _ Demo.reach2 Hr).
Defined.

Lemma waiters_served_witness :
  (exists r w', step (unicode := Demo.unicode) Demo.parse Demo.compile Demo.w2 (Some (Demo.source, r)) w') \/
  exists s k r1 w1 r2 w2, (s, k, 0%nat) ∈ compiling Demo.w2 /\
    step (unicode := Demo.unicode) Demo.parse Demo.compile Demo.w2 (Some (s, r1)) w1 /\
    step (unicode := Demo.unicode) Demo.parse Demo.compile w1 (Some (Demo.source, r2)) w2.
Proof.
  apply (waiters_served (unicode := Demo.unicode) _ _ _ _ _ _ Demo.reach2). vm_compute. left.
Defined.
