(* ===== verification/ProviderCapacity.v ===== *)
(** * Provider capacity: leases and rate windows

    [backend/internal/controlplane/provider_capacity.go]: the requests, leases and
    snapshots, the contract [ProviderCapacityStore], and its in-memory
    implementation.  Every operation is one critical section of the store's
    mutex; the reading of the clock it makes first is its argument [now].  What
    [Restore] brings back, for tasks that run at the provider already, is past the
    admission test; [restored] keeps account of it. *)

From S2P Require Import Prelude.

(** ** Data *)

Definition ErrProviderCapacityConfig : go_error := ErrNew "invalid provider capacity configuration".
Definition ErrProviderCapacityConflict : go_error :=
  ErrNew "provider capacity lease conflicts with existing state".

Definition providerCapacityRateWindow : duration := minute.
Definition providerCapacityLeaseTTL : duration := 2 * minute.
Definition providerCapacityLeaseGrace : duration := 2 * minute.
Definition maxProviderCapacityLeaseDuration : duration := 7 * 24 * hour.

Record ProviderCapacityRequest := mkRequest {
  LeaseID : string;
  RequestAccountID : string;
  RequestUnits : Z;
  ConcurrencyLimit : Z;
  RPMLimit : Z;
  TPMLimit : Z;
  EstimatedTokens : Z;
  LeaseDuration : duration;
}.
#[export] Instance ProviderCapacityRequest_settable : Settable ProviderCapacityRequest := fun r =>
  mkRequest (LeaseID r) (RequestAccountID r) (RequestUnits r) (ConcurrencyLimit r) (RPMLimit r)
    (TPMLimit r) (EstimatedTokens r) (LeaseDuration r).

Record ProviderCapacityLease := mkLease {
  ID : string;
  ProviderAccountID : string;
  CapacityUnits : Z;
  ExpiresAt : time;
}.
#[export] Instance ProviderCapacityLease_settable : Settable ProviderCapacityLease := fun l =>
  mkLease (ID l) (ProviderAccountID l) (CapacityUnits l) (ExpiresAt l).
#[export] Instance ProviderCapacityLease_eq_dec : EqDecision ProviderCapacityLease.
Proof. solve_decision. Defined.

Definition noLease : ProviderCapacityLease := mkLease "" "" 0 0.

Record ProviderCapacitySnapshot := mkSnapshot {
  SnapshotUnits : Z;
  Requests : Z;
  Tokens : Z;
}.

(** What [Acquire] returns when it returns no error: the lease, the reason of a
    refusal, and whether capacity was acquired. *)
Definition acquired : Type := ProviderCapacityLease * string * bool.

(** The interface [ProviderCapacityStore]. *)
Class ProviderCapacityStore (Store : Type) := {
  Acquire : time -> ProviderCapacityRequest -> Store -> result go_error acquired * Store;
  Extend : time -> ProviderCapacityLease -> duration -> Store ->
    result go_error (ProviderCapacityLease * bool) * Store;
  Restore : time -> ProviderCapacityLease -> duration -> Store ->
    result go_error ProviderCapacityLease * Store;
  Release : ProviderCapacityLease -> Store -> result go_error unit * Store;
  Snapshot : time -> string -> Store -> result go_error ProviderCapacitySnapshot * Store;
}.

(** ** Validation *)

Definition validateProviderCapacityRequest (request : ProviderCapacityRequest) : option go_error :=
  if (TrimSpace (LeaseID request) =s "") || (TrimSpace (RequestAccountID request) =s "")
     || (RequestUnits request <=? 0) || (LeaseDuration request <=? 0)
     || (ConcurrencyLimit request <? 0) || (RPMLimit request <? 0) || (TPMLimit request <? 0)
     || (EstimatedTokens request <? 0)
  then Some ErrProviderCapacityConfig else None.

Definition validateProviderCapacityLease (lease : ProviderCapacityLease) : option go_error :=
  if (TrimSpace (ID lease) =s "") || (TrimSpace (ProviderAccountID lease) =s "")
     || (CapacityUnits lease <=? 0)
  then Some ErrProviderCapacityConfig else None.

(** ** The in-memory store *)

Record providerCapacityRateSample := mkSample {
  SampleLeaseID : string;
  At : time;
  SampleTokens : Z;
}.

Record MemoryProviderCapacityStore := mkStore {
  leases : gmap string ProviderCapacityLease;
  samples : gmap string (list providerCapacityRateSample);
}.
#[export] Instance MemoryProviderCapacityStore_settable : Settable MemoryProviderCapacityStore :=
  fun s => mkStore (leases s) (samples s).

Definition NewMemoryProviderCapacityStore : MemoryProviderCapacityStore := mkStore ∅ ∅.

Section Memory.
Context `{range : MapRange}.
Implicit Types (store : MemoryProviderCapacityStore) (lease : ProviderCapacityLease).

(** [map[string][]T]: a missing key reads as the empty slice. *)
Definition samples_of store (account : string) : list providerCapacityRateSample :=
  default [] (samples store !! account).

Definition expired (account : string) (now : time) lease : bool :=
  (ProviderAccountID lease =s account) && negb (After (ExpiresAt lease) now).

Definition pruneLocked (account : string) (now : time) store : MemoryProviderCapacityStore :=
  let store := store <| leases := filter (fun x => expired account now x.2 = false) (leases store) |> in
  let cutoff := now - providerCapacityRateWindow in
  let kept := List.filter (fun sample => After (At sample) cutoff) (samples_of store account) in
  store <| samples := <[account := kept]> (samples store) |>.

Definition snapshotLocked (account : string) store : ProviderCapacitySnapshot :=
  let units := foldl (fun acc lease =>
    if ProviderAccountID lease =s account then acc +i CapacityUnits lease else acc)
    0 (map_values (leases store)) in
  let requests := foldl (fun acc _ => acc +i 1) 0 (samples_of store account) in
  let tokens := foldl (fun acc sample => acc +i SampleTokens sample) 0 (samples_of store account) in
  mkSnapshot units requests tokens.

Definition store_lease lease store : MemoryProviderCapacityStore :=
  store <| leases := <[ID lease := lease]> (leases store) |>.

Definition memory_Acquire (now : time) (request : ProviderCapacityRequest) store
    : result go_error acquired * MemoryProviderCapacityStore :=
  match validateProviderCapacityRequest request with
  | Some err => (Err err, store)
  | None =>
      let request := request <| LeaseID := TrimSpace (LeaseID request) |>
                             <| RequestAccountID := TrimSpace (RequestAccountID request) |> in
      let account := RequestAccountID request in
      let store := pruneLocked account now store in
      match leases store !! LeaseID request with
      | Some current =>
          if (ProviderAccountID current <>s account)
             || negb (CapacityUnits current =? RequestUnits request)
          then (Err ErrProviderCapacityConflict, store)
          else
            let requestedExpiry := now + LeaseDuration request in
            if After requestedExpiry (ExpiresAt current) then
              let current := current <| ExpiresAt := requestedExpiry |> in
              (Ok (current, ""%string, true), store_lease current store)
            else (Ok (current, ""%string, true), store)
      | None =>
          let snapshot := snapshotLocked account store in
          if (ConcurrencyLimit request >? 0)
             && (SnapshotUnits snapshot +i RequestUnits request >? ConcurrencyLimit request)
          then (Ok (noLease, "concurrency_exhausted"%string, false), store)
          else if (RPMLimit request >? 0) && (Requests snapshot >=? RPMLimit request)
          then (Ok (noLease, "rpm_exhausted"%string, false), store)
          else if (TPMLimit request >? 0)
                  && (Tokens snapshot +i EstimatedTokens request >? TPMLimit request)
          then (Ok (noLease, "tpm_exhausted"%string, false), store)
          else
            let lease := mkLease (LeaseID request) account (RequestUnits request)
                           (now + LeaseDuration request) in
            let store := store_lease lease store in
            let store :=
              if (RPMLimit request >? 0) || (TPMLimit request >? 0) then
                store <| samples := <[account := samples_of store account
                    ++ [mkSample (ID lease) now (EstimatedTokens request)]]> (samples store) |>
              else store in
            (Ok (lease, ""%string, true), store)
      end
  end.

(** The lease a store holds is not the one the caller names. *)
Definition differs (current lease : ProviderCapacityLease) : bool :=
  (ProviderAccountID current <>s ProviderAccountID lease)
  || negb (CapacityUnits current =? CapacityUnits lease).

Definition memory_Extend (now : time) lease (duration : duration) store
    : result go_error (ProviderCapacityLease * bool) * MemoryProviderCapacityStore :=
  if bool_decide (validateProviderCapacityLease lease <> None) || (duration <=? 0)
  then (Err ErrProviderCapacityConfig, store)
  else
    let store := pruneLocked (ProviderAccountID lease) now store in
    match leases store !! ID lease with
    | None => (Ok (noLease, false), store)
    | Some current =>
        if differs current lease then (Ok (current, false), store)
        else
          let expiresAt := now + duration in
          if After expiresAt (ExpiresAt current) then
            let current := current <| ExpiresAt := expiresAt |> in
            (Ok (current, true), store_lease current store)
          else (Ok (current, true), store)
    end.

Definition memory_Restore (now : time) lease (duration : duration) store
    : result go_error ProviderCapacityLease * MemoryProviderCapacityStore :=
  if bool_decide (validateProviderCapacityLease lease <> None) || (duration <=? 0)
  then (Err ErrProviderCapacityConfig, store)
  else
    let store := pruneLocked (ProviderAccountID lease) now store in
    if match leases store !! ID lease with Some current => differs current lease | None => false end
    then (Err ErrProviderCapacityConflict, store)
    else
      let lease := lease <| ExpiresAt := now + duration |> in
      (Ok lease, store_lease lease store).

Definition memory_Release lease store : result go_error unit * MemoryProviderCapacityStore :=
  match validateProviderCapacityLease lease with
  | Some err => (Err err, store)
  | None =>
      match leases store !! ID lease with
      | Some current =>
          if differs current lease then (Err ErrProviderCapacityConflict, store)
          else (Ok tt, store <| leases := delete (ID lease) (leases store) |>)
      | None => (Ok tt, store)
      end
  end.

Definition memory_Snapshot (now : time) (providerAccountID : string) store
    : result go_error ProviderCapacitySnapshot * MemoryProviderCapacityStore :=
  let account := TrimSpace providerAccountID in
  if account =s "" then (Err ErrProviderCapacityConfig, store)
  else
    let store := pruneLocked account now store in
    (Ok (snapshotLocked account store), store).

#[export] Instance memory_store : ProviderCapacityStore MemoryProviderCapacityStore := {
  Acquire := memory_Acquire;
  Extend := memory_Extend;
  Restore := memory_Restore;
  Release := memory_Release;
  Snapshot := memory_Snapshot;
}.

(** ** Runs of the store *)

Inductive store_op :=
| op_acquire (now : time) (request : ProviderCapacityRequest)
| op_extend (now : time) (lease : ProviderCapacityLease) (duration : duration)
| op_restore (now : time) (lease : ProviderCapacityLease) (duration : duration)
| op_release (lease : ProviderCapacityLease)
| op_snapshot (now : time) (account : string).

Definition exec (op : store_op) store : MemoryProviderCapacityStore :=
  match op with
  | op_acquire now request => (memory_Acquire now request store).2
  | op_extend now lease duration => (memory_Extend now lease duration store).2
  | op_restore now lease duration => (memory_Restore now lease duration store).2
  | op_release lease => (memory_Release lease store).2
  | op_snapshot now account => (memory_Snapshot now account store).2
  end.

Definition exec_all (ops : list store_op) store : MemoryProviderCapacityStore :=
  foldl (fun s op => exec op s) store ops.

(** ** Specification *)

(** The units an account holds. *)
Definition units_of (account : string) lease : Z :=
  if ProviderAccountID lease =s account then CapacityUnits lease else 0.
Definition units_held (account : string) store : Z :=
  sum_map (units_of account) (leases store).

(** The same without the leases of some identifiers. *)
Definition units_besides_of (ids : list string) (account : string) lease : Z :=
  if decide (ID lease ∈ ids) then 0 else units_of account lease.
Definition units_besides (ids : list string) (account : string) store : Z :=
  sum_map (units_besides_of ids account) (leases store).

(** Capacity new to the store: the admission an [Acquire] makes, if it does,
    with its time and estimated tokens. *)
Definition admission (account : string) (op : store_op) store : list (time * Z) :=
  match op with
  | op_acquire now request =>
      if TrimSpace (RequestAccountID request) =s account then
        match leases (pruneLocked account now store) !! TrimSpace (LeaseID request),
              (memory_Acquire now request store).1 with
        | None, Ok (_, _, true) => [(now, EstimatedTokens request)]
        | _, _ => []
        end
      else []
  | _ => []
  end.

Fixpoint admissions (account : string) (ops : list store_op) store : list (time * Z) :=
  match ops with
  | [] => []
  | op :: ops' => admission account op store ++ admissions account ops' (exec op store)
  end.

(** Capacity brought back: the lease a [Restore] puts into a store that has no
    such lease, past the admission test. *)
Definition brought_back (account : string) (op : store_op) store : list ProviderCapacityLease :=
  match op with
  | op_restore now lease duration =>
      if ProviderAccountID lease =s account then
        match leases (pruneLocked account now store) !! ID lease,
              (memory_Restore now lease duration store).1 with
        | None, Ok _ => [lease]
        | _, _ => []
        end
      else []
  | _ => []
  end.

Fixpoint restored (account : string) (ops : list store_op) store : list ProviderCapacityLease :=
  match ops with
  | [] => []
  | op :: ops' => brought_back account op store ++ restored account ops' (exec op store)
  end.

(** What the admissions in the minute up to [t] add up to. *)
Definition in_window (t : time) (x : time * Z) : bool :=
  (t - providerCapacityRateWindow <? x.1) && (x.1 <=? t).
Definition window_total (weight : time * Z -> Z) (t : time) (log : list (time * Z)) : Z :=
  sum_Z weight (List.filter (in_window t) log).

(** ** Lemmas: the leases *)

#[local] Arguments pruneLocked : simpl never.
#[local] Arguments snapshotLocked : simpl never.
#[local] Arguments store_lease : simpl never.

Definition store_ok store : Prop :=
  forall k l, leases store !! k = Some l -> ID l = k /\ 0 < CapacityUnits l.

Lemma units_of_nonneg account store :
  store_ok store -> forall k l, leases store !! k = Some l -> 0 <= units_of account l.
Proof. intros Hok k l Hl. apply Hok in Hl as [_ Hl]. unfold units_of. case_match; lia. Qed.

Lemma units_held_nonneg account store : store_ok store -> 0 <= units_held account store.
Proof. intros Hok. apply sum_map_nonneg. by apply units_of_nonneg. Qed.

Lemma snapshot_units account store :
  SnapshotUnits (snapshotLocked account store) = wrap64 (units_held account store).
Proof.
  unfold snapshotLocked. cbn [SnapshotUnits]. rewrite foldl_wrap_if by (by vm_compute).
  f_equal. rewrite Z.add_0_l. apply sum_map_values.
Qed.

Lemma prune_subseteq account now store :
  leases (pruneLocked account now store) ⊆ leases store.
Proof. apply map_filter_subseteq. Qed.

Lemma prune_ok account now store : store_ok store -> store_ok (pruneLocked account now store).
Proof.
  intros Hok k l Hl. apply Hok. by eapply lookup_weaken; [|apply prune_subseteq].
Qed.

Lemma prune_units a account now store :
  store_ok store -> units_held a (pruneLocked account now store) <= units_held a store.
Proof.
  intros Hok. apply sum_map_mono; [by apply units_of_nonneg|apply prune_subseteq].
Qed.

Lemma request_valid request :
  validateProviderCapacityRequest request = None ->
  0 < RequestUnits request /\ 0 <= ConcurrencyLimit request /\ 0 <= EstimatedTokens request.
Proof. unfold validateProviderCapacityRequest. case_match; [done|]. intros _. boolify. lia. Qed.

Lemma lease_valid lease : validateProviderCapacityLease lease = None -> 0 < CapacityUnits lease.
Proof. unfold validateProviderCapacityLease. case_match; [done|]. intros _. boolify. lia. Qed.

Lemma store_lease_ok lease store :
  store_ok store -> 0 < CapacityUnits lease -> store_ok (store_lease lease store).
Proof.
  intros Hok Hu k l. unfold store_lease. cbn. destruct (decide (ID lease = k)) as [<-|Hne].
  - rewrite lookup_insert_eq. intros [= <-]. done.
  - rewrite lookup_insert_ne by done. apply Hok.
Qed.

(** Renewing a lease changes no one's units. *)
Lemma renew_units a lease current store expiry :
  store_ok store -> leases store !! ID lease = Some current -> ID current = ID lease ->
  units_held a (store_lease (current <| ExpiresAt := expiry |>) store) = units_held a store.
Proof.
  intros Hok Hl Hid. unfold units_held, store_lease. cbn. rewrite Hid.
  rewrite (sum_map_update _ _ _ _ _ Hl). unfold units_of. cbn. lia.
Qed.

(** What each operation does to the leases, on every branch. *)
Lemma exec_ok op store : store_ok store -> store_ok (exec op store).
Proof.
  intros Hok. destruct op as [now request|now lease d|now lease d|lease|now account]; cbn.
  - unfold memory_Acquire. destruct (validateProviderCapacityRequest request) eqn:Hv; [done|].
    apply request_valid in Hv as (Hu & _ & _). cbn.
    set (s1 := pruneLocked _ now store). assert (H1 : store_ok s1) by by apply prune_ok.
    destruct (leases s1 !! _) as [current|] eqn:Hl.
    + apply H1 in Hl as [_ Hc]. repeat case_match; cbn; try done; by apply store_lease_ok.
    + repeat case_match; cbn; try done; by apply (store_lease_ok _ s1).
  - unfold memory_Extend. destruct (_ || _); [done|].
    set (s1 := pruneLocked _ now store). assert (H1 : store_ok s1) by by apply prune_ok.
    destruct (leases s1 !! _) as [current|] eqn:Hl; [|done].
    apply H1 in Hl as [_ Hc]. repeat case_match; cbn; try done; by apply store_lease_ok.
  - unfold memory_Restore. destruct (_ || _) eqn:Hv; [done|]. boolify.
    apply lease_valid in H as Hc || (assert (Hc : 0 < CapacityUnits lease)
      by (apply lease_valid; destruct (validateProviderCapacityLease lease); [exfalso; auto|done])).
    set (s1 := pruneLocked _ now store). assert (H1 : store_ok s1) by by apply prune_ok.
    destruct (leases s1 !! _); [destruct (differs _ _)|]; cbn; try done; by apply store_lease_ok.
  - unfold memory_Release. repeat case_match; cbn; try done.
    intros k l Hl. cbn in Hl. apply lookup_delete_Some in Hl as [_ Hl]. by apply Hok.
  - unfold memory_Snapshot. case_match; [done|]. by apply prune_ok.
Qed.

(** The acquires of an account carry its limit, and neither they nor the [extra]
    units brought back leave the width of an integer. *)
Definition respects (account : string) (limit extra : Z) (op : store_op) : Prop :=
  match op with
  | op_acquire _ request =>
      TrimSpace (RequestAccountID request) = account ->
      ConcurrencyLimit request = limit /\ RequestUnits request + limit + extra <= max_int64
  | _ => True
  end.

Lemma sum_Z_le {A} (f g : A -> Z) l : (forall x, x ∈ l -> f x <= g x) -> sum_Z f l <= sum_Z g l.
Proof.
  induction l as [|x l IH]; cbn; intros H; [done|].
  pose proof (H x ltac:(left)). assert (sum_Z f l <= sum_Z g l); [|lia]. apply IH. intros y Hy. apply H. by right.
Qed.

Lemma sum_map_le {V} (f g : V -> Z) (m : gmap string V) :
  (forall k v, m !! k = Some v -> f v <= g v) -> sum_map f m <= sum_map g m.
Proof. intros H. apply sum_Z_le. intros [k v] Hkv%elem_of_map_to_list. by eapply H. Qed.

Lemma new_lease_units a account store lease :
  leases store !! ID lease = None -> ProviderAccountID lease = account ->
  units_held a (store_lease lease store) =
  units_held a store + (if account =s a then CapacityUnits lease else 0).
Proof.
  intros Hl <-. unfold units_held, store_lease, units_of. cbn.
  rewrite (sum_map_insert (units_of a)) by done. unfold units_of. lia.
Qed.

Lemma besides_nil account store : units_besides [] account store = units_held account store.
Proof.
  apply sum_map_ext. intros k l _. unfold units_besides_of. rewrite decide_False; [done|]. by intros ?%elem_of_nil.
Qed.

Section Besides.
Context (ids : list string) (account : string).

Lemma besides_of_range store : store_ok store -> forall k l, leases store !! k = Some l ->
  0 <= units_besides_of ids account l <= units_of account l.
Proof.
  intros Hok k l Hl. pose proof (units_of_nonneg account store Hok k l Hl).
  unfold units_besides_of. case_decide; lia.
Qed.

Lemma besides_le_held store : store_ok store -> 0 <= units_besides ids account store <= units_held account store.
Proof.
  intros Hok. split; [apply sum_map_nonneg; intros; by eapply besides_of_range|].
  apply sum_map_le. intros; by eapply besides_of_range.
Qed.

Lemma besides_mono store store' : store_ok store -> leases store' ⊆ leases store ->
  units_besides ids account store' <= units_besides ids account store.
Proof. intros Hok Hs. apply sum_map_mono; [|done]. intros; by eapply besides_of_range. Qed.

(** Storing a lease under an identifier in use, with the same account and units. *)
Lemma besides_renew lease current store :
  leases store !! ID lease = Some current -> ID current = ID lease ->
  ProviderAccountID lease = ProviderAccountID current -> CapacityUnits lease = CapacityUnits current ->
  units_besides ids account (store_lease lease store) = units_besides ids account store.
Proof.
  intros Hl H1 H2 H3. unfold units_besides, store_lease. cbn. rewrite (sum_map_update _ _ _ _ _ Hl).
  unfold units_besides_of, units_of. rewrite H1, H2, H3. lia.
Qed.

Lemma besides_new lease store : leases store !! ID lease = None ->
  units_besides ids account (store_lease lease store) =
  units_besides ids account store + units_besides_of ids account lease.
Proof. intros Hl. unfold units_besides, store_lease. cbn. rewrite sum_map_insert by done. lia. Qed.

(** An acquire: what is newly admitted fits the limit, whatever is held beside. *)
Lemma acquire_units limit extra now request store :
  store_ok store -> 0 < limit -> limit <= max_int64 -> units_held account store <= limit + extra ->
  0 <= extra -> respects account limit extra (op_acquire now request) ->
  (units_besides ids account (memory_Acquire now request store).2 <= units_besides ids account store /\
   admission account (op_acquire now request) store = []) \/
  units_held account (memory_Acquire now request store).2 <= limit.
Proof.
  intros Hok Hpos Hlim Hheld Hex Hresp. cbn in Hresp. cbn [admission]. unfold memory_Acquire.
  destruct (validateProviderCapacityRequest request) eqn:Hv.
  { left. split; [done|]. repeat case_match; done. }
  apply request_valid in Hv as (Hu & _ & _). cbn.
  set (b := TrimSpace (RequestAccountID request)) in *. set (s1 := pruneLocked b now store).
  assert (H1 : store_ok s1) by by apply prune_ok.
  assert (Hle1 : units_besides ids account s1 <= units_besides ids account store)
    by (apply besides_mono; [done|apply prune_subseteq]).
  destruct (leases s1 !! _) as [current|] eqn:Hl.
  - left. pose proof (H1 _ _ Hl) as [Hid _]. split.
    + destruct (_ || _); [done|]. destruct (After _ _); cbn; [|done].
      erewrite besides_renew; [exact Hle1|cbn; by rewrite Hid|done..].
    + destruct (String.eqb_spec b account) as [<-|]; [|done]. fold s1. rewrite Hl. done.
  - rewrite snapshot_units.
    assert (Hrefused : forall reason,
      units_besides ids account s1 <= units_besides ids account store /\
      (if b =s account then
         match leases (pruneLocked account now store) !! TrimSpace (LeaseID request),
               Ok (noLease, reason, false) : result go_error acquired with
         | None, Ok (_, _, true) => [(now, EstimatedTokens request)] | _, _ => []
         end else []) = []) by (intros reason; split; [done|repeat case_match; done]).
    destruct (_ && (_ >? ConcurrencyLimit request)) eqn:Hc; [left; by apply Hrefused|].
    destruct (_ && (_ >=? _)); [left; by apply Hrefused|].
    destruct (_ && (_ >? TPMLimit request)); [left; by apply Hrefused|].
    set (lease := mkLease _ _ _ _).
    assert (Hnew : ID lease = TrimSpace (LeaseID request)) by done.
    destruct (String.eqb_spec b account) as [Hb|Hb].
    + right. assert (Hheld' : units_held account (store_lease lease s1) <= limit); [|by repeat case_match].
      rewrite (new_lease_units _ b) by done. rewrite Hb, String.eqb_refl. cbn.
      destruct (Hresp Hb) as [Hcl Hmax]. rewrite Hcl in Hc. rewrite (proj2 (Z.gtb_lt _ _)) in Hc by done.
      cbn in Hc. boolify. rewrite Hb in Hc.
      pose proof (units_held_nonneg account s1 H1). pose proof (prune_units account b now store Hok). fold s1 in H0.
      rewrite (wrap64_id (units_held _ _)) in Hc
        by (unfold in_int64, min_int64, max_int64 in *; lia).
      rewrite wrap64_id in Hc by (unfold in_int64, min_int64, max_int64 in *; lia). lia.
    + left. split; [|done].
      assert (E : units_besides ids account (store_lease lease s1) = units_besides ids account s1).
      { rewrite besides_new by done. unfold units_besides_of, units_of. cbn.
        rewrite (proj2 (String.eqb_neq _ _) Hb). case_decide; lia. }
      rewrite <- E in Hle1. by destruct (_ || _).
Qed.

(** Any operation: the units go up to the limit by an admission, or by what it
    brings back, or not at all. *)
Lemma exec_units limit extra op store :
  store_ok store -> 0 < limit <= max_int64 -> units_held account store <= limit + extra -> 0 <= extra ->
  respects account limit extra op ->
  units_besides ids account (exec op store) <= limit \/
  units_besides ids account (exec op store) <=
    units_besides ids account store + sum_Z (units_besides_of ids account) (brought_back account op store).
Proof.
  intros Hok [Hpos Hmax] Hheld Hex Hresp.
  assert (Hprune : forall b now, units_besides ids account (pruneLocked b now store) <= units_besides ids account store)
    by (intros; apply besides_mono; [done|apply prune_subseteq]).
  destruct op as [now request|now lease d|now lease d|lease|now b].
  - destruct (acquire_units limit extra now request store) as [[H _]|H]; try done; [right; cbn in *; lia|left].
    pose proof (besides_le_held _ (exec_ok (op_acquire now request) _ Hok)). cbn [exec] in *. lia.
  - right. cbn. unfold memory_Extend. destruct (_ || _); [cbn; lia|]. specialize (Hprune (ProviderAccountID lease) now).
    set (s1 := pruneLocked _ now store) in *.
    assert (H1 : store_ok s1) by by apply prune_ok.
    destruct (leases s1 !! _) as [current|] eqn:Hl; [|cbn; lia].
    pose proof (H1 _ _ Hl) as [Hid _]. repeat case_match; cbn; try lia.
    erewrite besides_renew; [lia|cbn; by rewrite Hid|done..].
  - right. cbn [exec brought_back]. unfold memory_Restore. destruct (_ || _) eqn:Hv.
    { cbn. destruct (_ =s account); [destruct (leases _ !! _)|]; cbn; lia. }
    specialize (Hprune (ProviderAccountID lease) now). set (s1 := pruneLocked _ now store) in *.
    assert (H1 : store_ok s1) by by apply prune_ok.
    destruct (leases s1 !! ID lease) as [current|] eqn:Hl.
    + assert (Hnone : forall (x : result go_error ProviderCapacityLease * MemoryProviderCapacityStore),
        0 <= sum_Z (units_besides_of ids account) (if ProviderAccountID lease =s account then
          match leases (pruneLocked account now store) !! ID lease, x.1 with None, Ok _ => [lease] | _, _ => [] end
          else [])).
      { intros x. destruct (String.eqb_spec (ProviderAccountID lease) account) as [<-|]; [|done].
        fold s1. rewrite Hl. done. }
      pose proof (H1 _ _ Hl) as [Hid _].
      destruct (differs current lease) eqn:Hd; cbn [fst snd].
      * specialize (Hnone (Err ErrProviderCapacityConflict, s1)). cbn in Hnone. lia.
      * unfold differs in Hd. boolify.
        erewrite besides_renew; [|exact Hl|done|cbn; congruence|cbn; congruence].
        specialize (Hnone (Ok (lease <| ExpiresAt := now + d |>), s1)). cbn in Hnone. lia.
    + cbn [fst snd]. rewrite besides_new by done.
      destruct (String.eqb_spec (ProviderAccountID lease) account) as [<-|Hne].
      * fold s1. rewrite Hl. cbn. unfold units_besides_of, units_of in *. cbn. lia.
      * assert (E : units_besides_of ids account (lease <| ExpiresAt := now + d |>) = 0).
        { unfold units_besides_of, units_of. cbn. rewrite (proj2 (String.eqb_neq _ _) Hne). by case_decide. }
        rewrite E. cbn. lia.
  - right. cbn. unfold memory_Release. repeat case_match; cbn; try lia.
    rewrite Z.add_0_r. apply besides_mono; [done|]. apply delete_subseteq.
  - right. cbn. unfold memory_Snapshot. case_match; cbn; [lia|]. specialize (Hprune (TrimSpace b) now). lia.
Qed.
End Besides.

(** ** Lemmas: the rate windows *)

Definition pairs store (account : string) : list (time * Z) :=
  map (fun x => (At x, SampleTokens x)) (samples_of store account).
Definition recent (now : time) (l : list (time * Z)) : list (time * Z) :=
  List.filter (fun x : time * Z => now - providerCapacityRateWindow <? x.1) l.

Definition op_time (op : store_op) : option time :=
  match op with
  | op_acquire now _ | op_extend now _ _ | op_restore now _ _ | op_snapshot now _ => Some now
  | op_release _ => None
  end.

(** The acquires of an account are limited by rate or by tokens. *)
Definition limited (account : string) (op : store_op) : Prop :=
  match op with
  | op_acquire _ request => TrimSpace (RequestAccountID request) = account ->
      0 < RPMLimit request \/ 0 < TPMLimit request
  | _ => True
  end.

Lemma pairs_prune account b now store :
  pairs (pruneLocked b now store) account =
  if b =s account then recent now (pairs store account) else pairs store account.
Proof.
  unfold pairs, pruneLocked, samples_of, recent. cbn.
  destruct (String.eqb_spec b account) as [->|Hne].
  - rewrite lookup_insert_eq. cbn. unfold After.
    induction (default [] (samples store !! account)) as [|x l IH]; cbn; [done|].
    destruct (_ <? _); cbn; by rewrite IH.
  - by rewrite lookup_insert_ne.
Qed.

Lemma pairs_store_lease account lease store : pairs (store_lease lease store) account = pairs store account.
Proof. done. Qed.

(** An operation leaves an account's samples, or drops the old ones; only an
    admission adds to them, and it drops the old ones first. *)
Lemma exec_pairs account op store : limited account op ->
  (admission account op store = [] /\ pairs (exec op store) account = pairs store account) \/
  exists now, op_time op = Some now /\
    pairs (exec op store) account = recent now (pairs store account) ++ admission account op store.
Proof.
  intros Hlim.
  assert (Hprune : forall b now, op_time op = Some now -> admission account op store = [] ->
    pairs (exec op store) account = pairs (pruneLocked b now store) account ->
    (admission account op store = [] /\ pairs (exec op store) account = pairs store account) \/
    exists now, op_time op = Some now /\
      pairs (exec op store) account = recent now (pairs store account) ++ admission account op store).
  { intros b now Hn Ha Hp. rewrite Hp, pairs_prune, Ha. destruct (b =s account).
    - right. exists now. by rewrite app_nil_r.
    - by left. }
  destruct op as [now request|now lease d|now lease d|lease|now b].
  - cbn in Hlim. cbn [exec admission op_time] in *. unfold memory_Acquire in *.
    destruct (validateProviderCapacityRequest request) eqn:Hv.
    { left. split; [|done]. repeat case_match; done. }
    cbn [RequestAccountID LeaseID set Settable] in *. cbn in *.
    set (b := TrimSpace (RequestAccountID request)) in *. set (s1 := pruneLocked b now store) in *.
    destruct (leases s1 !! _) as [current|] eqn:Hl.
    + apply (Hprune b now); [done|by destruct (String.eqb_spec b account) as [<-|]; [fold s1; rewrite Hl; repeat case_match|]|]. by repeat case_match.
    + destruct (_ && (_ >? ConcurrencyLimit request)).
      { apply (Hprune b now); [done|by destruct (String.eqb_spec b account) as [<-|]; [fold s1; rewrite Hl; repeat case_match|]|done]. }
      destruct (_ && (_ >=? _)).
      { apply (Hprune b now); [done|by destruct (String.eqb_spec b account) as [<-|]; [fold s1; rewrite Hl; repeat case_match|]|done]. }
      destruct (_ && (_ >? TPMLimit request)).
      { apply (Hprune b now); [done|by destruct (String.eqb_spec b account) as [<-|]; [fold s1; rewrite Hl; repeat case_match|]|done]. }
      cbn. destruct (String.eqb_spec b account) as [E|Hne].
      * rewrite <- E. fold s1. rewrite Hl, E. right. exists now. split; [done|]. rewrite (proj2 (orb_true_iff _ _)) by
          (rewrite !Z.gtb_lt; apply Hlim, E).
        unfold pairs, samples_of. cbn. rewrite lookup_insert_eq. cbn. rewrite map_app. f_equal.
        pose proof (pairs_prune account b now store) as Hp. rewrite E, String.eqb_refl in Hp.
        unfold s1. rewrite E. exact Hp.
      * left. split; [done|].
        pose proof (pairs_prune account b now store) as Hp.
        rewrite (proj2 (String.eqb_neq b account) Hne) in Hp.
        destruct (_ || _); [|by rewrite pairs_store_lease].
        unfold pairs, samples_of. cbn. rewrite lookup_insert_ne by done. exact Hp.
  - cbn [exec admission op_time] in *. unfold memory_Extend in *. destruct (_ || _); [by left|].
    apply (Hprune (ProviderAccountID lease) now); [done|done|]. by repeat case_match.
  - cbn [exec admission op_time] in *. unfold memory_Restore in *. destruct (_ || _); [by left|].
    apply (Hprune (ProviderAccountID lease) now); [done|done|].
    destruct (match _ with Some _ => _ | None => _ end); done.
  - cbn [exec admission op_time] in *. unfold memory_Release. left. split; [done|]. by repeat case_match.
  - cbn [exec admission op_time] in *. unfold memory_Snapshot in *. case_match; [by left|].
    by apply (Hprune (TrimSpace b) now).
Qed.

Definition later (c : time) (l : list (time * Z)) : list (time * Z) :=
  List.filter (fun x : time * Z => c <? x.1) l.

Lemma later_app c l1 l2 : later c (l1 ++ l2) = later c l1 ++ later c l2.
Proof. apply List.filter_app. Qed.

Lemma later_later c1 c2 l : c1 <= c2 -> later c2 (later c1 l) = later c2 l.
Proof.
  intros Hc. unfold later. induction l as [|x l IH]; cbn; [done|].
  destruct (Z.ltb_spec c1 x.1); cbn; [by rewrite IH|].
  rewrite (proj2 (Z.ltb_ge c2 x.1)) by lia. done.
Qed.

Lemma elem_of_later c x l : x ∈ later c l <-> x ∈ l /\ c < x.1.
Proof. unfold later. rewrite !list_elem_of_In, List.filter_In, Z.ltb_lt. done. Qed.

Section Windows.
Context (weight : time * Z -> Z) (limit : Z) (account : string).
Context (weight_nonneg : forall x, 0 <= x.2 -> 0 <= weight x) (limit_nonneg : 0 <= limit).

(** What relates the log of admissions up to [last] to the samples kept. *)
Record metered (log : list (time * Z)) (last : time) store : Prop := {
  log_past x : x ∈ log -> x.1 <= last;
  log_kept c : last - providerCapacityRateWindow <= c ->
    sum_Z weight (later c log) <= sum_Z weight (later c (pairs store account));
  log_bounded t : window_total weight t log <= limit;
  samples_nonneg x : x ∈ pairs store account -> 0 <= x.2;
  samples_bounded : sum_Z weight (pairs store account) <= limit;
}.

(** The admission test: what is left of the window and the newcomer fit. *)
Definition admits (op : store_op) store : Prop := forall x,
  admission account op store = [x] ->
  sum_Z weight (recent x.1 (pairs store account)) + weight x <= limit.

Lemma later_le c l : (forall x, x ∈ l -> 0 <= x.2) -> sum_Z weight (later c l) <= sum_Z weight l.
Proof.
  intros Hl. apply sum_Z_submseteq; [auto|]. apply sublist_submseteq. clear Hl.
  unfold later. induction l as [|x l IH]; cbn; [done|]. destruct (c <? x.1); by constructor.
Qed.

Lemma window_later t log : (forall x, x ∈ log -> x.1 <= t) ->
  window_total weight t log = sum_Z weight (later (t - providerCapacityRateWindow) log).
Proof.
  intros Hlog. unfold window_total, later. f_equal. induction log as [|x log IH]; cbn; [done|].
  unfold in_window at 1. rewrite (proj2 (Z.leb_le x.1 t)) by (apply Hlog, elem_of_cons; by left).
  rewrite andb_true_r, IH; [done|]. intros y Hy. apply Hlog, elem_of_cons. by right.
Qed.

Lemma window_total_app t l1 l2 :
  window_total weight t (l1 ++ l2) = window_total weight t l1 + window_total weight t l2.
Proof. unfold window_total. by rewrite List.filter_app, sum_Z_app. Qed.

(** Time passes and old samples are dropped. *)
Lemma metered_recent log last now store store' :
  metered log last store -> last <= now ->
  pairs store' account = recent now (pairs store account) -> metered log now store'.
Proof.
  intros [Ha Hb Hc Hd He] Hn Hp. split; try done.
  - intros x Hx. apply Ha in Hx. lia.
  - intros c Hc'. rewrite Hp. unfold recent. fold (later (now - providerCapacityRateWindow) (pairs store account)).
    rewrite later_later by done. apply Hb. lia.
  - intros x. rewrite Hp. intros [Hx _]%elem_of_later. auto.
  - rewrite Hp. etransitivity; [by apply later_le|done].
Qed.

(** A newcomer that fits is logged and sampled. *)
Lemma metered_admit log now store store' x :
  metered log now store -> x.1 = now -> 0 <= x.2 ->
  sum_Z weight (pairs store account) + weight x <= limit ->
  pairs store' account = pairs store account ++ [x] -> metered (log ++ [x]) now store'.
Proof.
  intros [Ha Hb Hc Hd He] Hx Hx2 Hfit Hp. split.
  - intros y [Hy|Hy%list_elem_of_singleton]%elem_of_app; [auto|subst; lia].
  - intros c Hc'. rewrite Hp, !later_app, !sum_Z_app. specialize (Hb c Hc'). lia.
  - intros t. rewrite window_total_app. unfold window_total at 2. cbn. unfold in_window at 1.
    destruct (Z.leb_spec x.1 t) as [Ht|Ht]; [|rewrite andb_false_r; cbn; specialize (Hc t); lia].
    destruct (t - providerCapacityRateWindow <? x.1); cbn; [|specialize (Hc t); lia].
    rewrite window_later by (intros y Hy; apply Ha in Hy; lia).
    specialize (Hb (t - providerCapacityRateWindow) ltac:(lia)).
    pose proof (later_le (t - providerCapacityRateWindow) (pairs store account) Hd). lia.
  - intros y. rewrite Hp. intros [Hy|Hy%list_elem_of_singleton]%elem_of_app; [auto|by subst].
  - rewrite Hp, sum_Z_app. cbn. lia.
Qed.

Lemma admission_cases op store :
  admission account op store = [] \/
  exists x, admission account op store = [x] /\ op_time op = Some x.1 /\ 0 <= x.2.
Proof.
  destruct op as [now request|now lease d|now lease d|lease|now b]; cbn; try by left.
  destruct (_ =s account); [|by left]. case_match; [by left|].
  unfold memory_Acquire. destruct (validateProviderCapacityRequest request) eqn:Hv; [by left|].
  apply request_valid in Hv as (_ & _ & ?). repeat case_match; try (by left).
  all: right; by exists (now, EstimatedTokens request).
Qed.

Lemma metered_step log last op store :
  metered log last store -> limited account op -> admits op store ->
  (forall now, op_time op = Some now -> last <= now) ->
  metered (log ++ admission account op store) (default last (op_time op)) (exec op store).
Proof.
  intros Hm Hlim Hfit Htime.
  destruct (exec_pairs account op store Hlim) as [[Ha Hp]|(now & Ht & Hp)].
  - rewrite Ha, app_nil_r. destruct Hm as [H1 H2 H3 H4 H5].
    assert (Hle : last <= default last (op_time op)) by (destruct (op_time op); cbn; [auto|lia]).
    split; try done.
    + intros x Hx. apply H1 in Hx. lia.
    + intros c Hc. rewrite Hp. apply H2. lia.
    + by rewrite Hp.
    + by rewrite Hp.
  - rewrite Ht. cbn. specialize (Htime _ Ht).
    set (mid := pruneLocked account now store).
    assert (Hmid : pairs mid account = recent now (pairs store account)).
    { unfold mid. by rewrite pairs_prune, String.eqb_refl. }
    pose proof (metered_recent _ _ _ _ _ Hm Htime Hmid) as Hm'.
    destruct (admission_cases op store) as [Ha|(x & Ha & Hx & Hx2)].
    + rewrite Ha, app_nil_r in *. eapply metered_recent; [exact Hm|exact Htime|exact Hp].
    + rewrite Ht in Hx. injection Hx as ->. rewrite Ha in *. eapply metered_admit; [exact Hm'|done|done| |].
      * rewrite Hmid. by apply Hfit.
      * by rewrite Hmid.
Qed.

(** The operations read a clock that does not run backwards. *)
Fixpoint in_order (last : time) (ops : list store_op) : Prop :=
  match ops with
  | [] => True
  | op :: ops' =>
      (forall now, op_time op = Some now -> last <= now) /\ in_order (default last (op_time op)) ops'
  end.

Lemma windows_bounded log last ops store :
  metered log last store -> in_order last ops -> Forall (limited account) ops ->
  (forall log last op store, op ∈ ops -> metered log last store -> admits op store) ->
  forall t, window_total weight t (log ++ admissions account ops store) <= limit.
Proof.
  revert log last store. induction ops as [|op ops IH]; intros log last store Hm Ho Hl Hfit t; cbn.
  { rewrite app_nil_r. apply Hm. }
  destruct Ho as [Ho1 Ho2]. apply Forall_cons in Hl as [Hl1 Hl2].
  rewrite app_assoc. apply (IH _ (default last (op_time op))); try done.
  - apply metered_step; try done. eapply Hfit; [|done]. apply elem_of_cons. by left.
  - intros. eapply Hfit; [|done]. apply elem_of_cons. by right.
Qed.

Lemma metered_start last : metered [] last NewMemoryProviderCapacityStore.
Proof. split; cbn; try done; try lia. - by intros x []%elem_of_nil. - by intros x []%elem_of_nil. Qed.
End Windows.

(** The tests an admission has passed. *)
Lemma admission_passed account now request store x :
  admission account (op_acquire now request) store = [x] ->
  account = TrimSpace (RequestAccountID request) /\ x = (now, EstimatedTokens request) /\
  let snapshot := snapshotLocked account (pruneLocked account now store) in
  (0 < RPMLimit request -> Requests snapshot < RPMLimit request) /\
  (0 < TPMLimit request -> Tokens snapshot +i EstimatedTokens request <= TPMLimit request).
Proof.
  cbn [admission]. destruct (String.eqb_spec (TrimSpace (RequestAccountID request)) account) as [<-|]; [|done].
  case_match eqn:Hl; [done|]. unfold memory_Acquire.
  destruct (validateProviderCapacityRequest request); [done|]. cbn. rewrite Hl.
  destruct (_ && (_ >? ConcurrencyLimit request)); [done|].
  destruct (_ && (_ >=? _)) eqn:E1; [done|]. destruct (_ && (_ >? TPMLimit request)) eqn:E2; [done|].
  cbn. intros [= <-]. split_and!; [done|done| |]; intros Hpos.
  - rewrite (proj2 (Z.gtb_lt _ _)) in E1 by done. cbn in E1. by boolify.
  - rewrite (proj2 (Z.gtb_lt _ _) Hpos) in E2. cbn in E2. by boolify.
Qed.

Lemma snapshot_requests account store :
  Requests (snapshotLocked account store) = wrap64 (sum_Z (fun _ => 1) (pairs store account)).
Proof.
  unfold snapshotLocked. cbn [Requests]. rewrite (foldl_wrap (fun _ => 1)) by (by vm_compute).
  unfold pairs. by rewrite sum_Z_map.
Qed.

Lemma snapshot_tokens account store :
  Tokens (snapshotLocked account store) = wrap64 (sum_Z snd (pairs store account)).
Proof.
  unfold snapshotLocked. cbn [Tokens]. rewrite (foldl_wrap SampleTokens) by (by vm_compute).
  unfold pairs. by rewrite sum_Z_map.
Qed.

(** The sum a snapshot takes is the exact one while the samples are bounded. *)
Lemma recent_total weight limit account log last now store :
  (forall x, 0 <= x.2 -> 0 <= weight x) -> limit <= max_int64 ->
  metered weight limit account log last store ->
  0 <= sum_Z weight (recent now (pairs store account)) <= limit /\
  wrap64 (sum_Z weight (recent now (pairs store account))) =
    sum_Z weight (recent now (pairs store account)).
Proof.
  intros Hw Hmax [_ _ _ Hd He].
  pose proof (later_le weight Hw (now - providerCapacityRateWindow) (pairs store account) Hd) as Hle.
  assert (H0 : 0 <= sum_Z weight (recent now (pairs store account))).
  { apply sum_Z_nonneg. intros x [Hx _]%elem_of_later. auto. }
  unfold recent, later in *. split; [lia|]. apply wrap64_id.
  unfold in_int64, min_int64 in *. lia.
Qed.

(** ** Theorems *)

(** Leases brought back are of the account and hold units. *)
Lemma brought_back_units account op store l :
  l ∈ brought_back account op store -> ProviderAccountID l = account /\ 0 < CapacityUnits l.
Proof.
  destruct op as [| |now lease d| |]; cbn [brought_back]; try by intros ?%elem_of_nil.
  destruct (String.eqb_spec (ProviderAccountID lease) account) as [E|]; [|by intros ?%elem_of_nil].
  destruct (leases _ !! _); [by intros ?%elem_of_nil|]. unfold memory_Restore.
  destruct (validateProviderCapacityLease lease) eqn:Hv; cbn.
  - by intros ?%elem_of_nil.
  - destruct (d <=? 0); cbn; [by intros ?%elem_of_nil|]. apply lease_valid in Hv.
    destruct (match _ with Some _ => _ | None => _ end); cbn; [by intros ?%elem_of_nil|].
    by intros ->%list_elem_of_singleton.
Qed.

Lemma sum_Z_zero {A} (f : A -> Z) l : (forall x, x ∈ l -> f x = 0) -> sum_Z f l = 0.
Proof.
  intros H. rewrite (sum_Z_ext f (fun _ => 0)) by done. clear H. by induction l.
Qed.

Lemma restored_app account ops1 ops2 store :
  restored account (ops1 ++ ops2) store =
  restored account ops1 store ++ restored account ops2 (exec_all ops1 store).
Proof. revert store. induction ops1 as [|op ops1 IH]; intros store; cbn; [done|]. by rewrite IH, app_assoc. Qed.

Lemma restored_units account ops store l :
  l ∈ restored account ops store -> ProviderAccountID l = account /\ 0 < CapacityUnits l.
Proof.
  revert store. induction ops as [|op ops IH]; intros store; cbn; [by intros ?%elem_of_nil|].
  intros [H|H]%elem_of_app; [by eapply brought_back_units|by eapply IH].
Qed.

Lemma restored_nonneg account ops store : 0 <= sum_Z CapacityUnits (restored account ops store).
Proof. apply sum_Z_nonneg. intros l Hl. apply restored_units in Hl. lia. Qed.

(** One operation, after [ids] were brought back with [extra] units in all. *)
Lemma exec_bounded account limit extra total ids op store :
  store_ok store -> 0 < limit <= max_int64 -> 0 <= extra ->
  extra + sum_Z CapacityUnits (brought_back account op store) <= total -> respects account limit total op ->
  units_besides ids account store <= limit -> units_held account store <= limit + extra ->
  units_besides (ids ++ map ID (brought_back account op store)) account (exec op store) <= limit /\
  units_held account (exec op store) <= limit + (extra + sum_Z CapacityUnits (brought_back account op store)).
Proof.
  intros Hok Hlim Hex Htot Hresp Hb Hh. set (back := brought_back account op store) in *.
  assert (Hn : 0 <= sum_Z CapacityUnits back)
    by (apply sum_Z_nonneg; intros l Hl; apply brought_back_units in Hl; lia).
  assert (Hh' : units_held account store <= limit + total) by lia.
  split.
  - destruct (exec_units (ids ++ map ID back) account limit total op store) as [H|H]; try done; [lia|].
    fold back in H. rewrite (sum_Z_zero _ back) in H.
    + assert (units_besides (ids ++ map ID back) account store <= units_besides ids account store); [|lia].
      apply sum_map_le. intros k l Hl. unfold units_besides_of. pose proof (units_of_nonneg account store Hok k l Hl).
      destruct (decide (ID l ∈ ids)) as [Hin|]; [rewrite decide_True by set_solver; lia|].
      case_decide; lia.
    + intros l Hl. unfold units_besides_of. rewrite decide_True; [done|]. apply elem_of_app. right.
      by apply list_elem_of_fmap_2.
  - rewrite <- besides_nil in Hh |- *.
    destruct (exec_units [] account limit total op store) as [H|H]; try done; [lia|lia|].
    fold back in H. rewrite (sum_Z_ext _ CapacityUnits back) in H; [lia|].
    intros l Hl. unfold units_besides_of, units_of. apply brought_back_units in Hl as [-> _].
    rewrite String.eqb_refl, decide_False; [done|]. by intros ?%elem_of_nil.
Qed.

Lemma run_bounded account limit total ops ids extra store :
  store_ok store -> 0 < limit <= max_int64 -> 0 <= extra ->
  extra + sum_Z CapacityUnits (restored account ops store) <= total -> Forall (respects account limit total) ops ->
  units_besides ids account store <= limit -> units_held account store <= limit + extra ->
  units_besides (ids ++ map ID (restored account ops store)) account (exec_all ops store) <= limit /\
  units_held account (exec_all ops store) <= limit + (extra + sum_Z CapacityUnits (restored account ops store)).
Proof.
  revert ids extra store. induction ops as [|op ops IH]; intros ids extra store Hok Hlim Hex Htot Hall Hb Hh; cbn.
  { rewrite app_nil_r. split; [done|lia]. }
  apply Forall_cons in Hall as [Hop Hops]. cbn in Htot. rewrite sum_Z_app in Htot |- *.
  pose proof (restored_nonneg account ops (exec op store)) as Hn.
  assert (Hn' : 0 <= sum_Z CapacityUnits (brought_back account op store))
    by (apply sum_Z_nonneg; intros l Hl; apply brought_back_units in Hl; lia).
  destruct (exec_bounded account limit extra total ids op store) as [H1 H2]; try done; [lia|].
  destruct (IH (ids ++ map ID (brought_back account op store))
    (extra + sum_Z CapacityUnits (brought_back account op store)) (exec op store)) as [H3 H4]; try done;
    [by apply exec_ok|lia|lia|].
  rewrite map_app, app_assoc. split; [exact H3|]. etransitivity; [exact H4|lia].
Qed.

Lemma new_store_ok : store_ok NewMemoryProviderCapacityStore.
Proof. by intros k l Hl. Qed.

Lemma exec_all_ok ops store : store_ok store -> store_ok (exec_all ops store).
Proof. revert store. induction ops as [|op ops IH]; intros store Hok; cbn; [done|]. apply IH. by apply exec_ok. Qed.

Lemma new_store_bounded account limit total ops :
  0 < limit <= max_int64 -> Forall (respects account limit total) ops ->
  sum_Z CapacityUnits (restored account ops NewMemoryProviderCapacityStore) <= total ->
  units_besides (map ID (restored account ops NewMemoryProviderCapacityStore)) account
    (exec_all ops NewMemoryProviderCapacityStore) <= limit /\
  units_held account (exec_all ops NewMemoryProviderCapacityStore) <=
    limit + sum_Z CapacityUnits (restored account ops NewMemoryProviderCapacityStore).
Proof.
  intros Hlim Hops Htot.
  destruct (run_bounded account limit total ops [] 0 NewMemoryProviderCapacityStore new_store_ok Hlim) as [H1 H2];
    try done; unfold units_besides, units_held; cbn; rewrite ?sum_map_empty; lia.
Qed.

(** C13. The acquires of an account carry its concurrency limit.  Whatever
    acquires, renewals, restores, releases, snapshots and expiries follow each
    other and whatever the clock reads: the leases that were admitted never hold
    more units than the limit; leases that a restore brings back (of tasks that
    already run at the provider) come on top, so that all together hold at most
    the limit and what was brought back; and they count at the next admission: a
    lease is admitted only if all that the account then holds, the leases brought
    back included, is within the limit. *)
Theorem concurrency_bounded account limit ops :
  let back := restored account ops NewMemoryProviderCapacityStore in
  let store := exec_all ops NewMemoryProviderCapacityStore in
  0 < limit <= max_int64 -> Forall (respects account limit (sum_Z CapacityUnits back)) ops ->
  units_besides (map ID back) account store <= limit /\
  units_held account store <= limit + sum_Z CapacityUnits back /\
  forall before op after, ops = before ++ op :: after ->
    admission account op (exec_all before NewMemoryProviderCapacityStore) <> [] ->
    units_held account (exec_all (before ++ [op]) NewMemoryProviderCapacityStore) <= limit.
Proof.
  cbv zeta. intros Hlim Hops. destruct (new_store_bounded account limit _ ops Hlim Hops (Z.le_refl _)) as [H1 H2].
  split_and!; [done..|]. intros before op after Hsplit Hadm.
  set (total := sum_Z CapacityUnits (restored account ops NewMemoryProviderCapacityStore)) in *.
  assert (Htot : sum_Z CapacityUnits (restored account before NewMemoryProviderCapacityStore) <= total).
  { unfold total. rewrite Hsplit, restored_app, sum_Z_app.
    pose proof (restored_nonneg account (op :: after) (exec_all before NewMemoryProviderCapacityStore)). lia. }
  rewrite Hsplit in Hops. apply Forall_app in Hops as [Hbefore [Hop _]%Forall_cons].
  destruct (new_store_bounded account limit total before Hlim Hbefore Htot) as [_ H3].
  unfold exec_all. rewrite foldl_app. fold (exec_all before NewMemoryProviderCapacityStore). cbn.
  destruct op as [now request| | | |]; try done.
  assert (Hn : 0 <= total) by apply restored_nonneg.
  assert (Hok : store_ok (exec_all before NewMemoryProviderCapacityStore)) by apply exec_all_ok, new_store_ok.
  destruct (acquire_units [] account limit total now request _ Hok (proj1 Hlim) (proj2 Hlim) ltac:(lia) Hn Hop)
    as [[_ Hnone]|H]; [contradiction|exact H].
Qed.

(** With a limit of requests per minute on every acquire of an account, no
    window of a minute, wherever it starts, holds more admissions of the account
    than the limit; refused, repeated and renewed leases do not count. *)
Theorem requests_per_minute_bounded account limit start ops :
  0 < limit <= max_int64 -> in_order start ops ->
  Forall (fun op => match op with
                    | op_acquire _ request =>
                        TrimSpace (RequestAccountID request) = account -> RPMLimit request = limit
                    | _ => True end) ops ->
  forall t, window_total (fun _ => 1) t (admissions account ops NewMemoryProviderCapacityStore) <= limit.
Proof.
  intros [Hpos Hmax] Ho Hl t.
  apply (windows_bounded (fun _ => 1) limit account ltac:(done) [] start); [apply metered_start; lia|done| |].
  - eapply Forall_impl; [exact Hl|]. intros [] H; try done. cbn in *. intros E. left. rewrite H; done.
  - intros log last op store Hin Hm x Ha. rewrite Forall_forall in Hl. specialize (Hl _ Hin).
    destruct op as [now request| | | |]; try done.
    apply admission_passed in Ha as (-> & -> & Hr & _). specialize (Hl eq_refl).
    specialize (Hr ltac:(lia)). rewrite snapshot_requests, pairs_prune, String.eqb_refl in Hr.
    destruct (recent_total (fun _ => 1) _ _ _ _ now _ ltac:(done) Hmax Hm) as [_ E]. rewrite E in Hr. cbn. lia.
Qed.

(** The same for a limit of estimated tokens per minute: in every window the
    tokens admitted add up to at most the limit. *)
Theorem tokens_per_minute_bounded account limit start ops :
  0 < limit <= max_int64 -> in_order start ops ->
  Forall (fun op => match op with
                    | op_acquire _ request =>
                        TrimSpace (RequestAccountID request) = account ->
                        TPMLimit request = limit /\ EstimatedTokens request + limit <= max_int64
                    | _ => True end) ops ->
  forall t, window_total snd t (admissions account ops NewMemoryProviderCapacityStore) <= limit.
Proof.
  intros [Hpos Hmax] Ho Hl t.
  apply (windows_bounded snd limit account ltac:(done) [] start); [apply metered_start; lia|done| |].
  - eapply Forall_impl; [exact Hl|]. intros [] H; try done. cbn in *. intros E. right.
    destruct (H E) as [-> _]. done.
  - intros log last op store Hin Hm x Ha. rewrite Forall_forall in Hl. specialize (Hl _ Hin).
    destruct op as [now request| | | |]; try done.
    pose proof (admission_cases account (op_acquire now request) store) as [E|(y & E & _ & Hy)];
      rewrite Ha in E; [done|]. injection E as <-.
    apply admission_passed in Ha as (-> & -> & _ & Hr). destruct (Hl eq_refl) as [Hlim Hest].
    specialize (Hr ltac:(lia)). rewrite snapshot_tokens, pairs_prune, String.eqb_refl in Hr.
    destruct (recent_total snd _ _ _ _ now _ ltac:(done) Hmax Hm) as [Hb E]. rewrite E, Hlim in Hr.
    cbn in *. rewrite wrap64_id in Hr by (unfold in_int64, min_int64; lia). lia.
Qed.

(** Acquiring again under the same lease identity while the lease lives is
    admitted without taking capacity: the lease is renewed, its expiry does not
    move back, and the account's units and admissions do not grow. *)
Theorem Acquire_idempotent now1 now2 request store lease reason store1 :
  store_ok store -> memory_Acquire now1 request store = (Ok (lease, reason, true), store1) ->
  now2 < ExpiresAt lease ->
  exists lease2 store2,
    memory_Acquire now2 request store1 = (Ok (lease2, ""%string, true), store2) /\
    ExpiresAt lease2 = Z.max (ExpiresAt lease) (now2 + LeaseDuration request) /\
    (forall account, units_held account store2 <= units_held account store1) /\
    forall account, admission account (op_acquire now2 request) store1 = [].
Proof.
  intros Hok Hacq Hlive.
  assert (Hok1 : store_ok store1) by (pose proof (exec_ok (op_acquire now1 request) store Hok) as H;
    cbn in H; by rewrite Hacq in H).
  assert (Hl : leases store1 !! TrimSpace (LeaseID request) = Some lease /\
    ProviderAccountID lease = TrimSpace (RequestAccountID request) /\ CapacityUnits lease = RequestUnits request /\
    validateProviderCapacityRequest request = None).
  { unfold memory_Acquire in Hacq. destruct (validateProviderCapacityRequest request); [done|].
    cbn in Hacq. set (s1 := pruneLocked _ now1 store) in *.
    assert (H1 : store_ok s1) by by apply prune_ok.
    destruct (leases s1 !! _) as [current|] eqn:E.
    - destruct (H1 _ _ E) as [Hid _]. destruct (_ || _) eqn:Ed in Hacq; [done|]. boolify.
      destruct (After _ _); simplify_eq; [|done]. unfold store_lease. cbn.
      by rewrite Hid, lookup_insert_eq.
    - repeat (destruct (_ && _) in Hacq; [done|]).
      destruct (_ || _); simplify_eq; unfold store_lease; cbn; by rewrite lookup_insert_eq. }
  destruct Hl as (Hl & Ha & Hu & Hv).
  set (account0 := TrimSpace (RequestAccountID request)) in *.
  set (s2 := pruneLocked account0 now2 store1).
  assert (Hl2 : leases s2 !! TrimSpace (LeaseID request) = Some lease).
  { apply map_lookup_filter_Some. split; [done|]. cbn. unfold expired, After.
    rewrite (proj2 (Z.ltb_lt _ _)) by done. apply andb_false_r. }
  assert (Hok2 : store_ok s2) by by apply prune_ok.
  pose proof (Hok2 _ _ Hl2) as [Hid _].
  assert (Hacq2 : exists lease2 store2,
    memory_Acquire now2 request store1 = (Ok (lease2, ""%string, true), store2) /\
    ExpiresAt lease2 = Z.max (ExpiresAt lease) (now2 + LeaseDuration request) /\
    forall account, units_held account store2 = units_held account s2).
  { unfold memory_Acquire. rewrite Hv. cbn. fold account0 s2. rewrite Hl2, Ha, Hu.
    rewrite String.eqb_refl, Z.eqb_refl. cbn. unfold After.
    destruct (Z.ltb_spec (ExpiresAt lease) (now2 + LeaseDuration request)); eexists _, _.
    - split_and!; [done|cbn; lia|]. intros account. apply (renew_units _ lease lease); [done|by rewrite Hid|done].
    - split_and!; [done|lia|done]. }
  destruct Hacq2 as (lease2 & store2 & E & Hexp & Hunits). exists lease2, store2.
  split_and!; [done|done| |].
  - intros account. rewrite Hunits. by apply prune_units.
  - intros account. cbn [admission]. fold account0.
    destruct (String.eqb_spec account0 account) as [<-|]; [|done]. fold s2. by rewrite Hl2.
Qed.
End Memory.

(** ** Witnesses *)

Module Demo.
Definition request (id : string) : ProviderCapacityRequest :=
  mkRequest id "account" 1 2 2 1000 400 minute.
Definition ops : list store_op := [
  op_acquire 100 (request "l1"); op_acquire 200 (request "l2"); op_acquire 300 (request "l3");
  op_extend 400 (mkLease "l1" "account" 1 0) minute; op_release (mkLease "l2" "account" 1 0)].

(** A task that runs at the provider is restored while the account is full; the
    next lease has to wait until the account is within its limit again. *)
Definition unmetered (id : string) : ProviderCapacityRequest := mkRequest id "account" 1 2 0 0 400 minute.
Definition full : list store_op := [
  op_acquire 100 (unmetered "l1"); op_acquire 200 (unmetered "l2");
  op_restore 250 (mkLease "task" "account" 1 0) minute].
Definition freed : list store_op := full ++ [
  op_acquire 300 (unmetered "l3"); op_release (mkLease "l1" "account" 1 0);
  op_release (mkLease "l2" "account" 1 0)].
Definition last : store_op := op_acquire 400 (unmetered "l4").
End Demo.

Lemma concurrency_bounded_witness :
  units_held "account" (exec_all (range := canonical_range) Demo.full NewMemoryProviderCapacityStore) = 3 /\
  map ID (restored (range := canonical_range) "account" (Demo.freed ++ [Demo.last]) NewMemoryProviderCapacityStore)
    = ["task"%string] /\
  units_held "account" (exec_all (range := canonical_range) (Demo.freed ++ [Demo.last])
    NewMemoryProviderCapacityStore) = 2 /\
  units_held "account" (exec_all (range := canonical_range) (Demo.freed ++ [Demo.last])
    NewMemoryProviderCapacityStore) <= 2.
Proof.
  split; [vm_compute; reflexivity|]. split; [vm_compute; reflexivity|]. split; [vm_compute; reflexivity|].
  refine (proj2 (proj2 (concurrency_bounded (range := canonical_range) "account" 2 (Demo.freed ++ [Demo.last]) _ _))
    Demo.freed Demo.last [] eq_refl _).
  - unfold max_int64. lia.
  - replace (sum_Z _ _) with 1 by (vm_compute; reflexivity).
    repeat (constructor; [cbn; try done; intros _; unfold max_int64; lia|]). constructor.
  - vm_compute. discriminate.
Defined.

Lemma requests_per_minute_bounded_witness :
  admissions (range := canonical_range) "account" Demo.ops NewMemoryProviderCapacityStore
    = [(100, 400); (200, 400)] /\
  window_total (fun _ => 1) 500
    (admissions (range := canonical_range) "account" Demo.ops NewMemoryProviderCapacityStore) <= 2.
Proof.
  split; [vm_compute; reflexivity|].
  apply (requests_per_minute_bounded (range := canonical_range) "account" 2 0).
  - unfold max_int64. lia.
  - cbn. repeat (split; [intros ? [= <-]; lia|]). done.
  - repeat (constructor; [done|]). constructor.
Defined.

Lemma tokens_per_minute_bounded_witness :
  window_total snd 500
    (admissions (range := canonical_range) "account" Demo.ops NewMemoryProviderCapacityStore) <= 1000.
Proof.
  apply (tokens_per_minute_bounded (range := canonical_range) "account" 1000 0).
  - unfold max_int64. lia.
  - cbn. repeat (split; [intros ? [= <-]; lia|]). done.
  - repeat (constructor; [cbn; try done; intros _; unfold max_int64; lia|]).
    constructor.
Defined.

Lemma Acquire_idempotent_witness :
  exists lease2 store2,
    memory_Acquire (range := canonical_range) 500 (Demo.request "l1")
      (exec (range := canonical_range) (op_acquire 100 (Demo.request "l1")) NewMemoryProviderCapacityStore)
    = (Ok (lease2, ""%string, true), store2) /\ ExpiresAt lease2 = 500 + minute.
Proof.
  destruct (Acquire_idempotent (range := canonical_range) 100 500 (Demo.request "l1")
    NewMemoryProviderCapacityStore (mkLease "l1" "account" 1 (100 + minute)) ""
    (exec (range := canonical_range) (op_acquire 100 (Demo.request "l1")) NewMemoryProviderCapacityStore))
    as (lease2 & store2 & H & Hexp & _).
  - intros k l. cbn. rewrite lookup_empty. done.
  - vm_compute. reflexivity.
  - vm_compute. reflexivity.
  - exists lease2, store2. split; [exact H|]. rewrite Hexp. vm_compute. reflexivity.
Defined.
