(* ===== verification/ProviderPermit.v ===== *)
(** * Provider capacity: permits

    [backend/internal/controlplane/provider_capacity_service.go]: how the service
    acquires a permit against any [ProviderCapacityStore], and the life of a
    permit: heartbeat, release, retention.  A permit is shared by its owner and
    its heartbeat goroutine; each critical section of its mutex, each call into
    the store and each release of the local slot is a step of its own. *)

From S2P Require Import Prelude ProviderCapacity.

(** ** What a permit relies on *)

(** The part of the contract of [ProviderCapacityStore] the permit's safety
    rests on: renewing never creates a lease and keeps its identity, releasing
    drops exactly the lease named. *)
Class CapacityStoreLaws (Store : Type) `{ProviderCapacityStore Store} := {
  holds : Store -> string -> option ProviderCapacityLease;
  Extend_creates_none now l d s id : holds s id = None -> holds (Extend now l d s).2 id = None;
  Extend_same_id now l d s l' : (Extend now l d s).1 = Ok (l', true) -> ID l' = ID l;
  Release_drops l s : (Release l s).1 = Ok tt -> holds (Release l s).2 (ID l) = None;
  Release_creates_none l s id : holds s id = None -> holds (Release l s).2 id = None;
}.

(** The in-memory store keeps the contract, once its leases are filed under
    their own identity. *)
Section MemoryLaws.
Context `{range : MapRange}.

Definition sound_store : Type := { s : MemoryProviderCapacityStore | store_ok s }.

Definition sound_exec {R} (r : R * MemoryProviderCapacityStore) (op : store_op) (s : sound_store)
    (E : r.2 = exec op (proj1_sig s)) : R * sound_store :=
  (r.1, exist _ r.2 (eq_ind_r store_ok (exec_ok op _ (proj2_sig s)) E)).

#[export] Instance sound_memory_store : ProviderCapacityStore sound_store := {
  Acquire := fun now request s =>
    sound_exec (memory_Acquire now request (proj1_sig s)) (op_acquire now request) s eq_refl;
  Extend := fun now lease d s =>
    sound_exec (memory_Extend now lease d (proj1_sig s)) (op_extend now lease d) s eq_refl;
  Restore := fun now lease d s =>
    sound_exec (memory_Restore now lease d (proj1_sig s)) (op_restore now lease d) s eq_refl;
  Release := fun lease s =>
    sound_exec (memory_Release lease (proj1_sig s)) (op_release lease) s eq_refl;
  Snapshot := fun now account s =>
    sound_exec (memory_Snapshot now account (proj1_sig s)) (op_snapshot now account) s eq_refl;
}.

Lemma prune_none account now s id :
  leases s !! id = None -> leases (pruneLocked account now s) !! id = None.
Proof. intros Hn. apply map_lookup_filter_None. by left. Qed.

#[export] Instance memory_laws : CapacityStoreLaws sound_store.
Proof.
  refine {| holds := fun s id => leases (proj1_sig s) !! id |}.
  - intros now l d [s Hs] id Hn. cbn in *. unfold memory_Extend. destruct (_ || _); [done|].
    apply (prune_none (ProviderAccountID l) now) in Hn.
    assert (Hs1 : store_ok (pruneLocked (ProviderAccountID l) now s)) by by apply prune_ok.
    destruct (leases _ !! ID l) as [c|] eqn:E; [|done].
    pose proof (Hs1 _ _ E) as [Hid _]. repeat case_match; cbn [snd]; try done.
    unfold store_lease. cbn [leases set ID]. cbn.
    rewrite lookup_insert_ne; [done|]. intros Heq. congruence.
  - intros now l d [s Hs] l' H. cbn in H. unfold memory_Extend in H. destruct (_ || _); [done|].
    assert (Hs1 : store_ok (pruneLocked (ProviderAccountID l) now s)) by by apply prune_ok.
    destruct (leases _ !! ID l) as [c|] eqn:E; [|done].
    pose proof (Hs1 _ _ E) as [Hid _]. repeat case_match; cbn in H; simplify_eq; done.
  - intros l [s Hs] H. cbn in *. unfold memory_Release in *. repeat case_match; cbn in *; try done.
    by rewrite lookup_delete_eq.
  - intros l [s Hs] id Hn. cbn in *. unfold memory_Release in *. repeat case_match; cbn in *; try done.
    apply lookup_delete_None. by right.
Qed.
End MemoryLaws.

(** ** Acquisition *)

(** The fields of [GatewayProvider] admission reads. *)
Record GatewayProvider := mkProvider {
  AccountID : string;
  Concurrency : Z;
  ProviderRPM : Z;
  ProviderTPM : Z;
  CircuitState : string;
  CircuitProbe : bool;
}.
Definition CircuitStateOpen := "open"%string.

Definition capacity_store_missing : go_error := ErrNew "provider capacity store is not available".
Definition lease_lost : go_error := ErrNew "provider capacity lease was lost".

(** ** Leases that outlive their permit *)

Definition providerCapacityRetentionDuration (now : time) (reconcileAfter : option time) : duration :=
  let d := match reconcileAfter with
           | Some t => if After t now then TimeSub t now +i providerCapacityLeaseGrace
                       else providerCapacityLeaseTTL
           | None => providerCapacityLeaseTTL
           end in
  if d >? maxProviderCapacityLeaseDuration then maxProviderCapacityLeaseDuration else d.

Definition providerCapacityLeaseID (operationID : string) (attemptNumber : Z) : string :=
  ("provider_lease_" +:+ TrimSpace operationID +:+ "_" +:+ Itoa attemptNumber)%string.

(** The state behind a permit.  [store_set] tells a real store from the nil one
    of an unlimited permit; [slot] is the account whose local slot
    [localRelease] gives back, once. *)
Record providerAccountPermitState := mkPermit {
  closed : bool;
  store_set : bool;
  lease : ProviderCapacityLease;
  heartbeat : bool;
  lost : option go_error;
  slot : option string;
}.
#[export] Instance permit_settable : Settable providerAccountPermitState := fun p =>
  mkPermit (closed p) (store_set p) (lease p) (heartbeat p) (lost p) (slot p).

(** [gatewayRateSample] and the maps of the service a permit touches. *)
Record gatewayRateSample := mkRateSample { at_ : time; tokens : Z }.
Definition gatewaySchedulingWindow : duration := minute.

Section Permit.
Context {Store : Type} `{laws : CapacityStoreLaws Store}.

Record Service := mkService {
  providerCapacityStore : option Store;
  accountSlots : gmap string Z;
  rateSamples : gmap string (list gatewayRateSample);
}.
#[export] Instance Service_settable : Settable Service := fun s =>
  mkService (providerCapacityStore s) (accountSlots s) (rateSamples s).

(** [gatewayScheduler.pruneSamples] and [recordProviderCapacitySample] *)
Definition pruneSamples (accountID : string) (now : time) (s : Service)
    : list gatewayRateSample :=
  List.filter (fun sample => After (at_ sample) (now - gatewaySchedulingWindow))
    (default [] (rateSamples s !! accountID)).

Definition recordProviderCapacitySample (now : time) (accountID : string) (estimatedTokens : Z)
    (s : Service) : Service :=
  s <| rateSamples := <[accountID := pruneSamples accountID now s ++ [mkRateSample now estimatedTokens]]>
         (rateSamples s) |>.

(** [trackProviderAccountSlot]: the increment, and the decrement its closure
    makes. *)
Definition slot_count (accountID : string) (s : Service) : Z := default 0 (accountSlots s !! accountID).
Definition trackProviderAccountSlot (accountID : string) (s : Service) : option string * Service :=
  let accountID := TrimSpace accountID in
  if accountID =s "" then (None, s)
  else (Some accountID,
        s <| accountSlots := <[accountID := slot_count accountID s +i 1]> (accountSlots s) |>).
Definition untrackSlot (accountID : string) (s : Service) : Service :=
  if slot_count accountID s >? 0
  then s <| accountSlots := <[accountID := slot_count accountID s -i 1]> (accountSlots s) |>
  else s.

(** A refusal: the reason, the [acquired] flag and the error, if any. *)
Definition refusal : Type := string * bool * option go_error.

(** [random] is the text [randomID] draws; the clock is read by the store and by
    the sample. *)
Definition TryAcquireProviderAccountPermitContext (now : time) (random : string)
    (provider : GatewayProvider) (estimatedTokens : Z) (leaseID : string) (s : Service)
    : (providerAccountPermitState + refusal) * Service :=
  let account := TrimSpace (AccountID provider) in
  if account =s "" then
    (inr ("provider_account_missing"%string, false, Some ErrProviderCapacityConfig), s)
  else if (CircuitState provider =s CircuitStateOpen) && negb (CircuitProbe provider) then
    (inr ("circuit_open"%string, false, None), s)
  else
    let concurrencyLimit := if CircuitProbe provider then 1 else Concurrency provider in
    if (concurrencyLimit <=? 0) && (ProviderRPM provider <=? 0) && (ProviderTPM provider <=? 0) then
      (inl (mkPermit false false noLease false None None), s)
    else
      match providerCapacityStore s with
      | None => (inr ("capacity_store_unavailable"%string, false, Some capacity_store_missing), s)
      | Some store =>
          let leaseID := if TrimSpace leaseID =s "" then ("provider_lease_" +:+ random)%string else leaseID in
          let request := mkRequest (TrimSpace leaseID) account 1 concurrencyLimit
            (ProviderRPM provider) (ProviderTPM provider) (nonNegative estimatedTokens)
            providerCapacityLeaseTTL in
          let '(r, store) := Acquire now request store in
          let s := s <| providerCapacityStore := Some store |> in
          match r with
          | Err err => (inr (""%string, false, Some err), s)
          | Ok (_, reason, false) =>
              let reason :=
                if CircuitProbe provider && (reason =s "concurrency_exhausted")
                then "circuit_half_open_busy"%string
                else if reason =s "concurrency_exhausted" then "at_capacity"%string else reason in
              (inr (reason, false, None), s)
          | Ok (lease, _, true) =>
              let '(slot, s) := trackProviderAccountSlot account s in
              let s := if (ProviderRPM provider >? 0) || (ProviderTPM provider >? 0)
                       then recordProviderCapacitySample now account (EstimatedTokens request) s else s in
              (inl (mkPermit false true lease true None slot), s)
          end
      end.

(** ** The life of a permit *)

(** What is left to do of a call that is between two critical sections. *)
Inductive task :=
| extend_call (l : ProviderCapacityLease)       (* the heartbeat, before store.Extend *)
| extend_store (l : ProviderCapacityLease)      (* before it stores the renewed lease *)
| release_call (l : ProviderCapacityLease)      (* close, before store.Release *)
| retain_call (l : ProviderCapacityLease) (d : duration)     (* Retain, before store.Extend *)
| retain_restore (l : ProviderCapacityLease) (d : duration)  (* before store.Restore *)
| retain_store (l : ProviderCapacityLease)      (* before it stores the extended lease *)
| local_release.                                (* releaseLocal *)

(** The permit, its pending calls, and the service with the shared store. *)
Record world := mkWorld {
  permit : providerAccountPermitState;
  tasks : list task;
  shared : Store;
  slots_given_back : nat;
}.
#[export] Instance world_settable : Settable world := fun w =>
  mkWorld (permit w) (tasks w) (shared w) (slots_given_back w).

(** First critical sections. *)
Definition begin_extend (w : world) : world :=
  if closed (permit w) then w
  else if store_set (permit w) then w <| tasks := extend_call (lease (permit w)) :: tasks w |>
  else w.

Definition close_permit (w : world) : world :=
  w <| permit := (permit w) <| closed := true |> <| heartbeat := false |> |>.

Definition begin_close (releaseStore : bool) (w : world) : world :=
  if closed (permit w) then w
  else
    let next := if releaseStore && store_set (permit w)
                then release_call (lease (permit w)) else local_release in
    (close_permit w) <| tasks := next :: tasks w |>.

Definition begin_Retain (d : duration) (w : world) : world :=
  if closed (permit w) then w
  else
    let next := if store_set (permit w) then retain_call (lease (permit w)) d else local_release in
    (close_permit w) <| tasks := next :: tasks w |>.

Definition signalLost (err : go_error) (p : providerAccountPermitState) : providerAccountPermitState :=
  match lost p with None => p <| lost := Some err |> | Some _ => p end.

(** The rest of a pending call: one step of it, and what is left. *)
Definition run_task (now : time) (t : task) (w : world) : world :=
  match t with
  | extend_call l =>
      let '(r, st) := Extend now l providerCapacityLeaseTTL (shared w) in
      let w := w <| shared := st |> in
      match r with
      | Err err => w <| permit := signalLost err (permit w) |>
      | Ok (_, false) => w <| permit := signalLost lease_lost (permit w) |>
      | Ok (extended, true) => w <| tasks := extend_store extended :: tasks w |>
      end
  | extend_store l =>
      if closed (permit w) then w else w <| permit := (permit w) <| lease := l |> |>
  | release_call l =>
      let '(_, st) := Release l (shared w) in
      w <| shared := st |> <| tasks := local_release :: tasks w |>
  | retain_call l d =>
      let '(r, st) := Extend now l d (shared w) in
      let w := w <| shared := st |> in
      match r with
      | Err _ => w <| tasks := local_release :: tasks w |>
      | Ok (_, false) => w <| tasks := retain_restore l d :: tasks w |>
      | Ok (extended, true) => w <| tasks := retain_store extended :: tasks w |>
      end
  | retain_restore l d =>
      let '(_, st) := Restore now l d (shared w) in
      w <| shared := st |> <| tasks := local_release :: tasks w |>
  | retain_store l =>
      w <| permit := (permit w) <| lease := l |> |> <| tasks := local_release :: tasks w |>
  | local_release => w <| slots_given_back := S (slots_given_back w) |>
  end.

Inductive step : world -> world -> Prop :=
| step_tick w : heartbeat (permit w) = true -> step w (begin_extend w)
| step_close w b : step w (begin_close b w)
| step_retain w d : step w (begin_Retain d w)
| step_task w now t before after :
    tasks w = before ++ t :: after ->
    step w (run_task now t (w <| tasks := before ++ after |>))
| step_others w st :
    (* other permits and processes, which do not use this lease's identity *)
    holds st (ID (lease (permit w))) = holds (shared w) (ID (lease (permit w))) ->
    step w (w <| shared := st |>).

Definition steps : world -> world -> Prop := rtc step.

(** A fresh permit on the service's store. *)
Definition fresh (p : providerAccountPermitState) (st : Store) : world := mkWorld p [] st 0.

(** ** Invariant *)

(** The tasks that end a permit, and the lease a task works on. *)
Definition ends (t : task) : bool :=
  match t with extend_call _ | extend_store _ => false | _ => true end.
Definition task_lease (t : task) : option ProviderCapacityLease :=
  match t with
  | extend_call l | extend_store l | release_call l | retain_call l _ | retain_restore l _
  | retain_store l => Some l
  | local_release => None
  end.

Definition endings (w : world) : nat := length (List.filter ends (tasks w)) + slots_given_back w.

Record permit_ok (id : string) (w : world) : Prop := {
  open_or_ended : endings w = if closed (permit w) then 1%nat else 0%nat;
  heartbeat_open : heartbeat (permit w) = true -> closed (permit w) = false;
  lease_id : ID (lease (permit w)) = id;
  tasks_id t l : t ∈ tasks w -> task_lease t = Some l -> ID l = id;
}.

(** ** Lemmas *)

Lemma filter_length_split {A} (p : A -> bool) (l1 l2 : list A) x :
  length (List.filter p (l1 ++ x :: l2)) =
  ((if p x then 1 else 0) + length (List.filter p (l1 ++ l2)))%nat.
Proof. rewrite !List.filter_app, !length_app. cbn. destruct (p x); cbn; lia. Qed.

Lemma fresh_ok p st : closed p = false -> permit_ok (ID (lease p)) (fresh p st).
Proof.
  intros Hc. split; cbn; [by rewrite Hc|done|done|by intros t l []%elem_of_nil].
Qed.

Lemma signalLost_same err p : closed (signalLost err p) = closed p /\
  heartbeat (signalLost err p) = heartbeat p /\ lease (signalLost err p) = lease p.
Proof. unfold signalLost. by destruct (lost p). Qed.

(** A step that replaces a task by at most one other. *)
Lemma replace_task id w before after t p st n ts :
  permit_ok id w -> tasks w = before ++ t :: after ->
  closed p = closed (permit w) -> heartbeat p = heartbeat (permit w) -> ID (lease p) = id ->
  (length (List.filter ends ts) + n = (if ends t then 1 else 0) + slots_given_back w)%nat ->
  (forall t' l, t' ∈ ts -> task_lease t' = Some l -> ID l = id) ->
  permit_ok id (mkWorld p (ts ++ before ++ after) st n).
Proof.
  intros [He Hh Hl Ht] Hs Hc Hb Hid Hn Hts. split; cbn.
  - unfold endings in *. cbn. rewrite Hs, filter_length_split in He. rewrite Hc, <- He.
    rewrite List.filter_app, length_app. lia.
  - rewrite Hb, Hc. done.
  - done.
  - intros t' l [Hin|Hin]%elem_of_app; [by apply Hts|]. apply Ht. rewrite Hs.
    rewrite !elem_of_app, elem_of_cons in *. tauto.
Qed.

Lemma run_task_ok id w now t before after :
  permit_ok id w -> tasks w = before ++ t :: after ->
  permit_ok id (run_task now t (w <| tasks := before ++ after |>)).
Proof.
  intros Hok Hs.
  assert (Htl : forall l, task_lease t = Some l -> ID l = id).
  { intros l Hl. eapply (tasks_id _ _ Hok); [|done]. rewrite Hs. apply elem_of_app. right.
    apply elem_of_cons. by left. }
  pose proof (lease_id _ _ Hok) as Hid.
  assert (Hgo : forall p st n ts,
    closed p = closed (permit w) -> heartbeat p = heartbeat (permit w) -> ID (lease p) = id ->
    (length (List.filter ends ts) + n = (if ends t then 1 else 0) + slots_given_back w)%nat ->
    (forall t' l, t' ∈ ts -> task_lease t' = Some l -> ID l = id) ->
    permit_ok id (mkWorld p (ts ++ before ++ after) st n)) by (intros; by eapply replace_task).
  assert (Hlocal : forall t' l, t' ∈ [local_release] -> task_lease t' = Some l -> ID l = id)
    by (intros t' l ->%list_elem_of_singleton; done).
  assert (Hnil : forall t' l, t' ∈ ([] : list task) -> task_lease t' = Some l -> ID l = id)
    by (intros t' l []%elem_of_nil).
  destruct w as [p ts st n]. cbn in *. destruct t as [l|l|l|l d|l d|l|]; cbn in *.
  - destruct (Extend now l providerCapacityLeaseTTL st) as [r st'] eqn:E.
    destruct r as [[l' []]|err]; cbn.
    + pose proof (Extend_same_id now l providerCapacityLeaseTTL st l') as Hsame. rewrite E in Hsame.
      apply (Hgo _ st' n [extend_store l']); try done.
      intros t' l2 ->%list_elem_of_singleton [= <-]. rewrite Hsame by done. by apply Htl.
    + destruct (signalLost_same lease_lost p) as (? & ? & Hl). apply (Hgo _ st' n []); rewrite ?Hl; done.
    + destruct (signalLost_same err p) as (? & ? & Hl). apply (Hgo _ st' n []); rewrite ?Hl; done.
  - destruct (closed p) eqn:Hc; [by apply (Hgo p st n [])|]. apply (Hgo (p <| lease := l |>) st n []); try done.
    by apply Htl.
  - destruct (Release l st) as [r st']. by apply (Hgo p st' n [local_release]).
  - destruct (Extend now l d st) as [r st'] eqn:E. destruct r as [[l' []]|err]; cbn.
    + pose proof (Extend_same_id now l d st l') as Hsame. rewrite E in Hsame.
      apply (Hgo p st' n [retain_store l']); try done.
      intros t' l2 ->%list_elem_of_singleton [= <-]. rewrite Hsame by done. by apply Htl.
    + apply (Hgo p st' n [retain_restore l d]); try done.
      intros t' l2 ->%list_elem_of_singleton [= <-]. by apply Htl.
    + by apply (Hgo p st' n [local_release]).
  - destruct (Restore now l d st) as [r st']. by apply (Hgo p st' n [local_release]).
  - apply (Hgo (p <| lease := l |>) st n [local_release]); try done. by apply Htl.
  - by apply (Hgo p st (S n) []).
Qed.

Lemma close_ok id w t :
  permit_ok id w -> closed (permit w) = false -> ends t = true ->
  (forall l, task_lease t = Some l -> ID l = id) ->
  permit_ok id ((close_permit w) <| tasks := t :: tasks w |>).
Proof.
  intros [He Hh Hl Ht] Hc Hend Htl. split; cbn; try done.
  - unfold endings in *. cbn. rewrite Hend, Hc in *. cbn. lia.
  - intros t' l [->|Hin]%elem_of_cons; [by apply Htl|by apply Ht].
Qed.

Lemma permit_step_ok id w w' : permit_ok id w -> step w w' -> permit_ok id w'.
Proof.
  intros Hok Hs. revert Hok. destruct Hs as [w Hb|w b|w d|w now t before after Ht|w st Hst]; intros Hok.
  - unfold begin_extend. destruct (closed _) eqn:Hc; [done|]. destruct (store_set _); [|done].
    destruct Hok as [He Hh Hl Hts]. split; cbn; try done.
    intros t' l [->|Hin]%elem_of_cons; [by intros [= <-]|by apply Hts].
  - unfold begin_close. destruct (closed _) eqn:Hc; [done|].
    pose proof (lease_id _ _ Hok). apply close_ok; try done; destruct (_ && _); cbn; naive_solver.
  - unfold begin_Retain. destruct (closed _) eqn:Hc; [done|].
    pose proof (lease_id _ _ Hok). apply close_ok; try done; destruct (store_set _); cbn; naive_solver.
  - by apply run_task_ok.
  - by destruct Hok.
Qed.

Lemma world_steps_ok id w w' : permit_ok id w -> steps w w' -> permit_ok id w'.
Proof. intros Hok Hs. induction Hs; [done|]. eauto using permit_step_ok. Qed.

(** Past its release, a permit has no task left that could bring the lease
    back. *)
Definition settled (id : string) (w : world) : Prop :=
  permit_ok id w /\ closed (permit w) = true /\ holds (shared w) id = None /\
  forall t, t ∈ tasks w -> ends t = true -> t = local_release.

Lemma settled_step id w w' : settled id w -> step w w' -> settled id w'.
Proof.
  intros (Hok & Hc & Hh & Ht) Hs. pose proof (permit_step_ok _ _ _ Hok Hs) as Hok'.
  split; [done|]. clear Hok'. revert Hok Hc Hh Ht.
  destruct Hs as [w Hb|w b|w d|w now t before after Hsp|w st Hst]; intros Hok Hc Hh Ht.
  - unfold begin_extend. by rewrite Hc.
  - unfold begin_close. by rewrite Hc.
  - unfold begin_Retain. by rewrite Hc.
  - assert (Hin : forall t', t' ∈ before ++ after -> t' ∈ tasks w)
      by (intros t'; rewrite Hsp, !elem_of_app, elem_of_cons; tauto).
    assert (Htin : t ∈ tasks w) by (rewrite Hsp, elem_of_app, elem_of_cons; tauto).
    destruct w as [p ts st n]. cbn in *.
    destruct t as [l|l|l|l d|l d|l|]; cbn; try (by specialize (Ht _ Htin eq_refl)).
    + pose proof (Extend_creates_none now l providerCapacityLeaseTTL st id Hh) as Hn.
      destruct (Extend now l providerCapacityLeaseTTL st) as [[[l' []]|err] st']; cbn in *.
      * split_and!; [done|done|]. intros t' [->|Hx]%elem_of_cons; [done|auto].
      * destruct (signalLost_same lease_lost p) as (-> & _ & _). auto.
      * destruct (signalLost_same err p) as (-> & _ & _). auto.
    + rewrite Hc. auto.
    + auto.
  - pose proof (lease_id _ _ Hok) as Hid. rewrite Hid in Hst. cbn. by rewrite Hst.
Qed.

Lemma no_other_ending id w before after t t' :
  permit_ok id w -> tasks w = before ++ t :: after -> ends t = true ->
  t' ∈ before ++ after -> ends t' = false.
Proof.
  intros Hok Hs He Hin. pose proof (open_or_ended _ _ Hok) as Hn. unfold endings in Hn.
  rewrite Hs, filter_length_split, He in Hn. destruct (ends t') eqn:E; [|done]. exfalso.
  apply list_elem_of_split in Hin as (l1 & l2 & Hl). rewrite Hl, filter_length_split, E in Hn.
  destruct (closed (permit w)); lia.
Qed.

(** ** Theorems *)

(** Once the release of a permit has reached the store, its lease is gone for
    good: no heartbeat that was under way and no later call on the permit brings
    it back, in any interleaving. *)
Theorem released_stays_released p st w before after now l w' :
  closed p = false -> steps (fresh p st) w -> tasks w = before ++ release_call l :: after ->
  (Release l (shared w)).1 = Ok tt ->
  steps (run_task now (release_call l) (w <| tasks := before ++ after |>)) w' ->
  holds (shared w') (ID (lease p)) = None.
Proof.
  intros Hp Hw Hs Hr Hw'. set (id := ID (lease p)).
  assert (Hok : permit_ok id w) by (eapply world_steps_ok; [by apply fresh_ok|done]).
  assert (Hset : settled id (run_task now (release_call l) (w <| tasks := before ++ after |>))).
  { split; [by apply run_task_ok|]. pose proof (Release_drops l (shared w) Hr) as Hd.
    assert (Hin : release_call l ∈ tasks w) by (rewrite Hs, elem_of_app, elem_of_cons; tauto).
    rewrite (tasks_id _ _ Hok _ _ Hin eq_refl) in Hd.
    assert (Hc : closed (permit w) = true).
    { pose proof (open_or_ended _ _ Hok) as Hn. unfold endings in Hn.
      rewrite Hs, filter_length_split in Hn. cbn in Hn. by destruct (closed (permit w)). }
    cbn. destruct (Release l (shared w)) as [r st']. cbn in *. split_and!; [done|done|].
    intros t [->|Ht]%elem_of_cons He; [done|].
    by rewrite (no_other_ending _ _ _ _ _ _ Hok Hs eq_refl Ht) in He. }
  clear -Hset Hw'. induction Hw'; [by apply Hset|]. eauto using settled_step.
Qed.

(** Releasing and retaining a permit are final and exclusive: whatever is
    called and however often, the heartbeat runs only while the permit is open,
    at most one call ends it, and its local slot is given back once, exactly
    when that call is over. *)
Theorem permit_ends_once p st w :
  closed p = false -> steps (fresh p st) w ->
  (heartbeat (permit w) = true -> closed (permit w) = false) /\
  (length (List.filter ends (tasks w)) + slots_given_back w)%nat =
    (if closed (permit w) then 1%nat else 0%nat).
Proof.
  intros Hp Hw. pose proof (world_steps_ok _ _ _ (fresh_ok p st Hp) Hw) as [He Hh _ _]. done.
Qed.
End Permit.

(** A lease retained for an asynchronous attempt lives between the ordinary
    lease time and seven days, and unless that cap bites it outlives the
    attempt's reconciliation by the grace period, for any reconciliation time
    less than 292 years away. *)
Theorem retention_covers_reconciliation now reconcileAfter :
  (forall t, reconcileAfter = Some t -> t - now <= max_int64 - providerCapacityLeaseGrace) ->
  let d := providerCapacityRetentionDuration now reconcileAfter in
  providerCapacityLeaseTTL <= d <= maxProviderCapacityLeaseDuration /\
  forall t, reconcileAfter = Some t ->
    t + providerCapacityLeaseGrace <= now + d \/ d = maxProviderCapacityLeaseDuration.
Proof.
  unfold providerCapacityRetentionDuration, providerCapacityLeaseTTL,
    maxProviderCapacityLeaseDuration, providerCapacityLeaseGrace, TimeSub, After, hour, minute, second.
  rewrite Z.gtb_ltb. cbv zeta. destruct reconcileAfter as [t|]; intros Ht.
  - specialize (Ht t eq_refl). destruct (Z.ltb_spec now t) as [Hn|Hn].
    + rewrite wrap64_id by (unfold in_int64, min_int64, max_int64 in *; lia).
      destruct (Z.ltb_spec (7 * 24 * (60 * (60 * 1000000000)))
        (Z.max min_int64 (Z.min max_int64 (t - now)) + 2 * (60 * 1000000000)));
        unfold min_int64, max_int64 in *; (split; [lia|intros t' [= <-]; lia]).
    + destruct (Z.ltb_spec (7 * 24 * (60 * (60 * 1000000000))) (2 * (60 * 1000000000)));
        (split; [lia|intros t' [= <-]; lia]).
  - destruct (Z.ltb_spec (7 * 24 * (60 * (60 * 1000000000))) (2 * (60 * 1000000000)));
      (split; [lia|done]).
Qed.

Lemma retention_covers_reconciliation_witness :
  1000 + providerCapacityLeaseGrace <= 0 + providerCapacityRetentionDuration 0 (Some 1000)
  \/ providerCapacityRetentionDuration 0 (Some 1000) = maxProviderCapacityLeaseDuration.
Proof.
  apply (retention_covers_reconciliation 0 (Some 1000)); [|reflexivity].
  intros t [= <-]. unfold max_int64, providerCapacityLeaseGrace, minute, second. lia.
Defined.

(** ** Witnesses *)

#[local] Existing Instance canonical_range.
Module Demo.
Lemma empty_ok : store_ok NewMemoryProviderCapacityStore.
Proof. intros k l. cbn. by rewrite lookup_empty. Qed.
Definition empty : sound_store := exist _ NewMemoryProviderCapacityStore empty_ok.
Definition provider : GatewayProvider := mkProvider "account" 1 0 0 "closed" false.
Definition acquired :=
  TryAcquireProviderAccountPermitContext (Store := sound_store) 100 "r" provider 10 "lease" (mkService (Some empty) ∅ ∅).
Definition state : providerAccountPermitState :=
  match acquired.1 with inl p => p | inr _ => mkPermit true false noLease false None None end.
Definition shop : sound_store := default empty (providerCapacityStore acquired.2).
(** A heartbeat is under way when the owner closes the permit. *)
Definition ticking : world := begin_close true (begin_extend (fresh state shop)).
Lemma reach : steps (fresh state shop) ticking.
Proof.
  eapply rtc_l; [apply step_tick; vm_compute; reflexivity|].
  eapply rtc_l; [apply step_close|]. apply rtc_refl.
Qed.
End Demo.

Lemma released_stays_released_witness :
  holds (shared (run_task 200 (release_call (lease Demo.state))
    (Demo.ticking <| tasks := [] ++ [extend_call (lease Demo.state)] |>))) "lease" = None.
Proof.
  exact (released_stays_released Demo.state Demo.shop Demo.ticking [] [extend_call (lease Demo.state)] 200
    (lease Demo.state) _ eq_refl Demo.reach eq_refl eq_refl (rtc_refl _ _)).
Defined.

Lemma permit_ends_once_witness :
  closed (permit Demo.ticking) = true /\
  (length (List.filter ends (tasks Demo.ticking)) + slots_given_back Demo.ticking)%nat =
    (if closed (permit Demo.ticking) then 1%nat else 0%nat).
Proof.
  split; [vm_compute; reflexivity|].
  exact (proj2 (permit_ends_once Demo.state Demo.shop Demo.ticking eq_refl Demo.reach)).
Defined.
