(* ===== verification/Float64.v ===== *)
(** * IEEE double precision

    Go's [float64] as the Standard Library's executable [spec_float] with 53 bits
    of precision and exponents up to 1024: the operations the pricing rules of
    the router use, with Go's conversions from and to 64-bit integers and the
    rounding functions of package [math].  Multiplication by one and the nearest
    integer are characterised, for those who compute amounts with them. *)

From S2P Require Import Prelude.
From Stdlib Require Import Floats.SpecFloat.

Notation float64 := spec_float (only parsing).

Definition fprec : Z := 53.
Definition femax : Z := 1024.

Definition fmul (x y : float64) : float64 := SFmul fprec femax x y.
Definition fadd (x y : float64) : float64 := SFadd fprec femax x y.
Definition fdiv (x y : float64) : float64 := SFdiv fprec femax x y.
Definition fltb (x y : float64) : bool := SFltb x y.
Definition fleb (x y : float64) : bool := SFleb x y.
Definition feqb (x y : float64) : bool := SFeqb x y.
Definition float_zero : float64 := S754_zero false.

(** [float64(z)]: rounding to nearest, ties to even. *)
Definition of_int (z : Z) : float64 := binary_normalize fprec femax z 0 false.
Definition float_one : float64 := of_int 1.

(** [math.Round]: half away from zero, as an integer; [None] off the finite numbers. *)
Definition round_int (x : float64) : option Z :=
  match x with
  | S754_zero _ => Some 0
  | S754_finite s m e =>
      let n := Z.shiftr (Z.shiftl (Zpos m) (e + 1) + 1) 1 in
      Some (if s then - n else n)
  | _ => None
  end.

(** [math.Ceil], likewise. *)
Definition ceil_int (x : float64) : option Z :=
  match x with
  | S754_zero _ => Some 0
  | S754_finite s m e =>
      Some (if s then - Z.shiftl (Zpos m) e else - Z.shiftr (- Zpos m) (- e))
  | _ => None
  end.

(** [int64(f)] of a float with that integer value.  Out of range Go leaves the
    result to the processor; this is the one of amd64. *)
Definition to_int64 (n : option Z) : Z :=
  match n with
  | Some z => if (min_int64 <=? z) && (z <=? max_int64) then z else min_int64
  | None => min_int64
  end.

(** [fmt.Sprintf("%.2f", x)]: the nearest number of hundredths, ties to even, of
    the exact value. *)
Definition hundredths (m : positive) (e : Z) : Z :=
  let n := Zpos m * 100 in
  if 0 <=? e then Z.shiftl n e
  else
    let q := Z.shiftr n (- e) in
    let twice := 2 * (n - Z.shiftl q (- e)) in
    let unit := Z.shiftl 1 (- e) in
    if (unit <? twice) || ((twice =? unit) && Z.odd q) then q + 1 else q.

Definition format_f2 (x : float64) : string :=
  let digits s n :=
    ((if s : bool then "-" else "") +:+ Itoa (n / 100) +:+ "." +:+ Itoa (n / 10 mod 10) +:+ Itoa (n mod 10))%string in
  match x with
  | S754_zero s => digits s 0
  | S754_finite s m e => digits s (hundredths m e)
  | S754_infinity s => if s then "-Inf"%string else "+Inf"%string
  | S754_nan => "NaN"%string
  end.

Example formats : format_f2 (fdiv (of_int 1) (of_int 8)) = "0.12"%string /\
  format_f2 (fdiv (of_int (-2)) (of_int 3)) = "-0.67"%string /\ format_f2 (of_int 120) = "120.00"%string /\
  format_f2 (fdiv (of_int 3) (of_int 8)) = "0.38"%string.
Proof. vm_compute. split_and!; reflexivity. Qed.

(** ** What multiplication and rounding do *)

Lemma round_int_nearest m e :
  let numerator := Z.pos m * 2 ^ Z.max e 0 in
  let denominator := 2 ^ Z.max (- e) 0 in
  exists n, round_int (S754_finite false m e) = Some n /\
    2 * denominator * n <= 2 * numerator + denominator < 2 * denominator * (n + 1).
Proof.
  cbv zeta. cbn [round_int]. eexists. split; [reflexivity|]. rewrite Z.shiftr_div_pow2 by done. change (2 ^ 1) with 2.
  destruct (Z.le_gt_cases 0 e) as [He|He].
  - rewrite Z.shiftl_mul_pow2, Z.pow_add_r by lia. rewrite (Z.max_l e 0), (Z.max_r (- e) 0) by lia. change (2 ^ 1) with 2. change (2 ^ 0) with 1.
    set (v := Z.pos m * 2 ^ e). replace (Z.pos m * (2 ^ e * 2) + 1) with (1 + v * 2) by (unfold v; ring).
    rewrite Z.div_add by done. change (1 / 2) with 0. lia.
  - rewrite (Z.max_r e 0), (Z.max_l (- e) 0) by lia. change (2 ^ 0) with 1. rewrite Z.mul_1_r.
    assert (Ed : 2 ^ (- e) = 2 * 2 ^ (- e - 1)) by (rewrite <- Z.pow_succ_r by lia; f_equal; lia).
    assert (Hb : 0 < 2 ^ (- e - 1)) by (apply Z.pow_pos_nonneg; lia).
    assert (Es : Z.shiftl (Z.pos m) (e + 1) = Z.pos m / 2 ^ (- e - 1)).
    { rewrite <- (Z.opp_involutive (e + 1)), Z.shiftl_opp_r, Z.shiftr_div_pow2 by lia. do 2 f_equal. lia. }
    rewrite Ed, Es. set (b := 2 ^ (- e - 1)) in *. set (a := Z.pos m / b).
    pose proof (Z.mul_div_le (Z.pos m) b Hb). pose proof (Z.mul_succ_div_gt (Z.pos m) b Hb). fold a in H, H0.
    pose proof (Z.mul_div_le (a + 1) 2 ltac:(lia)). pose proof (Z.mul_succ_div_gt (a + 1) 2 ltac:(lia)).
    set (n := (a + 1) / 2) in *. nia.
Qed.

(** Products of what is not negative are not negative. *)
Definition not_negative (x : float64) : Prop :=
  match x with S754_zero s | S754_infinity s | S754_finite s _ _ => s = false | S754_nan => True end.

Lemma round_aux_sign m e l : not_negative (binary_round_aux fprec femax false m e l).
Proof.
  unfold binary_round_aux. destruct (shr_fexp _ _ _ _ _) as [mrs e1]. destruct (shr_fexp _ _ _ _ _) as [mrs2 e2].
  destruct (shr_m mrs2); cbn; [done| |done]. by destruct (e2 <=? _).
Qed.

Lemma of_int_sign n : 0 <= n -> not_negative (of_int n).
Proof.
  destruct n as [|p|p]; [done| |done]. intros _. unfold of_int, binary_normalize, binary_round.
  destruct (shl_align _ _ _). apply round_aux_sign.
Qed.

Lemma fmul_sign x y : not_negative x -> not_negative y -> not_negative (fmul x y).
Proof.
  unfold fmul. destruct x as [s| |s|s m e], y as [t| |t|t m' e']; cbn; try done; intros -> ->; try done.
  apply round_aux_sign.
Qed.

Lemma greater_leb m e m' e' :
  fltb (S754_finite false m' e') (S754_finite false m e) = negb (fleb (S754_finite false m e) (S754_finite false m' e')).
Proof.
  unfold fltb, fleb, SFltb, SFleb, SFcompare. rewrite (Z.compare_antisym e e').
  destruct (e ?= e'); cbn [CompOpp negb]; [|done|done].
  change (Pos.compare_cont Eq m' m) with (Pos.compare_cont (CompOpp Eq) m' m).
  rewrite <- Pos.compare_cont_antisym. by destruct (Pos.compare_cont Eq m m').
Qed.

(** *** Times one *)

(** *** Times one *)

Lemma digits_spec p : 2 ^ (Z.pos (digits2_pos p) - 1) <= Z.pos p < 2 ^ Z.pos (digits2_pos p).
Proof.
  assert (Hs : forall q b, 2 ^ (Z.pos q - 1) <= b < 2 ^ Z.pos q ->
    2 ^ (Z.pos (Pos.succ q) - 1) = 2 * 2 ^ (Z.pos q - 1) /\ 2 ^ Z.pos (Pos.succ q) = 2 * 2 ^ Z.pos q).
  { intros q b _. rewrite Pos2Z.inj_succ. split; [|by apply Z.pow_succ_r].
    replace (Z.succ (Z.pos q) - 1) with (Z.succ (Z.pos q - 1)) by lia. apply Z.pow_succ_r. lia. }
  induction p as [p IH|p IH|]; cbn [digits2_pos]; [| |done].
  - destruct (Hs _ _ IH) as [-> ->]. lia.
  - destruct (Hs _ _ IH) as [-> ->]. lia.
Qed.

Lemma digits_unique p d : 2 ^ (d - 1) <= Z.pos p < 2 ^ d -> Z.pos (digits2_pos p) = d.
Proof.
  intros H. pose proof (digits_spec p) as Hp. set (k := Z.pos (digits2_pos p)) in *.
  assert (0 < d) by (destruct (Z.lt_ge_cases 0 d); [done|]; assert (2 ^ d <= 2 ^ 0) by (apply Z.pow_le_mono_r; lia); cbn in *; lia).
  destruct (Z.lt_trichotomy k d) as [Hl|[?|Hl]]; [|done|].
  - assert (2 ^ k <= 2 ^ (d - 1)) by (apply Z.pow_le_mono_r; lia). lia.
  - assert (2 ^ d <= 2 ^ (k - 1)) by (apply Z.pow_le_mono_r; lia). lia.
Qed.

(** A mantissa of 53 bits is not rounded. *)
Lemma round_normal m e : Z.pos (digits2_pos m) = fprec -> -1074 <= e <= 971 ->
  binary_round_aux fprec femax false (Z.pos m) e loc_Exact = S754_finite false m e.
Proof.
  intros Hd He. unfold binary_round_aux.
  assert (Hs : shr_fexp fprec femax (Z.pos m) e loc_Exact = ({| shr_m := Z.pos m; shr_r := false; shr_s := false |}, e)).
  { unfold shr_fexp. cbn [Zdigits2]. rewrite Hd. unfold fexp, emin, fprec, femax.
    replace (Z.max (53 + e - 53) (3 - 1024 - 53) - e) with 0 by lia. done. }
  rewrite Hs. cbn [shr_m loc_of_shr_record round_nearest_even]. rewrite Hs. cbn [shr_m].
  by rewrite (proj2 (Z.leb_le e (femax - fprec))) by (unfold femax, fprec; lia).
Qed.

(** An integer below 2^53 as a float. *)
Lemma of_int_exact p : Z.pos p < 2 ^ 53 ->
  exists m e, of_int (Z.pos p) = S754_finite false m e /\ -53 < e <= 0 /\ Z.pos (digits2_pos m) = fprec /\
    Z.pos m = Z.pos p * 2 ^ (- e).
Proof.
  intros Hp. pose proof (digits_spec p) as Hd. set (d := Z.pos (digits2_pos p)) in *.
  assert (H1 : 1 <= d <= 53).
  { split; [lia|]. destruct (Z.le_gt_cases d 53); [done|].
    assert (2 ^ 53 <= 2 ^ (d - 1)) by (apply Z.pow_le_mono_r; lia). lia. }
  assert (Hnorm : forall m e, e = d - 53 -> Z.pos m = Z.pos p * 2 ^ (- e) ->
    Z.pos (digits2_pos m) = fprec).
  { intros m e -> Hm. apply digits_unique. rewrite Hm. unfold fprec.
    replace (2 ^ (53 - 1)) with (2 ^ (d - 1) * 2 ^ (- (d - 53))) by (rewrite <- Z.pow_add_r by lia; f_equal; lia).
    replace (2 ^ 53) with (2 ^ d * 2 ^ (- (d - 53))) by (rewrite <- Z.pow_add_r by lia; f_equal; lia).
    assert (0 < 2 ^ (- (d - 53))) by (apply Z.pow_pos_nonneg; lia). split; [apply Z.mul_le_mono_nonneg_r|apply Z.mul_lt_mono_pos_r]; lia. }
  assert (Hshl : exists m, shl_align p 0 (d - 53) = (m, d - 53) /\ Z.pos m = Z.pos p * 2 ^ (- (d - 53))).
  { unfold shl_align. rewrite Z.sub_0_r. destruct (d - 53) as [|k|k] eqn:Ek; [|lia|].
    - exists p. split; [done|]. cbn. lia.
    - exists (Pos.iter xO p k). split; [done|]. change (Pos.iter xO p k) with (shift_pos k p).
      rewrite shift_pos_correct. change (2 ^ - Z.neg k) with (Z.pow_pos 2 k). apply Z.mul_comm. }
  destruct Hshl as (m & Hs & Hm). exists m, (d - 53).
  assert (Hn : Z.pos (digits2_pos m) = fprec) by by apply (Hnorm m (d - 53)).
  split_and!; try done; try lia. unfold of_int, binary_normalize, binary_round. rewrite Z.add_0_r. fold d.
  replace (fexp fprec femax d) with (d - 53) by (unfold fexp, emin, fprec, femax; lia).
  rewrite Hs. apply round_normal; [done|lia].
Qed.

(** A float times one. *)
Lemma fmul_one m e : Z.pos (digits2_pos m) = fprec -> -1022 <= e <= 971 ->
  fmul (S754_finite false m e) float_one = S754_finite false m e.
Proof.
  intros Hd He. assert (E1 : float_one = S754_finite false (2 ^ 52)%positive (-52)) by (vm_compute; reflexivity).
  unfold fmul. rewrite E1. cbn [SFmul xorb]. unfold binary_round_aux.
  assert (Hd2 : Z.pos (digits2_pos (m * 2 ^ 52)) = 105).
  { apply digits_unique. pose proof (digits_spec m) as H. rewrite Hd in H. unfold fprec in H. rewrite Pos2Z.inj_mul.
    change (Z.pos (2 ^ 52)) with (2 ^ 52). change (2 ^ (105 - 1)) with (2 ^ (53 - 1) * 2 ^ 52).
    change (2 ^ 105) with (2 ^ 53 * 2 ^ 52). lia. }
  assert (Hs : shr_fexp fprec femax (Z.pos (m * 2 ^ 52)) (e + -52) loc_Exact =
    ({| shr_m := Z.pos m; shr_r := false; shr_s := false |}, e)).
  { unfold shr_fexp. cbn [Zdigits2]. rewrite Hd2. unfold fexp, emin, fprec, femax.
    replace (Z.max (105 + (e + -52) - 53) (3 - 1024 - 53) - (e + -52)) with 52 by lia.
    rewrite Pos.mul_comm. cbn -[Z.add]. f_equal. lia. }
  rewrite Hs. cbn [shr_m loc_of_shr_record round_nearest_even].
  pose proof (round_normal m e Hd ltac:(lia)) as Hn. unfold binary_round_aux in Hn.
  assert (Hs2 : shr_fexp fprec femax (Z.pos m) e loc_Exact = ({| shr_m := Z.pos m; shr_r := false; shr_s := false |}, e)).
  { unfold shr_fexp. cbn [Zdigits2]. rewrite Hd. unfold fexp, emin, fprec, femax.
    replace (Z.max (53 + e - 53) (3 - 1024 - 53) - e) with 0 by lia. done. }
  rewrite Hs2 in Hn |- *. cbn [shr_m loc_of_shr_record round_nearest_even] in Hn. rewrite Hs2 in Hn. exact Hn.
Qed.
