(* ===== verification/Canonical.v ===== *)
(** * The canonical request

    [backend/internal/gatewaycore/model.go]: the protocols and lanes of the
    gateway, the request every protocol is brought to, and the identity it runs
    under.  Of the protocol's text only the limit on output tokens is kept; the
    embedding request, the input artifact and the raw transport are left out. *)

From S2P Require Import Prelude.

Definition ProtocolOpenAIModels := "openai_models"%string.
Definition ProtocolOpenAIChat := "openai_chat_completions"%string.
Definition ProtocolOpenAIImages := "openai_images_generations"%string.
Definition ProtocolOpenAIMedia := "openai_media_generations"%string.
Definition ProtocolOpenAIAudioTranscriptions := "openai_audio_transcriptions"%string.
Definition ProtocolOpenAIAudioTranslations := "openai_audio_translations"%string.
Definition ProtocolOpenAIAudioSpeech := "openai_audio_speech"%string.
Definition ProtocolOpenAIResponses := "openai_responses"%string.
Definition ProtocolOpenAIEmbeddings := "openai_embeddings"%string.
Definition ProtocolAnthropicMessages := "anthropic_messages"%string.
Definition ProtocolAnthropicCountTokens := "anthropic_count_tokens"%string.
Definition ProtocolGeminiGenerate := "gemini_generate_content"%string.
Definition ProtocolRealtime := "realtime"%string.
Definition ProtocolAsterJobs := "aster_jobs"%string.
Definition LaneDirect := "direct"%string.
Definition LaneDurable := "durable"%string.
Definition CredentialSourceAPIKey := "api_key"%string.
Definition CredentialSourceHMACContext := "hmac_context"%string.
Definition CredentialSourceJWTJWKS := "jwt_jwks"%string.

Module CanonicalRequest.
Record t := mk {
  ID : string;
  ClientRequestID : string;
  Fingerprint : string;
  Protocol : string;
  Operation : string;
  Modality : string;
  Lane : string;
  Model : string;
  Stream : bool;
  MessageCount : Z;
  IdempotencyKey : string;
  StickyKey : string;
  ResponseMode : string;
  PreviewMode : string;
  DeliveryMode : string;
  OutputCount : Z;
  VideoDurationMS : Z;
  AudioDurationMS : Z;
  InputAudioDurationMS : Z;
  InputCharacters : Z;
  SourceIP : string;
  TextMaxOutputTokens : option Z;   (* Text.Generation.MaxOutputTokens, None when Text is nil *)
  Payload : string;
}.
#[export] Instance settable : Settable t := fun r => mk
  (ID r) (ClientRequestID r) (Fingerprint r) (Protocol r) (Operation r) (Modality r) (Lane r)
  (Model r) (Stream r) (MessageCount r) (IdempotencyKey r) (StickyKey r) (ResponseMode r)
  (PreviewMode r) (DeliveryMode r) (OutputCount r) (VideoDurationMS r) (AudioDurationMS r)
  (InputAudioDurationMS r) (InputCharacters r) (SourceIP r) (TextMaxOutputTokens r) (Payload r).
Definition zero : t := mk
  "" "" "" "" "" "" "" "" false 0 "" "" "" "" "" 0 0 0 0 0 "" None "".
End CanonicalRequest.
Export (hints) CanonicalRequest.

Module CanonicalLimits.
Record t := mk {
  QPSLimit : Z;
  RPMLimit : Z;
  TPMLimit : Z;
  ConcurrencyLimit : Z;
  ApplicationConcurrencyLimit : Z;
  MonthlyTokenLimit : Z;
  MonthlyBudgetMicros : Z;
  MonthlyImageLimit : Z;
  MonthlyVideoSecondsLimit : Z;
  MonthlyAudioSecondsLimit : Z;
}.
#[export] Instance settable : Settable t := fun r => mk
  (QPSLimit r) (RPMLimit r) (TPMLimit r) (ConcurrencyLimit r) (ApplicationConcurrencyLimit r)
  (MonthlyTokenLimit r) (MonthlyBudgetMicros r) (MonthlyImageLimit r)
  (MonthlyVideoSecondsLimit r) (MonthlyAudioSecondsLimit r).
Definition zero : t := mk
  0 0 0 0 0 0 0 0 0 0.
End CanonicalLimits.
Export (hints) CanonicalLimits.

Module CanonicalAuthContext.
Record t := mk {
  CredentialSource : string;
  CredentialID : string;
  CredentialFingerprint : string;
  IntegrationID : string;
  ApplicationID : string;
  PrincipalType : string;
  PrincipalID : string;
  ExternalSubjectReference : string;
  PolicyID : string;
  PolicyVersion : Z;
  RoutingPolicyID : string;
  Scopes : list string;
  AllowedModels : list string;
  AllowedModalities : list string;
  AllowedOperations : list string;
  AllowedCIDRs : list string;
  Limits : CanonicalLimits.t;
  LanePolicy : string;
  ArtifactPolicy : string;
  ArtifactSinkID : string;
}.
#[export] Instance settable : Settable t := fun r => mk
  (CredentialSource r) (CredentialID r) (CredentialFingerprint r) (IntegrationID r)
  (ApplicationID r) (PrincipalType r) (PrincipalID r) (ExternalSubjectReference r) (PolicyID r)
  (PolicyVersion r) (RoutingPolicyID r) (Scopes r) (AllowedModels r) (AllowedModalities r)
  (AllowedOperations r) (AllowedCIDRs r) (Limits r) (LanePolicy r) (ArtifactPolicy r)
  (ArtifactSinkID r).
Definition zero : t := mk
  "" "" "" "" "" "" "" "" "" 0 "" [] [] [] [] [] CanonicalLimits.zero "" "" "".
End CanonicalAuthContext.
Export (hints) CanonicalAuthContext.
