(* ===== verification/AccessModel.v ===== *)
(** * Gateway access: records

    The keys, policies, applications and principals of
    [backend/internal/controlplane] ([model.go], [governance_policy_model.go],
    [risk_block.go]), with the constants of the gateway's scopes, operations and
    modalities. *)

From S2P Require Import Prelude Canonical.

Definition APIKeyStatusActive := "active"%string.
Definition APIKeyStatusDisabled := "disabled"%string.
Definition APIKeyLifecycleActive := "active"%string.
Definition APIKeyLifecycleRetiring := "retiring"%string.
Definition APIKeyLifecycleRetired := "retired"%string.
Definition APIKeyLifecycleDisabled := "disabled"%string.
Definition APIKeyTypeWorkspace := "workspace"%string.
Definition APIKeyTypeUser := "user"%string.
Definition APIKeyTypeService := "service"%string.
Definition GatewayScopeInvoke := "gateway:invoke"%string.
Definition GatewayScopeModelsRead := "models:read"%string.
Definition GatewayScopeJobsRead := "jobs:read"%string.
Definition GatewayScopeJobsCancel := "jobs:cancel"%string.
Definition GatewayScopeJobsActions := "jobs:actions"%string.
Definition GatewayScopeArtifactsRead := "artifacts:read"%string.
Definition GatewayScopeArtifactsWrite := "artifacts:write"%string.
Definition GatewayScopeArtifactsDelete := "artifacts:delete"%string.
Definition GatewayOperationListModels := "list_models"%string.
Definition GatewayOperationChatCompletion := "chat_completion"%string.
Definition GatewayOperationCountTokens := "count_tokens"%string.
Definition GatewayOperationEmbedding := "embedding"%string.
Definition GatewayOperationImageGeneration := "image_generation"%string.
Definition GatewayOperationVideoGeneration := "video_generation"%string.
Definition GatewayOperationAudioGeneration := "audio_generation"%string.
Definition GatewayOperationAudioTranscription := "audio_transcription"%string.
Definition GatewayOperationAudioTranslation := "audio_translation"%string.
Definition GatewayOperationSpeechGeneration := "speech_generation"%string.
Definition GatewayOperationRealtimeSession := "realtime_session"%string.
Definition GatewayModalityMetadata := "metadata"%string.
Definition GatewayModalityText := "text"%string.
Definition GatewayModalityEmbedding := "embedding"%string.
Definition GatewayModalityImage := "image"%string.
Definition GatewayModalityVideo := "video"%string.
Definition GatewayModalityAudio := "audio"%string.
Definition GatewayLanePolicyDirectOnly := "direct_only"%string.
Definition GatewayLanePolicyDurableOnly := "durable_only"%string.
Definition GatewayLanePolicyDirectAndDurable := "direct_and_durable"%string.
Definition ApplicationStatusActive := "active"%string.
Definition ApplicationStatusDisabled := "disabled"%string.
Definition GatewayPrincipalStatusActive := "active"%string.
Definition GatewayPrincipalStatusDisabled := "disabled"%string.
Definition GatewayPrincipalTypeService := "service"%string.
Definition GatewayPrincipalTypeDeveloper := "developer"%string.
Definition GatewayPrincipalTypeIntegration := "integration"%string.
Definition ExternalAuthIntegrationStatusActive := "active"%string.
Definition ExternalAuthIntegrationStatusDisabled := "disabled"%string.
Definition ExternalAuthIntegrationProtocolHMAC := "hmac_signed_context"%string.
Definition ExternalAuthIntegrationProtocolJWT := "jwt_jwks"%string.
Definition GovernancePolicyStatusActive := "active"%string.
Definition GovernancePolicyStatusDisabled := "disabled"%string.
Definition GovernancePolicyScopeGlobal := "global"%string.
Definition GovernancePolicyScopeAPIKey := "api_key"%string.
Definition GovernancePolicyOverageBlock := "block"%string.
Definition GovernancePolicyOverageWarn := "warn"%string.
Definition GovernancePolicyOverageFallback := "fallback"%string.
Definition GovernancePolicyPromptLoggingDisabled := "disabled"%string.
Definition GovernancePolicyPromptLoggingMetadataOnly := "metadata_only"%string.
Definition GovernancePolicyPromptLoggingRedacted := "redacted"%string.
Definition GatewayPolicySourceAPIKeyExplicit := "api_key_explicit"%string.
Definition GatewayPolicySourceAPIKeyScope := "api_key_scope"%string.
Definition GatewayPolicySourceGlobalScope := "global_scope"%string.
Definition GatewayPolicySourceExternalAuthIntegration := "external_auth_integration"%string.
Definition defaultApplicationID := "app_default"%string.
Definition gatewayDefaultApplicationID : string := defaultApplicationID.

Definition ErrGatewayUnauthorized : go_error := ErrNew "invalid gateway api key".
Definition WorkspaceUserStatusActive := "active"%string.
Definition WorkspaceUserStatusDisabled := "disabled"%string.

Module APIKeyRecord.
Record t := mk {
  ID : string;
  Name : string;
  KeyHash : string;
  Fingerprint : string;
  Prefix : string;
  Status : string;
  KeyType : string;
  OwnerUserID : string;
  ApplicationID : string;
  GatewayPrincipalID : string;
  PrincipalType : string;
  PrincipalReference : string;
  PolicyID : string;
  RoutingPolicyID : string;
  Scopes : list string;
  ModelAllowlist : list string;
  AllowedModalities : list string;
  AllowedOperations : list string;
  QPSLimit : Z;
  RPMLimit : Z;
  TPMLimit : Z;
  ConcurrencyLimit : Z;
  MonthlyTokenLimit : Z;
  MonthlyBudgetMicros : Z;
  MonthlyImageLimit : Z;
  MonthlyVideoSecondsLimit : Z;
  MonthlyAudioSecondsLimit : Z;
  AllowedCIDRs : list string;
  LanePolicy : string;
  ArtifactPolicy : string;
  ArtifactSinkID : string;
  RotationFamilyID : string;
  ReplacesKeyID : string;
  ReplacedByKeyID : string;
  RotationGraceExpiresAt : option time;
  LifecycleStatus : string;
  ExpiresAt : option time;
  LastUsedAt : option time;
  CreatedAt : time;
  UpdatedAt : time;
}.
#[export] Instance settable : Settable t := fun r => mk
  (ID r) (Name r) (KeyHash r) (Fingerprint r) (Prefix r) (Status r) (KeyType r) (OwnerUserID r)
  (ApplicationID r) (GatewayPrincipalID r) (PrincipalType r) (PrincipalReference r)
  (PolicyID r) (RoutingPolicyID r) (Scopes r) (ModelAllowlist r) (AllowedModalities r)
  (AllowedOperations r) (QPSLimit r) (RPMLimit r) (TPMLimit r) (ConcurrencyLimit r)
  (MonthlyTokenLimit r) (MonthlyBudgetMicros r) (MonthlyImageLimit r)
  (MonthlyVideoSecondsLimit r) (MonthlyAudioSecondsLimit r) (AllowedCIDRs r) (LanePolicy r)
  (ArtifactPolicy r) (ArtifactSinkID r) (RotationFamilyID r) (ReplacesKeyID r)
  (ReplacedByKeyID r) (RotationGraceExpiresAt r) (LifecycleStatus r) (ExpiresAt r)
  (LastUsedAt r) (CreatedAt r) (UpdatedAt r).
Definition zero : t := mk
  "" "" "" "" "" "" "" "" "" "" "" "" "" "" [] [] [] [] 0 0 0 0 0 0 0 0 0 [] "" "" "" "" "" ""
  None "" None None 0 0.
End APIKeyRecord.
Export (hints) APIKeyRecord.

Module APIKeyCreateRequest.
Record t := mk {
  Name : string;
  PolicyID : string;
  RoutingPolicyID : string;
  Scopes : list string;
  ModelAllowlist : list string;
  AllowedModalities : list string;
  AllowedOperations : list string;
  QPSLimit : Z;
  RPMLimit : Z;
  TPMLimit : Z;
  ConcurrencyLimit : Z;
  MonthlyTokenLimit : Z;
  MonthlyBudgetMicros : Z;
  MonthlyImageLimit : Z;
  MonthlyVideoSecondsLimit : Z;
  MonthlyAudioSecondsLimit : Z;
  AllowedCIDRs : list string;
  LanePolicy : string;
  ArtifactPolicy : string;
  ArtifactSinkID : string;
  ExpiresAt : string;
  KeyType : string;
  OwnerUserID : string;
  ApplicationID : string;
  GatewayPrincipalID : string;
}.
#[export] Instance settable : Settable t := fun r => mk
  (Name r) (PolicyID r) (RoutingPolicyID r) (Scopes r) (ModelAllowlist r) (AllowedModalities r)
  (AllowedOperations r) (QPSLimit r) (RPMLimit r) (TPMLimit r) (ConcurrencyLimit r)
  (MonthlyTokenLimit r) (MonthlyBudgetMicros r) (MonthlyImageLimit r)
  (MonthlyVideoSecondsLimit r) (MonthlyAudioSecondsLimit r) (AllowedCIDRs r) (LanePolicy r)
  (ArtifactPolicy r) (ArtifactSinkID r) (ExpiresAt r) (KeyType r) (OwnerUserID r)
  (ApplicationID r) (GatewayPrincipalID r).
Definition zero : t := mk
  "" "" "" [] [] [] [] 0 0 0 0 0 0 0 0 0 [] "" "" "" "" "" "" "" "".
End APIKeyCreateRequest.
Export (hints) APIKeyCreateRequest.

Module APIKeyUpdateRequest.
Record t := mk {
  Name : string;
  PolicyID : string;
  RoutingPolicyID : string;
  Scopes : list string;
  ModelAllowlist : list string;
  AllowedModalities : list string;
  AllowedOperations : list string;
  QPSLimit : Z;
  RPMLimit : Z;
  TPMLimit : Z;
  ConcurrencyLimit : Z;
  MonthlyTokenLimit : Z;
  MonthlyBudgetMicros : Z;
  MonthlyImageLimit : Z;
  MonthlyVideoSecondsLimit : Z;
  MonthlyAudioSecondsLimit : Z;
  AllowedCIDRs : list string;
  LanePolicy : string;
  ArtifactPolicy : string;
  ArtifactSinkID : string;
  ExpiresAt : string;
  Status : string;
  KeyType : string;
  OwnerUserID : string;
  ApplicationID : string;
  GatewayPrincipalID : string;
}.
#[export] Instance settable : Settable t := fun r => mk
  (Name r) (PolicyID r) (RoutingPolicyID r) (Scopes r) (ModelAllowlist r) (AllowedModalities r)
  (AllowedOperations r) (QPSLimit r) (RPMLimit r) (TPMLimit r) (ConcurrencyLimit r)
  (MonthlyTokenLimit r) (MonthlyBudgetMicros r) (MonthlyImageLimit r)
  (MonthlyVideoSecondsLimit r) (MonthlyAudioSecondsLimit r) (AllowedCIDRs r) (LanePolicy r)
  (ArtifactPolicy r) (ArtifactSinkID r) (ExpiresAt r) (Status r) (KeyType r) (OwnerUserID r)
  (ApplicationID r) (GatewayPrincipalID r).
Definition zero : t := mk
  "" "" "" [] [] [] [] 0 0 0 0 0 0 0 0 0 [] "" "" "" "" "" "" "" "" "".
End APIKeyUpdateRequest.
Export (hints) APIKeyUpdateRequest.

Module Application.
Record t := mk {
  ID : string;
  Name : string;
  Slug : string;
  EntitlementReference : string;
  ConcurrencyLimit : Z;
  Status : string;
  CreatedAt : time;
  UpdatedAt : time;
}.
#[export] Instance settable : Settable t := fun r => mk
  (ID r) (Name r) (Slug r) (EntitlementReference r) (ConcurrencyLimit r) (Status r)
  (CreatedAt r) (UpdatedAt r).
Definition zero : t := mk
  "" "" "" "" 0 "" 0 0.
End Application.
Export (hints) Application.

Module GatewayPrincipal.
Record t := mk {
  ID : string;
  ApplicationID : string;
  Name : string;
  PrincipalType : string;
  ExternalSubjectReference : string;
  Status : string;
  CreatedAt : time;
  UpdatedAt : time;
}.
#[export] Instance settable : Settable t := fun r => mk
  (ID r) (ApplicationID r) (Name r) (PrincipalType r) (ExternalSubjectReference r) (Status r)
  (CreatedAt r) (UpdatedAt r).
Definition zero : t := mk
  "" "" "" "" "" "" 0 0.
End GatewayPrincipal.
Export (hints) GatewayPrincipal.

Module ExternalAuthIntegration.
Record t := mk {
  ID : string;
  ApplicationID : string;
  GatewayPrincipalID : string;
  Name : string;
  Protocol : string;
  KeyID : string;
  SecretConfigured : bool;
  SecretHint : string;
  SecretCiphertext : string;
  Issuer : string;
  JWKSURL : string;
  SubjectClaim : string;
  ModelsClaim : string;
  QPSLimitClaim : string;
  MonthlyTokenClaim : string;
  Audience : string;
  PolicyID : string;
  ModelAllowlist : list string;
  QPSLimit : Z;
  MonthlyTokenLimit : Z;
  MaxTTLSeconds : Z;
  Status : string;
  CreatedAt : time;
  UpdatedAt : time;
}.
#[export] Instance settable : Settable t := fun r => mk
  (ID r) (ApplicationID r) (GatewayPrincipalID r) (Name r) (Protocol r) (KeyID r)
  (SecretConfigured r) (SecretHint r) (SecretCiphertext r) (Issuer r) (JWKSURL r)
  (SubjectClaim r) (ModelsClaim r) (QPSLimitClaim r) (MonthlyTokenClaim r) (Audience r)
  (PolicyID r) (ModelAllowlist r) (QPSLimit r) (MonthlyTokenLimit r) (MaxTTLSeconds r)
  (Status r) (CreatedAt r) (UpdatedAt r).
Definition zero : t := mk
  "" "" "" "" "" "" false "" "" "" "" "" "" "" "" "" "" [] 0 0 0 "" 0 0.
End ExternalAuthIntegration.
Export (hints) ExternalAuthIntegration.

Module GovernancePolicy.
Record t := mk {
  ID : string;
  Name : string;
  Description : string;
  Version : Z;
  LastUpdatedBy : string;
  ScopeType : string;
  ScopeID : string;
  ModelAllowlist : list string;
  ModelDenylist : list string;
  QPSLimit : Z;
  MonthlyTokenLimit : Z;
  MonthlyBudgetMicros : Z;
  OverageAction : string;
  PromptLoggingMode : string;
  RetentionDays : Z;
  ToolCallAllowed : bool;
  ImageInputAllowed : bool;
  WebAccessAllowed : bool;
  Status : string;
  CreatedAt : time;
  UpdatedAt : time;
}.
#[export] Instance settable : Settable t := fun r => mk
  (ID r) (Name r) (Description r) (Version r) (LastUpdatedBy r) (ScopeType r) (ScopeID r)
  (ModelAllowlist r) (ModelDenylist r) (QPSLimit r) (MonthlyTokenLimit r)
  (MonthlyBudgetMicros r) (OverageAction r) (PromptLoggingMode r) (RetentionDays r)
  (ToolCallAllowed r) (ImageInputAllowed r) (WebAccessAllowed r) (Status r) (CreatedAt r)
  (UpdatedAt r).
Definition zero : t := mk
  "" "" "" 0 "" "" "" [] [] 0 0 0 "" "" 0 false false false "" 0 0.
End GovernancePolicy.
Export (hints) GovernancePolicy.

Module GatewayPolicyCandidate.
Record t := mk {
  PolicyID : string;
  PolicyName : string;
  PolicyVersion : Z;
  Source : string;
  ScopeType : string;
  ScopeID : string;
  Status : string;
  Matched : bool;
  Selected : bool;
  Reason : string;
}.
#[export] Instance settable : Settable t := fun r => mk
  (PolicyID r) (PolicyName r) (PolicyVersion r) (Source r) (ScopeType r) (ScopeID r) (Status r)
  (Matched r) (Selected r) (Reason r).
Definition zero : t := mk
  "" "" 0 "" "" "" "" false false "".
End GatewayPolicyCandidate.
Export (hints) GatewayPolicyCandidate.

Module GatewayPolicyExplanation.
Record t := mk {
  APIKeyID : string;
  SelectedPolicyID : string;
  SelectedPolicyName : string;
  SelectedPolicyVersion : Z;
  SelectedSource : string;
  Candidates : list GatewayPolicyCandidate.t;
}.
#[export] Instance settable : Settable t := fun r => mk
  (APIKeyID r) (SelectedPolicyID r) (SelectedPolicyName r) (SelectedPolicyVersion r)
  (SelectedSource r) (Candidates r).
Definition zero : t := mk
  "" "" "" 0 "" [].
End GatewayPolicyExplanation.
Export (hints) GatewayPolicyExplanation.

Module GovernancePolicyRequest.
Record t := mk {
  Name : string;
  Description : string;
  ScopeType : string;
  ScopeID : string;
  ModelAllowlist : list string;
  ModelDenylist : list string;
  QPSLimit : Z;
  MonthlyTokenLimit : Z;
  MonthlyBudgetMicros : Z;
  OverageAction : string;
  PromptLoggingMode : string;
  RetentionDays : Z;
  ToolCallAllowed : bool;
  ImageInputAllowed : bool;
  WebAccessAllowed : bool;
  Status : string;
}.
#[export] Instance settable : Settable t := fun r => mk
  (Name r) (Description r) (ScopeType r) (ScopeID r) (ModelAllowlist r) (ModelDenylist r)
  (QPSLimit r) (MonthlyTokenLimit r) (MonthlyBudgetMicros r) (OverageAction r)
  (PromptLoggingMode r) (RetentionDays r) (ToolCallAllowed r) (ImageInputAllowed r)
  (WebAccessAllowed r) (Status r).
Definition zero : t := mk
  "" "" "" "" [] [] 0 0 0 "" "" 0 false false false "".
End GovernancePolicyRequest.
Export (hints) GovernancePolicyRequest.

Module GatewayRiskBlock.
Record t := mk {
  APIKeyID : string;
  RuleID : string;
  Reason : string;
  ExpiresAt : time;
  CreatedAt : time;
}.
#[export] Instance settable : Settable t := fun r => mk
  (APIKeyID r) (RuleID r) (Reason r) (ExpiresAt r) (CreatedAt r).
Definition zero : t := mk
  "" "" "" 0 0.
End GatewayRiskBlock.
Export (hints) GatewayRiskBlock.

Module GatewayAuthContext.
Record t := mk {
  APIKey : APIKeyRecord.t;
  Policy : option GovernancePolicy.t;
  PolicySource : string;
  Application : option Application.t;
  GatewayPrincipal : option GatewayPrincipal.t;
  ExternalAuthIntegration : option ExternalAuthIntegration.t;
  ExternalSubjectReference : string;
}.
#[export] Instance settable : Settable t := fun r => mk
  (APIKey r) (Policy r) (PolicySource r) (Application r) (GatewayPrincipal r)
  (ExternalAuthIntegration r) (ExternalSubjectReference r).
Definition zero : t := mk
  APIKeyRecord.zero None "" None None None "".
End GatewayAuthContext.
Export (hints) GatewayAuthContext.

Module WorkspaceUser.
Record t := mk {
  ID : string;
  Email : string;
  EmailNormalized : string;
  DisplayName : string;
  AvatarDataURL : string;
  Status : string;
  Role : string;
  ConcurrencyLimit : Z;
  RPMLimit : Z;
  ExternalIssuer : string;
  ExternalSubject : string;
  DepartmentID : string;
  TOTPEnabled : bool;
  TOTPSecretCiphertext : string;
  TOTPRecoveryHashes : list string;
  PasswordHash : string;
  EmailVerified : bool;
  EmailVerifyHash : string;
  EmailVerifyExpiresAt : option time;
  EmailVerifySentAt : option time;
  PasswordResetHash : string;
  PasswordResetExpiresAt : option time;
  PasswordResetSentAt : option time;
  SessionVersion : Z;
  CreatedAt : time;
  UpdatedAt : time;
}.
#[export] Instance settable : Settable t := fun r => mk
  (ID r) (Email r) (EmailNormalized r) (DisplayName r) (AvatarDataURL r) (Status r) (Role r)
  (ConcurrencyLimit r) (RPMLimit r) (ExternalIssuer r) (ExternalSubject r) (DepartmentID r)
  (TOTPEnabled r) (TOTPSecretCiphertext r) (TOTPRecoveryHashes r) (PasswordHash r)
  (EmailVerified r) (EmailVerifyHash r) (EmailVerifyExpiresAt r) (EmailVerifySentAt r)
  (PasswordResetHash r) (PasswordResetExpiresAt r) (PasswordResetSentAt r) (SessionVersion r)
  (CreatedAt r) (UpdatedAt r).
Definition zero : t := mk
  "" "" "" "" "" "" "" 0 0 "" "" "" false "" [] "" false "" None None "" None None 0 0 0.
End WorkspaceUser.
Export (hints) WorkspaceUser.
