(* ===== verification/RoutingModel.v ===== *)
(** * Gateway routing: records

    Providers, accounts, routing policies, gateway models and routes
    ([backend/internal/controlplane/model.go], [gateway_model_model.go]), the
    candidates of a plan ([gateway_pipeline.go]), procurement prices, decisions on
    effective prices and affinity bindings ([effective_pricing_model.go]). *)

From S2P Require Import Prelude Float64 Canonical.
From Stdlib Require Import Floats.SpecFloat.

Definition ProviderStatusActive := "active"%string.
Definition ProviderStatusDisabled := "disabled"%string.
Definition AccountStatusActive := "active"%string.
Definition AccountStatusError := "error"%string.
Definition AccountStatusDisabled := "disabled"%string.
Definition CircuitStateClosed := "closed"%string.
Definition CircuitStateOpen := "open"%string.
Definition CircuitStateHalfOpen := "half_open"%string.
Definition RoutingGroupStatusActive := "active"%string.
Definition RoutingGroupStatusDisabled := "disabled"%string.
Definition RoutingGroupTypeStandard := "standard"%string.
Definition RoutingGroupTypeSubscription := "subscription"%string.
Definition RoutingGroupTypeExclusive := "exclusive"%string.
Definition RoutingGroupTypeImageGeneration := "image_generation"%string.
Definition RoutingGroupTypeVideoGeneration := "video_generation"%string.
Definition RoutingPolicyStatusActive := "active"%string.
Definition RoutingPolicyStatusDisabled := "disabled"%string.
Definition RoutingPolicyPresetCost := "cost"%string.
Definition RoutingPolicyPresetSpeed := "speed"%string.
Definition RoutingPolicyPresetStability := "stability"%string.
Definition RoutingPolicyPresetBalanced := "balanced"%string.
Definition RoutingPolicyLowPriceAuto := "auto"%string.
Definition RoutingPolicyLowPriceStrict := "strict"%string.
Definition RoutingPolicyLowPricePercent := "percentile"%string.
Definition RoutingPolicyLowPriceNone := "none"%string.
Definition RoutingPolicyMissingPriceAllow := "allow"%string.
Definition RoutingPolicyMissingPriceBlock := "block"%string.
Definition ProviderTypeOpenAICompatible := "openai_compatible"%string.
Definition ProviderTypeAnthropicCompatible := "anthropic_compatible"%string.
Definition ProviderTypeGeminiCompatible := "gemini_compatible"%string.
Definition ProviderTypeAWSBedrock := "aws_bedrock"%string.
Definition ProviderTypeGCPVertex := "gcp_vertex"%string.
Definition ProviderTypeAzureOpenAI := "azure_openai"%string.
Definition ProviderAuthAPIKey := "api_key"%string.
Definition ProviderAuthBearer := "bearer"%string.
Definition ProviderAuthAWSDefault := "aws_default_chain"%string.
Definition ProviderAuthAWSAccessKey := "aws_access_key"%string.
Definition ProviderAuthGCPADC := "gcp_adc"%string.
Definition ProviderAuthGCPServiceAccount := "gcp_service_account"%string.
Definition ProviderAuthAzureManagedIdentity := "azure_managed_identity"%string.
Definition ProviderAccountAdapterConfigSettings := "asterrouter_settings"%string.
Definition GatewayModelStatusActive := "active"%string.
Definition GatewayModelStatusDisabled := "disabled"%string.
Definition ModelRouteStatusActive := "active"%string.
Definition ModelRouteStatusDisabled := "disabled"%string.
Definition DefaultModelRouteGroup := "default"%string.
Definition UpstreamFormatOpenAIChat := "openai_chat"%string.
Definition UpstreamFormatOpenAIResponses := "openai_responses"%string.
Definition UpstreamFormatOpenAIEmbeddings := "openai_embeddings"%string.
Definition UpstreamFormatAnthropic := "anthropic_messages"%string.
Definition UpstreamFormatGemini := "gemini_generate_content"%string.
Definition UpstreamFormatBedrockConverse := "bedrock_converse"%string.
Definition UpstreamFormatNativeMedia := "native_media"%string.
Definition defaultEffectivePricingPolicyID := "default"%string.
Definition ProcurementPriceStatusActive := "active"%string.
Definition ProcurementPriceStatusDisabled := "disabled"%string.
Definition ProcurementCostConfidenceExact := "exact"%string.
Definition ProcurementCostConfidenceDerived := "derived"%string.
Definition ProcurementCostConfidenceEstimated := "estimated"%string.
Definition ProcurementCostConfidenceUnallocated := "unallocated"%string.
Definition ProcurementCostConfidenceUnknown := "unknown"%string.
Definition CacheSupportUnknown := "unknown"%string.
Definition CacheSupportClaimed := "claimed"%string.
Definition CacheSupportAccepted := "accepted"%string.
Definition CacheSupportObserved := "observed"%string.
Definition CacheSupportBilledVerified := "billed_verified"%string.
Definition CacheSupportDegraded := "degraded"%string.
Definition CacheSupportUnsupported := "unsupported"%string.
Definition PoolAffinityUnknown := "unknown"%string.
Definition PoolAffinityVerified := "verified"%string.
Definition PoolAffinityProbable := "probable"%string.
Definition PoolAffinityOpaque := "opaque"%string.
Definition PoolAffinityFragmented := "fragmented"%string.
Definition AffinityTransportNone := "none"%string.
Definition AffinityTransportHeader := "header"%string.
Definition AffinityTransportBody := "body"%string.
Definition CacheControlModePassthrough := "passthrough_if_present"%string.
Definition CacheControlModePromptCacheKey := "prompt_cache_key"%string.
Definition EffectivePricingModeObserveOnly := "observe_only"%string.
Definition EffectivePricingModeRecommend := "recommend"%string.
Definition EffectivePricingModeCanary := "canary"%string.
Definition EffectivePricingModeBalanced := "balanced"%string.
Definition EffectivePricingModeCostFirst := "cost_first"%string.
Definition EffectivePricingModeFixedRoute := "fixed_route"%string.
Definition EffectivePricingDecisionHold := "hold"%string.
Definition EffectivePricingDecisionRecommended := "recommended"%string.
Definition EffectivePricingDecisionCanary := "canary"%string.
Definition EffectivePricingDecisionActive := "active"%string.
Definition EffectivePricingDecisionRolledBack := "rolled_back"%string.
Definition EffectivePricingDecisionDegraded := "degraded"%string.
Definition EffectivePricingDecisionEmergencyFailover := "emergency_failover"%string.
Definition EffectivePricingEvaluationHealthy := "healthy"%string.
Definition EffectivePricingEvaluationDegraded := "degraded"%string.
Definition EffectivePricingEvaluationInconclusive := "inconclusive"%string.
Definition CacheProbeStatusRunning := "running"%string.
Definition CacheProbeStatusSucceeded := "succeeded"%string.
Definition CacheProbeStatusFailed := "failed"%string.
Definition CacheProbeStatusSkipped := "skipped"%string.
Definition BillingReconciliationPending := "pending"%string.
Definition BillingReconciliationMatched := "matched"%string.
Definition BillingReconciliationAmbiguous := "ambiguous"%string.
Definition BillingReconciliationUnallocated := "unallocated"%string.
Definition AffinityBindingSupplier := "supplier"%string.
Definition AffinityBindingAccount := "account"%string.

Module ProviderConnection.
Record t := mk {
  ID : string;
  Name : string;
  Type_ : string;
  BaseURL : string;
  Status : string;
  Priority : Z;
  CreatedAt : time;
  UpdatedAt : time;
}.
#[export] Instance settable : Settable t := fun r => mk
  (ID r) (Name r) (Type_ r) (BaseURL r) (Status r) (Priority r) (CreatedAt r) (UpdatedAt r).
Definition zero : t := mk
  "" "" "" "" "" 0 0 0.
End ProviderConnection.
Export (hints) ProviderConnection.

Module RoutingPolicyBatch.
Record t := mk {
  Name : string;
  ProviderAccountIDs : list string;
}.
#[export] Instance settable : Settable t := fun r => mk
  (Name r) (ProviderAccountIDs r).
Definition zero : t := mk
  "" [].
End RoutingPolicyBatch.
Export (hints) RoutingPolicyBatch.

Module RoutingPolicyModelPriceLimit.
Record t := mk {
  Model : string;
  AbsoluteMaxInputPer1M : spec_float;
  AbsoluteMaxOutputPer1M : spec_float;
}.
#[export] Instance settable : Settable t := fun r => mk
  (Model r) (AbsoluteMaxInputPer1M r) (AbsoluteMaxOutputPer1M r).
Definition zero : t := mk
  "" float_zero float_zero.
End RoutingPolicyModelPriceLimit.
Export (hints) RoutingPolicyModelPriceLimit.

Module RoutingPolicyStrategy.
Record t := mk {
  Preset : string;
  SmartOptimization : bool;
  StrictOrder : bool;
  FailoverBeforeFirstByte : bool;
  StickyRouting : bool;
  StickyTTLSeconds : Z;
  NativeProtocolOnly : bool;
  AbsoluteMaxInputPer1M : spec_float;
  AbsoluteMaxOutputPer1M : spec_float;
  MaxPriceMultipleOfCheapest : spec_float;
  LowPricePoolMode : string;
  LowPricePoolPercent : Z;
  LowPricePoolMinCandidates : Z;
  MissingPriceAction : string;
  ModelPriceLimits : list RoutingPolicyModelPriceLimit.t;
  ResourceBatches : list RoutingPolicyBatch.t;
  PreferredProviderAccountIDs : list string;
  AllowedModels : list string;
  DeniedModels : list string;
  AllowedProtocols : list string;
  DeniedProtocols : list string;
}.
#[export] Instance settable : Settable t := fun r => mk
  (Preset r) (SmartOptimization r) (StrictOrder r) (FailoverBeforeFirstByte r)
  (StickyRouting r) (StickyTTLSeconds r) (NativeProtocolOnly r) (AbsoluteMaxInputPer1M r)
  (AbsoluteMaxOutputPer1M r) (MaxPriceMultipleOfCheapest r) (LowPricePoolMode r)
  (LowPricePoolPercent r) (LowPricePoolMinCandidates r) (MissingPriceAction r)
  (ModelPriceLimits r) (ResourceBatches r) (PreferredProviderAccountIDs r) (AllowedModels r)
  (DeniedModels r) (AllowedProtocols r) (DeniedProtocols r).
Definition zero : t := mk
  "" false false false false 0 false float_zero float_zero float_zero "" 0 0 "" [] [] [] [] []
  [] [].
End RoutingPolicyStrategy.
Export (hints) RoutingPolicyStrategy.

Module RoutingPolicy.
Record t := mk {
  ID : string;
  Name : string;
  Description : string;
  RouteGroup : string;
  Status : string;
  IsDefault : bool;
  Strategy : RoutingPolicyStrategy.t;
  Version : Z;
  CreatedAt : time;
  UpdatedAt : time;
}.
#[export] Instance settable : Settable t := fun r => mk
  (ID r) (Name r) (Description r) (RouteGroup r) (Status r) (IsDefault r) (Strategy r)
  (Version r) (CreatedAt r) (UpdatedAt r).
Definition zero : t := mk
  "" "" "" "" "" false RoutingPolicyStrategy.zero 0 0 0.
End RoutingPolicy.
Export (hints) RoutingPolicy.

Module RoutingPolicyRequest.
Record t := mk {
  Name : string;
  Description : string;
  RouteGroup : string;
  Status : string;
  IsDefault : option bool;
  Strategy : RoutingPolicyStrategy.t;
}.
#[export] Instance settable : Settable t := fun r => mk
  (Name r) (Description r) (RouteGroup r) (Status r) (IsDefault r) (Strategy r).
Definition zero : t := mk
  "" "" "" "" None RoutingPolicyStrategy.zero.
End RoutingPolicyRequest.
Export (hints) RoutingPolicyRequest.

Module ProviderAccountTempUnschedulableRule.
Record t := mk {
  StatusCode : Z;
  Keywords : list string;
  DurationMinutes : Z;
}.
#[export] Instance settable : Settable t := fun r => mk
  (StatusCode r) (Keywords r) (DurationMinutes r).
Definition zero : t := mk
  0 [] 0.
End ProviderAccountTempUnschedulableRule.
Export (hints) ProviderAccountTempUnschedulableRule.

Module ProviderAccount.
Record t := mk {
  ID : string;
  ProviderID : string;
  Name : string;
  Platform : string;
  AuthType : string;
  AdapterConfig : gmap string string;
  Status : string;
  Schedulable : bool;
  Priority : Z;
  Weight : Z;
  Concurrency : Z;
  RPMLimit : Z;
  TPMLimit : Z;
  LoadFactor : option Z;
  RateMultiplier : spec_float;
  Models : list string;
  AutoEnableNewModels : bool;
  GroupIDs : list string;
  SecretConfigured : bool;
  SecretHint : string;
  SecretCiphertext : string;
  ErrorMessage : string;
  LastUsedAt : option time;
  ExpiresAt : option time;
  CooldownUntil : option time;
  CircuitState : string;
  CircuitFailureThreshold : Z;
  CircuitOpenSeconds : Z;
  ConsecutiveFailures : Z;
  CircuitOpenedUntil : option time;
  LastFailureAt : option time;
  TempUnschedulableRules : list ProviderAccountTempUnschedulableRule.t;
  TempUnschedulableReason : string;
  CreatedAt : time;
  UpdatedAt : time;
}.
#[export] Instance settable : Settable t := fun r => mk
  (ID r) (ProviderID r) (Name r) (Platform r) (AuthType r) (AdapterConfig r) (Status r)
  (Schedulable r) (Priority r) (Weight r) (Concurrency r) (RPMLimit r) (TPMLimit r)
  (LoadFactor r) (RateMultiplier r) (Models r) (AutoEnableNewModels r) (GroupIDs r)
  (SecretConfigured r) (SecretHint r) (SecretCiphertext r) (ErrorMessage r) (LastUsedAt r)
  (ExpiresAt r) (CooldownUntil r) (CircuitState r) (CircuitFailureThreshold r)
  (CircuitOpenSeconds r) (ConsecutiveFailures r) (CircuitOpenedUntil r) (LastFailureAt r)
  (TempUnschedulableRules r) (TempUnschedulableReason r) (CreatedAt r) (UpdatedAt r).
Definition zero : t := mk
  "" "" "" "" "" ∅ "" false 0 0 0 0 0 None float_zero [] false [] false "" "" "" None None None
  "" 0 0 0 None None [] "" 0 0.
End ProviderAccount.
Export (hints) ProviderAccount.

Module GatewayModel.
Record t := mk {
  ID : string;
  ModelID : string;
  Name : string;
  Description : string;
  Modality : string;
  DefaultRouteGroup : string;
  StickyEnabled : bool;
  StickyTTLSeconds : Z;
  Status : string;
  RouteCount : Z;
  CreatedAt : time;
  UpdatedAt : time;
}.
#[export] Instance settable : Settable t := fun r => mk
  (ID r) (ModelID r) (Name r) (Description r) (Modality r) (DefaultRouteGroup r)
  (StickyEnabled r) (StickyTTLSeconds r) (Status r) (RouteCount r) (CreatedAt r) (UpdatedAt r).
Definition zero : t := mk
  "" "" "" "" "" "" false 0 "" 0 0 0.
End GatewayModel.
Export (hints) GatewayModel.

Module ModelRoute.
Record t := mk {
  ID : string;
  GatewayModelID : string;
  RouteGroup : string;
  ProviderAccountID : string;
  UpstreamModel : string;
  UpstreamFormat : string;
  DisabledReason : string;
  Priority : Z;
  Weight : Z;
  Status : string;
  CreatedAt : time;
  UpdatedAt : time;
}.
#[export] Instance settable : Settable t := fun r => mk
  (ID r) (GatewayModelID r) (RouteGroup r) (ProviderAccountID r) (UpstreamModel r)
  (UpstreamFormat r) (DisabledReason r) (Priority r) (Weight r) (Status r) (CreatedAt r)
  (UpdatedAt r).
Definition zero : t := mk
  "" "" "" "" "" "" "" 0 0 "" 0 0.
End ModelRoute.
Export (hints) ModelRoute.

Module ResolvedGatewayModel.
Record t := mk {
  GatewayModel : GatewayModel.t;
  RequestedID : string;
  RouteGroup : string;
}.
#[export] Instance settable : Settable t := fun r => mk
  (GatewayModel r) (RequestedID r) (RouteGroup r).
Definition zero : t := mk
  GatewayModel.zero "" "".
End ResolvedGatewayModel.
Export (hints) ResolvedGatewayModel.

Module GatewayProvider.
Record t := mk {
  AttemptID : string;
  ID : string;
  Name : string;
  Type_ : string;
  BaseURL : string;
  APIKey : string;
  AuthType : string;
  AdapterConfig : gmap string string;
  AdapterID : string;
  AccountID : string;
  AccountName : string;
  Concurrency : Z;
  GatewayModelID : string;
  RequestedModel : string;
  UpstreamModel : string;
  UpstreamFormat : string;
  RouteID : string;
  RouteGroup : string;
  RoutePriority : Z;
  RouteWeight : Z;
  AccountWeight : Z;
  RPMLimit : Z;
  TPMLimit : Z;
  CircuitState : string;
  CircuitProbe : bool;
  Headroom : spec_float;
  StickyEnabled : bool;
  StickyTTLSeconds : Z;
  RoutingPolicyID : string;
  PolicyBatchOrder : Z;
  PolicyBatchName : string;
  PolicyBatchPosition : Z;
  FailoverEnabled : bool;
  SmartOptimization : bool;
  PriceFactPresent : bool;
  EstimatedInputMicrosPer1M : Z;
  EstimatedOutputMicrosPer1M : Z;
  ObservedSuccessRate : spec_float;
  ObservedAvgLatencyMS : Z;
  ObservedSampleCount : Z;
  Source : string;
  SelectionReason : string;
}.
#[export] Instance settable : Settable t := fun r => mk
  (AttemptID r) (ID r) (Name r) (Type_ r) (BaseURL r) (APIKey r) (AuthType r) (AdapterConfig r)
  (AdapterID r) (AccountID r) (AccountName r) (Concurrency r) (GatewayModelID r)
  (RequestedModel r) (UpstreamModel r) (UpstreamFormat r) (RouteID r) (RouteGroup r)
  (RoutePriority r) (RouteWeight r) (AccountWeight r) (RPMLimit r) (TPMLimit r)
  (CircuitState r) (CircuitProbe r) (Headroom r) (StickyEnabled r) (StickyTTLSeconds r)
  (RoutingPolicyID r) (PolicyBatchOrder r) (PolicyBatchName r) (PolicyBatchPosition r)
  (FailoverEnabled r) (SmartOptimization r) (PriceFactPresent r) (EstimatedInputMicrosPer1M r)
  (EstimatedOutputMicrosPer1M r) (ObservedSuccessRate r) (ObservedAvgLatencyMS r)
  (ObservedSampleCount r) (Source r) (SelectionReason r).
Definition zero : t := mk
  "" "" "" "" "" "" "" ∅ "" "" "" 0 "" "" "" "" "" "" 0 0 0 0 0 "" false float_zero false 0 ""
  0 "" 0 false false false 0 0 float_zero 0 0 "" "".
End GatewayProvider.
Export (hints) GatewayProvider.

Module GatewayCandidateExclusion.
Record t := mk {
  RouteID : string;
  ProviderID : string;
  ProviderAccountID : string;
  UpstreamModel : string;
  Reason : string;
  PolicyBatchOrder : Z;
  PolicyBatchName : string;
  PolicyBatchPosition : Z;
  PriceFactPresent : bool;
  EstimatedInputMicrosPer1M : Z;
  EstimatedOutputMicrosPer1M : Z;
  SelectionReason : string;
}.
#[export] Instance settable : Settable t := fun r => mk
  (RouteID r) (ProviderID r) (ProviderAccountID r) (UpstreamModel r) (Reason r)
  (PolicyBatchOrder r) (PolicyBatchName r) (PolicyBatchPosition r) (PriceFactPresent r)
  (EstimatedInputMicrosPer1M r) (EstimatedOutputMicrosPer1M r) (SelectionReason r).
Definition zero : t := mk
  "" "" "" "" "" 0 "" 0 false 0 0 "".
End GatewayCandidateExclusion.
Export (hints) GatewayCandidateExclusion.

Module GatewayExecutionPlan.
Record t := mk {
  Request : CanonicalRequest.t;
  Auth : CanonicalAuthContext.t;
  GatewayModelID : string;
  RouteGroup : string;
  RoutingPolicyID : string;
  RoutingPolicyVersion : Z;
  RoutingPolicyPreset : string;
  Candidates : list GatewayProvider.t;
  Exclusions : list GatewayCandidateExclusion.t;
  HasRoutes : bool;
  RejectionReason : string;
}.
#[export] Instance settable : Settable t := fun r => mk
  (Request r) (Auth r) (GatewayModelID r) (RouteGroup r) (RoutingPolicyID r)
  (RoutingPolicyVersion r) (RoutingPolicyPreset r) (Candidates r) (Exclusions r) (HasRoutes r)
  (RejectionReason r).
Definition zero : t := mk
  CanonicalRequest.zero CanonicalAuthContext.zero "" "" "" 0 "" [] [] false "".
End GatewayExecutionPlan.
Export (hints) GatewayExecutionPlan.

Module ProcurementPrice.
Record t := mk {
  ID : string;
  ProviderID : string;
  ProviderAccountID : string;
  UpstreamModel : string;
  Protocol : string;
  Currency : string;
  UncachedInputMicrosPer1MTokens : Z;
  CacheReadMicrosPer1MTokens : Z;
  CacheWrite5mMicrosPer1MTokens : Z;
  CacheWrite1hMicrosPer1MTokens : Z;
  OutputMicrosPer1MTokens : Z;
  RequestMicros : Z;
  ReferenceInputMicrosPer1MTokens : Z;
  ReferenceOutputMicrosPer1MTokens : Z;
  QuotedMultiplier : spec_float;
  RechargeMultiplier : spec_float;
  SourceKind : string;
  SourceReference : string;
  EvidenceHash : string;
  Confidence : string;
  Status : string;
  EffectiveFrom : time;
  ExpiresAt : option time;
  CreatedAt : time;
  UpdatedAt : time;
}.
#[export] Instance settable : Settable t := fun r => mk
  (ID r) (ProviderID r) (ProviderAccountID r) (UpstreamModel r) (Protocol r) (Currency r)
  (UncachedInputMicrosPer1MTokens r) (CacheReadMicrosPer1MTokens r)
  (CacheWrite5mMicrosPer1MTokens r) (CacheWrite1hMicrosPer1MTokens r)
  (OutputMicrosPer1MTokens r) (RequestMicros r) (ReferenceInputMicrosPer1MTokens r)
  (ReferenceOutputMicrosPer1MTokens r) (QuotedMultiplier r) (RechargeMultiplier r)
  (SourceKind r) (SourceReference r) (EvidenceHash r) (Confidence r) (Status r)
  (EffectiveFrom r) (ExpiresAt r) (CreatedAt r) (UpdatedAt r).
Definition zero : t := mk
  "" "" "" "" "" "" 0 0 0 0 0 0 0 0 float_zero float_zero "" "" "" "" "" 0 None 0 0.
End ProcurementPrice.
Export (hints) ProcurementPrice.

Module ProviderCacheCapability.
Record t := mk {
  ID : string;
  ProviderAccountID : string;
  UpstreamModel : string;
  Protocol : string;
  SupportStatus : string;
  PoolAffinityGrade : string;
  AffinityTransport : string;
  AffinityField : string;
  CacheControlMode : string;
  UsageSchema : string;
  MetricsCoverage : spec_float;
  EligibleRequestHitRate : spec_float;
  CacheTokenHitRate : spec_float;
  CacheWriteReadRatio : spec_float;
  AffinityConsistencyRate : spec_float;
  BillingConsistencyRate : spec_float;
  ProductionSampleCount : Z;
  ProbeSampleCount : Z;
  DegradedReason : string;
  LastObservedAt : option time;
  LastVerifiedAt : option time;
  CreatedAt : time;
  UpdatedAt : time;
}.
#[export] Instance settable : Settable t := fun r => mk
  (ID r) (ProviderAccountID r) (UpstreamModel r) (Protocol r) (SupportStatus r)
  (PoolAffinityGrade r) (AffinityTransport r) (AffinityField r) (CacheControlMode r)
  (UsageSchema r) (MetricsCoverage r) (EligibleRequestHitRate r) (CacheTokenHitRate r)
  (CacheWriteReadRatio r) (AffinityConsistencyRate r) (BillingConsistencyRate r)
  (ProductionSampleCount r) (ProbeSampleCount r) (DegradedReason r) (LastObservedAt r)
  (LastVerifiedAt r) (CreatedAt r) (UpdatedAt r).
Definition zero : t := mk
  "" "" "" "" "" "" "" "" "" "" float_zero float_zero float_zero float_zero float_zero
  float_zero 0 0 "" None None 0 0.
End ProviderCacheCapability.
Export (hints) ProviderCacheCapability.

Module EffectivePricingPolicy.
Record t := mk {
  ID : string;
  Mode : string;
  WindowHours : Z;
  MinSampleCount : Z;
  MinMetricsCoverage : spec_float;
  MinBillingConsistency : spec_float;
  MinCostImprovement : spec_float;
  MinCacheHitRateImprovement : spec_float;
  MinAffinityImprovement : spec_float;
  MaxCacheTiebreakCostRegression : spec_float;
  MaxErrorRateRegression : spec_float;
  MaxP95LatencyRegression : spec_float;
  CanaryPercent : Z;
  SupplierAffinityTTLSeconds : Z;
  AccountAffinityTTLSeconds : Z;
  AutomaticActionsEnabled : bool;
  EvaluationIntervalMinutes : Z;
  PromotionWindowCount : Z;
  DegradationWindowCount : Z;
  ProbeEnabled : bool;
  ProbeDailyTokenBudget : Z;
  ProbeDailyCostBudgetMicros : Z;
  ProbeCooldownSeconds : Z;
  UpdatedBy : string;
  CreatedAt : time;
  UpdatedAt : time;
}.
#[export] Instance settable : Settable t := fun r => mk
  (ID r) (Mode r) (WindowHours r) (MinSampleCount r) (MinMetricsCoverage r)
  (MinBillingConsistency r) (MinCostImprovement r) (MinCacheHitRateImprovement r)
  (MinAffinityImprovement r) (MaxCacheTiebreakCostRegression r) (MaxErrorRateRegression r)
  (MaxP95LatencyRegression r) (CanaryPercent r) (SupplierAffinityTTLSeconds r)
  (AccountAffinityTTLSeconds r) (AutomaticActionsEnabled r) (EvaluationIntervalMinutes r)
  (PromotionWindowCount r) (DegradationWindowCount r) (ProbeEnabled r)
  (ProbeDailyTokenBudget r) (ProbeDailyCostBudgetMicros r) (ProbeCooldownSeconds r)
  (UpdatedBy r) (CreatedAt r) (UpdatedAt r).
Definition zero : t := mk
  "" "" 0 0 float_zero float_zero float_zero float_zero float_zero float_zero float_zero
  float_zero 0 0 0 false 0 0 0 false 0 0 0 "" 0 0.
End EffectivePricingPolicy.
Export (hints) EffectivePricingPolicy.

Module EffectivePriceSnapshot.
Record t := mk {
  ID : string;
  ProviderID : string;
  ProviderAccountID : string;
  UpstreamModel : string;
  Protocol : string;
  Currency : string;
  EffectiveCostMicrosPer1M : Z;
  EffectiveMultiplier : spec_float;
  QuotedMultiplier : spec_float;
  CacheTokenHitRate : spec_float;
  MetricsCoverage : spec_float;
  BillingConsistencyRate : spec_float;
  RequestCount : Z;
  CostConfidence : string;
  PriceID : string;
  WindowStart : time;
  WindowEnd : time;
  ExpiresAt : time;
  CreatedAt : time;
}.
#[export] Instance settable : Settable t := fun r => mk
  (ID r) (ProviderID r) (ProviderAccountID r) (UpstreamModel r) (Protocol r) (Currency r)
  (EffectiveCostMicrosPer1M r) (EffectiveMultiplier r) (QuotedMultiplier r)
  (CacheTokenHitRate r) (MetricsCoverage r) (BillingConsistencyRate r) (RequestCount r)
  (CostConfidence r) (PriceID r) (WindowStart r) (WindowEnd r) (ExpiresAt r) (CreatedAt r).
Definition zero : t := mk
  "" "" "" "" "" "" 0 float_zero float_zero float_zero float_zero float_zero 0 "" "" 0 0 0 0.
End EffectivePriceSnapshot.
Export (hints) EffectivePriceSnapshot.

Module EffectivePricingDecision.
Record t := mk {
  ID : string;
  Model : string;
  UpstreamModel : string;
  Protocol : string;
  CurrentProviderAccountID : string;
  CandidateProviderAccountID : string;
  CurrentSnapshotID : string;
  CandidateSnapshotID : string;
  CurrentCostMicrosPer1M : Z;
  CandidateCostMicrosPer1M : Z;
  CostImprovement : spec_float;
  Status : string;
  ReasonCodes : list string;
  CanaryPercent : Z;
  SampleCount : Z;
  Confidence : string;
  HealthyWindowCount : Z;
  DegradedWindowCount : Z;
  LastEvaluationID : string;
  LastEvaluationVerdict : string;
  LastEvaluationReasonCodes : list string;
  LastEvaluatedWindowEnd : option time;
  MonitoringStartedAt : option time;
  LastHealthyAt : option time;
  LastAutomaticAction : string;
  CreatedBy : string;
  CreatedAt : time;
  UpdatedAt : time;
}.
#[export] Instance settable : Settable t := fun r => mk
  (ID r) (Model r) (UpstreamModel r) (Protocol r) (CurrentProviderAccountID r)
  (CandidateProviderAccountID r) (CurrentSnapshotID r) (CandidateSnapshotID r)
  (CurrentCostMicrosPer1M r) (CandidateCostMicrosPer1M r) (CostImprovement r) (Status r)
  (ReasonCodes r) (CanaryPercent r) (SampleCount r) (Confidence r) (HealthyWindowCount r)
  (DegradedWindowCount r) (LastEvaluationID r) (LastEvaluationVerdict r)
  (LastEvaluationReasonCodes r) (LastEvaluatedWindowEnd r) (MonitoringStartedAt r)
  (LastHealthyAt r) (LastAutomaticAction r) (CreatedBy r) (CreatedAt r) (UpdatedAt r).
Definition zero : t := mk
  "" "" "" "" "" "" "" "" 0 0 float_zero "" [] 0 0 "" 0 0 "" "" [] None None None "" "" 0 0.
End EffectivePricingDecision.
Export (hints) EffectivePricingDecision.

Module EffectivePricingDecisionEvaluation.
Record t := mk {
  ID : string;
  DecisionID : string;
  WindowStart : time;
  WindowEnd : time;
  Verdict : string;
  ReasonCodes : list string;
  CurrentSnapshotID : string;
  CandidateSnapshotID : string;
  CurrentRequestCount : Z;
  CandidateRequestCount : Z;
  CurrentCostMicrosPer1M : Z;
  CandidateCostMicrosPer1M : Z;
  CostImprovement : spec_float;
  CurrentCacheTokenHitRate : spec_float;
  CandidateCacheTokenHitRate : spec_float;
  CurrentCacheSavingsRate : spec_float;
  CandidateCacheSavingsRate : spec_float;
  CurrentAffinityConsistencyRate : spec_float;
  CandidateAffinityConsistencyRate : spec_float;
  CurrentErrorRate : spec_float;
  CandidateErrorRate : spec_float;
  CurrentP95LatencyMS : Z;
  CandidateP95LatencyMS : Z;
  CurrentMetricsCoverage : spec_float;
  CandidateMetricsCoverage : spec_float;
  CurrentBillingConsistencyRate : spec_float;
  CandidateBillingConsistencyRate : spec_float;
  AutomaticAction : string;
  CreatedAt : time;
}.
#[export] Instance settable : Settable t := fun r => mk
  (ID r) (DecisionID r) (WindowStart r) (WindowEnd r) (Verdict r) (ReasonCodes r)
  (CurrentSnapshotID r) (CandidateSnapshotID r) (CurrentRequestCount r)
  (CandidateRequestCount r) (CurrentCostMicrosPer1M r) (CandidateCostMicrosPer1M r)
  (CostImprovement r) (CurrentCacheTokenHitRate r) (CandidateCacheTokenHitRate r)
  (CurrentCacheSavingsRate r) (CandidateCacheSavingsRate r) (CurrentAffinityConsistencyRate r)
  (CandidateAffinityConsistencyRate r) (CurrentErrorRate r) (CandidateErrorRate r)
  (CurrentP95LatencyMS r) (CandidateP95LatencyMS r) (CurrentMetricsCoverage r)
  (CandidateMetricsCoverage r) (CurrentBillingConsistencyRate r)
  (CandidateBillingConsistencyRate r) (AutomaticAction r) (CreatedAt r).
Definition zero : t := mk
  "" "" 0 0 "" [] "" "" 0 0 0 0 float_zero float_zero float_zero float_zero float_zero
  float_zero float_zero float_zero float_zero 0 0 float_zero float_zero float_zero float_zero
  "" 0.
End EffectivePricingDecisionEvaluation.
Export (hints) EffectivePricingDecisionEvaluation.

Module RoutingAffinityBinding.
Record t := mk {
  ScopeKey : string;
  Kind : string;
  ProviderID : string;
  ProviderAccountID : string;
  RouteID : string;
  Model : string;
  Protocol : string;
  PolicyVersion : Z;
  CreatedAt : time;
  LastReusedAt : time;
  ExpiresAt : time;
}.
#[export] Instance settable : Settable t := fun r => mk
  (ScopeKey r) (Kind r) (ProviderID r) (ProviderAccountID r) (RouteID r) (Model r) (Protocol r)
  (PolicyVersion r) (CreatedAt r) (LastReusedAt r) (ExpiresAt r).
Definition zero : t := mk
  "" "" "" "" "" "" "" 0 0 0 0.
End RoutingAffinityBinding.
Export (hints) RoutingAffinityBinding.

Module ProviderBillingRoutingHealth.
Record t := mk {
  SourceStatus : string;
  Status : string;
  HardBlocked : bool;
  EconomicSwitchEligible : bool;
  ReasonCodes : list string;
  EvaluatedAt : time;
  EvidenceObservedAt : option time;
  EvidenceStaleAfterSeconds : Z;
}.
#[export] Instance settable : Settable t := fun r => mk
  (SourceStatus r) (Status r) (HardBlocked r) (EconomicSwitchEligible r) (ReasonCodes r)
  (EvaluatedAt r) (EvidenceObservedAt r) (EvidenceStaleAfterSeconds r).
Definition zero : t := mk
  "" "" false false [] 0 None 0.
End ProviderBillingRoutingHealth.
Export (hints) ProviderBillingRoutingHealth.

Module EffectivePricingReportRow.
Record t := mk {
  ProviderID : string;
  ProviderName : string;
  ProviderAccountID : string;
  ProviderAccountName : string;
  UpstreamModel : string;
  Protocol : string;
  Currency : string;
  CostAvailable : bool;
  UncachedInputMicrosPer1MTokens : Z;
  CacheReadMicrosPer1MTokens : Z;
  CacheWrite5mMicrosPer1MTokens : Z;
  CacheWrite1hMicrosPer1MTokens : Z;
  OutputMicrosPer1MTokens : Z;
  RequestMicros : Z;
  ReferenceInputMicrosPer1MTokens : Z;
  ReferenceOutputMicrosPer1MTokens : Z;
  RechargeMultiplier : spec_float;
  QuotedMultiplier : spec_float;
  BilledMultiplier : spec_float;
  EffectiveMultiplier : spec_float;
  EffectiveCostMicrosPer1M : Z;
  UncachedCostMicrosPer1M : Z;
  CacheSavingsMicrosPer1M : Z;
  CacheSavingsRate : spec_float;
  CacheEconomicsAvailable : bool;
  RequestCount : Z;
  ErrorRate : spec_float;
  P95LatencyMS : Z;
  MetricsCoverage : spec_float;
  EligibleRequestHitRate : spec_float;
  CacheTokenHitRate : spec_float;
  CacheWriteReadRatio : spec_float;
  BillingConsistencyRate : spec_float;
  AffinityConsistencyRate : spec_float;
  CacheSupportStatus : string;
  PoolAffinityGrade : string;
  CostConfidence : string;
  PriceID : string;
  ProviderBillingRoutingHealth : option ProviderBillingRoutingHealth.t;
  Recommendation : string;
  ReasonCodes : list string;
}.
#[export] Instance settable : Settable t := fun r => mk
  (ProviderID r) (ProviderName r) (ProviderAccountID r) (ProviderAccountName r)
  (UpstreamModel r) (Protocol r) (Currency r) (CostAvailable r)
  (UncachedInputMicrosPer1MTokens r) (CacheReadMicrosPer1MTokens r)
  (CacheWrite5mMicrosPer1MTokens r) (CacheWrite1hMicrosPer1MTokens r)
  (OutputMicrosPer1MTokens r) (RequestMicros r) (ReferenceInputMicrosPer1MTokens r)
  (ReferenceOutputMicrosPer1MTokens r) (RechargeMultiplier r) (QuotedMultiplier r)
  (BilledMultiplier r) (EffectiveMultiplier r) (EffectiveCostMicrosPer1M r)
  (UncachedCostMicrosPer1M r) (CacheSavingsMicrosPer1M r) (CacheSavingsRate r)
  (CacheEconomicsAvailable r) (RequestCount r) (ErrorRate r) (P95LatencyMS r)
  (MetricsCoverage r) (EligibleRequestHitRate r) (CacheTokenHitRate r) (CacheWriteReadRatio r)
  (BillingConsistencyRate r) (AffinityConsistencyRate r) (CacheSupportStatus r)
  (PoolAffinityGrade r) (CostConfidence r) (PriceID r) (ProviderBillingRoutingHealth r)
  (Recommendation r) (ReasonCodes r).
Definition zero : t := mk
  "" "" "" "" "" "" "" false 0 0 0 0 0 0 0 0 float_zero float_zero float_zero float_zero 0 0 0
  float_zero false 0 float_zero 0 float_zero float_zero float_zero float_zero float_zero
  float_zero "" "" "" "" None "" [].
End EffectivePricingReportRow.
Export (hints) EffectivePricingReportRow.
