(* ===== verification/CredentialCapacity.v ===== *)
(** * Gateway credentials: capacity

    The in-memory half of
    [backend/internal/controlplane/gateway_credential_capacity.go]: the requests
    and leases, the keys the stores count and lock by, admission against five
    limits, renewal and release.  An operation is one critical section of the
    repository's mutex. *)

From S2P Require Import Prelude Canonical AccessModel.

Definition gatewayCredentialRateWindow : duration := minute.
Definition gatewayCredentialQPSWindow : duration := second.
Definition gatewayCredentialLeaseTTL : duration := 10 * minute.

Record CredentialCapacityRequest := mkRequest {
  LeaseID : string;
  ApplicationID : string;
  CredentialID : string;
  QPSLimit : Z;
  RPMLimit : Z;
  TPMLimit : Z;
  ConcurrencyLimit : Z;
  ApplicationConcurrencyLimit : Z;
  EstimatedTokens : Z;
  Now : time;
  LeaseUntil : time;
}.

Record CredentialCapacityLease := mkLease {
  ID : string;
  LeaseApplicationID : string;
  LeaseCredentialID : string;
  ExpiresAt : time;
}.
#[export] Instance CredentialCapacityLease_settable : Settable CredentialCapacityLease := fun l =>
  mkLease (ID l) (LeaseApplicationID l) (LeaseCredentialID l) (ExpiresAt l).

Definition noLease : CredentialCapacityLease := mkLease "" "" "" 0.

Record credentialRateSample := mkSample { At : time; SampleTokens : Z }.

(** The two maps of [MemoryRepository] this part owns. *)
Record Store := mkStore {
  credentialRateSamples : gmap string (list credentialRateSample);
  credentialCapacityLeases : gmap string CredentialCapacityLease;
}.
#[export] Instance Store_settable : Settable Store := fun s =>
  mkStore (credentialRateSamples s) (credentialCapacityLeases s).

(** ** Keys *)

Definition credentialCapacityKey (applicationID credentialID : string) : string :=
  let applicationID := TrimSpace applicationID in
  let credentialID := TrimSpace credentialID in
  (Itoa (go_len applicationID) +:+ ":" +:+ applicationID
   +:+ Itoa (go_len credentialID) +:+ ":" +:+ credentialID)%string.

Definition credentialApplicationCapacityKey (applicationID : string) : string :=
  let applicationID := TrimSpace applicationID in
  (Itoa (go_len applicationID) +:+ ":" +:+ applicationID)%string.

(** ** Operations *)

Definition validateCredentialCapacityRequest (request : CredentialCapacityRequest)
    : option go_error :=
  if (TrimSpace (LeaseID request) =s "") || (TrimSpace (CredentialID request) =s "")
     || IsZero (Now request) || negb (After (LeaseUntil request) (Now request))
  then Some (ErrNew "invalid credential capacity request")
  else if (QPSLimit request <? 0) || (RPMLimit request <? 0) || (TPMLimit request <? 0)
          || (ConcurrencyLimit request <? 0) || (ApplicationConcurrencyLimit request <? 0)
          || (EstimatedTokens request <? 0)
  then Some (ErrNew "credential capacity limits must be non-negative")
  else if (ApplicationConcurrencyLimit request >? 0) && (TrimSpace (ApplicationID request) =s "")
  then Some (ErrNew "application_id is required for application concurrency limits")
  else None.

Definition lease_key (l : CredentialCapacityLease) : string :=
  credentialCapacityKey (LeaseApplicationID l) (LeaseCredentialID l).
Definition lease_application_key (l : CredentialCapacityLease) : string :=
  credentialApplicationCapacityKey (LeaseApplicationID l).

Section Memory.
Context `{range : MapRange}.

(** What the first loop computes: the samples of the last minute, their tokens
    and how many are of the last second. *)
Definition count_samples (now : time) (samples : list credentialRateSample)
    : list credentialRateSample * Z * Z :=
  foldl (fun '(kept, tokens, qps) sample =>
    if After (At sample) (now - gatewayCredentialRateWindow) then
      (kept ++ [sample], tokens +i SampleTokens sample,
       if After (At sample) (now - gatewayCredentialQPSWindow) then qps +i 1 else qps)
    else (kept, tokens, qps)) ([], 0, 0) samples.

(** The second loop drops the leases that have expired and counts the others. *)
Definition count_leases (p : CredentialCapacityLease -> bool)
    (leases : gmap string CredentialCapacityLease) : Z :=
  foldl (fun acc l => if p l then acc +i 1 else acc) 0 (map_values leases).

Definition AcquireCredentialCapacity (request : CredentialCapacityRequest) (s : Store)
    : result go_error (CredentialCapacityLease * string * bool) * Store :=
  match validateCredentialCapacityRequest request with
  | Some err => (Err err, s)
  | None =>
      let key := credentialCapacityKey (ApplicationID request) (CredentialID request) in
      let applicationKey := credentialApplicationCapacityKey (ApplicationID request) in
      let '(kept, tokens, qpsCount) :=
        count_samples (Now request) (default [] (credentialRateSamples s !! key)) in
      let s := s <| credentialRateSamples := <[key := kept]> (credentialRateSamples s) |> in
      let live := filter (fun x : string * CredentialCapacityLease =>
                            After (ExpiresAt x.2) (Now request) = true)
                    (credentialCapacityLeases s) in
      let s := s <| credentialCapacityLeases := live |> in
      let applicationConcurrency :=
        count_leases (fun l => lease_application_key l =s applicationKey) live in
      let concurrency := count_leases (fun l => lease_key l =s key) live in
      let refuse reason := (Ok (noLease, reason, false), s) in
      if (ConcurrencyLimit request >? 0) && (concurrency >=? ConcurrencyLimit request)
      then refuse "concurrency_exhausted"%string
      else if (ApplicationConcurrencyLimit request >? 0)
              && (applicationConcurrency >=? ApplicationConcurrencyLimit request)
      then refuse "application_concurrency_exhausted"%string
      else if (QPSLimit request >? 0) && (qpsCount >=? QPSLimit request)
      then refuse "qps_exhausted"%string
      else if (RPMLimit request >? 0) && (Z.of_nat (length kept) >=? RPMLimit request)
      then refuse "rpm_exhausted"%string
      else if (TPMLimit request >? 0) && (tokens +i EstimatedTokens request >? TPMLimit request)
      then refuse "tpm_exhausted"%string
      else
        let lease := mkLease (LeaseID request) (ApplicationID request) (CredentialID request)
                       (LeaseUntil request) in
        let sample := mkSample (Now request) (EstimatedTokens request) in
        (Ok (lease, ""%string, true),
         s <| credentialRateSamples := <[key := kept ++ [sample]]> (credentialRateSamples s) |>
           <| credentialCapacityLeases := <[ID lease := lease]> live |>)
  end.

Definition ReleaseCredentialCapacity (lease : CredentialCapacityLease) (s : Store) : Store :=
  s <| credentialCapacityLeases := delete (ID lease) (credentialCapacityLeases s) |>.

Definition ExtendCredentialCapacity (lease : CredentialCapacityLease) (now leaseUntil : time)
    (s : Store) : result go_error (CredentialCapacityLease * bool) * Store :=
  if (TrimSpace (ID lease) =s "") || IsZero now || negb (After leaseUntil now)
  then (Err (ErrNew "invalid credential capacity lease extension"), s)
  else
    match credentialCapacityLeases s !! ID lease with
    | None => (Ok (noLease, false), s)
    | Some current =>
        if negb (After (ExpiresAt current) now) || (lease_key current <>s lease_key lease)
        then (Ok (noLease, false), s)
        else if After leaseUntil (ExpiresAt current) then
          let current := current <| ExpiresAt := leaseUntil |> in
          (Ok (current, true),
           s <| credentialCapacityLeases := <[ID current := current]> (credentialCapacityLeases s) |>)
        else (Ok (current, true), s)
    end.

(** ** TryAcquireGatewayCredentialPermit *)


(** A permit: the lease behind it, or none when nothing is limited.  [random] is
    the text [randomID] draws. *)
Definition TryAcquireGatewayCredentialPermit (now : time) (random : string)
    (auth : CanonicalAuthContext.t) (estimatedTokens : Z) (store : option Store)
    : result go_error (option CredentialCapacityLease * string * bool) * option Store :=
  let limits := CanonicalAuthContext.Limits auth in
  let unlimited := (CanonicalLimits.QPSLimit limits <=? 0) && (CanonicalLimits.RPMLimit limits <=? 0)
    && (CanonicalLimits.TPMLimit limits <=? 0) && (CanonicalLimits.ConcurrencyLimit limits <=? 0)
    && (CanonicalLimits.ApplicationConcurrencyLimit limits <=? 0) in
  if TrimSpace (CanonicalAuthContext.CredentialID auth) =s "" then (Err ErrGatewayUnauthorized, store)
  else if unlimited then (Ok (None, ""%string, true), store)
  else
    match store with
    | None => (Err (ErrNew "gateway credential capacity store is not available"), None)
    | Some s =>
        let request := mkRequest ("credential_lease_" +:+ random) (CanonicalAuthContext.ApplicationID auth)
          (CanonicalAuthContext.CredentialID auth) (CanonicalLimits.QPSLimit limits) (CanonicalLimits.RPMLimit limits) (CanonicalLimits.TPMLimit limits)
          (CanonicalLimits.ConcurrencyLimit limits) (CanonicalLimits.ApplicationConcurrencyLimit limits)
          (if estimatedTokens <? 0 then 0 else estimatedTokens)
          now (now + gatewayCredentialLeaseTTL) in
        let '(r, s) := AcquireCredentialCapacity request s in
        match r with
        | Err err => (Err err, Some s)
        | Ok (_, reason, false) => (Ok (None, reason, false), Some s)
        | Ok (lease, _, true) => (Ok (Some lease, ""%string, true), Some s)
        end
    end.

(** ** Specification *)

(** The leases of a store that count at an instant. *)
Definition live_leases (p : CredentialCapacityLease -> bool) (now : time) (s : Store) : Z :=
  sum_map (fun l => if After (ExpiresAt l) now && p l then 1 else 0) (credentialCapacityLeases s).

Definition samples_within (window : duration) (now : time) (key : string) (s : Store)
    : list credentialRateSample :=
  List.filter (fun x => After (At x) (now - window)) (default [] (credentialRateSamples s !! key)).

(** ** Lemmas *)

Lemma count_samples_spec now samples :
  exists qps, count_samples now samples =
    (List.filter (fun x => After (At x) (now - gatewayCredentialRateWindow)) samples,
     wrap64 (sum_Z SampleTokens
       (List.filter (fun x => After (At x) (now - gatewayCredentialRateWindow)) samples)), qps) /\
    qps = wrap64 (Z.of_nat (length
       (List.filter (fun x => After (At x) (now - gatewayCredentialQPSWindow)) samples))).
Proof.
  unfold count_samples.
  assert (H : forall kept tokens qps, in_int64 tokens -> in_int64 qps ->
    foldl (fun '(kept, tokens, qps) sample =>
      if After (At sample) (now - gatewayCredentialRateWindow) then
        (kept ++ [sample], tokens +i SampleTokens sample,
         if After (At sample) (now - gatewayCredentialQPSWindow) then qps +i 1 else qps)
      else (kept, tokens, qps)) (kept, tokens, qps) samples =
    (kept ++ List.filter (fun x => After (At x) (now - gatewayCredentialRateWindow)) samples,
     wrap64 (tokens + sum_Z SampleTokens
       (List.filter (fun x => After (At x) (now - gatewayCredentialRateWindow)) samples)),
     wrap64 (qps + Z.of_nat (length
       (List.filter (fun x => After (At x) (now - gatewayCredentialQPSWindow)) samples))))).
  { induction samples as [|x l IH]; intros kept tokens qps Ht Hq; cbn.
    - by rewrite app_nil_r, !Z.add_0_r, !wrap64_id.
    - destruct (After (At x) (now - gatewayCredentialRateWindow)) eqn:Hm.
      + rewrite IH by (destruct (After (At x) (now - gatewayCredentialQPSWindow)); auto with go).
        cbn. rewrite <- app_assoc, wrap64_add_l, Z.add_assoc. f_equal.
        destruct (After (At x) (now - gatewayCredentialQPSWindow)); cbn; [|done].
        rewrite wrap64_add_l. f_equal. lia.
      + assert (Hq2 : After (At x) (now - gatewayCredentialQPSWindow) = false).
        { unfold After, gatewayCredentialQPSWindow, gatewayCredentialRateWindow, minute, second in *.
          boolify. apply Z.ltb_ge. lia. }
        rewrite IH, Hq2 by done. done. }
  eexists. rewrite H by (by vm_compute). cbn. done.
Qed.

Lemma count_leases_spec p m :
  Z.of_nat (size m) <= max_int64 ->
  count_leases p m = sum_map (fun l => if p l then 1 else 0) m.
Proof.
  intros Hm. unfold count_leases. rewrite foldl_wrap_if by (by vm_compute).
  rewrite sum_map_values, Z.add_0_l. apply wrap64_id.
  pose proof (sum_map_size (fun l => if p l then 1 else 0) m ltac:(intros l; cbn; destruct (p l); lia)).
  assert (0 <= sum_map (fun l => if p l then 1 else 0) m)
    by (apply sum_map_nonneg; intros k v _; destruct (p v); lia).
  unfold in_int64, min_int64. lia.
Qed.

(** After an admission the live leases that satisfy a test are at most one more
    than the live ones counted before. *)
Lemma live_after p now m l samples :
  live_leases p now (mkStore samples (<[ID l := l]> (filter (fun x => After (ExpiresAt x.2) now = true) m)))
  <= sum_map (fun l => if p l then 1 else 0) (filter (fun x => After (ExpiresAt x.2) now = true) m) + 1.
Proof.
  unfold live_leases. cbn.
  etransitivity; [apply sum_map_insert_le; intros k v _; destruct (_ && _); lia|].
  apply Z.add_le_mono; [|destruct (_ && _); lia].
  apply Z.eq_le_incl. apply sum_map_ext. intros k v [_ Hv]%map_lookup_filter_Some. cbn in Hv. by rewrite Hv.
Qed.

Lemma samples_after window now key l samples m :
  0 < window -> window <= gatewayCredentialRateWindow ->
  samples_within window now key (mkStore (<[key := List.filter (fun x => After (At x)
      (now - gatewayCredentialRateWindow)) l ++ [mkSample now samples]]> m) ∅) =
  List.filter (fun x => After (At x) (now - window)) l ++ [mkSample now samples].
Proof.
  intros Hw Hle. unfold samples_within. cbn. rewrite lookup_insert_eq. cbn.
  rewrite List.filter_app. cbn. unfold After at 3.
  rewrite (proj2 (Z.ltb_lt _ _)) by lia. f_equal. unfold After.
  induction l as [|x l IH]; cbn; [done|].
  destruct (Z.ltb_spec (now - gatewayCredentialRateWindow) (At x)); cbn; [by rewrite IH|].
  rewrite (proj2 (Z.ltb_ge (now - window) (At x))) by lia. done.
Qed.

Lemma filter_length_le {A} (p : A -> bool) l : (length (List.filter p l) <= length l)%nat.
Proof. induction l as [|x l IH]; cbn; [lia|]. destruct (p x); cbn; lia. Qed.

(** The store is of a size a machine holds, and token counts add up in range. *)
Record fits (request : CredentialCapacityRequest) (s : Store) : Prop := {
  few_leases : Z.of_nat (size (credentialCapacityLeases s)) <= max_int64;
  few_samples : forall key, Z.of_nat (length (default [] (credentialRateSamples s !! key))) <= max_int64;
  tokens_fit : forall key, let total := sum_Z SampleTokens
      (samples_within gatewayCredentialRateWindow (Now request) key s) in
    0 <= total /\ total + EstimatedTokens request <= max_int64;
}.

Lemma request_tokens request :
  validateCredentialCapacityRequest request = None -> 0 <= EstimatedTokens request.
Proof.
  unfold validateCredentialCapacityRequest. repeat (case_match; [done|]). boolify. done.
Qed.

Lemma wrap64_small z : 0 <= z <= max_int64 -> wrap64 z = z.
Proof. intros. apply wrap64_id. unfold in_int64, min_int64. lia. Qed.

(** ** Theorems *)

(** The key under which a credential's leases, samples and locks are kept
    identifies the application and the credential, up to surrounding space: no
    choice of identifiers makes two credentials share limits. *)
Theorem credentialCapacityKey_injective application1 credential1 application2 credential2 :
  credentialCapacityKey application1 credential1 = credentialCapacityKey application2 credential2 <->
  TrimSpace application1 = TrimSpace application2 /\ TrimSpace credential1 = TrimSpace credential2.
Proof.
  unfold credentialCapacityKey. split; [|by intros [-> ->]].
  set (a1 := TrimSpace application1). set (a2 := TrimSpace application2).
  set (c1 := TrimSpace credential1). set (c2 := TrimSpace credential2). intros E.
  assert (E' : (length_prefixed a1 +:+ (length_prefixed c1 +:+ ""))%string =
               (length_prefixed a2 +:+ (length_prefixed c2 +:+ ""))%string).
  { unfold length_prefixed. rewrite !string_app_assoc, !string_app_nil. done. }
  apply length_prefixed_inj in E' as [-> E']. by apply length_prefixed_inj in E' as [-> _].
Qed.

(** An admission leaves every limit of the request respected at its instant,
    the newcomer included: the live leases of the credential and of its
    application, the requests of the last second and of the last minute, and the
    tokens of the last minute. *)
Theorem Acquire_within_limits request s lease reason s' :
  fits request s ->
  AcquireCredentialCapacity request s = (Ok (lease, reason, true), s') ->
  let key := credentialCapacityKey (ApplicationID request) (CredentialID request) in
  let applicationKey := credentialApplicationCapacityKey (ApplicationID request) in
  let now := Now request in
  (0 < ConcurrencyLimit request ->
     live_leases (fun l => lease_key l =s key) now s' <= ConcurrencyLimit request) /\
  (0 < ApplicationConcurrencyLimit request ->
     live_leases (fun l => lease_application_key l =s applicationKey) now s'
       <= ApplicationConcurrencyLimit request) /\
  (0 < QPSLimit request ->
     Z.of_nat (length (samples_within gatewayCredentialQPSWindow now key s')) <= QPSLimit request) /\
  (0 < RPMLimit request ->
     Z.of_nat (length (samples_within gatewayCredentialRateWindow now key s')) <= RPMLimit request) /\
  (0 < TPMLimit request ->
     sum_Z SampleTokens (samples_within gatewayCredentialRateWindow now key s') <= TPMLimit request).
Proof.
  intros [Hleases Hsamples Htokens] H key applicationKey now. unfold AcquireCredentialCapacity in H.
  destruct (validateCredentialCapacityRequest request) eqn:Hv; [done|].
  apply request_tokens in Hv. fold key applicationKey now in H. specialize (Hsamples key). specialize (Htokens key). cbn in Htokens.
  unfold samples_within in Htokens. fold now in Htokens.
  set (l := default [] (credentialRateSamples s !! key)) in *.
  destruct (count_samples_spec now l) as (qps & Hcount & Hqps). rewrite Hcount in H.
  set (kept := List.filter (fun x => After (At x) (now - gatewayCredentialRateWindow)) l) in *.
  cbn in H. set (live := filter _ (credentialCapacityLeases s)) in *.
  assert (Hsize : Z.of_nat (size live) <= max_int64).
  { assert (size live <= size (credentialCapacityLeases s))%nat; [|lia].
    apply map_subseteq_size, map_filter_subseteq. }
  rewrite !count_leases_spec in H by done.
  destruct (_ && _) eqn:E1 in H; [done|]. destruct (_ && _) eqn:E2 in H; [done|].
  destruct (_ && _) eqn:E3 in H; [done|]. destruct (_ && _) eqn:E4 in H; [done|].
  destruct (_ && _) eqn:E5 in H; [done|]. injection H as _ _ <-.
  assert (Hq : forall w, 0 < w -> w <= gatewayCredentialRateWindow ->
    samples_within w now key (mkStore (<[key := kept ++ [mkSample now (EstimatedTokens request)]]>
      (<[key := kept]> (credentialRateSamples s))) (<[LeaseID request := mkLease (LeaseID request)
        (ApplicationID request) (CredentialID request) (LeaseUntil request)]> live)) =
    List.filter (fun x => After (At x) (now - w)) l ++ [mkSample now (EstimatedTokens request)])
    by (intros; by apply samples_after).
  split_and!; intros Hpos; rewrite ?(proj2 (Z.gtb_lt _ _) Hpos) in *; cbn [andb] in *; boolify.
  - etransitivity; [by apply live_after|]. fold live. cbn beta in *. lia.
  - etransitivity; [by apply live_after|]. fold live. cbn beta in *. lia.
  - cbn. rewrite Hq by (unfold gatewayCredentialQPSWindow, gatewayCredentialRateWindow, minute, second; lia).
    rewrite length_app. cbn.
    pose proof (filter_length_le (fun x => After (At x) (now - gatewayCredentialQPSWindow)) l).
    subst qps. rewrite wrap64_small in * by lia. lia.
  - cbn. rewrite Hq by (unfold gatewayCredentialRateWindow, minute, second; lia).
    rewrite length_app. cbn. fold kept. lia.
  - cbn. rewrite Hq by (unfold gatewayCredentialRateWindow, minute, second; lia).
    rewrite sum_Z_app. cbn. fold kept. rewrite wrap64_add_l, wrap64_id in E5; [lia|].
    destruct Htokens. unfold in_int64, min_int64. lia.
Qed.
End Memory.

(** ** Witnesses *)

#[local] Existing Instance canonical_range.
Module Demo.
Definition request : CredentialCapacityRequest :=
  mkRequest "lease" "app" "cred" 5 10 1000 2 3 400 (10 * minute) (20 * minute).
Definition empty : Store := mkStore ∅ ∅.
End Demo.

Lemma Acquire_within_limits_witness :
  live_leases (fun l => lease_key l =s "3:app4:cred") (10 * minute)
    (AcquireCredentialCapacity Demo.request Demo.empty).2 <= 2.
Proof.
  refine (proj1 (Acquire_within_limits Demo.request Demo.empty
    (mkLease "lease" "app" "cred" (20 * minute)) "" _ _ _) _).
  - split; [vm_compute; discriminate|intros key; vm_compute; discriminate|].
    intros key. vm_compute. split; discriminate.
  - vm_compute. reflexivity.
  - vm_compute. reflexivity.
Defined.
