(* ===== verification/UsageDimensions.v ===== *)
(** * Usage dimensions

    [backend/internal/controlplane/usage_dimension.go]: media usage by named
    dimension, its normal form, merging, and saturating totals.  The maps of the
    code are iterated in an order Go leaves open; the theorems show where it
    cannot matter. *)

From S2P Require Import Prelude.
From Stdlib Require Import Ascii.

Definition UsageDimensionInputImages := "input_images"%string.
Definition UsageDimensionOutputImages := "output_images"%string.
Definition UsageDimensionPartialImages := "partial_images"%string.
Definition UsageDimensionInputVideoMilliseconds := "input_video_milliseconds"%string.
Definition UsageDimensionOutputVideoMilliseconds := "output_video_milliseconds"%string.
Definition UsageDimensionInputAudioMilliseconds := "input_audio_milliseconds"%string.
Definition UsageDimensionOutputAudioMilliseconds := "output_audio_milliseconds"%string.
Definition UsageDimensionRealtimeAudioMilliseconds := "realtime_audio_milliseconds"%string.
Definition UsageDimensionInputCharacters := "input_characters"%string.
Definition UsageDimensionActions := "actions"%string.
Definition UsageDimensionBatchItems := "batch_items"%string.
Definition UsageDimensionInputBytes := "input_bytes"%string.
Definition UsageDimensionOutputBytes := "output_bytes"%string.
Definition UsageDimensionTransferBytes := "transfer_bytes"%string.
Definition UsageDimensionSessionMilliseconds := "session_milliseconds"%string.

Definition UsageUnitCount := "count"%string.
Definition UsageUnitMillisecond := "millisecond"%string.
Definition UsageUnitCharacter := "character"%string.
Definition UsageUnitByte := "byte"%string.

Definition UsageConfidenceEstimated := "estimated"%string.
Definition UsageConfidenceObserved := "observed"%string.
Definition UsageConfidenceReported := "reported"%string.
Definition UsageConfidenceReconciled := "reconciled"%string.

Definition ErrUsageDimensionsInvalid : go_error := ErrNew "usage dimensions are invalid".

Definition usageDimensionUnits : gmap string string := list_to_map [
  (UsageDimensionInputImages, UsageUnitCount);
  (UsageDimensionOutputImages, UsageUnitCount);
  (UsageDimensionPartialImages, UsageUnitCount);
  (UsageDimensionInputVideoMilliseconds, UsageUnitMillisecond);
  (UsageDimensionOutputVideoMilliseconds, UsageUnitMillisecond);
  (UsageDimensionInputAudioMilliseconds, UsageUnitMillisecond);
  (UsageDimensionOutputAudioMilliseconds, UsageUnitMillisecond);
  (UsageDimensionRealtimeAudioMilliseconds, UsageUnitMillisecond);
  (UsageDimensionInputCharacters, UsageUnitCharacter);
  (UsageDimensionActions, UsageUnitCount);
  (UsageDimensionBatchItems, UsageUnitCount);
  (UsageDimensionInputBytes, UsageUnitByte);
  (UsageDimensionOutputBytes, UsageUnitByte);
  (UsageDimensionTransferBytes, UsageUnitByte);
  (UsageDimensionSessionMilliseconds, UsageUnitMillisecond)].

(** The [Attributes] map is nil exactly when it is empty, in every value the
    code builds. *)
Record UsageDimension := mkDimension {
  Quantity : Z;
  Unit_ : string;
  Source : string;
  Confidence : string;
  ProcurementPriceSnapshotID : string;
  Attributes : gmap string string;
}.
#[export] Instance UsageDimension_settable : Settable UsageDimension := fun d =>
  mkDimension (Quantity d) (Unit_ d) (Source d) (Confidence d) (ProcurementPriceSnapshotID d)
    (Attributes d).
#[export] Instance UsageDimension_eq_dec : EqDecision UsageDimension.
Proof. solve_decision. Defined.

Notation UsageDimensionMap := (gmap string UsageDimension) (only parsing).

Record UsageDimensionTotals := mkTotals {
  OutputImages : Z;
  VideoMilliseconds : Z;
  AudioMilliseconds : Z;
}.
Definition noTotals : UsageDimensionTotals := mkTotals 0 0 0.

(** ** Totals *)

Definition usageDimensionQuantity (values : UsageDimensionMap) (name : string) : Z :=
  match values !! name with
  | None => 0
  | Some value => if Quantity value <? 0 then 0 else Quantity value
  end.

Definition saturatingUsageAdd (left right : Z) : Z :=
  let left := if left <? 0 then 0 else left in
  let right := if right <? 0 then 0 else right in
  if left >? max_int64 -i right then max_int64 else left +i right.

Definition UsageDimensionsTotals (values : UsageDimensionMap) : UsageDimensionTotals :=
  mkTotals
    (usageDimensionQuantity values UsageDimensionOutputImages)
    (saturatingUsageAdd
       (usageDimensionQuantity values UsageDimensionInputVideoMilliseconds)
       (usageDimensionQuantity values UsageDimensionOutputVideoMilliseconds))
    (saturatingUsageAdd
       (saturatingUsageAdd
          (usageDimensionQuantity values UsageDimensionInputAudioMilliseconds)
          (usageDimensionQuantity values UsageDimensionOutputAudioMilliseconds))
       (usageDimensionQuantity values UsageDimensionRealtimeAudioMilliseconds)).

Definition addUsageDimensionTotals (left right : UsageDimensionTotals) : UsageDimensionTotals :=
  mkTotals
    (saturatingUsageAdd (OutputImages left) (OutputImages right))
    (saturatingUsageAdd (VideoMilliseconds left) (VideoMilliseconds right))
    (saturatingUsageAdd (AudioMilliseconds left) (AudioMilliseconds right)).

(** ** Normal form *)

(** A rune of a token: runes outside ASCII are refused, so the bytes decide. *)
Definition token_head (a : ascii) : bool := ascii_in a 97 122 || ascii_in a 48 57.
Definition token_rest (a : ascii) : bool :=
  token_head a || ascii_in a 95 95 || ascii_in a 45 45 || ascii_in a 58 58.

Definition validUsageDimensionToken (value : string) : bool :=
  if (value =s "") || (go_len value >? 64) then false
  else match String.list_ascii_of_string value with
       | [] => false
       | a :: l => token_head a && forallb token_rest l
       end.

Section Normalize.
Context `{unicode : UnicodeCase} `{range : MapRange}.

(** [len(values)] *)
Definition map_len {V} (m : gmap string V) : Z := Z.of_nat (size m).

Definition normalizeAttribute (normalized : gmap string string) (item : string * string)
    : result go_error (gmap string string) :=
  let '(rawKey, rawValue) := item in
  let key := ToLower (TrimSpace rawKey) in
  let value := TrimSpace rawValue in
  if negb (validUsageDimensionToken key) || (value =s "") || (go_len value >? 128)
     || ContainsAny value (cr ++ lf ++ nul)
  then Err ErrUsageDimensionsInvalid
  else match normalized !! key with
       | Some _ => Err ErrUsageDimensionsInvalid
       | None => Ok (<[key := value]> normalized)
       end.

Definition normalizeUsageDimensionAttributes (values : gmap string string)
    : result go_error (gmap string string) :=
  if map_len values =? 0 then Ok ∅
  else if map_len values >? 16 then Err ErrUsageDimensionsInvalid
  else foldM normalizeAttribute ∅ (map_range values).

Definition normalizeDimension (normalized : UsageDimensionMap) (item : string * UsageDimension)
    : result go_error UsageDimensionMap :=
  let '(rawName, rawValue) := item in
  let name := ToLower (TrimSpace rawName) in
  match normalized !! name with
  | Some _ => Err ErrUsageDimensionsInvalid
  | None =>
      let value := rawValue
        <| Unit_ := ToLower (TrimSpace (Unit_ rawValue)) |>
        <| Source := ToLower (TrimSpace (Source rawValue)) |>
        <| Confidence := ToLower (TrimSpace (Confidence rawValue)) |>
        <| ProcurementPriceSnapshotID := TrimSpace (ProcurementPriceSnapshotID rawValue) |> in
      match usageDimensionUnits !! name with
      | None => Err ErrUsageDimensionsInvalid
      | Some expectedUnit =>
          if (Quantity value <? 0) || (Unit_ value <>s expectedUnit)
             || negb (validUsageDimensionToken (Source value))
             || negb (oneOf (Confidence value)
                  [UsageConfidenceEstimated; UsageConfidenceObserved; UsageConfidenceReported;
                   UsageConfidenceReconciled])
             || (go_len (ProcurementPriceSnapshotID value) >? 160)
          then Err ErrUsageDimensionsInvalid
          else
            attributes ← normalizeUsageDimensionAttributes (Attributes value);
            Ok (<[name := value <| Attributes := attributes |>]> normalized)
      end
  end.

Definition NormalizeUsageDimensions (values : UsageDimensionMap)
    : result go_error UsageDimensionMap :=
  if map_len values =? 0 then Ok ∅
  else foldM normalizeDimension ∅ (map_range values).

Definition cloneUsageDimension (value : UsageDimension) : UsageDimension :=
  if map_len (Attributes value) =? 0 then value <| Attributes := ∅ |>
  else value <| Attributes := list_to_map (map_range (Attributes value)) |>.

(** The two loops of [MergeUsageDimensions]. *)
Definition mergeLeft (merged : UsageDimensionMap) (item : string * UsageDimension)
    : result go_error UsageDimensionMap :=
  Ok (<[item.1 := cloneUsageDimension item.2]> merged).
Definition mergeRight (merged : UsageDimensionMap) (item : string * UsageDimension)
    : result go_error UsageDimensionMap :=
  let '(name, value) := item in
  match merged !! name with
  | Some current =>
      if Unit_ current <>s Unit_ value then Err ErrUsageDimensionsInvalid
      else Ok (<[name := cloneUsageDimension value]> merged)
  | None => Ok (<[name := cloneUsageDimension value]> merged)
  end.

Definition MergeUsageDimensions (left right : UsageDimensionMap)
    : result go_error UsageDimensionMap :=
  left ← NormalizeUsageDimensions left;
  right ← NormalizeUsageDimensions right;
  merged ← foldM mergeLeft ∅ (map_range left);
  foldM mergeRight merged (map_range right).

(** [UsageDimensionsJSON], [ParseUsageDimensionsJSON] and the equality built on
    them; the JSON encoding of the package [encoding/json] is a parameter. *)
Context (Marshal : UsageDimensionMap -> result go_error string).
Context (Unmarshal : string -> result go_error UsageDimensionMap).

Definition UsageDimensionsJSON (values : UsageDimensionMap) : result go_error string :=
  normalized ← NormalizeUsageDimensions values;
  Marshal normalized.

Definition usageDimensionsEqual (left right : UsageDimensionMap) : bool :=
  match UsageDimensionsJSON left, UsageDimensionsJSON right with
  | Ok leftJSON, Ok rightJSON => leftJSON =s rightJSON
  | _, _ => false
  end.

Definition ParseUsageDimensionsJSON (payload : string) : result go_error UsageDimensionMap :=
  let payload := TrimSpace payload in
  if (payload =s "") || (payload =s "null") then Ok ∅
  else match Unmarshal payload with
       | Err _ => Err ErrUsageDimensionsInvalid
       | Ok values => NormalizeUsageDimensions values
       end.
End Normalize.

(** ** Specification *)

(** Addition of quantities that stops at the largest [int64]. *)
Definition saturated (z : Z) : Z := Z.min max_int64 z.

(** A loop that files each entry of a map under a normalised name, and refuses
    the map when an entry is refused or two names meet. *)
Section FileEntries.
Context {V W : Type} (entry : string * V -> option (string * W)).

Definition file_entry (acc : gmap string W) (item : string * V) : result go_error (gmap string W) :=
  match entry item with
  | None => Err ErrUsageDimensionsInvalid
  | Some (name, w) =>
      match acc !! name with
      | Some _ => Err ErrUsageDimensionsInvalid
      | None => Ok (<[name := w]> acc)
      end
  end.

(** What the loop computes, whatever the order of the entries. *)
Definition filed (l : list (string * V)) (m : gmap string W) : Prop :=
  exists es, mapM entry l = Some es /\ NoDup es.*1 /\ m = list_to_map es.
End FileEntries.

(** ** Lemmas: saturation *)

Lemma saturatingUsageAdd_spec left right :
  in_int64 left -> in_int64 right ->
  saturatingUsageAdd left right = saturated (Z.max 0 left + Z.max 0 right).
Proof.
  unfold saturatingUsageAdd, saturated, in_int64, min_int64. intros Hl Hr.
  assert (Hmax : forall z, (if z <? 0 then 0 else z) = Z.max 0 z)
    by (intros z; destruct (Z.ltb_spec z 0); lia).
  rewrite !Hmax. rewrite (wrap64_id (max_int64 - Z.max 0 right))
    by (unfold in_int64, min_int64, max_int64 in *; lia).
  rewrite Z.gtb_ltb. destruct (Z.ltb_spec (max_int64 - Z.max 0 right) (Z.max 0 left)); [lia|].
  rewrite wrap64_id by (unfold in_int64, min_int64, max_int64 in *; lia). lia.
Qed.

Lemma saturated_range z : 0 <= z -> in_int64 (saturated z) /\ 0 <= saturated z <= max_int64.
Proof. unfold saturated, in_int64, min_int64, max_int64. lia. Qed.

(** ** Lemmas: filing *)

Section Filing.
Context {V W : Type} (entry : string * V -> option (string * W)).

Lemma file_Ok l acc m :
  foldM (file_entry entry) acc l = Ok m <->
  exists es, mapM entry l = Some es /\ NoDup es.*1 /\ (forall k, k ∈ es.*1 -> acc !! k = None) /\
    m = list_to_map es ∪ acc.
Proof.
  revert acc m. induction l as [|x l IH]; intros acc m; cbn.
  { split.
    - intros [= <-]. exists []. cbn. rewrite (left_id_L ∅ (∪)).
      split_and!; [done|constructor|intros k []%elem_of_nil|done].
    - intros (es & [= <-] & _ & _ & ->). cbn. by rewrite (left_id_L ∅ (∪)). }
  unfold file_entry at 1. destruct (entry x) as [[name w]|] eqn:Ex; cbn.
  2: { split; [done|]. by intros (es & [=] & _). }
  destruct (acc !! name) as [w'|] eqn:Ea.
  - split; [done|]. intros (es & H & Hn & Hd & _).
    destruct (mapM entry l); [|done]. cbn in H. injection H as <-. cbn in Hd.
    specialize (Hd name ltac:(left)). congruence.
  - rewrite IH. split.
    + intros (es & -> & Hn & Hd & ->). exists ((name, w) :: es). cbn. split_and!; [done| | |].
      * constructor; [|done]. intros Hin. specialize (Hd _ Hin). by rewrite lookup_insert_eq in Hd.
      * intros k [->|Hk]%elem_of_cons; [done|]. specialize (Hd _ Hk).
        by apply lookup_insert_None in Hd as [? _].
      * rewrite <- insert_union_r; [by rewrite insert_union_l|].
        apply not_elem_of_list_to_map_1. intros Hin. specialize (Hd _ Hin).
        by rewrite lookup_insert_eq in Hd.
    + intros (es' & H & Hn & Hd & ->). destruct (mapM entry l) as [es|]; [|done].
      cbn in H. injection H as <-. cbn in *. apply NoDup_cons in Hn as [Hx Hn].
      exists es. split_and!; [done|done| |].
      * intros k Hk. rewrite lookup_insert_ne; [|by intros ->].
        apply Hd. apply elem_of_cons. by right.
      * rewrite <- insert_union_r; [by rewrite insert_union_l|]. by apply not_elem_of_list_to_map_1.
Qed.

Lemma file_filed l m : foldM (file_entry entry) ∅ l = Ok m <-> filed entry l m.
Proof.
  rewrite file_Ok. unfold filed. setoid_rewrite (right_id_L ∅ (∪)).
  split; intros (es & H1 & H2 & H3).
  - destruct H3 as [_ H3]. eauto.
  - exists es. split_and!; try done.
Qed.

Lemma file_Err acc l e : foldM (file_entry entry) acc l = Err e -> e = ErrUsageDimensionsInvalid.
Proof.
  revert acc. induction l as [|x l IH]; intros acc; cbn; [done|].
  unfold file_entry at 1. destruct (entry x) as [[name w]|]; [|congruence].
  destruct (acc !! name); [congruence|]. apply IH.
Qed.

Lemma mapM_perm l1 l2 es1 : l1 ≡ₚ l2 -> mapM entry l1 = Some es1 ->
  exists es2, mapM entry l2 = Some es2 /\ es1 ≡ₚ es2.
Proof.
  intros Hp. revert es1. induction Hp as [|x l1 l2 _ IH|x y l|l1 l2 l3 _ IH1 _ IH2]; intros es1; cbn.
  - intros [= <-]. by exists [].
  - destruct (entry x) as [e|]; cbn; [|done]. destruct (mapM entry l1) as [es|]; cbn; [|done].
    intros [= <-]. destruct (IH es eq_refl) as (es2 & -> & Hp). exists (e :: es2). by split; [|f_equiv].
  - destruct (entry x) as [e|], (entry y) as [e'|]; cbn; try done.
    destruct (mapM entry l) as [es|]; cbn; [|done]. intros [= <-].
    eexists. split; [done|]. apply Permutation_swap.
  - intros H1. destruct (IH1 _ H1) as (es2 & H2 & Hp2). destruct (IH2 _ H2) as (es3 & H3 & Hp3).
    exists es3. split; [done|]. by rewrite Hp2.
Qed.

(** The order of the entries does not matter. *)
Lemma filed_perm l1 l2 m : l1 ≡ₚ l2 -> filed entry l1 m -> filed entry l2 m.
Proof.
  intros Hp (es & Hes & Hn & ->). destruct (mapM_perm _ _ _ Hp Hes) as (es2 & H2 & Hp2).
  exists es2. split_and!; [done|by rewrite <- Hp2|]. by apply list_to_map_proper.
Qed.

Lemma file_perm l1 l2 : l1 ≡ₚ l2 ->
  foldM (file_entry entry) ∅ l1 = foldM (file_entry entry) ∅ l2.
Proof.
  intros Hp. destruct (foldM (file_entry entry) ∅ l1) as [m|e] eqn:E1.
  - symmetry. apply file_filed. apply (filed_perm l1); [done|]. by apply file_filed.
  - apply file_Err in E1 as He. subst e.
    destruct (foldM (file_entry entry) ∅ l2) as [m|e] eqn:E2.
    + apply file_filed in E2. apply (filed_perm l2 l1) in E2; [|done].
      apply file_filed in E2. congruence.
    + by apply file_Err in E2 as ->.
Qed.

Lemma filed_lookup l m k w : filed entry l m ->
  m !! k = Some w <-> exists x, x ∈ l /\ entry x = Some (k, w).
Proof.
  intros (es & Hes & Hn & ->). rewrite <- elem_of_list_to_map by done. split.
  - intros [i Hi]%list_elem_of_lookup. apply mapM_Some in Hes.
    destruct (Forall2_lookup_r _ _ _ _ _ Hes Hi) as (x & Hx & Hl).
    exists x. split; [by eapply list_elem_of_lookup_2|done].
  - intros (x & [i Hi]%list_elem_of_lookup & He). apply mapM_Some in Hes.
    destruct (Forall2_lookup_l _ _ _ _ _ Hes Hi) as (y & Hy & Hl).
    simplify_eq. by eapply list_elem_of_lookup_2.
Qed.
End Filing.

(** ** Lemmas: tokens *)

Lemma token_rest_plain a : token_rest a = true -> plain_char a = true /\ lower_ascii a = a /\
  ascii_in a 0 127 = true.
Proof.
  destruct a as [[] [] [] [] [] [] [] []]; intros H; try discriminate H; repeat split; reflexivity.
Qed.

Lemma token_fixed `{UnicodeCase} s : validUsageDimensionToken s = true -> TrimSpace s = s /\ ToLower s = s.
Proof.
  unfold validUsageDimensionToken. destruct (_ || _); [done|].
  destruct (String.list_ascii_of_string s) as [|a l] eqn:El; [done|].
  intros [Ha Hl]%andb_true_iff.
  assert (Hall : forallb token_rest (a :: l) = true).
  { cbn. rewrite Hl. unfold token_rest. by rewrite Ha. }
  rewrite <- El in Hall. rewrite forallb_forall in Hall. split.
  - apply TrimSpace_plain. apply forallb_forall. intros x Hx. by apply token_rest_plain, Hall.
  - unfold ToLower, all_ascii.
    assert (E : forallb (fun a => ascii_in a 0 127) (String.list_ascii_of_string s) = true).
    { apply forallb_forall. intros x Hx. by apply token_rest_plain, Hall. }
    rewrite E. rewrite (map_ext_in lower_ascii id); [|intros x Hx; by apply token_rest_plain, Hall].
    by rewrite map_id, String.string_of_list_ascii_of_string.
Qed.

Lemma units_tokens name u : usageDimensionUnits !! name = Some u ->
  validUsageDimensionToken name = true /\ validUsageDimensionToken u = true.
Proof.
  assert (H : map_Forall (fun k v => validUsageDimensionToken k && validUsageDimensionToken v = true)
    usageDimensionUnits) by (apply (bool_decide_unpack _); vm_compute; exact I).
  intros Hn. specialize (H _ _ Hn). cbn in H. by boolify.
Qed.

Lemma confidence_token c :
  oneOf c [UsageConfidenceEstimated; UsageConfidenceObserved; UsageConfidenceReported;
           UsageConfidenceReconciled] = true -> validUsageDimensionToken c = true.
Proof.
  rewrite oneOf_In, !elem_of_cons. intros [->|[->|[->|[->|[]%elem_of_nil]]]]; done.
Qed.

(** ** Lemmas: the entries *)

Lemma foldM_ext {E A B} (f g : B -> A -> result E B) b l :
  (forall b x, f b x = g b x) -> foldM f b l = foldM g b l.
Proof.
  intros H. revert b. induction l as [|x l IH]; intros b; cbn; [done|]. rewrite H.
  destruct (g b x); [apply IH|done].
Qed.

Lemma range_keys {V} `{MapRange} (m : gmap string V) : NoDup (map_range m).*1.
Proof. rewrite map_range_perm. apply NoDup_fst_map_to_list. Qed.

Lemma range_map {V} `{MapRange} (m : gmap string V) : list_to_map (map_range m) = m.
Proof.
  rewrite (list_to_map_proper _ (map_to_list m)); [apply list_to_map_to_list|apply range_keys|].
  apply map_range_perm.
Qed.

Lemma range_perm {V} (r1 r2 : MapRange) (m : gmap string V) : @map_range r1 V m ≡ₚ @map_range r2 V m.
Proof. by rewrite !map_range_perm. Qed.

(** A map whose entries the loop leaves alone is filed as it is. *)
Lemma file_fixed {V} `{MapRange} (entry : string * V -> option (string * V)) m :
  (forall k v, m !! k = Some v -> entry (k, v) = Some (k, v)) ->
  foldM (file_entry entry) ∅ (map_range m) = Ok m.
Proof.
  intros Hfix. apply file_filed. exists (map_range m). split_and!.
  - assert (Hall : Forall (fun x => entry x = Some x) (map_range m)).
    { rewrite map_range_perm. apply Forall_forall. intros [k v] Hkv%elem_of_map_to_list. by apply Hfix. }
    induction Hall as [|x l Hx _ IH]; cbn; [done|]. by rewrite Hx, IH.
  - apply range_keys.
  - symmetry. apply range_map.
Qed.

Section Entries.
Context `{unicode : UnicodeCase}.

Definition attribute_entry (item : string * string) : option (string * string) :=
  let '(rawKey, rawValue) := item in
  let key := ToLower (TrimSpace rawKey) in
  let value := TrimSpace rawValue in
  if negb (validUsageDimensionToken key) || (value =s "") || (go_len value >? 128)
     || ContainsAny value (cr ++ lf ++ nul)
  then None else Some (key, value).

Lemma normalizeAttribute_entry acc item :
  normalizeAttribute acc item = file_entry attribute_entry acc item.
Proof. destruct item as [k v]. unfold normalizeAttribute, file_entry, attribute_entry. by destruct (_ || _). Qed.

Lemma attribute_entry_fixed item k v :
  attribute_entry item = Some (k, v) -> attribute_entry (k, v) = Some (k, v).
Proof.
  destruct item as [rk rv]. unfold attribute_entry at 1. destruct (_ || _) eqn:E; [done|].
  intros [= <- <-]. unfold attribute_entry. boolify.
  destruct (token_fixed _ ltac:(eassumption)) as [E1 E2]. rewrite E1, E2, TrimSpace_idemp.
  match goal with H : validUsageDimensionToken _ = true |- _ => rewrite H end. cbn.
  rewrite (proj2 (String.eqb_neq _ _)) by done. cbn. rewrite Z.gtb_ltb in *.
  match goal with H : ContainsAny _ _ = false |- _ => rewrite H end.
  by rewrite (proj2 (Z.ltb_ge _ _)).
Qed.

Lemma normalizeAttributes_files {range : MapRange} (values : gmap string string) :
  normalizeUsageDimensionAttributes values =
  if map_len values >? 16 then Err ErrUsageDimensionsInvalid
  else foldM (file_entry attribute_entry) ∅ (map_range values).
Proof.
  unfold normalizeUsageDimensionAttributes.
  destruct (Z.eqb_spec (map_len values) 0) as [E|E].
  - unfold map_len in *. assert (values = ∅) as -> by (apply map_size_empty_inv; lia).
    assert (Hr : map_range (∅ : gmap string string) = []).
    { apply Permutation_nil_r. rewrite map_range_perm. by rewrite map_to_list_empty. }
    rewrite Hr. done.
  - destruct (_ >? 16); [done|]. apply foldM_ext. apply normalizeAttribute_entry.
Qed.

Lemma normalizeAttributes_order (r1 r2 : MapRange) values :
  @normalizeUsageDimensionAttributes _ r1 values = @normalizeUsageDimensionAttributes _ r2 values.
Proof.
  rewrite !normalizeAttributes_files. destruct (_ >? 16); [done|]. apply file_perm, range_perm.
Qed.

Lemma filed_size {V W} (entry : string * V -> option (string * W)) l m :
  filed entry l m -> size m = length l.
Proof.
  intros (es & Hes & Hn & ->). rewrite <- length_map_to_list, map_to_list_to_map by done.
  apply mapM_Some in Hes. symmetry. by eapply Forall2_length.
Qed.

Lemma normalizeAttributes_fixed {range : MapRange} values attributes :
  normalizeUsageDimensionAttributes values = Ok attributes ->
  normalizeUsageDimensionAttributes attributes = Ok attributes.
Proof.
  rewrite !normalizeAttributes_files. destruct (_ >? 16) eqn:E; [done|].
  intros H%file_filed. pose proof (filed_size _ _ _ H) as Hs.
  assert (El : map_len attributes = map_len values).
  { unfold map_len. f_equal. rewrite Hs, map_range_perm. apply length_map_to_list. }
  rewrite El, E. apply file_fixed. intros k v Hk.
  apply (filed_lookup _ _ _ _ _ H) in Hk as (x & _ & Hx). by eapply attribute_entry_fixed.
Qed.

Definition dimension_entry {range : MapRange} (item : string * UsageDimension)
    : option (string * UsageDimension) :=
  let '(rawName, rawValue) := item in
  match normalizeDimension ∅ item with
  | Ok m => (fun v => (ToLower (TrimSpace rawName), v)) <$> m !! ToLower (TrimSpace rawName)
  | Err _ => None
  end.

Lemma attributes_Err {range : MapRange} values e :
  normalizeUsageDimensionAttributes values = Err e -> e = ErrUsageDimensionsInvalid.
Proof.
  rewrite normalizeAttributes_files. destruct (_ >? 16); [congruence|]. apply file_Err.
Qed.

Lemma normalizeDimension_entry {range : MapRange} acc item :
  normalizeDimension acc item = file_entry dimension_entry acc item.
Proof.
  destruct item as [rn rv]. unfold file_entry, dimension_entry, normalizeDimension.
  rewrite lookup_empty. set (name := ToLower (TrimSpace rn)).
  destruct (usageDimensionUnits !! name) as [u|]; cbn; [|by destruct (acc !! name)].
  destruct (_ || _); cbn; [by destruct (acc !! name)|].
  destruct (normalizeUsageDimensionAttributes _) as [a|e] eqn:Ea; cbn.
  - rewrite lookup_insert_eq. cbn. by destruct (acc !! name).
  - apply attributes_Err in Ea as ->. by destruct (acc !! name).
Qed.

Lemma dimension_entry_order (r1 r2 : MapRange) item :
  @dimension_entry r1 item = @dimension_entry r2 item.
Proof.
  destruct item as [rn rv]. unfold dimension_entry, normalizeDimension.
  by rewrite (normalizeAttributes_order r1 r2).
Qed.

Lemma dimension_entry_fixed {range : MapRange} item k v :
  dimension_entry item = Some (k, v) -> dimension_entry (k, v) = Some (k, v).
Proof.
  destruct item as [rn rv]. unfold dimension_entry, normalizeDimension. rewrite !lookup_empty.
  set (name := ToLower (TrimSpace rn)).
  destruct (usageDimensionUnits !! name) as [u|] eqn:Eu; [|done].
  destruct (_ || _) eqn:E; [done|]. boolify. cbn in *.
  destruct (normalizeUsageDimensionAttributes (Attributes rv)) as [a|e] eqn:Ea; cbn; [|done].
  rewrite lookup_insert_eq. cbn. intros [= <- <-]. cbn.
  destruct (units_tokens _ _ Eu) as [Hn Hu].
  destruct (token_fixed name Hn) as [-> ->]. rewrite Eu.
  assert (HU : ToLower (TrimSpace (Unit_ rv)) = u) by done. rewrite HU.
  destruct (token_fixed u Hu) as [-> ->].
  match goal with H : validUsageDimensionToken _ = true |- _ =>
    destruct (token_fixed _ H) as [-> ->]; rewrite H end.
  match goal with H : oneOf _ _ = true |- _ =>
    destruct (token_fixed _ (confidence_token _ H)) as [-> ->]; rewrite H end.
  rewrite TrimSpace_idemp, String.eqb_refl. cbn. rewrite Z.gtb_ltb in *.
  rewrite (proj2 (Z.ltb_ge (Quantity rv) 0)) by done. cbn.
  rewrite (proj2 (Z.ltb_ge _ (go_len _))) by done.
  rewrite (normalizeAttributes_fixed _ _ Ea). cbn. by rewrite lookup_insert_eq.
Qed.

Lemma Normalize_files {range : MapRange} (values : UsageDimensionMap) :
  NormalizeUsageDimensions values = foldM (file_entry dimension_entry) ∅ (map_range values).
Proof.
  unfold NormalizeUsageDimensions.
  destruct (Z.eqb_spec (map_len values) 0) as [E|E].
  - unfold map_len in *. assert (values = ∅) as -> by (apply map_size_empty_inv; lia).
    assert (Hr : map_range (∅ : gmap string UsageDimension) = []).
    { apply Permutation_nil_r. rewrite map_range_perm. by rewrite map_to_list_empty. }
    rewrite Hr. done.
  - apply foldM_ext. apply normalizeDimension_entry.
Qed.
End Entries.


(** ** Lemmas: merging and totals *)

Section Merging.
Context `{unicode : UnicodeCase} {range : MapRange}.

Lemma clone_id v : cloneUsageDimension v = v.
Proof.
  unfold cloneUsageDimension. destruct v as [q u s c p a]. cbn.
  destruct (Z.eqb_spec (map_len a) 0) as [E|E].
  - assert (a = ∅) as -> by (apply map_size_empty_inv; unfold map_len in E; lia). done.
  - unfold set. cbn. by rewrite range_map.
Qed.

Lemma mergeLeft_copy acc l :
  NoDup l.*1 -> foldM mergeLeft acc l = Ok (list_to_map l ∪ acc).
Proof.
  revert acc. induction l as [|[k v] l IH]; intros acc; cbn.
  { by rewrite (left_id_L ∅ (∪)). }
  intros [Hk Hn]%NoDup_cons. rewrite clone_id, IH by done. f_equal.
  rewrite <- insert_union_l, <- insert_union_r; [done|]. by apply not_elem_of_list_to_map_1.
Qed.

(** On maps whose units agree the unit conflict does not arise. *)
Lemma mergeRight_copy acc l :
  NoDup l.*1 ->
  (forall k v w, (k, v) ∈ l -> acc !! k = Some w -> Unit_ w = Unit_ v) ->
  foldM mergeRight acc l = Ok (list_to_map l ∪ acc).
Proof.
  revert acc. induction l as [|[k v] l IH]; intros acc Hn Hu; cbn in *.
  { by rewrite (left_id_L ∅ (∪)). }
  apply NoDup_cons in Hn as [Hk Hn].
  assert (Hstep : mergeRight acc (k, v) = Ok (<[k := v]> acc)).
  { unfold mergeRight. rewrite clone_id. destruct (acc !! k) as [w|] eqn:Ew; [|done].
    rewrite (Hu k v w) by (done || apply elem_of_cons; by left).
    by rewrite String.eqb_refl. }
  unfold mergeRight in Hstep. rewrite Hstep. rewrite IH; [f_equal|done|].
  - rewrite <- insert_union_l, <- insert_union_r; [done|]. by apply not_elem_of_list_to_map_1.
  - intros k' v' w' Hin Hw. rewrite lookup_insert_ne in Hw.
    + eapply Hu; [|done]. apply elem_of_cons. by right.
    + intros ->. apply Hk. apply list_elem_of_fmap. by exists (k', v').
Qed.

(** What a normalised dimension looks like. *)
Definition well_formed_dimension (name : string) (value : UsageDimension) : Prop :=
  usageDimensionUnits !! name = Some (Unit_ value) /\
  0 <= Quantity value /\
  validUsageDimensionToken (Source value) = true /\
  oneOf (Confidence value) [UsageConfidenceEstimated; UsageConfidenceObserved;
    UsageConfidenceReported; UsageConfidenceReconciled] = true /\
  go_len (ProcurementPriceSnapshotID value) <= 160 /\
  map_len (Attributes value) <= 16 /\
  map_Forall (fun k v => validUsageDimensionToken k = true /\ v <> ""%string /\ go_len v <= 128)
    (Attributes value).

Lemma normalizeAttributes_sound values attributes :
  normalizeUsageDimensionAttributes values = Ok attributes ->
  map_len attributes <= 16 /\
  map_Forall (fun k v => validUsageDimensionToken k = true /\ v <> ""%string /\ go_len v <= 128)
    attributes.
Proof.
  rewrite normalizeAttributes_files. destruct (_ >? 16) eqn:E; [done|].
  intros H%file_filed. rewrite Z.gtb_ltb in E. apply Z.ltb_ge in E. split.
  - unfold map_len in *. rewrite (filed_size _ _ _ H), map_range_perm, length_map_to_list. done.
  - intros k v Hk. apply (filed_lookup _ _ _ _ _ H) in Hk as ([rk rv] & _ & Hx).
    unfold attribute_entry in Hx. destruct (_ || _) eqn:E2; [done|]. injection Hx as <- <-.
    boolify. split_and!; [done|done|]. lia.
Qed.

Lemma dimension_entry_sound item name value :
  dimension_entry item = Some (name, value) -> well_formed_dimension name value.
Proof.
  destruct item as [rn rv]. unfold dimension_entry, normalizeDimension. rewrite lookup_empty.
  set (n := ToLower (TrimSpace rn)).
  destruct (usageDimensionUnits !! n) as [u|] eqn:Eu; [|done].
  destruct (_ || _) eqn:E; [done|]. boolify. cbn in *.
  destruct (normalizeUsageDimensionAttributes (Attributes rv)) as [a|e] eqn:Ea; cbn; [|done].
  rewrite lookup_insert_eq. cbn. intros [= <- <-].
  apply normalizeAttributes_sound in Ea as [Ha1 Ha2].
  unfold well_formed_dimension. cbn. split_and!; try done; try congruence; lia.
Qed.

Lemma Normalize_sound values normalized :
  NormalizeUsageDimensions values = Ok normalized -> map_Forall well_formed_dimension normalized.
Proof.
  rewrite Normalize_files. intros H%file_filed k v Hk.
  apply (filed_lookup _ _ _ _ _ H) in Hk as (x & _ & Hx). by eapply dimension_entry_sound.
Qed.

Lemma well_formed_merge (left right : UsageDimensionMap) :
  map_Forall well_formed_dimension left -> map_Forall well_formed_dimension right ->
  (merged ← foldM mergeLeft ∅ (map_range left); foldM mergeRight merged (map_range right))
  = Ok (right ∪ left).
Proof.
  intros Hl Hr. rewrite mergeLeft_copy by apply range_keys. cbn.
  rewrite range_map, (right_id_L ∅ (∪)). rewrite mergeRight_copy; [by rewrite range_map|apply range_keys|].
  intros k v w Hk Hw. rewrite map_range_perm in Hk. apply elem_of_map_to_list in Hk.
  destruct (Hl _ _ Hw) as [E1 _], (Hr _ _ Hk) as [E2 _]. congruence.
Qed.
End Merging.

Lemma saturating_spec_nonneg left right :
  0 <= left <= max_int64 -> 0 <= right <= max_int64 ->
  saturatingUsageAdd left right = saturated (left + right).
Proof.
  intros Hl Hr. rewrite saturatingUsageAdd_spec by (unfold in_int64, min_int64 in *; lia).
  f_equal. lia.
Qed.

(** A column of a list of totals added one by one, starting from [z]. *)
Lemma saturating_fold {A} (f : A -> Z) l z :
  0 <= z <= max_int64 -> (forall x, x ∈ l -> in_int64 (f x)) ->
  foldl (fun acc x => saturatingUsageAdd acc (f x)) z l
  = saturated (z + sum_Z (fun x => Z.max 0 (f x)) l).
Proof.
  revert z. induction l as [|x l IH]; intros z Hz Hl; cbn.
  { unfold saturated. lia. }
  assert (Hx : in_int64 (f x)) by (apply Hl, elem_of_cons; by left).
  rewrite saturatingUsageAdd_spec; [|unfold in_int64, min_int64 in *; lia|done].
  assert (Hn : 0 <= sum_Z (fun x => Z.max 0 (f x)) l) by (apply sum_Z_nonneg; intros; lia).
  rewrite IH.
  - unfold saturated. lia.
  - pose proof (saturated_range (Z.max 0 z + Z.max 0 (f x)) ltac:(lia)). tauto.
  - intros y Hy. apply Hl, elem_of_cons. by right.
Qed.

(** ** Lemmas: the normal form *)

Section NormalForm.
Context `{unicode : UnicodeCase}.

Lemma Normalize_order (r1 r2 : MapRange) (values : gmap string UsageDimension) :
  @NormalizeUsageDimensions _ r1 values = @NormalizeUsageDimensions _ r2 values.
Proof.
  rewrite (Normalize_files (range := r1)), (Normalize_files (range := r2)).
  rewrite (foldM_ext _ (file_entry (@dimension_entry _ r2))).
  - apply file_perm, range_perm.
  - intros b x. unfold file_entry. by rewrite (dimension_entry_order r1 r2).
Qed.

Lemma Normalize_fixed {range : MapRange} (values normalized : gmap string UsageDimension) :
  NormalizeUsageDimensions values = Ok normalized ->
  NormalizeUsageDimensions normalized = Ok normalized.
Proof.
  intros Hn. rewrite Normalize_files in *. apply file_filed in Hn.
  apply file_fixed. intros k v Hk.
  apply (filed_lookup _ _ _ _ _ Hn) in Hk as (x & _ & Hx). by eapply dimension_entry_fixed.
Qed.
End NormalForm.

(** ** The stored form *)

(** The part of the documented behaviour of [encoding/json] the stored form rests
    on, for maps of ASCII texts: encoding succeeds, decoding gives the map back,
    and the text is an object, which has no space around it. *)
Definition ascii_dimension (d : UsageDimension) : Prop :=
  Forall (fun s => all_ascii s = true) [Unit_ d; Source d; Confidence d; ProcurementPriceSnapshotID d] /\
  map_Forall (fun k v => all_ascii k = true /\ all_ascii v = true) (Attributes d).
Definition ascii_dimensions (m : gmap string UsageDimension) : Prop :=
  map_Forall (fun k d => all_ascii k = true /\ ascii_dimension d) m.
#[export] Instance ascii_dimensions_dec m : Decision (ascii_dimensions m).
Proof. unfold ascii_dimensions, ascii_dimension. apply _. Defined.
Definition json_codec (Marshal : gmap string UsageDimension -> result go_error string)
    (Unmarshal : string -> result go_error (gmap string UsageDimension)) : Prop :=
  forall m, ascii_dimensions m -> exists text, Marshal m = Ok text /\ Unmarshal text = Ok m /\
    TrimSpace text = text /\ text ∉ [""; "null"]%string.

(** ** Properties *)

Section Properties.
Context `{unicode : UnicodeCase}.

(** A usage map is brought to a normal form that does not depend on the
    order in which Go visits the map: an accepted map holds only known
    dimensions in their own unit, with non-negative quantities, valid sources
    and confidences and bounded attributes, and it is left alone when it is
    normalised again. *)
Theorem NormalizeUsageDimensions_canonical (r1 r2 : MapRange) (values : gmap string UsageDimension) :
  @NormalizeUsageDimensions _ r1 values = @NormalizeUsageDimensions _ r2 values /\
  forall normalized, @NormalizeUsageDimensions _ r1 values = Ok normalized ->
    map_Forall well_formed_dimension normalized /\
    @NormalizeUsageDimensions _ r2 normalized = Ok normalized.
Proof.
  split; [apply Normalize_order|]. intros normalized Hn. split; [exact (Normalize_sound (range := r1) _ _ Hn)|].
  rewrite (Normalize_order r1 r2) in Hn. by apply Normalize_fixed in Hn.
Qed.

(** Merging two usage maps yields the union of their normal forms, in which
    the second map wins on a dimension both report; it fails exactly when one
    of the two is invalid, the unit conflict of the merge loop never arising on
    normalised maps, whatever order the maps are visited in. *)
Theorem MergeUsageDimensions_union {range : MapRange} (left right merged : gmap string UsageDimension) :
  MergeUsageDimensions left right = Ok merged <->
  exists nl nr, NormalizeUsageDimensions left = Ok nl /\ NormalizeUsageDimensions right = Ok nr /\
    merged = nr ∪ nl.
Proof.
  unfold MergeUsageDimensions. split.
  - destruct (NormalizeUsageDimensions left) as [nl|e] eqn:El; cbn; [|done].
    destruct (NormalizeUsageDimensions right) as [nr|e] eqn:Er; cbn; [|done].
    rewrite well_formed_merge by (by eapply Normalize_sound). intros [= <-]. by eauto.
  - intros (nl & nr & El & Er & ->). rewrite El, Er. cbn.
    apply well_formed_merge; by eapply Normalize_sound.
Qed.

(** C23. What is stored of a usage map whose normal form is plain ASCII is what is
    read back, given a JSON codec that reads the ASCII maps it writes: the JSON of
    the map decodes to its normal form, encoding that form again gives the same
    text, and two such maps are equal as the settlement compares them exactly when
    their normal forms are.  Outside ASCII this need not hold: Go's encoder
    replaces every byte that is not UTF-8 by one and the same character. *)
Theorem usage_dimensions_roundtrip {range : MapRange} Marshal Unmarshal (left right nl nr : gmap string UsageDimension) :
  json_codec Marshal Unmarshal ->
  NormalizeUsageDimensions left = Ok nl -> NormalizeUsageDimensions right = Ok nr ->
  ascii_dimensions nl -> ascii_dimensions nr ->
  (exists text, UsageDimensionsJSON Marshal left = Ok text /\
     ParseUsageDimensionsJSON Unmarshal text = Ok nl /\ UsageDimensionsJSON Marshal nl = Ok text) /\
  (usageDimensionsEqual Marshal left right = true <-> nl = nr).
Proof.
  intros Hjson Hl Hr Al Ar. destruct (Hjson nl Al) as (tl & Ml & Ul & Tl & Nl), (Hjson nr Ar) as (tr & Mr & Ur & _).
  pose proof (Normalize_fixed left nl Hl) as Fl. split.
  - exists tl. unfold UsageDimensionsJSON, ParseUsageDimensionsJSON. rewrite Hl, Fl. cbn.
    split_and!; [done| |done]. rewrite Tl, Ul.
    apply not_elem_of_cons in Nl as [N1 [N2 _]%not_elem_of_cons].
    by rewrite (proj2 (String.eqb_neq _ _) N1), (proj2 (String.eqb_neq _ _) N2).
  - unfold usageDimensionsEqual, UsageDimensionsJSON. rewrite Hl, Hr. cbn. rewrite Ml, Mr, String.eqb_eq.
    split; [intros ->; congruence|intros ->; congruence].
Qed.
End Properties.

(** Totals of usage records accumulated one after the other are the true sums
    of their (non-negative parts of the) quantities cut off at the largest
    [int64]: no addition wraps, and the order of the records does not matter. *)
Theorem totals_saturate (l : list UsageDimensionTotals) :
  (forall t, t ∈ l -> in_int64 (OutputImages t) /\ in_int64 (VideoMilliseconds t)
                      /\ in_int64 (AudioMilliseconds t)) ->
  let total (f : UsageDimensionTotals -> Z) := saturated (sum_Z (fun t => Z.max 0 (f t)) l) in
  foldl addUsageDimensionTotals noTotals l
  = mkTotals (total OutputImages) (total VideoMilliseconds) (total AudioMilliseconds).
Proof.
  intros Hl total. unfold total.
  pose proof (fun f H => saturating_fold f l 0 ltac:(unfold max_int64; lia) H) as Hf.
  rewrite <- (Z.add_0_l (sum_Z (fun t => Z.max 0 (OutputImages t)) l)).
  rewrite <- (Z.add_0_l (sum_Z (fun t => Z.max 0 (VideoMilliseconds t)) l)).
  rewrite <- (Z.add_0_l (sum_Z (fun t => Z.max 0 (AudioMilliseconds t)) l)).
  rewrite <- !Hf by (intros t Ht; by apply Hl).
  assert (Hgen : forall a b c, foldl addUsageDimensionTotals (mkTotals a b c) l
    = mkTotals (foldl (fun acc x => saturatingUsageAdd acc (OutputImages x)) a l)
        (foldl (fun acc x => saturatingUsageAdd acc (VideoMilliseconds x)) b l)
        (foldl (fun acc x => saturatingUsageAdd acc (AudioMilliseconds x)) c l)).
  { clear Hf Hl total. induction l as [|x l IH]; intros a b c; cbn; [done|]. apply IH. }
  apply Hgen.
Qed.

Example totals_saturate_witness :
  foldl addUsageDimensionTotals noTotals
    [mkTotals 3 (max_int64 - 1) 5; mkTotals 4 2 (-7)] = mkTotals 7 max_int64 5.
Proof.
  rewrite (totals_saturate [mkTotals 3 (max_int64 - 1) 5; mkTotals 4 2 (-7)]).
  - vm_compute. reflexivity.
  - intros t [->|[->|[]%elem_of_nil]%elem_of_cons]%elem_of_cons; unfold in_int64, min_int64, max_int64; cbn; lia.
Defined.

Section Concrete.
#[local] Existing Instance canonical_range.
#[local] Instance no_unicode : UnicodeCase := fun s => s.

Definition two_images : gmap string UsageDimension := {[
  " Output_Images "%string := mkDimension 2 "COUNT" "Upstream" "reported" " snap " {[ " Size "%string := " big "%string ]} ]}.

Example NormalizeUsageDimensions_canonical_witness :
  NormalizeUsageDimensions {[ "output_images"%string :=
    mkDimension 2 "count" "upstream" "reported" "snap" {[ "size"%string := "big"%string ]} ]}
  = Ok {[ "output_images"%string :=
    mkDimension 2 "count" "upstream" "reported" "snap" {[ "size"%string := "big"%string ]} ]}.
Proof.
  apply (NormalizeUsageDimensions_canonical canonical_range canonical_range two_images).
  vm_compute. reflexivity.
Defined.
End Concrete.

(** An encoding that has the properties asked for: the number of the map in a
    countable enumeration, in decimal. *)
Module Codec.
#[local] Instance dimension_countable : Countable UsageDimension.
Proof.
  refine (inj_countable'
    (fun d => (Quantity d, Unit_ d, Source d, Confidence d, ProcurementPriceSnapshotID d, Attributes d))
    (fun x => let '(q, u, s, c, p, a) := x in mkDimension q u s c p a) _).
  by intros [].
Defined.

Definition Marshal (m : gmap string UsageDimension) : result go_error string := Ok (Itoa_N (N.pos (encode m))).
Definition Unmarshal (text : string) : result go_error (gmap string UsageDimension) :=
  match digits_value 0 text with
  | N.pos p => match decode p with Some m => Ok m | None => Err ErrUsageDimensionsInvalid end
  | N0 => Err ErrUsageDimensionsInvalid
  end.

Lemma digits_plain s : all_digits s = true -> forallb plain_char (String.list_ascii_of_string s) = true.
Proof.
  induction s as [|a s IH]; cbn; [done|]. intros [Ha Hs]%andb_true_iff. rewrite IH by done.
  unfold is_digit, plain_char, ascii_in in *. apply andb_true_iff in Ha as [H1 H2].
  apply N.leb_le in H1, H2. rewrite andb_true_r. apply andb_true_iff. split; apply N.leb_le; lia.
Qed.

Lemma codec : json_codec Marshal Unmarshal.
Proof.
  intros m _. destruct (Itoa_N_digits (N.pos (encode m))) as [Hd Hv]. exists (Itoa_N (N.pos (encode m))).
  unfold Unmarshal. rewrite Hv, decode_encode.
  split_and!; [done|done|by apply TrimSpace_plain, digits_plain|].
  intros [E|[E|[]%elem_of_nil]%elem_of_cons]%elem_of_cons; rewrite E in *; [discriminate Hv|discriminate Hd].
Qed.
End Codec.

Lemma usage_dimensions_roundtrip_witness :
  usageDimensionsEqual (unicode := no_unicode) (range := canonical_range) Codec.Marshal two_images two_images = true.
Proof.
  set (r := NormalizeUsageDimensions (unicode := no_unicode) (range := canonical_range) two_images).
  assert (An : bool_decide (ascii_dimensions (match r with Ok n => n | Err _ => ∅ end)) = true)
    by (vm_compute; reflexivity).
  assert (En : match r with Ok _ => true | Err _ => false end = true) by (vm_compute; reflexivity).
  destruct r as [n|e] eqn:Er; [clear En|discriminate En]. apply bool_decide_eq_true in An. unfold r in Er.
  exact (proj2 (proj2 (usage_dimensions_roundtrip (unicode := no_unicode) (range := canonical_range)
    Codec.Marshal Codec.Unmarshal two_images two_images n n Codec.codec Er Er An An)) eq_refl).
Defined.
