(* ===== verification/Calendar.v ===== *)
(** * The calendar

    What the control plane uses of Go's [time] package beyond instants: the first
    instant of a UTC month ([time.Date(y, m, 1, ...)], as in [monthStart] of
    [backend/internal/controlplane/service.go] and [newBillingHoldAdmission] of
    [billing_hold.go]) and [AddDate(0, 1, 0)].  Days are counted from Go's zero
    time, the first of January of year 1; years start in March while counting,
    so that the leap day comes last. *)

From S2P Require Import Prelude.

Definition day : duration := 24 * hour.

(** The year, month and day of a day number (the proleptic Gregorian calendar),
    and the number of the first day of a month. *)
Definition civil (days : Z) : Z * Z * Z :=
  let z := days + 306 in
  let era := z / 146097 in
  let doe := z mod 146097 in
  let yoe := (doe - doe / 1460 + doe / 36524 - doe / 146096) / 365 in
  let doy := doe - (365 * yoe + yoe / 4 - yoe / 100) in
  let mp := (5 * doy + 2) / 153 in
  let m := if mp <? 10 then mp + 3 else mp - 9 in
  (yoe + era * 400 + (if m <=? 2 then 1 else 0), m, doy - (153 * mp + 2) / 5 + 1).

Definition first_of_month (y m : Z) : Z :=
  let y := if m <=? 2 then y - 1 else y in
  let yoe := y mod 400 in
  let doy := (153 * (if m >? 2 then m - 3 else m + 9) + 2) / 5 in
  y / 400 * 146097 + (yoe * 365 + yoe / 4 - yoe / 100 + doy) - 306.

Definition next_month (y m : Z) : Z * Z := if m =? 12 then (y + 1, 1) else (y, m + 1).

(** [time.Date(now.Year(), now.Month(), 1, 0, 0, 0, 0, time.UTC)] *)
Definition monthStart (now : time) : time :=
  let '(y, m, _) := civil (now / day) in first_of_month y m * day.
#[global] Arguments monthStart : simpl never.

(** [t.AddDate(0, 1, 0)]: a day past the end of the month runs over. *)
Definition AddMonth (t : time) : time :=
  let '(y, m, d) := civil (t / day) in
  let '(y', m') := next_month y m in
  (first_of_month y' m' + (d - 1)) * day + t mod day.

(** Tested against dates known from elsewhere: 1970-01-01 is day 719162, and
    2024-02-29 runs over into March when a year's February is shorter. *)
Example civil_epoch : civil 719162 = (1970, 1, 1). Proof. reflexivity. Qed.
Example civil_leap : civil (719162 + 19782) = (2024, 2, 29). Proof. reflexivity. Qed.
Example add_month_overflow :
  civil (AddMonth ((719162 + 19753) * day) / day) = (2024, 3, 2). Proof. vm_compute. reflexivity. Qed.
Example month_of_leap_day :
  monthStart ((719162 + 19782) * day + 5) = (719162 + 19754) * day /\
  AddMonth (monthStart ((719162 + 19782) * day + 5)) = (719162 + 19783) * day.
Proof. split; vm_compute; reflexivity. Qed.
