(* ===== verification/GoTime.v ===== *)
(** * Parsing instants

    [time.Parse] of Go for the two layouts the control plane reads,
    [time.RFC3339] and ["2006-01-02"]: the general scanner of package [time], field
    by field, and [parseOptionalDate] of
    [backend/internal/controlplane/service.go]. *)

From Stdlib Require Import Ascii.
From S2P Require Import Prelude Calendar.

(** ** Fields *)

Definition is_digit (a : ascii) : bool := ascii_in a 48 57.
Definition digit_value (a : ascii) : Z := Z.of_N (N_of_ascii a) - 48.

(** [skip] of one character of the layout that is not a space. *)
Definition skip_char (c : ascii) (value : list ascii) : option (list ascii) :=
  match value with a :: rest => if Ascii.eqb a c then Some rest else None | [] => None end.

(** [getnum]: one or two digits, two of them when [fixed]. *)
Definition getnum (value : list ascii) (fixed : bool) : option (Z * list ascii) :=
  match value with
  | a :: rest =>
      if negb (is_digit a) then None else
      match rest with
      | b :: rest' => if is_digit b then Some (digit_value a * 10 + digit_value b, rest')
                      else if fixed then None else Some (digit_value a, rest)
      | [] => if fixed then None else Some (digit_value a, rest)
      end
  | [] => None
  end.

Definition in_range (lo hi : Z) (x : Z * list ascii) : option (Z * list ascii) :=
  if (lo <=? x.1) && (x.1 <=? hi) then Some x else None.

(** The four digits of a year. *)
Definition get_year (value : list ascii) : option (Z * list ascii) :=
  match value with
  | a :: b :: c :: d :: rest =>
      if is_digit a && is_digit b && is_digit c && is_digit d
      then Some (digit_value a * 1000 + digit_value b * 100 + digit_value c * 10 + digit_value d, rest)
      else None
  | _ => None
  end.

(** [parseNanoseconds]: the first nine digits of a fraction. *)
Fixpoint digits_of (value : list ascii) : list ascii * list ascii :=
  match value with
  | a :: rest => if is_digit a then let '(ds, rest') := digits_of rest in (a :: ds, rest') else ([], value)
  | [] => ([], [])
  end.
Fixpoint nanoseconds (scale : Z) (digits : list ascii) : Z :=
  match digits with
  | a :: rest => if scale =? 0 then 0 else digit_value a * scale + nanoseconds (scale / 10) rest
  | [] => 0
  end.
Definition get_fraction (value : list ascii) : Z * list ascii :=
  match value with
  | p :: d :: _ =>
      if (Ascii.eqb p "." || Ascii.eqb p ",") && is_digit d then
        let '(ds, rest) := digits_of (tail value) in (nanoseconds 100000000 ds, rest)
      else (0, value)
  | _ => (0, value)
  end.

(** The offset of a zone in seconds: [Z], or a sign, hours and minutes; offsets
    of 24 hours and of 60 minutes are let through. *)
Definition get_zone (value : list ascii) : option (Z * list ascii) :=
  match value with
  | a :: rest =>
      if Ascii.eqb a "Z" then Some (0, rest) else
      match rest with
      | h1 :: h2 :: c :: m1 :: m2 :: rest' =>
          if negb (Ascii.eqb c ":") then None else
          h ← getnum [h1; h2] true; m ← getnum [m1; m2] true;
          h ← in_range 0 24 h; m ← in_range 0 60 m;
          let offset := (h.1 * 60 + m.1) * 60 in
          if Ascii.eqb a "+" then Some (offset, rest')
          else if Ascii.eqb a "-" then Some (- offset, rest') else None
      | _ => None
      end
  | [] => None
  end.

(** ** The calendar *)

Definition is_leap (year : Z) : bool :=
  (year mod 4 =? 0) && (negb (year mod 100 =? 0) || (year mod 400 =? 0)).
Definition daysIn (month year : Z) : Z :=
  if month =? 2 then (if is_leap year then 29 else 28)
  else 30 + (month + month / 8) mod 2.

(** The year, month and day at the start of a value; the month may be checked
    at once, the day only with the month at the end. *)
Definition get_date (value : list ascii) : option ((Z * Z * Z) * list ascii) :=
  '(year, value) ← get_year value; value ← skip_char "-" value;
  '(month, value) ← getnum value true ≫= in_range 1 12; value ← skip_char "-" value;
  '(day_, value) ← getnum value true; Some ((year, month, day_), value).

Definition date_at (date : Z * Z * Z) : option time :=
  let '(year, month, day_) := date in
  if (1 <=? day_) && (day_ <=? daysIn month year)
  then Some ((first_of_month year month + (day_ - 1)) * day) else None.

Definition at_end {A} (a : A) (value : list ascii) : option A :=
  match value with [] => Some a | _ => None end.

(** [time.Parse(time.RFC3339, value)] *)
Definition parse_RFC3339 (value : string) : option time :=
  '(date, value) ← get_date (String.list_ascii_of_string value); value ← skip_char "T" value;
  '(hours, value) ← getnum value false ≫= in_range 0 23; value ← skip_char ":" value;
  '(minutes, value) ← getnum value true ≫= in_range 0 59; value ← skip_char ":" value;
  '(seconds, value) ← getnum value true ≫= in_range 0 59;
  let '(nanos, value) := get_fraction value in
  '(offset, value) ← get_zone value;
  _ ← at_end tt value;
  midnight ← date_at date;
  Some (midnight + hours * hour + minutes * minute + seconds * second + nanos - offset * second).

(** [time.Parse("2006-01-02", value)] *)
Definition parse_day (value : string) : option time :=
  '(date, value) ← get_date (String.list_ascii_of_string value);
  _ ← at_end tt value;
  date_at date.

Definition parseOptionalDate (value : string) : result go_error (option time) :=
  let value := TrimSpace value in
  if value =s "" then Ok None else
  match parse_RFC3339 value with
  | Some parsed => Ok (Some parsed)
  | None =>
      match parse_day value with
      | Some day_ => Ok (Some day_)
      | None => Err (ErrNew "expires_at must be RFC3339 or YYYY-MM-DD")
      end
  end.

(** Tested against instants known from elsewhere: the epoch of Unix is
    62135596800 seconds after the zero time. *)
Example parse_epoch :
  parseOptionalDate " 1970-01-01T00:00:00Z " = Ok (Some (62135596800 * second)). Proof. vm_compute. reflexivity. Qed.
Example parse_offset :
  parseOptionalDate "2024-02-29T23:59:59.25+01:00" = Ok (Some ((62135596800 + 1709247599) * second + 250000000)).
Proof. vm_compute. reflexivity. Qed.
Example parse_no_leap : parseOptionalDate "2023-02-29" =
  Err (ErrNew "expires_at must be RFC3339 or YYYY-MM-DD"). Proof. vm_compute. reflexivity. Qed.
Example parse_date : parseOptionalDate "2024-03-01" = Ok (Some ((62135596800 + 1709251200) * second)).
Proof. vm_compute. reflexivity. Qed.
