(* ===== verification/Repository.v ===== *)
(** * Control plane: records and the in-memory repository

    The data of [backend/internal/controlplane]: operations, attempts, jobs and
    their events ([operation_model.go], [ai_job_model.go]), billing holds and
    ledger entries ([billing_hold.go], [operation_model.go]), pricing evaluations
    ([pricing_model.go]), usage records and audit logs ([model.go]), outbox
    events and artifacts ([artifact_model.go]); and the maps of
    [MemoryRepository] that the job, billing and outbox operations share.  Each
    struct is a module, so that its fields keep their names. *)

From S2P Require Import Prelude Sha256 PricingMoney PricingRule PricingEval UsageDimensions AccessModel RoutingModel.
From Stdlib Require Import Ascii.

(** ** Constants *)

Definition AIOperationStatusAccepted := "accepted"%string.
Definition AIOperationStatusRunning := "running"%string.
Definition AIOperationStatusSucceeded := "succeeded"%string.
Definition AIOperationStatusFailed := "failed"%string.
Definition AIOperationStatusCanceled := "canceled"%string.
Definition AIAttemptStatusRunning := "running"%string.
Definition AIAttemptStatusSucceeded := "succeeded"%string.
Definition AIAttemptStatusFailed := "failed"%string.
Definition AIAttemptStatusSkipped := "skipped"%string.
Definition AIAttemptStatusCanceled := "canceled"%string.
Definition AIAttemptDispatchPending := "pending"%string.
Definition AIAttemptDispatchPrepared := "prepared"%string.
Definition AIAttemptDispatchSubmitted := "submitted"%string.
Definition AIAttemptDispatchAccepted := "accepted"%string.
Definition AIAttemptDispatchUnknown := "unknown"%string.
Definition AIAttemptDispatchProvenNotCreated := "proven_not_created"%string.
Definition BillingLedgerStatusApplied := "applied"%string.
Definition OutboxStatusPending := "pending"%string.
Definition OutboxStatusPublishing := "publishing"%string.
Definition OutboxStatusPublished := "published"%string.
Definition OutboxStatusDeadLetter := "dead_letter"%string.
Definition OutboxEventUsageRecorded := "usage.recorded.v1"%string.
Definition OutboxDefaultMaxAttempts : Z := 20.

Definition AIJobStatusAccepted := "accepted"%string.
Definition AIJobStatusQueued := "queued"%string.
Definition AIJobStatusDispatching := "dispatching"%string.
Definition AIJobStatusRunning := "running"%string.
Definition AIJobStatusCanceling := "canceling"%string.
Definition AIJobStatusCanceled := "canceled"%string.
Definition AIJobStatusSucceeded := "succeeded"%string.
Definition AIJobStatusFailed := "failed"%string.
Definition AIJobStatusUnknown := "unknown"%string.
Definition AIJobStatusExpired := "expired"%string.
Definition AIJobEventQueued := "job.queued"%string.
Definition AIJobEventScheduled := "job.scheduled"%string.
Definition AIJobEventRunning := "job.running"%string.
Definition AIJobEventCancelling := "job.cancelling"%string.
Definition AIJobEventCancelled := "job.cancelled"%string.
Definition AIJobEventCompleted := "job.completed"%string.
Definition AIJobEventFailed := "job.failed"%string.
Definition AIJobEventUnknown := "job.unknown"%string.
Definition AIJobEventExpired := "job.expired"%string.
Definition AIJobEventLeaseReassigned := "job.lease.reassigned"%string.
Definition AIJobEventProgress := "job.progress"%string.
Definition AIJobOutboxAggregate := "ai_job"%string.

Definition BillingHoldStatusReserved := "reserved"%string.
Definition BillingHoldStatusCommitted := "committed"%string.
Definition BillingHoldStatusSettled := "settled"%string.
Definition BillingHoldStatusReleased := "released"%string.
Definition BillingHoldStatusDisputed := "disputed"%string.

Definition PricingPurposeUsageCost := "usage_cost"%string.
Definition PricingScopeGlobal := "global"%string.
Definition PricingRuleStatusActive := "active"%string.
Definition PricingRuleStatusDisabled := "disabled"%string.
Definition PricingVersionStateDraft := "draft"%string.
Definition PricingVersionStatePublished := "published"%string.
Definition PricingAuthoringVisual := "visual"%string.
Definition PricingAuthoringRaw := "raw"%string.
Definition PricingEvaluationStatusSuccess := "succeeded"%string.
Definition PricingEvaluationStatusFailed := "failed"%string.
Definition PricingEvaluationStatusDisputed := "disputed"%string.

Definition ArtifactStatusPending := "pending"%string.
Definition ArtifactStatusUploading := "uploading"%string.
Definition ArtifactStatusReady := "ready"%string.
Definition ArtifactStatusFailed := "failed"%string.
Definition ArtifactStatusDelivering := "delivering"%string.
Definition ArtifactStatusDelivered := "delivered"%string.
Definition ArtifactStatusDeliveryFailed := "delivery_failed"%string.
Definition ArtifactStatusDeleteRequested := "delete_requested"%string.
Definition ArtifactStatusDeleting := "deleting"%string.
Definition ArtifactStatusDeleted := "deleted"%string.
Definition ArtifactStatusDeleteFailed := "delete_failed"%string.
Definition ArtifactStatusExpired := "expired"%string.

(** ** Records *)

Module AIOperation.
Record t := mk {
  ID : string;
  ApplicationID : string;
  CredentialID : string;
  CredentialSource : string;
  IntegrationID : string;
  PrincipalType : string;
  PrincipalID : string;
  ExternalSubjectReference : string;
  ClientRequestID : string;
  RequestFingerprint : string;
  IdempotencyKey : string;
  Protocol : string;
  Operation : string;
  Modality : string;
  Lane : string;
  Model : string;
  ArtifactPolicy : string;
  ArtifactSinkID : string;
  Status : string;
  ErrorType : string;
  CreatedAt : time;
  UpdatedAt : time;
  CompletedAt : option time;
}.
#[export] Instance settable : Settable t := fun r => mk
  (ID r) (ApplicationID r) (CredentialID r) (CredentialSource r) (IntegrationID r)
  (PrincipalType r) (PrincipalID r) (ExternalSubjectReference r) (ClientRequestID r)
  (RequestFingerprint r) (IdempotencyKey r) (Protocol r) (Operation r) (Modality r) (Lane r)
  (Model r) (ArtifactPolicy r) (ArtifactSinkID r) (Status r) (ErrorType r) (CreatedAt r)
  (UpdatedAt r) (CompletedAt r).
Definition zero : t := mk
  "" "" "" "" "" "" "" "" "" "" "" "" "" "" "" "" "" "" "" "" 0 0 None.
End AIOperation.
Export (hints) AIOperation.

Module AIAttempt.
Record t := mk {
  ID : string;
  OperationID : string;
  AttemptNumber : Z;
  ProviderID : string;
  ProviderAccountID : string;
  ProviderAdapterID : string;
  RouteID : string;
  UpstreamModel : string;
  Status : string;
  ErrorType : string;
  DispatchState : string;
  DispatchVersion : Z;
  DispatchKey : string;
  DispatchIntentJSON : string;
  DispatchSubmittedAt : option time;
  ProviderTaskID : string;
  ProviderRequestID : string;
  ProviderTaskStatus : string;
  ProviderAcceptedAt : option time;
  LastReconciledAt : option time;
  ReconcileAfter : option time;
  CreatedAt : time;
  UpdatedAt : time;
  CompletedAt : option time;
}.
#[export] Instance settable : Settable t := fun r => mk
  (ID r) (OperationID r) (AttemptNumber r) (ProviderID r) (ProviderAccountID r)
  (ProviderAdapterID r) (RouteID r) (UpstreamModel r) (Status r) (ErrorType r)
  (DispatchState r) (DispatchVersion r) (DispatchKey r) (DispatchIntentJSON r)
  (DispatchSubmittedAt r) (ProviderTaskID r) (ProviderRequestID r) (ProviderTaskStatus r)
  (ProviderAcceptedAt r) (LastReconciledAt r) (ReconcileAfter r) (CreatedAt r) (UpdatedAt r)
  (CompletedAt r).
Definition zero : t := mk
  "" "" 0 "" "" "" "" "" "" "" "" 0 "" "" None "" "" "" None None None 0 0 None.
End AIAttempt.
Export (hints) AIAttempt.

Module AIJob.
Record t := mk {
  ID : string;
  OperationID : string;
  ApplicationID : string;
  CredentialID : string;
  CredentialSource : string;
  IntegrationID : string;
  PrincipalType : string;
  PrincipalID : string;
  ExternalSubjectReference : string;
  RequestFingerprint : string;
  IdempotencyKey : string;
  Protocol : string;
  Operation : string;
  Modality : string;
  Model : string;
  ArtifactPolicy : string;
  ArtifactSinkID : string;
  RequestPayload : string;
  RequestPayloadCiphertext : string;
  Status : string;
  StatusVersion : Z;
  Priority : Z;
  NextEligibleAt : time;
  QueueLeaseUntil : option time;
  QueueLeaseToken : string;
  QueueWorkerID : string;
  FenceToken : Z;
  ErrorType : string;
  CreatedAt : time;
  UpdatedAt : time;
  CompletedAt : option time;
  ExpiresAt : time;
}.
#[export] Instance settable : Settable t := fun r => mk
  (ID r) (OperationID r) (ApplicationID r) (CredentialID r) (CredentialSource r)
  (IntegrationID r) (PrincipalType r) (PrincipalID r) (ExternalSubjectReference r)
  (RequestFingerprint r) (IdempotencyKey r) (Protocol r) (Operation r) (Modality r) (Model r)
  (ArtifactPolicy r) (ArtifactSinkID r) (RequestPayload r) (RequestPayloadCiphertext r)
  (Status r) (StatusVersion r) (Priority r) (NextEligibleAt r) (QueueLeaseUntil r)
  (QueueLeaseToken r) (QueueWorkerID r) (FenceToken r) (ErrorType r) (CreatedAt r)
  (UpdatedAt r) (CompletedAt r) (ExpiresAt r).
Definition zero : t := mk
  "" "" "" "" "" "" "" "" "" "" "" "" "" "" "" "" "" "" "" "" 0 0 0 None "" "" 0 "" 0 0 None 0.
End AIJob.
Export (hints) AIJob.

Module AIJobEvent.
Record t := mk {
  ID : string;
  JobID : string;
  Version : Z;
  EventType : string;
  FromStatus : string;
  ToStatus : string;
  Reason : string;
  CreatedAt : time;
}.
#[export] Instance settable : Settable t := fun r => mk
  (ID r) (JobID r) (Version r) (EventType r) (FromStatus r) (ToStatus r) (Reason r)
  (CreatedAt r).
Definition zero : t := mk
  "" "" 0 "" "" "" "" 0.
End AIJobEvent.
Export (hints) AIJobEvent.

Module AIJobProgressEvent.
Record t := mk {
  ID : string;
  JobID : string;
  AttemptID : string;
  ProviderTaskID : string;
  ProviderSequence : Z;
  Percent : option Z;
  Stage : string;
  CreatedAt : time;
}.
End AIJobProgressEvent.

Module AIJobOwner.
Record t := mk {
  ApplicationID : string;
  IntegrationID : string;
  PrincipalType : string;
  PrincipalID : string;
  ExternalSubjectReference : string;
}.
#[export] Instance settable : Settable t := fun r => mk
  (ApplicationID r) (IntegrationID r) (PrincipalType r) (PrincipalID r)
  (ExternalSubjectReference r).
Definition zero : t := mk
  "" "" "" "" "".
End AIJobOwner.
Export (hints) AIJobOwner.

Module TransactionalOutboxEvent.
Record t := mk {
  ID : string;
  AggregateType : string;
  AggregateID : string;
  EventType : string;
  EventVersion : Z;
  Status : string;
  AvailableAt : time;
  AttemptCount : Z;
  MaxAttempts : Z;
  LeaseUntil : option time;
  LeaseToken : string;
  LastError : string;
  PublishedAt : option time;
  CreatedAt : time;
  UpdatedAt : time;
  PayloadJSON : string;
}.
#[export] Instance settable : Settable t := fun r => mk
  (ID r) (AggregateType r) (AggregateID r) (EventType r) (EventVersion r) (Status r)
  (AvailableAt r) (AttemptCount r) (MaxAttempts r) (LeaseUntil r) (LeaseToken r) (LastError r)
  (PublishedAt r) (CreatedAt r) (UpdatedAt r) (PayloadJSON r).
Definition zero : t := mk
  "" "" "" "" 0 "" 0 0 0 None "" "" None 0 0 "".
End TransactionalOutboxEvent.
Export (hints) TransactionalOutboxEvent.

Module BillingLedgerEntry.
Record t := mk {
  ID : string;
  OperationID : string;
  AttemptID : string;
  UsageVersion : Z;
  UsageRecordID : string;
  RequestFingerprint : string;
  Purpose : string;
  AmountMicros : Z;
  Currency : string;
  PricingEvaluationID : string;
  PricingRuleVersionID : string;
  Status : string;
  CreatedAt : time;
}.
#[export] Instance settable : Settable t := fun r => mk
  (ID r) (OperationID r) (AttemptID r) (UsageVersion r) (UsageRecordID r)
  (RequestFingerprint r) (Purpose r) (AmountMicros r) (Currency r) (PricingEvaluationID r)
  (PricingRuleVersionID r) (Status r) (CreatedAt r).
Definition zero : t := mk
  "" "" "" 0 "" "" "" 0 "" "" "" "" 0.
End BillingLedgerEntry.
Export (hints) BillingLedgerEntry.

Module BillingHold.
Record t := mk {
  ID : string;
  OperationID : string;
  ApplicationID : string;
  CredentialID : string;
  CredentialSource : string;
  IntegrationID : string;
  PrincipalType : string;
  PrincipalID : string;
  ExternalSubjectReference : string;
  RequestFingerprint : string;
  Status : string;
  Version : Z;
  ReservedAmountMicros : Z;
  ReservedUsageDimensions : gmap string UsageDimension;
  SettledAmountMicros : Z;
  Currency : string;
  EstimateSource : string;
  Reason : string;
  BudgetPeriodStart : time;
  ExpiresAt : time;
  CreatedAt : time;
  UpdatedAt : time;
  SettledAt : option time;
  ReleasedAt : option time;
}.
#[export] Instance settable : Settable t := fun r => mk
  (ID r) (OperationID r) (ApplicationID r) (CredentialID r) (CredentialSource r)
  (IntegrationID r) (PrincipalType r) (PrincipalID r) (ExternalSubjectReference r)
  (RequestFingerprint r) (Status r) (Version r) (ReservedAmountMicros r)
  (ReservedUsageDimensions r) (SettledAmountMicros r) (Currency r) (EstimateSource r)
  (Reason r) (BudgetPeriodStart r) (ExpiresAt r) (CreatedAt r) (UpdatedAt r) (SettledAt r)
  (ReleasedAt r).
Definition zero : t := mk
  "" "" "" "" "" "" "" "" "" "" "" 0 0 ∅ 0 "" "" "" 0 0 0 0 None None.
End BillingHold.
Export (hints) BillingHold.

Module BillingHoldPricingVersion.
Record t := mk {
  HoldID : string;
  Purpose : string;
  PricingRuleVersionID : string;
  EstimateEvaluationID : string;
  SettlementEvaluationID : string;
}.
#[export] Instance settable : Settable t := fun r => mk
  (HoldID r) (Purpose r) (PricingRuleVersionID r) (EstimateEvaluationID r)
  (SettlementEvaluationID r).
Definition zero : t := mk
  "" "" "" "" "".
End BillingHoldPricingVersion.
Export (hints) BillingHoldPricingVersion.

Module PricingRule.
Record t := mk {
  ID : string;
  Name : string;
  Purpose : string;
  ScopeType : string;
  ScopeID : string;
  Model : string;
  Status : string;
  ActiveVersionID : string;
  LockVersion : Z;
  CreatedBy : string;
  UpdatedBy : string;
  CreatedAt : time;
  UpdatedAt : time;
}.
#[export] Instance settable : Settable t := fun r => mk
  (ID r) (Name r) (Purpose r) (ScopeType r) (ScopeID r) (Model r) (Status r) (ActiveVersionID r)
  (LockVersion r) (CreatedBy r) (UpdatedBy r) (CreatedAt r) (UpdatedAt r).
Definition zero : t := mk
  "" "" "" "" "" "" "" "" 0 "" "" 0 0.
End PricingRule.
Export (hints) PricingRule.

Module PricingRuleTestCase.
Record t := mk {
  Name : string;
  Facts : PricingEval.Facts;
  ExpectedTier : string;
  ExpectedAmountMicros : option Z;
}.
#[export] Instance settable : Settable t := fun r => mk
  (Name r) (Facts r) (ExpectedTier r) (ExpectedAmountMicros r).
Definition zero : t := mk
  "" noFacts "" None.
End PricingRuleTestCase.
Export (hints) PricingRuleTestCase.

(** The zero [pricing.RuleAnalysis{}]. *)
Definition noAnalysis : RuleAnalysis := mkRuleAnalysis 0 [] [] [] false.

Module PricingRuleVersion.
Record t := mk {
  ID : string;
  RuleID : string;
  Revision : Z;
  EngineVersion : Z;
  Currency : string;
  Expression : string;
  ExpressionHash : string;
  Analysis : RuleAnalysis;
  AuthoringMode : string;
  TestCases : list PricingRuleTestCase.t;
  State : string;
  CreatedBy : string;
  PublishedBy : string;
  CreatedAt : time;
  UpdatedAt : time;
  PublishedAt : option time;
}.
#[export] Instance settable : Settable t := fun r => mk
  (ID r) (RuleID r) (Revision r) (EngineVersion r) (Currency r) (Expression r) (ExpressionHash
  r) (Analysis r) (AuthoringMode r) (TestCases r) (State r) (CreatedBy r) (PublishedBy r)
  (CreatedAt r) (UpdatedAt r) (PublishedAt r).
Definition zero : t := mk
  "" "" 0 0 "" "" "" noAnalysis "" [] "" "" "" 0 0 None.
End PricingRuleVersion.
Export (hints) PricingRuleVersion.

Module PricingEvaluation.
Record t := mk {
  ID : string;
  Purpose : string;
  Phase : string;
  OperationID : string;
  AttemptID : string;
  UsageRecordID : string;
  UsageVersion : Z;
  PricingRuleID : string;
  PricingRuleVersionID : string;
  EngineVersion : Z;
  ExpressionHash : string;
  FactsHash : string;
  Facts : PricingEval.Facts;
  AmountMicros : option Z;
  Currency : string;
  MatchedTier : string;
  Lines : list PricingLine;
  NormalizationStatus : string;
  Status : string;
  FailureCode : string;
  ReplayOfID : string;
  CreatedAt : time;
}.
#[export] Instance settable : Settable t := fun r => mk
  (ID r) (Purpose r) (Phase r) (OperationID r) (AttemptID r) (UsageRecordID r) (UsageVersion r)
  (PricingRuleID r) (PricingRuleVersionID r) (EngineVersion r) (ExpressionHash r) (FactsHash r)
  (Facts r) (AmountMicros r) (Currency r) (MatchedTier r) (Lines r) (NormalizationStatus r)
  (Status r) (FailureCode r) (ReplayOfID r) (CreatedAt r).
Definition zero : t := mk
  "" "" "" "" "" "" 0 "" "" 0 "" "" noFacts None "" "" [] "" "" "" "" 0.
End PricingEvaluation.
Export (hints) PricingEvaluation.

Module BillingHoldAdmission.
Record t := mk {
  Hold : BillingHold.t;
  PricingVersions : list BillingHoldPricingVersion.t;
  PricingEvaluations : list PricingEvaluation.t;
  MonthlyBudgetMicros : Z;
  MonthlyImageLimit : Z;
  MonthlyVideoSecondsLimit : Z;
  MonthlyAudioSecondsLimit : Z;
}.
#[export] Instance settable : Settable t := fun r => mk
  (Hold r) (PricingVersions r) (PricingEvaluations r) (MonthlyBudgetMicros r)
  (MonthlyImageLimit r) (MonthlyVideoSecondsLimit r) (MonthlyAudioSecondsLimit r).
Definition zero : t := mk
  BillingHold.zero [] [] 0 0 0 0.
End BillingHoldAdmission.
Export (hints) BillingHoldAdmission.

Module UsageRecord.
Record t := mk {
  ID : string;
  OperationID : string;
  AttemptID : string;
  UsageVersion : Z;
  UsageSource : string;
  RequestFingerprint : string;
  APIKeyID : string;
  ApplicationID : string;
  ApplicationName : string;
  GatewayPrincipalID : string;
  GatewayPrincipalName : string;
  ExternalAuthIntegrationID : string;
  ExternalSubjectReference : string;
  APIFingerprint : string;
  Model : string;
  UpstreamModel : string;
  Protocol : string;
  ProviderID : string;
  ProviderAccountID : string;
  Status : string;
  ErrorType : string;
  LatencyMS : Z;
  TTFTMS : option Z;
  InputTokens : Z;
  OutputTokens : Z;
  TotalInputTokens : option Z;
  UncachedInputTokens : option Z;
  CacheReadTokens : option Z;
  CacheWrite5mTokens : option Z;
  CacheWrite1hTokens : option Z;
  CacheFieldsPresent : bool;
  UsageDimensions : gmap string UsageDimension;
  UsageNormalizationStatus : string;
  UpstreamRequestID : string;
  ProcurementCostMicros : option Z;
  ProcurementCostCurrency : string;
  ProcurementCostSource : string;
  ProcurementCostConfidence : string;
  ProcurementPriceID : string;
  ProviderBillingLineID : string;
  UsageCostMicros : option Z;
  UsageCostCurrency : string;
  UsagePricingEvaluationID : string;
  PricingStatus : string;
  CreatedAt : time;
}.
#[export] Instance settable : Settable t := fun r => mk
  (ID r) (OperationID r) (AttemptID r) (UsageVersion r) (UsageSource r) (RequestFingerprint r)
  (APIKeyID r) (ApplicationID r) (ApplicationName r) (GatewayPrincipalID r)
  (GatewayPrincipalName r) (ExternalAuthIntegrationID r) (ExternalSubjectReference r)
  (APIFingerprint r) (Model r) (UpstreamModel r) (Protocol r) (ProviderID r)
  (ProviderAccountID r) (Status r) (ErrorType r) (LatencyMS r) (TTFTMS r) (InputTokens r)
  (OutputTokens r) (TotalInputTokens r) (UncachedInputTokens r) (CacheReadTokens r)
  (CacheWrite5mTokens r) (CacheWrite1hTokens r) (CacheFieldsPresent r) (UsageDimensions r)
  (UsageNormalizationStatus r) (UpstreamRequestID r) (ProcurementCostMicros r)
  (ProcurementCostCurrency r) (ProcurementCostSource r) (ProcurementCostConfidence r)
  (ProcurementPriceID r) (ProviderBillingLineID r) (UsageCostMicros r) (UsageCostCurrency r)
  (UsagePricingEvaluationID r) (PricingStatus r) (CreatedAt r).
Definition zero : t := mk
  "" "" "" 0 "" "" "" "" "" "" "" "" "" "" "" "" "" "" "" "" "" 0 None 0 0 None None None None
  None false ∅ "" "" None "" "" "" "" "" None "" "" "" 0.
End UsageRecord.
Export (hints) UsageRecord.

Module AuditLog.
Record t := mk {
  ID : string;
  Actor : string;
  Action : string;
  ResourceType : string;
  ResourceID : string;
  Summary : string;
  ApplicationID : string;
  ApplicationName : string;
  GatewayPrincipalID : string;
  GatewayPrincipalName : string;
  ExternalAuthIntegrationID : string;
  ExternalSubjectReference : string;
  CreatedAt : time;
}.
#[export] Instance settable : Settable t := fun r => mk
  (ID r) (Actor r) (Action r) (ResourceType r) (ResourceID r) (Summary r) (ApplicationID r)
  (ApplicationName r) (GatewayPrincipalID r) (GatewayPrincipalName r)
  (ExternalAuthIntegrationID r) (ExternalSubjectReference r) (CreatedAt r).
Definition zero : t := mk
  "" "" "" "" "" "" "" "" "" "" "" "" 0.
End AuditLog.
Export (hints) AuditLog.

Module Artifact.
Record t := mk {
  ID : string;
  OperationID : string;
  JobID : string;
  AttemptID : string;
  SourceArtifactID : string;
  ApplicationID : string;
  IntegrationID : string;
  PrincipalType : string;
  PrincipalID : string;
  ExternalSubjectReference : string;
  Role : string;
  Policy : string;
  Status : string;
  StatusVersion : Z;
  MediaType : string;
  SizeBytes : Z;
  SHA256 : string;
  StoreDriver : string;
  StoreKey : string;
  ExternalReference : string;
  ErrorType : string;
  RetainUntil : time;
  CreatedAt : time;
  UpdatedAt : time;
  ReadyAt : option time;
  DeliveredAt : option time;
  DeletedAt : option time;
}.
#[export] Instance settable : Settable t := fun r => mk
  (ID r) (OperationID r) (JobID r) (AttemptID r) (SourceArtifactID r) (ApplicationID r)
  (IntegrationID r) (PrincipalType r) (PrincipalID r) (ExternalSubjectReference r) (Role r)
  (Policy r) (Status r) (StatusVersion r) (MediaType r) (SizeBytes r) (SHA256 r)
  (StoreDriver r) (StoreKey r) (ExternalReference r) (ErrorType r) (RetainUntil r)
  (CreatedAt r) (UpdatedAt r) (ReadyAt r) (DeliveredAt r) (DeletedAt r).
Definition zero : t := mk
  "" "" "" "" "" "" "" "" "" "" "" "" "" 0 "" 0 "" "" "" "" "" 0 0 0 None None None.
End Artifact.
Export (hints) Artifact.

Module UsageSettlement.
Record t := mk {
  Record : UsageRecord.t;
  Evaluations : list PricingEvaluation.t;
  Ledgers : list BillingLedgerEntry.t;
  OutboxEvents : list TransactionalOutboxEvent.t;
}.
#[export] Instance settable : Settable t := fun r => mk
  (Record r) (Evaluations r) (Ledgers r) (OutboxEvents r).
Definition zero : t := mk
  UsageRecord.zero [] [] [].
End UsageSettlement.
Export (hints) UsageSettlement.

(** ** Artifact policies ([artifact_model.go], [artifact_sink.go]) *)

Definition GatewayArtifactPolicyProxyOnly := "proxy_only"%string.
Definition GatewayArtifactPolicyTemporary := "temporary"%string.
Definition GatewayArtifactPolicyManaged := "managed"%string.
Definition GatewayArtifactPolicyCustomerSink := "customer_sink"%string.
Definition GatewayArtifactPolicyMetadataOnly := "metadata_only"%string.

Definition validArtifactPolicy (policy : string) : bool :=
  oneOf policy [GatewayArtifactPolicyProxyOnly; GatewayArtifactPolicyTemporary;
    GatewayArtifactPolicyManaged; GatewayArtifactPolicyCustomerSink;
    GatewayArtifactPolicyMetadataOnly].

Definition artifactPolicySnapshot (policy : string) : string :=
  let policy := TrimSpace policy in
  if negb (validArtifactPolicy policy) then GatewayArtifactPolicyProxyOnly else policy.

Definition artifactSinkSnapshot (policy sinkID : string) : string :=
  if artifactPolicySnapshot policy <>s GatewayArtifactPolicyCustomerSink then ""%string
  else TrimSpace sinkID.

(** A rune outside ASCII is refused, so the bytes decide. *)
Definition sink_char (a : ascii) : bool :=
  ascii_in a 97 122 || ascii_in a 65 90 || ascii_in a 48 57
  || ascii_in a 45 45 || ascii_in a 95 95 || ascii_in a 46 46 || ascii_in a 58 58.
Definition validArtifactSinkID (id : string) : bool :=
  let id := TrimSpace id in
  if (id =s "") || (go_len id >? 160) then false
  else forallb sink_char (String.list_ascii_of_string id).

Definition validArtifactSinkBinding (policy sinkID : string) : bool :=
  let sinkID := TrimSpace sinkID in
  if artifactPolicySnapshot policy <>s GatewayArtifactPolicyCustomerSink then sinkID =s ""
  else validArtifactSinkID sinkID.

(** ** Normalisation ([operation_repository.go]) *)

Definition normalizeAIOperation (operation : AIOperation.t) : AIOperation.t :=
  let operation := operation <| AIOperation.ArtifactPolicy :=
    artifactPolicySnapshot (AIOperation.ArtifactPolicy operation) |> in
  operation <| AIOperation.ArtifactSinkID :=
    artifactSinkSnapshot (AIOperation.ArtifactPolicy operation) (AIOperation.ArtifactSinkID operation) |>.

Definition normalizeAIAttempt (attempt : AIAttempt.t) : AIAttempt.t :=
  let attempt := if AIAttempt.DispatchState attempt =s ""
    then attempt <| AIAttempt.DispatchState := AIAttemptDispatchPending |> else attempt in
  if AIAttempt.DispatchKey attempt =s ""
  then attempt <| AIAttempt.DispatchKey := AIAttempt.ID attempt |> else attempt.

Definition normalizeTransactionalOutboxEvent (event : TransactionalOutboxEvent.t)
    : TransactionalOutboxEvent.t :=
  if TransactionalOutboxEvent.MaxAttempts event <=? 0
  then event <| TransactionalOutboxEvent.MaxAttempts := OutboxDefaultMaxAttempts |> else event.

Definition trimTransactionalOutboxError (value : string) : string :=
  let value := TrimSpace value in
  if go_len value >? 1024 then String.substring 0 1024 value else value.

(** ** The repository *)

(** ** Realtime sessions and alerts ([realtime_session.go], [alert_model.go]) *)

Module RealtimeSession.
Record t := mk {
  ID : string;
  OperationID : string;
  AttemptID : string;
  ApplicationID : string;
  CredentialID : string;
  PrincipalType : string;
  PrincipalID : string;
  Model : string;
  ProviderID : string;
  ProviderAccountID : string;
  UpstreamModel : string;
  Status : string;
  Version : Z;
  InputAudioBytes : Z;
  OutputAudioBytes : Z;
  ClientMessageCount : Z;
  ProviderMessageCount : Z;
  TransferBytes : Z;
  UsageVersion : Z;
  SessionDurationMS : Z;
  ErrorType : string;
  ConnectedAt : option time;
  ClosedAt : option time;
  CreatedAt : time;
  UpdatedAt : time;
}.
#[export] Instance settable : Settable t := fun r => mk
  (ID r) (OperationID r) (AttemptID r) (ApplicationID r) (CredentialID r) (PrincipalType r)
  (PrincipalID r) (Model r) (ProviderID r) (ProviderAccountID r) (UpstreamModel r) (Status r)
  (Version r) (InputAudioBytes r) (OutputAudioBytes r) (ClientMessageCount r)
  (ProviderMessageCount r) (TransferBytes r) (UsageVersion r) (SessionDurationMS r)
  (ErrorType r) (ConnectedAt r) (ClosedAt r) (CreatedAt r) (UpdatedAt r).
Definition zero : t := mk
  "" "" "" "" "" "" "" "" "" "" "" "" 0 0 0 0 0 0 0 0 "" None None 0 0.
End RealtimeSession.
Export (hints) RealtimeSession.

Module AlertEvent.
Record t := mk {
  ID : string;
  Type_ : string;
  Severity : string;
  Status : string;
  Title : string;
  Summary : string;
  ResourceType : string;
  ResourceID : string;
  ApplicationID : string;
  ApplicationName : string;
  GatewayPrincipalID : string;
  GatewayPrincipalName : string;
  ExternalAuthIntegrationID : string;
  ExternalSubjectReference : string;
  DedupeKey : string;
  Metadata : gmap string string;
  FirstSeenAt : time;
  LastSeenAt : time;
  AcknowledgedAt : option time;
  AcknowledgedBy : string;
  ResolvedAt : option time;
  ResolvedBy : string;
}.
#[export] Instance settable : Settable t := fun r => mk
  (ID r) (Type_ r) (Severity r) (Status r) (Title r) (Summary r) (ResourceType r) (ResourceID r)
  (ApplicationID r) (ApplicationName r) (GatewayPrincipalID r) (GatewayPrincipalName r)
  (ExternalAuthIntegrationID r) (ExternalSubjectReference r) (DedupeKey r) (Metadata r)
  (FirstSeenAt r) (LastSeenAt r) (AcknowledgedAt r) (AcknowledgedBy r) (ResolvedAt r)
  (ResolvedBy r).
Definition zero : t := mk
  "" "" "" "" "" "" "" "" "" "" "" "" "" "" "" ∅ 0 0 None "" None "".
End AlertEvent.
Export (hints) AlertEvent.

(** The maps of [MemoryRepository] the modelled operations use. *)
Record MemoryRepository := mkRepository {
  aiOperations : gmap string AIOperation.t;
  aiJobs : gmap string AIJob.t;
  aiJobEvents : gmap string AIJobEvent.t;
  aiJobProgressEvents : gmap string AIJobProgressEvent.t;
  aiAttempts : gmap string AIAttempt.t;
  artifacts : gmap string Artifact.t;
  billingHolds : gmap string BillingHold.t;
  billingHoldPricingVersions : gmap string BillingHoldPricingVersion.t;
  billingLedgerEntries : gmap string BillingLedgerEntry.t;
  pricingEvaluations : gmap string PricingEvaluation.t;
  pricingRules : gmap string PricingRule.t;
  pricingRuleVersions : gmap string PricingRuleVersion.t;
  transactionalOutboxEvents : gmap string TransactionalOutboxEvent.t;
  usageRecords : gmap string UsageRecord.t;
  auditLogs : gmap string AuditLog.t;
  apiKeys : gmap string APIKeyRecord.t;
  governancePolicies : gmap string GovernancePolicy.t;
  applications : gmap string Application.t;
  gatewayPrincipals : gmap string GatewayPrincipal.t;
  externalAuthIntegrations : gmap string ExternalAuthIntegration.t;
  riskBlocks : gmap string GatewayRiskBlock.t;
  providers : gmap string ProviderConnection.t;
  accounts : gmap string ProviderAccount.t;
  policies : gmap string RoutingPolicy.t;
  gatewayModels : gmap string GatewayModel.t;
  modelRoutes : gmap string ModelRoute.t;
  procurementPrices : gmap string ProcurementPrice.t;
  providerCacheCapabilities : gmap string ProviderCacheCapability.t;
  effectivePricingPolicies : gmap string EffectivePricingPolicy.t;
  effectivePriceSnapshots : gmap string EffectivePriceSnapshot.t;
  effectivePricingDecisions : gmap string EffectivePricingDecision.t;
  effectivePricingEvaluations : gmap string EffectivePricingDecisionEvaluation.t;
  routingAffinityBindings : gmap string RoutingAffinityBinding.t;
  workspaceUsers : gmap string WorkspaceUser.t;
  realtimeSessions : gmap string RealtimeSession.t;
  alertEvents : gmap string AlertEvent.t;
}.
#[export] Instance MemoryRepository_settable : Settable MemoryRepository := fun r => mkRepository
  (aiOperations r) (aiJobs r) (aiJobEvents r) (aiJobProgressEvents r) (aiAttempts r)
  (artifacts r) (billingHolds r) (billingHoldPricingVersions r) (billingLedgerEntries r)
  (pricingEvaluations r) (pricingRules r) (pricingRuleVersions r) (transactionalOutboxEvents r)
  (usageRecords r) (auditLogs r) (apiKeys r) (governancePolicies r) (applications r)
  (gatewayPrincipals r) (externalAuthIntegrations r) (riskBlocks r) (providers r) (accounts r)
  (policies r) (gatewayModels r) (modelRoutes r) (procurementPrices r)
  (providerCacheCapabilities r) (effectivePricingPolicies r) (effectivePriceSnapshots r)
  (effectivePricingDecisions r) (effectivePricingEvaluations r) (routingAffinityBindings r)
  (workspaceUsers r) (realtimeSessions r) (alertEvents r).
Definition NewMemoryRepository : MemoryRepository := mkRepository
  ∅ ∅ ∅ ∅ ∅ ∅ ∅ ∅ ∅ ∅ ∅ ∅ ∅ ∅ ∅ ∅ ∅ ∅ ∅ ∅ ∅ ∅ ∅ ∅ ∅ ∅ ∅ ∅ ∅ ∅ ∅ ∅ ∅ ∅ ∅ ∅.

(** An operation is one critical section of the repository's mutex: it reads and
    writes the maps and returns a value or an error.  An error keeps the writes
    made before it, as in the code. *)
Definition M (A : Type) : Type := MemoryRepository -> result go_error A * MemoryRepository.

#[export] Instance M_ret : MRet M := fun A a r => (Ok a, r).
#[export] Instance M_bind : MBind M := fun A B f m r =>
  match m r with
  | (Ok a, r') => f a r'
  | (Err e, r') => (Err e, r')
  end.
Definition fail {A} (e : go_error) : M A := fun r => (Err e, r).
(** [if cond { return ..., err }] *)
Definition check (cond : bool) (e : go_error) : M unit := if cond then fail e else mret tt.
Definition read {A} (f : MemoryRepository -> A) : M A := fun r => (Ok (f r), r).
Definition write (f : MemoryRepository -> MemoryRepository) : M unit := fun r => (Ok tt, f r).
(** [x, err := f(...); if err != nil { return ..., err }] *)
Definition lift {A} (x : result go_error A) : M A := fun r => (x, r).
Definition for_each {A} (f : A -> M unit) : list A -> M unit :=
  fix go l := match l with [] => mret tt | x :: l' => _ ← f x; go l' end.

Notation "r .[ field ]:[ k ] <- v" := (r <| field := <[k := v]> (field r) |>)
  (at level 1, left associativity, field at level 200, k at level 200, v at level 200).

Definition exists_error (format id : string) : go_error := ErrFmt format [FmtStr id].

(** [if len(l) > limit { l = l[:limit] }] for a limit that is not negative. *)
Definition first_n {A} (limit : Z) (l : list A) : list A :=
  if Z.of_nat (length l) >? limit then take (Z.to_nat limit) l else l.

(** Go on after an error, which becomes a value. *)
Definition catch {A} (m : M A) : M (option go_error) := fun r =>
  match m r with (Ok _, r') => (Ok None, r') | (Err e, r') => (Ok (Some e), r') end.

(** A key of a Go map is present. *)
Definition has {V} (m : gmap string V) (k : string) : bool :=
  match m !! k with Some _ => true | None => false end.

(** ** The audit log ([service.go], [repository.go]) *)

Definition AddAuditLog (event : AuditLog.t) : M unit :=
  write (fun r => r.[auditLogs]:[AuditLog.ID event] <- event).

Definition newAuditLog (random : string) (now : time) (actor action resourceType resourceID summary : string)
    : AuditLog.t :=
  let actor := if TrimSpace actor =s "" then "local-admin"%string else actor in
  AuditLog.zero
    <| AuditLog.ID := ("audit_" +:+ random)%string |>
    <| AuditLog.Actor := actor |>
    <| AuditLog.Action := action |>
    <| AuditLog.ResourceType := resourceType |>
    <| AuditLog.ResourceID := resourceID |>
    <| AuditLog.Summary := summary |>
    <| AuditLog.CreatedAt := now |>.

Section Lookups.
Context `{range : MapRange}.

Definition memoryBillingHoldForOperation (holds : gmap string BillingHold.t) (operationID : string)
    : option BillingHold.t :=
  find_value (fun hold => BillingHold.OperationID hold =s operationID) holds.

Definition memoryAIJobByOperationID (jobs : gmap string AIJob.t) (operationID : string)
    : option AIJob.t :=
  let operationID := TrimSpace operationID in
  find_value (fun job => AIJob.OperationID job =s operationID) jobs.

Definition sameOutboxIdentity (event candidate : TransactionalOutboxEvent.t) : bool :=
  (TransactionalOutboxEvent.AggregateType event =s TransactionalOutboxEvent.AggregateType candidate)
  && (TransactionalOutboxEvent.AggregateID event =s TransactionalOutboxEvent.AggregateID candidate)
  && (TransactionalOutboxEvent.EventType event =s TransactionalOutboxEvent.EventType candidate)
  && (TransactionalOutboxEvent.EventVersion event =? TransactionalOutboxEvent.EventVersion candidate).

Definition validateMemoryOutboxInsert (events : gmap string TransactionalOutboxEvent.t)
    (candidate : TransactionalOutboxEvent.t) : result go_error unit :=
  if has events (TransactionalOutboxEvent.ID candidate) then
    Err (exists_error "transactional outbox event %q already exists"
           (TransactionalOutboxEvent.ID candidate))
  else match find_value (fun event => sameOutboxIdentity event candidate) events with
       | Some _ => Err (ErrFmt "transactional outbox event is not unique" [])
       | None => Ok tt
       end.

Definition sameAIOperationIdempotencyScope (left right : AIOperation.t) : bool :=
  (AIOperation.IdempotencyKey left <>s "")
  && (AIOperation.ApplicationID left =s AIOperation.ApplicationID right)
  && (AIOperation.CredentialSource left =s AIOperation.CredentialSource right)
  && (AIOperation.CredentialID left =s AIOperation.CredentialID right)
  && (AIOperation.IntegrationID left =s AIOperation.IntegrationID right)
  && (AIOperation.PrincipalType left =s AIOperation.PrincipalType right)
  && (AIOperation.PrincipalID left =s AIOperation.PrincipalID right)
  && (AIOperation.ExternalSubjectReference left =s AIOperation.ExternalSubjectReference right)
  && (AIOperation.Operation left =s AIOperation.Operation right)
  && (AIOperation.IdempotencyKey left =s AIOperation.IdempotencyKey right).
End Lookups.

(** ** Lemmas: the monad *)

Lemma M_bind_inv {A B} (m : M A) (f : A -> M B) r x r' :
  (m ≫= f) r = (x, r') ->
  (exists e, m r = (Err e, r') /\ x = Err e) \/ (exists a r1, m r = (Ok a, r1) /\ f a r1 = (x, r')).
Proof.
  unfold mbind, M_bind. destruct (m r) as [[a|e] r1]; [eauto|]. intros [= <- <-]. eauto.
Qed.

Lemma check_inv c e r x r' : check c e r = (x, r') ->
  r' = r /\ ((c = true /\ x = Err e) \/ (c = false /\ x = Ok tt)).
Proof. unfold check, fail. destruct c; cbn; intros [= <- <-]; eauto. Qed.

Lemma lift_inv {A} (y : result go_error A) r x r' : lift y r = (x, r') -> r' = r /\ x = y.
Proof. by intros [= <- <-]. Qed.

Lemma has_Some {V} (m : gmap string V) k : has m k = true <-> is_Some (m !! k).
Proof. unfold has, is_Some. destruct (m !! k); split; try done; eauto. by intros [? [=]]. Qed.

Lemma has_None {V} (m : gmap string V) k : has m k = false <-> m !! k = None.
Proof. unfold has. by destruct (m !! k). Qed.

(** Follow a run of an operation backwards: [H] is about [op r = (x, r')]. *)
Ltac pair_inv H :=
  first [discriminate H | injection H as <- <- | injection H as ? <- | injection H as ? ?]; simplify_eq.
Ltac step_inv H :=
  lazymatch type of H with
  | (_ ≫= _) _ = _ =>
      let e := fresh "e" in let a := fresh "a" in let r1 := fresh "r" in
      let H1 := fresh "H" in let Hx := fresh "Hx" in
      apply M_bind_inv in H as [(e & H1 & Hx)|(a & r1 & H1 & H)];
      [first [discriminate Hx | simplify_eq; step_inv H1]|step_inv H1]
  | check _ _ _ = _ => apply check_inv in H as [-> [[H ?]|[H ?]]]; simplify_eq
  | lift _ _ = _ => apply lift_inv in H as [-> H]; simplify_eq
  | read _ _ = _ => pair_inv H
  | write _ _ = _ => pair_inv H
  | fail _ _ = _ => pair_inv H
  | mret _ _ = _ => pair_inv H
  | _ => idtac
  end.
Ltac m_inv H := cbv beta iota in H; repeat (step_inv H; try done; cbv beta iota in H).

(** ** Computations that write nothing, cannot fail, or fail without a trace *)

(** Three properties of operations, each with a rule for every construct of the
    monad; the database [repo] puts them together. *)
Definition readonly {A} (m : M A) : Prop := forall r, (m r).2 = r.
Definition total {A} (m : M A) : Prop := forall r e, (m r).1 <> Err e.
Definition traceless {A} (m : M A) : Prop := forall r e r', m r = (Err e, r') -> r' = r.

Lemma readonly_ret {A} (a : A) : readonly (mret a).
Proof. done. Qed.
Lemma readonly_fail {A} e : readonly (fail (A := A) e).
Proof. done. Qed.
Lemma readonly_check c e : readonly (check c e).
Proof. by destruct c. Qed.
Lemma readonly_read {A} (f : MemoryRepository -> A) : readonly (read f).
Proof. done. Qed.
Lemma readonly_lift {A} (x : result go_error A) : readonly (lift x).
Proof. done. Qed.
Lemma readonly_bind {A B} (m : M A) (f : A -> M B) :
  readonly m -> (forall a, readonly (f a)) -> readonly (m ≫= f).
Proof.
  intros Hm Hf r. specialize (Hm r). unfold mbind, M_bind.
  destruct (m r) as [[a|e] r1]; cbn in *; subst; [apply Hf|done].
Qed.
Lemma readonly_for_each {A} (f : A -> M unit) l : (forall a, readonly (f a)) -> readonly (for_each f l).
Proof. intros Hf. induction l as [|x l IH]; [done|]. by apply readonly_bind. Qed.

Lemma total_ret {A} (a : A) : total (mret a).
Proof. done. Qed.
Lemma total_read {A} (f : MemoryRepository -> A) : total (read f).
Proof. done. Qed.
Lemma total_write f : total (write f).
Proof. done. Qed.
Lemma total_bind {A B} (m : M A) (f : A -> M B) : total m -> (forall a, total (f a)) -> total (m ≫= f).
Proof.
  intros Hm Hf r e. specialize (Hm r). unfold mbind, M_bind.
  destruct (m r) as [[a|e'] r1]; [apply Hf|by destruct (Hm e')].
Qed.

Lemma total_catch {A} (m : M A) : total (catch m).
Proof. intros r e. unfold catch. by destruct (m r) as [[?|?] ?]. Qed.

Lemma traceless_readonly {A} (m : M A) : readonly m -> traceless m.
Proof. intros Hm r e r' E. specialize (Hm r). rewrite E in Hm. done. Qed.
Lemma traceless_total {A} (m : M A) : total m -> traceless m.
Proof. intros Hm r e r' E. specialize (Hm r e). rewrite E in Hm. by destruct Hm. Qed.
Lemma traceless_after_reads {A B} (m : M A) (f : A -> M B) :
  readonly m -> (forall a, traceless (f a)) -> traceless (m ≫= f).
Proof.
  intros Hm Hf r e r' E. specialize (Hm r). unfold mbind, M_bind in E.
  destruct (m r) as [[a|e'] r1]; cbn in Hm; subst r1; [by eapply Hf|]. by injection E as _ <-.
Qed.
Lemma traceless_before_total {A B} (m : M A) (f : A -> M B) :
  traceless m -> (forall a, total (f a)) -> traceless (m ≫= f).
Proof.
  intros Hm Hf r e r' E. unfold mbind, M_bind in E. destruct (m r) as [[a|e'] r1] eqn:Em.
  - by apply (traceless_total (f a) (Hf a)) in E as Hr; destruct (Hf a r1 e); rewrite E.
  - injection E as <- <-. by eapply Hm.
Qed.

Lemma readonly_bind_inv {A B} (m : M A) (f : A -> M B) r x r' :
  readonly m -> (m ≫= f) r = (x, r') ->
  (exists e, m r = (Err e, r) /\ x = Err e /\ r' = r) \/ (exists a, m r = (Ok a, r) /\ f a r = (x, r')).
Proof.
  intros Hm H. specialize (Hm r). unfold mbind, M_bind in H.
  destruct (m r) as [[a|e] r1]; cbn in Hm; subst r1; [eauto|]. injection H as <- <-. eauto.
Qed.

Create HintDb repo.
#[export] Hint Resolve readonly_ret readonly_fail readonly_check readonly_read readonly_lift
  readonly_bind readonly_for_each total_ret total_read total_write total_catch total_bind : repo.

(** Decide which of the rules applies, splitting the tests of the code. *)
Ltac repo_cases :=
  repeat match goal with
  | |- readonly (match ?x with _ => _ end) => destruct x
  | |- total (match ?x with _ => _ end) => destruct x
  | |- traceless (match ?x with _ => _ end) => destruct x
  end.
Ltac readonly_tac := repeat (repo_cases; first
  [ apply readonly_bind; [|intros ?] | apply readonly_for_each; intros ? | solve [auto with repo] ]).
Ltac total_tac := repeat (repo_cases; first
  [ apply total_bind; [|intros ?] | solve [auto with repo] ]).
Ltac traceless_tac := repeat (repo_cases; first
  [ solve [apply traceless_readonly; readonly_tac]
  | solve [apply traceless_total; total_tac]
  | apply traceless_after_reads; [solve [readonly_tac]|intros ?]
  | apply traceless_before_total; [|intros ?; solve [total_tac]] ]).

(** ** Computations that leave a part of the repository alone *)

Definition preserves {A B} (f : MemoryRepository -> B) (m : M A) : Prop := forall r, f (m r).2 = f r.

Section Preserves.
Context {B : Type} (f : MemoryRepository -> B).

Lemma preserves_readonly {A} (m : M A) : readonly m -> preserves f m.
Proof. intros Hm r. by rewrite Hm. Qed.
Lemma preserves_write g : (forall r, f (g r) = f r) -> preserves f (write g).
Proof. done. Qed.
Lemma preserves_bind {A C} (m : M A) (k : A -> M C) :
  preserves f m -> (forall a, preserves f (k a)) -> preserves f (m ≫= k).
Proof.
  intros Hm Hk r. specialize (Hm r). unfold mbind, M_bind. destruct (m r) as [[a|e] r1]; [|done].
  by rewrite Hk.
Qed.
Lemma preserves_for_each {A} (g : A -> M unit) l : (forall a, preserves f (g a)) -> preserves f (for_each g l).
Proof. intros Hg. induction l as [|x l IH]; [done|]. by apply preserves_bind. Qed.
Lemma preserves_run {A} (m : M A) r x r' : preserves f m -> m r = (x, r') -> f r' = f r.
Proof. intros Hm E. specialize (Hm r). by rewrite E in Hm. Qed.
End Preserves.

Ltac preserves_tac :=
  repeat match goal with
  | |- preserves _ (match ?x with _ => _ end) => destruct x
  | |- _ => first
      [ solve [apply preserves_readonly; readonly_tac]
      | solve [apply preserves_write; intros []; reflexivity]
      | apply preserves_for_each; intros ?
      | apply preserves_bind; [|intros ?] ]
  end.

(** ** Lemmas: maps filed by identity *)

(** Every value is stored under its own identity. *)
Definition keyed {V} (id : V -> string) (m : gmap string V) : Prop := map_Forall (fun k v => id v = k) m.

Lemma keyed_empty {V} (id : V -> string) : keyed id ∅.
Proof. apply map_Forall_empty. Qed.

Lemma keyed_insert {V} (id : V -> string) m k v : keyed id m -> id v = k -> keyed id (<[k := v]> m).
Proof. intros Hm Hv. by apply map_Forall_insert_2. Qed.

Lemma for_each_write {A} (g : A -> MemoryRepository -> MemoryRepository) l r :
  for_each (fun x => write (g x)) l r = (Ok tt, foldl (fun r x => g x r) r l).
Proof. revert r. induction l as [|x l IH]; intros r; [done|]. apply IH. Qed.

(** The keys of values visited one by one are the keys of the map. *)
Lemma values_NoDup `{MapRange} {V} (id : V -> string) (m : gmap string V) :
  keyed id m -> NoDup (id <$> map_values m).
Proof.
  intros Hk. unfold map_values. rewrite <- list_fmap_compose.
  assert (E : (id ∘ snd) <$> map_range m = (map_range m).*1).
  { apply list_fmap_ext. intros i [k v] Hi. cbn. apply Hk, elem_of_map_to_list.
    rewrite <- (map_range_perm m). by eapply list_elem_of_lookup_2. }
  rewrite E, map_range_perm. apply NoDup_fst_map_to_list.
Qed.

Lemma keyed_values `{MapRange} {V} (id : V -> string) (m : gmap string V) v :
  keyed id m -> v ∈ map_values m <-> m !! id v = Some v.
Proof.
  intros Hk. rewrite elem_of_map_values. split; [|eauto]. intros [k E]. by rewrite (Hk k v E).
Qed.

(** Storing values one by one: each is found, and nothing else changes. *)
Lemma foldl_store {V} (id : V -> string) l (m : gmap string V) :
  NoDup (id <$> l) ->
  let m' := foldl (fun m x => <[id x := x]> m) m l in
  (forall x, x ∈ l -> m' !! id x = Some x) /\
  (forall k, k ∉ id <$> l -> m' !! k = m !! k).
Proof.
  cbv zeta. revert m. induction l as [|x l IH]; intros m; cbn.
  - intros _. split; [by intros x ?%elem_of_nil|done].
  - intros [Hx Hl]%NoDup_cons. destruct (IH (<[id x := x]> m) Hl) as [IH1 IH2]. split.
    + intros y [->|Hy]%elem_of_cons; [|by apply IH1]. rewrite IH2 by done. by apply lookup_insert_eq.
    + intros k [Hne Hk]%not_elem_of_cons. rewrite IH2 by done. by apply lookup_insert_ne.
Qed.

Lemma foldl_store_other {V} (id : V -> string) l (m : gmap string V) k :
  k ∉ id <$> l -> foldl (fun m x => <[id x := x]> m) m l !! k = m !! k.
Proof.
  revert m. induction l as [|x l IH]; intros m; cbn; [done|].
  intros [Hne Hk]%not_elem_of_cons. rewrite IH by done. by apply lookup_insert_ne.
Qed.

Lemma keyed_store {V} (id : V -> string) l (m : gmap string V) :
  keyed id m -> keyed id (foldl (fun m x => <[id x := x]> m) m l).
Proof. revert m. induction l as [|x l IH]; intros m Hm; [done|]. by apply IH, keyed_insert. Qed.

Lemma first_n_sublist {A} limit (l : list A) : sublist (first_n limit l) l.
Proof. unfold first_n. destruct (_ >? _); [apply sublist_take|done]. Qed.

Lemma elem_of_first_n {A} limit (l : list A) x : x ∈ first_n limit l -> x ∈ l.
Proof. intros Hx. eapply elem_of_submseteq; [exact Hx|]. apply sublist_submseteq, first_n_sublist. Qed.

Lemma first_n_length {A} limit (l : list A) : 0 <= limit -> Z.of_nat (length (first_n limit l)) <= limit.
Proof.
  intros Hl. unfold first_n. rewrite Z.gtb_ltb. destruct (Z.ltb_spec limit (Z.of_nat (length l))); [|lia].
  rewrite length_take. lia.
Qed.

(** The candidates an operation picks from a map: filtered, sorted, cut off. *)
Definition picked `{MapRange} {V} (p : V -> bool) (less : V -> V -> bool) (limit : Z)
    (m : gmap string V) : list V :=
  first_n limit (sort_by less (List.filter p (map_values m))).

Lemma elem_of_picked `{MapRange} {V} (id : V -> string) p less limit (m : gmap string V) v :
  keyed id m -> v ∈ picked p less limit m -> m !! id v = Some v /\ p v = true.
Proof.
  intros Hk Hv. apply elem_of_first_n, elem_of_sort_by in Hv.
  apply list_elem_of_In, filter_In in Hv as [Hv Hp]. split; [|done].
  by apply (keyed_values id), list_elem_of_In.
Qed.

Lemma sublist_fmap {A B} (f : A -> B) l k : sublist l k -> sublist (f <$> l) (f <$> k).
Proof. induction 1; cbn; by constructor. Qed.

Lemma filter_sublist {A} (p : A -> bool) l : sublist (List.filter p l) l.
Proof. induction l as [|x l IH]; cbn; [done|]. destruct (p x); by constructor. Qed.

Lemma picked_NoDup `{MapRange} {V} (id : V -> string) p less limit (m : gmap string V) :
  keyed id m -> NoDup (id <$> picked p less limit m).
Proof.
  intros Hk. unfold picked. eapply sublist_NoDup; [|apply sublist_fmap, first_n_sublist].
  rewrite sort_by_perm. apply (sublist_NoDup _ (id <$> map_values m)); [by apply values_NoDup|].
  apply sublist_fmap, filter_sublist.
Qed.

(** What is left over comes after everything picked. *)
Lemma picked_complete `{MapRange} {V} (p : V -> bool) (c : V -> V -> comparison) `{!Comparator c} limit
    (m : gmap string V) k v :
  0 <= limit -> m !! k = Some v -> p v = true ->
  let l := picked p (fun x y => is_lt (c x y)) limit m in
  v ∈ l \/ (Z.of_nat (length l) = limit /\ forall x, x ∈ l -> not_after c x v).
Proof.
  intros Hlimit Hk Hp. cbv zeta. unfold picked. set (s := sort_by _ _).
  assert (Hv : v ∈ s).
  { apply elem_of_sort_by, list_elem_of_In, filter_In. split; [|done].
    apply list_elem_of_In, elem_of_map_values. eauto. }
  unfold first_n. rewrite Z.gtb_ltb. destruct (Z.ltb_spec limit (Z.of_nat (length s))) as [Hl|]; [|by left].
  assert (Hs : StronglySorted (not_after c) s) by apply sort_by_sorted, _.
  rewrite <- (take_drop (Z.to_nat limit) s) in Hv, Hs.
  apply elem_of_app in Hv as [Hv|Hv]; [by left|right].
  split; [rewrite length_take; lia|]. intros x Hx.
  by eapply StronglySorted_app_1_elem_of.
Qed.
