(* ===== verification/Service.v ===== *)
(** * Service methods as programs

    What the methods of [Service] outside pricing and dispatch share: the state
    they work on, the monad of their programs, the audit log ([service.go],
    [application_service.go], [repository.go]), and the rules to reason about a
    call that runs alone ([exec]) or among others ([Threads]). *)

From S2P Require Import Prelude Threads AccessModel Repository.

(** The parts of [Service] that change: the repository and the request windows,
    each with a mutex of its own; and the clock. *)
Record service_state := mkService {
  repository : MemoryRepository;
  clock : time;
  rateWindows : gmap string (list time);
}.
#[export] Instance service_state_settable : Settable service_state := fun s => mkService
  (repository s) (clock s) (rateWindows s).

Definition serv (A : Type) : Type := prog service_state (result go_error A).
Definition serv_bind {A B} (p : serv A) (f : A -> serv B) : serv B :=
  prog_bind p (fun x => match x with Ok a => f a | Err e => Ret (Err e) end).
#[export] Instance serv_ret : MRet serv := fun A a => Ret (Ok a).
#[export] Instance serv_mbind : MBind serv := fun A B f p => serv_bind p f.

Definition throw {A} (e : go_error) : serv A := Ret (Err e).
(** [if cond { return ..., err }] *)
Definition refuse (cond : bool) (e : go_error) : serv unit := if cond then throw e else mret tt.
(** [x, err := f(...); if err != nil { return ..., err }] for a pure [f] *)
Definition from {A} (x : result go_error A) : serv A := Ret x.
(** [if err != nil { return ..., fmt.Errorf(... %w ..., err) }] *)
Definition wrapping {A} (wrap : go_error -> go_error) (p : serv A) : serv A :=
  prog_bind p (fun x => Ret (match x with Ok a => Ok a | Err err => Err (wrap err) end)).
(** A call of the repository whose error is returned. *)
Definition on_repository {A} (m : M A) (s : service_state) : result go_error A * service_state :=
  let '(x, r) := m (repository s) in (x, s <| repository := r |>).
Definition section {A} (m : M A) : serv A := Atomic (on_repository m) Ret.
Definition query {A} (f : MemoryRepository -> A) : serv A :=
  Atomic (fun s => (Ok (f (repository s)), s)) Ret.
Definition nowUTC : serv time := Atomic (fun s => (Ok (clock s), s)) Ret.

(** ** Audit *)

Definition audit (random actor action resourceType resourceID summary : string) : serv unit :=
  now ← nowUTC;
  section (AddAuditLog (newAuditLog random now actor action resourceType resourceID summary)).

Definition newApplicationAuditLog (random : string) (now : time)
    (actor action resourceType resourceID summary : string)
    (application : option Application.t) (principal : option GatewayPrincipal.t) : AuditLog.t :=
  let event := newAuditLog random now actor action resourceType resourceID summary in
  let event := match application with
    | None => event
    | Some application => event
        <| AuditLog.ApplicationID := Application.ID application |>
        <| AuditLog.ApplicationName := Application.Name application |>
    end in
  match principal with
  | None => event
  | Some principal => event
      <| AuditLog.GatewayPrincipalID := GatewayPrincipal.ID principal |>
      <| AuditLog.GatewayPrincipalName := GatewayPrincipal.Name principal |>
  end.

Definition auditApplication (random actor action resourceType resourceID summary : string)
    (application : option Application.t) (principal : option GatewayPrincipal.t) : serv unit :=
  now ← nowUTC;
  section (AddAuditLog (newApplicationAuditLog random now actor action resourceType resourceID summary
    application principal)).

(** ** A call that runs alone *)

Fixpoint exec {S A} (p : prog S A) (s : S) : A * S :=
  match p with
  | Ret a => (a, s)
  | Atomic act k => let '(x, s') := act s in exec (k x) s'
  end.

Lemma exec_prog_bind {S A B} (p : prog S A) (f : A -> prog S B) s :
  exec (prog_bind p f) s = let '(a, s') := exec p s in exec (f a) s'.
Proof.
  revert s. induction p as [a|X act k IH]; intros s; cbn; [done|]. destruct (act s) as [x s']. apply IH.
Qed.

Lemma exec_bind {A B} (p : serv A) (f : A -> serv B) s :
  exec (p ≫= f) s = match exec p s with
                    | (Ok a, s') => exec (f a) s'
                    | (Err e, s') => (Err e, s')
                    end.
Proof. unfold mbind, serv_mbind, serv_bind. rewrite exec_prog_bind. by destruct (exec p s) as [[a|e] s']. Qed.

Lemma run_in_exec {S A} (p : prog S A) w : (run_in p w).1 = (exec p w.2).1 /\ (run_in p w).2.2 = (exec p w.2).2.
Proof.
  revert w. induction p as [a|X act k IH]; intros [n s]; cbn; [done|]. unfold after. cbn.
  destruct (act s) as [x s']. cbn. apply (IH x (n + 1, s')).
Qed.

(** A run of a sequence: the first part fails, or hands over. *)
Lemma exec_bind_inv {A B} (p : serv A) (f : A -> serv B) s x s' :
  exec (p ≫= f) s = (x, s') ->
  (exists e, exec p s = (Err e, s') /\ x = Err e) \/
  (exists a s1, exec p s = (Ok a, s1) /\ exec (f a) s1 = (x, s')).
Proof. rewrite exec_bind. destruct (exec p s) as [[a|e] s1]; [eauto|]. intros [= <- <-]. eauto. Qed.

Lemma exec_refuse c e s x s' : exec (refuse c e) s = (x, s') ->
  s' = s /\ (c = true /\ x = Err e \/ c = false /\ x = Ok tt).
Proof. destruct c; cbn; intros [= <- <-]; eauto. Qed.

(** Programs that only look. *)
Inductive reader : forall {A}, serv A -> Prop :=
| Reader_ret A (x : result go_error A) : reader (Ret x : serv A)
| Reader_atomic A X (act : service_state -> X * service_state) (k : X -> serv A) :
    (forall s, (act s).2 = s) -> (forall x, reader (k x)) -> reader (Atomic act k : serv A).

Lemma reader_bind {A B} (p : serv A) (f : A -> serv B) : reader p -> (forall a, reader (f a)) -> reader (p ≫= f).
Proof.
  intros Hp. unfold mbind, serv_mbind, serv_bind. induction Hp as [A x|A X act k Hact _ IH]; intros Hf; cbn.
  - destruct x; [apply Hf|constructor].
  - constructor; [done|]. intros x. by apply IH.
Qed.
Lemma reader_query {A} (f : MemoryRepository -> A) : reader (query f).
Proof. constructor; [done|]. intros x. constructor. Qed.
Lemma reader_now : reader nowUTC.
Proof. constructor; [done|]. intros x. constructor. Qed.
Lemma reader_refuse c e : reader (refuse c e).
Proof. destruct c; constructor. Qed.
Create HintDb service.
Lemma reader_from {A} (x : result go_error A) : reader (from x).
Proof. constructor. Qed.
Lemma reader_throw {A} e : reader (throw (A := A) e).
Proof. constructor. Qed.
Lemma reader_mret {A} (a : A) : reader (mret a).
Proof. constructor. Qed.
Lemma reader_wrapping {A} w (p : serv A) : reader p -> reader (wrapping w p).
Proof.
  unfold wrapping. induction 1 as [A x|A X act k Hact _ IH]; cbn; constructor; [done|]. intros x. apply IH.
Qed.
#[export] Hint Resolve reader_from reader_throw reader_mret reader_wrapping reader_bind reader_query reader_now reader_refuse Reader_ret : service.
Ltac reader_tac := repeat first
  [ match goal with |- reader (match ?x with _ => _ end) => destruct x end
  | apply reader_bind; [|intros ?] | solve [auto with service] | solve [constructor] ].

Lemma exec_reader {A} (p : serv A) s : reader p -> (exec p s).2 = s.
Proof.
  intros Hp. revert s. induction Hp as [A x|A X act k Hact _ IH]; intros s; cbn; [done|]. specialize (Hact s).
  destruct (act s) as [x s']. cbn in Hact. subst s'. apply IH.
Qed.

(** What the answer of a program satisfies, whatever its sections answer. *)
Fixpoint yields {A} (p : serv A) (P : A -> Prop) : Prop :=
  match p with
  | Ret (Ok a) => P a
  | Ret (Err _) => True
  | Atomic act k => forall x, yields (k x) P
  end.

Lemma yields_bind {A B} (p : serv A) (f : A -> serv B) P Q :
  yields p P -> (forall a, P a -> yields (f a) Q) -> yields (p ≫= f) Q.
Proof.
  unfold mbind, serv_mbind, serv_bind. intros Hp Hf. induction p as [[a|e]|X act k IH]; cbn in *; [by apply Hf|done|].
  intros x. apply IH, Hp.
Qed.
Lemma yields_any {A} (p : serv A) : yields p (fun _ => True).
Proof. induction p as [[a|e]|X act k IH]; cbn; done. Qed.
Lemma yields_refuse c e : yields (refuse c e) (fun _ => c = false).
Proof. by destruct c. Qed.
Lemma yields_from {A} (x : result go_error A) : yields (from x) (fun a => x = Ok a).
Proof. by destruct x. Qed.
Lemma yields_mret {A} (a : A) (P : A -> Prop) : P a -> yields (mret a) P.
Proof. done. Qed.

(** A reader is a function of the state when it runs alone. *)
Definition answer {A} (p : serv A) (s : service_state) : result go_error A := (exec p s).1.

Lemma answer_bind {A B} (p : serv A) (f : A -> serv B) s : reader p ->
  answer (p ≫= f) s = answer p s ≫= (fun a => answer (f a) s).
Proof.
  intros Hp. unfold answer. rewrite exec_bind. pose proof (exec_reader p s Hp) as E.
  destruct (exec p s) as [[a|e] s1]; cbn in *; by subst.
Qed.

Lemma answer_query {A B} (f : MemoryRepository -> A) (k : A -> serv B) s :
  answer (query f ≫= k) s = answer (k (f (repository s))) s.
Proof. done. Qed.

Lemma answer_pass {B} e (k : unit -> serv B) s : answer (refuse false e ≫= k) s = answer (k tt) s.
Proof. done. Qed.

Lemma answer_wrapping {A} w (p : serv A) s a : answer (wrapping w p) s = Ok a -> answer p s = Ok a.
Proof.
  unfold answer, wrapping. rewrite exec_prog_bind. by destruct (exec p s) as [[b|e] s'].
Qed.

(** What a call that runs alone establishes. *)
Definition solo {A} (p : serv A) (Q : result go_error A -> service_state -> Prop) (s : service_state) : Prop :=
  Q (exec p s).1 (exec p s).2.

Lemma solo_bind {A B} (p : serv A) (f : A -> serv B) Q s :
  solo p (fun x s' => match x with Ok a => solo (f a) Q s' | Err e => Q (Err e) s' end) s -> solo (p ≫= f) Q s.
Proof. unfold solo. rewrite exec_bind. by destruct (exec p s) as [[a|e] s']. Qed.

Lemma solo_reader {A B} (p : serv A) (f : A -> serv B) Q s : reader p ->
  (forall a, answer p s = Ok a -> solo (f a) Q s) -> (forall e, answer p s = Err e -> Q (Err e) s) ->
  solo (p ≫= f) Q s.
Proof.
  intros Hp Hok Herr. apply solo_bind. unfold solo at 1. rewrite (exec_reader p s Hp). fold (answer p s).
  destruct (answer p s); auto.
Qed.

Lemma solo_section {A B} (m : M A) (f : A -> serv B) Q s :
  (forall a r, m (repository s) = (Ok a, r) -> solo (f a) Q (s <| repository := r |>)) ->
  (forall e r, m (repository s) = (Err e, r) -> Q (Err e) (s <| repository := r |>)) ->
  solo (section m ≫= f) Q s.
Proof.
  intros Hok Herr. apply solo_bind. unfold solo at 1, section, on_repository. cbn.
  destruct (m (repository s)) as [[a|e] r]; cbn; auto.
Qed.

Lemma solo_last {A} (m : M A) Q s :
  (forall x r, m (repository s) = (x, r) -> Q x (s <| repository := r |>)) -> solo (section m) Q s.
Proof. intros H. unfold solo, section, on_repository. cbn. destruct (m (repository s)) as [x r]. by apply H. Qed.

Lemma solo_audit {B} random actor action resourceType resourceID summary (f : unit -> serv B) Q s :
  (forall k event, solo (f tt) Q (s <| repository := (repository s).[auditLogs]:[k] <- event |>)) ->
  solo (audit random actor action resourceType resourceID summary ≫= f) Q s.
Proof. intros H. apply solo_bind. unfold solo at 1, audit. cbn. apply H. Qed.

Lemma solo_audit_last random actor action resourceType resourceID summary Q s :
  (forall k event, Q (Ok tt) (s <| repository := (repository s).[auditLogs]:[k] <- event |>)) ->
  solo (audit random actor action resourceType resourceID summary) Q s.
Proof. intros H. unfold solo, audit. cbn. apply H. Qed.

(** Follow the answer of a reader backwards. *)
Ltac answer_inv H :=
  lazymatch type of H with
  | answer (_ ≫= _) _ = Ok _ =>
      let a := fresh "x" in let Ha := fresh "Ha" in
      rewrite answer_bind in H by reader_tac; apply bind_Ok in H as (a & Ha & H);
      answer_inv Ha; cbv beta in H; answer_inv H
  | answer (refuse ?c ?e) _ = Ok _ =>
      let E := fresh "Hc" in destruct c eqn:E; [discriminate H|clear H]
  | answer (query ?f) ?s = Ok ?a => change (@Ok go_error _ (f (repository s)) = Ok a) in H; injection H as <-
  | answer nowUTC ?s = Ok ?a => change (@Ok go_error _ (clock s) = Ok a) in H; injection H as <-
  | answer (throw _) _ = Ok _ => discriminate H
  | answer (mret ?a) _ = Ok ?b => change (@Ok go_error _ a = Ok b) in H; injection H as H; try subst b
  | answer (Ret ?x) _ = ?y => change (x = y) in H
  | answer (from ?x) _ = ?y => change (x = y) in H
  | _ => idtac
  end.

(** ** A call among others *)

Section Rules.
Context (bound : Z) (ok : Z * service_state -> Prop) (later : Z * service_state -> Z * service_state -> Prop).
Context (present : string -> service_state -> Prop).
Context (later_refl : forall w, later w w).
Context (later_trans : forall w1 w2 w3, later w1 w2 -> later w2 w3 -> later w1 w3).
Context (tick_ok : forall n s, ok (n, s) -> ok (n + 1, s)).
Context (tick_later : forall n s, later (n, s) (n + 1, s)).
Notation obeys := (holds bound ok later present).
Notation relies := (rely ok later present).
Notation promises := (guar ok later present).

Lemma tick_relies ids w : ok w -> relies ids w (w.1 + 1, w.2).
Proof. destruct w as [n s]. intros H. split_and!; [by apply tick_ok|apply tick_later|done]. Qed.

Lemma tick_promises ids w : ok w -> promises ids w (w.1 + 1, w.2).
Proof. destruct w as [n s]. intros H. split_and!; [by apply tick_ok|apply tick_later|by left]. Qed.

Lemma call_ret {A} ids (x : A) (Q : A -> Z * service_state -> Prop) w :
  (forall w', relies ids w w' -> Q x w') -> obeys ids (Ret x) Q w.
Proof. done. Qed.

(** A critical section, and what follows it. *)
Lemma call_act {A X} ids (act : service_state -> X * service_state) (k : X -> serv A) Q w :
  (forall w', relies ids w w' -> promises ids w' (w'.1 + 1, (act w'.2).2) /\
     obeys ids (k (act w'.2).1) Q (w'.1 + 1, (act w'.2).2)) ->
  obeys ids (Atomic act k) Q w.
Proof. intros H. cbn. intros w' Hr _. apply (H w' Hr). Qed.

(** A critical section that only looks. *)
Lemma call_look {A X} ids (act : service_state -> X * service_state) (k : X -> serv A) Q w :
  (forall s, (act s).2 = s) ->
  (forall w', relies ids w w' -> obeys ids (k (act w'.2).1) Q w') ->
  obeys ids (Atomic act k) Q w.
Proof.
  intros Hact H. apply call_act. intros w' Hr. rewrite Hact. split; [apply tick_promises, Hr|].
  eapply holds_later; [exact later_trans|by apply H|apply tick_relies, Hr].
Qed.

Lemma call_bind {A B} ids (p : serv A) (f : A -> serv B) Q w :
  ok w ->
  obeys ids p (fun x w' => match x with
    | Ok a => obeys ids (f a) Q w'
    | Err e => forall w'', relies ids w' w'' -> Q (Err e) w''
    end) w ->
  obeys ids (p ≫= f) Q w.
Proof.
  intros Hw Hp. apply holds_bind; [exact later_refl| |done]. eapply holds_impl; [|exact Hp].
  intros [a|e] w' Hw' H; [done|]. apply call_ret. auto.
Qed.

Lemma call_reader_yields {A} ids (p : serv A) (P : A -> Prop) Q w :
  reader p -> yields p P -> ok w ->
  (forall x w', relies ids w w' -> (forall a, x = Ok a -> P a) -> Q x w') -> obeys ids p Q w.
Proof.
  intros Hp. revert w. induction Hp as [A x|A X act k Hact _ IH]; intros w Hy Hw HQ.
  - intros w' Hr. apply HQ; [done|]. by intros a ->.
  - apply call_look; [done|]. intros w' Hr. eapply (IH _ P); [apply Hy|apply Hr|]. intros x w'' Hr' HP. apply HQ; [|done].
    eapply rely_trans; [exact later_trans|exact Hr|exact Hr'].
Qed.

Lemma call_reader {A} ids (p : serv A) Q w :
  reader p -> ok w -> (forall x w', relies ids w w' -> Q x w') -> obeys ids p Q w.
Proof.
  intros Hp Hw HQ. eapply call_reader_yields; [exact Hp|apply yields_any|exact Hw|]. auto.
Qed.
End Rules.

