(* ===== verification/GatewayModels.v ===== *)
(** * Gateway models and their routes

    [backend/internal/controlplane/gateway_model_service.go] and the maps in
    memory of [gateway_model_repository.go]: the models a client may name, the
    routes that lead from a model to an account of a provider, and how a
    requested name is resolved.  With them the lists and look-ups by identifier of
    providers, accounts and routing policies ([repository.go], [service.go]). *)

From Stdlib Require Import Ascii.
From S2P Require Import Prelude Threads StringLists AccessModel RoutingModel Repository Service.

Module GatewayModelRequest.
Record t := mk {
  ModelID : string;
  Name : string;
  Description : string;
  Modality : string;
  DefaultRouteGroup : string;
  StickyEnabled : bool;
  StickyTTLSeconds : Z;
  Status : string;
}.
End GatewayModelRequest.

Module ModelRouteRequest.
Record t := mk {
  GatewayModelID : string;
  RouteGroup : string;
  ProviderAccountID : string;
  UpstreamModel : string;
  UpstreamFormat : string;
  Priority : Z;
  Weight : Z;
  Status : string;
}.
End ModelRouteRequest.

Definition whitespace : string := (" " +:+ String "009" "" +:+ cr +:+ lf)%string.

(** ** The maps in memory *)

Section Lists.
Context `{range : MapRange}.

(** [sort.Slice] on a first key, and on a second one among equals. *)
Definition model_less (a b : GatewayModel.t) : bool := str_ltb (GatewayModel.ModelID a) (GatewayModel.ModelID b).
Definition route_less (a b : ModelRoute.t) : bool :=
  if ModelRoute.GatewayModelID a <>s ModelRoute.GatewayModelID b
  then str_ltb (ModelRoute.GatewayModelID a) (ModelRoute.GatewayModelID b)
  else if ModelRoute.RouteGroup a <>s ModelRoute.RouteGroup b
  then str_ltb (ModelRoute.RouteGroup a) (ModelRoute.RouteGroup b)
  else if negb (ModelRoute.Priority a =? ModelRoute.Priority b)
  then ModelRoute.Priority a <? ModelRoute.Priority b
  else str_ltb (ModelRoute.ID a) (ModelRoute.ID b).
Definition provider_less (a b : ProviderConnection.t) : bool :=
  if ProviderConnection.Priority a =? ProviderConnection.Priority b
  then str_ltb (ProviderConnection.Name a) (ProviderConnection.Name b)
  else ProviderConnection.Priority a <? ProviderConnection.Priority b.
Definition account_less (a b : ProviderAccount.t) : bool :=
  if ProviderAccount.Priority a =? ProviderAccount.Priority b
  then str_ltb (ProviderAccount.Name a) (ProviderAccount.Name b)
  else ProviderAccount.Priority a <? ProviderAccount.Priority b.
Definition policy_less (a b : RoutingPolicy.t) : bool :=
  if RoutingPolicy.UpdatedAt a =? RoutingPolicy.UpdatedAt b
  then str_ltb (RoutingPolicy.Name a) (RoutingPolicy.Name b)
  else After (RoutingPolicy.UpdatedAt a) (RoutingPolicy.UpdatedAt b).

Definition modelRouteCount (r : MemoryRepository) (gatewayModelID : string) : Z :=
  Z.of_nat (length (List.filter (fun route => ModelRoute.GatewayModelID route =s gatewayModelID)
                      (map_values (modelRoutes r)))).
Definition counted (r : MemoryRepository) (model : GatewayModel.t) : GatewayModel.t :=
  model <| GatewayModel.RouteCount := modelRouteCount r (GatewayModel.ID model) |>.

Definition ListGatewayModels (r : MemoryRepository) : list GatewayModel.t :=
  sort_by model_less (map (counted r) (map_values (gatewayModels r))).
Definition ListModelRoutes (r : MemoryRepository) : list ModelRoute.t :=
  sort_by route_less (map_values (modelRoutes r)).
Definition ListProviders (r : MemoryRepository) : list ProviderConnection.t :=
  sort_by provider_less (map_values (providers r)).
Definition ListProviderAccounts (r : MemoryRepository) : list ProviderAccount.t :=
  sort_by account_less (map_values (accounts r)).
Definition ListRoutingPolicies (r : MemoryRepository) : list RoutingPolicy.t :=
  sort_by policy_less (map_values (policies r)).
End Lists.

Definition SaveGatewayModel (model : GatewayModel.t) : M unit :=
  write (fun r => r.[gatewayModels]:[GatewayModel.ID model] <- model).
Definition DeleteGatewayModel (id : string) : M unit :=
  write (fun r => r
    <| gatewayModels := delete id (gatewayModels r) |>
    <| modelRoutes := filter (fun entry => ModelRoute.GatewayModelID entry.2 <> id) (modelRoutes r) |>).
Definition SaveModelRoute (route : ModelRoute.t) : M unit :=
  write (fun r => r.[modelRoutes]:[ModelRoute.ID route] <- route).
Definition SaveModelRoutes (routes : list ModelRoute.t) : M unit :=
  write (fun r => foldl (fun r route => r.[modelRoutes]:[ModelRoute.ID route] <- route) r routes).
Definition DeleteModelRoute (id : string) : M unit :=
  write (fun r => r <| modelRoutes := delete id (modelRoutes r) |>).

(** ** Look-ups *)

Section Service.
Context `{range : MapRange}.

(** [... ByID]: the first element of a list with the identifier. *)
Definition by_id {A} (identifier : A -> string) (list_ : MemoryRepository -> list A)
    (required : string) (missing : string -> go_error) (id : string) : serv A :=
  let id := TrimSpace id in
  _ ← refuse (id =s "") (ErrNew required);
  items ← query list_;
  match List.find (fun item => identifier item =s id) items with
  | Some item => mret item
  | None => throw (missing id)
  end.

Definition gatewayModelByID : string -> serv GatewayModel.t :=
  by_id GatewayModel.ID ListGatewayModels "gateway model id is required"
    (exists_error "gateway model %q not found").
Definition modelRouteByID : string -> serv ModelRoute.t :=
  by_id ModelRoute.ID ListModelRoutes "model route id is required" (exists_error "model route %q not found").
Definition providerByID : string -> serv ProviderConnection.t :=
  by_id ProviderConnection.ID ListProviders "provider id is required" (exists_error "provider %q not found").
Definition providerAccountByID : string -> serv ProviderAccount.t :=
  by_id ProviderAccount.ID ListProviderAccounts "provider account id is required"
    (exists_error "provider account %q not found").
Definition routingPolicyByID : string -> serv RoutingPolicy.t :=
  by_id RoutingPolicy.ID ListRoutingPolicies "routing policy id is required"
    (exists_error "routing policy %q not found").

(** ** Models *)

Definition gatewayModelFromRequest (req : GatewayModelRequest.t) (now : time) : result go_error GatewayModel.t :=
  let modelID := TrimSpace (GatewayModelRequest.ModelID req) in
  let name := TrimSpace (GatewayModelRequest.Name req) in
  let modality := TrimSpace (GatewayModelRequest.Modality req) in
  let defaultRouteGroup := TrimSpace (GatewayModelRequest.DefaultRouteGroup req) in
  let status := TrimSpace (GatewayModelRequest.Status req) in
  _ ← guard_err (modelID =s "") (ErrNew "model_id is required");
  _ ← guard_err (ContainsAny modelID whitespace) (ErrNew "model_id must not contain whitespace");
  let name := if name =s "" then modelID else name in
  let modality := if modality =s "" then "chat"%string else modality in
  _ ← guard_err (negb (oneOf modality ["chat"; "embedding"; "image"; "video"; "audio"; "multimodal"]%string))
        (ErrNew "modality must be chat, embedding, image, video, audio, or multimodal");
  let defaultRouteGroup := if defaultRouteGroup =s "" then DefaultModelRouteGroup else defaultRouteGroup in
  _ ← guard_err (ContainsAny defaultRouteGroup (":" +:+ whitespace))
        (ErrNew "default_route_group must not contain whitespace or colon");
  let status := if status =s "" then GatewayModelStatusActive else status in
  _ ← guard_err (negb (oneOf status [GatewayModelStatusActive; GatewayModelStatusDisabled]))
        (ErrNew "status must be active or disabled");
  let requested := GatewayModelRequest.StickyTTLSeconds req in
  let stickyTTLSeconds := if requested =? 0 then 1800 else requested in
  _ ← guard_err ((stickyTTLSeconds <? 60) || (stickyTTLSeconds >? 604800))
        (ErrNew "sticky_ttl_seconds must be between 60 and 604800");
  Ok (GatewayModel.mk "" modelID name (TrimSpace (GatewayModelRequest.Description req)) modality
        defaultRouteGroup (GatewayModelRequest.StickyEnabled req) stickyTTLSeconds status 0 now now).

Definition ensureGatewayModelIDUnique (modelID exceptID : string) : serv unit :=
  models ← query ListGatewayModels;
  refuse (existsb (fun model => (GatewayModel.ID model <>s exceptID) && (GatewayModel.ModelID model =s modelID)) models)
    (exists_error "gateway model_id %q already exists" modelID).

(** [rnd] and [audit_rnd] are what [randomID] draws. *)
Definition CreateGatewayModel (rnd audit_rnd actor : string) (req : GatewayModelRequest.t) : serv GatewayModel.t :=
  now ← nowUTC;
  model ← from (gatewayModelFromRequest req now);
  _ ← ensureGatewayModelIDUnique (GatewayModel.ModelID model) "";
  let model := model <| GatewayModel.ID := ("gmodel_" +:+ rnd)%string |> in
  _ ← section (SaveGatewayModel model);
  _ ← audit audit_rnd actor "create" "gateway_model" (GatewayModel.ID model)
        ("Created gateway model " +:+ GatewayModel.ModelID model);
  mret model.

Definition UpdateGatewayModel (audit_rnd actor id : string) (req : GatewayModelRequest.t) : serv GatewayModel.t :=
  existing ← gatewayModelByID id;
  model ← from (gatewayModelFromRequest req (GatewayModel.CreatedAt existing));
  _ ← ensureGatewayModelIDUnique (GatewayModel.ModelID model) (GatewayModel.ID existing);
  now ← nowUTC;
  let model := model <| GatewayModel.ID := GatewayModel.ID existing |>
                     <| GatewayModel.CreatedAt := GatewayModel.CreatedAt existing |>
                     <| GatewayModel.UpdatedAt := now |> in
  _ ← section (SaveGatewayModel model);
  _ ← audit audit_rnd actor "update" "gateway_model" (GatewayModel.ID model)
        ("Updated gateway model " +:+ GatewayModel.ModelID model);
  mret model.

(** [Service.DeleteGatewayModel] *)
Definition service_DeleteGatewayModel (audit_rnd actor id : string) : serv unit :=
  model ← gatewayModelByID id;
  _ ← section (DeleteGatewayModel (GatewayModel.ID model));
  audit audit_rnd actor "delete" "gateway_model" (GatewayModel.ID model)
    ("Deleted gateway model " +:+ GatewayModel.ModelID model +:+ " and its routes").

Definition ResolveGatewayModel (requestedID : string) : serv (option ResolvedGatewayModel.t) :=
  let requestedID := TrimSpace requestedID in
  if requestedID =s "" then mret None else
  models ← query ListGatewayModels;
  let named id := List.find (fun model => (GatewayModel.Status model =s GatewayModelStatusActive)
                                          && (GatewayModel.ModelID model =s id)) models in
  match named requestedID with
  | Some model => mret (Some (ResolvedGatewayModel.mk model requestedID (GatewayModel.DefaultRouteGroup model)))
  | None =>
      match split_last ":" requestedID with
      | None => mret None
      | Some (modelID, routeGroup) =>
          if (modelID =s "") || (routeGroup =s "") then mret None else
          mret (model ← named modelID; Some (ResolvedGatewayModel.mk model requestedID routeGroup))
      end
  end.

(** ** Routes *)

Definition gatewayModelSupportsUpstreamFormat (modality upstreamFormat : string) : bool :=
  let modality := TrimSpace modality in
  if modality =s "chat" then upstreamFormat <>s UpstreamFormatNativeMedia
  else if modality =s "multimodal" then true
  else if oneOf modality [GatewayModalityImage; GatewayModalityVideo; GatewayModalityAudio]
  then upstreamFormat =s UpstreamFormatNativeMedia
  else if modality =s GatewayModalityEmbedding then upstreamFormat =s UpstreamFormatOpenAIEmbeddings
  else false.

(** [formats[providerType]] *)
Definition provider_formats (providerType : string) : list string :=
  if oneOf providerType [ProviderTypeOpenAICompatible; ProviderTypeAzureOpenAI]
  then [UpstreamFormatOpenAIChat; UpstreamFormatOpenAIResponses; UpstreamFormatOpenAIEmbeddings]
  else if providerType =s ProviderTypeAnthropicCompatible then [UpstreamFormatAnthropic]
  else if providerType =s ProviderTypeGeminiCompatible then [UpstreamFormatGemini]
  else if providerType =s ProviderTypeAWSBedrock then [UpstreamFormatBedrockConverse]
  else if providerType =s ProviderTypeGCPVertex then [UpstreamFormatAnthropic; UpstreamFormatGemini]
  else [].

Definition ProviderSupportsGatewayModelRoute (providerType modality upstreamFormat : string) : bool :=
  let providerType := TrimSpace providerType in
  let modality := TrimSpace modality in
  let upstreamFormat := TrimSpace upstreamFormat in
  if negb (gatewayModelSupportsUpstreamFormat modality upstreamFormat) then false
  else if upstreamFormat =s UpstreamFormatNativeMedia then
    if modality =s GatewayModalityAudio then providerType =s ProviderTypeOpenAICompatible
    else if oneOf modality [GatewayModalityImage; GatewayModalityVideo; "multimodal"]
    then contains [ProviderTypeOpenAICompatible; ProviderTypeAnthropicCompatible; ProviderTypeGeminiCompatible;
                   ProviderTypeAWSBedrock; ProviderTypeGCPVertex; ProviderTypeAzureOpenAI] providerType
    else false
  else contains (provider_formats providerType) upstreamFormat.

Definition modelRouteFromRequest (req : ModelRouteRequest.t) (now : time) : serv ModelRoute.t :=
  let gatewayModelID := TrimSpace (ModelRouteRequest.GatewayModelID req) in
  let routeGroup := TrimSpace (ModelRouteRequest.RouteGroup req) in
  let providerAccountID := TrimSpace (ModelRouteRequest.ProviderAccountID req) in
  let upstreamModel := TrimSpace (ModelRouteRequest.UpstreamModel req) in
  let upstreamFormat := TrimSpace (ModelRouteRequest.UpstreamFormat req) in
  let status := TrimSpace (ModelRouteRequest.Status req) in
  gatewayModel ← gatewayModelByID gatewayModelID;
  account ← providerAccountByID providerAccountID;
  provider ← providerByID (ProviderAccount.ProviderID account);
  let routeGroup := if routeGroup =s "" then DefaultModelRouteGroup else routeGroup in
  _ ← refuse (ContainsAny routeGroup (":" +:+ whitespace))
        (ErrNew "route_group must not contain whitespace or colon");
  _ ← refuse (upstreamModel =s "") (ErrNew "upstream_model is required");
  _ ← refuse (upstreamFormat =s "") (ErrNew "upstream_format is required");
  let modality := GatewayModel.Modality gatewayModel in
  _ ← refuse (negb (gatewayModelSupportsUpstreamFormat modality upstreamFormat))
        (ErrFmt "gateway model modality %q does not support upstream_format %q"
           [FmtStr modality; FmtStr upstreamFormat]);
  _ ← refuse (negb (ProviderSupportsGatewayModelRoute (ProviderConnection.Type_ provider) modality upstreamFormat))
        (ErrFmt "provider type %q does not support gateway model modality %q with upstream_format %q"
           [FmtStr (ProviderConnection.Type_ provider); FmtStr modality; FmtStr upstreamFormat]);
  _ ← refuse (negb (contains (ProviderAccount.Models account) upstreamModel))
        (ErrFmt "provider account %q does not expose upstream model %q"
           [FmtStr (ProviderAccount.ID account); FmtStr upstreamModel]);
  _ ← refuse (ModelRouteRequest.Priority req <? 0) (ErrNew "priority must be greater than or equal to 0");
  let weight := if ModelRouteRequest.Weight req =? 0 then 100 else ModelRouteRequest.Weight req in
  _ ← refuse ((weight <? 1) || (weight >? 10000)) (ErrNew "weight must be between 1 and 10000");
  let status := if status =s "" then ModelRouteStatusActive else status in
  _ ← refuse (negb (oneOf status [ModelRouteStatusActive; ModelRouteStatusDisabled]))
        (ErrNew "status must be active or disabled");
  _ ← refuse ((status =s ModelRouteStatusActive) && (GatewayModel.Status gatewayModel <>s GatewayModelStatusActive))
        (ErrNew "active model routes require an active gateway model");
  mret (ModelRoute.mk "" gatewayModelID routeGroup providerAccountID upstreamModel upstreamFormat ""
          (ModelRouteRequest.Priority req) weight status now now).

Definition equivalent_routes (route candidate : ModelRoute.t) : bool :=
  (ModelRoute.GatewayModelID route =s ModelRoute.GatewayModelID candidate)
  && (ModelRoute.RouteGroup route =s ModelRoute.RouteGroup candidate)
  && (ModelRoute.ProviderAccountID route =s ModelRoute.ProviderAccountID candidate)
  && (ModelRoute.UpstreamModel route =s ModelRoute.UpstreamModel candidate).

Definition ensureModelRouteUnique (candidate : ModelRoute.t) (exceptID : string) : serv unit :=
  routes ← query ListModelRoutes;
  refuse (existsb (fun route => (ModelRoute.ID route <>s exceptID) && equivalent_routes route candidate) routes)
    (ErrNew "an equivalent model route already exists").

Definition CreateModelRoute (rnd audit_rnd actor : string) (req : ModelRouteRequest.t) : serv ModelRoute.t :=
  now ← nowUTC;
  route ← modelRouteFromRequest req now;
  _ ← ensureModelRouteUnique route "";
  let route := route <| ModelRoute.ID := ("mroute_" +:+ rnd)%string |> in
  _ ← section (SaveModelRoute route);
  _ ← audit audit_rnd actor "create" "model_route" (ModelRoute.ID route)
        ("Created model route to " +:+ ModelRoute.UpstreamModel route);
  mret route.

Definition modelRouteUniqueKey (route : ModelRoute.t) : string :=
  (ModelRoute.GatewayModelID route +:+ nul +:+ ModelRoute.RouteGroup route +:+ nul
   +:+ ModelRoute.ProviderAccountID route +:+ nul +:+ ModelRoute.UpstreamModel route)%string.

(** The loop over the requests, from [index] on; [rnd] is what [randomID] draws
    for each. *)
Fixpoint bulk_routes (now : time) (rnd : Z -> string) (index : Z) (reqs : list ModelRouteRequest.t)
    (keys : gset string) (routes : list ModelRoute.t) : serv (list ModelRoute.t) :=
  match reqs with
  | req :: reqs =>
      route ← wrapping (ErrWrap ("routes[" +:+ Itoa index +:+ "]: %w")) (modelRouteFromRequest req now);
      let key := modelRouteUniqueKey route in
      _ ← refuse (bool_decide (key ∈ keys)) (ErrFmt "routes[%d]: model route already exists" [FmtInt index]);
      let route := route <| ModelRoute.ID := ("mroute_" +:+ rnd index)%string |> in
      bulk_routes now rnd (index + 1) reqs ({[key]} ∪ keys) (routes ++ [route])
  | [] => mret routes
  end.

Definition BulkCreateModelRoutes (rnd : Z -> string) (audit_rnd actor : string) (reqs : list ModelRouteRequest.t)
    : serv (list ModelRoute.t) :=
  _ ← refuse (Z.of_nat (length reqs) =? 0) (ErrNew "routes must not be empty");
  _ ← refuse (Z.of_nat (length reqs) >? 500) (ErrNew "routes must contain at most 500 entries");
  existing ← query ListModelRoutes;
  now ← nowUTC;
  routes ← bulk_routes now rnd 0 reqs (list_to_set (map modelRouteUniqueKey existing)) [];
  _ ← section (SaveModelRoutes routes);
  _ ← audit audit_rnd actor "create" "model_route_batch"
        (match routes with route :: _ => ModelRoute.ID route | [] => "" end)
        ("Created " +:+ Itoa (Z.of_nat (length routes)) +:+ " model routes");
  mret routes.

Definition UpdateModelRoute (audit_rnd actor id : string) (req : ModelRouteRequest.t) : serv ModelRoute.t :=
  existing ← modelRouteByID id;
  route ← modelRouteFromRequest req (ModelRoute.CreatedAt existing);
  _ ← ensureModelRouteUnique route (ModelRoute.ID existing);
  now ← nowUTC;
  let route := route <| ModelRoute.ID := ModelRoute.ID existing |>
                     <| ModelRoute.CreatedAt := ModelRoute.CreatedAt existing |>
                     <| ModelRoute.UpdatedAt := now |> in
  _ ← section (SaveModelRoute route);
  _ ← audit audit_rnd actor "update" "model_route" (ModelRoute.ID route)
        ("Updated model route to " +:+ ModelRoute.UpstreamModel route);
  mret route.

(** [Service.DeleteModelRoute] *)
Definition service_DeleteModelRoute (audit_rnd actor id : string) : serv unit :=
  route ← modelRouteByID id;
  _ ← section (DeleteModelRoute (ModelRoute.ID route));
  audit audit_rnd actor "delete" "model_route" (ModelRoute.ID route)
    ("Deleted model route to " +:+ ModelRoute.UpstreamModel route).

(** ** Routing policies a key may name ([service.go]) *)

Definition routingPolicyAllowsModel (strategy : RoutingPolicyStrategy.t) (model : string) : bool :=
  let model := TrimSpace model in
  let baseModel := base_model model in
  let denied := RoutingPolicyStrategy.DeniedModels strategy in
  let allowed := RoutingPolicyStrategy.AllowedModels strategy in
  if contains denied model || contains denied baseModel then false
  else (Z.of_nat (length allowed) =? 0) || contains allowed model || contains allowed baseModel.

Fixpoint validate_policy_models (policy : RoutingPolicy.t) (models : list string) : serv unit :=
  match models with
  | [] => mret tt
  | model :: models =>
      found ← ResolveGatewayModel model;
      match found with
      | None => throw (exists_error
          "routing_policy_id cannot be validated because gateway model %q was not found" model)
      | Some resolved =>
          _ ← refuse (ResolvedGatewayModel.RouteGroup resolved <>s RoutingPolicy.RouteGroup policy)
                (ErrFmt "routing_policy_id route_group %q is incompatible with model %q route_group %q"
                   [FmtStr (RoutingPolicy.RouteGroup policy); FmtStr model;
                    FmtStr (ResolvedGatewayModel.RouteGroup resolved)]);
          _ ← refuse (negb (routingPolicyAllowsModel (RoutingPolicy.Strategy policy)
                              (ResolvedGatewayModel.RequestedID resolved)))
                (exists_error "routing_policy_id does not allow model %q" model);
          validate_policy_models policy models
      end
  end.

Definition validateRoutingPolicyReference (id : string) (models : list string) : serv unit :=
  let id := TrimSpace id in
  if id =s "" then mret tt else
  policy ← wrapping (ErrWrap "routing_policy_id: %w") (routingPolicyByID id);
  _ ← refuse (RoutingPolicy.Status policy <>s RoutingPolicyStatusActive)
        (ErrNew "routing_policy_id must reference an active routing policy");
  validate_policy_models policy (cleanStringList models).
End Service.

(** ** Lemmas: readers *)

Section Proofs.
Context `{range : MapRange}.

Lemma reader_by_id {A} identifier (list_ : MemoryRepository -> list A) required missing id :
  reader (by_id identifier list_ required missing id).
Proof. unfold by_id. reader_tac. Qed.
#[local] Hint Resolve reader_by_id : service.
#[local] Hint Unfold gatewayModelByID modelRouteByID providerByID providerAccountByID routingPolicyByID : service.

Lemma reader_resolve requestedID : reader (ResolveGatewayModel requestedID).
Proof. unfold ResolveGatewayModel. reader_tac. Qed.

Lemma reader_model_unique modelID exceptID : reader (ensureGatewayModelIDUnique modelID exceptID).
Proof. unfold ensureGatewayModelIDUnique. reader_tac. Qed.

Lemma reader_route_unique candidate exceptID : reader (ensureModelRouteUnique candidate exceptID).
Proof. unfold ensureModelRouteUnique. reader_tac. Qed.

Lemma reader_route_request req now : reader (modelRouteFromRequest req now).
Proof.
  unfold modelRouteFromRequest, gatewayModelByID, providerAccountByID, providerByID. reader_tac.
Qed.
#[local] Hint Resolve reader_resolve reader_model_unique reader_route_unique reader_route_request : service.

Lemma reader_validate_policy id models : reader (validateRoutingPolicyReference id models).
Proof.
  unfold validateRoutingPolicyReference, routingPolicyByID. reader_tac.
  induction (cleanStringList models) as [|model l IH]; cbn; [constructor|]. reader_tac.
Qed.

(** ** Lemmas: what the lists hold *)

Lemma elem_of_models r x : x ∈ ListGatewayModels r <-> exists k m, gatewayModels r !! k = Some m /\ x = counted r m.
Proof.
  unfold ListGatewayModels. rewrite elem_of_sort_by, list_elem_of_fmap. setoid_rewrite elem_of_map_values. naive_solver.
Qed.

Lemma elem_of_routes r x : x ∈ ListModelRoutes r <-> exists k, modelRoutes r !! k = Some x.
Proof. unfold ListModelRoutes. by rewrite elem_of_sort_by, elem_of_map_values. Qed.

Lemma by_id_Ok {A} identifier (list_ : MemoryRepository -> list A) required missing id s item :
  answer (by_id identifier list_ required missing id) s = Ok item ->
  item ∈ list_ (repository s) /\ identifier item = TrimSpace id.
Proof.
  unfold by_id. intros H. answer_inv H. destruct (List.find _ _) eqn:Ef; answer_inv H.
  apply List.find_some in Ef as [Hin E]. boolify. split; [by apply list_elem_of_In|done].
Qed.

(** ** The catalogue *)

Definition plain_group (group : string) : Prop :=
  group <> ""%string /\ ContainsAny group (":" +:+ whitespace) = false.

Record model_valid (m : GatewayModel.t) : Prop := {
  valid_model_id : GatewayModel.ModelID m <> ""%string /\ ContainsAny (GatewayModel.ModelID m) whitespace = false;
  valid_group : plain_group (GatewayModel.DefaultRouteGroup m);
  valid_status : GatewayModel.Status m ∈ [GatewayModelStatusActive; GatewayModelStatusDisabled];
  valid_sticky : 60 <= GatewayModel.StickyTTLSeconds m <= 604800;
}.

Record route_valid (route : ModelRoute.t) : Prop := {
  valid_route_group : plain_group (ModelRoute.RouteGroup route);
  valid_route_upstream : ModelRoute.UpstreamModel route <> ""%string /\ ModelRoute.UpstreamFormat route <> ""%string;
  valid_route_status : ModelRoute.Status route ∈ [ModelRouteStatusActive; ModelRouteStatusDisabled];
  valid_route_numbers : 0 <= ModelRoute.Priority route /\ 1 <= ModelRoute.Weight route <= 10000;
}.

Definition route_slot (route : ModelRoute.t) : string * string * string * string :=
  (ModelRoute.GatewayModelID route, ModelRoute.RouteGroup route, ModelRoute.ProviderAccountID route,
   ModelRoute.UpstreamModel route).

(** One model for a name, one route for a slot, no route without its model. *)
Record catalogue_ok (r : MemoryRepository) : Prop := {
  ok_models_keyed : keyed GatewayModel.ID (gatewayModels r);
  ok_models_valid : map_Forall (fun _ m => model_valid m) (gatewayModels r);
  ok_model_ids : forall k1 k2 m1 m2, gatewayModels r !! k1 = Some m1 -> gatewayModels r !! k2 = Some m2 ->
    GatewayModel.ModelID m1 = GatewayModel.ModelID m2 -> k1 = k2;
  ok_routes_keyed : keyed ModelRoute.ID (modelRoutes r);
  ok_routes_valid : map_Forall (fun _ route => route_valid route) (modelRoutes r);
  ok_route_slots : forall k1 k2 r1 r2, modelRoutes r !! k1 = Some r1 -> modelRoutes r !! k2 = Some r2 ->
    route_slot r1 = route_slot r2 -> k1 = k2;
  ok_identified : gatewayModels r !! ""%string = None /\ modelRoutes r !! ""%string = None;
  ok_routes_refer : map_Forall (fun _ route => is_Some (gatewayModels r !! ModelRoute.GatewayModelID route)) (modelRoutes r);
}.

Lemma catalogue_frame r r' : gatewayModels r' = gatewayModels r -> modelRoutes r' = modelRoutes r ->
  catalogue_ok r -> catalogue_ok r'.
Proof. intros E1 E2 [H1 H2 H3 H4 H5 H6 H8 H7]. split; rewrite ?E1, ?E2; done. Qed.

(** A model as a request makes it. *)
Lemma model_from_request req now m : gatewayModelFromRequest req now = Ok m -> model_valid m.
Proof.
  unfold gatewayModelFromRequest. intros H. run_inv. boolify. split; cbn.
  - done.
  - split; [|done]. by destruct (TrimSpace (GatewayModelRequest.DefaultRouteGroup req) =s "") eqn:E; boolify.
  - by apply oneOf_In.
  - lia.
Qed.

Lemma model_unique_Ok modelID exceptID s x : answer (ensureGatewayModelIDUnique modelID exceptID) s = Ok x ->
  forall k m, gatewayModels (repository s) !! k = Some m -> GatewayModel.ModelID m = modelID ->
  GatewayModel.ID m = exceptID.
Proof.
  unfold ensureGatewayModelIDUnique. intros H k m Hm E. answer_inv H.
  destruct (decide (GatewayModel.ID m = exceptID)) as [|Hne]; [done|].
  assert (Ht : existsb (fun model => (GatewayModel.ID model <>s exceptID) && (GatewayModel.ModelID model =s modelID))
    (ListGatewayModels (repository s)) = true); [|congruence].
  apply existsb_exists. exists (counted (repository s) m). split.
  - apply list_elem_of_In, elem_of_models. eauto.
  - cbn. apply andb_true_iff. split; [|by apply String.eqb_eq]. by apply negb_true_iff, String.eqb_neq.
Qed.

Lemma route_unique_Ok candidate exceptID s x : answer (ensureModelRouteUnique candidate exceptID) s = Ok x ->
  forall k route, modelRoutes (repository s) !! k = Some route -> route_slot route = route_slot candidate ->
  ModelRoute.ID route = exceptID.
Proof.
  unfold ensureModelRouteUnique. intros H k route Hm E. answer_inv H.
  destruct (decide (ModelRoute.ID route = exceptID)) as [|Hne]; [done|].
  assert (Ht : existsb (fun r => (ModelRoute.ID r <>s exceptID) && equivalent_routes r candidate)
    (ListModelRoutes (repository s)) = true); [|congruence].
  apply existsb_exists. exists route. split; [by apply list_elem_of_In, elem_of_routes; exists k|].
  unfold route_slot in E. injection E as E1 E2 E3 E4. unfold equivalent_routes.
  rewrite E1, E2, E3, E4, !String.eqb_refl. by rewrite (proj2 (String.eqb_neq _ _) Hne).
Qed.

Lemma route_request_Ok req now s route : answer (modelRouteFromRequest req now) s = Ok route ->
  catalogue_ok (repository s) ->
  route_valid route /\ is_Some (gatewayModels (repository s) !! ModelRoute.GatewayModelID route).
Proof.
  unfold modelRouteFromRequest, gatewayModelByID, providerAccountByID, providerByID. intros H Hok. answer_inv H.
  repeat match goal with
  | H : answer _ _ = Ok ?x |- _ =>
      lazymatch type of x with GatewayModel.t => apply by_id_Ok in H as [Hm Em] | _ => clear H end
  end.
  boolify. split.
  - split; cbn.
    + split; [|done]. by destruct (TrimSpace (ModelRouteRequest.RouteGroup req) =s "") eqn:E; boolify.
    + done.
    + by apply oneOf_In.
    + lia.
  - cbn. apply elem_of_models in Hm as (k & m & Hk & ->). cbn in Em.
    rewrite TrimSpace_idemp in Em. rewrite <- Em, (ok_models_keyed _ Hok _ _ Hk). by exists m.
Qed.

(** *** What the writes keep *)

Lemma ok_set_model r m : catalogue_ok r -> model_valid m -> GatewayModel.ID m <> ""%string ->
  (forall k m', gatewayModels r !! k = Some m' -> GatewayModel.ModelID m' = GatewayModel.ModelID m ->
   k = GatewayModel.ID m) ->
  catalogue_ok (r.[gatewayModels]:[GatewayModel.ID m] <- m).
Proof.
  intros [H1 H2 H3 H4 H5 H6 H8 H7] Hv Hne Hu.
  split; cbn; [by apply keyed_insert|by apply map_Forall_insert_2| |done..|by rewrite lookup_insert_ne|].
  - intros k1 k2 m1 m2. rewrite !lookup_insert_Some. intros [[<- <-]|[? E1]] [[<- <-]|[? E2]] E; [done| | |by eauto].
    + symmetry. by eapply Hu.
    + by eapply Hu.
  - intros k route Hk. cbn. destruct (decide (ModelRoute.GatewayModelID route = GatewayModel.ID m)) as [->|].
    + rewrite lookup_insert_eq. by eexists.
    + rewrite lookup_insert_ne by done. by eapply H7.
Qed.

Lemma ok_set_route r route : catalogue_ok r -> route_valid route -> ModelRoute.ID route <> ""%string ->
  is_Some (gatewayModels r !! ModelRoute.GatewayModelID route) ->
  (forall k route', modelRoutes r !! k = Some route' -> route_slot route' = route_slot route ->
   k = ModelRoute.ID route) ->
  catalogue_ok (r.[modelRoutes]:[ModelRoute.ID route] <- route).
Proof.
  intros [H1 H2 H3 H4 H5 H6 H8 H7] Hv Hne Hr Hu.
  split; cbn; [done..|by apply keyed_insert|by apply map_Forall_insert_2| |by rewrite lookup_insert_ne|by apply map_Forall_insert_2].
  intros k1 k2 m1 m2. rewrite !lookup_insert_Some. intros [[<- <-]|[? E1]] [[<- <-]|[? E2]] E; [done| | |by eauto].
  - symmetry. by eapply Hu.
  - by eapply Hu.
Qed.

Lemma ok_delete_route r id : catalogue_ok r -> catalogue_ok (r <| modelRoutes := delete id (modelRoutes r) |>).
Proof.
  intros [H1 H2 H3 H4 H5 H6 H8 H7].
  split; cbn; [done..|by apply map_Forall_delete|by apply map_Forall_delete| | |by apply map_Forall_delete].
  2: { rewrite lookup_delete_None. naive_solver. }
  intros k1 k2 r1 r2 [_ E1]%lookup_delete_Some [_ E2]%lookup_delete_Some. by eapply H6.
Qed.

Lemma ok_delete_model id r x r' : catalogue_ok r -> DeleteGatewayModel id r = (x, r') -> catalogue_ok r'.
Proof.
  intros [H1 H2 H3 H4 H5 H6 H8 H7] [= _ <-]. split; cbn; try by apply map_Forall_delete.
  - intros k1 k2 m1 m2 [_ E1]%lookup_delete_Some [_ E2]%lookup_delete_Some. by eapply H3.
  - intros k route [E _]%map_lookup_filter_Some. by eapply H4.
  - intros k route [E _]%map_lookup_filter_Some. by eapply H5.
  - intros k1 k2 r1 r2 [E1 _]%map_lookup_filter_Some [E2 _]%map_lookup_filter_Some. by eapply H6.
  - rewrite lookup_delete_None, map_lookup_filter_None. naive_solver.
  - intros k route [E Hne]%map_lookup_filter_Some. cbn in Hne. rewrite lookup_delete_ne by done. by eapply H7.
Qed.

(** The routes of a batch: in order, of the requests, in slots of their own. *)
Lemma bulk_routes_Ok now rnd reqs s out : catalogue_ok (repository s) -> forall index keys routes,
  answer (bulk_routes now rnd index reqs keys routes) s = Ok out ->
  exists new, out = routes ++ new /\
    Forall (fun route => route_valid route /\ is_Some (gatewayModels (repository s) !! ModelRoute.GatewayModelID route)) new /\
    Forall (fun route => ModelRoute.ID route <> ""%string) new /\
    NoDup (map route_slot new) /\ Forall (fun route => modelRouteUniqueKey route ∉ keys) new.
Proof.
  intros Hok. induction reqs as [|req reqs IH]; intros index keys routes H; cbn [bulk_routes] in H.
  { answer_inv H. exists []. rewrite app_nil_r. split_and!; [done|constructor..]. }
  rewrite answer_bind in H by reader_tac. apply bind_Ok in H as (route & Hr & H).
  apply answer_wrapping, route_request_Ok in Hr as [Hv Hm]; [|done].
  rewrite answer_bind in H by reader_tac. apply bind_Ok in H as (u & Hk & H). answer_inv Hk.
  apply IH in H as (new & -> & Hf & Hi & Hn & Hk). set (route' := route <| ModelRoute.ID := _ |>) in *.
  exists (route' :: new). rewrite <- app_assoc. split_and!; [done| | | |].
  - constructor; [|done]. by destruct Hv.
  - by constructor.
  - cbn [map]. apply NoDup_cons. split; [|done]. intros (other & E & Ho)%list_elem_of_fmap.
    rewrite Forall_forall in Hk. apply (Hk other Ho), elem_of_union_l, elem_of_singleton.
    unfold route_slot in E. injection E as E1 E2 E3 E4. unfold modelRouteUniqueKey. by rewrite <- E1, <- E2, <- E3, <- E4.
  - constructor; [by apply bool_decide_eq_false in Hc|]. eapply Forall_impl; [exact Hk|]. set_solver.
Qed.

Lemma ok_set_routes new r : catalogue_ok r ->
  Forall (fun route => route_valid route /\ is_Some (gatewayModels r !! ModelRoute.GatewayModelID route)) new ->
  Forall (fun route => ModelRoute.ID route <> ""%string) new ->
  NoDup (map route_slot new) ->
  (forall k route, modelRoutes r !! k = Some route -> route_slot route ∉ map route_slot new) ->
  catalogue_ok (foldl (fun r route => r.[modelRoutes]:[ModelRoute.ID route] <- route) r new).
Proof.
  revert r. induction new as [|route new IH]; intros r Hok Hf Hi Hn Hd; cbn; [done|].
  apply Forall_cons in Hf as [[Hv Hm] Hf]. apply Forall_cons in Hi as [Hne Hi]. cbn in Hn. apply NoDup_cons in Hn as [Hnew Hn]. apply IH; [|done..|].
  - apply ok_set_route; [done..|]. intros k route' Hk E. destruct (Hd _ _ Hk). cbn. rewrite E. by left.
  - cbn. intros k route' [[_ <-]|[_ Hk]]%lookup_insert_Some; [done|]. intros Hin. destruct (Hd _ _ Hk). by right.
Qed.

(** *** The methods *)

Lemma ok_audited k event s : catalogue_ok (repository s) ->
  catalogue_ok (repository (s <| repository := (repository s).[auditLogs]:[k] <- event |>)).
Proof. by apply catalogue_frame. Qed.

Lemma ok_written r s : catalogue_ok r -> catalogue_ok (repository (s <| repository := r |>)).
Proof. done. Qed.

Ltac audited := first
  [ apply solo_audit; intros ? ?; unfold solo; apply ok_audited, ok_written
  | apply solo_audit_last; intros ? ?; apply ok_audited, ok_written ].

Notation coherent := (fun _ s => catalogue_ok (repository s)).
#[local] Hint Unfold gatewayModelByID modelRouteByID : service.

Lemma model_saved m existing id s : id = GatewayModel.ID m -> catalogue_ok (repository s) -> model_valid m ->
  (existing = ""%string /\ GatewayModel.ID m <> ""%string \/ existing <> ""%string /\ existing = GatewayModel.ID m) ->
  (forall key m', gatewayModels (repository s) !! key = Some m' ->
     GatewayModel.ModelID m' = GatewayModel.ModelID m -> GatewayModel.ID m' = existing) ->
  catalogue_ok ((repository s).[gatewayModels]:[id] <- m).
Proof.
  intros -> Hok Hv Hid Hu. apply ok_set_model; [done..|naive_solver|]. intros key m' Hk E. pose proof (Hu key m' Hk E) as Ei.
  rewrite (ok_models_keyed _ Hok _ _ Hk) in Ei. destruct Hid as [[-> _]|[_ ->]]; [|done]. subst key.
  destruct (ok_identified _ Hok) as [Hn _]. congruence.
Qed.

Lemma ok_CreateGatewayModel rnd audit_rnd actor req s : catalogue_ok (repository s) ->
  solo (CreateGatewayModel rnd audit_rnd actor req) coherent s.
Proof.
  intros Hok. unfold CreateGatewayModel. apply solo_reader; [auto with service|intros now _|done].
  apply solo_reader; [auto with service|intros m Hm|done]. answer_inv Hm. apply model_from_request in Hm as [].
  apply solo_reader; [auto with service|intros u Hu|done]. pose proof (model_unique_Ok _ _ _ _ Hu) as Hn.
  apply solo_section; [|done]. intros a r [= _ <-]. audited. apply (model_saved _ ""); [done..|by left|done].
Qed.

Lemma ok_UpdateGatewayModel audit_rnd actor id req s : catalogue_ok (repository s) ->
  solo (UpdateGatewayModel audit_rnd actor id req) coherent s.
Proof.
  intros Hok. unfold UpdateGatewayModel, gatewayModelByID. apply solo_reader; [auto with service|intros existing He|done].
  apply by_id_Ok in He as [He _]. apply elem_of_models in He as (key & old & Hold & ->).
  apply solo_reader; [auto with service|intros m Hm|done]. answer_inv Hm. apply model_from_request in Hm as [].
  apply solo_reader; [auto with service|intros u Hu|done]. pose proof (model_unique_Ok _ _ _ _ Hu) as Hn.
  apply solo_reader; [auto with service|intros now _|done].
  apply solo_section; [|done]. intros a r [= _ <-]. audited.
  eapply model_saved; [done..|right; split; [|reflexivity]|exact Hn].
  cbn. rewrite (ok_models_keyed _ Hok _ _ Hold). intros ->. destruct (ok_identified _ Hok) as [Hno _]. congruence.
Qed.

Lemma ok_DeleteGatewayModel audit_rnd actor id s : catalogue_ok (repository s) ->
  solo (service_DeleteGatewayModel audit_rnd actor id) coherent s.
Proof.
  intros Hok. unfold service_DeleteGatewayModel, gatewayModelByID. apply solo_reader; [auto with service|intros m _|done].
  apply solo_section; [|done]. intros a r Hr. audited. by eapply ok_delete_model.
Qed.

Lemma route_saved route existing id s : id = ModelRoute.ID route -> catalogue_ok (repository s) -> route_valid route ->
  is_Some (gatewayModels (repository s) !! ModelRoute.GatewayModelID route) ->
  (existing = ""%string /\ ModelRoute.ID route <> ""%string \/ existing <> ""%string /\ existing = ModelRoute.ID route) ->
  (forall key route', modelRoutes (repository s) !! key = Some route' ->
     route_slot route' = route_slot route -> ModelRoute.ID route' = existing) ->
  catalogue_ok ((repository s).[modelRoutes]:[id] <- route).
Proof.
  intros -> Hok Hv Hm Hid Hu. apply ok_set_route; [done..|naive_solver|done|]. intros key route' Hk E.
  pose proof (Hu key route' Hk E) as Ei. rewrite (ok_routes_keyed _ Hok _ _ Hk) in Ei.
  destruct Hid as [[-> _]|[_ ->]]; [|done]. subst key. destruct (ok_identified _ Hok) as [_ Hn]. congruence.
Qed.

Lemma ok_CreateModelRoute rnd audit_rnd actor req s : catalogue_ok (repository s) ->
  solo (CreateModelRoute rnd audit_rnd actor req) coherent s.
Proof.
  intros Hok. unfold CreateModelRoute. apply solo_reader; [auto with service|intros now _|done].
  apply solo_reader; [auto with service|intros route Hr|done]. apply route_request_Ok in Hr as [[] Hm]; [|done].
  apply solo_reader; [auto with service|intros u Hu|done]. pose proof (route_unique_Ok _ _ _ _ Hu) as Hn.
  apply solo_section; [|done]. intros a r [= _ <-]. audited. apply (route_saved _ ""); [done..|by left|done].
Qed.

Lemma ok_UpdateModelRoute audit_rnd actor id req s : catalogue_ok (repository s) ->
  solo (UpdateModelRoute audit_rnd actor id req) coherent s.
Proof.
  intros Hok. unfold UpdateModelRoute, modelRouteByID. apply solo_reader; [auto with service|intros existing He|done].
  apply by_id_Ok in He as [He _]. apply elem_of_routes in He as (key & Hold).
  apply solo_reader; [auto with service|intros route Hr|done]. apply route_request_Ok in Hr as [[] Hm]; [|done].
  apply solo_reader; [auto with service|intros u Hu|done]. pose proof (route_unique_Ok _ _ _ _ Hu) as Hn.
  apply solo_reader; [auto with service|intros now _|done].
  apply solo_section; [|done]. intros a r [= _ <-]. audited.
  eapply route_saved; [done..|right; split; [|reflexivity]|exact Hn].
  cbn. rewrite (ok_routes_keyed _ Hok _ _ Hold). intros ->. destruct (ok_identified _ Hok) as [_ Hno]. congruence.
Qed.

Lemma reader_bulk now rnd reqs index keys routes : reader (bulk_routes now rnd index reqs keys routes).
Proof.
  revert index keys routes. induction reqs as [|req reqs IH]; intros index keys routes; cbn [bulk_routes]; reader_tac.
Qed.
#[local] Hint Resolve reader_bulk : service.

Lemma ok_BulkCreateModelRoutes rnd audit_rnd actor reqs s : catalogue_ok (repository s) ->
  solo (BulkCreateModelRoutes rnd audit_rnd actor reqs) coherent s.
Proof.
  intros Hok. unfold BulkCreateModelRoutes. do 2 (apply solo_reader; [auto with service|intros _ _|done]).
  apply solo_reader; [auto with service|intros existing He|done]. answer_inv He.
  apply solo_reader; [auto with service|intros now _|done].
  apply solo_reader; [auto with service|intros new Hnew|done].
  apply bulk_routes_Ok in Hnew as (routes & -> & Hf & Hi & Hn & Hk); [|done]. cbn [app] in *.
  apply solo_section; [|done]. intros a r [= _ <-]. audited. apply ok_set_routes; [done..|].
  intros key route Hr (other & E & Ho)%list_elem_of_fmap. rewrite Forall_forall in Hk. apply (Hk other Ho).
  apply elem_of_list_to_set, list_elem_of_fmap. exists route. split; [|by apply elem_of_routes; exists key].
  unfold route_slot in E. injection E as E1 E2 E3 E4. unfold modelRouteUniqueKey. by rewrite E1, E2, E3, E4.
Qed.

Lemma ok_DeleteModelRoute audit_rnd actor id s : catalogue_ok (repository s) ->
  solo (service_DeleteModelRoute audit_rnd actor id) coherent s.
Proof.
  intros Hok. unfold service_DeleteModelRoute, modelRouteByID. apply solo_reader; [auto with service|intros route _|done].
  apply solo_section; [|done]. intros a r [= _ <-]. audited. by apply ok_delete_route.
Qed.

(** ** Runs *)

(** The calls of the catalogue, one at a time, and what else the system does. *)
Inductive catalogue_step : service_state -> service_state -> Prop :=
| Step_create_model rnd audit_rnd actor req s :
    catalogue_step s (exec (CreateGatewayModel rnd audit_rnd actor req) s).2
| Step_update_model audit_rnd actor id req s :
    catalogue_step s (exec (UpdateGatewayModel audit_rnd actor id req) s).2
| Step_delete_model audit_rnd actor id s :
    catalogue_step s (exec (service_DeleteGatewayModel audit_rnd actor id) s).2
| Step_create_route rnd audit_rnd actor req s :
    catalogue_step s (exec (CreateModelRoute rnd audit_rnd actor req) s).2
| Step_create_routes rnd audit_rnd actor reqs s :
    catalogue_step s (exec (BulkCreateModelRoutes rnd audit_rnd actor reqs) s).2
| Step_update_route audit_rnd actor id req s :
    catalogue_step s (exec (UpdateModelRoute audit_rnd actor id req) s).2
| Step_delete_route audit_rnd actor id s :
    catalogue_step s (exec (service_DeleteModelRoute audit_rnd actor id) s).2
| Step_elsewhere s s' :
    gatewayModels (repository s') = gatewayModels (repository s) ->
    modelRoutes (repository s') = modelRoutes (repository s) -> catalogue_step s s'.

Lemma catalogue_step_ok s s' : catalogue_step s s' -> catalogue_ok (repository s) -> catalogue_ok (repository s').
Proof.
  destruct 1; intros Hok;
    [by apply ok_CreateGatewayModel|by apply ok_UpdateGatewayModel|by apply ok_DeleteGatewayModel
    |by apply ok_CreateModelRoute|by apply ok_BulkCreateModelRoutes|by apply ok_UpdateModelRoute
    |by apply ok_DeleteModelRoute|by eapply catalogue_frame].
Qed.

Lemma catalogue_empty : catalogue_ok NewMemoryRepository.
Proof. split; cbn; try apply map_Forall_empty; try done. Qed.

(** ** Lemmas: resolution *)

Lemma split_last_behind s before behind :
  split_last ":" s = Some (before, behind) -> ContainsAny behind ":" = false.
Proof.
  revert before behind. induction s as [|a s IH]; cbn; intros before behind; [done|].
  destruct (split_last ":" s) as [[b r]|] eqn:E; [intros [= <- <-]; by eapply IH|].
  destruct (String a "" =s ":") eqn:Ea; [|done]. intros [= <- <-]. clear -E.
  induction s as [|c s IH]; [done|]. cbn in *. destruct (split_last ":" s) as [[? ?]|]; [done|].
  destruct (String c "" =s ":") eqn:Ec; [done|]. unfold ContainsAny in *. cbn in *. rewrite IH by done.
  destruct (Ascii.eqb_spec c ":"); [|done]. by subst.
Qed.

Lemma split_last_plain s : ContainsAny s ":" = false -> split_last ":" s = None.
Proof.
  induction s as [|c s IH]; [done|]. unfold ContainsAny. cbn. rewrite orb_false_r. intros [Hc Hs]%orb_false_iff.
  rewrite (IH Hs). destruct (String c "" =s ":") eqn:E; [|done]. boolify. injection E as ->. done.
Qed.

Lemma split_last_app before behind : ContainsAny behind ":" = false ->
  split_last ":" (before +:+ ":" +:+ behind) = Some (before, behind).
Proof.
  intros H. induction before as [|a before IH].
  - change (split_last ":" (String ":" behind) = Some (""%string, behind)). cbn [split_last]. by rewrite split_last_plain.
  - change (split_last ":" (String a (before +:+ ":" +:+ behind)) = Some (String a before, behind)). cbn [split_last].
    by rewrite IH.
Qed.

Lemma find_model s id : catalogue_ok (repository s) ->
  match List.find (fun model => (GatewayModel.Status model =s GatewayModelStatusActive)
                                && (GatewayModel.ModelID model =s id)) (ListGatewayModels (repository s)) with
  | Some model => exists k m, gatewayModels (repository s) !! k = Some m /\ model = counted (repository s) m /\
      GatewayModel.Status m = GatewayModelStatusActive /\ GatewayModel.ModelID m = id
  | None => forall k m, gatewayModels (repository s) !! k = Some m ->
      GatewayModel.Status m = GatewayModelStatusActive -> GatewayModel.ModelID m <> id
  end.
Proof.
  intros Hok. destruct (List.find _ _) as [model|] eqn:E.
  - apply List.find_some in E as [Hin Hp]. apply list_elem_of_In, elem_of_models in Hin as (k & m & Hk & ->).
    boolify. by exists k, m.
  - intros k m Hk Ha Hid.
    assert (Hin : In (counted (repository s) m) (ListGatewayModels (repository s))).
    { apply list_elem_of_In, elem_of_models. by exists k, m. }
    pose proof (List.find_none _ _ E _ Hin) as Hf. cbn in Hf. rewrite Ha, Hid, !String.eqb_refl in Hf. done.
Qed.

(** An active model with this name. *)
Definition active_model (r : MemoryRepository) (id : string) (m : GatewayModel.t) : Prop :=
  exists k, gatewayModels r !! k = Some m /\ GatewayModel.Status m = GatewayModelStatusActive /\
    GatewayModel.ModelID m = id.

Lemma active_unique r id m m' : catalogue_ok r -> active_model r id m -> active_model r id m' -> m = m'.
Proof.
  intros Hok (k & Hk & _ & E) (k' & Hk' & _ & E').
  assert (k = k') as -> by (eapply (ok_model_ids _ Hok); [exact Hk|exact Hk'|by rewrite E, E']).
  rewrite Hk in Hk'. by injection Hk'.
Qed.

(** What a name stands for. *)
Inductive stands_for (r : MemoryRepository) (name : string) : GatewayModel.t -> string -> Prop :=
| By_name m : active_model r name m -> stands_for r name m (GatewayModel.DefaultRouteGroup m)
| By_group m id group :
    name = (id +:+ ":" +:+ group)%string -> ContainsAny group ":" = false -> group <> ""%string ->
    (forall m', ~ active_model r name m') -> active_model r id m -> stands_for r name m group.

Lemma by_group_iff r q m group : catalogue_ok r -> (forall m', ~ active_model r q m') ->
  stands_for r q m group <->
  exists id, split_last ":" q = Some (id, group) /\ id <> ""%string /\ group <> ""%string /\ active_model r id m.
Proof.
  intros Hok Hno. split.
  - intros [m' Hact|m' id g E Hg Hne _ Hact]; [by destruct (Hno m')|]. exists id.
    split_and!; [rewrite E; by apply split_last_app| |done..].
    destruct Hact as (k & Hk & _ & <-). by destruct (valid_model_id _ (ok_models_valid _ Hok _ _ Hk)).
  - intros (id & Es & Hid & Hne & Hact). eapply By_group; [by apply split_last_spec|by eapply split_last_behind|done..].
Qed.

Lemma stands_named r q m group : catalogue_ok r -> stands_for r q m group -> q <> ""%string.
Proof.
  intros Hok [m' (k & Hk & _ & <-)|m' id g -> _ _ _ _]; [|by destruct id].
  by destruct (valid_model_id _ (ok_models_valid _ Hok _ _ Hk)).
Qed.

Lemma stands_unique r q m g m' g' : catalogue_ok r -> stands_for r q m g -> stands_for r q m' g' -> m = m' /\ g = g'.
Proof.
  intros Hok H H'. destruct H as [m Ha|m id g E Hg Hne Hno Ha].
  - destruct H' as [m' Ha'|? ? ? ? ? ? Hno]; [|by destruct (Hno m)]. by rewrite (active_unique _ _ _ _ Hok Ha Ha').
  - apply by_group_iff in H' as (id' & Es & _ & _ & Ha'); [|done..]. rewrite E, split_last_app in Es by done.
    injection Es as <- <-. by rewrite (active_unique _ _ _ _ Hok Ha Ha').
Qed.

Lemma resolve_cases s requested (q := TrimSpace requested) : catalogue_ok (repository s) ->
  (exists m group, stands_for (repository s) q m group /\
     answer (ResolveGatewayModel requested) s =
       Ok (Some (ResolvedGatewayModel.mk (counted (repository s) m) q group))) \/
  (forall m group, ~ stands_for (repository s) q m group) /\ answer (ResolveGatewayModel requested) s = Ok None.
Proof.
  intros Hok. unfold ResolveGatewayModel. fold q. destruct (q =s "") eqn:Eq; boolify.
  { right. split; [|done]. intros m group Hst. by apply (stands_named _ _ _ _ Hok) in Hst. }
  rewrite answer_query. pose proof (find_model s q Hok) as Hf. destruct (List.find _ _) as [model|].
  { destruct Hf as (k & m & Hk & -> & Ha & Hid). left. exists m, (GatewayModel.DefaultRouteGroup m).
    split; [|done]. apply By_name. by exists k. }
  assert (Hno : forall m, ~ active_model (repository s) q m) by (intros m (k & Hk & Ha & E); by eapply Hf).
  setoid_rewrite (fun m group => by_group_iff (repository s) q m group Hok Hno).
  destruct (split_last ":" q) as [[id group]|] eqn:Es; [|right; split; [|done]; naive_solver].
  destruct (_ || _) eqn:Eo.
  { right. split; [|done]. intros m g (id' & [= <- <-] & Hid & Hg & _). apply orb_true_iff in Eo as [Eo|Eo]; by boolify. }
  boolify. pose proof (find_model s id Hok) as Hf'. destruct (List.find _ _) as [model|].
  - destruct Hf' as (k & m & Hk & -> & Ha & Hid). left. exists m, group. split; [|done]. exists id.
    split_and!; [done..|by exists k].
  - right. split; [|done]. intros m g (id' & [= <- <-] & _ & _ & (k & Hk & Ha & E)). by destruct (Hf' k m Hk Ha).
Qed.
End Proofs.

(** ** Properties *)

Section Properties.
Context `{range : MapRange}.

(** C25. Calls that run one at a time keep the catalogue coherent: one model for a
    name, one route from a model and group to a model of an account, every route
    of a model that exists - deleting a model takes its routes along, and a batch of
    routes is stored whole or not at all - and every model and route within its
    limits. *)
Theorem catalogue_coherent s s' :
  repository s = NewMemoryRepository -> rtc catalogue_step s s' -> catalogue_ok (repository s').
Proof.
  intros E Hs. assert (H : catalogue_ok (repository s)) by (rewrite E; apply catalogue_empty).
  clear E. induction Hs as [|s1 s2 s3 H1 _ IH]; [done|]. apply IH. by eapply catalogue_step_ok.
Qed.

(** A requested name resolves to what it stands for, and to nothing else: the
    active model of that very name with its default group, or, if there is none,
    the active model named before the last colon with the group behind it. *)
Theorem resolution_exact s requested :
  catalogue_ok (repository s) ->
  exists found, answer (ResolveGatewayModel requested) s = Ok found /\
  forall resolved, found = Some resolved <->
    exists m, stands_for (repository s) (TrimSpace requested) m (ResolvedGatewayModel.RouteGroup resolved) /\
      ResolvedGatewayModel.GatewayModel resolved = counted (repository s) m /\
      ResolvedGatewayModel.RequestedID resolved = TrimSpace requested.
Proof.
  intros Hok. destruct (resolve_cases s requested Hok) as [(m & group & Hst & ->)|[Hno ->]].
  - eexists. split; [reflexivity|]. intros [model q g]. cbn. split.
    + intros [= <- <- <-]. by exists m.
    + intros (m' & Hst' & -> & ->). by destruct (stands_unique _ _ _ _ _ _ Hok Hst Hst') as [-> ->].
  - exists None. split; [done|]. intros resolved. split; [done|]. intros (m & Hst & _). by destruct (Hno _ _ Hst).
Qed.
End Properties.

Module Demo.
#[local] Existing Instance canonical_range.
Definition model_request : GatewayModelRequest.t :=
  GatewayModelRequest.mk " gpt " "" "" "" "" false 0 "".
Definition route_request (group : string) : ModelRouteRequest.t :=
  ModelRouteRequest.mk "gmodel_1" group "acc_1" "gpt-4o" UpstreamFormatOpenAIChat 1 0 "".
Definition provider_ : ProviderConnection.t := ProviderConnection.zero
  <| ProviderConnection.ID := "prov_1"%string |> <| ProviderConnection.Type_ := ProviderTypeOpenAICompatible |>.
Definition account_ : ProviderAccount.t := ProviderAccount.zero
  <| ProviderAccount.ID := "acc_1"%string |> <| ProviderAccount.ProviderID := "prov_1"%string |>
  <| ProviderAccount.Models := ["gpt-4o"%string] |>.
Definition start : service_state := mkService NewMemoryRepository 1000 ∅.
Definition supplied : service_state :=
  start <| repository := NewMemoryRepository.[providers]:["prov_1"%string] <- provider_ |>.
Definition connected : service_state :=
  supplied <| repository := (repository supplied).[accounts]:["acc_1"%string] <- account_ |>.
Definition named : service_state := (exec (CreateGatewayModel "1" "a1" "root" model_request) connected).2.
Definition routed : service_state :=
  (exec (BulkCreateModelRoutes Itoa "a2" "root" [route_request ""; route_request "fast"]) named).2.
Definition repeated : service_state :=
  (exec (CreateModelRoute "9" "a3" "root" (route_request "fast")) routed).2.
Definition emptied : service_state := (exec (service_DeleteGatewayModel "a4" "root" "gmodel_1") repeated).2.
End Demo.

Import Demo.
#[local] Existing Instance canonical_range.

(** A model, two routes in one batch, a third one like the second - refused - and
    the deletion of the model. *)
Lemma catalogue_coherent_witness :
  (catalogue_ok (repository repeated) /\ size (modelRoutes (repository repeated)) = 2%nat) /\
  catalogue_ok (repository emptied) /\ size (modelRoutes (repository emptied)) = 0%nat.
Proof.
  assert (H : rtc catalogue_step start repeated).
  { eapply rtc_l; [by apply (Step_elsewhere start supplied)|].
    eapply rtc_l; [by apply (Step_elsewhere supplied connected)|].
    eapply rtc_l; [apply Step_create_model|]. eapply rtc_l; [apply Step_create_routes|].
    eapply rtc_l; [apply Step_create_route|]. apply rtc_refl. }
  split; (split; [|by vm_compute]).
  - by apply (catalogue_coherent start).
  - apply (catalogue_coherent start); [done|]. eapply rtc_r; [exact H|apply Step_delete_model].
Defined.

Lemma resolution_exact_witness :
  exists resolved, answer (ResolveGatewayModel " gpt:fast ") routed = Ok (Some resolved) /\
    ResolvedGatewayModel.RouteGroup resolved = "fast"%string /\
    exists m, stands_for (repository routed) "gpt:fast" m "fast".
Proof.
  assert (Hok : catalogue_ok (repository routed)).
  { do 2 (eapply catalogue_step_ok; [by apply Step_create_model || apply Step_create_routes|]).
    apply (catalogue_frame NewMemoryRepository); [done..|]. apply catalogue_empty. }
  destruct (resolution_exact routed " gpt:fast " Hok) as (found & E & H).
  assert (Ha : exists resolved, answer (ResolveGatewayModel " gpt:fast ") routed = Ok (Some resolved) /\
                           ResolvedGatewayModel.RouteGroup resolved = "fast"%string)
    by (eexists; split; [vm_compute; reflexivity|reflexivity]).
  destruct Ha as (resolved & Hr & Hg). exists resolved. split_and!; [done..|].
  rewrite Hr in E. injection E as <-. destruct (proj1 (H resolved) eq_refl) as (m & Hst & _).
  rewrite Hg in Hst. by exists m.
Defined.
