(* ===== verification/GatewayPolicy.v ===== *)
(** * Policies of keys and requests

    [backend/internal/controlplane/api_key_policy.go] and
    [gateway_policy_runtime.go]: what a key allows, how its policy is normalised,
    which governance policy applies to it, and the limits that follow. *)

From Stdlib Require Import Ascii.
From S2P Require Import Prelude StringLists Netip Canonical AccessModel Repository.

(** ** Key policies *)

Module apiKeyPolicyFields.
Record t := mk {
  scopes : list string;
  allowedModalities : list string;
  allowedOperations : list string;
  qpsLimit : Z;
  rpmLimit : Z;
  tpmLimit : Z;
  concurrencyLimit : Z;
  monthlyTokenLimit : Z;
  monthlyBudgetMicros : Z;
  monthlyImageLimit : Z;
  monthlyVideoSecondsLimit : Z;
  monthlyAudioSecondsLimit : Z;
  allowedCIDRs : list string;
  lanePolicy : string;
  artifactPolicy : string;
  artifactSinkID : string;
}.
#[export] Instance settable : Settable t := fun r => mk
  (scopes r) (allowedModalities r) (allowedOperations r) (qpsLimit r) (rpmLimit r) (tpmLimit r)
  (concurrencyLimit r) (monthlyTokenLimit r) (monthlyBudgetMicros r) (monthlyImageLimit r)
  (monthlyVideoSecondsLimit r) (monthlyAudioSecondsLimit r) (allowedCIDRs r) (lanePolicy r)
  (artifactPolicy r) (artifactSinkID r).
Definition zero : t := mk [] [] [] 0 0 0 0 0 0 0 0 0 [] "" "" "".
End apiKeyPolicyFields.
Export (hints) apiKeyPolicyFields.
Notation policy_fields := apiKeyPolicyFields.t.
Import apiKeyPolicyFields.

Definition apiKeyPolicyFromCreateRequest (req : APIKeyCreateRequest.t) : policy_fields := mk
  (APIKeyCreateRequest.Scopes req) (APIKeyCreateRequest.AllowedModalities req)
  (APIKeyCreateRequest.AllowedOperations req) (APIKeyCreateRequest.QPSLimit req)
  (APIKeyCreateRequest.RPMLimit req) (APIKeyCreateRequest.TPMLimit req)
  (APIKeyCreateRequest.ConcurrencyLimit req) (APIKeyCreateRequest.MonthlyTokenLimit req)
  (APIKeyCreateRequest.MonthlyBudgetMicros req) (APIKeyCreateRequest.MonthlyImageLimit req)
  (APIKeyCreateRequest.MonthlyVideoSecondsLimit req) (APIKeyCreateRequest.MonthlyAudioSecondsLimit req)
  (APIKeyCreateRequest.AllowedCIDRs req) (APIKeyCreateRequest.LanePolicy req)
  (APIKeyCreateRequest.ArtifactPolicy req) (APIKeyCreateRequest.ArtifactSinkID req).

Definition apiKeyPolicyFromUpdateRequest (req : APIKeyUpdateRequest.t) : policy_fields := mk
  (APIKeyUpdateRequest.Scopes req) (APIKeyUpdateRequest.AllowedModalities req)
  (APIKeyUpdateRequest.AllowedOperations req) (APIKeyUpdateRequest.QPSLimit req)
  (APIKeyUpdateRequest.RPMLimit req) (APIKeyUpdateRequest.TPMLimit req)
  (APIKeyUpdateRequest.ConcurrencyLimit req) (APIKeyUpdateRequest.MonthlyTokenLimit req)
  (APIKeyUpdateRequest.MonthlyBudgetMicros req) (APIKeyUpdateRequest.MonthlyImageLimit req)
  (APIKeyUpdateRequest.MonthlyVideoSecondsLimit req) (APIKeyUpdateRequest.MonthlyAudioSecondsLimit req)
  (APIKeyUpdateRequest.AllowedCIDRs req) (APIKeyUpdateRequest.LanePolicy req)
  (APIKeyUpdateRequest.ArtifactPolicy req) (APIKeyUpdateRequest.ArtifactSinkID req).

Definition apiKeyPolicyFromRecord (record : APIKeyRecord.t) : policy_fields := mk
  (APIKeyRecord.Scopes record) (APIKeyRecord.AllowedModalities record)
  (APIKeyRecord.AllowedOperations record) (APIKeyRecord.QPSLimit record)
  (APIKeyRecord.RPMLimit record) (APIKeyRecord.TPMLimit record)
  (APIKeyRecord.ConcurrencyLimit record) (APIKeyRecord.MonthlyTokenLimit record)
  (APIKeyRecord.MonthlyBudgetMicros record) (APIKeyRecord.MonthlyImageLimit record)
  (APIKeyRecord.MonthlyVideoSecondsLimit record) (APIKeyRecord.MonthlyAudioSecondsLimit record)
  (APIKeyRecord.AllowedCIDRs record) (APIKeyRecord.LanePolicy record)
  (APIKeyRecord.ArtifactPolicy record) (APIKeyRecord.ArtifactSinkID record).

Definition errInvalidAPIKeyPolicy : go_error := ErrNew "invalid api key policy".

(** [validGatewayPolicyToken] looks at runes; the ones it accepts are ASCII, so
    it rejects at the first byte of any other rune. *)
Fixpoint token_chars (first : bool) (s : string) : bool :=
  match s with
  | EmptyString => true
  | String c rest =>
      (ascii_in c 97 122 || ascii_in c 48 57
       || negb first && (Ascii.eqb c ":" || Ascii.eqb c "_" || Ascii.eqb c "-"))%char
      && token_chars false rest
  end.
Definition validGatewayPolicyToken (value : string) : bool :=
  if (value =s "") || (go_len value >? 64) then false else token_chars true value.

Section Unicode.
Context `{unicode : UnicodeCase}.

Fixpoint lower_tokens (values : list string) : result go_error (list string) :=
  match values with
  | [] => Ok []
  | value :: rest =>
      let value := ToLower (TrimSpace value) in
      if negb (validGatewayPolicyToken value) then Err errInvalidAPIKeyPolicy else
      rest ← lower_tokens rest;
      Ok (value :: rest)
  end.

Definition normalizeGatewayPolicyTokens (values defaults : list string) : result go_error (list string) :=
  let values := cleanStringList values in
  if Z.of_nat (length values) =? 0 then Ok defaults else
  values ← lower_tokens values;
  Ok (cleanStringList values).

Definition cidr_error : go_error := ErrNew "allowed_cidrs must contain valid IP addresses or CIDR prefixes".

(** One CIDR, or a single address as the prefix of all its bits. *)
Definition normalize_cidr (value : string) : result go_error string :=
  match ParsePrefix value with
  | Some prefix => Ok (prefix_String (Masked prefix))
  | None =>
      match ParseAddr value with
      | None => Err cidr_error
      | Some address => Ok (prefix_String (Masked (PrefixFrom address (BitLen address))))
      end
  end.

Fixpoint normalize_cidrs (values out : list string) : result go_error (list string) :=
  match values with
  | [] => Ok out
  | value :: values =>
      normalized ← normalize_cidr value;
      normalize_cidrs values (if contains out normalized then out else out ++ [normalized])
  end.
Definition normalizeAllowedCIDRs (values : list string) : result go_error (list string) :=
  normalize_cidrs (cleanStringList values) [].

Definition limits_error : go_error := ErrNew "api key limits must be greater than or equal to 0".

Definition normalizeAPIKeyPolicy (fields : policy_fields) : result go_error policy_fields :=
  let limits := [qpsLimit fields; rpmLimit fields; tpmLimit fields; concurrencyLimit fields;
    monthlyTokenLimit fields; monthlyImageLimit fields; monthlyVideoSecondsLimit fields;
    monthlyAudioSecondsLimit fields] in
  _ ← guard_err (existsb (fun limit => limit <? 0) limits) limits_error;
  _ ← guard_err (monthlyBudgetMicros fields <? 0) limits_error;
  scopes' ← normalizeGatewayPolicyTokens (scopes fields) [GatewayScopeInvoke; GatewayScopeModelsRead];
  modalities ← normalizeGatewayPolicyTokens (allowedModalities fields)
    [GatewayModalityMetadata; GatewayModalityText; GatewayModalityEmbedding];
  operations ← normalizeGatewayPolicyTokens (allowedOperations fields)
    [GatewayOperationListModels; GatewayOperationChatCompletion; GatewayOperationCountTokens;
     GatewayOperationEmbedding];
  cidrs ← normalizeAllowedCIDRs (allowedCIDRs fields);
  let lane := TrimSpace (lanePolicy fields) in
  let lane := if lane =s "" then GatewayLanePolicyDirectOnly else lane in
  _ ← guard_err (negb (oneOf lane [GatewayLanePolicyDirectOnly; GatewayLanePolicyDurableOnly;
                                   GatewayLanePolicyDirectAndDurable]))
        (ErrNew "lane_policy must be direct_only, durable_only, or direct_and_durable");
  let artifact := TrimSpace (artifactPolicy fields) in
  let artifact := if artifact =s "" then GatewayArtifactPolicyProxyOnly else artifact in
  _ ← guard_err (negb (oneOf artifact [GatewayArtifactPolicyProxyOnly; GatewayArtifactPolicyTemporary;
                         GatewayArtifactPolicyManaged; GatewayArtifactPolicyCustomerSink;
                         GatewayArtifactPolicyMetadataOnly]))
        (ErrNew "artifact_policy is not supported");
  let requestedSinkID := TrimSpace (artifactSinkID fields) in
  let sink := artifactSinkSnapshot artifact requestedSinkID in
  _ ← guard_err ((artifact <>s GatewayArtifactPolicyCustomerSink) && (requestedSinkID <>s ""))
        (ErrNew "artifact_sink_id is only supported with customer_sink policy");
  _ ← guard_err (negb (validArtifactSinkBinding artifact sink))
        (ErrNew "artifact_sink_id is required and must be valid for customer_sink policy");
  Ok (fields <| scopes := scopes' |> <| allowedModalities := modalities |>
             <| allowedOperations := operations |> <| allowedCIDRs := cidrs |>
             <| lanePolicy := lane |> <| artifactPolicy := artifact |> <| artifactSinkID := sink |>).

(** A slice is [nil] or not: a request that carries an empty list counts as one
    that sets it.  [set_lists] says for each of the four lists whether it is not
    [nil]. *)
Definition apiKeyPolicyForUpdate (set_lists : bool) (record : APIKeyRecord.t) (req : APIKeyUpdateRequest.t)
    : policy_fields :=
  let requested := apiKeyPolicyFromUpdateRequest req in
  if set_lists
     || negb (APIKeyUpdateRequest.RPMLimit req =? 0) || negb (APIKeyUpdateRequest.TPMLimit req =? 0)
     || negb (APIKeyUpdateRequest.ConcurrencyLimit req =? 0)
     || negb (APIKeyUpdateRequest.MonthlyBudgetMicros req =? 0)
     || negb (APIKeyUpdateRequest.MonthlyImageLimit req =? 0)
     || negb (APIKeyUpdateRequest.MonthlyVideoSecondsLimit req =? 0)
     || negb (APIKeyUpdateRequest.MonthlyAudioSecondsLimit req =? 0)
     || (TrimSpace (APIKeyUpdateRequest.LanePolicy req) <>s "")
     || (TrimSpace (APIKeyUpdateRequest.ArtifactPolicy req) <>s "")
     || (TrimSpace (APIKeyUpdateRequest.ArtifactSinkID req) <>s "")
  then requested
  else (apiKeyPolicyFromRecord record)
         <| qpsLimit := APIKeyUpdateRequest.QPSLimit req |>
         <| monthlyTokenLimit := APIKeyUpdateRequest.MonthlyTokenLimit req |>.

Definition applyAPIKeyPolicy (record : APIKeyRecord.t) (fields : policy_fields) : APIKeyRecord.t := record
  <| APIKeyRecord.Scopes := scopes fields |>
  <| APIKeyRecord.AllowedModalities := allowedModalities fields |>
  <| APIKeyRecord.AllowedOperations := allowedOperations fields |>
  <| APIKeyRecord.QPSLimit := qpsLimit fields |>
  <| APIKeyRecord.RPMLimit := rpmLimit fields |>
  <| APIKeyRecord.TPMLimit := tpmLimit fields |>
  <| APIKeyRecord.ConcurrencyLimit := concurrencyLimit fields |>
  <| APIKeyRecord.MonthlyTokenLimit := monthlyTokenLimit fields |>
  <| APIKeyRecord.MonthlyBudgetMicros := monthlyBudgetMicros fields |>
  <| APIKeyRecord.MonthlyImageLimit := monthlyImageLimit fields |>
  <| APIKeyRecord.MonthlyVideoSecondsLimit := monthlyVideoSecondsLimit fields |>
  <| APIKeyRecord.MonthlyAudioSecondsLimit := monthlyAudioSecondsLimit fields |>
  <| APIKeyRecord.AllowedCIDRs := allowedCIDRs fields |>
  <| APIKeyRecord.LanePolicy := lanePolicy fields |>
  <| APIKeyRecord.ArtifactPolicy := artifactPolicy fields |>
  <| APIKeyRecord.ArtifactSinkID := artifactSinkID fields |>.

Definition effectiveAPIKeyPolicy (record : APIKeyRecord.t) : policy_fields :=
  match normalizeAPIKeyPolicy (apiKeyPolicyFromRecord record) with
  | Ok fields => fields
  | Err _ => apiKeyPolicyFields.zero
  end.

Definition apiKeyAllowsSourceIP (policy : policy_fields) (sourceIP : string) : bool :=
  if Z.of_nat (length (allowedCIDRs policy)) =? 0 then true else
  match ParseAddr (TrimSpace sourceIP) with
  | None => false
  | Some address =>
      existsb (fun value => match ParsePrefix value with
                            | Some prefix => prefix_Contains prefix address
                            | None => false
                            end) (allowedCIDRs policy)
  end.

Definition apiKeyAllowsCanonicalRequest (record : APIKeyRecord.t) (request : CanonicalRequest.t) : bool :=
  let policy := effectiveAPIKeyPolicy record in
  if (Z.of_nat (length (scopes policy)) =? 0) || (Z.of_nat (length (allowedOperations policy)) =? 0)
     || (Z.of_nat (length (allowedModalities policy)) =? 0) then false else
  let operation := CanonicalRequest.Operation request in
  let requiredScope := if operation =s GatewayOperationListModels then GatewayScopeModelsRead else GatewayScopeInvoke in
  let operationAllowed :=
    if (operation =s GatewayOperationCountTokens) && contains (allowedOperations policy) GatewayOperationChatCompletion
    then true else contains (allowedOperations policy) operation in
  if negb (contains (scopes policy) requiredScope) || negb operationAllowed
     || negb (contains (allowedModalities policy) (CanonicalRequest.Modality request)) then false else
  let lane := CanonicalRequest.Lane request in
  if lane =s LaneDirect then
    if lanePolicy policy =s GatewayLanePolicyDurableOnly then false
    else apiKeyAllowsSourceIP policy (CanonicalRequest.SourceIP request)
  else if lane =s LaneDurable then
    if lanePolicy policy =s GatewayLanePolicyDirectOnly then false
    else apiKeyAllowsSourceIP policy (CanonicalRequest.SourceIP request)
  else false.
End Unicode.

Definition isApplicationAPIKey (record : APIKeyRecord.t) : bool :=
  (TrimSpace (APIKeyRecord.ApplicationID record) <>s "")
  && (TrimSpace (APIKeyRecord.GatewayPrincipalID record) <>s "").

(** ** Governance policies *)

Definition minimumPositive (left_ right_ : Z) : Z :=
  if left_ <=? 0 then right_ else if (right_ <=? 0) || (left_ <? right_) then left_ else right_.
Definition minimumPositiveInt64 (left_ right_ : Z) : Z :=
  if left_ <=? 0 then right_ else if (right_ <=? 0) || (left_ <? right_) then left_ else right_.

Definition gatewayModelAllowed (auth : GatewayAuthContext.t) (model : string) : bool :=
  let model := TrimSpace model in
  if model =s "" then false else
  let baseModel := base_model model in
  if match GatewayAuthContext.Policy auth with
     | None => false
     | Some policy =>
         let denied := GovernancePolicy.ModelDenylist policy in
         let allowed := GovernancePolicy.ModelAllowlist policy in
         contains denied model || contains denied baseModel
         || (Z.of_nat (length allowed) >? 0) && negb (contains allowed model) && negb (contains allowed baseModel)
     end then false
  else
    let allowed := APIKeyRecord.ModelAllowlist (GatewayAuthContext.APIKey auth) in
    contains allowed model || contains allowed baseModel.

Definition with_policy (limit : Z) (policyLimit : GovernancePolicy.t -> Z) (minimum : Z -> Z -> Z)
    (auth : GatewayAuthContext.t) : Z :=
  match GatewayAuthContext.Policy auth with
  | None => limit
  | Some policy => minimum limit (policyLimit policy)
  end.
Definition effectiveQPSLimit (auth : GatewayAuthContext.t) : Z :=
  with_policy (APIKeyRecord.QPSLimit (GatewayAuthContext.APIKey auth)) GovernancePolicy.QPSLimit minimumPositive auth.
Definition effectiveMonthlyTokenLimit (auth : GatewayAuthContext.t) : Z :=
  with_policy (APIKeyRecord.MonthlyTokenLimit (GatewayAuthContext.APIKey auth))
    GovernancePolicy.MonthlyTokenLimit minimumPositive auth.
Definition effectiveMonthlyBudgetMicros (auth : GatewayAuthContext.t) : Z :=
  with_policy (APIKeyRecord.MonthlyBudgetMicros (GatewayAuthContext.APIKey auth))
    GovernancePolicy.MonthlyBudgetMicros minimumPositiveInt64 auth.

Definition shouldBlockOverage (auth : GatewayAuthContext.t) : bool :=
  match GatewayAuthContext.Policy auth with
  | None => true
  | Some policy => (GovernancePolicy.OverageAction policy =s "")
                   || (GovernancePolicy.OverageAction policy =s GovernancePolicyOverageBlock)
  end.

Definition active_policy (policy : GovernancePolicy.t) : bool :=
  GovernancePolicy.Status policy =s GovernancePolicyStatusActive.

Definition activePolicyByID (policies : list GovernancePolicy.t) (id : string) : option GovernancePolicy.t :=
  let id := TrimSpace id in
  if id =s "" then None
  else List.find (fun policy => (GovernancePolicy.ID policy =s id) && active_policy policy) policies.

Definition activePolicyByScope (policies : list GovernancePolicy.t) (scopeType scopeID : string)
    : option GovernancePolicy.t :=
  List.find (fun policy => active_policy policy && (GovernancePolicy.ScopeType policy =s scopeType)
                           && (GovernancePolicy.ScopeID policy =s scopeID)) policies.

Definition governancePolicyVersion (policy : GovernancePolicy.t) : Z :=
  if GovernancePolicy.Version policy <=? 0 then 1 else GovernancePolicy.Version policy.

Module gatewayPolicyCandidateSource.
Record t := mk { Source : string; ExplicitPolicyID : string; ScopeType : string; ScopeID : string; MissingReason : string }.
End gatewayPolicyCandidateSource.
Notation source := gatewayPolicyCandidateSource.t.

Definition matches_source (src : source) (policy : GovernancePolicy.t) : bool :=
  let explicitPolicyID := TrimSpace (gatewayPolicyCandidateSource.ExplicitPolicyID src) in
  if explicitPolicyID <>s "" then GovernancePolicy.ID policy =s explicitPolicyID
  else (GovernancePolicy.ScopeType policy =s gatewayPolicyCandidateSource.ScopeType src)
       && (GovernancePolicy.ScopeID policy =s gatewayPolicyCandidateSource.ScopeID src).

Definition candidate_of (src : source) (policy : GovernancePolicy.t) : GatewayPolicyCandidate.t :=
  GatewayPolicyCandidate.mk (GovernancePolicy.ID policy) (GovernancePolicy.Name policy)
    (governancePolicyVersion policy) (gatewayPolicyCandidateSource.Source src)
    (GovernancePolicy.ScopeType policy) (GovernancePolicy.ScopeID policy)
    (GovernancePolicy.Status policy) true false "".

Definition gatewayPolicyCandidatesForSource (policies : list GovernancePolicy.t) (src : source)
    : list GatewayPolicyCandidate.t :=
  map (candidate_of src) (List.filter (matches_source src) policies).

(** [strings.ReplaceAll(source, "_", " ")] *)
Fixpoint underscores_to_spaces (s : string) : string :=
  match s with
  | EmptyString => ""
  | String a rest => String (if Ascii.eqb a "_"%char then " "%char else a) (underscores_to_spaces rest)
  end.

Notation explanation := GatewayPolicyExplanation.t.
Definition add_candidate (e : explanation) (candidate : GatewayPolicyCandidate.t) : explanation :=
  e <| GatewayPolicyExplanation.Candidates := GatewayPolicyExplanation.Candidates e ++ [candidate] |>.

(** One round of the inner loop. *)
Definition explain_candidate (src : source) (e : explanation) (candidate : GatewayPolicyCandidate.t) : explanation :=
  let active := GatewayPolicyCandidate.Status candidate =s GovernancePolicyStatusActive in
  if (GatewayPolicyExplanation.SelectedPolicyID e =s "") && active then
    add_candidate (e
      <| GatewayPolicyExplanation.SelectedPolicyID := GatewayPolicyCandidate.PolicyID candidate |>
      <| GatewayPolicyExplanation.SelectedPolicyName := GatewayPolicyCandidate.PolicyName candidate |>
      <| GatewayPolicyExplanation.SelectedPolicyVersion := GatewayPolicyCandidate.PolicyVersion candidate |>
      <| GatewayPolicyExplanation.SelectedSource := GatewayPolicyCandidate.Source candidate |>)
      (candidate <| GatewayPolicyCandidate.Selected := true |>
         <| GatewayPolicyCandidate.Reason :=
              ("selected by " +:+ underscores_to_spaces (gatewayPolicyCandidateSource.Source src))%string |>)
  else
    let reason :=
      if negb active then "policy disabled"%string
      else if GatewayPolicyExplanation.SelectedSource e =s GatewayPolicyCandidate.Source candidate
      then "matched same source but another policy was selected first"%string
      else ("matched but lower priority than "
            +:+ underscores_to_spaces (GatewayPolicyExplanation.SelectedSource e))%string in
    add_candidate e (candidate <| GatewayPolicyCandidate.Reason := reason |>).

(** One round of the outer loop. *)
Definition explain_source (policies : list GovernancePolicy.t) (e : explanation) (src : source) : explanation :=
  let candidates := gatewayPolicyCandidatesForSource policies src in
  let explicitPolicyID := TrimSpace (gatewayPolicyCandidateSource.ExplicitPolicyID src) in
  if (Z.of_nat (length candidates) =? 0) && (explicitPolicyID <>s "")
  then add_candidate e (GatewayPolicyCandidate.zero
         <| GatewayPolicyCandidate.PolicyID := explicitPolicyID |>
         <| GatewayPolicyCandidate.Source := gatewayPolicyCandidateSource.Source src |>
         <| GatewayPolicyCandidate.Reason := gatewayPolicyCandidateSource.MissingReason src |>)
  else foldl (explain_candidate src) e candidates.

Definition policy_sources (key : APIKeyRecord.t) : list source :=
  [gatewayPolicyCandidateSource.mk GatewayPolicySourceAPIKeyExplicit (APIKeyRecord.PolicyID key) "" ""
     "api key explicit policy reference not found";
   gatewayPolicyCandidateSource.mk GatewayPolicySourceAPIKeyScope "" GovernancePolicyScopeAPIKey
     (APIKeyRecord.ID key) "";
   gatewayPolicyCandidateSource.mk GatewayPolicySourceGlobalScope "" GovernancePolicyScopeGlobal "" ""].

Definition explainGatewayPolicy (policies : list GovernancePolicy.t) (key : APIKeyRecord.t) : explanation :=
  foldl (explain_source policies)
    (GatewayPolicyExplanation.zero <| GatewayPolicyExplanation.APIKeyID := APIKeyRecord.ID key |>)
    (policy_sources key).

Definition effectiveGatewayPolicyFromPolicies (policies : list GovernancePolicy.t) (key : APIKeyRecord.t)
    : option GovernancePolicy.t * string :=
  let e := explainGatewayPolicy policies key in
  if GatewayPolicyExplanation.SelectedPolicyID e =s "" then (None, ""%string) else
  match List.find (fun policy => GovernancePolicy.ID policy =s GatewayPolicyExplanation.SelectedPolicyID e) policies with
  | Some policy => (Some policy, GatewayPolicyExplanation.SelectedSource e)
  | None => (None, ""%string)
  end.

(** ** Lemmas: normalisation *)

Section Proofs.
Context `{unicode : UnicodeCase}.

(** A text the normalisation leaves alone. *)
Lemma policy_token_fixed s : validGatewayPolicyToken s = true -> ToLower (TrimSpace s) = s /\ TrimSpace s = s /\ s <> ""%string.
Proof.
  unfold validGatewayPolicyToken. destruct (_ || _) eqn:E; [done|]. boolify. intros Ht.
  assert (Hchars : forall first s, token_chars first s = true ->
    forallb plain_char (String.list_ascii_of_string s) = true /\ all_ascii s = true /\
    map lower_ascii (String.list_ascii_of_string s) = String.list_ascii_of_string s).
  { clear. intros first s. revert first. induction s as [|c s IH]; intros first; cbn [token_chars]; [done|].
    intros [Hc Hs]%andb_true_iff. destruct (IH _ Hs) as (H1 & H2 & H3). unfold all_ascii in *. cbn. rewrite H1, H2, H3.
    assert (Hin : plain_char c = true /\ ascii_in c 0 127 = true /\ lower_ascii c = c); [|by destruct Hin as (-> & -> & ->)].
    revert Hc. destruct c as [[] [] [] [] [] [] [] []], first; vm_compute; done. }
  destruct (Hchars true s Ht) as (H1 & H2 & H3). pose proof (TrimSpace_plain s H1) as Etrim.
  rewrite Etrim. split_and!; [|done|done]. unfold ToLower. rewrite H2, H3. apply String.string_of_list_ascii_of_string.
Qed.

Notation valid_tokens := (Forall (fun v => validGatewayPolicyToken v = true)).

Lemma lower_tokens_valid l r : lower_tokens l = Ok r -> valid_tokens r /\ length r = length l.
Proof.
  revert r. induction l as [|v l IH]; cbn; intros r.
  - by intros [= <-].
  - destruct (validGatewayPolicyToken _) eqn:Ev; [|done]. cbn. destruct (lower_tokens l) as [r'|]; [|done]. cbn.
    intros [= <-]. destruct (IH r' eq_refl) as [H1 H2]. cbn. split; [by constructor|by f_equal].
Qed.

Lemma lower_tokens_fixed l : valid_tokens l -> lower_tokens l = Ok l.
Proof.
  induction 1 as [|v l Hv _ IH]; cbn; [done|]. destruct (policy_token_fixed v Hv) as (-> & _). by rewrite Hv, IH.
Qed.

Lemma clean_perm values : clean values -> cleanStringList values ≡ₚ values.
Proof. intros H. unfold cleanStringList, sort_Strings. by rewrite sort_by_perm, clean_ordered_id. Qed.

Lemma valid_named l : valid_tokens l -> forall v, named l v <-> v ∈ l.
Proof.
  rewrite Forall_forall. intros Hl v. split.
  - intros (_ & w & Hw & <-). destruct (policy_token_fixed w (Hl w Hw)) as (_ & -> & _). done.
  - intros Hv. destruct (policy_token_fixed v (Hl v Hv)) as (_ & Et & Hne). split; [done|]. by exists v.
Qed.

(** Normal lists of tokens. *)
Record tokens_ok (l : list string) : Prop := {
  tokens_clean : clean l;
  tokens_valid : valid_tokens l;
  tokens_some : l <> [];
}.

Lemma clean_valid l : valid_tokens l -> l <> [] -> tokens_ok (cleanStringList l).
Proof.
  intros Hv Hne. pose proof (valid_named l Hv) as Hn. split; [apply clean_is_clean|..].
  - apply Forall_forall. intros v Hin. rewrite Forall_forall in Hv. apply Hv, Hn. by apply elem_of_clean.
  - destruct l as [|v l]; [done|]. intros E. assert (Hin : v ∈ cleanStringList (v :: l)); [|rewrite E in Hin; set_solver].
    apply elem_of_clean, Hn. by left.
Qed.

Lemma tokens_normal values defaults out : tokens_ok defaults ->
  normalizeGatewayPolicyTokens values defaults = Ok out -> tokens_ok out.
Proof.
  intros Hd. unfold normalizeGatewayPolicyTokens. destruct (_ =? 0) eqn:E; [by intros [= <-]|]. boolify.
  destruct (lower_tokens _) as [r|] eqn:Er; [|done]. cbn. intros [= <-].
  destruct (lower_tokens_valid _ _ Er) as [Hv Hl]. apply clean_valid; [done|]. intros ->. cbn in Hl. lia.
Qed.

Lemma tokens_again l defaults : tokens_ok l ->
  exists l', normalizeGatewayPolicyTokens l defaults = Ok l' /\ l' ≡ₚ l.
Proof.
  intros [Hc Hv Hne]. pose proof (clean_perm l Hc) as Hp. exists (cleanStringList l). split; [|done].
  unfold normalizeGatewayPolicyTokens. destruct (Z.eqb_spec (Z.of_nat (length (cleanStringList l))) 0) as [E|_].
  - rewrite Hp in E. destruct l; [done|]. cbn in E. lia.
  - rewrite lower_tokens_fixed by (by rewrite Hp). cbn. by rewrite cleanStringList_idemp.
Qed.

(** *** Address ranges *)

(** The prefix a value stands for. *)
Definition cidr_prefix (value : string) : option NetPrefix :=
  match ParsePrefix value with
  | Some prefix => Some prefix
  | None => address ← ParseAddr value; Some (PrefixFrom address (BitLen address))
  end.

Lemma normalize_cidr_spec v n : normalize_cidr v = Ok n <->
  exists p, cidr_prefix v = Some p /\ n = prefix_String (Masked p).
Proof.
  unfold normalize_cidr, cidr_prefix. destruct (ParsePrefix v) as [p|].
  - split; [intros [= <-]; by exists p|by intros (? & [= <-] & ->)].
  - destruct (ParseAddr v) as [a|]; cbn; [|split; [done|by intros (? & ? & _)]].
    split; [intros [= <-]; by eexists|by intros (? & [= <-] & ->)].
Qed.

Lemma cidr_prefix_ok v p : cidr_prefix v = Some p -> prefix_ok p.
Proof.
  unfold cidr_prefix. destruct (ParsePrefix v) as [q|] eqn:E; [intros [= <-]; by eapply ParsePrefix_ok|].
  destruct (ParseAddr v) as [a|] eqn:Ea; [|done]. cbn. intros [= <-]. by eapply PrefixFrom_ok.
Qed.

Definition cidr_text (n : string) : Prop := exists p, prefix_ok p /\ Masked p = p /\ n = prefix_String p.

Lemma normalize_cidr_text v n : normalize_cidr v = Ok n -> cidr_text n.
Proof.
  intros (p & Hp & ->)%normalize_cidr_spec. exists (Masked p).
  split_and!; [by eapply Masked_ok, cidr_prefix_ok|apply Masked_idemp|done].
Qed.

Lemma cidr_text_fixed n : cidr_text n -> normalize_cidr n = Ok n /\ TrimSpace n = n /\ n <> ""%string.
Proof.
  intros (p & Hok & Hm & ->). destruct (prefix_String_plain p Hok) as [Hpl Hne]. split_and!; [|by apply TrimSpace_plain|done].
  unfold normalize_cidr. by rewrite prefix_roundtrip, Hm.
Qed.

Lemma normalize_cidrs_spec values out r : normalize_cidrs values out = Ok r ->
  NoDup out -> NoDup r /\ forall n, n ∈ r <-> n ∈ out \/ exists v, v ∈ values /\ normalize_cidr v = Ok n.
Proof.
  revert out. induction values as [|v values IH]; cbn; intros out.
  - intros [= <-] Hn. split; [done|]. intros n. split; [by left|]. intros [?|(v & Hv & _)]; [done|]. exfalso. set_solver.
  - destruct (normalize_cidr v) as [m|] eqn:Ev; [|done]. cbn. intros Hr Hn.
    assert (Hout : NoDup (if contains out m then out else out ++ [m]) /\
      forall n, n ∈ (if contains out m then out else out ++ [m]) <-> n ∈ out \/ n = m).
    { destruct (contains out m) eqn:Ec.
      - apply contains_In in Ec. split; [done|]. intros n. split; [by left|]. by intros [?| ->].
      - assert (m ∉ out) by (intros Hin%contains_In; congruence). split; [|set_solver].
        apply NoDup_app. split_and!; [done|set_solver|apply NoDup_singleton]. }
    destruct Hout as [Hn' Hin]. destruct (IH _ Hr Hn') as [H1 H2]. split; [done|]. intros n. rewrite H2, Hin.
    split.
    + intros [[?| ->]|(w & Hw & E)]; [by left|right; exists v; split; [by left|done]|right; exists w; split; [by right|done]].
    + intros [?|(w & [->|Hw]%elem_of_cons & E)]; [by left; left|left; right; congruence|right; by exists w].
Qed.

Lemma normalize_cidrs_fixed values out : Forall cidr_text values -> NoDup (out ++ values) ->
  normalize_cidrs values out = Ok (out ++ values).
Proof.
  intros H. revert out. induction H as [|v values Hv _ IH]; intros out Hn; cbn; [by rewrite app_nil_r|].
  destruct (cidr_text_fixed v Hv) as (-> & _). cbn. destruct (contains out v) eqn:Ec.
  - apply contains_In in Ec. apply NoDup_app in Hn as (_ & Hd & _). destruct (Hd v Ec). by left.
  - rewrite IH; rewrite <- app_assoc; [done|exact Hn].
Qed.

Lemma cidrs_normal values out : normalizeAllowedCIDRs values = Ok out ->
  NoDup out /\ Forall cidr_text out /\
  forall n, n ∈ out <-> exists v, named values v /\ normalize_cidr v = Ok n.
Proof.
  intros H. destruct (normalize_cidrs_spec _ _ _ H (NoDup_nil_2)) as [H1 H2].
  assert (H3 : forall n, n ∈ out <-> exists v, named values v /\ normalize_cidr v = Ok n).
  { intros n. rewrite H2. setoid_rewrite elem_of_clean. set_solver. }
  split_and!; [done| |done]. apply Forall_forall. intros n (v & _ & Hv)%H3. by eapply normalize_cidr_text.
Qed.

Lemma cidrs_again l : NoDup l -> Forall cidr_text l ->
  exists l', normalizeAllowedCIDRs l = Ok l' /\ l' ≡ₚ l.
Proof.
  intros Hn Hf. assert (Hc : clean l).
  { split; [done|]. eapply Forall_impl; [exact Hf|]. intros n Ht. by apply cidr_text_fixed in Ht as (_ & ? & ?). }
  pose proof (clean_perm l Hc) as Hp. exists (cleanStringList l). split; [|done]. unfold normalizeAllowedCIDRs.
  apply (normalize_cidrs_fixed _ []); cbn; by rewrite Hp.
Qed.

(** *** Whole policies *)

(** A policy in normal form. *)
Record policy_ok (g : policy_fields) : Prop := {
  ok_scopes : tokens_ok (scopes g);
  ok_modalities : tokens_ok (allowedModalities g);
  ok_operations : tokens_ok (allowedOperations g);
  ok_cidrs : NoDup (allowedCIDRs g) /\ Forall cidr_text (allowedCIDRs g);
  ok_limits : Forall (fun limit => 0 <= limit)
    [qpsLimit g; rpmLimit g; tpmLimit g; concurrencyLimit g; monthlyTokenLimit g; monthlyImageLimit g;
     monthlyVideoSecondsLimit g; monthlyAudioSecondsLimit g; monthlyBudgetMicros g];
  ok_lane : lanePolicy g ∈ [GatewayLanePolicyDirectOnly; GatewayLanePolicyDurableOnly;
                            GatewayLanePolicyDirectAndDurable];
  ok_artifact : artifactPolicy g ∈ [GatewayArtifactPolicyProxyOnly; GatewayArtifactPolicyTemporary;
     GatewayArtifactPolicyManaged; GatewayArtifactPolicyCustomerSink; GatewayArtifactPolicyMetadataOnly];
  ok_sink : artifactSinkSnapshot (artifactPolicy g) (artifactSinkID g) = artifactSinkID g /\
    validArtifactSinkBinding (artifactPolicy g) (artifactSinkID g) = true;
}.

(** The same policy, with its lists in another order. *)
Record same_policy (g g' : policy_fields) : Prop := {
  same_scopes : scopes g ≡ₚ scopes g';
  same_modalities : allowedModalities g ≡ₚ allowedModalities g';
  same_operations : allowedOperations g ≡ₚ allowedOperations g';
  same_cidrs : allowedCIDRs g ≡ₚ allowedCIDRs g';
  same_rest : g <| scopes := [] |> <| allowedModalities := [] |> <| allowedOperations := [] |> <| allowedCIDRs := [] |>
    = g' <| scopes := [] |> <| allowedModalities := [] |> <| allowedOperations := [] |> <| allowedCIDRs := [] |>;
}.

Ltac default_tokens := split; [split; [apply (bool_decide_unpack _); by vm_compute
    |repeat (constructor; [split; [by vm_compute|done]|]); constructor]
  |repeat (constructor; [by vm_compute|]); constructor|done].

Lemma default_scopes_ok : tokens_ok [GatewayScopeInvoke; GatewayScopeModelsRead].
Proof. default_tokens. Qed.
Lemma default_modalities_ok : tokens_ok [GatewayModalityMetadata; GatewayModalityText; GatewayModalityEmbedding].
Proof. default_tokens. Qed.
Lemma default_operations_ok : tokens_ok [GatewayOperationListModels; GatewayOperationChatCompletion;
  GatewayOperationCountTokens; GatewayOperationEmbedding].
Proof. default_tokens. Qed.

Lemma limits_nonneg l : existsb (fun limit => limit <? 0) l = false <-> Forall (fun limit => 0 <= limit) l.
Proof.
  rewrite Forall_forall. split.
  - intros H x Hx. destruct (Z.ltb_spec x 0); [|done].
    assert (existsb (fun limit => limit <? 0) l = true); [|congruence].
    apply existsb_exists. exists x. split; [by apply list_elem_of_In|]. by apply Z.ltb_lt.
  - intros H. destruct (existsb _ l) eqn:E; [|done]. apply existsb_exists in E as (x & Hx & Hlt).
    apply list_elem_of_In, H in Hx. apply Z.ltb_lt in Hlt. lia.
Qed.

Lemma sink_snapshot_idemp a s : artifactSinkSnapshot a (artifactSinkSnapshot a s) = artifactSinkSnapshot a s.
Proof.
  unfold artifactSinkSnapshot. destruct (_ <>s _) eqn:E; [done|]. apply TrimSpace_idemp.
Qed.

Lemma trim_default v d : TrimSpace v = v -> v <> ""%string ->
  (if TrimSpace v =s "" then d else TrimSpace v) = v.
Proof. intros E Hne. by rewrite E, (proj2 (String.eqb_neq _ _) Hne). Qed.

Lemma lane_fixed v : v ∈ [GatewayLanePolicyDirectOnly; GatewayLanePolicyDurableOnly; GatewayLanePolicyDirectAndDurable] ->
  TrimSpace v = v /\ v <> ""%string.
Proof. intros H. elem_cases H; subst v; by vm_compute. Qed.

Lemma artifact_fixed v : v ∈ [GatewayArtifactPolicyProxyOnly; GatewayArtifactPolicyTemporary;
     GatewayArtifactPolicyManaged; GatewayArtifactPolicyCustomerSink; GatewayArtifactPolicyMetadataOnly] ->
  TrimSpace v = v /\ v <> ""%string.
Proof. intros H. elem_cases H; subst v; by vm_compute. Qed.

Lemma normalize_normal f g : normalizeAPIKeyPolicy f = Ok g ->
  policy_ok g /\ normalizeAllowedCIDRs (allowedCIDRs f) = Ok (allowedCIDRs g).
Proof.
  unfold normalizeAPIKeyPolicy. intros H. run_inv. boolify. cbn.
  repeat match goal with H : guard_err _ _ = Ok _ |- _ => apply guard_Ok in H end. boolify.
  split; [|done]. split; cbn.
  - eapply tokens_normal; [apply default_scopes_ok|done].
  - eapply tokens_normal; [apply default_modalities_ok|done].
  - eapply tokens_normal; [apply default_operations_ok|done].
  - by destruct (cidrs_normal _ _ ltac:(eassumption)) as (? & ? & _).
  - rename select (existsb _ _ = false) into He. apply limits_nonneg in He.
    repeat (apply Forall_cons in He as [? He]). repeat constructor; lia.
  - by apply oneOf_In.
  - by apply oneOf_In.
  - split; [apply sink_snapshot_idemp|done].
Qed.

Lemma normalize_again g : policy_ok g -> exists g', normalizeAPIKeyPolicy g = Ok g' /\ same_policy g' g.
Proof.
  intros [H1 H2 H3 [H4 H4'] H5 H6 H7 [H8 H8']]. unfold normalizeAPIKeyPolicy.
  destruct (tokens_again _ [GatewayScopeInvoke; GatewayScopeModelsRead] H1) as (s1 & -> & P1).
  destruct (tokens_again _ [GatewayModalityMetadata; GatewayModalityText; GatewayModalityEmbedding] H2) as (s2 & -> & P2).
  destruct (tokens_again _ [GatewayOperationListModels; GatewayOperationChatCompletion; GatewayOperationCountTokens;
    GatewayOperationEmbedding] H3) as (s3 & -> & P3).
  destruct (cidrs_again _ H4 H4') as (s4 & -> & P4).
  repeat (apply Forall_cons in H5 as [? H5]).
  rewrite (proj2 (limits_nonneg _)) by (repeat constructor; lia).
  rewrite (proj2 (Z.ltb_ge (monthlyBudgetMicros g) 0)) by lia. cbn [guard_err mbind result_bind].
  destruct (lane_fixed _ H6) as [L1 L2]. rewrite (trim_default _ _ L1 L2).
  destruct (artifact_fixed _ H7) as [A1 A2]. rewrite (trim_default _ _ A1 A2).
  apply oneOf_In in H6, H7. rewrite H6, H7. cbn [negb guard_err mbind result_bind].
  assert (Es : artifactSinkSnapshot (artifactPolicy g) (TrimSpace (artifactSinkID g)) = artifactSinkID g).
  { rewrite <- H8 at 2. unfold artifactSinkSnapshot. by rewrite TrimSpace_idemp. }
  rewrite Es, H8'. cbn [negb guard_err mbind result_bind].
  assert (Eb : (artifactPolicy g <>s GatewayArtifactPolicyCustomerSink) && (TrimSpace (artifactSinkID g) <>s "") = false).
  { destruct (artifactPolicy g <>s _) eqn:E; [|done]. cbn. rewrite <- H8. unfold artifactSinkSnapshot, artifactPolicySnapshot.
    rewrite A1. replace (validArtifactPolicy (artifactPolicy g)) with true by (symmetry; exact H7). cbn [negb]. rewrite E. done. }
  rewrite Eb. cbn [guard_err mbind result_bind]. eexists. split; [reflexivity|]. split; cbn; [done..|]. by destruct g.
Qed.

Lemma contains_perm l k v : l ≡ₚ k -> contains l v = contains k v.
Proof. intros H. apply eq_true_iff_eq. by rewrite !contains_In, H. Qed.

Lemma existsb_perm {A} (p : A -> bool) l k : l ≡ₚ k -> existsb p l = existsb p k.
Proof.
  intros H. apply eq_true_iff_eq. rewrite !existsb_exists. setoid_rewrite <- list_elem_of_In. by setoid_rewrite H.
Qed.

Lemma policy_of_applied record g : apiKeyPolicyFromRecord (applyAPIKeyPolicy record g) = g.
Proof. by destruct g. Qed.

Lemma sources_same g g' ip : same_policy g g' -> apiKeyAllowsSourceIP g ip = apiKeyAllowsSourceIP g' ip.
Proof.
  intros [_ _ _ Hc _]. unfold apiKeyAllowsSourceIP. rewrite (Permutation_length Hc). destruct (_ =? 0); [done|].
  destruct (ParseAddr _); [|done]. by apply existsb_perm.
Qed.

Lemma same_lane g g' : same_policy g g' -> lanePolicy g = lanePolicy g'.
Proof. intros [_ _ _ _ E]. by injection E. Qed.

(** The decision, on a policy in normal form. *)
Definition operation_scope (operation : string) : string :=
  if operation =s GatewayOperationListModels then GatewayScopeModelsRead else GatewayScopeInvoke.

Definition policy_allows (g : policy_fields) (request : CanonicalRequest.t) : Prop :=
  operation_scope (CanonicalRequest.Operation request) ∈ scopes g /\
  (CanonicalRequest.Operation request ∈ allowedOperations g \/
   CanonicalRequest.Operation request = GatewayOperationCountTokens /\
     GatewayOperationChatCompletion ∈ allowedOperations g) /\
  CanonicalRequest.Modality request ∈ allowedModalities g /\
  (CanonicalRequest.Lane request = LaneDirect /\ lanePolicy g <> GatewayLanePolicyDurableOnly \/
   CanonicalRequest.Lane request = LaneDurable /\ lanePolicy g <> GatewayLanePolicyDirectOnly) /\
  apiKeyAllowsSourceIP g (CanonicalRequest.SourceIP request) = true.

Lemma nonempty_length {A} (l : list A) : l <> [] -> (Z.of_nat (length l) =? 0) = false.
Proof. destruct l; [done|]. intros _. apply Z.eqb_neq. cbn. lia. Qed.

Lemma allows_spec record g request : policy_ok g ->
  apiKeyAllowsCanonicalRequest (applyAPIKeyPolicy record g) request = true <-> policy_allows g request.
Proof.
  intros Hok. unfold apiKeyAllowsCanonicalRequest, effectiveAPIKeyPolicy. rewrite policy_of_applied.
  destruct (normalize_again g Hok) as (g' & -> & Hs). pose proof Hs as [P1 P2 P3 _ _].
  assert (Hne : forall l l' : list string, l' ≡ₚ l -> tokens_ok l -> (Z.of_nat (length l') =? 0) = false).
  { intros l l' Hp [_ _ Hn]. rewrite Hp. by apply nonempty_length. }
  rewrite (Hne _ _ P1 (ok_scopes _ Hok)), (Hne _ _ P2 (ok_modalities _ Hok)), (Hne _ _ P3 (ok_operations _ Hok)). cbn [orb].
  rewrite !(contains_perm _ _ _ P1), !(contains_perm _ _ _ P2), !(contains_perm _ _ _ P3), !(sources_same _ _ _ Hs), (same_lane _ _ Hs).
  unfold policy_allows. fold (operation_scope (CanonicalRequest.Operation request)).
  rewrite <- !contains_In. set (op := CanonicalRequest.Operation request).
  assert (Hop : (if (op =s GatewayOperationCountTokens) && contains (allowedOperations g) GatewayOperationChatCompletion
      then true else contains (allowedOperations g) op) = true <->
    contains (allowedOperations g) op = true \/ op = GatewayOperationCountTokens /\
      contains (allowedOperations g) GatewayOperationChatCompletion = true).
  { destruct (op =s _) eqn:E; boolify; cbn; [|split; [by left|by intros [?|[? _]]]].
    destruct (contains _ GatewayOperationChatCompletion) eqn:Ec; [|split; [by left|by intros [?|[_ ?]]]].
    split; [by right|done]. }
  rewrite <- Hop. destruct (if (op =s _) && _ then true else _); cbn [negb orb].
  2: { rewrite orb_true_r. cbn. split; [done|by intros (_ & ? & _)]. }
  rewrite orb_false_r. destruct (contains (scopes g) _); cbn; [|split; [done|by intros (? & _)]].
  destruct (contains (allowedModalities g) _); cbn; [|split; [done|by intros (_ & _ & ? & _)]].
  destruct (CanonicalRequest.Lane request =s LaneDirect) eqn:E1; boolify.
  - rewrite E1. destruct (lanePolicy g =s GatewayLanePolicyDurableOnly) eqn:E2; boolify.
    + split; [done|]. intros (_ & _ & _ & [[_ ?]|[? _]] & _); done.
    + split; [intros H; split_and!; [done..|by left|done]|by intros (_ & _ & _ & _ & ?)].
  - destruct (CanonicalRequest.Lane request =s LaneDurable) eqn:E2; boolify.
    + rewrite E2. destruct (lanePolicy g =s GatewayLanePolicyDirectOnly) eqn:E3; boolify.
      * split; [done|]. intros (_ & _ & _ & [[? _]|[_ ?]] & _); done.
      * split; [intros H; split_and!; [done..|by right|done]|by intros (_ & _ & _ & _ & ?)].
    + split; [done|]. intros (_ & _ & _ & [[? _]|[? _]] & _); done.
Qed.

(** The addresses a list of CIDRs admits. *)
Lemma sources_spec values g ip : normalizeAllowedCIDRs values = Ok (allowedCIDRs g) ->
  apiKeyAllowsSourceIP g ip = true <->
  (forall v, ~ named values v) \/
  exists address v p, ParseAddr (TrimSpace ip) = Some address /\ named values v /\
    cidr_prefix v = Some p /\ prefix_Contains p address = true.
Proof.
  intros Hc. destruct (cidrs_normal _ _ Hc) as (Hn & Hf & Hin). unfold apiKeyAllowsSourceIP.
  destruct (Z.eqb_spec (Z.of_nat (length (allowedCIDRs g))) 0) as [E|E].
  - assert (Hnil : allowedCIDRs g = []) by (destruct (allowedCIDRs g); [done|cbn in E; lia]).
    split; [|done]. intros _. left. intros v Hv. destruct (normalize_cidrs_spec _ _ _ Hc (NoDup_nil_2)) as [_ H2].
    assert (Hok : exists n, normalize_cidr v = Ok n).
    { clear -Hc Hv. apply elem_of_clean in Hv. unfold normalizeAllowedCIDRs in Hc. revert Hc. generalize (@nil string).
      induction (cleanStringList values) as [|w l IH]; [exfalso; set_solver|]. intros out. cbn.
      destruct (normalize_cidr w) as [m|] eqn:Ew; [|done]. cbn. apply elem_of_cons in Hv as [->|Hv]; [by exists m|]. by apply IH. }
    destruct Hok as [n Hv']. assert (n ∈ allowedCIDRs g) by (apply Hin; by exists v). rewrite Hnil in H. set_solver.
  - assert (Hsome : exists n, n ∈ allowedCIDRs g) by (destruct (allowedCIDRs g) as [|n l]; [cbn in E; lia|exists n; by left]).
    destruct Hsome as (n0 & (v0 & Hv0 & _)%Hin).
    destruct (ParseAddr (TrimSpace ip)) as [a|]; [|split; [done|intros [H|(? & ? & ? & ? & _)]; [by destruct (H v0)|done]]].
    rewrite existsb_exists. split.
    + intros (n & Hn' & Hp). apply list_elem_of_In, Hin in Hn' as (v & Hv & Hnv). right.
      apply normalize_cidr_spec in Hnv as (p & Hp' & ->). exists a, v, p. split_and!; [done..|].
      pose proof (Masked_ok _ (cidr_prefix_ok _ _ Hp')) as Hok. rewrite (prefix_roundtrip _ Hok), Contains_Masked in Hp. done.
    + intros [H|(a' & v & p & [= <-] & Hv & Hp & Hcont)]; [by destruct (H v0)|].
      exists (prefix_String (Masked p)). split.
      * apply list_elem_of_In, Hin. exists v. split; [done|]. apply normalize_cidr_spec. by exists p.
      * rewrite (prefix_roundtrip _ (Masked_ok _ (cidr_prefix_ok _ _ Hp))), Contains_Masked. done.
Qed.
End Proofs.

(** ** Lemmas: the policy that applies *)

Notation selection e := (GatewayPolicyExplanation.SelectedPolicyID e, GatewayPolicyExplanation.SelectedSource e).
Notation identified policies := (Forall (fun policy => GovernancePolicy.ID policy <> ""%string) policies).

Lemma explain_candidates_selection src l e : identified l ->
  selection (foldl (explain_candidate src) e (map (candidate_of src) l)) =
  if GatewayPolicyExplanation.SelectedPolicyID e =s "" then
    match List.find active_policy l with
    | Some policy => (GovernancePolicy.ID policy, gatewayPolicyCandidateSource.Source src)
    | None => selection e
    end
  else selection e.
Proof.
  intros H. revert e. induction H as [|policy l Hid _ IH]; intros e; cbn [map foldl List.find].
  - by destruct (_ =s _).
  - rewrite IH. unfold explain_candidate. cbn [GatewayPolicyCandidate.Status candidate_of].
    fold (active_policy policy). destruct (GatewayPolicyExplanation.SelectedPolicyID e =s "") eqn:E.
    + destruct (active_policy policy) eqn:Ea; cbn; [|by rewrite E].
      by rewrite (proj2 (String.eqb_neq _ _) Hid).
    + cbn. by rewrite E.
Qed.

Definition first_active (policies : list GovernancePolicy.t) (src : source) : option GovernancePolicy.t :=
  List.find (fun policy => matches_source src policy && active_policy policy) policies.

Lemma find_filter {A} (p q : A -> bool) l : List.find q (List.filter p l) = List.find (fun x => p x && q x) l.
Proof. induction l as [|x l IH]; cbn; [done|]. destruct (p x); cbn; [|done]. by destruct (q x). Qed.

Lemma explain_source_selection policies src e : identified policies ->
  selection (explain_source policies e src) =
  if GatewayPolicyExplanation.SelectedPolicyID e =s "" then
    match first_active policies src with
    | Some policy => (GovernancePolicy.ID policy, gatewayPolicyCandidateSource.Source src)
    | None => selection e
    end
  else selection e.
Proof.
  intros H. unfold explain_source, gatewayPolicyCandidatesForSource, first_active. rewrite <- find_filter.
  destruct (List.filter (matches_source src) policies) as [|x l] eqn:Ef.
  - cbn. destruct (_ <>s ""); cbn; by destruct (_ =s _).
  - rewrite <- Ef. destruct (_ && _) eqn:E.
    { rewrite Ef in E. cbn in E. done. }
    apply explain_candidates_selection. apply Forall_forall. intros p Hp. rewrite Forall_forall in H. apply H.
    apply list_elem_of_In, filter_In in Hp as [Hp _]. by apply list_elem_of_In.
Qed.

(** The first source that has an active policy, and its first active policy. *)
Fixpoint select_policy (policies : list GovernancePolicy.t) (sources : list source)
    : option (GovernancePolicy.t * string) :=
  match sources with
  | [] => None
  | src :: sources =>
      match first_active policies src with
      | Some policy => Some (policy, gatewayPolicyCandidateSource.Source src)
      | None => select_policy policies sources
      end
  end.

Lemma first_active_in policies src p : first_active policies src = Some p -> p ∈ policies.
Proof. intros [Hin _]%List.find_some. by apply list_elem_of_In. Qed.

Lemma explain_sources_selection policies sources e : identified policies ->
  selection (foldl (explain_source policies) e sources) =
  if GatewayPolicyExplanation.SelectedPolicyID e =s "" then
    match select_policy policies sources with
    | Some (policy, src) => (GovernancePolicy.ID policy, src)
    | None => selection e
    end
  else selection e.
Proof.
  intros H. revert e. induction sources as [|src sources IH]; intros e; cbn [foldl select_policy].
  - by destruct (_ =s _).
  - rewrite IH. pose proof (explain_source_selection policies src e H) as E.
    destruct (GatewayPolicyExplanation.SelectedPolicyID e =s "") eqn:Ee;
      [destruct (first_active policies src) as [p|] eqn:Ep|]; injection E as E1 E2; rewrite E1, E2, ?Ee; [|done..].
    rewrite Forall_forall in H. by rewrite (proj2 (String.eqb_neq _ _) (H p (first_active_in _ _ _ Ep))).
Qed.

Lemma find_by_id policies p : NoDup (map GovernancePolicy.ID policies) -> p ∈ policies ->
  List.find (fun q => GovernancePolicy.ID q =s GovernancePolicy.ID p) policies = Some p.
Proof.
  intros Hn Hp. induction policies as [|q policies IH]; [exfalso; set_solver|]. cbn in *.
  apply NoDup_cons in Hn as [Hq Hn]. destruct (GovernancePolicy.ID q =s GovernancePolicy.ID p) eqn:E; boolify.
  - apply elem_of_cons in Hp as [->|Hp]; [done|]. destruct Hq. rewrite E. apply list_elem_of_fmap. by exists p.
  - apply IH; [done|]. apply elem_of_cons in Hp as [->|Hp]; done.
Qed.

Lemma select_policy_in policies sources p src : select_policy policies sources = Some (p, src) -> p ∈ policies.
Proof.
  induction sources as [|s sources IH]; cbn; [done|]. destruct (first_active policies s) eqn:E; [|done].
  intros [= <- _]. by eapply first_active_in.
Qed.

(** ** Properties *)

(** The policy that applies to a key is found by priority: the policy the key
    names, or else one scoped to the key, or else a global one; among those of one
    source the first that is active; and what the explanation says was selected is
    what is enforced. *)
Theorem policy_by_priority policies key :
  identified policies -> NoDup (map GovernancePolicy.ID policies) ->
  effectiveGatewayPolicyFromPolicies policies key =
  match select_policy policies (policy_sources key) with
  | Some (policy, src) => (Some policy, src)
  | None => (None, ""%string)
  end.
Proof.
  intros Hid Hn. unfold effectiveGatewayPolicyFromPolicies, explainGatewayPolicy.
  pose proof (explain_sources_selection policies (policy_sources key)
    (GatewayPolicyExplanation.zero <| GatewayPolicyExplanation.APIKeyID := APIKeyRecord.ID key |>) Hid) as E.
  revert E. generalize (foldl (explain_source policies)
    (GatewayPolicyExplanation.zero <| GatewayPolicyExplanation.APIKeyID := APIKeyRecord.ID key |>) (policy_sources key)).
  intros e E. cbn [set GatewayPolicyExplanation.SelectedPolicyID GatewayPolicyExplanation.SelectedSource String.eqb] in E.
  destruct (select_policy policies (policy_sources key)) as [[p src]|] eqn:Es; injection E as E1 E2; rewrite E1, ?E2; [|done].
  pose proof (select_policy_in _ _ _ _ Es) as Hp. rewrite Forall_forall in Hid.
  by rewrite (proj2 (String.eqb_neq _ _) (Hid p Hp)), find_by_id.
Qed.

(** A governance policy only takes away: a model it lets through is one the key
    allows, is not on its deny list and is on its allow list, if it has one; and
    every limit it sets or the key sets is in force. *)
Theorem policy_only_restricts auth policy model :
  GatewayAuthContext.Policy auth = Some policy ->
  (gatewayModelAllowed auth model = true ->
   gatewayModelAllowed (auth <| GatewayAuthContext.Policy := None |>) model = true /\
   TrimSpace model ∉ GovernancePolicy.ModelDenylist policy /\
   base_model (TrimSpace model) ∉ GovernancePolicy.ModelDenylist policy /\
   (GovernancePolicy.ModelAllowlist policy = [] \/
    TrimSpace model ∈ GovernancePolicy.ModelAllowlist policy \/
    base_model (TrimSpace model) ∈ GovernancePolicy.ModelAllowlist policy)) /\
  let in_force (key_limit policy_limit effective : Z) :=
    (0 < key_limit -> 0 < effective <= key_limit) /\
    (0 < policy_limit -> 0 < effective <= policy_limit) in
  let key := GatewayAuthContext.APIKey auth in
  in_force (APIKeyRecord.QPSLimit key) (GovernancePolicy.QPSLimit policy) (effectiveQPSLimit auth) /\
  in_force (APIKeyRecord.MonthlyTokenLimit key) (GovernancePolicy.MonthlyTokenLimit policy)
    (effectiveMonthlyTokenLimit auth) /\
  in_force (APIKeyRecord.MonthlyBudgetMicros key) (GovernancePolicy.MonthlyBudgetMicros policy)
    (effectiveMonthlyBudgetMicros auth).
Proof.
  intros Hp. split.
  - unfold gatewayModelAllowed. cbn [set GatewayAuthContext.Policy GatewayAuthContext.APIKey]. rewrite Hp.
    destruct (TrimSpace model =s ""); [done|]. destruct (_ || _) eqn:E; [done|]. boolify. intros Hk.
    assert (Hno : forall l v, contains l v = false -> v ∉ l) by (intros l v Hc Hin%contains_In; congruence).
    split_and!; [exact Hk|by apply Hno|by apply Hno|].
    apply andb_false_iff in H0 as [H0|H0]; boolify; [|right; right; by apply contains_In].
    apply andb_false_iff in H0 as [H0|H0]; boolify; [|right; left; by apply contains_In].
    left. destruct (GovernancePolicy.ModelAllowlist policy); [done|]. cbn in H0. lia.
  - unfold effectiveQPSLimit, effectiveMonthlyTokenLimit, effectiveMonthlyBudgetMicros, with_policy,
      minimumPositive, minimumPositiveInt64. rewrite Hp. cbv zeta.
    split_and!; repeat case_match; boolify; lia.
Qed.

(** C7. What a key stored with a normalised policy admits: requests in a scope, an
    operation, a modality and a lane of its policy, from an address in one of the
    ranges the policy was made of, or from everywhere if there were none.  That
    the policy is normalised again at every request changes nothing. *)
Theorem key_policy_enforced `{UnicodeCase} fields g record request :
  normalizeAPIKeyPolicy fields = Ok g ->
  apiKeyAllowsCanonicalRequest (applyAPIKeyPolicy record g) request = true <->
  operation_scope (CanonicalRequest.Operation request) ∈ scopes g /\
  (CanonicalRequest.Operation request ∈ allowedOperations g \/
   CanonicalRequest.Operation request = GatewayOperationCountTokens /\
     GatewayOperationChatCompletion ∈ allowedOperations g) /\
  CanonicalRequest.Modality request ∈ allowedModalities g /\
  (CanonicalRequest.Lane request = LaneDirect /\ lanePolicy g <> GatewayLanePolicyDurableOnly \/
   CanonicalRequest.Lane request = LaneDurable /\ lanePolicy g <> GatewayLanePolicyDirectOnly) /\
  ((forall v, ~ named (allowedCIDRs fields) v) \/
   exists address v prefix, ParseAddr (TrimSpace (CanonicalRequest.SourceIP request)) = Some address /\
     named (allowedCIDRs fields) v /\ cidr_prefix v = Some prefix /\ prefix_Contains prefix address = true).
Proof.
  intros Hn. destruct (normalize_normal _ _ Hn) as [Hok Hc]. rewrite (allows_spec _ _ _ Hok).
  unfold policy_allows. by rewrite (sources_spec _ _ _ Hc).
Qed.

(** Normalising a policy that is normal gives the same policy, with its lists
    in sorted order: what is stored means the same when it is read. *)
Theorem normalization_stable `{UnicodeCase} fields g :
  normalizeAPIKeyPolicy fields = Ok g ->
  exists g', normalizeAPIKeyPolicy g = Ok g' /\ same_policy g' g.
Proof. intros Hn. by apply normalize_again, (normalize_normal _ _ Hn). Qed.

(** ** Witnesses *)

Module Demo.
Definition no_lower : UnicodeCase := fun s => s.
#[local] Existing Instance no_lower.
Definition policy id status scope_type scope_id : GovernancePolicy.t := GovernancePolicy.zero
  <| GovernancePolicy.ID := id |> <| GovernancePolicy.Status := status |>
  <| GovernancePolicy.ScopeType := scope_type |> <| GovernancePolicy.ScopeID := scope_id |>.
Definition policies : list GovernancePolicy.t :=
  [policy "everyone" GovernancePolicyStatusActive GovernancePolicyScopeGlobal "";
   policy "retired" "disabled" GovernancePolicyScopeAPIKey "key_1";
   policy "named" GovernancePolicyStatusActive GovernancePolicyScopeAPIKey "key_9";
   policy "scoped" GovernancePolicyStatusActive GovernancePolicyScopeAPIKey "key_1"].
Definition key policy_id : APIKeyRecord.t := APIKeyRecord.zero
  <| APIKeyRecord.ID := "key_1"%string |> <| APIKeyRecord.PolicyID := policy_id |>
  <| APIKeyRecord.ModelAllowlist := ["gpt"%string; "other"%string] |> <| APIKeyRecord.QPSLimit := 7 |>.
Definition limited : GovernancePolicy.t :=
  (policy "limits" GovernancePolicyStatusActive GovernancePolicyScopeGlobal "")
    <| GovernancePolicy.ModelAllowlist := ["gpt"%string] |> <| GovernancePolicy.QPSLimit := 3 |>.
Definition auth : GatewayAuthContext.t := GatewayAuthContext.zero
  <| GatewayAuthContext.APIKey := key "" |>
  <| GatewayAuthContext.Policy := Some limited |>.
Definition fields : policy_fields := apiKeyPolicyFields.zero
  <| allowedCIDRs := [" 10.1.2.3/8 "%string; "192.168.7.7"%string] |>
  <| allowedOperations := ["Chat_completion "%string] |>.
Definition normal : policy_fields :=
  match normalizeAPIKeyPolicy fields with Ok g => g | Err _ => fields end.
Definition request lane ip : CanonicalRequest.t := CanonicalRequest.zero
  <| CanonicalRequest.Operation := GatewayOperationCountTokens |>
  <| CanonicalRequest.Modality := GatewayModalityText |>
  <| CanonicalRequest.Lane := lane |> <| CanonicalRequest.SourceIP := ip |>.
End Demo.

Import Demo.
#[local] Existing Instance no_lower.

(** The policy the key names; a disabled one does not count. *)
Lemma policy_by_priority_witness :
  map (fun id => option_map GovernancePolicy.ID (fst (effectiveGatewayPolicyFromPolicies policies (key id))))
    [""; "named"; "retired"; "gone"]%string = [Some "scoped"; Some "named"; Some "scoped"; Some "scoped"]%string.
Proof.
  cbn [map]. rewrite !policy_by_priority; [by vm_compute|..];
    try (by repeat constructor); apply (bool_decide_unpack _); by vm_compute.
Defined.

Lemma policy_only_restricts_witness :
  gatewayModelAllowed auth "gpt:free" = true /\ gatewayModelAllowed auth "other" = false /\
  (0 < 7 -> 0 < effectiveQPSLimit auth <= 7).
Proof.
  destruct (policy_only_restricts auth limited "gpt:free"
       eq_refl) as [_ [[H _] _]].
  split_and!; [by vm_compute|by vm_compute|exact H].
Defined.

Lemma key_policy_enforced_witness :
  apiKeyAllowsCanonicalRequest (applyAPIKeyPolicy (key "") normal) (request LaneDirect "10.200.0.1") = true.
Proof.
  apply (key_policy_enforced fields); [by vm_compute|]. split_and!.
  - apply contains_In. by vm_compute.
  - right. split; [done|]. apply contains_In. by vm_compute.
  - apply contains_In. by vm_compute.
  - left. split; [done|]. by vm_compute.
  - right. exists (mkAddr true 180879361 ""), "10.1.2.3/8"%string, (mkPrefix (mkAddr true 167838211 "") 8).
    split_and!; [by vm_compute| |by vm_compute|by vm_compute].
    apply named_cons. left. split; [done|by vm_compute].
Defined.

Lemma normalization_stable_witness :
  exists g', normalizeAPIKeyPolicy normal = Ok g' /\ same_policy g' normal.
Proof. apply (normalization_stable fields). by vm_compute. Defined.
