(* ===== verification/APIKeys.v ===== *)
(** * API keys

    The keys of the gateway: creation, change, rotation with a grace period,
    disabling and authentication ([service.go], the keys of
    [application_service.go], [api_key_policy.go]), over the maps in memory of
    [repository.go], [application_repository.go], [identity_repository.go] and
    [governance_policy_repository.go].  Methods are programs of critical
    sections; a key is stored as the SHA-256 of its text.  [run_at] runs the
    sections of one call on whatever stores the others leave between them. *)

From Stdlib Require Import Ascii.
From S2P Require Import Prelude Sha256 Threads StringLists GoTime AccessModel RoutingModel Repository Service GatewayModels GatewayPolicy.

Definition ErrAPIKeyAlreadyRotated : go_error := ErrNew "api key has already been rotated".
Definition ErrAPIKeyChangedDuringRotation : go_error := ErrNew "api key changed while rotation was in progress".

(** ** The maps in memory *)

Section Lists.
Context `{range : MapRange}.

Definition key_less (a b : APIKeyRecord.t) : bool := After (APIKeyRecord.CreatedAt a) (APIKeyRecord.CreatedAt b).
Definition application_less (a b : Application.t) : bool :=
  if Application.CreatedAt a =? Application.CreatedAt b
  then str_ltb (Application.Name a) (Application.Name b)
  else Before (Application.CreatedAt a) (Application.CreatedAt b).
Definition principal_less (a b : GatewayPrincipal.t) : bool :=
  if GatewayPrincipal.CreatedAt a =? GatewayPrincipal.CreatedAt b
  then str_ltb (GatewayPrincipal.Name a) (GatewayPrincipal.Name b)
  else Before (GatewayPrincipal.CreatedAt a) (GatewayPrincipal.CreatedAt b).
Definition governance_less (a b : GovernancePolicy.t) : bool :=
  if GovernancePolicy.Status a =s GovernancePolicy.Status b
  then str_ltb (GovernancePolicy.Name a) (GovernancePolicy.Name b)
  else str_ltb (GovernancePolicy.Status a) (GovernancePolicy.Status b).

Definition ListAPIKeys (r : MemoryRepository) : list APIKeyRecord.t :=
  sort_by key_less (map_values (apiKeys r)).
Definition ListApplications (r : MemoryRepository) : list Application.t :=
  sort_by application_less (map_values (applications r)).
Definition ListGatewayPrincipals (r : MemoryRepository) : list GatewayPrincipal.t :=
  sort_by principal_less (map_values (gatewayPrincipals r)).
Definition ListGovernancePolicies (r : MemoryRepository) : list GovernancePolicy.t :=
  sort_by governance_less (map_values (governancePolicies r)).

Definition FindAPIKeyByHash (hash : string) (r : MemoryRepository) : option APIKeyRecord.t :=
  find_value (fun key => APIKeyRecord.KeyHash key =s hash) (apiKeys r).
End Lists.

Definition FindWorkspaceUserByID (id : string) (r : MemoryRepository) : option WorkspaceUser.t :=
  workspaceUsers r !! id.

Definition SaveAPIKey (key : APIKeyRecord.t) : M unit :=
  write (fun r => r.[apiKeys]:[APIKeyRecord.ID key] <- key).

Definition RotateAPIKeyPair (previous replacement : APIKeyRecord.t) (audit_ : AuditLog.t)
    (expectedUpdatedAt : time) : M unit :=
  r ← read id;
  match apiKeys r !! APIKeyRecord.ID previous with
  | None => fail (exists_error "api key %q not found" (APIKeyRecord.ID previous))
  | Some current =>
      _ ← check (APIKeyRecord.ReplacedByKeyID current <>s "") ErrAPIKeyAlreadyRotated;
      _ ← check (negb (APIKeyRecord.UpdatedAt current =? expectedUpdatedAt)) ErrAPIKeyChangedDuringRotation;
      _ ← check (has (apiKeys r) (APIKeyRecord.ID replacement))
            (exists_error "replacement api key %q already exists" (APIKeyRecord.ID replacement));
      _ ← check (has (auditLogs r) (AuditLog.ID audit_))
            (exists_error "audit log %q already exists" (AuditLog.ID audit_));
      _ ← write (fun r => r.[apiKeys]:[APIKeyRecord.ID previous] <- previous);
      _ ← write (fun r => r.[apiKeys]:[APIKeyRecord.ID replacement] <- replacement);
      write (fun r => r.[auditLogs]:[AuditLog.ID audit_] <- audit_)
  end.

Definition UpdateAPIKeyLastUsed (id : string) (lastUsedAt : time) : M unit :=
  r ← read (fun r => r);
  match apiKeys r !! id with
  | None => mret tt
  | Some key =>
      let key := key <| APIKeyRecord.LastUsedAt := Some lastUsedAt |> <| APIKeyRecord.UpdatedAt := lastUsedAt |> in
      write (fun r => r.[apiKeys]:[id] <- key)
  end.

Definition DisableAPIKey (id : string) (updatedAt : time) : M unit :=
  r ← read (fun r => r);
  match apiKeys r !! id with
  | None => mret tt
  | Some key =>
      let key := key <| APIKeyRecord.Status := APIKeyStatusDisabled |> <| APIKeyRecord.UpdatedAt := updatedAt |> in
      write (fun r => r.[apiKeys]:[id] <- key)
  end.

(** ** Look-ups *)

Record applicationCredentialIdentity := mkIdentity {
  application : Application.t;
  principal : GatewayPrincipal.t;
}.

Definition fingerprint (hash : string) : string := prefix hash 12.

Definition isLocalAdminActor (actor : string) : bool :=
  oneOf (TrimSpace actor) [""; "local-admin"; "admin"; "demo"]%string.

(** What [randomToken] and [randomID] draw for a call. *)
Record key_draws := mkKeyDraws {
  token : string;
  key_random : string;
  family_random : string;
  audit_random : string;
}.
Definition raw_key (d : key_draws) : string := ("ar_" +:+ token d)%string.
Definition new_key_id (d : key_draws) : string := ("key_" +:+ key_random d)%string.
Definition new_family (d : key_draws) : string := ("key_family_" +:+ family_random d)%string.

Section Service.
Context `{range : MapRange} `{unicode : UnicodeCase}.

Definition apiKeyByID : string -> serv APIKeyRecord.t :=
  by_id APIKeyRecord.ID ListAPIKeys "api key id is required" (exists_error "api key %q not found").
Definition applicationByID : string -> serv Application.t :=
  by_id Application.ID ListApplications "application_id is required" (fun _ => ErrNew "application not found").
Definition gatewayPrincipalByID : string -> serv GatewayPrincipal.t :=
  by_id GatewayPrincipal.ID ListGatewayPrincipals "gateway principal_id is required"
    (fun _ => ErrNew "gateway principal not found").
Definition governancePolicyByID : string -> serv GovernancePolicy.t :=
  by_id GovernancePolicy.ID ListGovernancePolicies "governance policy id is required"
    (exists_error "governance policy %s not found").

Definition workspaceUserByID (id : string) : serv WorkspaceUser.t :=
  let id := TrimSpace id in
  _ ← refuse (id =s "") (ErrNew "user id is required");
  found ← query (FindWorkspaceUserByID id);
  match found with
  | Some user => mret user
  | None => throw (exists_error "user %s not found" id)
  end.

Definition applicationCredentialIdentity_ (applicationID principalID : string) : serv applicationCredentialIdentity :=
  app ← applicationByID applicationID;
  prn ← gatewayPrincipalByID principalID;
  _ ← refuse (GatewayPrincipal.ApplicationID prn <>s Application.ID app)
        (ErrNew "gateway principal does not belong to application");
  mret (mkIdentity app prn).

Definition activeApplicationCredentialIdentity (applicationID principalID : string)
    : serv applicationCredentialIdentity :=
  identity ← applicationCredentialIdentity_ applicationID principalID;
  _ ← refuse ((Application.Status (application identity) <>s ApplicationStatusActive)
              || (GatewayPrincipal.Status (principal identity) <>s GatewayPrincipalStatusActive))
        (ErrNew "gateway principal is not active for application");
  mret identity.

Definition validateGovernancePolicyReference (policyID : string) : serv unit :=
  let policyID := TrimSpace policyID in
  if policyID =s "" then mret tt else
  _ ← governancePolicyByID policyID;
  mret tt.

Definition effectiveGatewayPolicy (key : APIKeyRecord.t) : serv (option GovernancePolicy.t * string) :=
  policies ← query ListGovernancePolicies;
  mret (effectiveGatewayPolicyFromPolicies policies key).

(** ** Ownership *)

Definition normalizeAPIKeyOwnership (keyType ownerUserID : string) : result go_error (string * string) :=
  let keyType := TrimSpace keyType in
  let keyType := if keyType =s "" then APIKeyTypeWorkspace else keyType in
  _ ← guard_err (negb (oneOf keyType [APIKeyTypeWorkspace; APIKeyTypeUser; APIKeyTypeService]))
        (ErrNew "key_type must be workspace, user, or service");
  let ownerUserID := TrimSpace ownerUserID in
  _ ← guard_err ((keyType =s APIKeyTypeUser) && (ownerUserID =s ""))
        (ErrNew "owner_user_id is required for user keys");
  Ok (keyType, if keyType <>s APIKeyTypeUser then ""%string else ownerUserID).

Definition validateAPIKeyOwner (keyType ownerUserID : string) : serv unit :=
  if (keyType <>s APIKeyTypeUser) || isLocalAdminActor ownerUserID then mret tt else
  user ← workspaceUserByID ownerUserID;
  refuse (WorkspaceUser.Status user <>s WorkspaceUserStatusActive) (ErrNew "owner workspace user must be active").

Definition applyAPIKeyPrincipal (d : key_draws) (record : APIKeyRecord.t)
    (applicationIdentity : option applicationCredentialIdentity) : APIKeyRecord.t :=
  let record := match applicationIdentity with
    | Some identity => record
        <| APIKeyRecord.GatewayPrincipalID := GatewayPrincipal.ID (principal identity) |>
        <| APIKeyRecord.ApplicationID := Application.ID (application identity) |>
        <| APIKeyRecord.PrincipalType := GatewayPrincipal.PrincipalType (principal identity) |>
        <| APIKeyRecord.PrincipalReference := GatewayPrincipal.ID (principal identity) |>
    | None => record
        <| APIKeyRecord.ApplicationID := gatewayDefaultApplicationID |>
        <| APIKeyRecord.PrincipalType := APIKeyRecord.KeyType record |>
        <| APIKeyRecord.PrincipalReference :=
             if APIKeyRecord.KeyType record =s APIKeyTypeUser
             then APIKeyRecord.OwnerUserID record else APIKeyRecord.ID record |>
    end in
  if APIKeyRecord.RotationFamilyID record =s ""
  then record <| APIKeyRecord.RotationFamilyID := new_family d |> else record.

(** The audit entry of a key, with the application it belongs to. *)
Definition audit_key (d : key_draws) (actor action id summary : string)
    (applicationIdentity : option applicationCredentialIdentity) : serv unit :=
  match applicationIdentity with
  | Some identity => auditApplication (audit_random d) actor action "api_key" id summary
      (Some (application identity)) (Some (principal identity))
  | None => audit (audit_random d) actor action "api_key" id summary
  end.

(** ** Creation *)

Definition buildAPIKeyRecord (d : key_draws) (req : APIKeyCreateRequest.t)
    (applicationIdentity : option applicationCredentialIdentity)
    (id rawKey rotationFamilyID : string) (now : time) : serv APIKeyRecord.t :=
  let name := TrimSpace (APIKeyCreateRequest.Name req) in
  _ ← refuse (name =s "") (ErrNew "name is required");
  let models := cleanStringList (APIKeyCreateRequest.ModelAllowlist req) in
  _ ← refuse (Z.of_nat (length models) =? 0) (ErrNew "model_allowlist must not be empty");
  keyPolicy ← from (normalizeAPIKeyPolicy (apiKeyPolicyFromCreateRequest req));
  _ ← validateGovernancePolicyReference (APIKeyCreateRequest.PolicyID req);
  _ ← validateRoutingPolicyReference (APIKeyCreateRequest.RoutingPolicyID req) models;
  expiresAt ← from (parseOptionalDate (APIKeyCreateRequest.ExpiresAt req));
  '(keyType, ownerUserID) ← from (normalizeAPIKeyOwnership (APIKeyCreateRequest.KeyType req)
                                    (APIKeyCreateRequest.OwnerUserID req));
  _ ← validateAPIKeyOwner keyType ownerUserID;
  let id := TrimSpace id in
  let rawKey := TrimSpace rawKey in
  _ ← refuse ((id =s "") || (rawKey =s "")) (ErrNew "api key id and key material are required");
  let hash := hashAPIKey rawKey in
  let record := APIKeyRecord.zero
    <| APIKeyRecord.ID := id |> <| APIKeyRecord.Name := name |> <| APIKeyRecord.KeyHash := hash |>
    <| APIKeyRecord.Fingerprint := fingerprint hash |> <| APIKeyRecord.Prefix := prefix rawKey 10 |>
    <| APIKeyRecord.Status := APIKeyStatusActive |> <| APIKeyRecord.KeyType := keyType |>
    <| APIKeyRecord.OwnerUserID := ownerUserID |>
    <| APIKeyRecord.PolicyID := TrimSpace (APIKeyCreateRequest.PolicyID req) |>
    <| APIKeyRecord.RoutingPolicyID := TrimSpace (APIKeyCreateRequest.RoutingPolicyID req) |>
    <| APIKeyRecord.ModelAllowlist := models |> <| APIKeyRecord.ExpiresAt := expiresAt |>
    <| APIKeyRecord.CreatedAt := now |> <| APIKeyRecord.UpdatedAt := now |>
    <| APIKeyRecord.LifecycleStatus := APIKeyLifecycleActive |>
    <| APIKeyRecord.RotationFamilyID := TrimSpace rotationFamilyID |> in
  mret (applyAPIKeyPrincipal d (applyAPIKeyPolicy record keyPolicy) applicationIdentity).

(** The answer is the record and the text of the key ([APIKeyCreateResponse]). *)
Definition createAPIKey (d : key_draws) (actor : string) (req : APIKeyCreateRequest.t)
    (applicationIdentity : option applicationCredentialIdentity) : serv (APIKeyRecord.t * string) :=
  let rawKey := raw_key d in
  now ← nowUTC;
  record ← buildAPIKeyRecord d req applicationIdentity (new_key_id d) rawKey "" now;
  _ ← section (SaveAPIKey record);
  _ ← audit_key d actor "create" (APIKeyRecord.ID record)
        ((if applicationIdentity then "Created application API key " else "Created API key ")
         +:+ APIKeyRecord.Name record)%string applicationIdentity;
  mret (record, rawKey).

Definition CreateAPIKey (d : key_draws) (actor : string) (req : APIKeyCreateRequest.t)
    : serv (APIKeyRecord.t * string) :=
  _ ← refuse ((TrimSpace (APIKeyCreateRequest.ApplicationID req) <>s "")
              || (TrimSpace (APIKeyCreateRequest.GatewayPrincipalID req) <>s ""))
        (ErrNew "application API keys must be created through the application management API");
  createAPIKey d actor req None.

Definition validateApplicationKeyRequestOwnership (req : APIKeyCreateRequest.t) : result go_error unit :=
  let keyType := TrimSpace (APIKeyCreateRequest.KeyType req) in
  _ ← guard_err ((keyType <>s "") && (keyType <>s APIKeyTypeWorkspace) && (keyType <>s APIKeyTypeService))
        (ErrNew "application API keys must use workspace or service ownership");
  _ ← guard_err (TrimSpace (APIKeyCreateRequest.OwnerUserID req) <>s "")
        (ErrNew "application API keys cannot be owned by individual users");
  guard_err ((TrimSpace (APIKeyCreateRequest.ApplicationID req) =s "")
             || (TrimSpace (APIKeyCreateRequest.GatewayPrincipalID req) =s ""))
    (ErrNew "application API keys require application_id and gateway_principal_id").

Definition CreateApplicationAPIKey (d : key_draws) (actor : string) (req : APIKeyCreateRequest.t)
    : serv (APIKeyRecord.t * string) :=
  _ ← from (validateApplicationKeyRequestOwnership req);
  identity ← activeApplicationCredentialIdentity (APIKeyCreateRequest.ApplicationID req)
               (APIKeyCreateRequest.GatewayPrincipalID req);
  createAPIKey d actor req (Some identity).

(** ** Change *)

(** [set_lists] as for [apiKeyPolicyForUpdate]. *)
Definition updateAPIKey (d : key_draws) (actor : string) (key : APIKeyRecord.t) (set_lists : bool)
    (req : APIKeyUpdateRequest.t) : serv APIKeyRecord.t :=
  let name := TrimSpace (APIKeyUpdateRequest.Name req) in
  _ ← refuse (name =s "") (ErrNew "name is required");
  let models := cleanStringList (APIKeyUpdateRequest.ModelAllowlist req) in
  _ ← refuse (Z.of_nat (length models) =? 0) (ErrNew "model_allowlist must not be empty");
  keyPolicy ← from (normalizeAPIKeyPolicy (apiKeyPolicyForUpdate set_lists key req));
  _ ← validateGovernancePolicyReference (APIKeyUpdateRequest.PolicyID req);
  _ ← validateRoutingPolicyReference (APIKeyUpdateRequest.RoutingPolicyID req) models;
  let status := if APIKeyUpdateRequest.Status req =s ""
                then APIKeyRecord.Status key else APIKeyUpdateRequest.Status req in
  _ ← refuse (negb (oneOf status [APIKeyStatusActive; APIKeyStatusDisabled]))
        (ErrNew "status must be active or disabled");
  expiresAt ← from (parseOptionalDate (APIKeyUpdateRequest.ExpiresAt req));
  let keyType := if TrimSpace (APIKeyUpdateRequest.KeyType req) =s ""
                 then APIKeyRecord.KeyType key else APIKeyUpdateRequest.KeyType req in
  let ownerUserID := if (TrimSpace (APIKeyUpdateRequest.OwnerUserID req) =s "") && (keyType =s APIKeyTypeUser)
                     then APIKeyRecord.OwnerUserID key else APIKeyUpdateRequest.OwnerUserID req in
  '(keyType, ownerUserID) ← from (normalizeAPIKeyOwnership keyType ownerUserID);
  _ ← validateAPIKeyOwner keyType ownerUserID;
  let key := key
    <| APIKeyRecord.Name := name |>
    <| APIKeyRecord.PolicyID := TrimSpace (APIKeyUpdateRequest.PolicyID req) |>
    <| APIKeyRecord.RoutingPolicyID := TrimSpace (APIKeyUpdateRequest.RoutingPolicyID req) |>
    <| APIKeyRecord.ModelAllowlist := models |> <| APIKeyRecord.ExpiresAt := expiresAt |>
    <| APIKeyRecord.Status := status |> <| APIKeyRecord.KeyType := keyType |>
    <| APIKeyRecord.OwnerUserID := ownerUserID |> in
  let key := applyAPIKeyPolicy key keyPolicy in
  applicationIdentity ←
    (if isApplicationAPIKey key
     then identity ← activeApplicationCredentialIdentity (APIKeyRecord.ApplicationID key)
                       (APIKeyRecord.GatewayPrincipalID key);
          mret (Some identity)
     else mret None);
  let key := applyAPIKeyPrincipal d key applicationIdentity in
  now ← nowUTC;
  let key := key <| APIKeyRecord.UpdatedAt := now |> in
  _ ← section (SaveAPIKey key);
  _ ← audit_key d actor "update" (APIKeyRecord.ID key)
        ((if applicationIdentity then "Updated application API key " else "Updated API key ")
         +:+ APIKeyRecord.Name key +:+ " policy")%string applicationIdentity;
  mret key.

Definition UpdateAPIKey (d : key_draws) (actor id : string) (set_lists : bool) (req : APIKeyUpdateRequest.t)
    : serv APIKeyRecord.t :=
  key ← apiKeyByID id;
  _ ← refuse (isApplicationAPIKey key)
        (ErrNew "application API keys must be updated through the application management API");
  _ ← refuse ((TrimSpace (APIKeyUpdateRequest.ApplicationID req) <>s "")
              || (TrimSpace (APIKeyUpdateRequest.GatewayPrincipalID req) <>s ""))
        (ErrNew "application API key ownership is immutable");
  updateAPIKey d actor key set_lists req.

Definition UpdateApplicationAPIKey (d : key_draws) (actor id : string) (set_lists : bool)
    (req : APIKeyUpdateRequest.t) : serv APIKeyRecord.t :=
  key ← apiKeyByID id;
  _ ← refuse (negb (isApplicationAPIKey key)) (ErrNew "application API key not found");
  _ ← refuse ((TrimSpace (APIKeyUpdateRequest.KeyType req) <>s "")
              && (APIKeyUpdateRequest.KeyType req <>s APIKeyTypeWorkspace)
              && (APIKeyUpdateRequest.KeyType req <>s APIKeyTypeService))
        (ErrNew "application API keys must use workspace or service ownership");
  _ ← refuse (TrimSpace (APIKeyUpdateRequest.OwnerUserID req) <>s "")
        (ErrNew "application API keys cannot reference relay customers or enterprise users");
  _ ← refuse ((TrimSpace (APIKeyUpdateRequest.ApplicationID req) <>s "")
              && (TrimSpace (APIKeyUpdateRequest.ApplicationID req) <>s APIKeyRecord.ApplicationID key))
        (ErrNew "application API key application ownership is immutable");
  _ ← refuse ((TrimSpace (APIKeyUpdateRequest.GatewayPrincipalID req) <>s "")
              && (TrimSpace (APIKeyUpdateRequest.GatewayPrincipalID req) <>s APIKeyRecord.GatewayPrincipalID key))
        (ErrNew "application API key principal ownership is immutable");
  _ ← activeApplicationCredentialIdentity (APIKeyRecord.ApplicationID key) (APIKeyRecord.GatewayPrincipalID key);
  updateAPIKey d actor key set_lists req.

(** ** Rotation *)

(** The replacement of a key and the key it replaces. *)
Definition rotated_pair (d : key_draws) (key : APIKeyRecord.t) (now : time) (gracePeriod : duration)
    : APIKeyRecord.t * APIKeyRecord.t :=
  let hash := hashAPIKey (raw_key d) in
  let key := if APIKeyRecord.RotationFamilyID key =s ""
             then key <| APIKeyRecord.RotationFamilyID := new_family d |> else key in
  let replacement := key
    <| APIKeyRecord.ID := new_key_id d |> <| APIKeyRecord.KeyHash := hash |>
    <| APIKeyRecord.Fingerprint := fingerprint hash |> <| APIKeyRecord.Prefix := prefix (raw_key d) 10 |>
    <| APIKeyRecord.Status := APIKeyStatusActive |> <| APIKeyRecord.ReplacesKeyID := APIKeyRecord.ID key |>
    <| APIKeyRecord.ReplacedByKeyID := ""%string |> <| APIKeyRecord.RotationGraceExpiresAt := None |>
    <| APIKeyRecord.LastUsedAt := None |> <| APIKeyRecord.LifecycleStatus := APIKeyLifecycleActive |>
    <| APIKeyRecord.CreatedAt := now |> <| APIKeyRecord.UpdatedAt := now |> in
  let key := key
    <| APIKeyRecord.ReplacedByKeyID := APIKeyRecord.ID replacement |>
    <| APIKeyRecord.RotationGraceExpiresAt := Some (now + gracePeriod) |>
    <| APIKeyRecord.UpdatedAt := now |> in
  let key := if gracePeriod <=? 0 then key <| APIKeyRecord.Status := APIKeyStatusDisabled |> else key in
  (key, replacement).

Definition rotateAPIKey (d : key_draws) (actor : string) (key : APIKeyRecord.t)
    (applicationIdentity : option applicationCredentialIdentity) (gracePeriod : duration)
    : serv (APIKeyRecord.t * string) :=
  _ ← refuse (APIKeyRecord.ReplacedByKeyID key <>s "") ErrAPIKeyAlreadyRotated;
  now ← nowUTC;
  let expectedUpdatedAt := APIKeyRecord.UpdatedAt key in
  let '(previous, replacement) := rotated_pair d key now gracePeriod in
  audit_now ← nowUTC;
  let summary := ((if applicationIdentity then "Rotated application API key " else "Rotated API key ")
    +:+ APIKeyRecord.Name replacement +:+ " from " +:+ APIKeyRecord.ID key)%string in
  let audit_ := match applicationIdentity with
    | Some identity => newApplicationAuditLog (audit_random d) audit_now actor "rotate" "api_key"
        (APIKeyRecord.ID replacement) summary (Some (application identity)) (Some (principal identity))
    | None => newAuditLog (audit_random d) audit_now actor "rotate" "api_key" (APIKeyRecord.ID replacement) summary
    end in
  _ ← section (RotateAPIKeyPair previous replacement audit_ expectedUpdatedAt);
  mret (replacement, raw_key d).

Definition RotateAPIKeyWithGrace (d : key_draws) (actor id : string) (gracePeriodSeconds : Z)
    : serv (APIKeyRecord.t * string) :=
  _ ← refuse ((gracePeriodSeconds <? 0) || (gracePeriodSeconds >? 86400))
        (ErrNew "grace_period_seconds must be between 0 and 86400");
  key ← apiKeyByID id;
  _ ← refuse (isApplicationAPIKey key)
        (ErrNew "application API keys must be rotated through the application management API");
  rotateAPIKey d actor key None (gracePeriodSeconds * second).

Definition RotateAPIKey (d : key_draws) (actor id : string) : serv (APIKeyRecord.t * string) :=
  RotateAPIKeyWithGrace d actor id 0.

Definition RotateApplicationAPIKeyWithGrace (d : key_draws) (actor id : string) (gracePeriodSeconds : Z)
    : serv (APIKeyRecord.t * string) :=
  _ ← refuse ((gracePeriodSeconds <? 0) || (gracePeriodSeconds >? 86400))
        (ErrNew "grace_period_seconds must be between 0 and 86400");
  key ← apiKeyByID id;
  _ ← refuse (negb (isApplicationAPIKey key)) (ErrNew "application API key not found");
  identity ← activeApplicationCredentialIdentity (APIKeyRecord.ApplicationID key)
               (APIKeyRecord.GatewayPrincipalID key);
  rotateAPIKey d actor key (Some identity) (gracePeriodSeconds * second).

Definition RotateApplicationAPIKey (d : key_draws) (actor id : string) : serv (APIKeyRecord.t * string) :=
  RotateApplicationAPIKeyWithGrace d actor id 0.

(** ** Disabling *)

(** [Service.DisableAPIKey] *)
Definition service_DisableAPIKey (d : key_draws) (actor id : string) : serv unit :=
  let id := TrimSpace id in
  _ ← refuse (id =s "") (ErrNew "api key id is required");
  key ← apiKeyByID id;
  _ ← refuse (isApplicationAPIKey key)
        (ErrNew "application API keys must be disabled through the application management API");
  now ← nowUTC;
  _ ← section (DisableAPIKey id now);
  audit (audit_random d) actor "disable" "api_key" id "Disabled API key".

Definition DisableApplicationAPIKey (d : key_draws) (actor id : string) : serv unit :=
  key ← apiKeyByID id;
  _ ← refuse (negb (isApplicationAPIKey key)) (ErrNew "application API key not found");
  identity ← applicationCredentialIdentity_ (APIKeyRecord.ApplicationID key) (APIKeyRecord.GatewayPrincipalID key);
  now ← nowUTC;
  _ ← section (DisableAPIKey (APIKeyRecord.ID key) now);
  auditApplication (audit_random d) actor "disable" "api_key" (APIKeyRecord.ID key) "Disabled application API key"
    (Some (application identity)) (Some (principal identity)).

(** ** Authentication *)

Definition apiKeyLifecycleStatus (key : APIKeyRecord.t) (now : time) : string :=
  if APIKeyRecord.ReplacedByKeyID key <>s "" then
    match APIKeyRecord.RotationGraceExpiresAt key with
    | Some until => if Before now until then APIKeyLifecycleRetiring else APIKeyLifecycleRetired
    | None => APIKeyLifecycleRetired
    end
  else if APIKeyRecord.Status key =s APIKeyStatusActive then APIKeyLifecycleActive else APIKeyLifecycleDisabled.

Definition presentAPIKeys (keys : list APIKeyRecord.t) (now : time) : list APIKeyRecord.t :=
  map (fun key => key <| APIKeyRecord.LifecycleStatus := apiKeyLifecycleStatus key now |>) keys.

(** [Service.ListAPIKeys] *)
Definition service_ListAPIKeys : serv (list APIKeyRecord.t) :=
  keys ← query ListAPIKeys;
  now ← nowUTC;
  mret (presentAPIKeys keys now).

Definition key_expired (key : APIKeyRecord.t) (now : time) : bool :=
  match APIKeyRecord.ExpiresAt key with Some t => After now t | None => false end.
Definition key_retired (key : APIKeyRecord.t) (now : time) : bool :=
  (APIKeyRecord.ReplacedByKeyID key <>s "")
  && match APIKeyRecord.RotationGraceExpiresAt key with Some t => negb (Before now t) | None => true end.

Definition authenticated_identity (key : APIKeyRecord.t) : serv (option applicationCredentialIdentity) :=
  if isApplicationAPIKey key then
    identity ← wrapping (fun _ => ErrGatewayUnauthorized)
      (activeApplicationCredentialIdentity (APIKeyRecord.ApplicationID key) (APIKeyRecord.GatewayPrincipalID key));
    mret (Some identity)
  else mret None.

(** The part of [authenticateGatewayKey] after the checks of the key. *)
Definition finish_authentication (key : APIKeyRecord.t) (now : time) (recordLastUsed : bool) : serv GatewayAuthContext.t :=
  identity ← authenticated_identity key;
  key ←
    (if recordLastUsed
     then _ ← section (UpdateAPIKeyLastUsed (APIKeyRecord.ID key) now);
          mret (key <| APIKeyRecord.LastUsedAt := Some now |> <| APIKeyRecord.UpdatedAt := now |>)
     else mret key);
  '(policy, policySource) ← effectiveGatewayPolicy key;
  mret (GatewayAuthContext.zero
    <| GatewayAuthContext.APIKey := key |> <| GatewayAuthContext.Policy := policy |>
    <| GatewayAuthContext.PolicySource := policySource |>
    <| GatewayAuthContext.Application := option_map application identity |>
    <| GatewayAuthContext.GatewayPrincipal := option_map principal identity |>).

Definition authenticateGatewayKey (rawKey : string) (recordLastUsed : bool) : serv GatewayAuthContext.t :=
  let rawKey := TrimSpace rawKey in
  _ ← refuse (rawKey =s "") ErrGatewayUnauthorized;
  found ← query (FindAPIKeyByHash (hashAPIKey rawKey));
  match found with
  | None => throw ErrGatewayUnauthorized
  | Some key =>
      _ ← refuse (APIKeyRecord.Status key <>s APIKeyStatusActive) ErrGatewayUnauthorized;
      now ← nowUTC;
      _ ← refuse (key_expired key now) ErrGatewayUnauthorized;
      _ ← refuse (key_retired key now) ErrGatewayUnauthorized;
      finish_authentication key now recordLastUsed
  end.

Definition AuthenticateGatewayKey (rawKey : string) : serv GatewayAuthContext.t :=
  authenticateGatewayKey rawKey true.
End Service.

(** ** The keys in every interleaving *)

(** The identifiers a call draws: the key it may store and its hash. *)
Definition key_present (id : string) (s : service_state) : Prop :=
  exists k key, apiKeys (repository s) !! k = Some key /\ (id = k \/ id = APIKeyRecord.KeyHash key).

Section Concurrency.
(** The keys no call under way changes, and the ones among them that are rotated
    without a grace period only. *)
Context (frozen graceless : string -> Prop).

Record keys_ok (r : MemoryRepository) : Prop := {
  ok_keyed : keyed APIKeyRecord.ID (apiKeys r);
  ok_no_empty : apiKeys r !! ""%string = None;
  ok_hashes : forall k1 k2 key1 key2, apiKeys r !! k1 = Some key1 -> apiKeys r !! k2 = Some key2 ->
    APIKeyRecord.KeyHash key1 = APIKeyRecord.KeyHash key2 -> k1 = k2;
  ok_replacement : forall k key, apiKeys r !! k = Some key -> frozen k -> APIKeyRecord.ReplacedByKeyID key <> ""%string ->
    exists rep, apiKeys r !! APIKeyRecord.ReplacedByKeyID key = Some rep /\ APIKeyRecord.ReplacesKeyID rep = k;
  ok_replaced_once : forall k key j rep, apiKeys r !! k = Some key -> apiKeys r !! j = Some rep -> frozen k ->
    APIKeyRecord.ReplacesKeyID rep = k -> APIKeyRecord.ReplacedByKeyID key = j;
  ok_replaces : forall j rep, apiKeys r !! j = Some rep -> APIKeyRecord.ReplacesKeyID rep <> ""%string ->
    is_Some (apiKeys r !! APIKeyRecord.ReplacesKeyID rep);
}.

(** How a stored key changes. *)
Record key_evolves (k : string) (key key' : APIKeyRecord.t) : Prop := {
  evolves_hash : APIKeyRecord.KeyHash key' = APIKeyRecord.KeyHash key;
  evolves_replaces : APIKeyRecord.ReplacesKeyID key' = APIKeyRecord.ReplacesKeyID key;
  evolves_rotation : frozen k -> APIKeyRecord.ReplacedByKeyID key <> ""%string ->
    APIKeyRecord.ReplacedByKeyID key' = APIKeyRecord.ReplacedByKeyID key /\
    APIKeyRecord.RotationGraceExpiresAt key' = APIKeyRecord.RotationGraceExpiresAt key;
  evolves_status : frozen k -> APIKeyRecord.ReplacedByKeyID key <> ""%string \/ graceless k ->
    APIKeyRecord.Status key <> APIKeyStatusActive -> APIKeyRecord.Status key' <> APIKeyStatusActive;
}.

Definition keys_later (w w' : Z * service_state) : Prop :=
  clock w.2 <= clock w'.2 /\
  forall k key, apiKeys (repository w.2) !! k = Some key ->
    exists key', apiKeys (repository w'.2) !! k = Some key' /\ key_evolves k key key'.

Lemma evolves_refl k key : key_evolves k key key.
Proof. by split. Qed.

Lemma evolves_trans k key1 key2 key3 : key_evolves k key1 key2 -> key_evolves k key2 key3 -> key_evolves k key1 key3.
Proof.
  intros [H1 H2 H3 H4] [H1' H2' H3' H4']. split; [congruence|congruence| |].
  - intros Hf Hr. destruct (H3 Hf Hr) as [E G]. destruct H3' as [E' G']; [done|congruence|]. split; congruence.
  - intros Hf Hor Hs. apply H4'; [done| |by apply H4]. destruct Hor as [Hr|Hg]; [|by right].
    left. by destruct (H3 Hf Hr) as [-> _].
Qed.

Lemma keys_later_refl w : keys_later w w.
Proof. split; [lia|]. intros k key Hk. exists key. split; [done|apply evolves_refl]. Qed.

Lemma keys_later_trans w1 w2 w3 : keys_later w1 w2 -> keys_later w2 w3 -> keys_later w1 w3.
Proof.
  intros [C1 L1] [C2 L2]. split; [lia|]. intros k key Hk. destruct (L1 k key Hk) as (key2 & Hk2 & E1).
  destruct (L2 k key2 Hk2) as (key3 & Hk3 & E2). exists key3. split; [done|by eapply evolves_trans].
Qed.

Lemma keys_frame r r' : apiKeys r' = apiKeys r -> keys_ok r -> keys_ok r'.
Proof. intros E [H1 H2 H3 H4 H5 H6]. split; rewrite ?E; done. Qed.

(** A stored key changes. *)
Lemma change_ok r r' k cur key' : keys_ok r -> apiKeys r !! k = Some cur ->
  apiKeys r' = <[k := key']> (apiKeys r) -> APIKeyRecord.ID key' = k ->
  APIKeyRecord.KeyHash key' = APIKeyRecord.KeyHash cur ->
  APIKeyRecord.ReplacesKeyID key' = APIKeyRecord.ReplacesKeyID cur ->
  (frozen k -> APIKeyRecord.ReplacedByKeyID key' = APIKeyRecord.ReplacedByKeyID cur) -> keys_ok r'.
Proof.
  intros [H1 H2 H3 H4 H5 H6] Hk E Hid Hh Hp Hr.
  assert (Hback : forall j x', apiKeys r' !! j = Some x' -> exists x, apiKeys r !! j = Some x /\
    APIKeyRecord.KeyHash x' = APIKeyRecord.KeyHash x /\ APIKeyRecord.ReplacesKeyID x' = APIKeyRecord.ReplacesKeyID x /\
    (frozen j -> APIKeyRecord.ReplacedByKeyID x' = APIKeyRecord.ReplacedByKeyID x)).
  { intros j x'. rewrite E. destruct (decide (k = j)) as [<-|Hne].
    - rewrite lookup_insert_eq. intros [= <-]. by exists cur.
    - rewrite lookup_insert_ne by done. intros Hj. by exists x'. }
  assert (Hforth : forall j x, apiKeys r !! j = Some x -> exists x', apiKeys r' !! j = Some x' /\
    APIKeyRecord.ReplacesKeyID x' = APIKeyRecord.ReplacesKeyID x).
  { intros j x Hj. rewrite E. destruct (decide (k = j)) as [<-|Hne].
    - rewrite lookup_insert_eq. exists key'. split; [done|congruence].
    - rewrite lookup_insert_ne by done. by exists x. }
  split.
  - rewrite E. by apply keyed_insert.
  - rewrite E. destruct (decide (k = "")) as [->|Hne]; [congruence|by rewrite lookup_insert_ne].
  - intros k1 k2 x1 x2 (y1 & E1 & A1 & _)%Hback (y2 & E2 & A2 & _)%Hback Eh. eapply H3; [done..|congruence].
  - intros j x' (x & Hj & _ & _ & Er)%Hback Hf. rewrite Er by done. intros Hn.
    destruct (H4 j x Hj Hf Hn) as (rep & Hrep & Hrp). destruct (Hforth _ _ Hrep) as (rep' & ? & ?).
    exists rep'. split; [done|congruence].
  - intros j x' i rep' (x & Hj & _ & _ & Er)%Hback (rep & Hi & _ & Ep & _)%Hback Hf Eq. rewrite Er by done.
    eapply H5; [done..|congruence].
  - intros j x' (x & Hj & _ & Ep & _)%Hback. rewrite Ep. intros Hn. destruct (H6 _ _ Hj Hn) as [y Hy].
    destruct (Hforth _ _ Hy) as (y' & ? & _). by exists y'.
Qed.

(** A new key is stored. *)
Lemma new_key_ok r r' key : keys_ok r -> apiKeys r' = <[APIKeyRecord.ID key := key]> (apiKeys r) ->
  APIKeyRecord.ID key <> ""%string -> apiKeys r !! APIKeyRecord.ID key = None ->
  (forall k old, apiKeys r !! k = Some old -> APIKeyRecord.KeyHash old <> APIKeyRecord.KeyHash key) ->
  APIKeyRecord.ReplacedByKeyID key = ""%string -> APIKeyRecord.ReplacesKeyID key = ""%string -> keys_ok r'.
Proof.
  intros [H1 H2 H3 H4 H5 H6] E Hne Hnew Hh Hr Hp.
  assert (Hcase : forall j x, apiKeys r' !! j = Some x -> j = APIKeyRecord.ID key /\ x = key \/ apiKeys r !! j = Some x).
  { intros j x. rewrite E. destruct (decide (APIKeyRecord.ID key = j)) as [<-|Hj].
    - rewrite lookup_insert_eq. intros [= <-]. by left.
    - rewrite lookup_insert_ne by done. by right. }
  assert (Hin : forall j x, apiKeys r !! j = Some x -> apiKeys r' !! j = Some x).
  { intros j x Hj. rewrite E, lookup_insert_ne; [done|congruence]. }
  split.
  - rewrite E. by apply keyed_insert.
  - rewrite E. by rewrite lookup_insert_ne.
  - intros k1 k2 x1 x2 [[-> ->]|E1]%Hcase [[-> ->]|E2]%Hcase Eh; [done| | |by eapply H3].
    + by destruct (Hh _ _ E2).
    + by destruct (Hh _ _ E1).
  - intros j x [[-> ->]|Hj]%Hcase Hf Hn; [done|]. destruct (H4 _ _ Hj Hf Hn) as (rep & ? & ?). exists rep. eauto.
  - intros j x i rep [[-> ->]|Hj]%Hcase [[-> ->]|Hi]%Hcase Hf Eq; [congruence| |congruence|by eapply H5].
    destruct (H6 _ _ Hi); congruence.
  - intros j x [[-> ->]|Hj]%Hcase Hn; [done|]. destruct (H6 _ _ Hj Hn) as [y Hy]. exists y. eauto.
Qed.

(** ** Guarantees of the critical sections *)

Notation ok := (fun w : Z * service_state => keys_ok (repository w.2)).
Notation promises := (guar ok keys_later key_present).
Notation relies := (rely ok keys_later key_present).

Lemma promise_frame ids n n' s s' : keys_ok (repository s) -> apiKeys (repository s') = apiKeys (repository s) ->
  clock s' = clock s -> promises ids (n, s) (n', s').
Proof.
  intros Hok E C. split_and!; cbn.
  - by eapply keys_frame.
  - split; cbn; [lia|]. intros k key Hk. exists key. rewrite E. split; [done|apply evolves_refl].
  - intros id (k & key & Hk & Hid). left. rewrite E in Hk. by exists k, key.
Qed.

Lemma promise_change ids n n' s s' k cur key' : keys_ok (repository s) -> apiKeys (repository s) !! k = Some cur ->
  apiKeys (repository s') = <[k := key']> (apiKeys (repository s)) -> clock s' = clock s ->
  APIKeyRecord.ID key' = k -> key_evolves k cur key' ->
  (frozen k -> APIKeyRecord.ReplacedByKeyID key' = APIKeyRecord.ReplacedByKeyID cur) ->
  promises ids (n, s) (n', s').
Proof.
  intros Hok Hk E C Hid Hev Hr. split_and!; cbn.
  - by eapply change_ok; [..|apply Hev|apply Hev|].
  - split; cbn; [lia|]. intros j x Hj. rewrite E. destruct (decide (k = j)) as [<-|Hne].
    + rewrite lookup_insert_eq. exists key'. split; [done|]. by rewrite Hk in Hj; injection Hj as <-.
    + rewrite lookup_insert_ne by done. exists x. split; [done|apply evolves_refl].
  - intros id (j & x & Hj & Hid'). left. rewrite E in Hj. destruct (decide (k = j)) as [<-|Hne].
    + rewrite lookup_insert_eq in Hj. injection Hj as <-. exists k, cur. split; [done|].
      by rewrite <- (evolves_hash _ _ _ Hev).
    + rewrite lookup_insert_ne in Hj by done. by exists j, x.
Qed.

Lemma promise_new ids n n' s s' key : keys_ok (repository s) ->
  apiKeys (repository s') = <[APIKeyRecord.ID key := key]> (apiKeys (repository s)) -> clock s' = clock s ->
  APIKeyRecord.ID key <> ""%string -> APIKeyRecord.ID key ∈ ids -> APIKeyRecord.KeyHash key ∈ ids ->
  (forall id, id ∈ ids -> ~ key_present id s) ->
  APIKeyRecord.ReplacedByKeyID key = ""%string -> APIKeyRecord.ReplacesKeyID key = ""%string ->
  promises ids (n, s) (n', s').
Proof.
  intros Hok E C Hne Hid Hh Hfresh Hr Hp.
  assert (Hnew : apiKeys (repository s) !! APIKeyRecord.ID key = None).
  { destruct (apiKeys (repository s) !! APIKeyRecord.ID key) as [x|] eqn:Ex; [|done].
    destruct (Hfresh _ Hid). exists (APIKeyRecord.ID key), x. auto. }
  split_and!; cbn.
  - eapply new_key_ok; [done..| |done|done]. intros k old Hk Eh. destruct (Hfresh _ Hh). exists k, old. auto.
  - split; cbn; [lia|]. intros j x Hj. rewrite E, lookup_insert_ne by congruence. exists x. split; [done|apply evolves_refl].
  - intros id (j & x & Hj & Hid'). rewrite E in Hj. destruct (decide (APIKeyRecord.ID key = j)) as [<-|Hj'].
    + rewrite lookup_insert_eq in Hj. injection Hj as <-. right. by destruct Hid' as [->| ->].
    + rewrite lookup_insert_ne in Hj by done. left. by exists j, x.
Qed.

(** A key is replaced by a new one. *)
Lemma rotated_ok r r' k cur key' rep : keys_ok r -> apiKeys r !! k = Some cur ->
  APIKeyRecord.ReplacedByKeyID cur = ""%string -> apiKeys r !! APIKeyRecord.ID rep = None ->
  apiKeys r' = <[APIKeyRecord.ID rep := rep]> (<[k := key']> (apiKeys r)) ->
  APIKeyRecord.ID key' = k -> APIKeyRecord.KeyHash key' = APIKeyRecord.KeyHash cur ->
  APIKeyRecord.ReplacesKeyID key' = APIKeyRecord.ReplacesKeyID cur ->
  APIKeyRecord.ReplacedByKeyID key' = APIKeyRecord.ID rep -> APIKeyRecord.ID rep <> ""%string ->
  APIKeyRecord.ReplacesKeyID rep = k -> APIKeyRecord.ReplacedByKeyID rep = ""%string ->
  (forall j old, apiKeys r !! j = Some old -> APIKeyRecord.KeyHash old <> APIKeyRecord.KeyHash rep) -> keys_ok r'.
Proof.
  intros [H1 H2 H3 H4 H5 H6] Hk Hcur Hnew E Hid Hh Hp Hr Hne Hrp Hrr Hfresh.
  assert (Hk' : k <> APIKeyRecord.ID rep) by congruence.
  assert (Hcase : forall j x, apiKeys r' !! j = Some x ->
    j = APIKeyRecord.ID rep /\ x = rep \/ j = k /\ x = key' \/ j <> k /\ apiKeys r !! j = Some x).
  { intros j x. rewrite E. destruct (decide (APIKeyRecord.ID rep = j)) as [<-|Hj].
    - rewrite lookup_insert_eq. intros [= <-]. by left.
    - rewrite lookup_insert_ne by done. destruct (decide (k = j)) as [<-|Hj'].
      + rewrite lookup_insert_eq. intros [= <-]. auto.
      + rewrite lookup_insert_ne by done. auto. }
  assert (Hold : forall j x, j <> k -> apiKeys r !! j = Some x -> apiKeys r' !! j = Some x).
  { intros j x Hj Hx. rewrite E, !lookup_insert_ne; [done|done|congruence]. }
  assert (Hrep : apiKeys r' !! APIKeyRecord.ID rep = Some rep) by (by rewrite E, lookup_insert_eq).
  assert (Hkey : apiKeys r' !! k = Some key') by (by rewrite E, lookup_insert_ne, lookup_insert_eq by done).
  assert (Hstays : forall j x, apiKeys r !! j = Some x -> is_Some (apiKeys r' !! j)).
  { intros j x Hj. destruct (decide (j = k)) as [->|Hjk]; [by exists key'|]. exists x. by apply Hold. }
  split.
  - rewrite E. apply keyed_insert; [|done]. by apply keyed_insert.
  - destruct (apiKeys r' !! "") as [x|] eqn:Ex; [|done].
    destruct (Hcase _ _ Ex) as [[? _]|[[<- _]|[_ ?]]]; congruence.
  - assert (Hback : forall j x, j <> APIKeyRecord.ID rep -> apiKeys r' !! j = Some x ->
      exists y, apiKeys r !! j = Some y /\ APIKeyRecord.KeyHash y = APIKeyRecord.KeyHash x).
    { intros j x Hj [[? _]|[[-> ->]|[_ Hx]]]%Hcase; [done|by exists cur|by exists x]. }
    intros k1 k2 x1 x2 E1 E2 Eh. destruct (decide (k1 = APIKeyRecord.ID rep)) as [->|N1], (decide (k2 = APIKeyRecord.ID rep)) as [->|N2].
    + done.
    + destruct (Hback _ _ N2 E2) as (y & Hy & Ey). destruct (Hfresh _ _ Hy). congruence.
    + destruct (Hback _ _ N1 E1) as (y & Hy & Ey). destruct (Hfresh _ _ Hy). congruence.
    + destruct (Hback _ _ N1 E1) as (y1 & Hy1 & Ey1), (Hback _ _ N2 E2) as (y2 & Hy2 & Ey2).
      eapply H3; [done..|congruence].
  - intros j x [[-> ->]|[[-> ->]|[Hj Hx]]]%Hcase Hf Hn; [done|exists rep; by rewrite Hr|].
    destruct (H4 _ _ Hx Hf Hn) as (y & Hy & Ey). destruct (decide (APIKeyRecord.ReplacedByKeyID x = k)) as [Ek|Nk].
    + rewrite Ek in *. exists key'. split; [done|]. rewrite Hp. congruence.
    + exists y. split; [by apply Hold|done].
  - intros j x i y [[-> ->]|[[-> ->]|[Hj Hx]]]%Hcase [[-> ->]|[[-> ->]|[Hi Hy]]]%Hcase Hf Eq.
    + congruence.
    + destruct (H6 k cur Hk); congruence.
    + destruct (H6 i y Hy); congruence.
    + done.
    + rewrite Hp in Eq. pose proof (H5 _ _ _ _ Hk Hk Hf Eq) as Ekk. congruence.
    + pose proof (H5 _ _ _ _ Hk Hy Hf Eq) as Ei. rewrite Hcur in Ei. congruence.
    + congruence.
    + rewrite Hp in Eq. exact (H5 _ _ _ _ Hx Hk Hf Eq).
    + exact (H5 _ _ _ _ Hx Hy Hf Eq).
  - intros j x [[-> ->]|[[-> ->]|[Hj Hx]]]%Hcase Hn.
    + rewrite Hrp. by exists key'.
    + rewrite Hp in *. destruct (H6 _ _ Hk Hn) as [y Hy]. by eapply Hstays.
    + destruct (H6 _ _ Hx Hn) as [y Hy]. by eapply Hstays.
Qed.

Lemma rotated_fields d key now gracePeriod (p := rotated_pair d key now gracePeriod) :
  (APIKeyRecord.ID p.1 = APIKeyRecord.ID key /\ APIKeyRecord.KeyHash p.1 = APIKeyRecord.KeyHash key /\
   APIKeyRecord.ReplacesKeyID p.1 = APIKeyRecord.ReplacesKeyID key /\
   APIKeyRecord.ReplacedByKeyID p.1 = new_key_id d /\
   (gracePeriod <= 0 -> APIKeyRecord.Status p.1 = APIKeyStatusDisabled)) /\
  APIKeyRecord.ID p.2 = new_key_id d /\ APIKeyRecord.KeyHash p.2 = hashAPIKey (raw_key d) /\
  APIKeyRecord.ReplacesKeyID p.2 = APIKeyRecord.ID key /\ APIKeyRecord.ReplacedByKeyID p.2 = ""%string.
Proof.
  unfold p, rotated_pair. destruct (APIKeyRecord.RotationFamilyID key =s ""), (Z.leb_spec gracePeriod 0); cbn;
    split_and!; (done || lia).
Qed.

(** The copy of a key that a call has read: the stored one has its hash and its
    predecessor. *)
Definition copy_of (key : APIKeyRecord.t) (r : MemoryRepository) : Prop :=
  exists cur, apiKeys r !! APIKeyRecord.ID key = Some cur /\
    APIKeyRecord.KeyHash cur = APIKeyRecord.KeyHash key /\
    APIKeyRecord.ReplacesKeyID cur = APIKeyRecord.ReplacesKeyID key.

Lemma copy_later key w w' : copy_of key (repository w.2) -> keys_later w w' -> copy_of key (repository w'.2).
Proof.
  intros (cur & Hk & Eh & Ep) [_ L]. destruct (L _ _ Hk) as (cur' & Hk' & [Eh' Ep' _ _]). exists cur'.
  split_and!; [done|congruence..].
Qed.

Lemma promise_rotate ids n n' s d key now gracePeriod audit_ expected (p := rotated_pair d key now gracePeriod) :
  keys_ok (repository s) -> copy_of key (repository s) ->
  new_key_id d ∈ ids -> hashAPIKey (raw_key d) ∈ ids -> (forall id, id ∈ ids -> ~ key_present id s) ->
  (graceless (APIKeyRecord.ID key) -> gracePeriod <= 0) ->
  promises ids (n, s) (n', (on_repository (RotateAPIKeyPair p.1 p.2 audit_ expected) s).2).
Proof.
  intros Hok (cur & Hk & Eh & Ep) Hid Hh Hfresh Hgrace.
  destruct (rotated_fields d key now gracePeriod) as [(A1 & A2 & A3 & A4 & A5) (B1 & B2 & B3 & B4)]. fold p in A1, A2, A3, A4, A5, B1, B2, B3, B4.
  clearbody p. unfold on_repository, RotateAPIKeyPair. cbn. rewrite A1. unfold mbind, M_bind, read, id, check, fail. cbn. rewrite Hk. cbn.
  destruct (negb (APIKeyRecord.ReplacedByKeyID cur =s "")) eqn:Er; [by apply promise_frame|cbn].
  destruct (negb (APIKeyRecord.UpdatedAt cur =? expected)) eqn:Eu; [by apply promise_frame|cbn].
  destruct (has (apiKeys _) _) eqn:Ehas; [by apply promise_frame|cbn].
  destruct (has (auditLogs _) _) eqn:Eaud; [by apply promise_frame|cbn]. boolify.
  assert (Hnew : apiKeys (repository s) !! APIKeyRecord.ID p.2 = None).
  { unfold has in Ehas. by destruct (_ !! APIKeyRecord.ID p.2). }
  assert (Hne : APIKeyRecord.ID p.2 <> ""%string) by (rewrite B1; done).
  split_and!; cbn.
  - eapply rotated_ok with (k := APIKeyRecord.ID key) (rep := p.2) (key' := p.1); try done; try congruence.
    intros j old Hj E. destruct (Hfresh _ Hh). exists j, old. split; [done|]. right. congruence.
  - split; cbn; [lia|]. intros j x Hj. destruct (decide (APIKeyRecord.ID key = j)) as [<-|Hjk].
    + exists p.1. rewrite lookup_insert_ne by congruence. rewrite lookup_insert_eq. split; [done|].
      rewrite Hk in Hj. injection Hj as <-. split; [congruence|congruence|congruence|].
      intros _ [?|Hg] _; [congruence|]. rewrite A5 by auto. done.
    + exists x. rewrite !lookup_insert_ne by congruence. split; [done|apply evolves_refl].
  - intros id (j & x & Hj & Hid'). cbn in Hj. destruct (decide (APIKeyRecord.ID p.2 = j)) as [<-|Hj2].
    + rewrite lookup_insert_eq in Hj. injection Hj as <-. right. destruct Hid' as [->| ->]; congruence.
    + rewrite lookup_insert_ne in Hj by done. left. destruct (decide (APIKeyRecord.ID key = j)) as [<-|Hjk].
      * rewrite lookup_insert_eq in Hj. injection Hj as <-. exists (APIKeyRecord.ID key), cur. split; [done|].
        destruct Hid' as [->| ->]; [by left|right; congruence].
      * rewrite lookup_insert_ne in Hj by done. by exists j, x.
Qed.

Lemma promise_same_key ids n n' s s' k cur key' : keys_ok (repository s) -> apiKeys (repository s) !! k = Some cur ->
  apiKeys (repository s') = <[k := key']> (apiKeys (repository s)) -> clock s' = clock s ->
  APIKeyRecord.ID key' = APIKeyRecord.ID cur -> APIKeyRecord.KeyHash key' = APIKeyRecord.KeyHash cur ->
  APIKeyRecord.ReplacesKeyID key' = APIKeyRecord.ReplacesKeyID cur ->
  APIKeyRecord.ReplacedByKeyID key' = APIKeyRecord.ReplacedByKeyID cur ->
  APIKeyRecord.RotationGraceExpiresAt key' = APIKeyRecord.RotationGraceExpiresAt cur ->
  (APIKeyRecord.Status cur <> APIKeyStatusActive -> APIKeyRecord.Status key' <> APIKeyStatusActive) ->
  promises ids (n, s) (n', s').
Proof.
  intros Hok Hk E C Hid Hh Hp Hr Hg Hs. eapply promise_change; [done..| | |done].
  - rewrite Hid. by apply (ok_keyed _ Hok).
  - by split; auto.
Qed.

Lemma promise_disable ids n n' s id now : keys_ok (repository s) ->
  promises ids (n, s) (n', (on_repository (DisableAPIKey id now) s).2).
Proof.
  intros Hok. unfold on_repository, DisableAPIKey, read, mbind, M_bind. cbn.
  destruct (apiKeys (repository s) !! id) as [cur|] eqn:Hk; [|by apply promise_frame].
  eapply promise_same_key; [done|exact Hk|reflexivity|done..].
Qed.

Lemma promise_last_used ids n n' s id now : keys_ok (repository s) ->
  promises ids (n, s) (n', (on_repository (UpdateAPIKeyLastUsed id now) s).2).
Proof.
  intros Hok. unfold on_repository, UpdateAPIKeyLastUsed, read, mbind, M_bind. cbn.
  destruct (apiKeys (repository s) !! id) as [cur|] eqn:Hk; [|by apply promise_frame].
  eapply promise_same_key; [done|exact Hk|reflexivity|done..].
Qed.

(** ** Calls that keep the guarantees *)

Definition fresh (ids : gset string) (w : Z * service_state) : Prop :=
  forall id, id ∈ ids -> ~ key_present id w.2.

Lemma fresh_relies ids w w' : relies ids w w' -> fresh ids w -> fresh ids w'.
Proof. intros (_ & _ & Hp) Hf id Hid Hpr. apply (Hf id Hid). by apply Hp. Qed.

Definition safe {A} (ids : gset string) (p : serv A) (w : Z * service_state) : Prop :=
  holds max_int64 ok keys_later key_present ids p (fun _ _ => True) w.

Lemma tick_ok n s : ok (n, s) -> ok (n + 1, s).
Proof. done. Qed.
Lemma key_tick_later n s : keys_later (n, s) (n + 1, s).
Proof. split; cbn; [lia|]. intros k key Hk. exists key. split; [done|apply evolves_refl]. Qed.

Lemma safe_reader {A} ids (p : serv A) w : reader p -> keys_ok (repository w.2) -> safe ids p w.
Proof.
  intros Hp Hw. eapply call_reader; eauto using keys_later_refl, keys_later_trans, tick_ok, key_tick_later.
Qed.

Lemma safe_bind {A B} ids (p : serv A) (f : A -> serv B) w : reader p -> keys_ok (repository w.2) ->
  (forall a w', relies ids w w' -> safe ids (f a) w') -> safe ids (p ≫= f) w.
Proof.
  intros Hp Hw Hf. eapply call_bind; eauto using keys_later_refl, keys_later_trans, tick_ok, key_tick_later.
  eapply call_reader; eauto using keys_later_refl, keys_later_trans, tick_ok, key_tick_later.
  intros [a|e] w' Hr; [by apply Hf|done].
Qed.

(** A look-up, and the stored key it has found. *)
Lemma safe_by_id `{range : MapRange} {B} ids id (f : APIKeyRecord.t -> serv B) w : keys_ok (repository w.2) ->
  (forall key w', relies ids w w' -> copy_of key (repository w'.2) -> APIKeyRecord.ID key = TrimSpace id ->
     safe ids (f key) w') ->
  safe ids (apiKeyByID id ≫= f) w.
Proof.
  intros Hw Hf. unfold apiKeyByID, by_id. destruct (TrimSpace id =s "") eqn:Ei; [by apply call_ret|].
  unfold safe. eapply call_look; eauto using keys_later_refl, keys_later_trans, tick_ok, key_tick_later.
  intros w' Hr. cbn. destruct (List.find _ _) as [key|] eqn:Ef; [|by apply call_ret].
  apply List.find_some in Ef as [Hin Hid]. apply Hf; [done| |by apply String.eqb_eq].
  apply list_elem_of_In, elem_of_sort_by, elem_of_map_values in Hin as [k Hk].
  exists key. split_and!; [|done..]. by rewrite (ok_keyed _ (proj1 Hr) _ _ Hk).
Qed.

Lemma safe_section {A B} ids (m : M A) (f : A -> serv B) w :
  (forall w', relies ids w w' -> promises ids w' (w'.1 + 1, (on_repository m w'.2).2) /\
     forall a, safe ids (f a) (w'.1 + 1, (on_repository m w'.2).2)) ->
  safe ids (section m ≫= f) w.
Proof.
  intros H. apply call_act. intros w' Hr. destruct (H w' Hr) as [Hp Hf]. split; [done|].
  destruct (on_repository m w'.2).1; [apply Hf|by apply call_ret].
Qed.

Lemma safe_last {A} ids (m : M A) w :
  (forall w', relies ids w w' -> promises ids w' (w'.1 + 1, (on_repository m w'.2).2)) -> safe ids (section m) w.
Proof.
  intros H. apply call_act. intros w' Hr. split; [by apply H|]. by apply call_ret.
Qed.

Lemma safe_audit ids w random actor action resourceType resourceID summary : keys_ok (repository w.2) ->
  safe ids (audit random actor action resourceType resourceID summary) w.
Proof.
  intros Hw. unfold audit. apply safe_bind; [apply reader_now|done|]. intros now w' Hr. apply safe_last.
  intros [n s] Hr'. apply promise_frame; [apply Hr'|done..].
Qed.

Lemma safe_auditApplication ids w random actor action resourceType resourceID summary app prn :
  keys_ok (repository w.2) ->
  safe ids (auditApplication random actor action resourceType resourceID summary app prn) w.
Proof.
  intros Hw. unfold auditApplication. apply safe_bind; [apply reader_now|done|]. intros now w' Hr. apply safe_last.
  intros [n s] Hr'. apply promise_frame; [apply Hr'|done..].
Qed.

Lemma safe_then {A B} ids (p : serv A) (f : A -> serv B) w : keys_ok (repository w.2) -> safe ids p w ->
  (forall a w', keys_ok (repository w'.2) -> safe ids (f a) w') -> safe ids (p ≫= f) w.
Proof.
  intros Hw Hp Hf. eapply call_bind; eauto using keys_later_refl, keys_later_trans, tick_ok, key_tick_later.
  eapply holds_impl; [|exact Hp]. intros [a|e] w' Hok _; [by apply Hf|done].
Qed.

Lemma safe_audit_key ids w d actor action id summary identity : keys_ok (repository w.2) ->
  safe ids (audit_key d actor action id summary identity) w.
Proof. destruct identity; [apply safe_auditApplication|apply safe_audit]. Qed.

Lemma safe_ret {A} ids (x : result go_error A) w : safe ids (Ret x) w.
Proof. by apply call_ret. Qed.

(** ** A call, section by section *)

(** The sections of a call, each on a store of its own: [states] are the stores as
    the sections find them, whatever the other calls have made of them in between.
    The result is the answer and the stores as the sections leave them; there is
    none if [states] is not as long as the call. *)
Fixpoint run_at {S A} (p : prog S A) (states : list S) : option (A * list S) :=
  match p, states with
  | Ret a, [] => Some (a, [])
  | Atomic act k, s :: states =>
      '(a, afters) ← run_at (k (act s).1) states;
      Some (a, (act s).2 :: afters)
  | _, _ => None
  end.

(** One schedule: nobody comes between. *)
Fixpoint alone {S A} (p : prog S A) (s : S) : list S :=
  match p with
  | Ret _ => []
  | Atomic act k => s :: alone (k (act s).1) (act s).2
  end.

Lemma run_at_bind {A B} (p : serv A) (f : A -> serv B) states x afters :
  run_at (p ≫= f) states = Some (Ok x, afters) ->
  exists s1 s2 a f1 f2, states = s1 ++ s2 /\ afters = f1 ++ f2 /\
    run_at p s1 = Some (Ok a, f1) /\ run_at (f a) s2 = Some (Ok x, f2).
Proof.
  unfold mbind, serv_mbind, serv_bind. revert states afters.
  induction p as [[a|e]|X act k IH]; intros states afters; cbn [prog_bind].
  - intros H. by exists [], states, a, [], afters.
  - cbn. by destruct states.
  - destruct states as [|s states]; cbn; [done|].
    intros ([y fs] & H & [= -> <-])%bind_Some. apply IH in H as (s1 & s2 & a & f1 & f2 & -> & -> & H1 & H2).
    exists (s :: s1), s2, a, ((act s).2 :: f1), f2. cbn. by rewrite H1.
Qed.

Lemma run_at_reader {A} (p : serv A) states x afters :
  reader p -> run_at p states = Some (x, afters) -> afters = states.
Proof.
  intros Hp. revert states afters. induction Hp as [A y|A X act k Hact _ IH]; intros states afters; cbn.
  - destruct states; [by intros [= _ <-]|done].
  - destruct states as [|s states]; [done|]. intros ([y fs] & H & [= -> <-])%bind_Some.
    apply IH in H as ->. by rewrite Hact.
Qed.

Lemma run_at_yields {A} (p : serv A) P states x afters :
  yields p P -> run_at p states = Some (Ok x, afters) -> P x.
Proof.
  revert states afters. induction p as [[a|e]|X act k IH]; intros states afters; cbn.
  - destruct states; [by intros ? [= <- _]|done].
  - by destruct states.
  - destruct states as [|s states]; [done|]. intros HP ([y fs] & H & [= -> <-])%bind_Some. by eapply IH.
Qed.

(** A reader and what follows it. *)
Lemma run_at_then {A B} (p : serv A) (f : A -> serv B) states x afters :
  reader p -> run_at (p ≫= f) states = Some (Ok x, afters) ->
  exists looked s2 a f2, states = looked ++ s2 /\ afters = looked ++ f2 /\
    run_at p looked = Some (Ok a, looked) /\ run_at (f a) s2 = Some (Ok x, f2).
Proof.
  intros Hp (s1 & s2 & a & f1 & f2 & -> & -> & H1 & H2)%run_at_bind.
  pose proof (run_at_reader _ _ _ _ Hp H1) as ->. by exists s1, s2, a, f2.
Qed.

(** The keys of a store. *)
Notation keys_of s := (apiKeys (repository s)).
Definition same_keys (s s' : service_state) : Prop := keys_of s' = keys_of s.

Lemma run_at_audit_key d actor action id summary identity states afters :
  run_at (audit_key d actor action id summary identity) states = Some (Ok tt, afters) ->
  Forall2 same_keys states afters.
Proof.
  destruct identity; cbn; (destruct states as [|s1 [|s2 [|]]]; [done|done| |done]);
    intros [= <-]; (constructor; [done|constructor; [done|constructor]]).
Qed.

(** What a change of a key does not touch: who the key is, when it was made and
    last used, and where it stands in its rotations. *)
Definition key_history (key : APIKeyRecord.t) :=
  (APIKeyRecord.ID key, APIKeyRecord.KeyHash key, APIKeyRecord.Fingerprint key, APIKeyRecord.Prefix key,
   APIKeyRecord.ReplacesKeyID key, APIKeyRecord.ReplacedByKeyID key, APIKeyRecord.RotationGraceExpiresAt key,
   APIKeyRecord.LifecycleStatus key, APIKeyRecord.LastUsedAt key, APIKeyRecord.CreatedAt key).

(** What a call that changes [key], as it has read it, leaves: the sections look,
    up to one that stores the record over whatever is there. *)
Record overwrites (key updated : APIKeyRecord.t) (req : APIKeyUpdateRequest.t)
    (states afters : list service_state) : Prop := {
  overwrites_at : exists looked before after later later',
    states = looked ++ before :: later /\ afters = looked ++ after :: later' /\
    keys_of after = <[APIKeyRecord.ID key := updated]> (keys_of before) /\ Forall2 same_keys later later';
  overwrites_history : key_history updated = key_history key;
  overwrites_status : APIKeyRecord.Status updated =
    if APIKeyUpdateRequest.Status req =s "" then APIKeyRecord.Status key else APIKeyUpdateRequest.Status req;
  overwrites_name : APIKeyRecord.Name updated = TrimSpace (APIKeyUpdateRequest.Name req);
  overwrites_models : APIKeyRecord.ModelAllowlist updated = cleanStringList (APIKeyUpdateRequest.ModelAllowlist req);
}.

Lemma overwrites_after key updated req looked states afters :
  overwrites key updated req states afters -> overwrites key updated req (looked ++ states) (looked ++ afters).
Proof.
  intros [(l & before & after & later & later' & -> & -> & H1 & H2) H3 H4 H5 H6]. split; try done.
  exists (looked ++ l), before, after, later, later'. by rewrite <- !app_assoc.
Qed.

(** ** The calls *)

Section Calls.
Context `{range : MapRange} `{unicode : UnicodeCase}.
#[local] Hint Resolve reader_by_id reader_validate_policy : service.

Lemma reader_identity applicationID principalID : reader (applicationCredentialIdentity_ applicationID principalID).
Proof. unfold applicationCredentialIdentity_, applicationByID, gatewayPrincipalByID. reader_tac. Qed.
#[local] Hint Resolve reader_identity : service.
Lemma reader_active_identity applicationID principalID :
  reader (activeApplicationCredentialIdentity applicationID principalID).
Proof. unfold activeApplicationCredentialIdentity. reader_tac. Qed.
#[local] Hint Resolve reader_active_identity : service.
Lemma reader_authenticated key : reader (authenticated_identity key).
Proof. unfold authenticated_identity. reader_tac. Qed.
#[local] Hint Resolve reader_authenticated : service.
Lemma reader_governance policyID : reader (validateGovernancePolicyReference policyID).
Proof. unfold validateGovernancePolicyReference, governancePolicyByID. reader_tac. Qed.
Lemma reader_owner keyType ownerUserID : reader (validateAPIKeyOwner keyType ownerUserID).
Proof. unfold validateAPIKeyOwner, workspaceUserByID. reader_tac. Qed.
Lemma reader_policy key : reader (effectiveGatewayPolicy key).
Proof. unfold effectiveGatewayPolicy. reader_tac. Qed.
#[local] Hint Resolve reader_governance reader_owner reader_policy : service.

(** What is known of a state once others have run. *)
Ltac advance :=
  match goal with Hr : rely _ _ _ _ ?w ?w' |- _ =>
    let Hok := fresh "Hok" in pose proof (proj1 Hr) as Hok; cbn beta in Hok;
    repeat match goal with
      | Hf : fresh _ w |- _ => apply (fresh_relies _ _ _ Hr) in Hf
      | Hc : copy_of ?key (repository w.2) |- _ =>
          apply (fun H => copy_later key w w' H (proj1 (proj2 Hr))) in Hc
      end; clear Hr
  end.
Ltac calls := repeat lazymatch goal with
  | |- safe _ (mret _) _ => apply safe_ret
  | |- safe _ (Ret _) _ => apply safe_ret
  | |- safe _ (throw _) _ => apply safe_ret
  | |- safe _ (match ?x with _ => _ end) _ => destruct x
  | |- safe _ (audit_key _ _ _ _ _ _ ≫= _) _ => apply safe_then; [assumption|apply safe_audit_key; assumption|intros ? ? ?]
  | |- safe _ (audit _ _ _ _ _ _) _ => apply safe_audit; assumption
  | |- safe _ (auditApplication _ _ _ _ _ _ _ _) _ => apply safe_auditApplication; assumption
  | |- safe _ (apiKeyByID _ ≫= _) _ => apply safe_by_id; [assumption|intros ? ? ? ? ?; advance]
  | |- safe _ (_ ≫= _) _ => apply safe_bind; [solve [reader_tac]|assumption|intros ? ? ?; advance]
  end.

Definition created (d : key_draws) : gset string :=
  {[TrimSpace (new_key_id d); hashAPIKey (TrimSpace (raw_key d))]}.

(** A record made for a new key. *)
Definition new_record (d : key_draws) (key : APIKeyRecord.t) : Prop :=
  APIKeyRecord.ID key <> ""%string /\ APIKeyRecord.ID key = TrimSpace (new_key_id d) /\
  APIKeyRecord.KeyHash key = hashAPIKey (TrimSpace (raw_key d)) /\
  APIKeyRecord.ReplacedByKeyID key = ""%string /\ APIKeyRecord.ReplacesKeyID key = ""%string.

Lemma reader_build d req identity id rawKey family now : reader (buildAPIKeyRecord d req identity id rawKey family now).
Proof. unfold buildAPIKeyRecord. reader_tac. Qed.

Lemma yields_build d req identity family now :
  yields (buildAPIKeyRecord d req identity (new_key_id d) (raw_key d) family now) (new_record d).
Proof.
  unfold buildAPIKeyRecord. do 7 (eapply yields_bind; [apply yields_any|intros ? _]).
  destruct a5 as [keyType owner]. eapply yields_bind; [apply yields_any|intros _ _].
  eapply yields_bind; [apply yields_refuse|intros [] Hc]. cbn beta in Hc. apply yields_mret. boolify.
  unfold applyAPIKeyPrincipal. destruct identity; cbn; destruct (TrimSpace family =s ""); split_and!; done.
Qed.

Lemma safe_createAPIKey d actor req identity w : keys_ok (repository w.2) -> fresh (created d) w ->
  safe (created d) (createAPIKey d actor req identity) w.
Proof.
  intros Hw Hf. unfold createAPIKey. apply safe_bind; [apply reader_now|done|]. intros now w1 Hr. advance.
  eapply call_bind; eauto using keys_later_refl, keys_later_trans, tick_ok, key_tick_later.
  eapply call_reader_yields; eauto using keys_later_refl, keys_later_trans, tick_ok, key_tick_later;
    [apply reader_build|apply yields_build|]. intros [key|e] w2 Hr HP; [|by intros].
  specialize (HP key eq_refl) as (Hne & Hid & Hh & Hr1 & Hr2). advance. apply safe_section. intros [n s] Hr. advance.
  assert (Hp : promises (created d) (n, s) (n + 1, (on_repository (SaveAPIKey key) s).2)).
  { eapply promise_new with (key := key); [done..| | |done|done|done];
      rewrite ?Hid, ?Hh; unfold created; set_solver. }
  split; [done|]. intros []. pose proof (proj1 Hp) as Hok'. calls.
Qed.

(** What identifies a key. *)
Definition key_identity (key : APIKeyRecord.t) : string * string * string :=
  (APIKeyRecord.ID key, APIKeyRecord.KeyHash key, APIKeyRecord.ReplacesKeyID key).

Lemma principal_identity d key identity : key_identity (applyAPIKeyPrincipal d key identity) = key_identity key.
Proof. unfold applyAPIKeyPrincipal. destruct identity; cbn; by destruct (_ =s ""). Qed.

Lemma safe_save ids w key key' (f : unit -> serv APIKeyRecord.t) : keys_ok (repository w.2) ->
  copy_of key (repository w.2) -> ~ frozen (APIKeyRecord.ID key) -> key_identity key' = key_identity key ->
  (forall w', keys_ok (repository w'.2) -> safe ids (f tt) w') -> safe ids (section (SaveAPIKey key') ≫= f) w.
Proof.
  intros Hw Hc Hf E Hthen. injection E as E1 E2 E3. apply safe_section. intros [n s] Hr. advance.
  assert (Hp : promises ids (n, s) (n + 1, (on_repository (SaveAPIKey key') s).2)).
  { destruct Hc as (cur & Hk & Eh & Ep).
    eapply promise_change with (k := APIKeyRecord.ID key) (key' := key'); [done|exact Hk| |done|done| |by intros ?].
    - cbn. by rewrite E1.
    - by split; [congruence|congruence|intros ?..]. }
  split; [done|]. intros []. apply Hthen, Hp.
Qed.

Lemma safe_updateAPIKey d actor key set_lists req w : keys_ok (repository w.2) -> copy_of key (repository w.2) ->
  ~ frozen (APIKeyRecord.ID key) -> safe ∅ (updateAPIKey d actor key set_lists req) w.
Proof.
  intros Hw Hc Hf. unfold updateAPIKey. calls. eapply safe_save; [done..| |intros; calls].
  etransitivity; [|etransitivity; [apply principal_identity|]]; reflexivity.
Qed.

Lemma principal_history d key identity :
  key_history (applyAPIKeyPrincipal d key identity) = key_history key /\
  APIKeyRecord.Status (applyAPIKeyPrincipal d key identity) = APIKeyRecord.Status key /\
  APIKeyRecord.Name (applyAPIKeyPrincipal d key identity) = APIKeyRecord.Name key /\
  APIKeyRecord.ModelAllowlist (applyAPIKeyPrincipal d key identity) = APIKeyRecord.ModelAllowlist key.
Proof. unfold applyAPIKeyPrincipal. destruct identity; cbn; by destruct (_ =s ""). Qed.

(** Drop the readers a run begins with. *)
Ltac look H := apply run_at_then in H as (? & ? & ? & ? & -> & -> & _ & H);
  [apply overwrites_after|solve [reader_tac]]; cbv beta in H.

Lemma updateAPIKey_overwrites d actor key set_lists req states updated afters :
  run_at (updateAPIKey d actor key set_lists req) states = Some (Ok updated, afters) ->
  overwrites key updated req states afters.
Proof.
  intros H. unfold updateAPIKey in H. cbv zeta in H. do 8 look H.
  match type of H with run_at (match ?x with _ => _ end) _ = _ => destruct x as [keyType owner] end.
  do 3 look H.
  match type of H with run_at (section (SaveAPIKey ?k) ≫= _) _ = _ => set (key' := k) in H end.
  assert (Hk : key_history key' = key_history key /\ APIKeyRecord.Status key' =
      (if APIKeyUpdateRequest.Status req =s "" then APIKeyRecord.Status key else APIKeyUpdateRequest.Status req) /\
    APIKeyRecord.Name key' = TrimSpace (APIKeyUpdateRequest.Name req) /\
    APIKeyRecord.ModelAllowlist key' = cleanStringList (APIKeyUpdateRequest.ModelAllowlist req)).
  { match goal with key' := ?k <| APIKeyRecord.UpdatedAt := _ |> |- _ =>
      match k with applyAPIKeyPrincipal d ?k0 ?identity =>
        destruct (principal_history d k0 identity) as (P1 & P2 & P3 & P4) end end.
    unfold key'. split_and!; [etransitivity; [|etransitivity; [exact P1|reflexivity]]; reflexivity|exact P2|exact P3|exact P4]. }
  destruct Hk as (K1 & K2 & K3 & K4). clearbody key'.
  apply run_at_bind in H as (s1 & s2 & u & f1 & f2 & -> & -> & Hs & H).
  apply run_at_bind in H as (s3 & s4 & [] & f3 & f4 & -> & -> & Ha & H).
  destruct s4; [|done]. injection H as -> <-. apply run_at_audit_key in Ha.
  destruct s1 as [|before [|]]; [done| |done]. cbn in Hs. injection Hs as _ <-.
  split; try done. exists [], before, (before <| repository := (repository before).[apiKeys]:[APIKeyRecord.ID updated] <- updated |>), s3, f3.
  rewrite !app_nil_r. split_and!; try done. injection K1 as K1. cbn. by rewrite K1.
Qed.

(** The record a call changes is the one it has read. *)
Lemma run_at_key id states key afters :
  run_at (apiKeyByID id) states = Some (Ok key, afters) ->
  exists first, states = [first] /\ (exists k, keys_of first !! k = Some key) /\ APIKeyRecord.ID key = TrimSpace id.
Proof.
  unfold apiKeyByID, by_id. destruct (TrimSpace id =s ""); [by destruct states|].
  destruct states as [|first states]; [done|]. cbn. destruct (List.find _ _) as [k|] eqn:Ef.
  - destruct states; [|done]. intros [= <- _]. exists first.
    apply List.find_some in Ef as [Hin Hid]. split_and!; [done| |by apply String.eqb_eq].
    by apply list_elem_of_In, elem_of_sort_by, elem_of_map_values in Hin.
  - by destruct states.
Qed.

Lemma UpdateAPIKey_overwrites d actor id set_lists req states updated afters :
  run_at (UpdateAPIKey d actor id set_lists req) states = Some (Ok updated, afters) ->
  exists first rest rest' key,
    states = first :: rest /\ afters = first :: rest' /\
    (exists k, keys_of first !! k = Some key) /\ APIKeyRecord.ID key = TrimSpace id /\
    overwrites key updated req rest rest'.
Proof.
  unfold UpdateAPIKey. intros H. apply run_at_then in H as (s1 & s2 & key & f2 & -> & -> & Hk & H); [|solve [reader_tac]].
  apply run_at_key in Hk as (first & -> & Hin & Eid). exists first, s2, f2, key. split_and!; try done.
  do 2 look H. by eapply updateAPIKey_overwrites.
Qed.

Lemma UpdateApplicationAPIKey_overwrites d actor id set_lists req states updated afters :
  run_at (UpdateApplicationAPIKey d actor id set_lists req) states = Some (Ok updated, afters) ->
  exists first rest rest' key,
    states = first :: rest /\ afters = first :: rest' /\
    (exists k, keys_of first !! k = Some key) /\ APIKeyRecord.ID key = TrimSpace id /\
    overwrites key updated req rest rest'.
Proof.
  unfold UpdateApplicationAPIKey. intros H. apply run_at_then in H as (s1 & s2 & key & f2 & -> & -> & Hk & H); [|solve [reader_tac]].
  apply run_at_key in Hk as (first & -> & Hin & Eid). exists first, s2, f2, key. split_and!; try done.
  do 6 look H. by eapply updateAPIKey_overwrites.
Qed.

Lemma safe_UpdateAPIKey d actor id set_lists req w : keys_ok (repository w.2) -> ~ frozen (TrimSpace id) ->
  safe ∅ (UpdateAPIKey d actor id set_lists req) w.
Proof.
  intros Hw Hf. unfold UpdateAPIKey. calls. eapply safe_updateAPIKey; [done..|congruence].
Qed.

Lemma safe_UpdateApplicationAPIKey d actor id set_lists req w : keys_ok (repository w.2) -> ~ frozen (TrimSpace id) ->
  safe ∅ (UpdateApplicationAPIKey d actor id set_lists req) w.
Proof.
  intros Hw Hf. unfold UpdateApplicationAPIKey. calls. eapply safe_updateAPIKey; [done..|congruence].
Qed.

Definition rotated (d : key_draws) : gset string := {[new_key_id d; hashAPIKey (raw_key d)]}.

Lemma safe_rotateAPIKey d actor key identity gracePeriod w : keys_ok (repository w.2) -> copy_of key (repository w.2) ->
  fresh (rotated d) w -> (graceless (APIKeyRecord.ID key) -> gracePeriod <= 0) ->
  safe (rotated d) (rotateAPIKey d actor key identity gracePeriod) w.
Proof.
  intros Hw Hc Hf Hg. unfold rotateAPIKey.
  do 2 (apply safe_bind; [solve [reader_tac]|assumption|intros ? ? ?; advance]).
  destruct (rotated_pair d key a0 gracePeriod) as [previous replacement] eqn:Ep.
  apply safe_bind; [solve [reader_tac]|assumption|intros ? ? ?; advance].
  apply safe_section. intros [n s] Hr. advance.
  match goal with |- guar _ _ _ _ _ (_, (on_repository (RotateAPIKeyPair _ _ ?audit_ ?expected) _).2) /\ _ =>
    assert (Hp : promises (rotated d) (n, s)
      (n + 1, (on_repository (RotateAPIKeyPair previous replacement audit_ expected) s).2)) end.
  { pose proof (promise_rotate (rotated d) n (n + 1) s d key a0 gracePeriod) as Hp. rewrite Ep in Hp.
    apply Hp; [done..| | |done|done]; unfold rotated; set_solver. }
  split; [exact Hp|]. intros []. calls.
Qed.

Lemma safe_RotateAPIKeyWithGrace d actor id seconds w : keys_ok (repository w.2) -> fresh (rotated d) w ->
  (graceless (TrimSpace id) -> seconds <= 0) -> safe (rotated d) (RotateAPIKeyWithGrace d actor id seconds) w.
Proof.
  intros Hw Hf Hg. unfold RotateAPIKeyWithGrace. calls. apply safe_rotateAPIKey; [done..|].
  intros Hk. assert (graceless (TrimSpace id)) by congruence. unfold second. specialize (Hg H). lia.
Qed.

Lemma safe_RotateApplicationAPIKeyWithGrace d actor id seconds w : keys_ok (repository w.2) -> fresh (rotated d) w ->
  (graceless (TrimSpace id) -> seconds <= 0) ->
  safe (rotated d) (RotateApplicationAPIKeyWithGrace d actor id seconds) w.
Proof.
  intros Hw Hf Hg. unfold RotateApplicationAPIKeyWithGrace. calls. apply safe_rotateAPIKey; [done..|].
  intros Hk. assert (graceless (TrimSpace id)) by congruence. unfold second. specialize (Hg H). lia.
Qed.

Lemma safe_disable {B} ids id now (f : unit -> serv B) w : keys_ok (repository w.2) ->
  (forall w', keys_ok (repository w'.2) -> safe ids (f tt) w') -> safe ids (section (DisableAPIKey id now) ≫= f) w.
Proof.
  intros Hw Hthen. apply safe_section. intros [n s] Hr. advance.
  assert (Hp : promises ids (n, s) (n + 1, (on_repository (DisableAPIKey id now) s).2)) by (by apply promise_disable).
  split; [done|]. intros []. apply Hthen, Hp.
Qed.

Lemma safe_DisableAPIKey d actor id w : keys_ok (repository w.2) -> safe ∅ (service_DisableAPIKey d actor id) w.
Proof. intros Hw. unfold service_DisableAPIKey. calls. apply safe_disable; [done|intros; calls]. Qed.

Lemma safe_DisableApplicationAPIKey d actor id w : keys_ok (repository w.2) ->
  safe ∅ (DisableApplicationAPIKey d actor id) w.
Proof. intros Hw. unfold DisableApplicationAPIKey. calls. apply safe_disable; [done|intros; calls]. Qed.

Lemma safe_last_used {B} ids id now (f : unit -> serv B) w : keys_ok (repository w.2) ->
  (forall w', keys_ok (repository w'.2) -> safe ids (f tt) w') -> safe ids (section (UpdateAPIKeyLastUsed id now) ≫= f) w.
Proof.
  intros Hw Hthen. apply safe_section. intros [n s] Hr. advance.
  assert (Hp : promises ids (n, s) (n + 1, (on_repository (UpdateAPIKeyLastUsed id now) s).2)) by (by apply promise_last_used).
  split; [done|]. intros []. apply Hthen, Hp.
Qed.

Lemma safe_CreateAPIKey d actor req w : keys_ok (repository w.2) -> fresh (created d) w ->
  safe (created d) (CreateAPIKey d actor req) w.
Proof. intros Hw Hf. unfold CreateAPIKey. calls. by apply safe_createAPIKey. Qed.

Lemma safe_CreateApplicationAPIKey d actor req w : keys_ok (repository w.2) -> fresh (created d) w ->
  safe (created d) (CreateApplicationAPIKey d actor req) w.
Proof. intros Hw Hf. unfold CreateApplicationAPIKey. calls. by apply safe_createAPIKey. Qed.

(** ** Authentication among other calls *)

Definition for_key (key : APIKeyRecord.t) (auth : GatewayAuthContext.t) : Prop :=
  key_identity (GatewayAuthContext.APIKey auth) = key_identity key.

Lemma yields_finish key now flag : yields (finish_authentication key now flag) (for_key key).
Proof.
  unfold finish_authentication. eapply yields_bind; [apply yields_any|intros identity _].
  eapply yields_bind with (P := fun k => key_identity k = key_identity key).
  { destruct flag; [|done]. eapply yields_bind; [apply yields_any|done]. }
  intros key' E. eapply yields_bind; [apply yields_any|intros [policy source] _]. exact E.
Qed.

Lemma safe_finish key now flag w : keys_ok (repository w.2) -> safe ∅ (finish_authentication key now flag) w.
Proof.
  intros Hw. unfold finish_authentication. calls. destruct flag.
  - apply safe_then; [done| |].
    + apply safe_last_used; [done|]. intros. apply safe_ret.
    + intros key' w1 Hw1. calls.
  - calls.
Qed.

Lemma safe_authenticate raw flag w : keys_ok (repository w.2) -> safe ∅ (authenticateGatewayKey raw flag) w.
Proof. intros Hw. unfold authenticateGatewayKey. do 2 calls. all: by apply safe_finish. Qed.

Lemma safe_yields {A} ids (p : serv A) (P : A -> Prop) w : keys_ok (repository w.2) -> safe ids p w -> yields p P ->
  holds max_int64 ok keys_later key_present ids p (fun x w' => (forall a, x = Ok a -> P a) /\ keys_later w w') w.
Proof.
  intros Hw Hp Hy. eapply holds_grows; eauto using keys_later_refl, keys_later_trans.
  unfold safe in Hp. clear Hw. revert w Hp Hy. induction p as [x|X act k IH]; intros w Hp Hy w' Hr.
  - intros a ->. exact Hy.
  - intros Hb. destruct (Hp w' Hr Hb) as [Hg Hk]. split; [done|]. apply IH; [exact Hk|apply Hy].
Qed.

(** An accepted key: it was stored, active and of the presented text at one moment
    of the call, and neither expired nor retired at a later one. *)
Definition accepted (raw : string) (w w' : Z * service_state) (auth : GatewayAuthContext.t) : Prop :=
  exists w1 w2 key, keys_later w w1 /\ keys_later w1 w2 /\ keys_later w2 w' /\
    apiKeys (repository w1.2) !! APIKeyRecord.ID key = Some key /\
    APIKeyRecord.KeyHash key = hashAPIKey (TrimSpace raw) /\ APIKeyRecord.Status key = APIKeyStatusActive /\
    key_expired key (clock w2.2) = false /\ key_retired key (clock w2.2) = false /\ for_key key auth.

Lemma authenticate_spec raw flag w : keys_ok (repository w.2) ->
  holds max_int64 ok keys_later key_present ∅ (authenticateGatewayKey raw flag)
    (fun x w' => forall auth, x = Ok auth -> accepted raw w w' auth) w.
Proof.
  intros Hw. unfold authenticateGatewayKey. destruct (TrimSpace raw =s ""); [by apply call_ret|].
  eapply call_look; eauto using keys_later_refl, keys_later_trans, tick_ok, key_tick_later. intros w1 Hr1. cbn.
  destruct (FindAPIKeyByHash _ _) as [key|] eqn:Ef; [|by apply call_ret].
  destruct (APIKeyRecord.Status key <>s APIKeyStatusActive) eqn:Es; [by apply call_ret|].
  eapply call_look; eauto using keys_later_refl, keys_later_trans, tick_ok, key_tick_later. intros w2 Hr2. cbn.
  destruct (key_expired key (clock w2.2)) eqn:Ee; [by apply call_ret|].
  destruct (key_retired key (clock w2.2)) eqn:Et; [by apply call_ret|].
  eapply holds_impl; [|apply (safe_yields _ _ (for_key key)); [apply Hr2|by apply safe_finish, Hr2|apply yields_finish]].
  intros x w' _ [Hx Hl] auth ->. apply find_value_Some in Ef as [[k Hk] Hh]. boolify.
  exists w1, w2, key. split_and!; [apply Hr1|apply Hr2|done| |done..|by apply Hx].
  by rewrite (ok_keyed _ (proj1 Hr1) _ _ Hk).
Qed.

(** A key nobody may use any more. *)
Definition revoked (k : string) (key : APIKeyRecord.t) (now : time) : Prop :=
  key_retired key now = true \/ graceless k /\ APIKeyRecord.Status key <> APIKeyStatusActive.

Lemma retired_stays key t t' : t <= t' -> key_retired key t = true -> key_retired key t' = true.
Proof.
  unfold key_retired, Before. intros Ht. destruct (_ <>s _); [|done]. cbn.
  destruct (APIKeyRecord.RotationGraceExpiresAt key); [|done]. intros H. boolify. apply negb_true_iff, Z.ltb_ge. lia.
Qed.

Lemma revoked_later k key w w' : frozen k -> apiKeys (repository w.2) !! k = Some key -> revoked k key (clock w.2) ->
  keys_later w w' -> exists key', apiKeys (repository w'.2) !! k = Some key' /\
    APIKeyRecord.KeyHash key' = APIKeyRecord.KeyHash key /\ revoked k key' (clock w'.2).
Proof.
  intros Hf Hk Hrev [Hc L]. destruct (L k key Hk) as (key' & Hk' & [H1 H2 H3 H4]). exists key'. split_and!; [done..|].
  destruct Hrev as [Hr|[Hg Hs]]; [left|right; auto]. apply (retired_stays _ _ _ Hc) in Hr. unfold key_retired in *. boolify.
  match goal with H : APIKeyRecord.ReplacedByKeyID key <> _ |- _ =>
    destruct (H3 Hf H) as [-> ->]; by rewrite (proj2 (String.eqb_neq _ _) H) end.
Qed.

Lemma revoked_refused raw k key w w' auth : keys_ok (repository w.2) -> frozen k ->
  apiKeys (repository w.2) !! k = Some key -> revoked k key (clock w.2) -> accepted raw w w' auth ->
  APIKeyRecord.ID (GatewayAuthContext.APIKey auth) <> k.
Proof.
  intros Hw Hf Hk Hrev (w1 & w2 & found & L1 & L2 & _ & Hfound & _ & Hs & _ & Ht & Hfor) E.
  injection Hfor as Eid _ _. rewrite E in Eid.
  destruct (revoked_later _ _ _ _ Hf Hk Hrev L1) as (key1 & Hk1 & _ & [Hr|[_ Hn]]).
  - rewrite Eid in Hk1. rewrite Hk1 in Hfound. injection Hfound as ->.
    rewrite (retired_stays _ _ _ (proj1 L2) Hr) in Ht. done.
  - rewrite Eid in Hk1. congruence.
Qed.

(** ** Pools *)

(** The calls under way.  A frozen key is not changed by [UpdateAPIKey]; a graceless
    one is rotated without a grace period. *)
Inductive key_call : thread service_state -> Prop :=
| Call_create d actor req : key_call (mkThread (created d) _ (CreateAPIKey d actor req))
| Call_create_application d actor req : key_call (mkThread (created d) _ (CreateApplicationAPIKey d actor req))
| Call_update d actor id set_lists req : ~ frozen (TrimSpace id) ->
    key_call (mkThread ∅ _ (UpdateAPIKey d actor id set_lists req))
| Call_update_application d actor id set_lists req : ~ frozen (TrimSpace id) ->
    key_call (mkThread ∅ _ (UpdateApplicationAPIKey d actor id set_lists req))
| Call_rotate d actor id seconds : (graceless (TrimSpace id) -> seconds <= 0) ->
    key_call (mkThread (rotated d) _ (RotateAPIKeyWithGrace d actor id seconds))
| Call_rotate_application d actor id seconds : (graceless (TrimSpace id) -> seconds <= 0) ->
    key_call (mkThread (rotated d) _ (RotateApplicationAPIKeyWithGrace d actor id seconds))
| Call_disable d actor id : key_call (mkThread ∅ _ (service_DisableAPIKey d actor id))
| Call_disable_application d actor id : key_call (mkThread ∅ _ (DisableApplicationAPIKey d actor id))
| Call_list : key_call (mkThread ∅ _ service_ListAPIKeys)
| Call_authenticate raw flag : key_call (mkThread ∅ _ (authenticateGatewayKey raw flag)).

(** The rest of the system: time goes on, and other maps change. *)
Definition elsewhere (s s' : service_state) : Prop :=
  apiKeys (repository s') = apiKeys (repository s) /\ clock s <= clock s'.

Lemma key_calls_hold : calls_hold max_int64 ok keys_later key_present key_call.
Proof.
  intros t w Ht Hw Hf. destruct Ht; cbn [owned code] in *.
  - by apply safe_CreateAPIKey.
  - by apply safe_CreateApplicationAPIKey.
  - by apply safe_UpdateAPIKey.
  - by apply safe_UpdateApplicationAPIKey.
  - by apply safe_RotateAPIKeyWithGrace.
  - by apply safe_RotateApplicationAPIKeyWithGrace.
  - by apply safe_DisableAPIKey.
  - by apply safe_DisableApplicationAPIKey.
  - apply safe_reader; [unfold service_ListAPIKeys; reader_tac|done].
  - by apply safe_authenticate.
Qed.

Lemma key_elsewhere_quiet : outside_quiet ok keys_later key_present elsewhere.
Proof.
  intros n s s' [E C] Hok. split_and!.
  - by eapply keys_frame.
  - split; [done|]. intros k key Hk. exists key. cbn. rewrite E. split; [done|apply evolves_refl].
  - intros id. unfold key_present. by rewrite E.
Qed.

(** No keys and no calls yet. *)
Definition beginning (P : pool service_state) : Prop :=
  apiKeys (repository (world P).2) = ∅ /\ threads P = [].

Lemma beginning_ok P : beginning P -> pool_ok max_int64 ok keys_later key_present P.
Proof.
  intros [E Et]. split.
  - split; rewrite E; by try apply keyed_empty.
  - intros id (k & key & Hk & _). by rewrite E in Hk.
  - by rewrite Et.
  - rewrite Et. constructor.
  - by rewrite Et.
Qed.

Notation steps := (pool_steps max_int64 key_call elsewhere).

Lemma key_steps_ok P P' : pool_ok max_int64 ok keys_later key_present P -> steps P P' ->
  pool_ok max_int64 ok keys_later key_present P' /\ keys_later (world P) (world P').
Proof.
  intros HP Hs. eapply pool_sound; eauto using keys_later_refl, keys_later_trans, key_calls_hold, key_elsewhere_quiet.
Qed.
End Calls.
End Concurrency.

(** ** Authentication of a call that runs alone *)

Section Alone.
Context `{range : MapRange} `{unicode : UnicodeCase}.
#[local] Hint Resolve reader_by_id : service.

Lemma by_id_exact {A} (identifier : A -> string) list_ required missing id s item :
  (forall x y, x ∈ list_ (repository s) -> y ∈ list_ (repository s) -> identifier x = identifier y -> x = y) ->
  answer (by_id identifier list_ required missing id) s = Ok item <->
  TrimSpace id <> ""%string /\ item ∈ list_ (repository s) /\ identifier item = TrimSpace id.
Proof.
  intros Hu. split.
  - intros H. pose proof (by_id_Ok _ _ _ _ _ _ _ H) as [Hin Hid]. split_and!; [|done..].
    unfold by_id in H. answer_inv H. by boolify.
  - intros (Hne & Hin & Hid). unfold by_id. rewrite (proj2 (String.eqb_neq _ _) Hne), answer_pass, answer_query.
    destruct (List.find _ _) as [x|] eqn:Ef.
    + apply List.find_some in Ef as [Hx Hxid]. boolify. apply list_elem_of_In in Hx.
      rewrite (Hu x item); [done..|congruence].
    + apply list_elem_of_In in Hin. pose proof (List.find_none _ _ Ef _ Hin) as Hf. cbn in Hf. boolify. congruence.
Qed.

(** A list of the values of a map whose keys are the identifiers. *)
Lemma by_id_keyed {A} (identifier : A -> string) less (field : MemoryRepository -> gmap string A) required missing id s item :
  keyed identifier (field (repository s)) -> TrimSpace id <> ""%string ->
  answer (by_id identifier (fun r => sort_by less (map_values (field r))) required missing id) s = Ok item <->
  field (repository s) !! TrimSpace id = Some item.
Proof.
  intros Hk Hne. rewrite by_id_exact.
  - rewrite elem_of_sort_by, elem_of_map_values. split.
    + intros (_ & (k & E) & Eid). by rewrite <- Eid, (Hk _ _ E).
    + intros E. split_and!; [done|eauto|by apply Hk].
  - intros x y [kx Ex]%elem_of_sort_by%elem_of_map_values [ky Ey]%elem_of_sort_by%elem_of_map_values E.
    pose proof (Hk _ _ Ex). pose proof (Hk _ _ Ey). cbn in *. congruence.
Qed.

Record directory_ok (r : MemoryRepository) : Prop := {
  directory_applications : keyed Application.ID (applications r);
  directory_principals : keyed GatewayPrincipal.ID (gatewayPrincipals r);
}.

(** The active identity an application key is bound to. *)
Record bound_identity (r : MemoryRepository) (key : APIKeyRecord.t) (identity : applicationCredentialIdentity) : Prop := {
  bound_application : applications r !! TrimSpace (APIKeyRecord.ApplicationID key) = Some (application identity);
  bound_principal : gatewayPrincipals r !! TrimSpace (APIKeyRecord.GatewayPrincipalID key) = Some (principal identity);
  bound_member : GatewayPrincipal.ApplicationID (principal identity) = Application.ID (application identity);
  bound_active : Application.Status (application identity) = ApplicationStatusActive /\
    GatewayPrincipal.Status (principal identity) = GatewayPrincipalStatusActive;
}.

Lemma identity_exact s key identity : directory_ok (repository s) -> isApplicationAPIKey key = true ->
  answer (activeApplicationCredentialIdentity (APIKeyRecord.ApplicationID key) (APIKeyRecord.GatewayPrincipalID key)) s
    = Ok identity <-> bound_identity (repository s) key identity.
Proof.
  intros [Ha Hp] Hk. unfold isApplicationAPIKey in Hk. boolify.
  unfold activeApplicationCredentialIdentity, applicationCredentialIdentity_. split.
  - intros H'. answer_inv H'. unfold applicationByID, gatewayPrincipalByID in *.
    apply (by_id_keyed _ _ _ _ _ _ _ _ Ha) in Ha1; [|done]. apply (by_id_keyed _ _ _ _ _ _ _ _ Hp) in Ha2; [|done].
    boolify. by split.
  - destruct identity as [app prn]. intros [H1 H2 H3 [H4 H5]]. cbn in *.
    assert (E1 : answer (applicationByID (APIKeyRecord.ApplicationID key)) s = Ok app).
    { by apply (by_id_keyed _ _ _ _ _ _ _ _ Ha). }
    assert (E2 : answer (gatewayPrincipalByID (APIKeyRecord.GatewayPrincipalID key)) s = Ok prn).
    { by apply (by_id_keyed _ _ _ _ _ _ _ _ Hp). }
    rewrite !answer_bind by (unfold applicationByID, gatewayPrincipalByID; reader_tac). rewrite E1. cbn.
    rewrite answer_bind by (unfold applicationByID, gatewayPrincipalByID; reader_tac). rewrite E2. cbn.
    rewrite H3, String.eqb_refl, answer_pass. cbn. by rewrite H4, H5.
Qed.

Lemma answer_active_Ok s key (f := activeApplicationCredentialIdentity (APIKeyRecord.ApplicationID key)
    (APIKeyRecord.GatewayPrincipalID key)) :
  exec f s = (answer f s, s).
Proof.
  pose proof (exec_reader f s (reader_active_identity _ _)) as E. unfold answer. destruct (exec f s) as [x s']. cbn in *.
  by subst.
Qed.

(** A key that authenticates: stored, active, of the presented text, neither
    expired nor retired, and, for the key of an application, with an active identity. *)
Record authentic (s : service_state) (raw : string) (key : APIKeyRecord.t)
    (identity : option applicationCredentialIdentity) : Prop := {
  authentic_stored : apiKeys (repository s) !! APIKeyRecord.ID key = Some key;
  authentic_text : TrimSpace raw <> ""%string /\ APIKeyRecord.KeyHash key = hashAPIKey (TrimSpace raw);
  authentic_active : APIKeyRecord.Status key = APIKeyStatusActive;
  authentic_now : key_expired key (clock s) = false /\ key_retired key (clock s) = false;
  authentic_identity : match identity with
    | Some identity => isApplicationAPIKey key = true /\ bound_identity (repository s) key identity
    | None => isApplicationAPIKey key = false
    end;
}.

Definition used_now (flag : bool) (now : time) (key : APIKeyRecord.t) : APIKeyRecord.t :=
  if flag then key <| APIKeyRecord.LastUsedAt := Some now |> <| APIKeyRecord.UpdatedAt := now |> else key.

Definition after_use (flag : bool) (key : APIKeyRecord.t) (s : service_state) : service_state :=
  if flag then s <| repository := (repository s).[apiKeys]:[APIKeyRecord.ID key] <- used_now true (clock s) key |> else s.

Definition context_of (s : service_state) (key : APIKeyRecord.t) (identity : option applicationCredentialIdentity)
    : GatewayAuthContext.t :=
  let '(policy, source) := effectiveGatewayPolicyFromPolicies (ListGovernancePolicies (repository s)) key in
  GatewayAuthContext.mk key policy source (option_map application identity) (option_map principal identity) None "".

Lemma exec_finish s key identity flag :
  match identity with
  | Some identity => isApplicationAPIKey key = true /\
      answer (activeApplicationCredentialIdentity (APIKeyRecord.ApplicationID key)
                (APIKeyRecord.GatewayPrincipalID key)) s = Ok identity
  | None => isApplicationAPIKey key = false
  end ->
  apiKeys (repository s) !! APIKeyRecord.ID key = Some key ->
  exec (finish_authentication key (clock s) flag) s =
  (Ok (context_of s (used_now flag (clock s) key) identity), after_use flag key s).
Proof.
  intros Hid Hk. unfold finish_authentication. rewrite exec_bind.
  assert (E : exec (authenticated_identity key) s = (Ok identity, s)).
  { unfold authenticated_identity. destruct identity as [identity|]; [destruct Hid as [-> Ha]|by rewrite Hid].
    rewrite exec_bind. unfold wrapping. by rewrite exec_prog_bind, answer_active_Ok, Ha. }
  rewrite E. clear E. rewrite exec_bind. destruct flag.
  - unfold section, on_repository, UpdateAPIKeyLastUsed. cbn. unfold mbind, M_bind, read. cbn. rewrite Hk. cbn.
    unfold context_of. cbn. by destruct (effectiveGatewayPolicyFromPolicies _ _) as [policy source].
  - cbn. unfold context_of. cbn. by destruct (effectiveGatewayPolicyFromPolicies _ _) as [policy source].
Qed.

(** A key that passes the checks of its record but is refused for its identity. *)
Lemma exec_finish_refused s key flag : directory_ok (repository s) -> isApplicationAPIKey key = true ->
  (forall identity, ~ bound_identity (repository s) key identity) ->
  exec (finish_authentication key (clock s) flag) s = (Err ErrGatewayUnauthorized, s).
Proof.
  intros Hd Hk Hno. unfold finish_authentication, authenticated_identity. rewrite Hk, !exec_bind. unfold wrapping.
  rewrite exec_prog_bind, answer_active_Ok. destruct (answer _ s) as [identity|e] eqn:E; [|done].
  apply (identity_exact s key identity Hd Hk) in E. by destruct (Hno identity).
Qed.

Lemma find_by_hash frozen r hash key : keys_ok frozen r ->
  FindAPIKeyByHash hash r = Some key <-> apiKeys r !! APIKeyRecord.ID key = Some key /\ APIKeyRecord.KeyHash key = hash.
Proof.
  intros Hok. unfold FindAPIKeyByHash. split.
  - intros [[k Hk] Hh]%find_value_Some. boolify. by rewrite (ok_keyed _ _ Hok _ _ Hk).
  - intros [Hk Hh]. destruct (find_value _ _) as [x|] eqn:Ef.
    + apply find_value_Some in Ef as [[k' Hk'] Hh']. boolify.
      assert (k' = APIKeyRecord.ID key) as -> by (eapply (ok_hashes _ _ Hok); [done..|congruence]). congruence.
    + apply find_value_None with (k := APIKeyRecord.ID key) (v := key) in Ef; [|done]. cbn in Ef. by boolify.
Qed.

(** The unfolded call. *)
Lemma exec_authenticate raw flag s :
  exec (authenticateGatewayKey raw flag) s =
  if TrimSpace raw =s "" then (Err ErrGatewayUnauthorized, s) else
  match FindAPIKeyByHash (hashAPIKey (TrimSpace raw)) (repository s) with
  | None => (Err ErrGatewayUnauthorized, s)
  | Some key =>
      if (APIKeyRecord.Status key <>s APIKeyStatusActive) || key_expired key (clock s) || key_retired key (clock s)
      then (Err ErrGatewayUnauthorized, s)
      else exec (finish_authentication key (clock s) flag) s
  end.
Proof.
  unfold authenticateGatewayKey. destruct (TrimSpace raw =s ""); [done|]. cbn.
  destruct (FindAPIKeyByHash _ _) as [key|]; [|done]. cbn. destruct (_ <>s _); [done|]. cbn.
  destruct (key_expired key (clock s)); [done|]. cbn. by destruct (key_retired key (clock s)).
Qed.

End Alone.

(** ** Properties *)

Section Properties.
Context `{range : MapRange} `{unicode : UnicodeCase}.
Context (frozen graceless : string -> Prop).
Notation steps := (pool_steps max_int64 (key_call frozen graceless) elsewhere).
Notation keys P := (apiKeys (repository (world P).2)).

(** C26. Whatever calls create, change, rotate, disable and present keys, and however
    their critical sections interleave: no two keys have one hash, so that a text
    finds at most one key, whatever the order of the map; a key is never removed and
    never gets another hash; and a key that nobody changes meanwhile is replaced at
    most once, by a key that exists and names it. *)
Theorem key_store_sound P0 P P' : beginning P0 -> steps P0 P -> steps P P' ->
  (forall hash key, FindAPIKeyByHash hash (repository (world P).2) = Some key <->
     keys P !! APIKeyRecord.ID key = Some key /\ APIKeyRecord.KeyHash key = hash) /\
  (forall k key, keys P !! k = Some key -> exists key', keys P' !! k = Some key' /\
     APIKeyRecord.ID key' = k /\ APIKeyRecord.KeyHash key' = APIKeyRecord.KeyHash key) /\
  (forall k key, keys P !! k = Some key -> frozen k -> APIKeyRecord.ReplacedByKeyID key <> ""%string ->
     exists rep, keys P !! APIKeyRecord.ReplacedByKeyID key = Some rep /\ APIKeyRecord.ReplacesKeyID rep = k) /\
  (forall k j1 j2 rep1 rep2, frozen k -> k <> ""%string -> keys P !! j1 = Some rep1 -> keys P !! j2 = Some rep2 ->
     APIKeyRecord.ReplacesKeyID rep1 = k -> APIKeyRecord.ReplacesKeyID rep2 = k -> j1 = j2).
Proof.
  intros H0 HP HP'. destruct (key_steps_ok _ _ P0 P (beginning_ok _ _ _ H0) HP) as [Hok _].
  destruct (key_steps_ok _ _ P P' Hok HP') as [Hok' [_ L]].
  pose proof (pool_world _ _ _ _ _ Hok) as Hw. pose proof (pool_world _ _ _ _ _ Hok') as Hw'. cbn in Hw, Hw'.
  split_and!.
  - intros hash key. by eapply find_by_hash.
  - intros k key Hk. destruct (L _ _ Hk) as (key' & Hk' & Hev). exists key'.
    split_and!; [done|by apply (ok_keyed _ _ Hw')|apply Hev].
  - apply (ok_replacement _ _ Hw).
  - intros k j1 j2 rep1 rep2 Hf Hne H1 H2 E1 E2.
    destruct (ok_replaces _ _ Hw _ _ H1) as [key Hk]; [congruence|]. rewrite E1 in Hk.
    rewrite <- (ok_replaced_once _ _ Hw _ _ _ _ Hk H1 Hf E1). by apply (ok_replaced_once _ _ Hw _ _ _ _ Hk H2 Hf E2).
Qed.

(** C27. Revocation is final.  A key whose rotation is past its grace period, or that
    has been disabled and is rotated without a grace period only, stays so as long as
    nobody changes the key itself; and no call that presents a key from then on is
    answered with it. *)
Theorem revocation_final P0 P P' k key : beginning P0 -> steps P0 P -> steps P P' ->
  frozen k -> keys P !! k = Some key -> revoked graceless k key (clock (world P).2) ->
  exists key', keys P' !! k = Some key' /\ revoked graceless k key' (clock (world P').2) /\
  forall raw flag,
    holds max_int64 (fun w => keys_ok frozen (repository w.2)) (keys_later frozen graceless) key_present ∅
      (authenticateGatewayKey raw flag)
      (fun x _ => forall auth, x = Ok auth -> APIKeyRecord.ID (GatewayAuthContext.APIKey auth) <> k) (world P').
Proof.
  intros H0 HP HP' Hf Hk Hrev. destruct (key_steps_ok _ _ P0 P (beginning_ok _ _ _ H0) HP) as [Hok _].
  destruct (key_steps_ok _ _ P P' Hok HP') as [Hok' L]. pose proof (pool_world _ _ _ _ _ Hok') as Hw'. cbn in Hw'.
  destruct (revoked_later _ _ _ _ _ _ Hf Hk Hrev L) as (key' & Hk' & _ & Hrev'). exists key'. split_and!; [done..|].
  intros raw flag. eapply holds_impl; [|by apply authenticate_spec]. intros x w' _ Hx auth E.
  eapply revoked_refused; [exact Hw'|done..|by apply Hx].
Qed.

(** C28. A key authenticates exactly when it is stored under the hash of the presented
    text, active, not expired, not retired by a rotation, and, for the key of an
    application, bound to an active principal of an active application; it is then
    answered with its identity and the governance policy that applies to it, and
    nothing changes but the time of its last use.  Every other text is refused with
    one and the same error, and leaves no trace. *)
Theorem authentication_exact raw flag s : keys_ok frozen (repository s) -> directory_ok (repository s) ->
  (forall key identity, authentic s raw key identity ->
     exec (authenticateGatewayKey raw flag) s =
       (Ok (context_of s (used_now flag (clock s) key) identity), after_use flag key s)) /\
  ((forall key identity, ~ authentic s raw key identity) ->
     exec (authenticateGatewayKey raw flag) s = (Err ErrGatewayUnauthorized, s)).
Proof.
  intros Hok Hd. rewrite exec_authenticate. split.
  - intros key identity [Hk [Hne Hh] Ha [He Ht] Hid]. rewrite (proj2 (String.eqb_neq _ _) Hne).
    rewrite (proj2 (find_by_hash _ _ _ key Hok) (conj Hk Hh)), Ha, He, Ht, String.eqb_refl. cbn.
    apply exec_finish; [|done]. destruct identity as [identity|]; [|done]. destruct Hid as [Hid Hb].
    split; [done|by apply identity_exact].
  - intros Hno. destruct (TrimSpace raw =s "") eqn:Er; [done|]. destruct (FindAPIKeyByHash _ _) as [key|] eqn:Ef; [|done].
    apply (find_by_hash _ _ _ key Hok) in Ef as [Hk Hh]. destruct (_ || _ || _) eqn:Ec; [done|]. boolify.
    destruct (isApplicationAPIKey key) eqn:Ei.
    + apply exec_finish_refused; [done..|]. intros identity Hb. destruct (Hno key (Some identity)). by split.
    + destruct (Hno key None). by split.
Qed.

(** C29. A change of a key writes back the record it has read.  Whatever the other
    calls make of the store between its critical sections, a change that is accepted
    has read a key under the identifier in its first section and stores, in one later
    section and over whatever is then there, that key as it was read, with the
    changes asked for: its hash, its place in the rotations and, unless the request
    names one, its status are those that were read.  So a rotation that runs in
    between is undone: the key that it has disabled and replaced is active and
    replaced by nothing again. *)
Theorem update_undoes_rotation call d actor id set_lists req states updated afters :
  call = UpdateAPIKey d actor id set_lists req \/ call = UpdateApplicationAPIKey d actor id set_lists req ->
  run_at call states = Some (Ok updated, afters) ->
  exists first rest rest' key,
    states = first :: rest /\ afters = first :: rest' /\
    (exists k, apiKeys (repository first) !! k = Some key) /\ APIKeyRecord.ID key = TrimSpace id /\
    overwrites key updated req rest rest'.
Proof.
  intros [-> | ->] H; [by eapply UpdateAPIKey_overwrites|by eapply UpdateApplicationAPIKey_overwrites].
Qed.
End Properties.

(** ** Schedules *)

Section Schedules.
Context (bound : Z) (calls : thread service_state -> Prop) (outside : service_state -> service_state -> Prop).

(** The next [n] critical sections of a call. *)
Fixpoint run_some {A} (n : nat) (p : prog service_state A) (w : Z * service_state)
    : prog service_state A * (Z * service_state) :=
  match n, p with
  | S n, Atomic act k => run_some n (k (after act w).1) (after act w).2
  | _, _ => (p, w)
  end.

Lemma run_some_clock {A} n (p : prog service_state A) w : w.1 <= (run_some n p w).2.1.
Proof.
  revert p w. induction n as [|n IH]; intros p w; [cbn; lia|]. destruct p as [a|X act k]; cbn; [lia|].
  specialize (IH (k (after act w).1) (after act w).2). cbn in IH. lia.
Qed.

Lemma run_some_steps l1 l2 ids A n (p : prog service_state A) w u : (run_some n p w).2.1 <= bound ->
  pool_steps bound calls outside (mkPool w u (l1 ++ mkThread ids A p :: l2))
    (mkPool (run_some n p w).2 u (l1 ++ mkThread ids A (run_some n p w).1 :: l2)).
Proof.
  revert p w. induction n as [|n IH]; intros p w Hb; [apply Steps_refl|]. destruct p as [a|X act k]; [apply Steps_refl|].
  eapply pool_steps_trans; [eapply Steps_step; [apply Steps_refl|apply Step_section]|by apply IH].
  pose proof (run_some_clock n (k (after act w).1) (after act w).2) as Hc. cbn in Hb, Hc. lia.
Qed.
End Schedules.

Module Demo.
#[local] Existing Instance canonical_range.
Definition no_lower : UnicodeCase := fun s => s.
#[local] Existing Instance no_lower.
Definition d1 : key_draws := mkKeyDraws "secret1" "k1" "f1" "a1".
Definition d2 : key_draws := mkKeyDraws "secret2" "k2" "f2" "a2".
Definition d3 : key_draws := mkKeyDraws "" "" "" "a3".
Definition create_request : APIKeyCreateRequest.t := APIKeyCreateRequest.zero
  <| APIKeyCreateRequest.Name := "first"%string |> <| APIKeyCreateRequest.ModelAllowlist := ["gpt"%string] |>.
Definition update_request : APIKeyUpdateRequest.t := APIKeyUpdateRequest.zero
  <| APIKeyUpdateRequest.Name := "renamed"%string |> <| APIKeyUpdateRequest.ModelAllowlist := ["gpt"%string] |>.
Definition start : pool service_state := mkPool (0, mkService NewMemoryRepository 1000 ∅) ∅ [].
Definition create : thread service_state := mkThread (created d1) _ (CreateAPIKey d1 "root" create_request).
Definition rotate : thread service_state := mkThread (rotated d2) _ (RotateAPIKeyWithGrace d2 "root" "key_k1" 0).
Definition update : thread service_state := mkThread ∅ _ (UpdateAPIKey d3 "root" "key_k1" false update_request).

Definition finished (t : thread service_state) (P : pool service_state) : pool service_state :=
  mkPool (run_in (code t) (world P)).2 (owned t ∪ used P)
    (mkThread (owned t) (Threads.answer t) (Ret (run_in (code t) (world P)).1) :: threads P).
Definition P1 := finished create start.
Definition P2 := finished rotate P1.
Definition everyone (_ : string) : Prop := True.
Definition nobody (_ : string) : Prop := False.

(** The update reads the key before the rotation and writes it after. *)
Definition reading := run_some 2 (code update) (world P1).
Definition P3 : pool service_state :=
  mkPool reading.2 (owned update ∪ used P1) (mkThread ∅ _ reading.1 :: threads P1).
Definition P4 := finished rotate P3.
Definition written := run_some 9 reading.1 (world P4).
Definition key_at (k : string) (P : pool service_state) : APIKeyRecord.t :=
  default APIKeyRecord.zero (apiKeys (repository (world P).2) !! k).
Definition P5 : pool service_state :=
  mkPool written.2 (used P4)
    (mkThread (owned rotate) (Threads.answer rotate) (Ret (run_in (code rotate) (world P3)).1)
     :: mkThread ∅ (Threads.answer update) written.1 :: threads P1).

Notation runs frozen := (pool_steps max_int64 (key_call frozen everyone) elsewhere).

Lemma key_starts : beginning start.
Proof. done. Qed.

Lemma disjoint_by_computation (A B : gset string) : bool_decide (A ## B) = true -> A ## B.
Proof. apply bool_decide_eq_true_1. Qed.

Lemma runs_create frozen : runs frozen start P1.
Proof. apply (call_runs _ _ _ create start); [apply Call_create|set_solver|by vm_compute]. Qed.

Lemma runs_rotate frozen : runs frozen P1 P2.
Proof.
  apply (call_runs _ _ _ rotate P1); [by apply Call_rotate|apply disjoint_by_computation; vm_compute; reflexivity|by vm_compute].
Qed.

Lemma runs_reading : runs nobody P1 P3.
Proof.
  eapply pool_steps_trans; [eapply Steps_step; [apply Steps_refl|apply (Step_call _ _ _ update)]|].
  - apply Call_update. by intros ?.
  - cbn. set_solver.
  - assert (Hb : reading.2.1 <= max_int64) by (by vm_compute).
    exact (run_some_steps max_int64 _ _ [] (threads P1) ∅ _ 2 (code update) (world P1) (owned update ∪ used P1) Hb).
Qed.

Lemma runs_race : runs nobody P3 P4.
Proof.
  apply (call_runs _ _ _ rotate P3); [by apply Call_rotate|apply disjoint_by_computation; vm_compute; reflexivity|by vm_compute].
Qed.

Lemma runs_writing : runs nobody P4 P5.
Proof.
  assert (Hb : written.2.1 <= max_int64) by (by vm_compute).
  exact (run_some_steps max_int64 _ _ [mkThread (owned rotate) (Threads.answer rotate) (Ret (run_in (code rotate) (world P3)).1)]
    (threads P1) ∅ _ 9 reading.1 (world P4) (used P4) Hb).
Qed.
End Demo.

Lemma key_store_sound_witness : exists rep,
  apiKeys (repository (world Demo.P2).2) !! APIKeyRecord.ReplacedByKeyID (Demo.key_at "key_k1" Demo.P2) = Some rep /\
  APIKeyRecord.ReplacesKeyID rep = "key_k1"%string.
Proof.
  destruct (key_store_sound (range := canonical_range) (unicode := Demo.no_lower) Demo.everyone Demo.everyone
    Demo.start Demo.P2 Demo.P2 Demo.key_starts) as (_ & _ & H & _).
  - eapply pool_steps_trans; [apply Demo.runs_create|apply Demo.runs_rotate].
  - apply Steps_refl.
  - apply (H "key_k1"%string); [vm_compute; reflexivity|exact I|vm_compute; discriminate].
Defined.

(** The stores that the sections of the change meet: it reads the key before the
    rotation and goes on after it. *)
Definition race_states : list service_state :=
  [(world Demo.P1).2; (world Demo.P1).2] ++ alone Demo.reading.1 (world Demo.P4).2.
Definition race_answer := run_at (code Demo.update) race_states.
Definition race_afters : list service_state := match race_answer with Some (_, l) => l | None => [] end.

Lemma update_undoes_rotation_witness :
  APIKeyRecord.Status (Demo.key_at "key_k1" Demo.P4) = APIKeyStatusDisabled /\
  APIKeyRecord.ReplacedByKeyID (Demo.key_at "key_k1" Demo.P4) = "key_k2"%string /\
  exists key, key_history (Demo.key_at "key_k1" Demo.P5) = key_history key /\
    overwrites key (Demo.key_at "key_k1" Demo.P5) Demo.update_request (tl race_states) (tl race_afters) /\
    APIKeyRecord.Status (Demo.key_at "key_k1" Demo.P5) = APIKeyStatusActive /\
    APIKeyRecord.ReplacedByKeyID (Demo.key_at "key_k1" Demo.P5) = ""%string.
Proof.
  split; [vm_compute; reflexivity|]. split; [vm_compute; reflexivity|].
  assert (H : run_at (code Demo.update) race_states = Some (Ok (Demo.key_at "key_k1" Demo.P5), race_afters))
    by (vm_compute; reflexivity).
  destruct (update_undoes_rotation (range := canonical_range) (unicode := Demo.no_lower) _ Demo.d3 "root" "key_k1" false
    Demo.update_request race_states _ _ (or_introl eq_refl) H) as (first & rest & rest' & key & E & E' & _ & _ & Ho).
  exists key. rewrite E, E'. split; [apply Ho|]. split; [exact Ho|]. split; vm_compute; reflexivity.
Defined.

Lemma revocation_final_witness : exists key',
  apiKeys (repository (world Demo.P2).2) !! "key_k1"%string = Some key' /\
  revoked Demo.everyone "key_k1" key' (clock (world Demo.P2).2).
Proof.
  destruct (revocation_final (range := canonical_range) (unicode := Demo.no_lower) Demo.everyone Demo.everyone
    Demo.start Demo.P2 Demo.P2 "key_k1" (Demo.key_at "key_k1" Demo.P2) Demo.key_starts) as (key' & H1 & H2 & _).
  - eapply pool_steps_trans; [apply Demo.runs_create|apply Demo.runs_rotate].
  - apply Steps_refl.
  - exact I.
  - vm_compute. reflexivity.
  - right. split; [exact I|vm_compute; discriminate].
  - exists key'. split; [exact H1|exact H2].
Defined.

(** The old text is refused after the rotation, and the new one accepted. *)
Lemma authentication_exact_witness : exists s, s = (world Demo.P2).2 /\
  exec (authenticateGatewayKey (range := canonical_range) (raw_key Demo.d2) false) s =
  (Ok (context_of (range := canonical_range) s (Demo.key_at "key_k2" Demo.P2) None), s).
Proof.
  enough (H : forall s, s = (world Demo.P2).2 ->
    exec (authenticateGatewayKey (range := canonical_range) (raw_key Demo.d2) false) s =
    (Ok (context_of (range := canonical_range) s (Demo.key_at "key_k2" Demo.P2) None), s))
    by (exists (world Demo.P2).2; split; [reflexivity|exact (H _ eq_refl)]).
  intros s Es.
  assert (Hok : keys_ok Demo.nobody (repository s)).
  { subst s. pose proof (key_steps_ok (range := canonical_range) (unicode := Demo.no_lower) Demo.nobody Demo.everyone
      Demo.start Demo.P2 (beginning_ok _ _ _ Demo.key_starts)) as [[H _ _ _ _] _]; [|exact H].
    eapply pool_steps_trans; [apply Demo.runs_create|apply Demo.runs_rotate]. }
  assert (Hd : directory_ok (repository s)) by (subst s; vm_compute; split; done).
  destruct (authentication_exact (range := canonical_range) Demo.nobody (raw_key Demo.d2) false s
    Hok Hd) as [H _].
  apply (H (Demo.key_at "key_k2" Demo.P2) None). subst s. split; vm_compute; split_and?; (reflexivity || discriminate).
Defined.
