(* ===== verification/RoutingPrices.v ===== *)
(** * Price rules of routing policies

    [backend/internal/controlplane/routing_policy_runtime.go] and the candidate
    rules of [gateway_pipeline.go]: which candidates of a request a routing policy
    lets through - native protocol, price facts, absolute and relative limits, the
    pool of low prices, failover - in which order, and the exclusions it reports.
    Prices are 64-bit integers, the limits and multiples IEEE doubles. *)

From S2P Require Import Prelude Threads Float64 StringLists AccessModel RoutingModel Repository Service GatewayModels.

Module routingPolicyCandidatePrice.
Record t := mk {
  candidate : GatewayProvider.t;
  price : Z;
  priced : bool;
  order : Z;
}.
End routingPolicyCandidatePrice.
Notation candidate_price := routingPolicyCandidatePrice.t.
Import routingPolicyCandidatePrice.

Module routingPolicyPriceExclusion.
Record t := mk { excluded : GatewayProvider.t; reason : string }.
End routingPolicyPriceExclusion.
Notation price_exclusion := routingPolicyPriceExclusion.t.
Import routingPolicyPriceExclusion.

Module routingPolicyPriceDecision.
Record t := mk { candidates : list GatewayProvider.t; exclusions : list price_exclusion }.
End routingPolicyPriceDecision.
Notation price_decision := routingPolicyPriceDecision.t.
Import routingPolicyPriceDecision.

Module routingPolicyCandidateDecision.
Record t := mk { Candidates : list GatewayProvider.t; Exclusions : list GatewayCandidateExclusion.t }.
End routingPolicyCandidateDecision.
Import routingPolicyCandidateDecision.

Notation routing_strategy := RoutingPolicyStrategy.t.

(** ** Limits *)

Definition lowerPositiveFloat (left_ right_ : float64) : float64 :=
  if fleb left_ float_zero then right_
  else if fleb right_ float_zero || fleb left_ right_ then left_
  else right_.

Definition routingPolicyRequestedModel (candidates : list GatewayProvider.t) : string :=
  match List.find (fun c => TrimSpace (GatewayProvider.RequestedModel c) <>s "") candidates with
  | Some c => TrimSpace (GatewayProvider.RequestedModel c)
  | None => ""
  end.

Definition routingPolicyAbsolutePriceLimits (strategy : routing_strategy) (model : string) : float64 * float64 :=
  let baseModel := base_model (TrimSpace model) in
  foldl (fun '(input, output) limit =>
    if (RoutingPolicyModelPriceLimit.Model limit <>s TrimSpace model)
       && (RoutingPolicyModelPriceLimit.Model limit <>s baseModel)
    then (input, output)
    else (lowerPositiveFloat input (RoutingPolicyModelPriceLimit.AbsoluteMaxInputPer1M limit),
          lowerPositiveFloat output (RoutingPolicyModelPriceLimit.AbsoluteMaxOutputPer1M limit)))
    (RoutingPolicyStrategy.AbsoluteMaxInputPer1M strategy, RoutingPolicyStrategy.AbsoluteMaxOutputPer1M strategy)
    (RoutingPolicyStrategy.ModelPriceLimits strategy).

Definition dollarsToMicros (value : float64) : Z := to_int64 (round_int (fmul value (of_int 1000000))).

(** ** Prices *)

Definition routingPriceKey (accountID model : string) : string :=
  (TrimSpace accountID +:+ nul +:+ TrimSpace model)%string.

Definition routingPolicyPriceCandidateKey (c : GatewayProvider.t) : string :=
  if GatewayProvider.RouteID c <>s "" then GatewayProvider.RouteID c
  else routingPriceKey (GatewayProvider.AccountID c) (GatewayProvider.UpstreamModel c).

(** A price that counts for a protocol at an instant. *)
Definition price_counts `{UnicodeUpper} (protocol : string) (now : time) (p : ProcurementPrice.t) : bool :=
  negb ((ProcurementPrice.Status p <>s ProcurementPriceStatusActive)
        || (ProcurementPrice.Protocol p <>s protocol)
        || (ToUpper (ProcurementPrice.Currency p) <>s "USD")
        || After (ProcurementPrice.EffectiveFrom p) now
        || match ProcurementPrice.ExpiresAt p with Some t => negb (After t now) | None => false end).

Definition activeRoutingPrices `{UnicodeUpper} (prices : list ProcurementPrice.t) (protocol : string) (now : time)
    : gmap string ProcurementPrice.t :=
  foldl (fun out p =>
    if price_counts protocol now p then
      let key := routingPriceKey (ProcurementPrice.ProviderAccountID p) (ProcurementPrice.UpstreamModel p) in
      match out !! key with
      | Some existing =>
          if After (ProcurementPrice.EffectiveFrom p) (ProcurementPrice.EffectiveFrom existing)
          then <[key := p]> out else out
      | None => <[key := p]> out
      end
    else out) ∅ prices.

Definition adjustedRoutingPrice (p : ProcurementPrice.t) : Z :=
  let multiplier := if fleb (ProcurementPrice.RechargeMultiplier p) float_zero
                    then float_one else ProcurementPrice.RechargeMultiplier p in
  let combined := ProcurementPrice.UncachedInputMicrosPer1MTokens p +i ProcurementPrice.OutputMicrosPer1MTokens p in
  to_int64 (round_int (fmul (of_int combined) multiplier)).

(** The largest price of an input token; a cache price that is not quoted is the
    uncached one. *)
Definition highest_input (p : ProcurementPrice.t) : Z :=
  foldl (fun uncached quoted =>
    let quoted := if quoted <=? 0 then uncached else quoted in
    if quoted >? uncached then quoted else uncached)
    (ProcurementPrice.UncachedInputMicrosPer1MTokens p)
    [ProcurementPrice.CacheReadMicrosPer1MTokens p; ProcurementPrice.CacheWrite5mMicrosPer1MTokens p;
     ProcurementPrice.CacheWrite1hMicrosPer1MTokens p].
Definition routingPolicyInputPriceExceeded (p : ProcurementPrice.t) (limit : Z) : bool := highest_input p >? limit.

Definition appendSelectionReason (current reason : string) : string :=
  let current := TrimSpace current in
  if current =s "" then reason else (current +:+ "; " +:+ reason)%string.

(** The candidate at [index] against its price. *)
Definition price_candidate (strategy : routing_strategy) (active : gmap string ProcurementPrice.t)
    (inputLimit outputLimit : float64) (index : Z) (c : GatewayProvider.t) : candidate_price + price_exclusion :=
  match active !! routingPriceKey (GatewayProvider.AccountID c) (GatewayProvider.UpstreamModel c) with
  | None =>
      if RoutingPolicyStrategy.MissingPriceAction strategy <>s RoutingPolicyMissingPriceBlock
      then inl (routingPolicyCandidatePrice.mk c 0 false index)
      else inr (routingPolicyPriceExclusion.mk c "routing_policy_price_fact_missing")
  | Some p =>
      let c := c <| GatewayProvider.PriceFactPresent := true |>
                 <| GatewayProvider.EstimatedInputMicrosPer1M := ProcurementPrice.UncachedInputMicrosPer1MTokens p |>
                 <| GatewayProvider.EstimatedOutputMicrosPer1M := ProcurementPrice.OutputMicrosPer1MTokens p |> in
      if fltb float_zero inputLimit && routingPolicyInputPriceExceeded p (dollarsToMicros inputLimit)
      then inr (routingPolicyPriceExclusion.mk c "routing_policy_input_price_exceeded")
      else if fltb float_zero outputLimit && (ProcurementPrice.OutputMicrosPer1MTokens p >? dollarsToMicros outputLimit)
      then inr (routingPolicyPriceExclusion.mk c "routing_policy_output_price_exceeded")
      else
        let c := c <| GatewayProvider.SelectionReason :=
                        appendSelectionReason (GatewayProvider.SelectionReason c) "price facts applied" |> in
        inl (routingPolicyCandidatePrice.mk c (adjustedRoutingPrice p) true index)
  end.

Fixpoint price_candidates (strategy : routing_strategy) (active : gmap string ProcurementPrice.t)
    (inputLimit outputLimit : float64) (index : Z) (l : list GatewayProvider.t)
    : list candidate_price * list price_exclusion :=
  match l with
  | [] => ([], [])
  | c :: l' =>
      let '(kept, out) := price_candidates strategy active inputLimit outputLimit (index + 1) l' in
      match price_candidate strategy active inputLimit outputLimit index c with
      | inl x => (x :: kept, out)
      | inr e => (kept, e :: out)
      end
  end.

(** ** Relative prices *)

Definition batch_of (x : candidate_price) : Z := GatewayProvider.PolicyBatchOrder (candidate x).

Definition cheapest_by_batch (l : list candidate_price) : gmap Z Z :=
  foldl (fun cheapest x =>
    if priced x && match cheapest !! batch_of x with None => true | Some current => price x <? current end
    then <[batch_of x := price x]> cheapest else cheapest) ∅ l.

Definition within_multiple (strategy : routing_strategy) (cheapest : gmap Z Z) (x : candidate_price) : bool :=
  negb (priced x)
  || match cheapest !! batch_of x with
     | Some lowest => fleb (of_int (price x)) (fmul (of_int lowest) (RoutingPolicyStrategy.MaxPriceMultipleOfCheapest strategy))
     | None => false
     end.

(** ** The pool of low prices *)

(** [batchOrder]: the batches in the order in which they first occur. *)
Definition batch_order (l : list candidate_price) : list Z :=
  foldl (fun out x => if bool_decide (batch_of x ∈ out) then out else out ++ [batch_of x]) [] l.

(** How many priced candidates of a batch of [n] stay.  The slice of the code is in
    range when the minimum is not negative ([kept_in_range]). *)
Definition pool_keep (strategy : routing_strategy) (n : Z) : Z :=
  let percent := RoutingPolicyStrategy.LowPricePoolPercent strategy in
  let percent := if (RoutingPolicyStrategy.LowPricePoolMode strategy =s RoutingPolicyLowPriceAuto) && (percent =? 0)
                 then 70 else percent in
  let percent := if (RoutingPolicyStrategy.LowPricePoolMode strategy =s RoutingPolicyLowPriceStrict) && (percent =? 0)
                 then 30 else percent in
  let keep := to_int64 (ceil_int (fdiv (fmul (of_int n) (of_int percent)) (of_int 100))) in
  let minimum := RoutingPolicyStrategy.LowPricePoolMinCandidates strategy in
  let keep := if minimum >? keep then minimum else keep in
  if keep >? n then n else keep.

Definition batch_pool (strategy : routing_strategy) (items : list candidate_price) : list candidate_price :=
  let known := List.filter priced items in
  let unknown := List.filter (fun x => negb (priced x)) items in
  match known with
  | [] => items
  | _ => take (Z.to_nat (pool_keep strategy (Z.of_nat (length known)))) known ++ unknown
  end.

Definition lowPriceCandidatePool (l : list candidate_price) (strategy : routing_strategy) : list candidate_price :=
  List.concat (map (fun batch => batch_pool strategy (List.filter (fun x => batch_of x =? batch) l)) (batch_order l)).

(** ** The decision *)

Definition price_order (a b : candidate_price) : bool :=
  if negb (batch_of a =? batch_of b) then batch_of a <? batch_of b
  else if negb (Bool.eqb (priced a) (priced b)) then priced a
  else if priced a && negb (price a =? price b) then price a <? price b
  else false.

Definition original_order (a b : candidate_price) : bool := order a <? order b.

Definition preferred (strategy : routing_strategy) (x : candidate_price) : bool :=
  contains (RoutingPolicyStrategy.PreferredProviderAccountIDs strategy) (GatewayProvider.AccountID (candidate x)).

Definition cost_order (strategy : routing_strategy) (a b : candidate_price) : bool :=
  if negb (batch_of a =? batch_of b) then batch_of a <? batch_of b
  else if negb (Bool.eqb (preferred strategy a) (preferred strategy b)) then preferred strategy a
  else if negb (Bool.eqb (priced a) (priced b)) then priced a
  else if priced a && negb (price a =? price b) then price a <? price b
  else order a <? order b.

Definition low_price_modes : list string :=
  [RoutingPolicyLowPriceAuto; RoutingPolicyLowPriceStrict; RoutingPolicyLowPricePercent].

Definition price_rules_configured (strategy : routing_strategy) (inputLimit outputLimit : float64) : bool :=
  fltb float_zero inputLimit || fltb float_zero outputLimit
  || fltb float_zero (RoutingPolicyStrategy.MaxPriceMultipleOfCheapest strategy)
  || (RoutingPolicyStrategy.MissingPriceAction strategy =s RoutingPolicyMissingPriceBlock)
  || oneOf (RoutingPolicyStrategy.LowPricePoolMode strategy) low_price_modes.

(** The part after the prices have been applied. *)
Definition rank_priced (strategy : routing_strategy) (priced_ : list candidate_price) (out : list price_exclusion)
    : price_decision :=
  match priced_ with
  | [] => routingPolicyPriceDecision.mk [] out
  | _ =>
      let cheapest := cheapest_by_batch priced_ in
      let limited := fltb float_zero (RoutingPolicyStrategy.MaxPriceMultipleOfCheapest strategy) in
      let near := if limited then List.filter (within_multiple strategy cheapest) priced_ else priced_ in
      let far := if limited then List.filter (fun x => negb (within_multiple strategy cheapest x)) priced_ else [] in
      let out := out ++ map (fun x => routingPolicyPriceExclusion.mk (candidate x) "routing_policy_relative_price_exceeded") far in
      match near with
      | [] => routingPolicyPriceDecision.mk [] out
      | _ =>
          let sorted := sort_by price_order near in
          let pooled := oneOf (RoutingPolicyStrategy.LowPricePoolMode strategy) low_price_modes in
          let pool := if pooled then lowPriceCandidatePool sorted strategy else sorted in
          let retained : gset string :=
            list_to_set (map (fun x => routingPolicyPriceCandidateKey (candidate x)) pool) in
          let dropped := if pooled
            then List.filter (fun x => negb (bool_decide (routingPolicyPriceCandidateKey (candidate x) ∈ retained))) sorted
            else [] in
          let out := out ++ map (fun x => routingPolicyPriceExclusion.mk (candidate x) "routing_policy_low_price_pool_excluded") dropped in
          let final :=
            if (RoutingPolicyStrategy.Preset strategy <>s RoutingPolicyPresetCost) || RoutingPolicyStrategy.StrictOrder strategy
            then sort_by original_order pool else sort_by (cost_order strategy) pool in
          routingPolicyPriceDecision.mk (map candidate final) out
      end
  end.

(** [evaluateRoutingPolicyPriceRules] after the prices have been read. *)
Definition decide_prices `{UnicodeUpper} (strategy : routing_strategy) (prices : list ProcurementPrice.t)
    (now : time) (protocol : string) (l : list GatewayProvider.t) : price_decision :=
  let '(inputLimit, outputLimit) := routingPolicyAbsolutePriceLimits strategy (routingPolicyRequestedModel l) in
  let active := activeRoutingPrices prices protocol now in
  if bool_decide (active = ∅) then
    if (RoutingPolicyStrategy.MissingPriceAction strategy =s RoutingPolicyMissingPriceBlock)
       && price_rules_configured strategy inputLimit outputLimit
    then routingPolicyPriceDecision.mk []
           (map (fun c => routingPolicyPriceExclusion.mk c "routing_policy_price_fact_missing") l)
    else routingPolicyPriceDecision.mk l []
  else
    let '(priced_, out) := price_candidates strategy active inputLimit outputLimit 0 l in
    rank_priced strategy priced_ out.

Section Service.
Context `{range : MapRange} `{upper : UnicodeUpper}.

Definition price_less (a b : ProcurementPrice.t) : bool :=
  if ProcurementPrice.ProviderAccountID a =s ProcurementPrice.ProviderAccountID b then
    if ProcurementPrice.UpstreamModel a =s ProcurementPrice.UpstreamModel b
    then After (ProcurementPrice.EffectiveFrom a) (ProcurementPrice.EffectiveFrom b)
    else str_ltb (ProcurementPrice.UpstreamModel a) (ProcurementPrice.UpstreamModel b)
  else str_ltb (ProcurementPrice.ProviderAccountID a) (ProcurementPrice.ProviderAccountID b).

Definition ListProcurementPrices (r : MemoryRepository) : list ProcurementPrice.t :=
  sort_by price_less (map_values (procurementPrices r)).

Definition evaluateRoutingPolicyPriceRules (policy : option RoutingPolicy.t) (protocol : string)
    (l : list GatewayProvider.t) : serv price_decision :=
  match policy with
  | None => mret (routingPolicyPriceDecision.mk l [])
  | Some policy =>
      let strategy := RoutingPolicy.Strategy policy in
      let '(inputLimit, outputLimit) := routingPolicyAbsolutePriceLimits strategy (routingPolicyRequestedModel l) in
      if Z.of_nat (length l) =? 0 then mret (routingPolicyPriceDecision.mk l [])
      else if negb (price_rules_configured strategy inputLimit outputLimit)
              && (RoutingPolicyStrategy.Preset strategy <>s RoutingPolicyPresetCost)
      then mret (routingPolicyPriceDecision.mk l [])
      else
        prices ← query ListProcurementPrices;
        now ← nowUTC;
        mret (decide_prices strategy prices now protocol l)
  end.

(** ** All candidate rules of a policy ([gateway_pipeline.go]) *)

Definition routingPolicyAllowsProtocol (strategy : routing_strategy) (protocol : string) : bool :=
  let protocol := TrimSpace protocol in
  if contains (RoutingPolicyStrategy.DeniedProtocols strategy) protocol then false
  else (Z.of_nat (length (RoutingPolicyStrategy.AllowedProtocols strategy)) =? 0)
       || contains (RoutingPolicyStrategy.AllowedProtocols strategy) protocol.

Definition routingPolicyNativeProtocolMatches (protocol upstreamFormat : string) : bool :=
  let protocol := TrimSpace protocol in
  if protocol =s "openai_chat_completions" then upstreamFormat =s UpstreamFormatOpenAIChat
  else if protocol =s "openai_responses" then upstreamFormat =s UpstreamFormatOpenAIResponses
  else if protocol =s "openai_embeddings" then upstreamFormat =s UpstreamFormatOpenAIEmbeddings
  else if protocol =s "anthropic_messages" then upstreamFormat =s UpstreamFormatAnthropic
  else if protocol =s "anthropic_count_tokens" then upstreamFormat =s UpstreamFormatAnthropic
  else if protocol =s "gemini_generate_content" then upstreamFormat =s UpstreamFormatGemini
  else if oneOf protocol ["openai_images_generations"; "openai_media_generations"; "openai_audio_transcriptions";
         "openai_audio_translations"; "openai_audio_speech"; "realtime"; "aster_jobs"]%string
  then upstreamFormat =s UpstreamFormatNativeMedia
  else false.

Definition gatewayCandidatePolicyExclusion (c : GatewayProvider.t) (reason : string) : GatewayCandidateExclusion.t :=
  GatewayCandidateExclusion.mk (GatewayProvider.RouteID c) (GatewayProvider.ID c) (GatewayProvider.AccountID c)
    (GatewayProvider.UpstreamModel c) reason (GatewayProvider.PolicyBatchOrder c) (GatewayProvider.PolicyBatchName c)
    (GatewayProvider.PolicyBatchPosition c) (GatewayProvider.PriceFactPresent c)
    (GatewayProvider.EstimatedInputMicrosPer1M c) (GatewayProvider.EstimatedOutputMicrosPer1M c)
    (GatewayProvider.SelectionReason c).

Definition applyRoutingPolicyCandidateRules (policy : option RoutingPolicy.t) (protocol : string)
    (l : list GatewayProvider.t) : serv routingPolicyCandidateDecision.t :=
  match policy with
  | None => mret (routingPolicyCandidateDecision.mk l [])
  | Some p =>
      if Z.of_nat (length l) =? 0 then mret (routingPolicyCandidateDecision.mk l []) else
      let strategy := RoutingPolicy.Strategy p in
      let native c := routingPolicyNativeProtocolMatches protocol (GatewayProvider.UpstreamFormat c) in
      let kept := if RoutingPolicyStrategy.NativeProtocolOnly strategy then List.filter native l else l in
      let out := if RoutingPolicyStrategy.NativeProtocolOnly strategy
        then map (fun c => gatewayCandidatePolicyExclusion c "routing_policy_native_protocol_required")
               (List.filter (fun c => negb (native c)) l)
        else [] in
      decision ← evaluateRoutingPolicyPriceRules policy protocol kept;
      let out := out ++ map (fun e => gatewayCandidatePolicyExclusion (excluded e) (reason e)) (exclusions decision) in
      if (Z.of_nat (length (candidates decision)) >? 1)
         && negb (RoutingPolicyStrategy.FailoverBeforeFirstByte strategy)
      then mret (routingPolicyCandidateDecision.mk (take 1 (candidates decision))
             (out ++ map (fun c => gatewayCandidatePolicyExclusion c "routing_policy_failover_disabled")
                       (drop 1 (candidates decision))))
      else mret (routingPolicyCandidateDecision.mk (candidates decision) out)
  end.
End Service.

(** ** Every candidate is kept or reported *)

Notation name_of := routingPolicyPriceCandidateKey.
Notation name x := (name_of (candidate x)).

(** What the rules may change of a candidate: its price facts and its reason. *)
Definition same_candidate (c o : GatewayProvider.t) : Prop :=
  GatewayProvider.RouteID c = GatewayProvider.RouteID o /\
  GatewayProvider.AccountID c = GatewayProvider.AccountID o /\
  GatewayProvider.UpstreamModel c = GatewayProvider.UpstreamModel o /\
  GatewayProvider.PolicyBatchOrder c = GatewayProvider.PolicyBatchOrder o.

#[export] Instance same_candidate_refl : Reflexive same_candidate.
Proof. done. Qed.

Lemma same_name c o : same_candidate c o -> name_of c = name_of o.
Proof. intros (H1 & H2 & H3 & _). unfold name_of. by rewrite H1, H2, H3. Qed.

(** The facts a price admits: the two absolute limits. *)
Definition within_limits (inputLimit outputLimit : float64) (p : ProcurementPrice.t) : Prop :=
  (fltb float_zero inputLimit = true -> highest_input p <= dollarsToMicros inputLimit) /\
  (fltb float_zero outputLimit = true -> ProcurementPrice.OutputMicrosPer1MTokens p <= dollarsToMicros outputLimit).

Section Rules.
Context (strategy : routing_strategy) (active : gmap string ProcurementPrice.t).
Context (inputLimit outputLimit : float64).

Definition price_for (c : GatewayProvider.t) : option ProcurementPrice.t :=
  active !! routingPriceKey (GatewayProvider.AccountID c) (GatewayProvider.UpstreamModel c).

(** [x] is what the prices make of the candidate [c] at [index]. *)
Definition priced_as (c : GatewayProvider.t) (index : Z) (x : candidate_price) : Prop :=
  same_candidate (candidate x) c /\ order x = index /\
  match price_for c with
  | None => priced x = false /\ RoutingPolicyStrategy.MissingPriceAction strategy <> RoutingPolicyMissingPriceBlock
  | Some p => priced x = true /\ price x = adjustedRoutingPrice p /\ within_limits inputLimit outputLimit p /\
              GatewayProvider.PriceFactPresent (candidate x) = true
  end.

Lemma price_candidate_spec index c :
  match price_candidate strategy active inputLimit outputLimit index c with
  | inl x => priced_as c index x
  | inr e => same_candidate (excluded e) c /\
      match price_for c with
      | None => RoutingPolicyStrategy.MissingPriceAction strategy = RoutingPolicyMissingPriceBlock
      | Some p => ~ within_limits inputLimit outputLimit p
      end
  end.
Proof.
  unfold price_candidate, priced_as, price_for. destruct (active !! _) as [p|].
  2: { destruct (String.eqb_spec (RoutingPolicyStrategy.MissingPriceAction strategy) RoutingPolicyMissingPriceBlock);
       cbn; split_and!; done. }
  destruct (fltb float_zero inputLimit && _) eqn:E1; [|destruct (fltb float_zero outputLimit && _) eqn:E2].
  - split; [done|]. intros [H1 _]. apply andb_true_iff in E1 as [E1 E2]. specialize (H1 E1).
    unfold routingPolicyInputPriceExceeded in E2. lia.
  - split; [done|]. intros [_ H1]. apply andb_true_iff in E2 as [E2 E3]. specialize (H1 E2). lia.
  - split; [done|]. split_and!; [done..| |done]. unfold routingPolicyInputPriceExceeded in E1.
    split; intros H; rewrite H in *; cbn in *; lia.
Qed.

Lemma price_candidates_partition l : forall index kept out,
  price_candidates strategy active inputLimit outputLimit index l = (kept, out) ->
  map (fun x => name x) kept ++ map (fun e => name_of (excluded e)) out ≡ₚ map name_of l.
Proof.
  induction l as [|c l IH]; intros index kept out; cbn; [by intros [= <- <-]|].
  destruct (price_candidates _ _ _ _ _ l) as [kept' out'] eqn:E. specialize (IH _ _ _ E).
  pose proof (price_candidate_spec index c) as Hc. destruct (price_candidate _ _ _ _ _ _) as [x|e]; intros [= <- <-]; cbn.
  - destruct Hc as [Hc _]. by rewrite (same_name _ _ Hc), IH.
  - destruct Hc as [Hc _]. by rewrite <- Permutation_middle, (same_name _ _ Hc), IH.
Qed.

(** The kept ones in the order of the request, each with its position. *)
Lemma price_candidates_kept l : forall index kept out,
  price_candidates strategy active inputLimit outputLimit index l = (kept, out) ->
  Forall (fun x => exists i c, l !! i = Some c /\ priced_as c (index + Z.of_nat i) x) kept /\
  StronglySorted (fun x y => order x < order y) kept.
Proof.
  induction l as [|c l IH]; intros index kept out; cbn; [intros [= <- <-]; split; constructor|].
  destruct (price_candidates _ _ _ _ _ l) as [kept' out'] eqn:E. destruct (IH _ _ _ E) as [IH1 IH2].
  assert (Hl : Forall (fun x => exists i d, (c :: l) !! S i = Some d /\ priced_as d (index + Z.of_nat (S i)) x) kept').
  { eapply Forall_impl; [exact IH1|]. intros x (i & d & Hi & Hx). exists i, d. split; [done|].
    by replace (index + Z.of_nat (S i)) with (index + 1 + Z.of_nat i) by lia. }
  pose proof (price_candidate_spec index c) as Hc.
  destruct (price_candidate _ _ _ _ _ _) as [x|e]; intros [= <- <-].
  - split.
    + constructor; [|eapply Forall_impl; [exact Hl|]; intros y (i & d & Hd); by exists (S i), d].
      exists O, c. split; [done|]. by rewrite Z.add_0_r.
    + constructor; [done|]. eapply Forall_impl; [exact Hl|]. intros y (i & d & _ & (_ & Hy & _)).
      destruct Hc as (_ & Hx & _). lia.
  - split; [|done]. eapply Forall_impl; [exact Hl|]. intros y (i & d & Hd). by exists (S i), d.
Qed.

(** And every candidate whose price is admitted is among the kept. *)
Lemma price_candidates_complete l : forall index kept out i c p,
  price_candidates strategy active inputLimit outputLimit index l = (kept, out) ->
  l !! i = Some c -> price_for c = Some p -> within_limits inputLimit outputLimit p ->
  exists x, x ∈ kept /\ priced_as c (index + Z.of_nat i) x.
Proof.
  induction l as [|d l IH]; intros index kept out i c p; cbn; [done|].
  destruct (price_candidates _ _ _ _ _ l) as [kept' out'] eqn:E. intros Hk Hi Hp Hw.
  pose proof (price_candidate_spec index d) as Hd. destruct i as [|i]; cbn in Hi.
  - injection Hi as ->. destruct (price_candidate _ _ _ _ _ _) as [x|e]; injection Hk as <- <-.
    + exists x. split; [by left|]. by rewrite Z.add_0_r.
    + destruct Hd as [_ Hd]. rewrite Hp in Hd. done.
  - destruct (IH _ _ _ _ _ _ E Hi Hp Hw) as (x & Hx & Hx2). exists x.
    replace (index + Z.of_nat (S i)) with (index + 1 + Z.of_nat i) by lia. split; [|done].
    destruct (price_candidate _ _ _ _ _ _); injection Hk as <- <-; [by right|done].
Qed.
End Rules.

Lemma filter_split {A} (p : A -> bool) l : List.filter p l ++ List.filter (fun x => negb (p x)) l ≡ₚ l.
Proof.
  induction l as [|x l IH]; cbn; [done|]. destruct (p x); cbn; [by rewrite IH|].
  rewrite <- Permutation_middle. by rewrite IH.
Qed.

Lemma filter_perm {A} (p : A -> bool) l k : l ≡ₚ k -> List.filter p l ≡ₚ List.filter p k.
Proof.
  induction 1 as [|x l k _ IH|x y l|l1 l2 l3 _ IH1 _ IH2]; cbn; [done|..].
  - destruct (p x); by rewrite IH.
  - destruct (p x), (p y); try done. apply Permutation_swap.
  - by rewrite IH1.
Qed.

(** *** The pool *)

(** The batches of a list, taken apart and put together. *)
Lemma batches_perm l : forall bs, NoDup bs -> (forall x, x ∈ l -> batch_of x ∈ bs) ->
  List.concat (map (fun b => List.filter (fun x => batch_of x =? b) l) bs) ≡ₚ l.
Proof.
  intros bs Hbs. revert l. induction Hbs as [|b bs Hb _ IH]; intros l Hl; cbn.
  { destruct l as [|x l]; [done|]. exfalso. specialize (Hl x (list_elem_of_here _ _)). by apply elem_of_nil in Hl. }
  set (rest := List.filter (fun x => negb (batch_of x =? b)) l).
  assert (E : map (fun b => List.filter (fun x => batch_of x =? b) l) bs
              = map (fun b => List.filter (fun x => batch_of x =? b) rest) bs).
  { apply map_ext_in. intros b' Hb'%list_elem_of_In. unfold rest.
    assert (Hne : b' <> b) by (by intros ->). clear -Hne.
    induction l as [|x l IH]; cbn; [done|].
    destruct (batch_of x =? b') eqn:E1, (batch_of x =? b) eqn:E2; cbn; rewrite ?E1, IH; try done; lia. }
  rewrite E, (IH rest); [apply filter_split|].
  intros x Hx. unfold rest in Hx. apply list_elem_of_In, List.filter_In in Hx as [Hx Hne].
  apply list_elem_of_In, Hl, elem_of_cons in Hx as [Hx|Hx]; [lia|done].
Qed.

Lemma batch_order_spec l :
  NoDup (batch_order l) /\ forall x, x ∈ l -> batch_of x ∈ batch_order l.
Proof.
  unfold batch_order. cut (forall out, NoDup out ->
    NoDup (foldl (fun out x => if bool_decide (batch_of x ∈ out) then out else out ++ [batch_of x]) out l) /\
    (forall b, b ∈ out -> b ∈ foldl (fun out x => if bool_decide (batch_of x ∈ out) then out else out ++ [batch_of x]) out l) /\
    (forall x, x ∈ l -> batch_of x ∈ foldl (fun out x => if bool_decide (batch_of x ∈ out) then out else out ++ [batch_of x]) out l)).
  { intros H. destruct (H [] (NoDup_nil_2)) as (H1 & _ & H2). done. }
  induction l as [|x l IH]; intros out Hout; cbn.
  { split_and!; [done|done|]. intros x Hx. by apply elem_of_nil in Hx. }
  destruct (bool_decide (batch_of x ∈ out)) eqn:E.
  - apply bool_decide_eq_true in E. destruct (IH out Hout) as (H1 & H2 & H3). split_and!; [done|done|].
    intros y [->|Hy]%elem_of_cons; auto.
  - apply bool_decide_eq_false in E. destruct (IH (out ++ [batch_of x])) as (H1 & H2 & H3).
    { apply NoDup_app. split_and!; [done| |apply NoDup_singleton]. intros b Hb ->%list_elem_of_singleton. done. }
    split_and!; [done| |].
    + intros b Hb. apply H2, elem_of_app. by left.
    + intros y [->|Hy]%elem_of_cons; [|by apply H3]. apply H2, elem_of_app. right. by apply list_elem_of_singleton.
Qed.

Lemma kept_in_range strategy n : 0 <= RoutingPolicyStrategy.LowPricePoolMinCandidates strategy -> 0 <= n ->
  0 <= pool_keep strategy n <= n.
Proof. intros Hm Hn. unfold pool_keep. repeat case_match; lia. Qed.

(** What a batch loses: the dearest of its priced candidates. *)
Definition batch_rest (strategy : routing_strategy) (items : list candidate_price) : list candidate_price :=
  drop (Z.to_nat (pool_keep strategy (Z.of_nat (length (List.filter priced items))))) (List.filter priced items).

Lemma batch_pool_perm strategy items : batch_pool strategy items ++ batch_rest strategy items ≡ₚ items.
Proof.
  unfold batch_pool, batch_rest. destruct (List.filter priced items) as [|x known] eqn:E.
  { rewrite drop_nil, app_nil_r. done. }
  rewrite <- E. set (k := Z.to_nat _). etrans; [|exact (filter_split priced items)].
  rewrite (Permutation_app_comm (take k _)), <- app_assoc, take_drop. apply Permutation_app_comm.
Qed.

Definition pool_rest (strategy : routing_strategy) (l : list candidate_price) : list candidate_price :=
  List.concat (map (fun b => batch_rest strategy (List.filter (fun x => batch_of x =? b) l)) (batch_order l)).

Lemma pool_perm strategy l : lowPriceCandidatePool l strategy ++ pool_rest strategy l ≡ₚ l.
Proof.
  destruct (batch_order_spec l) as [H1 H2]. rewrite <- (batches_perm l _ H1 H2) at 3.
  unfold lowPriceCandidatePool, pool_rest. clear. induction (batch_order l) as [|b bs IH]; cbn; [done|].
  rewrite <- (batch_pool_perm strategy (List.filter _ l)) at 3. rewrite <- IH. rewrite <- !app_assoc.
  apply Permutation_app_head. rewrite !app_assoc. apply Permutation_app_tail, Permutation_app_comm.
Qed.

(** What is not in the pool by its name is what the pool dropped. *)
Lemma dropped_rest (pool rest l : list candidate_price) :
  pool ++ rest ≡ₚ l -> NoDup (map (fun x => name x) l) ->
  List.filter (fun x => negb (bool_decide (name x ∈ (list_to_set (map (fun x => name x) pool) : gset string)))) l ≡ₚ rest.
Proof.
  intros Hp Hl. assert (Hd : NoDup (map (fun x => name x) pool ++ map (fun x => name x) rest)).
  { rewrite <- map_app. rewrite (Permutation_map (fun x => name x) Hp). done. }
  apply NoDup_app in Hd as (_ & Hd & _).
  set (f := fun x => negb _). rewrite <- (filter_perm f _ _ Hp), List.filter_app, (filter_nil f pool); cbn.
  - rewrite forallb_filter_id; [done|]. apply forallb_forall. intros x Hx. unfold f. rewrite negb_true_iff.
    apply bool_decide_eq_false. rewrite elem_of_list_to_set. intros Hin. apply (Hd _ Hin), list_elem_of_In, in_map_iff. eauto.
  - intros x Hx. unfold f. rewrite negb_false_iff. apply bool_decide_eq_true, elem_of_list_to_set, list_elem_of_In, in_map_iff.
    exists x. split; [done|]. by apply list_elem_of_In.
Qed.

(** *** The decision, in one piece *)

Section Decision.
Context (strategy : routing_strategy).

Definition near (l : list candidate_price) : list candidate_price :=
  if fltb float_zero (RoutingPolicyStrategy.MaxPriceMultipleOfCheapest strategy)
  then List.filter (within_multiple strategy (cheapest_by_batch l)) l else l.
Definition far (l : list candidate_price) : list candidate_price :=
  if fltb float_zero (RoutingPolicyStrategy.MaxPriceMultipleOfCheapest strategy)
  then List.filter (fun x => negb (within_multiple strategy (cheapest_by_batch l) x)) l else [].
Definition pool_of (l : list candidate_price) : list candidate_price :=
  if oneOf (RoutingPolicyStrategy.LowPricePoolMode strategy) low_price_modes
  then lowPriceCandidatePool l strategy else l.
Definition dropped_of (l : list candidate_price) : list candidate_price :=
  if oneOf (RoutingPolicyStrategy.LowPricePoolMode strategy) low_price_modes
  then List.filter (fun x => negb (bool_decide (name x ∈ (list_to_set (map (fun x => name x) (pool_of l)) : gset string)))) l
  else [].
Definition keeps_order : bool :=
  (RoutingPolicyStrategy.Preset strategy <>s RoutingPolicyPresetCost) || RoutingPolicyStrategy.StrictOrder strategy.
Definition final_order (l : list candidate_price) : list candidate_price :=
  if keeps_order then sort_by original_order l else sort_by (cost_order strategy) l.

Lemma rank_priced_eq l out :
  rank_priced strategy l out =
  routingPolicyPriceDecision.mk (map candidate (final_order (pool_of (sort_by price_order (near l)))))
    (out ++ map (fun x => routingPolicyPriceExclusion.mk (candidate x) "routing_policy_relative_price_exceeded") (far l)
         ++ map (fun x => routingPolicyPriceExclusion.mk (candidate x) "routing_policy_low_price_pool_excluded")
              (dropped_of (sort_by price_order (near l)))).
Proof.
  assert (H0 : final_order (pool_of []) = [] /\ dropped_of [] = []).
  { unfold final_order, pool_of, dropped_of. by repeat case_match. }
  unfold rank_priced. destruct l as [|x l].
  { assert (E : near [] = [] /\ far [] = []) by (unfold near, far; by case_match). destruct E as [-> ->].
    destruct H0 as [Ha Hb]. cbn [sort_by foldr]. rewrite Ha, Hb. cbn. by rewrite app_nil_r. }
  fold (near (x :: l)) (far (x :: l)). destruct (near (x :: l)) as [|y k].
  { destruct H0 as [Ha Hb]. cbn [sort_by foldr]. rewrite Ha, Hb. cbn. by rewrite app_nil_r. }
  rewrite <- app_assoc. done.
Qed.

Lemma near_far l : near l ++ far l ≡ₚ l.
Proof. unfold near, far. case_match; [apply filter_split|by rewrite app_nil_r]. Qed.
Lemma final_order_perm l : final_order l ≡ₚ l.
Proof. unfold final_order. case_match; apply sort_by_perm. Qed.
Lemma pool_of_perm l : NoDup (map (fun x => name x) l) -> pool_of l ++ dropped_of l ≡ₚ l.
Proof.
  intros Hl. unfold dropped_of, pool_of. case_match; [|by rewrite app_nil_r].
  rewrite (dropped_rest _ _ _ (pool_perm strategy l) Hl). apply pool_perm.
Qed.
Lemma elem_of_pool_of x l : x ∈ pool_of l -> x ∈ l.
Proof.
  unfold pool_of. case_match; [|done]. intros Hx. rewrite <- (pool_perm strategy l). apply elem_of_app. by left.
Qed.

Lemma rank_priced_partition l out : NoDup (map (fun x => name x) l) ->
  let d := rank_priced strategy l out in
  map name_of (candidates d) ++ map (fun e => name_of (excluded e)) (exclusions d)
  ≡ₚ map (fun x => name x) l ++ map (fun e => name_of (excluded e)) out.
Proof.
  intros Hl d. unfold d. rewrite rank_priced_eq. cbn [candidates exclusions].
  rewrite !map_app, !map_map. cbn [excluded]. set (N := fun x => name x) in *.
  assert (Hn : NoDup (map N (sort_by price_order (near l)))).
  { rewrite (Permutation_map N (sort_by_perm _ _)).
    rewrite <- (Permutation_map N (near_far l)), map_app in Hl. by apply NoDup_app in Hl as (Hl & _). }
  rewrite (Permutation_map N (final_order_perm _)).
  set (k := sort_by price_order (near l)) in *.
  assert (E : map N l ≡ₚ map N (pool_of k) ++ map N (dropped_of k) ++ map N (far l)).
  { rewrite <- (Permutation_map N (near_far l)), map_app, app_assoc. apply Permutation_app_tail.
    rewrite <- map_app, (Permutation_map N (pool_of_perm k Hn)). unfold k. by rewrite (Permutation_map N (sort_by_perm _ _)). }
  rewrite E, <- app_assoc. apply Permutation_app_head.
  rewrite (Permutation_app_comm (map _ out)). apply Permutation_app_tail, Permutation_app_comm.
Qed.
End Decision.

Lemma NoDup_kept {A} (f : GatewayProvider.t -> A) (p : GatewayProvider.t -> bool) l :
  NoDup (map f l) -> NoDup (map f (List.filter p l)).
Proof.
  intros Hl. rewrite <- (Permutation_map f (filter_split p l)), map_app in Hl. by apply NoDup_app in Hl as (Hl & _).
Qed.

Lemma decide_prices_partition `{UnicodeUpper} strategy prices now protocol l : NoDup (map name_of l) ->
  let d := decide_prices strategy prices now protocol l in
  map name_of (candidates d) ++ map (fun e => name_of (excluded e)) (exclusions d) ≡ₚ map name_of l.
Proof.
  intros Hl d. unfold d, decide_prices. destruct (routingPolicyAbsolutePriceLimits _ _) as [i o].
  case_match; [case_match|].
  - cbn. by rewrite map_map.
  - cbn. by rewrite app_nil_r.
  - destruct (price_candidates _ _ _ _ _ _) as [kept out] eqn:E. apply price_candidates_partition in E.
    rewrite <- E. apply rank_priced_partition. rewrite <- E in Hl. by apply NoDup_app in Hl as (Hl & _).
Qed.

Definition exclusion_name (e : GatewayCandidateExclusion.t) : string :=
  if GatewayCandidateExclusion.RouteID e <>s "" then GatewayCandidateExclusion.RouteID e
  else routingPriceKey (GatewayCandidateExclusion.ProviderAccountID e) (GatewayCandidateExclusion.UpstreamModel e).

Lemma exclusion_names reason l :
  map exclusion_name (map (fun c => gatewayCandidatePolicyExclusion c reason) l) = map name_of l.
Proof. apply map_map. Qed.
Lemma exclusion_names_priced es :
  map exclusion_name (map (fun e => gatewayCandidatePolicyExclusion (excluded e) (reason e)) es)
  = map (fun e => name_of (excluded e)) es.
Proof. apply map_map. Qed.

Section Properties.
Context `{range : MapRange} `{upper : UnicodeUpper}.

Lemma evaluate_yields policy protocol l (P : price_decision -> Prop) :
  P (routingPolicyPriceDecision.mk l []) ->
  (forall p prices now, policy = Some p -> P (decide_prices (RoutingPolicy.Strategy p) prices now protocol l)) ->
  yields (evaluateRoutingPolicyPriceRules policy protocol l) P.
Proof.
  intros H0 H1. unfold evaluateRoutingPolicyPriceRules. destruct policy as [p|]; [|done].
  destruct (routingPolicyAbsolutePriceLimits _ _). repeat (case_match; [done|]).
  eapply yields_bind; [apply yields_any|]. intros prices _.
  eapply yields_bind; [apply yields_any|]. intros now _. by apply H1.
Qed.

(** C30. The rules of a routing policy lose no candidate and invent none: of
    candidates with distinct names, each is either among the candidates that are
    tried or in the report, and exactly once. *)
Theorem rules_partition policy protocol l : NoDup (map name_of l) ->
  yields (applyRoutingPolicyCandidateRules policy protocol l) (fun d =>
    map name_of (Candidates d) ++ map exclusion_name (Exclusions d) ≡ₚ map name_of l).
Proof.
  intros Hl. unfold applyRoutingPolicyCandidateRules. destruct policy as [p|]; [|cbn; by rewrite app_nil_r].
  case_match; [cbn; by rewrite app_nil_r|]. cbv zeta.
  set (native := fun c => routingPolicyNativeProtocolMatches protocol (GatewayProvider.UpstreamFormat c)).
  set (only := RoutingPolicyStrategy.NativeProtocolOnly (RoutingPolicy.Strategy p)).
  set (kept := if only then List.filter native l else l).
  set (out := if only then map _ _ else []).
  assert (Hsplit : map name_of kept ++ map exclusion_name out ≡ₚ map name_of l).
  { unfold kept, out. case_match; [|cbn; by rewrite app_nil_r].
    rewrite exclusion_names, <- map_app. apply Permutation_map, filter_split. }
  assert (Hkept : NoDup (map name_of kept)) by (unfold kept; case_match; [by apply NoDup_kept|done]).
  eapply yields_bind with (P := fun d => map name_of (candidates d) ++ map (fun e => name_of (excluded e)) (exclusions d) ≡ₚ map name_of kept).
  { apply evaluate_yields; [cbn; by rewrite app_nil_r|]. intros q prices now _. by apply decide_prices_partition. }
  intros d Hd. case_match; apply yields_mret; cbn [Candidates Exclusions];
    rewrite <- Hsplit, <- Hd, !map_app, ?exclusion_names, exclusion_names_priced.
  - rewrite <- (take_drop 1 (candidates d)) at 3. rewrite map_app, <- !app_assoc. apply Permutation_app_head.
    rewrite app_assoc, Permutation_app_comm. apply Permutation_app_head, Permutation_app_comm.
  - rewrite <- app_assoc. apply Permutation_app_head, Permutation_app_comm.
Qed.
End Properties.

(** ** What the limits promise *)

(** [p] is the price of a key that is in force: the latest of those that count. *)
Definition in_force `{UnicodeUpper} (prices : list ProcurementPrice.t) (protocol : string) (now : time)
    (key : string) (p : ProcurementPrice.t) : Prop :=
  p ∈ prices /\ price_counts protocol now p = true /\
  routingPriceKey (ProcurementPrice.ProviderAccountID p) (ProcurementPrice.UpstreamModel p) = key /\
  forall q, q ∈ prices -> price_counts protocol now q = true ->
    routingPriceKey (ProcurementPrice.ProviderAccountID q) (ProcurementPrice.UpstreamModel q) = key ->
    After (ProcurementPrice.EffectiveFrom q) (ProcurementPrice.EffectiveFrom p) = false.

Lemma active_in_force `{UnicodeUpper} prices protocol now key :
  match activeRoutingPrices prices protocol now !! key with
  | Some p => in_force prices protocol now key p
  | None => forall q, q ∈ prices -> price_counts protocol now q = true ->
      routingPriceKey (ProcurementPrice.ProviderAccountID q) (ProcurementPrice.UpstreamModel q) <> key
  end.
Proof.
  unfold activeRoutingPrices. induction prices as [|p prices IH] using rev_ind.
  { cbn [foldl]. rewrite lookup_empty. intros q Hq. by apply elem_of_nil in Hq. }
  rewrite foldl_app. cbn [foldl]. set (out := foldl _ _ prices) in *.
  assert (Hkept : (price_counts protocol now p = true ->
      routingPriceKey (ProcurementPrice.ProviderAccountID p) (ProcurementPrice.UpstreamModel p) = key ->
      exists a, out !! key = Some a /\ After (ProcurementPrice.EffectiveFrom p) (ProcurementPrice.EffectiveFrom a) = false) ->
    match out !! key with
    | Some p0 => in_force (prices ++ [p]) protocol now key p0
    | None => forall q, q ∈ prices ++ [p] -> price_counts protocol now q = true ->
        routingPriceKey (ProcurementPrice.ProviderAccountID q) (ProcurementPrice.UpstreamModel q) <> key
    end).
  { intros Hp. destruct (out !! key) as [a|].
    - destruct IH as (H1 & H2 & H3 & H4). split_and!; [set_solver|done|done|].
      intros q [Hq|Hq%list_elem_of_singleton]%elem_of_app Hc Hk; [by apply H4|]. subst q.
      destruct (Hp Hc Hk) as (? & [= <-] & Ha). done.
    - intros q [Hq|Hq%list_elem_of_singleton]%elem_of_app Hc Hk; [by eapply IH|]. subst q.
      by destruct (Hp Hc Hk) as (? & ? & _). }
  destruct (price_counts protocol now p) eqn:E; [|by apply Hkept].
  destruct (decide (routingPriceKey (ProcurementPrice.ProviderAccountID p) (ProcurementPrice.UpstreamModel p) = key)) as [<-|Hne].
  2: { assert (Hsame : forall m, <[routingPriceKey (ProcurementPrice.ProviderAccountID p) (ProcurementPrice.UpstreamModel p) := p]> m !! key
                        = (m : gmap string ProcurementPrice.t) !! key) by (intros m; by apply lookup_insert_ne).
       destruct (out !! routingPriceKey _ _) as [a|]; [destruct (After (ProcurementPrice.EffectiveFrom p) (ProcurementPrice.EffectiveFrom a))|];
         rewrite ?Hsame; by apply Hkept. }
  destruct (out !! routingPriceKey _ _) as [a|] eqn:Eo; [destruct (After (ProcurementPrice.EffectiveFrom p) (ProcurementPrice.EffectiveFrom a)) eqn:Ea|].
  - rewrite lookup_insert_eq. destruct IH as (H1 & H2 & H3 & H4). split_and!; [set_solver|done|done|].
    intros q [Hq|Hq%list_elem_of_singleton]%elem_of_app Hc Hk; [|subst q; unfold After; lia].
    specialize (H4 q Hq Hc Hk). unfold After in *. lia.
  - rewrite Eo. apply Hkept. eauto.
  - rewrite lookup_insert_eq. split_and!; [set_solver|done|done|].
    intros q [Hq|Hq%list_elem_of_singleton]%elem_of_app Hc Hk; [by destruct (IH q Hq Hc)|subst q; unfold After; lia].
Qed.

(** The lowest price of a batch. *)
Lemma cheapest_spec l :
  (forall b low, cheapest_by_batch l !! b = Some low -> exists x, x ∈ l /\ priced x = true /\ batch_of x = b /\ price x = low) /\
  (forall x, x ∈ l -> priced x = true -> exists low, cheapest_by_batch l !! batch_of x = Some low /\ low <= price x).
Proof.
  unfold cheapest_by_batch. induction l as [|y l IH] using rev_ind.
  { split; [intros b low Hb; cbn [foldl] in Hb; by rewrite lookup_empty in Hb|]. intros x Hx. by apply elem_of_nil in Hx. }
  rewrite foldl_app. cbn [foldl]. set (m := foldl _ _ l) in *. destruct IH as [IH1 IH2].
  destruct (priced y && _) eqn:E.
  - apply andb_true_iff in E as [Ey E]. split.
    + intros b low [ [<- <-]|[_ Hb]]%lookup_insert_Some; [exists y; set_solver|].
      destruct (IH1 b low Hb) as (x & Hx & Hx2). exists x. split; [set_solver|done].
    + intros x [Hx| ->%list_elem_of_singleton]%elem_of_app Hp; [|exists (price y); rewrite lookup_insert_eq; split; [done|lia]].
      destruct (IH2 x Hx Hp) as (low & Hlow & Hle). destruct (decide (batch_of y = batch_of x)) as [Eb|Hb].
      * rewrite Eb in *. rewrite Hlow in E. exists (price y). rewrite lookup_insert_eq. split; [done|lia].
      * exists low. by rewrite lookup_insert_ne.
  - split.
    + intros b low Hb. destruct (IH1 b low Hb) as (x & Hx & Hx2). exists x. split; [set_solver|done].
    + intros x [Hx| ->%list_elem_of_singleton]%elem_of_app Hp; [by apply IH2|]. rewrite Hp in E. cbn in E.
      destruct (m !! batch_of y) as [low|]; [|done]. exists low. split; [done|lia].
Qed.

Lemma elem_of_filter_bool {A} (p : A -> bool) x l : x ∈ List.filter p l <-> p x = true /\ x ∈ l.
Proof. rewrite !list_elem_of_In, List.filter_In. tauto. Qed.

(** What becomes of a candidate that is tried: one that the prices kept, not too far
    from the cheapest of its batch. *)
Lemma rank_priced_kept strategy l out c : c ∈ candidates (rank_priced strategy l out) ->
  exists x, x ∈ l /\ candidate x = c /\
    (fltb float_zero (RoutingPolicyStrategy.MaxPriceMultipleOfCheapest strategy) = true ->
     within_multiple strategy (cheapest_by_batch l) x = true).
Proof.
  rewrite rank_priced_eq. cbn [candidates]. intros Hc.
  apply list_elem_of_In, in_map_iff in Hc as (x & <- & Hx). apply list_elem_of_In in Hx.
  rewrite final_order_perm in Hx. apply elem_of_pool_of, elem_of_sort_by in Hx. unfold near in Hx. exists x.
  case_match; [apply elem_of_filter_bool in Hx as [Hm Hx]|]; done.
Qed.

(** The price [p] stays within the multiple of the lowest price of a batch that is
    within the limits. *)
Definition near_cheapest (strategy : routing_strategy) (active : gmap string ProcurementPrice.t)
    (inputLimit outputLimit : float64) (batch : Z) (l : list GatewayProvider.t) (p : ProcurementPrice.t) : Prop :=
  let offers q := exists o, o ∈ l /\ GatewayProvider.PolicyBatchOrder o = batch /\ price_for active o = Some q /\
                            within_limits inputLimit outputLimit q in
  exists q, offers q /\ (forall q', offers q' -> adjustedRoutingPrice q <= adjustedRoutingPrice q') /\
    fleb (of_int (adjustedRoutingPrice p))
      (fmul (of_int (adjustedRoutingPrice q)) (RoutingPolicyStrategy.MaxPriceMultipleOfCheapest strategy)) = true.

Lemma within_multiple_near strategy active i o l index kept out pos x c p :
  price_candidates strategy active i o index l = (kept, out) -> x ∈ kept ->
  priced_as strategy active i o c pos x -> price_for active c = Some p ->
  within_multiple strategy (cheapest_by_batch kept) x = true ->
  near_cheapest strategy active i o (batch_of x) l p.
Proof.
  intros Hk Hx (_ & _ & Hc) Hp Hm. rewrite Hp in Hc. destruct Hc as (Hpr & Hprice & _).
  destruct (cheapest_spec kept) as [H1 _]. pose proof (price_candidates_kept _ _ _ _ _ _ _ _ Hk) as [Hf _].
  unfold within_multiple in Hm. rewrite Hpr in Hm. cbn in Hm.
  destruct (cheapest_by_batch kept !! batch_of x) as [low|] eqn:El; [|done].
  destruct (H1 _ _ El) as (y & Hy & Hyp & Hyb & <-).
  pose proof (proj1 (Forall_forall _ _) Hf y Hy) as (j & d & Hj & (_ & _ & _ & Hb) & _ & Hd).
  destruct (price_for active d) as [q|] eqn:Eq; [|destruct Hd; congruence]. destruct Hd as (_ & Hq & Hqw & _).
  exists q. split_and!.
  - exists d. split_and!; [by eapply list_elem_of_lookup_2|by rewrite <- Hb|done|done].
  - intros q' (d' & Hd' & Hb' & Hp' & Hw'). apply list_elem_of_lookup in Hd' as [k Hd'].
    destruct (price_candidates_complete _ _ _ _ _ _ _ _ _ _ _ Hk Hd' Hp' Hw') as (z & Hz & (_ & _ & _ & Hzb) & _ & Hzp).
    rewrite Hp' in Hzp. destruct Hzp as (Hzp & Hzq & _). destruct (cheapest_spec kept) as [_ H2].
    destruct (H2 z Hz Hzp) as (low & Hlow & Hle). replace (batch_of z) with (batch_of x) in Hlow by (unfold batch_of in *; congruence). rewrite El in Hlow.
    injection Hlow as <-. lia.
  - by rewrite <- Hq, <- Hprice.
Qed.

(** C31. The limits of a routing policy hold of every candidate that is tried, at the
    price in force for its account and model: input - the dearest way to pay for an
    input token - and output are within the absolute limits, and the price is within
    the configured multiple of the cheapest admissible candidate of its batch; a
    candidate without a price is tried only when the policy does not block those. *)
Theorem limits_enforced `{UnicodeUpper} strategy prices now protocol l c :
  c ∈ candidates (decide_prices strategy prices now protocol l) ->
  let '(inputLimit, outputLimit) := routingPolicyAbsolutePriceLimits strategy (routingPolicyRequestedModel l) in
  let active := activeRoutingPrices prices protocol now in
  match price_for active c with
  | None => RoutingPolicyStrategy.MissingPriceAction strategy <> RoutingPolicyMissingPriceBlock
  | Some p =>
      in_force prices protocol now (routingPriceKey (GatewayProvider.AccountID c) (GatewayProvider.UpstreamModel c)) p /\
      within_limits inputLimit outputLimit p /\
      (fltb float_zero (RoutingPolicyStrategy.MaxPriceMultipleOfCheapest strategy) = true ->
       near_cheapest strategy active inputLimit outputLimit (GatewayProvider.PolicyBatchOrder c) l p)
  end.
Proof.
  unfold decide_prices. destruct (routingPolicyAbsolutePriceLimits _ _) as [i o].
  pose proof (active_in_force prices protocol now (routingPriceKey (GatewayProvider.AccountID c) (GatewayProvider.UpstreamModel c))) as Hact.
  set (active := activeRoutingPrices prices protocol now) in *.
  destruct (bool_decide (active = ∅)) eqn:Ea.
  { apply bool_decide_eq_true in Ea. unfold price_for. rewrite Ea in *. rewrite lookup_empty in *.
    destruct (String.eqb_spec (RoutingPolicyStrategy.MissingPriceAction strategy) RoutingPolicyMissingPriceBlock) as [Em|Em]; [|done].
    assert (Hr : price_rules_configured strategy i o = true).
    { unfold price_rules_configured. rewrite Em. cbn. by rewrite !orb_true_r. }
    rewrite Hr. cbn. intros Hc. by apply elem_of_nil in Hc. }
  destruct (price_candidates _ _ _ _ _ _) as [kept out] eqn:Ek.
  intros (x & Hx & <- & Hm)%rank_priced_kept.
  destruct (price_candidates_kept _ _ _ _ _ _ _ _ Ek) as [Hf _].
  destruct (proj1 (Forall_forall _ _) Hf x Hx) as (j & d & Hj & Hd).
  pose proof Hd as ((_ & Ha & Hu & Hb) & _ & Hp).
  assert (Efor : price_for active (candidate x) = price_for active d) by (unfold price_for; by rewrite Ha, Hu).
  unfold price_for in Efor at 1. rewrite Efor in Hact. unfold price_for at 1. rewrite Efor.
  destruct (price_for active d) as [p|] eqn:Ep; [|by destruct Hp]. split_and!; [done|by destruct Hp as (_ & _ & Hw & _)|].
  intros Hmul. by eapply within_multiple_near; [exact Ek|exact Hx|exact Hd|exact Ep|apply Hm].
Qed.

(** ** In which order the candidates are tried *)

Definition price_rank (x : candidate_price) : Z := if priced x then price x else 0.

Definition cost_compare (strategy : routing_strategy) : candidate_price -> candidate_price -> comparison :=
  cmp_then (cmp_then (cmp_on batch_of Z.compare)
    (cmp_then (cmp_on (preferred strategy) cmp_true_first)
    (cmp_then (cmp_on priced cmp_true_first) (cmp_on price_rank Z.compare))))
    (cmp_on order Z.compare).
Definition order_compare : candidate_price -> candidate_price -> comparison := cmp_on order Z.compare.

#[export] Instance cost_compare_comparator strategy : Comparator (cost_compare strategy).
Proof. unfold cost_compare. apply _. Qed.
#[export] Instance order_compare_comparator : Comparator order_compare.
Proof. unfold order_compare. apply _. Qed.

Lemma is_lt_compare x y : is_lt (x ?= y) = (x <? y).
Proof. unfold Z.ltb. by destruct (x ?= y). Qed.

Lemma cost_order_compare strategy x y : cost_order strategy x y = is_lt (cost_compare strategy x y).
Proof.
  unfold cost_order, cost_compare, cmp_then, cmp_on, price_rank.
  destruct (Z.eqb_spec (batch_of x) (batch_of y)) as [Eb|Hb]; cbn [negb].
  2: { rewrite <- is_lt_compare. destruct (Z.compare_spec (batch_of x) (batch_of y)); done. }
  rewrite Eb, Z.compare_refl. destruct (preferred strategy x), (preferred strategy y); try done; cbn [Bool.eqb negb cmp_true_first];
    destruct (priced x), (priced y); try done; cbn [Bool.eqb negb cmp_true_first andb];
    rewrite ?Z.compare_refl, <- ?is_lt_compare; try done;
    (destruct (Z.eqb_spec (price x) (price y)) as [->|Hp]; cbn [negb];
      [by rewrite Z.compare_refl|destruct (Z.compare_spec (price x) (price y)); done]).
Qed.

Lemma strictly_sorted_sublist (k f : list candidate_price) :
  StronglySorted (fun x y => order x < order y) k -> StronglySorted (fun x y => order x < order y) f ->
  (forall x, x ∈ f -> x ∈ k) -> f `sublist_of` k.
Proof.
  intros Hk. revert f. induction Hk as [|y k Hk IH Hy]; intros f Hf Hin.
  { destruct f as [|x f]; [done|]. exfalso. by apply (not_elem_of_nil x), Hin, list_elem_of_here. }
  rewrite Forall_forall in Hy. destruct Hf as [|x f Hf Hx]; [apply sublist_nil_l|]. rewrite Forall_forall in Hx.
  destruct (proj1 (elem_of_cons _ _ _) (Hin x (list_elem_of_here _ _))) as [->|Hxk].
  - apply sublist_skip, IH; [done|]. intros z Hz. specialize (Hx z Hz).
    destruct (proj1 (elem_of_cons _ _ _) (Hin z (list_elem_of_further _ _ _ Hz))) as [->|]; [lia|done].
  - apply sublist_cons, IH; [by constructor; [|apply Forall_forall]|].
    intros z Hz. assert (Hlt : order y < order z).
    { apply elem_of_cons in Hz as [->|Hz]; [by apply Hy|]. specialize (Hx z Hz). specialize (Hy x Hxk). lia. }
    destruct (proj1 (elem_of_cons _ _ _) (Hin z Hz)) as [->|]; [lia|done].
Qed.

Lemma strictly_sorted_nodup (k : list candidate_price) :
  StronglySorted (fun x y => order x < order y) k -> NoDup (map order k).
Proof.
  induction 1 as [|x k _ IH Hx]; cbn; constructor; [|done].
  intros (y & Hy & Hin)%list_elem_of_In%in_map_iff. rewrite Forall_forall in Hx.
  specialize (Hx y (proj2 (list_elem_of_In _ _) Hin)). lia.
Qed.

Lemma sorted_strictly (f : list candidate_price) : NoDup (map order f) ->
  StronglySorted (not_after order_compare) f -> StronglySorted (fun x y => order x < order y) f.
Proof.
  intros Hd. induction 1 as [|x f _ IH Hx]; cbn in Hd; constructor.
  - apply IH. by inversion Hd.
  - rewrite Forall_forall in *. intros y Hy. specialize (Hx y Hy). unfold not_after, order_compare, cmp_on in Hx.
    assert (order x <> order y).
    { intros E. inversion Hd as [|? ? Hn _]; subst. apply Hn. rewrite E. by apply list_elem_of_In, in_map, list_elem_of_In. }
    destruct (Z.compare_spec (order y) (order x)); [congruence|done|lia].
Qed.

Lemma pool_in_kept strategy l :
  exists rest, pool_of strategy (sort_by price_order (near strategy l)) ++ rest ≡ₚ l.
Proof.
  set (k := sort_by price_order (near strategy l)).
  assert (H : exists rest, pool_of strategy k ++ rest ≡ₚ k).
  { unfold pool_of. case_match; [eexists; apply pool_perm|exists []; by rewrite app_nil_r]. }
  destruct H as [rest H]. exists (rest ++ far strategy l). rewrite app_assoc, H. unfold k.
  rewrite sort_by_perm. apply near_far.
Qed.

Lemma names_kept strategy active i o l : forall index kept out,
  price_candidates strategy active i o index l = (kept, out) ->
  map (fun x => name x) kept `sublist_of` map name_of l.
Proof.
  induction l as [|c l IH]; intros index kept out; cbn; [by intros [= <- <-]|].
  destruct (price_candidates _ _ _ _ _ l) as [kept' out'] eqn:E. specialize (IH _ _ _ E).
  pose proof (price_candidate_spec strategy active i o index c) as Hc.
  destruct (price_candidate _ _ _ _ _ _) as [x|e]; intros [= <- <-]; cbn; [|by apply sublist_cons].
  destruct Hc as [Hc _]. rewrite (same_name _ _ Hc). by apply sublist_skip.
Qed.

(** The order of a policy that optimises cost, on candidates and the prices in force. *)
Definition cheaper_first (strategy : routing_strategy) (active : gmap string ProcurementPrice.t)
    : GatewayProvider.t -> GatewayProvider.t -> comparison :=
  cmp_then (cmp_on GatewayProvider.PolicyBatchOrder Z.compare)
    (cmp_then (cmp_on (fun c => contains (RoutingPolicyStrategy.PreferredProviderAccountIDs strategy) (GatewayProvider.AccountID c)) cmp_true_first)
    (cmp_then (cmp_on (fun c => bool_decide (is_Some (price_for active c))) cmp_true_first)
      (cmp_on (fun c => match price_for active c with Some p => adjustedRoutingPrice p | None => 0 end) Z.compare))).

Lemma sorted_map_prefix {A B} (f : A -> B) (c : A -> A -> comparison) (d : B -> B -> comparison) l :
  (forall x y, x ∈ l -> y ∈ l -> c y x <> Lt -> d (f y) (f x) <> Lt) ->
  StronglySorted (not_after c) l -> StronglySorted (not_after d) (map f l).
Proof.
  intros H Hl. induction Hl as [|x l _ IH Hx]; cbn; constructor.
  - apply IH. intros y z Hy Hz. apply H; by apply list_elem_of_further.
  - rewrite Forall_forall in Hx. apply Forall_forall. intros z (y & <- & Hy)%list_elem_of_In%in_map_iff. apply list_elem_of_In in Hy.
    apply H; [apply list_elem_of_here|by apply list_elem_of_further|by apply Hx].
Qed.

Lemma cost_cheaper strategy active i o x y c d m n :
  priced_as strategy active i o c m x -> priced_as strategy active i o d n y ->
  cost_compare strategy x y <> Lt -> cheaper_first strategy active (candidate x) (candidate y) <> Lt.
Proof.
  intros ((_ & Ha & Hu & _) & _ & Hx) ((_ & Ha' & Hu' & _) & _ & Hy).
  assert (Ex : price_for active (candidate x) = price_for active c) by (unfold price_for; by rewrite Ha, Hu).
  assert (Ey : price_for active (candidate y) = price_for active d) by (unfold price_for; by rewrite Ha', Hu').
  unfold cost_compare. unfold cmp_then at 1.
  enough (E : cheaper_first strategy active (candidate x) (candidate y)
    = cmp_then (cmp_on batch_of Z.compare) (cmp_then (cmp_on (preferred strategy) cmp_true_first)
        (cmp_then (cmp_on priced cmp_true_first) (cmp_on price_rank Z.compare))) x y).
  { rewrite E. by destruct (cmp_then _ _ x y). }
  unfold cheaper_first, cmp_then, cmp_on, price_rank, preferred, batch_of. rewrite Ex, Ey.
  destruct (price_for active c), (price_for active d); destruct Hx as (-> & Hx), Hy as (-> & Hy); cbn; try done.
  destruct Hx as (-> & _), Hy as (-> & _). done.
Qed.

(** The order in which candidates are tried: without the cost preset, or in strict
    order, the candidates that remain stay in the order of the request; with it, where
    any price is in force, they come by batch, and in a batch first the preferred
    accounts, then those with a price, then the cheaper ones. *)
Theorem tried_in_order `{UnicodeUpper} strategy prices now protocol l :
  let d := decide_prices strategy prices now protocol l in
  let active := activeRoutingPrices prices protocol now in
  (keeps_order strategy = true \/ active = ∅ -> map name_of (candidates d) `sublist_of` map name_of l) /\
  (keeps_order strategy = false -> active <> ∅ -> StronglySorted (not_after (cheaper_first strategy active)) (candidates d)).
Proof.
  intros d active. unfold d, decide_prices. destruct (routingPolicyAbsolutePriceLimits _ _) as [i o].
  fold active. case_match eqn:Ea.
  { apply bool_decide_eq_true in Ea. split; [intros _|by intros _ []]. case_match; [apply sublist_nil_l|done]. }
  apply bool_decide_eq_false in Ea. destruct (price_candidates _ _ _ _ _ _) as [kept out] eqn:Ek.
  destruct (price_candidates_kept _ _ _ _ _ _ _ _ Ek) as [Hf Hs]. rewrite rank_priced_eq. cbn [candidates].
  destruct (pool_in_kept strategy kept) as [rest Hp]. set (pool := pool_of _ _) in *.
  assert (Hin : forall x, x ∈ pool -> x ∈ kept) by (intros x Hx; rewrite <- Hp; apply elem_of_app; by left).
  unfold final_order. split.
  - intros [Hk|Hk]; [rewrite Hk|done]. rewrite map_map. etrans; [|eapply names_kept; exact Ek].
    apply sublist_fmap, strictly_sorted_sublist; [done| |by intros x ?%elem_of_sort_by; apply Hin].
    assert (E : sort_by original_order pool = sort_by (fun x y => is_lt (order_compare x y)) pool).
    { apply sort_by_ext. intros x y. symmetry. apply is_lt_compare. }
    apply sorted_strictly.
    + rewrite (Permutation_map order (sort_by_perm _ _)). pose proof (strictly_sorted_nodup _ Hs) as Hd.
      rewrite <- (Permutation_map order Hp), map_app in Hd. by apply NoDup_app in Hd as (Hd & _).
    + rewrite E. apply (sort_by_sorted order_compare).
  - intros Hk _. rewrite Hk.
    assert (E : sort_by (cost_order strategy) pool = sort_by (fun x y => is_lt (cost_compare strategy x y)) pool).
    { apply sort_by_ext. intros x y. apply cost_order_compare. }
    apply (sorted_map_prefix _ (cost_compare strategy)); [|rewrite E; apply sort_by_sorted; apply _].
    intros x y Hx%elem_of_sort_by%Hin Hy%elem_of_sort_by%Hin. rewrite Forall_forall in Hf.
    destruct (Hf x Hx) as (m & c & _ & Hc), (Hf y Hy) as (n & e & _ & He). by eapply cost_cheaper.
Qed.

Module Demo.
Definition no_upper : UnicodeUpper := fun s => s.
#[local] Existing Instance no_upper.
Definition chat : string := "openai_chat_completions".
Definition route_ (id : string) : GatewayProvider.t := GatewayProvider.zero
  <| GatewayProvider.RouteID := id |> <| GatewayProvider.AccountID := id |> <| GatewayProvider.UpstreamModel := "gpt"%string |>
  <| GatewayProvider.RequestedModel := "gpt"%string |>.
Definition price_ (id : string) (input : Z) : ProcurementPrice.t := ProcurementPrice.zero
  <| ProcurementPrice.ProviderAccountID := id |> <| ProcurementPrice.UpstreamModel := "gpt"%string |>
  <| ProcurementPrice.Protocol := chat |> <| ProcurementPrice.Currency := "usd"%string |>
  <| ProcurementPrice.Status := ProcurementPriceStatusActive |>
  <| ProcurementPrice.UncachedInputMicrosPer1MTokens := input |>
  <| ProcurementPrice.OutputMicrosPer1MTokens := 2 * input |>.
Definition routes : list GatewayProvider.t := [route_ "dear"; route_ "free"; route_ "cheap"; route_ "near"].
Definition offers : list ProcurementPrice.t :=
  [price_ "dear" 5000000; price_ "cheap" 1000000; price_ "near" 1200000].
(** At most 1.5 times the cheapest. *)
Definition economy : routing_strategy := RoutingPolicyStrategy.zero
  <| RoutingPolicyStrategy.Preset := RoutingPolicyPresetCost |>
  <| RoutingPolicyStrategy.MaxPriceMultipleOfCheapest := fdiv (of_int 3) (of_int 2) |>.
Definition policy_ : RoutingPolicy.t := RoutingPolicy.zero <| RoutingPolicy.Strategy := economy |>.
Definition upper_price (p : ProcurementPrice.t) : ProcurementPrice.t := p <| ProcurementPrice.Currency := "USD"%string |>.
Definition decided (strategy : routing_strategy) : list string * list (string * string) :=
  let d := decide_prices strategy (map upper_price offers) 10 chat routes in
  (map name_of (candidates d), map (fun e => (name_of (excluded e), reason e)) (exclusions d)).

Example economy_decided :
  decided economy = (["cheap"; "near"; "free"], [("dear", "routing_policy_relative_price_exceeded")])%string.
Proof. by vm_compute. Qed.

(** Without the preset the order of the request stays. *)
Example ordered_decided :
  decided (economy <| RoutingPolicyStrategy.StrictOrder := true |>)
  = (["free"; "cheap"; "near"], [("dear", "routing_policy_relative_price_exceeded")])%string.
Proof. by vm_compute. Qed.

(** The pool of 30 percent keeps one of three. *)
Example pool_decided :
  decided (economy <| RoutingPolicyStrategy.MaxPriceMultipleOfCheapest := float_zero |>
                   <| RoutingPolicyStrategy.LowPricePoolMode := RoutingPolicyLowPriceStrict |>)
  = (["cheap"; "free"], [("near", "routing_policy_low_price_pool_excluded");
                         ("dear", "routing_policy_low_price_pool_excluded")])%string.
Proof. by vm_compute. Qed.

(** An input limit of two dollars; the price that is missing blocks. *)
Example limit_decided :
  decided (economy <| RoutingPolicyStrategy.AbsoluteMaxInputPer1M := of_int 2 |>
                   <| RoutingPolicyStrategy.MissingPriceAction := RoutingPolicyMissingPriceBlock |>)
  = (["cheap"; "near"], [("dear", "routing_policy_input_price_exceeded"); ("free", "routing_policy_price_fact_missing")])%string.
Proof. by vm_compute. Qed.

(** A multiple below one excludes every candidate that has a price. *)
Example multiple_below_one :
  decided (economy <| RoutingPolicyStrategy.MaxPriceMultipleOfCheapest := fdiv (of_int 1) (of_int 2) |>)
  = (["free"], [("dear", "routing_policy_relative_price_exceeded"); ("cheap", "routing_policy_relative_price_exceeded");
                ("near", "routing_policy_relative_price_exceeded")])%string.
Proof. by vm_compute. Qed.

Definition economy_decision : price_decision := decide_prices economy (map upper_price offers) 10 chat routes.
Definition economy_prices : gmap string ProcurementPrice.t := activeRoutingPrices (map upper_price offers) chat 10.
Definition second_choice : GatewayProvider.t := default GatewayProvider.zero (candidates economy_decision !! 1%nat).
Definition priced_state : service_state := mkService (NewMemoryRepository
  <| procurementPrices := list_to_map (map (fun p => (ProcurementPrice.ProviderAccountID p, upper_price p)) offers) |>) 10 ∅.
End Demo.

Import Demo.

Lemma rules_partition_witness :
  exists d, answer (applyRoutingPolicyCandidateRules (range := canonical_range) (upper := no_upper) (Some policy_) chat routes) priced_state = Ok d /\
    map name_of (Candidates d) = ["cheap"]%string /\
    yields (applyRoutingPolicyCandidateRules (range := canonical_range) (upper := no_upper) (Some policy_) chat routes) (fun d =>
      map name_of (Candidates d) ++ map exclusion_name (Exclusions d) ≡ₚ map name_of routes).
Proof.
  eexists. split_and!; [vm_compute; reflexivity|reflexivity|].
  apply (rules_partition (range := canonical_range) (upper := no_upper)). refine (bool_decide_unpack _ _). by vm_compute.
Defined.

Lemma limits_enforced_witness :
  name_of second_choice = "near"%string /\
  exists p, price_for economy_prices second_choice = Some p /\
    near_cheapest economy economy_prices float_zero float_zero (GatewayProvider.PolicyBatchOrder second_choice) routes p.
Proof.
  unfold economy_prices. split; [by vm_compute|].
  assert (Hc : second_choice ∈ candidates economy_decision) by (apply (list_elem_of_lookup_2 _ 1); by vm_compute).
  pose proof (limits_enforced (H := no_upper) economy (map upper_price offers) 10 chat routes second_choice Hc) as H.
  assert (El : routingPolicyAbsolutePriceLimits economy (routingPolicyRequestedModel routes) = (float_zero, float_zero)) by by vm_compute.
  assert (Ep : price_for (activeRoutingPrices (H := no_upper) (map upper_price offers) chat 10) second_choice = Some (upper_price (price_ "near" 1200000))) by by vm_compute.
  rewrite El in H. cbv beta iota zeta in H.  rewrite Ep in H. cbv beta iota in H.
  exists (upper_price (price_ "near" 1200000)). split; [exact Ep|]. refine (proj2 (proj2 H) _). vm_compute. reflexivity.
Defined.

Lemma tried_in_order_witness :
  map name_of (candidates economy_decision) = ["cheap"; "near"; "free"]%string /\
  StronglySorted (not_after (cheaper_first economy economy_prices)) (candidates economy_decision).
Proof.
  unfold economy_prices. split; [by vm_compute|].
  destruct (tried_in_order (H := no_upper) economy (map upper_price offers) 10 chat routes) as [_ H].
  apply H; [vm_compute; reflexivity|]. intros E.
  assert (Hn : size (activeRoutingPrices (H := no_upper) (map upper_price offers) chat 10) = 0%nat) by (by rewrite E). by vm_compute in Hn.
Defined.
