(* ===== verification/ProviderAccounts.v ===== *)
(** * Provider accounts: cooldown and circuit breaker

    The calls of [backend/internal/controlplane/service.go] that follow the fate of
    requests on a provider account - failures, successes, uses, and the reset by an
    administrator - with the rules that make an account unschedulable for a while, the
    eligibility of an account for routing, the effective state of its circuit
    ([gateway_model_service.go]), and the slots that count its requests. *)

From Stdlib Require Import Ascii.
From S2P Require Import Prelude Threads StringLists AccessModel RoutingModel Repository Service GatewayModels.

Notation unschedulable_rule := ProviderAccountTempUnschedulableRule.t.

(** ** [strconv.Quote]

    Letters outside ASCII are kept or escaped by the tables of Unicode: a parameter for
    the strings that hold any. *)
Class UnicodeQuote := quote_unicode : string -> string.

Definition hex_digit (n : N) : ascii := ascii_of_N (if (n <? 10)%N then n + 48 else n + 87).
Definition quote_char (a : ascii) : list ascii :=
  let n := N_of_ascii a in
  let escaped c := [ascii_of_N 92; c] in
  if (n =? 34)%N || (n =? 92)%N then escaped a
  else if ascii_in a 32 126 then [a]
  else if (n =? 7)%N then escaped "a"%char
  else if (n =? 8)%N then escaped "b"%char
  else if (n =? 12)%N then escaped "f"%char
  else if (n =? 10)%N then escaped "n"%char
  else if (n =? 13)%N then escaped "r"%char
  else if (n =? 9)%N then escaped "t"%char
  else if (n =? 11)%N then escaped "v"%char
  else [ascii_of_N 92; "x"%char; hex_digit (n / 16); hex_digit (n mod 16)].
Definition Quote `{UnicodeQuote} (s : string) : string :=
  if all_ascii s
  then String.string_of_list_ascii
         (ascii_of_N 34 :: concat (map quote_char (String.list_ascii_of_string s)) ++ [ascii_of_N 34])
  else quote_unicode s.

Example Quote_plain : Quote (H := fun s => s) "over load" = String (ascii_of_N 34) ("over load" ++ String (ascii_of_N 34) "").
Proof. reflexivity. Qed.

(** ** Rules *)

(** [strings.Contains(body, strings.ToLower(keyword))] of the first keyword that
    occurs. *)
Definition matching_keyword `{UnicodeCase} (body : string) (keywords : list string) : option string :=
  List.find (fun keyword => (keyword <>s "") && Contains body (ToLower keyword)) keywords.

Definition matchTempUnschedulableRule `{UnicodeCase} (rules : list unschedulable_rule) (httpStatus : Z)
    (responseBodyPreview : string) : option (unschedulable_rule * string) :=
  if (httpStatus =? 0) || (Z.of_nat (length rules) =? 0) then None else
  let body := ToLower responseBodyPreview in
  foldr (fun rule rest =>
    if negb (ProviderAccountTempUnschedulableRule.StatusCode rule =? httpStatus) then rest
    else match matching_keyword body (ProviderAccountTempUnschedulableRule.Keywords rule) with
         | Some keyword => Some (rule, keyword)
         | None => rest
         end) None rules.

Definition clean_rule (rule : unschedulable_rule) : result go_error unschedulable_rule :=
  if (ProviderAccountTempUnschedulableRule.StatusCode rule <? 100)
     || (ProviderAccountTempUnschedulableRule.StatusCode rule >? 599)
  then Err (ErrNew "temp_unschedulable_rules status_code must be a valid HTTP status code")
  else if ProviderAccountTempUnschedulableRule.DurationMinutes rule <=? 0
  then Err (ErrNew "temp_unschedulable_rules duration_minutes must be greater than 0")
  else
    let keywords := cleanStringList (ProviderAccountTempUnschedulableRule.Keywords rule) in
    if Z.of_nat (length keywords) =? 0
    then Err (ErrNew "temp_unschedulable_rules keywords must not be empty")
    else Ok (ProviderAccountTempUnschedulableRule.mk (ProviderAccountTempUnschedulableRule.StatusCode rule)
           keywords (ProviderAccountTempUnschedulableRule.DurationMinutes rule)).
Fixpoint cleanTempUnschedulableRules (rules : list unschedulable_rule) : result go_error (list unschedulable_rule) :=
  match rules with
  | [] => Ok []
  | rule :: rest =>
      rule ← clean_rule rule;
      rest ← cleanTempUnschedulableRules rest;
      mret (rule :: rest)
  end.

(** ** Availability *)

Definition providerAuthRequiresSecret (authType : string) : bool :=
  oneOf authType [ProviderAuthAPIKey; ProviderAuthBearer; ProviderAuthAWSAccessKey; ProviderAuthGCPServiceAccount].

Definition accountEligibleForRouting (account : ProviderAccount.t) (model : string) (now : time) : bool :=
  if (ProviderAccount.Status account <>s AccountStatusActive) || negb (ProviderAccount.Schedulable account) then false
  else if providerAuthRequiresSecret (ProviderAccount.AuthType account)
          && (negb (ProviderAccount.SecretConfigured account) || (ProviderAccount.SecretCiphertext account =s "")) then false
  else if match ProviderAccount.ExpiresAt account with Some t => After now t | None => false end then false
  else if match ProviderAccount.CooldownUntil account with Some t => Before now t | None => false end then false
  else
    let model := TrimSpace model in
    negb ((model <>s "") && negb (contains (ProviderAccount.Models account) model)).

(** The state, whether a request would be a probe, and whether one may be sent. *)
Definition effectiveCircuitState (account : ProviderAccount.t) (now : time) : string * bool * bool :=
  let state := if ProviderAccount.CircuitState account =s "" then CircuitStateClosed
               else ProviderAccount.CircuitState account in
  if state =s CircuitStateClosed then (state, false, true)
  else if state =s CircuitStateOpen then
    if match ProviderAccount.CircuitOpenedUntil account with Some t => negb (Before now t) | None => false end
    then (CircuitStateHalfOpen, true, true)
    else (state, false, false)
  else if state =s CircuitStateHalfOpen then (state, true, true)
  else (state, false, false).

(** ** What a request does to its account *)

Definition Second : Z := 1000000000.
Definition Minute : Z := 60 * Second.
Definition providerAccountFailureCooldown : Z := 30 * Second.

Section Service.
Context `{range : MapRange} `{unicode : UnicodeCase} `{quote : UnicodeQuote}.

Definition SaveProviderAccount (account : ProviderAccount.t) : M unit :=
  write (fun r => r.[accounts]:[ProviderAccount.ID account] <- account).

Definition failure_threshold (account : ProviderAccount.t) : Z :=
  let threshold := ProviderAccount.CircuitFailureThreshold account in if threshold <=? 0 then 5 else threshold.
Definition open_seconds (account : ProviderAccount.t) : Z :=
  let openSeconds := ProviderAccount.CircuitOpenSeconds account in if openSeconds <=? 0 then 60 else openSeconds.

Definition trip (now : time) (account : ProviderAccount.t) : ProviderAccount.t :=
  if (ProviderAccount.CircuitState account =s CircuitStateHalfOpen)
     || (ProviderAccount.ConsecutiveFailures account >=? failure_threshold account)
  then account <| ProviderAccount.CircuitState := CircuitStateOpen |>
               <| ProviderAccount.CircuitOpenedUntil := Some (now + wrap64 (open_seconds account * Second)) |>
  else account.

Definition rule_reason (rule : unschedulable_rule) (keyword : string) : string :=
  ("matched rule status_code=" +:+ Itoa (ProviderAccountTempUnschedulableRule.StatusCode rule) +:+ " keyword="
   +:+ Quote keyword +:+ " duration_minutes=" +:+ Itoa (ProviderAccountTempUnschedulableRule.DurationMinutes rule))%string.

Definition cool_down (now : time) (httpStatus : Z) (responseBodyPreview : string) (account : ProviderAccount.t)
    : ProviderAccount.t :=
  match matchTempUnschedulableRule (ProviderAccount.TempUnschedulableRules account) httpStatus responseBodyPreview with
  | Some (rule, keyword) =>
      account
        <| ProviderAccount.CooldownUntil :=
             Some (now + wrap64 (ProviderAccountTempUnschedulableRule.DurationMinutes rule * Minute)) |>
        <| ProviderAccount.TempUnschedulableReason := rule_reason rule keyword |>
  | None =>
      account
        <| ProviderAccount.CooldownUntil := Some (now + providerAccountFailureCooldown) |>
        <| ProviderAccount.TempUnschedulableReason := ""%string |>
  end.

Definition failed_account (now : time) (httpStatus : Z) (responseBodyPreview : string) (account : ProviderAccount.t)
    : ProviderAccount.t :=
  let account := account <| ProviderAccount.ConsecutiveFailures := ProviderAccount.ConsecutiveFailures account +i 1 |>
                         <| ProviderAccount.LastFailureAt := Some now |> in
  (cool_down now httpStatus responseBodyPreview (trip now account)) <| ProviderAccount.UpdatedAt := now |>.

(** The account after a success, and after the reset by an administrator. *)
Definition healthy_account (now : time) (account : ProviderAccount.t) : ProviderAccount.t :=
  account <| ProviderAccount.CircuitState := CircuitStateClosed |> <| ProviderAccount.ConsecutiveFailures := 0 |>
          <| ProviderAccount.CircuitOpenedUntil := None |> <| ProviderAccount.CooldownUntil := None |>
          <| ProviderAccount.TempUnschedulableReason := ""%string |> <| ProviderAccount.UpdatedAt := now |>.

Definition used_account (now : time) (account : ProviderAccount.t) : ProviderAccount.t :=
  account <| ProviderAccount.LastUsedAt := Some now |> <| ProviderAccount.UpdatedAt := now |>.

Definition TouchProviderAccountUsage (accountID : string) : serv unit :=
  account ← providerAccountByID accountID;
  now ← nowUTC;
  section (SaveProviderAccount (used_account now account)).

Definition RecordProviderAccountFailure (accountID : string) (httpStatus : Z) (responseBodyPreview : string) : serv unit :=
  account ← providerAccountByID accountID;
  now ← nowUTC;
  section (SaveProviderAccount (failed_account now httpStatus responseBodyPreview account)).

Definition RecordProviderAccountSuccess (accountID : string) : serv unit :=
  if TrimSpace accountID =s "" then mret tt else
  account ← providerAccountByID accountID;
  now ← nowUTC;
  section (SaveProviderAccount (healthy_account now account)).

Definition ClearProviderAccountCooldown (auditRandom actor accountID : string) : serv ProviderAccount.t :=
  account ← providerAccountByID accountID;
  now ← nowUTC;
  let account := healthy_account now account in
  _ ← section (SaveProviderAccount account);
  _ ← audit auditRandom actor "clear_cooldown" "provider_account" (ProviderAccount.ID account)
        ("Cleared cooldown for provider account " +:+ ProviderAccount.Name account)%string;
  mret account.
End Service.

(** ** The circuit as a function of what happened *)

(** What happens to an account, latest first. *)
Inductive event := Failed (httpStatus : Z) (body : string) | Succeeded | Cleared | Used.
Notation history := (list (time * event)).

(** The failures since the account was last healthy. *)
Fixpoint failures (h : history) : Z :=
  match h with
  | [] => 0
  | (_, Failed _ _) :: h => 1 + failures h
  | (_, Used) :: h => failures h
  | (_, (Succeeded | Cleared)) :: _ => 0
  end.
Fixpoint last_failure (h : history) : option (time * (Z * string)) :=
  match h with
  | [] => None
  | (t, Failed status body) :: _ => Some (t, (status, body))
  | (_, Used) :: h => last_failure h
  | (_, (Succeeded | Cleared)) :: _ => None
  end.

Section Breaker.
Context (threshold openFor : Z).

(** The breaker: closed below the threshold; from it on, open for a while after each
    failure, and then open to a probe. *)
Definition breaker (h : history) (now : time) : string * bool * bool :=
  match last_failure h with
  | Some (t, _) =>
      if failures h <? threshold then (CircuitStateClosed, false, true)
      else if Before now (t + openFor) then (CircuitStateOpen, false, false)
      else (CircuitStateHalfOpen, true, true)
  | None => (CircuitStateClosed, false, true)
  end.
End Breaker.

(** How long a failure keeps an account out: by the first rule that matches. *)
Definition cooldown_of `{UnicodeCase} (rules : list unschedulable_rule) (status : Z) (body : string) : Z :=
  match matchTempUnschedulableRule rules status body with
  | Some (rule, _) => wrap64 (ProviderAccountTempUnschedulableRule.DurationMinutes rule * Minute)
  | None => providerAccountFailureCooldown
  end.

(** The account as it is apart from its fate. *)
Definition same_settings (a b : ProviderAccount.t) : Prop :=
  ProviderAccount.ID a = ProviderAccount.ID b /\
  ProviderAccount.CircuitFailureThreshold a = ProviderAccount.CircuitFailureThreshold b /\
  ProviderAccount.CircuitOpenSeconds a = ProviderAccount.CircuitOpenSeconds b /\
  ProviderAccount.TempUnschedulableRules a = ProviderAccount.TempUnschedulableRules b /\
  ProviderAccount.Status a = ProviderAccount.Status b /\
  ProviderAccount.Schedulable a = ProviderAccount.Schedulable b /\
  ProviderAccount.AuthType a = ProviderAccount.AuthType b /\
  ProviderAccount.SecretConfigured a = ProviderAccount.SecretConfigured b /\
  ProviderAccount.SecretCiphertext a = ProviderAccount.SecretCiphertext b /\
  ProviderAccount.ExpiresAt a = ProviderAccount.ExpiresAt b /\
  ProviderAccount.Models a = ProviderAccount.Models b.

Section Properties.
Context `{range : MapRange} `{unicode : UnicodeCase} `{quote : UnicodeQuote}.

Definition changed (e : event) (now : time) (account : ProviderAccount.t) : ProviderAccount.t :=
  match e with
  | Failed status body => failed_account now status body account
  | Succeeded | Cleared => healthy_account now account
  | Used => used_account now account
  end.

Lemma changed_settings e now account : same_settings (changed e now account) account.
Proof.
  destruct e; [|done..]. cbn. unfold failed_account, cool_down, trip. repeat case_match; done.
Qed.

(** [account] is [start] after the history [h]. *)
Record follows (start : ProviderAccount.t) (h : history) (account : ProviderAccount.t) : Prop := {
  follows_settings : same_settings account start;
  follows_failures : ProviderAccount.ConsecutiveFailures account = failures h;
  follows_circuit :
    match last_failure h with
    | Some (t, _) =>
        if failures h <? failure_threshold start then ProviderAccount.CircuitState account = CircuitStateClosed
        else ProviderAccount.CircuitState account = CircuitStateOpen /\
             ProviderAccount.CircuitOpenedUntil account = Some (t + wrap64 (open_seconds start * Second))
    | None => ProviderAccount.CircuitState account = CircuitStateClosed
    end;
  follows_cooldown :
    ProviderAccount.CooldownUntil account =
    '(t, (status, body)) ← last_failure h; Some (t + cooldown_of (ProviderAccount.TempUnschedulableRules start) status body);
}.

Lemma failures_range h : 0 <= failures h <= Z.of_nat (length h) /\ (last_failure h = None -> failures h = 0).
Proof. induction h as [|[t []] h IH]; cbn; (split; [lia|]); try done. apply IH. Qed.

Lemma cool_down_cooldown now status body account :
  ProviderAccount.CooldownUntil (cool_down now status body account)
  = Some (now + cooldown_of (ProviderAccount.TempUnschedulableRules account) status body).
Proof. unfold cool_down, cooldown_of. by destruct (matchTempUnschedulableRule _ _ _) as [[rule keyword]|]. Qed.
Lemma cool_down_circuit now status body account :
  ProviderAccount.CircuitState (cool_down now status body account) = ProviderAccount.CircuitState account /\
  ProviderAccount.CircuitOpenedUntil (cool_down now status body account) = ProviderAccount.CircuitOpenedUntil account /\
  ProviderAccount.ConsecutiveFailures (cool_down now status body account) = ProviderAccount.ConsecutiveFailures account.
Proof. unfold cool_down. by destruct (matchTempUnschedulableRule _ _ _) as [[rule keyword]|]. Qed.

(** One failure more. *)
Lemma failed_failures now status body account : ProviderAccount.ConsecutiveFailures account + 1 <= max_int64 ->
  0 <= ProviderAccount.ConsecutiveFailures account ->
  ProviderAccount.ConsecutiveFailures (failed_account now status body account)
  = ProviderAccount.ConsecutiveFailures account + 1.
Proof.
  intros Hmax H0. unfold failed_account. cbn.
  rewrite (proj2 (proj2 (cool_down_circuit now status body _))). unfold trip.
  rewrite <- (wrap64_id (ProviderAccount.ConsecutiveFailures account + 1)) at 1; [by case_match|].
  unfold in_int64, min_int64, max_int64 in *. lia.
Qed.

Lemma failed_circuit now status body account :
  ProviderAccount.CircuitState account <> CircuitStateHalfOpen ->
  let n := ProviderAccount.ConsecutiveFailures account +i 1 in
  if n >=? failure_threshold account
  then ProviderAccount.CircuitState (failed_account now status body account) = CircuitStateOpen /\
       ProviderAccount.CircuitOpenedUntil (failed_account now status body account)
       = Some (now + wrap64 (open_seconds account * Second))
  else ProviderAccount.CircuitState (failed_account now status body account) = ProviderAccount.CircuitState account.
Proof.
  intros Hhalf n. unfold failed_account. set (counted := account <| ProviderAccount.ConsecutiveFailures := _ |> <| _ := _ |>).
  destruct (cool_down_circuit now status body (trip now counted)) as (Hs & Ho & _). cbn.
  rewrite Hs, Ho.
  unfold trip. change (ProviderAccount.CircuitState counted) with (ProviderAccount.CircuitState account).
  rewrite (proj2 (String.eqb_neq _ _) Hhalf). cbn [orb].
  change (failure_threshold counted) with (failure_threshold account).
  change (ProviderAccount.ConsecutiveFailures counted) with n. by destruct (n >=? failure_threshold account).
Qed.

Lemma follows_changed start h account e now : Z.of_nat (length h) < max_int64 ->
  follows start h account -> follows start ((now, e) :: h) (changed e now account).
Proof.
  intros Hlen [Hset Hn Hc Hcool]. pose proof (failures_range h) as [Hrange Hzero].
  assert (Hset' : same_settings (changed e now account) start).
  { pose proof (changed_settings e now account). unfold same_settings in *. intuition congruence. }
  assert (Ht : failure_threshold account = failure_threshold start).
  { unfold failure_threshold. by replace (ProviderAccount.CircuitFailureThreshold account)
      with (ProviderAccount.CircuitFailureThreshold start) by (symmetry; apply Hset). }
  assert (Ho : open_seconds account = open_seconds start).
  { unfold open_seconds. by replace (ProviderAccount.CircuitOpenSeconds account)
      with (ProviderAccount.CircuitOpenSeconds start) by (symmetry; apply Hset). }
  destruct e as [status body| | |]; split; try done; cbn [changed failures last_failure].
  - rewrite failed_failures by lia. lia.
  - assert (Hw : ProviderAccount.ConsecutiveFailures account +i 1 = 1 + failures h).
    { rewrite wrap64_id; [lia|]. unfold in_int64, min_int64, max_int64 in *. lia. }
    assert (Hhalf : ProviderAccount.CircuitState account <> CircuitStateHalfOpen).
    { destruct (last_failure h) as [[t p]|]; [case_match; [|destruct Hc as [Hc _]]|]; by rewrite Hc. }
    pose proof (failed_circuit now status body account Hhalf) as Hf. cbn zeta in Hf. rewrite Hw, Ht, Ho in Hf.
    destruct (1 + failures h >=? failure_threshold start) eqn:E1, (1 + failures h <? failure_threshold start) eqn:E2; try lia; [done|].
    rewrite Hf. destruct (last_failure h) as [[t p]|]; [|done]. destruct (failures h <? failure_threshold start) eqn:E3; [done|lia].
  - cbn. unfold failed_account. cbn. rewrite cool_down_cooldown. f_equal. f_equal. f_equal. unfold trip. destruct (_ || _); apply Hset.
Qed.

(** *** Calls that run one at a time *)

Definition run_event (auditRandom actor accountID : string) (e : event) : serv unit :=
  match e with
  | Failed status body => RecordProviderAccountFailure accountID status body
  | Succeeded => RecordProviderAccountSuccess accountID
  | Cleared => _ ← ClearProviderAccountCooldown auditRandom actor accountID; mret tt
  | Used => TouchProviderAccountUsage accountID
  end.

Notation accounts_keyed s := (keyed ProviderAccount.ID (accounts (repository s))).

(** The calls for one account, in turn, with anything in between that leaves this
    account alone. *)
Inductive lives (k : string) (s : service_state) : history -> service_state -> Prop :=
| Lives_start : lives k s [] s
| Lives_elsewhere h s1 s2 : lives k s h s1 ->
    accounts (repository s2) !! k = accounts (repository s1) !! k -> accounts_keyed s2 -> lives k s h s2
| Lives_event h s1 auditRandom actor accountID e : lives k s h s1 -> TrimSpace accountID = k ->
    lives k s ((clock s1, e) :: h) (exec (run_event auditRandom actor accountID e) s1).2.

Lemma account_found s k accountID account : accounts_keyed s -> accounts (repository s) !! k = Some account ->
  TrimSpace accountID = k -> k <> ""%string -> exec (providerAccountByID accountID) s = (Ok account, s).
Proof.
  intros Hk Ha <- Hne. unfold providerAccountByID, by_id. rewrite exec_bind, (proj2 (String.eqb_neq _ _) Hne). cbn.
  assert (Hid : ProviderAccount.ID account = TrimSpace accountID) by by apply Hk in Ha.
  destruct (List.find _ _) as [found|] eqn:Ef.
  - apply List.find_some in Ef as [Hin E]. boolify. apply list_elem_of_In in Hin.
    unfold ListProviderAccounts in Hin. rewrite elem_of_sort_by, elem_of_map_values in Hin. destruct Hin as [k' Hin].
    assert (k' = TrimSpace accountID) as -> by (rewrite <- E; symmetry; by apply Hk in Hin). by rewrite Ha in Hin; injection Hin as ->.
  - exfalso. eapply List.find_none in Ef; [by rewrite Hid, String.eqb_refl in Ef|].
    apply list_elem_of_In. unfold ListProviderAccounts. rewrite elem_of_sort_by, elem_of_map_values. eauto.
Qed.

Lemma exec_event s k accountID auditRandom actor e account :
  accounts_keyed s -> accounts (repository s) !! k = Some account -> TrimSpace accountID = k -> k <> ""%string ->
  let '(x, s') := exec (run_event auditRandom actor accountID e) s in
  x = Ok tt /\ accounts (repository s') = <[k := changed e (clock s) account]> (accounts (repository s)).
Proof.
  intros Hk Ha Hid Hne.
  assert (Hc : ProviderAccount.ID (changed e (clock s) account) = k).
  { destruct (changed_settings e (clock s) account) as [-> _]. by apply Hk in Ha. }
  destruct e as [status body| | |]; cbn [run_event changed] in *.
  - unfold RecordProviderAccountFailure. rewrite exec_bind, (account_found s k _ account) by done. cbn in *. by rewrite Hc.
  - unfold RecordProviderAccountSuccess. rewrite (proj2 (String.eqb_neq _ _)) by (by rewrite Hid).
    rewrite exec_bind, (account_found s k _ account) by done. cbn in *. by rewrite Hc.
  - unfold ClearProviderAccountCooldown. rewrite !exec_bind, (account_found s k _ account) by done. cbn in *. by rewrite Hc.
  - unfold TouchProviderAccountUsage. rewrite exec_bind, (account_found s k _ account) by done. cbn in *. by rewrite Hc.
Qed.

(** An account to which nothing has happened yet, as [providerAccountFromRequest]
    makes it. *)
Definition fresh_account (account : ProviderAccount.t) : Prop :=
  ProviderAccount.CircuitState account = CircuitStateClosed /\ ProviderAccount.ConsecutiveFailures account = 0 /\
  ProviderAccount.CooldownUntil account = None.

Lemma lives_follow k s h s' start : k <> ""%string -> Z.of_nat (length h) <= max_int64 ->
  accounts_keyed s -> accounts (repository s) !! k = Some start -> fresh_account start -> lives k s h s' ->
  accounts_keyed s' /\ exists account, accounts (repository s') !! k = Some account /\ follows start h account.
Proof.
  intros Hne Hlen Hk Hs (Hf1 & Hf2 & Hf3) Hl. induction Hl as [|h s1 s2 Hl IH E Hk2|h s1 rnd actor accountID e Hl IH Hid].
  - split; [done|]. exists start. by split.
  - destruct (IH Hlen) as (_ & account & Ha & Hfol). split; [done|]. exists account. by rewrite E.
  - cbn in Hlen. destruct IH as (Hk1 & account & Ha & Hfol); [lia|].
    pose proof (exec_event s1 k accountID rnd actor e account Hk1 Ha Hid Hne) as He.
    destruct (exec _ s1) as [x s2]. destruct He as [_ He]. cbn. unfold keyed in *. rewrite He. split.
    + apply keyed_insert; [done|]. destruct (changed_settings e (clock s1) account) as [-> _]. by apply Hk1 in Ha.
    + exists (changed e (clock s1) account). rewrite lookup_insert_eq. split; [done|]. apply follows_changed; [lia|done].
Qed.

(** C32. The state of an account's circuit is a function of what happened to it: closed
    while the failures since the last success or reset are fewer than its threshold,
    open for its time after each failure from then on, and after that open to a probe;
    and routing leaves it out for as long as the first rule that matches its last
    failure says.  This is for calls on the account that run in turn, among any
    other calls. *)
Theorem circuit_by_history k s h s' start : k <> ""%string -> Z.of_nat (length h) <= max_int64 ->
  accounts_keyed s -> accounts (repository s) !! k = Some start -> fresh_account start -> lives k s h s' ->
  exists account, accounts (repository s') !! k = Some account /\ forall now,
    effectiveCircuitState account now
      = breaker (failure_threshold start) (wrap64 (open_seconds start * Second)) h now /\
    forall model, accountEligibleForRouting account model now =
      accountEligibleForRouting start model now
      && match last_failure h with
         | Some (t, (status, body)) =>
             negb (Before now (t + cooldown_of (ProviderAccount.TempUnschedulableRules start) status body))
         | None => true
         end.
Proof.
  intros Hne Hlen Hk Hs Hfresh Hl. destruct (lives_follow k s h s' start Hne Hlen Hk Hs Hfresh Hl) as (_ & account & Ha & Hfol).
  exists account. split; [done|]. destruct Hfol as [Hset _ Hc Hcool]. intros now. split.
  - unfold effectiveCircuitState, breaker. destruct (last_failure h) as [[t p]|]; [|by rewrite Hc].
    destruct (failures h <? failure_threshold start); [by rewrite Hc|]. destruct Hc as [-> ->]. cbn.
    by destruct (Before now _).
  - intros model. destruct Hset as (_ & _ & _ & _ & E1 & E2 & E3 & E4 & E5 & E6 & E7). destruct Hfresh as (_ & _ & Hc0).
    unfold accountEligibleForRouting. rewrite E1, E2, E3, E4, E5, E6, E7, Hcool, Hc0.
    destruct (_ || negb (ProviderAccount.Schedulable start)); [done|].
    destruct (providerAuthRequiresSecret _ && _); [done|].
    destruct (match ProviderAccount.ExpiresAt start with Some t => _ | None => _ end); [done|].
    destruct (last_failure h) as [[t [status body]]|]; cbn; [|by rewrite andb_true_r].
    destruct (Before now _); cbn; [by rewrite andb_false_r|by rewrite andb_true_r].
Qed.
End Properties.

(** ** Rules that are accepted fire *)

Section Rules.
Context `{unicode : UnicodeCase}.

Definition fires (rule : unschedulable_rule) (status : Z) (body keyword : string) : Prop :=
  ProviderAccountTempUnschedulableRule.StatusCode rule = status /\
  keyword ∈ ProviderAccountTempUnschedulableRule.Keywords rule /\ keyword <> ""%string /\
  Contains (ToLower body) (ToLower keyword) = true.

Lemma matching_keyword_spec body keywords :
  match matching_keyword body keywords with
  | Some k => k ∈ keywords /\ k <> ""%string /\ Contains body (ToLower k) = true
  | None => forall k, k ∈ keywords -> k <> ""%string -> Contains body (ToLower k) = false
  end.
Proof.
  unfold matching_keyword. destruct (List.find _ _) as [k|] eqn:E.
  - apply List.find_some in E as [Hin E]. apply andb_true_iff in E as [E1 E2]. apply list_elem_of_In in Hin.
    split_and!; [done| |done]. intros ->. done.
  - intros k Hin Hne. eapply List.find_none in E; [|by apply list_elem_of_In].
    rewrite (proj2 (String.eqb_neq _ _) Hne) in E. done.
Qed.

(** The rule of a failure is the first rule, in the order of the account, with the
    status of the failure and a keyword in its body, and the keyword its first one
    there; and whatever the failure, there is one as soon as any rule fires. *)
Theorem rule_of_failure rules status body : status <> 0 ->
  match matchTempUnschedulableRule rules status body with
  | Some (rule, keyword) => exists i, rules !! i = Some rule /\ fires rule status body keyword /\
      forall j rule' keyword', (j < i)%nat -> rules !! j = Some rule' -> ~ fires rule' status body keyword'
  | None => forall rule keyword, rule ∈ rules -> ~ fires rule status body keyword
  end.
Proof.
  intros Hs. unfold matchTempUnschedulableRule. rewrite (proj2 (Z.eqb_neq _ _) Hs). cbn [orb].
  destruct (Z.of_nat (length rules) =? 0) eqn:El.
  { destruct rules; [|done]. intros rule keyword Hr. by apply elem_of_nil in Hr. }
  clear El. induction rules as [|r rules IH]; cbn [foldr]; [intros rule keyword Hr; by apply elem_of_nil in Hr|].
  set (rest := foldr _ None rules) in *.
  assert (Hskip : (forall keyword, ~ fires r status body keyword) ->
    match rest with
    | Some (rule, keyword) => exists i, (r :: rules) !! i = Some rule /\ fires rule status body keyword /\
        forall j rule' keyword', (j < i)%nat -> (r :: rules) !! j = Some rule' -> ~ fires rule' status body keyword'
    | None => forall rule keyword, rule ∈ r :: rules -> ~ fires rule status body keyword
    end).
  { intros Hr. destruct rest as [[rule keyword]|].
    - destruct IH as (i & Hi & Hf & Hm). exists (S i). split_and!; [done|done|].
      intros [|j] rule' keyword' Hlt Hj; cbn in Hj; [injection Hj as <-; apply Hr|eapply Hm; [|exact Hj]; lia].
    - intros rule keyword [->|Hin]%elem_of_cons; [apply Hr|by apply IH]. }
  destruct (Z.eqb_spec (ProviderAccountTempUnschedulableRule.StatusCode r) status) as [Es|Es]; cbn [negb];
    [|apply Hskip; intros keyword (? & _); congruence].
  pose proof (matching_keyword_spec (ToLower body) (ProviderAccountTempUnschedulableRule.Keywords r)) as Hk.
  destruct (matching_keyword _ _) as [keyword|].
  - exists O. split_and!; [done|done|]. intros j rule' keyword' Hlt. lia.
  - apply Hskip. intros keyword (_ & Hin & Hne & Hc). by rewrite (Hk keyword Hin Hne) in Hc.
Qed.

(** What an administrator may store: plausible statuses, positive durations, and
    keywords none of which is idle. *)
Lemma clean_rules_valid rules out : cleanTempUnschedulableRules rules = Ok out ->
  Forall (fun rule => 100 <= ProviderAccountTempUnschedulableRule.StatusCode rule <= 599 /\
                      0 < ProviderAccountTempUnschedulableRule.DurationMinutes rule /\
                      ProviderAccountTempUnschedulableRule.Keywords rule <> []) out.
Proof.
  revert out. induction rules as [|r rules IH]; intros out; cbn; [intros [= <-]; constructor|].
  unfold clean_rule. destruct (_ || _) eqn:E1; [done|]. destruct (_ <=? 0) eqn:E2; [done|].
  destruct (_ =? 0) eqn:E3; [done|]. cbn. destruct (cleanTempUnschedulableRules rules) as [rest|e]; [|done].
  intros [= <-]. constructor; [|by apply IH]. cbn. split_and!; [lia|lia|lia|]. intros E. by rewrite E in E3.
Qed.
End Rules.

(** ** Slots

    The requests under way on an account, as this process counts them: a use of an
    account answers a function that gives its slot back, once. *)
Module Slots.
Record t := mk {
  accountSlots : gmap string Z;
  (** the functions handed out, in order: their account, and whether they have run *)
  handles : list (string * bool);
}.
#[export] Instance settable : Settable t := fun s => mk (accountSlots s) (handles s).
End Slots.
Export (hints) Slots.
Import Slots.

Notation slots_of m id := (default 0 (m !! id)).

Definition providerAccountSlotUsage (accountID : string) (s : Slots.t) : Z := slots_of (accountSlots s) accountID.
Definition trackProviderAccountSlot (accountID : string) (s : Slots.t) : Slots.t :=
  let accountID := TrimSpace accountID in
  if accountID =s "" then s else
  s <| accountSlots := <[accountID := slots_of (accountSlots s) accountID +i 1]> (accountSlots s) |>
    <| handles := handles s ++ [(accountID, false)] |>.
Definition release (handle : nat) (s : Slots.t) : Slots.t :=
  match handles s !! handle with
  | Some (accountID, false) =>
      let s := s <| handles := <[handle := (accountID, true)]> (handles s) |> in
      if slots_of (accountSlots s) accountID >? 0
      then s <| accountSlots := <[accountID := slots_of (accountSlots s) accountID -i 1]> (accountSlots s) |>
      else s
  | _ => s
  end.

(** The functions for an account that have not run. *)
Definition outstanding (accountID : string) (s : Slots.t) : Z :=
  Z.of_nat (length (List.filter (fun h => (h.1 =s accountID) && negb h.2) (handles s))).

Inductive slots_step : Slots.t -> Slots.t -> Prop :=
| Slots_track accountID s : slots_step s (trackProviderAccountSlot accountID s)
| Slots_release handle s : slots_step s (release handle s).

Definition slots_ok (s : Slots.t) : Prop :=
  forall accountID, slots_of (accountSlots s) accountID = outstanding accountID s.

Lemma outstanding_app accountID s h :
  outstanding accountID (s <| handles := handles s ++ [h] |>)
  = outstanding accountID s + (if (h.1 =s accountID) && negb h.2 then 1 else 0).
Proof.
  unfold outstanding. cbn. rewrite List.filter_app, length_app. cbn. destruct (_ && _); cbn; lia.
Qed.
Lemma outstanding_release accountID handle owner s : handles s !! handle = Some (owner, false) ->
  outstanding accountID (s <| handles := <[handle := (owner, true)]> (handles s) |>)
  = outstanding accountID s - (if owner =s accountID then 1 else 0).
Proof.
  unfold outstanding. cbn. intros H. rewrite insert_take_drop by (by eapply lookup_lt_Some).
  rewrite <- (take_drop_middle _ _ _ H) at 3. rewrite !List.filter_app, !length_app. cbn.
  rewrite andb_false_r, andb_true_r. destruct (owner =s accountID); cbn; lia.
Qed.

Lemma slots_step_ok s s' : slots_step s s' -> Z.of_nat (length (handles s')) <= max_int64 -> slots_ok s -> slots_ok s'.
Proof.
  intros H Hlen Hok. unfold slots_ok in *.
  assert (Hout : forall id, 0 <= outstanding id s <= Z.of_nat (length (handles s))).
  { intros id. unfold outstanding. pose proof (filter_length_le (fun h => (h.1 =s id) && negb h.2) (handles s)). lia. }
  destruct H as [accountID s|handle s]; intros id.
  - unfold trackProviderAccountSlot in *. destruct (TrimSpace accountID =s ""); [done|]. cbn in Hlen |- *.
    rewrite length_app in Hlen. cbn in Hlen. specialize (Hout id).
    set (a := TrimSpace accountID). 
    change (outstanding id _) with (outstanding id (s <| handles := handles s ++ [(a, false)] |>)).
    rewrite outstanding_app. cbn. rewrite andb_true_r. destruct (String.eqb_spec a id) as [->|Hne].
    + rewrite lookup_insert_eq. cbn. rewrite Hok. apply wrap64_id. unfold in_int64, min_int64, max_int64 in *. lia.
    + rewrite lookup_insert_ne by done. rewrite Hok. lia.
  - assert (Hlen' : Z.of_nat (length (handles s)) <= max_int64).
    { unfold release in Hlen. destruct (handles s !! handle) as [[owner []]|]; [done| |done].
      destruct (_ >? 0); cbn in Hlen; by rewrite length_insert in Hlen. }
    unfold release. destruct (handles s !! handle) as [[owner []]|] eqn:Eh; [done| |done].
    pose proof (outstanding_release id handle owner s Eh) as Hr. pose proof (outstanding_release owner handle owner s Eh) as Ho.
    rewrite String.eqb_refl in Ho. specialize (Hout owner) as Ho1.
    assert (Hpos : 0 < outstanding owner s).
    { assert (0 <= outstanding owner (s <| handles := <[handle := (owner, true)]> (handles s) |>)) by (unfold outstanding; lia). lia. }
    cbn. rewrite Hok. destruct (outstanding owner s >? 0) eqn:Eg; [|lia]. cbn.
    etrans; [|symmetry; exact Hr]. destruct (String.eqb_spec owner id) as [->|Hne].
    + rewrite lookup_insert_eq. cbn. apply wrap64_id. unfold in_int64, min_int64, max_int64 in *. lia.
    + rewrite lookup_insert_ne by done. rewrite Hok. lia.
Qed.

Lemma handles_grow s s' : slots_step s s' -> (length (handles s) <= length (handles s'))%nat.
Proof.
  intros [accountID s0|handle s0].
  - unfold trackProviderAccountSlot. destruct (_ =s _); [done|]. cbn. rewrite length_app. lia.
  - unfold release. destruct (handles s0 !! handle) as [[owner []]|]; [done| |done].
    destruct (_ >? 0); cbn; by rewrite length_insert.
Qed.

(** The slots of an account count exactly its requests under way: the functions
    handed out for it that have not run yet, however often each is called. *)
Theorem slots_exact s accountID : rtc slots_step (Slots.mk ∅ []) s -> Z.of_nat (length (handles s)) <= max_int64 ->
  providerAccountSlotUsage accountID s = outstanding accountID s.
Proof.
  intros H Hlen. revert accountID. change (slots_ok s). revert Hlen.
  refine (rtc_ind_r (fun s => Z.of_nat (length (handles s)) <= max_int64 -> slots_ok s) _ _ _ s H).
  - intros _ id. cbn. by rewrite lookup_empty.
  - intros s1 s2 _ Hstep IH Hlen. apply (slots_step_ok s1); [done..|]. apply IH. pose proof (handles_grow _ _ Hstep). lia.
Qed.

(** ** A use that overlaps a failure *)

(** The next critical section of a call. *)
Definition one_section {A} (p : serv A) (s : service_state) : serv A * service_state :=
  match p with
  | Ret _ => (p, s)
  | Atomic act k => let '(x, s') := act s in (k x, s')
  end.

Module Demo.
#[local] Existing Instance canonical_range.
Definition no_lower : UnicodeCase := fun s => s.
Definition no_quote : UnicodeQuote := fun s => s.
#[local] Existing Instance no_lower.
#[local] Existing Instance no_quote.
Definition overloaded : unschedulable_rule :=
  ProviderAccountTempUnschedulableRule.mk 429 ["Quota"; "rate limit"]%string 10.
(** Opens after two failures, for 60 seconds. *)
Definition account : ProviderAccount.t := ProviderAccount.zero
  <| ProviderAccount.ID := "acc_1"%string |> <| ProviderAccount.Status := AccountStatusActive |>
  <| ProviderAccount.Schedulable := true |> <| ProviderAccount.AuthType := ProviderAuthAWSDefault |>
  <| ProviderAccount.CircuitState := CircuitStateClosed |> <| ProviderAccount.CircuitFailureThreshold := 2 |>
  <| ProviderAccount.TempUnschedulableRules := [overloaded] |>.
Definition at_ (seconds : Z) (s : service_state) : service_state := s <| clock := seconds * Second |>.
Definition start : service_state :=
  at_ 100 (mkService ((NewMemoryRepository).[accounts]:["acc_1"%string] <- account) 0 ∅).
Definition fail_1 := RecordProviderAccountFailure " acc_1 " 500 "".
Definition fail_2 := RecordProviderAccountFailure "acc_1" 429 "monthly QUOTA exceeded".
Definition failed_once : service_state := (exec fail_1 start).2.
Definition failed_twice : service_state := (exec fail_2 (at_ 120 failed_once)).2.
Definition happened : history := [(120 * Second, Failed 429 "monthly QUOTA exceeded"); (100 * Second, Failed 500 "")].
Definition the_account (s : service_state) : ProviderAccount.t := default ProviderAccount.zero (accounts (repository s) !! "acc_1"%string).

Example reason_of_failure :
  ProviderAccount.TempUnschedulableReason (the_account failed_twice)
  = ("matched rule status_code=429 keyword=" ++ String (ascii_of_N 34) ("Quota" ++ String (ascii_of_N 34) " duration_minutes=10"))%string.
Proof. by vm_compute. Qed.
Example circuit_opens : effectiveCircuitState (the_account failed_twice) (150 * Second) = (CircuitStateOpen, false, false).
Proof. by vm_compute. Qed.
Example circuit_probes : effectiveCircuitState (the_account failed_twice) (180 * Second) = (CircuitStateHalfOpen, true, true).
Proof. by vm_compute. Qed.
Example cooling : map (accountEligibleForRouting (the_account failed_twice) "") [719 * Second; 720 * Second] = [false; true].
Proof. by vm_compute. Qed.

(** A duration of two hundred million minutes is accepted; the product leaves
    [int64], and the cooldown ends before it begins. *)
Example cooldown_wraps : let rule := ProviderAccountTempUnschedulableRule.mk 429 ["quota"%string] 200000000 in
  cleanTempUnschedulableRules [rule] = Ok [rule] /\ cooldown_of [rule] 429 "quota" < 0.
Proof. by vm_compute. Qed.

Definition tracked : Slots.t :=
  release 0 (release 0 (trackProviderAccountSlot "acc_1" (trackProviderAccountSlot " acc_1" (Slots.mk ∅ [])))).
End Demo.

Import Demo.

Lemma circuit_by_history_witness :
  breaker 2 (60 * Second) happened (150 * Second) = (CircuitStateOpen, false, false) /\
  exists account, accounts (repository failed_twice) !! "acc_1"%string = Some account /\
    effectiveCircuitState account (150 * Second) = (CircuitStateOpen, false, false).
Proof.
  split; [by vm_compute|].
  destruct (circuit_by_history (range := canonical_range) (unicode := no_lower) (quote := no_quote)
    "acc_1" start happened failed_twice Demo.account) as (a & Ha & Hb).
  - done.
  - by vm_compute.
  - apply keyed_insert; [apply keyed_empty|done].
  - by vm_compute.
  - done.
  - apply (Lives_event (range := canonical_range) (unicode := no_lower) (quote := no_quote) "acc_1" start
      [(100 * Second, Failed 500 "")] (at_ 120 failed_once) "" "" "acc_1" (Failed 429 "monthly QUOTA exceeded")); [|done].
    apply (Lives_elsewhere _ _ _ failed_once); [|done|].
    + apply (Lives_event (range := canonical_range) (unicode := no_lower) (quote := no_quote) "acc_1" start
        [] start "" "" " acc_1 " (Failed 500 "")); [apply Lives_start|done].
    + intros k v Hk. assert (E : accounts (repository (at_ 120 failed_once)) = {["acc_1"%string := the_account failed_once]})
        by by vm_compute. rewrite E in Hk. apply lookup_singleton_Some in Hk as [<- <-]. by vm_compute.
  - exists a. split; [exact Ha|]. destruct (Hb (150 * Second)) as [-> _]. by vm_compute.
Defined.

Lemma rule_of_failure_witness :
  match matchTempUnschedulableRule (H := no_lower) [overloaded] 429 "Over QUOTA" with
  | Some (rule, keyword) => keyword = "Quota"%string /\ fires (unicode := no_lower) rule 429 "Over QUOTA" keyword
  | None => False
  end.
Proof.
  assert (H := rule_of_failure (unicode := no_lower) [overloaded] 429 "Over QUOTA" ltac:(done)).
  assert (E : matchTempUnschedulableRule (H := no_lower) [overloaded] 429 "Over QUOTA" = Some (overloaded, "Quota"%string)) by by vm_compute.
  rewrite E in *. split; [done|]. by destruct H as (i & _ & H & _).
Defined.

Lemma slots_exact_witness :
  providerAccountSlotUsage "acc_1" tracked = 1 /\ outstanding "acc_1" tracked = 1.
Proof.
  rewrite (slots_exact tracked "acc_1"); [by vm_compute| |by vm_compute].
  do 2 (eapply rtc_r; [|apply Slots_release]). do 2 (eapply rtc_r; [|apply Slots_track]). apply rtc_refl.
Defined.

(** A use of an account undoes a failure that is recorded while the use is under
    way: the account it read before is written back, with the circuit closed that has
    just opened. *)
Theorem touch_undoes_failure : exists (s : service_state) (k : string) (touching : serv unit) (read_ : service_state),
  one_section (TouchProviderAccountUsage (range := canonical_range) k) s = (touching, read_) /\
  let failed := (exec (RecordProviderAccountFailure (range := canonical_range) (unicode := no_lower) (quote := no_quote) k 500 "") read_).2 in
  let touched := (exec touching failed).2 in
  (exists a, accounts (repository failed) !! k = Some a /\
     effectiveCircuitState a (clock s) = (CircuitStateOpen, false, false) /\ ~ accountEligibleForRouting a "" (clock s)) /\
  (exists a, accounts (repository touched) !! k = Some a /\
     effectiveCircuitState a (clock s) = (CircuitStateClosed, false, true) /\ accountEligibleForRouting a "" (clock s)).
Proof.
  (* After one failure its cooldown has ended; the second one opens the circuit. *)
  exists (at_ 140 failed_once), "acc_1"%string.
  eexists _, _. split; [reflexivity|]. cbn zeta.
  split; eexists; (split; [vm_compute; reflexivity|]); by vm_compute.
Qed.
