(* ===== verification/UsageQueries.v ===== *)
(** * Usage records: queries and aggregates

    The usage records of [repository.go] in memory - storing, selecting, summing -
    and the aggregate of [service.go] that reports and error-rate alerts are made
    of. *)

From S2P Require Import Prelude UsageDimensions Repository.

(** ** Queries ([model.go]) *)

Module UsageQuery.
Record t := mk {
  Limit : Z;
  Offset : Z;
  ID : string;
  Search : string;
  APIKeyID : string;
  APIKeyIDs : list string;
  ApplicationID : string;
  GatewayPrincipalID : string;
  ExternalAuthIntegrationID : string;
  Model : string;
  ProviderID : string;
  AccountID : string;
  UpstreamRequestID : string;
  Status : string;
  CreatedFrom : time;
  CreatedTo : time;
}.
Definition zero : t := mk 0 0 "" "" "" [] "" "" "" "" "" "" "" "" 0 0.
End UsageQuery.

Module UsageModelSummary.
Record t := mk {
  Model : string;
  Requests : Z;
  Errors : Z;
  Tokens : Z;
  OutputImages : Z;
  VideoMilliseconds : Z;
  AudioMilliseconds : Z;
  UsageCostMicros : Z;
  AvgLatency : Z;
}.
End UsageModelSummary.

Module UsageAggregate.
Record t := mk {
  TotalRequests : Z;
  ErrorRequests : Z;
  TotalTokens : Z;
  TotalOutputImages : Z;
  TotalVideoDuration : Z;
  TotalAudioDuration : Z;
  TotalUsageCostMicros : Z;
  PricedRequests : Z;
  UnpricedRequests : Z;
  DisputedRequests : Z;
  CostAvailable : bool;
  AvgLatencyMS : Z;
  ByModel : list UsageModelSummary.t;
}.
End UsageAggregate.

(** ** Selection ([repository.go]) *)

Definition anyContains `{UnicodeCase} (keyword : string) (values : list string) : bool :=
  existsb (fun value => Contains (ToLower value) keyword) values.

Definition normalizeListWindow (limit offset fallback max : Z) : Z * Z :=
  let limit := if limit <=? 0 then fallback else limit in
  let limit := if limit >? max then max else limit in
  (limit, if offset <? 0 then 0 else offset).

(** [out[offset:end]] for a normal window. *)
Definition window {A} (limit offset : Z) (out : list A) : list A :=
  if offset >=? Z.of_nat (length out) then []
  else
    let end_ := offset +i limit in
    let end_ := if end_ >? Z.of_nat (length out) then Z.of_nat (length out) else end_ in
    take (Z.to_nat (end_ - offset)) (drop (Z.to_nat offset) out).

(** [query.X != "" && record.X != query.X] *)
Definition differs (wanted value : string) : bool := (wanted <>s "") && (value <>s wanted).

Definition memoryUsageRecordMatches `{UnicodeCase} (record : UsageRecord.t) (query : UsageQuery.t) : bool :=
  if differs (UsageQuery.ID query) (UsageRecord.ID record)
     || differs (UsageQuery.APIKeyID query) (UsageRecord.APIKeyID record)
     || ((0 <? Z.of_nat (length (UsageQuery.APIKeyIDs query)))
         && negb (contains (UsageQuery.APIKeyIDs query) (UsageRecord.APIKeyID record)))
     || differs (UsageQuery.ApplicationID query) (UsageRecord.ApplicationID record)
     || differs (UsageQuery.GatewayPrincipalID query) (UsageRecord.GatewayPrincipalID record)
     || differs (UsageQuery.ExternalAuthIntegrationID query) (UsageRecord.ExternalAuthIntegrationID record)
     || differs (UsageQuery.Model query) (UsageRecord.Model record)
     || differs (UsageQuery.ProviderID query) (UsageRecord.ProviderID record)
     || differs (UsageQuery.AccountID query) (UsageRecord.ProviderAccountID record)
     || differs (UsageQuery.UpstreamRequestID query) (UsageRecord.UpstreamRequestID record)
     || differs (UsageQuery.Status query) (UsageRecord.Status record)
     || (negb (IsZero (UsageQuery.CreatedFrom query))
         && Before (UsageRecord.CreatedAt record) (UsageQuery.CreatedFrom query))
     || (negb (IsZero (UsageQuery.CreatedTo query))
         && After (UsageRecord.CreatedAt record) (UsageQuery.CreatedTo query))
  then false
  else
    let keyword := ToLower (TrimSpace (UsageQuery.Search query)) in
    if keyword =s "" then true
    else anyContains keyword
      [UsageRecord.Model record; UsageRecord.Status record; UsageRecord.ErrorType record;
       UsageRecord.ProviderID record; UsageRecord.ProviderAccountID record; UsageRecord.APIKeyID record;
       UsageRecord.APIFingerprint record; UsageRecord.ApplicationID record; UsageRecord.ApplicationName record;
       UsageRecord.GatewayPrincipalID record; UsageRecord.GatewayPrincipalName record;
       UsageRecord.ExternalAuthIntegrationID record; UsageRecord.ExternalSubjectReference record].

(** ** The aggregate ([service.go]) *)

Module usageAccumulator.
Record t := mk {
  model : string;
  requests : Z;
  errors : Z;
  tokens : Z;
  outputImages : Z;
  videoMilliseconds : Z;
  audioMilliseconds : Z;
  usageCostMicros : Z;
  latencyTotal : Z;
}.
Definition zero (model : string) : t := mk model 0 0 0 0 0 0 0 0.
End usageAccumulator.

Definition failed_request (record : UsageRecord.t) : bool :=
  (UsageRecord.Status record =s "upstream_error") || (UsageRecord.Status record =s "error")
  || (UsageRecord.ErrorType record <>s "").

(** [x++] where the condition holds. *)
Definition count_if (cond : bool) (n : Z) : Z := if cond then n +i 1 else n.

Definition record_tokens (record : UsageRecord.t) : Z := UsageRecord.InputTokens record +i UsageRecord.OutputTokens record.
Definition record_cost (record : UsageRecord.t) : Z := default 0 (UsageRecord.UsageCostMicros record).
Definition record_dimensions (record : UsageRecord.t) : UsageDimensionTotals :=
  UsageDimensionsTotals (UsageRecord.UsageDimensions record).
Definition priced_status (record : UsageRecord.t) : bool := oneOf (UsageRecord.PricingStatus record) ["priced"; "free"]%string.
Definition disputed_status (record : UsageRecord.t) : bool := UsageRecord.PricingStatus record =s "disputed".

Definition accumulate (acc : usageAccumulator.t) (record : UsageRecord.t) : usageAccumulator.t :=
  usageAccumulator.mk (usageAccumulator.model acc)
    (usageAccumulator.requests acc +i 1)
    (count_if (failed_request record) (usageAccumulator.errors acc))
    (usageAccumulator.tokens acc +i record_tokens record)
    (saturatingUsageAdd (usageAccumulator.outputImages acc) (OutputImages (record_dimensions record)))
    (saturatingUsageAdd (usageAccumulator.videoMilliseconds acc) (VideoMilliseconds (record_dimensions record)))
    (saturatingUsageAdd (usageAccumulator.audioMilliseconds acc) (AudioMilliseconds (record_dimensions record)))
    (usageAccumulator.usageCostMicros acc +i record_cost record)
    (usageAccumulator.latencyTotal acc +i UsageRecord.LatencyMS record).

Definition accumulate_by_model (byModel : gmap string usageAccumulator.t) (record : UsageRecord.t)
    : gmap string usageAccumulator.t :=
  let model := UsageRecord.Model record in
  <[model := accumulate (default (usageAccumulator.zero model) (byModel !! model)) record]> byModel.

(** One round of the loop for the aggregate itself, its latency and models aside. *)
Definition add_record (aggregate : UsageAggregate.t) (record : UsageRecord.t) : UsageAggregate.t :=
  let dimensions := record_dimensions record in
  let priced := priced_status record in
  let disputed := negb priced && disputed_status record in
  UsageAggregate.mk
    (UsageAggregate.TotalRequests aggregate +i 1)
    (count_if (failed_request record) (UsageAggregate.ErrorRequests aggregate))
    (UsageAggregate.TotalTokens aggregate +i record_tokens record)
    (saturatingUsageAdd (UsageAggregate.TotalOutputImages aggregate) (OutputImages dimensions))
    (saturatingUsageAdd (UsageAggregate.TotalVideoDuration aggregate) (VideoMilliseconds dimensions))
    (saturatingUsageAdd (UsageAggregate.TotalAudioDuration aggregate) (AudioMilliseconds dimensions))
    (if priced then UsageAggregate.TotalUsageCostMicros aggregate +i record_cost record
     else UsageAggregate.TotalUsageCostMicros aggregate)
    (count_if priced (UsageAggregate.PricedRequests aggregate))
    (count_if (negb priced && negb disputed) (UsageAggregate.UnpricedRequests aggregate))
    (count_if disputed (UsageAggregate.DisputedRequests aggregate))
    (UsageAggregate.CostAvailable aggregate && priced)
    (UsageAggregate.AvgLatencyMS aggregate) (UsageAggregate.ByModel aggregate).

Definition summary_less (i j : UsageModelSummary.t) : bool :=
  if UsageModelSummary.Requests i =? UsageModelSummary.Requests j
  then str_ltb (UsageModelSummary.Model i) (UsageModelSummary.Model j)
  else UsageModelSummary.Requests i >? UsageModelSummary.Requests j.

Definition summarize (value : usageAccumulator.t) : UsageModelSummary.t :=
  UsageModelSummary.mk (usageAccumulator.model value) (usageAccumulator.requests value) (usageAccumulator.errors value)
    (usageAccumulator.tokens value) (usageAccumulator.outputImages value) (usageAccumulator.videoMilliseconds value)
    (usageAccumulator.audioMilliseconds value) (usageAccumulator.usageCostMicros value)
    (if usageAccumulator.requests value >? 0
     then wrap64 (Z.quot (usageAccumulator.latencyTotal value) (usageAccumulator.requests value)) else 0).

Section Queries.
Context `{range : MapRange} `{unicode : UnicodeCase}.

Definition usageSummaries (values : gmap string usageAccumulator.t) : list UsageModelSummary.t :=
  sort_by summary_less (map summarize (map_values values)).

Definition usageAggregateFromRecords (records : list UsageRecord.t) : UsageAggregate.t :=
  let start := UsageAggregate.mk 0 0 0 0 0 0 0 0 0 0 (0 <? Z.of_nat (length records)) 0 [] in
  let aggregate := foldl add_record start records in
  let latencyTotal := foldl (fun total record => total +i UsageRecord.LatencyMS record) 0 records in
  let byModel := foldl accumulate_by_model ∅ records in
  UsageAggregate.mk
    (UsageAggregate.TotalRequests aggregate) (UsageAggregate.ErrorRequests aggregate)
    (UsageAggregate.TotalTokens aggregate) (UsageAggregate.TotalOutputImages aggregate)
    (UsageAggregate.TotalVideoDuration aggregate) (UsageAggregate.TotalAudioDuration aggregate)
    (UsageAggregate.TotalUsageCostMicros aggregate) (UsageAggregate.PricedRequests aggregate)
    (UsageAggregate.UnpricedRequests aggregate) (UsageAggregate.DisputedRequests aggregate)
    (UsageAggregate.CostAvailable aggregate)
    (if UsageAggregate.TotalRequests aggregate >? 0
     then wrap64 (Z.quot latencyTotal (UsageAggregate.TotalRequests aggregate)) else 0)
    (usageSummaries byModel).

(** ** The store *)

Definition SaveUsageRecord (record : UsageRecord.t) : M unit :=
  usageDimensions ← lift (NormalizeUsageDimensions (UsageRecord.UsageDimensions record));
  write (fun r => r.[usageRecords]:[UsageRecord.ID record] <-
    (record <| UsageRecord.UsageDimensions := usageDimensions |>)).

Definition matching (query : UsageQuery.t) (r : MemoryRepository) : list UsageRecord.t :=
  List.filter (fun record => memoryUsageRecordMatches record query) (map_values (usageRecords r)).

Definition record_less (i j : UsageRecord.t) : bool := After (UsageRecord.CreatedAt i) (UsageRecord.CreatedAt j).

Definition QueryUsageRecords (query : UsageQuery.t) (r : MemoryRepository) : list UsageRecord.t :=
  let '(limit, offset) := normalizeListWindow (UsageQuery.Limit query) (UsageQuery.Offset query) 100 500 in
  window limit offset (sort_by record_less (matching query r)).

Definition SummarizeUsageRecords (query : UsageQuery.t) (r : MemoryRepository) : UsageAggregate.t :=
  usageAggregateFromRecords (matching query r).

Definition since_by_key (apiKeyID : string) (since : time) (record : UsageRecord.t) : bool :=
  (UsageRecord.APIKeyID record =s apiKeyID) && negb (Before (UsageRecord.CreatedAt record) since).

Definition SumUsageTokensByAPIKeySince (apiKeyID : string) (since : time) (r : MemoryRepository) : Z :=
  foldl (fun total record => if since_by_key apiKeyID since record then total +i record_tokens record else total)
    0 (map_values (usageRecords r)).

Definition SumUsageCostMicrosByAPIKeySince (apiKeyID : string) (since : time) (r : MemoryRepository) : Z :=
  foldl (fun total record =>
      match UsageRecord.UsageCostMicros record with
      | Some cost => if since_by_key apiKeyID since record then total +i cost else total
      | None => total
      end)
    0 (map_values (usageRecords r)).
End Queries.

(** ** What the aggregate of some records is

    Counts, sums as the machine keeps them, and one summary for every model. *)

Definition count_of (p : UsageRecord.t -> bool) (records : list UsageRecord.t) : Z :=
  Z.of_nat (length (List.filter p records)).
Definition total_of (f : UsageRecord.t -> Z) (records : list UsageRecord.t) : Z := wrap64 (sum_Z f records).
Definition quantity_of (f : UsageDimensionTotals -> Z) (records : list UsageRecord.t) : Z :=
  saturated (sum_Z (fun record => Z.max 0 (f (record_dimensions record))) records).
Definition mean_of (f : UsageRecord.t -> Z) (records : list UsageRecord.t) : Z :=
  if Z.of_nat (length records) >? 0 then wrap64 (Z.quot (total_of f records) (Z.of_nat (length records))) else 0.

Definition of_model (model : string) (records : list UsageRecord.t) : list UsageRecord.t :=
  List.filter (fun record => UsageRecord.Model record =s model) records.
Definition models_of (records : list UsageRecord.t) : list string := remove_dups (map UsageRecord.Model records).

Definition summary_of (model : string) (records : list UsageRecord.t) : UsageModelSummary.t :=
  UsageModelSummary.mk model (Z.of_nat (length records)) (count_of failed_request records)
    (total_of record_tokens records) (quantity_of OutputImages records) (quantity_of VideoMilliseconds records)
    (quantity_of AudioMilliseconds records) (total_of record_cost records) (mean_of UsageRecord.LatencyMS records).

Definition aggregate_of (records : list UsageRecord.t) : UsageAggregate.t :=
  let priced := List.filter priced_status records in
  let unpriced := List.filter (fun record => negb (priced_status record)) records in
  UsageAggregate.mk (Z.of_nat (length records)) (count_of failed_request records) (total_of record_tokens records)
    (quantity_of OutputImages records) (quantity_of VideoMilliseconds records) (quantity_of AudioMilliseconds records)
    (total_of record_cost priced) (Z.of_nat (length priced))
    (count_of (fun record => negb (disputed_status record)) unpriced) (count_of disputed_status unpriced)
    ((0 <? Z.of_nat (length records)) && forallb priced_status records)
    (mean_of UsageRecord.LatencyMS records)
    (sort_by summary_less (map (fun model => summary_of model (of_model model records)) (models_of records))).

(** What the machine can hold. *)
Definition countable (records : list UsageRecord.t) : Prop :=
  Z.of_nat (length records) <= max_int64 /\
  forall record, record ∈ records ->
    in_int64 (OutputImages (record_dimensions record)) /\ in_int64 (VideoMilliseconds (record_dimensions record)) /\
    in_int64 (AudioMilliseconds (record_dimensions record)).

(** ** Lemmas *)

Lemma counting (p : UsageRecord.t -> bool) records n :
  0 <= n -> n + Z.of_nat (length records) <= max_int64 ->
  foldl (fun n record => count_if (p record) n) n records = n + count_of p records.
Proof.
  unfold count_of. revert n. induction records as [|record records IH]; intros n Hn Hb; cbn in *; [lia|].
  destruct (p record); cbn [count_if length] in *; [|rewrite IH; lia].
  rewrite wrap64_id by (unfold in_int64, min_int64, max_int64 in *; lia). rewrite IH by lia. lia.
Qed.

Lemma counting_all (records : list UsageRecord.t) n :
  0 <= n -> n + Z.of_nat (length records) <= max_int64 ->
  foldl (fun n _ => n +i 1) n records = n + Z.of_nat (length records).
Proof.
  intros Hn Hb. pose proof (counting (fun _ => true) records n Hn Hb) as E. cbn in E. rewrite E. unfold count_of.
  f_equal. f_equal. f_equal. clear. induction records; cbn; congruence.
Qed.

Lemma countable_sublist records l : sublist l records -> countable records -> countable l.
Proof.
  intros Hl [Hn Hd]. split; [apply sublist_length in Hl; lia|]. intros record Hr. apply Hd. by eapply sublist_subseteq.
Qed.

Lemma accumulators m a b c d e f g h records :
  foldl accumulate (usageAccumulator.mk m a b c d e f g h) records = usageAccumulator.mk m
    (foldl (fun n _ => n +i 1) a records) (foldl (fun n record => count_if (failed_request record) n) b records)
    (foldl (fun n record => n +i record_tokens record) c records)
    (foldl (fun n record => saturatingUsageAdd n (OutputImages (record_dimensions record))) d records)
    (foldl (fun n record => saturatingUsageAdd n (VideoMilliseconds (record_dimensions record))) e records)
    (foldl (fun n record => saturatingUsageAdd n (AudioMilliseconds (record_dimensions record))) f records)
    (foldl (fun n record => n +i record_cost record) g records)
    (foldl (fun n record => n +i UsageRecord.LatencyMS record) h records).
Proof. revert a b c d e f g h. induction records as [|record records IH]; intros *; [done|]. cbn [foldl]. by rewrite <- IH. Qed.

Lemma zero_in_int64 : in_int64 0.
Proof. by vm_compute. Qed.
#[local] Hint Resolve zero_in_int64 : core.

Lemma summarize_exact model records : countable records ->
  summarize (foldl accumulate (usageAccumulator.zero model) records) = summary_of model records.
Proof.
  intros [Hn Hd]. unfold usageAccumulator.zero. rewrite accumulators. unfold summarize, summary_of, mean_of, total_of, quantity_of. cbn.
  rewrite counting_all, counting, !foldl_wrap, !saturating_fold by (try done; try lia; intros; by apply Hd). done.
Qed.

Lemma by_model_lookup records m k :
  foldl accumulate_by_model m records !! k =
  match of_model k records with
  | [] => m !! k
  | l => Some (foldl accumulate (default (usageAccumulator.zero k) (m !! k)) l)
  end.
Proof.
  revert m. induction records as [|record records IH]; intros m; [done|]. cbn [foldl of_model List.filter]. rewrite IH.
  unfold accumulate_by_model at 1 2. destruct (String.eqb_spec (UsageRecord.Model record) k) as [<-|Hne].
  - rewrite lookup_insert_eq. cbn [default foldl]. fold (of_model (UsageRecord.Model record) records).
    by destruct (of_model _ records).
  - rewrite lookup_insert_ne by done. by fold (of_model k records).
Qed.

Lemma of_model_empty k records : of_model k records = [] <-> k ∉ models_of records.
Proof.
  unfold models_of. rewrite elem_of_remove_dups, list_elem_of_In, in_map_iff. unfold of_model. split.
  - intros E (record & <- & Hr). assert (H : record ∈ of_model (UsageRecord.Model record) records).
    { apply list_elem_of_In, List.filter_In. by rewrite String.eqb_refl. }
    unfold of_model in H. rewrite E in H. by apply elem_of_nil in H.
  - intros H. apply filter_nil. intros record Hr. apply String.eqb_neq. intros E. apply H. exists record.
    split; [done|by apply list_elem_of_In].
Qed.

Definition summary_compare : UsageModelSummary.t -> UsageModelSummary.t -> comparison :=
  cmp_then (cmp_on UsageModelSummary.Requests (cmp_rev Z.compare)) (cmp_on UsageModelSummary.Model String.compare).

Lemma summary_less_compare i j : summary_less i j = is_lt (summary_compare i j).
Proof.
  unfold summary_less, summary_compare, cmp_then, cmp_on, cmp_rev, str_ltb.
  destruct (Z.compare_spec (UsageModelSummary.Requests j) (UsageModelSummary.Requests i)) as [E|E|E]; decide_tests; try done.
Qed.

(** Summaries of different models are sorted in one way. *)
Lemma sort_summaries (f : string -> UsageModelSummary.t) l k :
  (forall model, UsageModelSummary.Model (f model) = model) -> l ≡ₚ map f k ->
  sort_by summary_less l = sort_by summary_less (map f k).
Proof.
  intros Hf Hp. rewrite !(sort_by_ext _ _ _ summary_less_compare). apply sort_by_unique; [apply _|done|].
  intros x y Hx Hy. rewrite Hp in Hx, Hy. apply list_elem_of_In, in_map_iff in Hx as (a & <- & _), Hy as (b & <- & _).
  unfold summary_compare, cmp_then, cmp_on. destruct (cmp_rev _ _ _); [|done|done]. rewrite !Hf.
  intros E%str_compare_eq. by subst.
Qed.

Section Aggregates.
Context `{range : MapRange} `{unicode : UnicodeCase}.

Lemma summaries_perm records : countable records ->
  map summarize (map_values (foldl accumulate_by_model ∅ records)) ≡ₚ
  map (fun model => summary_of model (of_model model records)) (models_of records).
Proof.
  intros Hc. set (byModel := foldl accumulate_by_model ∅ records).
  assert (Hlook : forall k, byModel !! k = match of_model k records with
    | [] => None | l => Some (foldl accumulate (usageAccumulator.zero k) l) end).
  { intros k. unfold byModel. rewrite by_model_lookup, lookup_empty. done. }
  assert (Hmodel : forall k l, usageAccumulator.model (foldl accumulate (usageAccumulator.zero k) l) = k)
    by (intros k l; unfold usageAccumulator.zero; by rewrite accumulators).
  assert (Hk : keyed usageAccumulator.model byModel).
  { intros k acc. rewrite Hlook. destruct (of_model k records) as [|x l]; [done|]. intros [= <-]. apply (Hmodel k (x :: l)). }
  apply NoDup_Permutation.
  - apply (NoDup_fmap_1 UsageModelSummary.Model). rewrite <- list_fmap_compose. by apply (values_NoDup _ byModel) in Hk.
  - apply (NoDup_fmap_1 UsageModelSummary.Model). rewrite <- list_fmap_compose. rewrite list_fmap_id. apply NoDup_remove_dups.
  - intros s. rewrite !list_elem_of_In, !in_map_iff. setoid_rewrite <- list_elem_of_In. setoid_rewrite elem_of_map_values.
    assert (Hsum : forall k, summarize (foldl accumulate (usageAccumulator.zero k) (of_model k records)) =
      summary_of k (of_model k records)).
    { intros k. apply summarize_exact. eapply countable_sublist; [apply filter_sublist|exact Hc]. }
    split.
    + intros (acc & <- & k & Hacc). exists k. rewrite Hlook in Hacc. rewrite <- Hsum.
      destruct (of_model k records) as [|x l] eqn:E; [done|]. injection Hacc as <-. split; [done|].
      destruct (decide (k ∈ models_of records)) as [|Hn]; [done|]. apply of_model_empty in Hn. congruence.
    + intros (k & <- & Hin). rewrite <- Hsum.
      destruct (of_model k records) as [|x l] eqn:E; [by apply of_model_empty in E|].
      eexists. split; [reflexivity|]. exists k. by rewrite Hlook, E.
Qed.
Lemma aggregates n err tok img vid aud cost priced unpriced disputed available records :
  foldl add_record (UsageAggregate.mk n err tok img vid aud cost priced unpriced disputed available 0 []) records =
  UsageAggregate.mk
    (foldl (fun n _ => n +i 1) n records) (foldl (fun n record => count_if (failed_request record) n) err records)
    (foldl (fun n record => n +i record_tokens record) tok records)
    (foldl (fun n record => saturatingUsageAdd n (OutputImages (record_dimensions record))) img records)
    (foldl (fun n record => saturatingUsageAdd n (VideoMilliseconds (record_dimensions record))) vid records)
    (foldl (fun n record => saturatingUsageAdd n (AudioMilliseconds (record_dimensions record))) aud records)
    (foldl (fun n record => if priced_status record then n +i record_cost record else n) cost records)
    (foldl (fun n record => count_if (priced_status record) n) priced records)
    (foldl (fun n record => count_if (negb (priced_status record) && negb (disputed_status record)) n) unpriced records)
    (foldl (fun n record => count_if (negb (priced_status record) && disputed_status record) n) disputed records)
    (available && forallb priced_status records) 0 [].
Proof.
  revert n err tok img vid aud cost priced unpriced disputed available.
  induction records as [|record records IH]; intros *; cbn [foldl forallb]; [by rewrite andb_true_r|].
  unfold add_record at 2. rewrite IH. cbn. rewrite andb_assoc.
  by destruct (priced_status record), (disputed_status record).
Qed.

Lemma count_filter (p q : UsageRecord.t -> bool) records :
  count_of (fun record => p record && q record) records = count_of q (List.filter p records).
Proof.
  unfold count_of. f_equal. f_equal. induction records as [|record records IH]; [done|]. cbn.
  destruct (p record); cbn; [|done]. destruct (q record); cbn; by rewrite IH.
Qed.

Lemma sum_filter (p : UsageRecord.t -> bool) (f : UsageRecord.t -> Z) records :
  sum_Z (fun x => if p x then f x else 0) records = sum_Z f (List.filter p records).
Proof. induction records as [|record records IH]; [done|]. cbn. destruct (p record); cbn; lia. Qed.

Lemma aggregate_exact records : countable records -> usageAggregateFromRecords records = aggregate_of records.
Proof.
  intros Hc. pose proof Hc as [Hn Hd]. unfold usageAggregateFromRecords. rewrite aggregates.
  unfold aggregate_of, mean_of, total_of, quantity_of. cbn -[Z.gtb].
  rewrite counting_all, !counting, !foldl_wrap, foldl_wrap_if, !saturating_fold by (try done; try lia; intros; by apply Hd).
  unfold usageSummaries. erewrite sort_summaries; [| |by apply summaries_perm]; [|done].
  by rewrite !Z.add_0_l, !count_filter, sum_filter.
Qed.

#[local] Instance filter_proper {A} (p : A -> bool) : Proper (Permutation ==> Permutation) (List.filter p).
Proof.
  intros l k Hp. induction Hp as [|x l k _ IH|x y l|l k m _ IH1 _ IH2]; cbn; [done| | |by rewrite IH1].
  - destruct (p x); by rewrite ?IH.
  - destruct (p x), (p y); try done. apply Permutation_swap.
Qed.

Section Reordered.
Context (records records' : list UsageRecord.t) (Hp : records ≡ₚ records').

Lemma filtered_perm (p : UsageRecord.t -> bool) : List.filter p records ≡ₚ List.filter p records'.
Proof. by rewrite Hp. Qed.
Lemma count_perm p : count_of p records = count_of p records'.
Proof. unfold count_of. by rewrite filtered_perm. Qed.
Lemma total_perm f : total_of f records = total_of f records'.
Proof. unfold total_of. by rewrite (sum_Z_perm _ _ _ Hp). Qed.
Lemma quantity_perm f : quantity_of f records = quantity_of f records'.
Proof. unfold quantity_of. by rewrite (sum_Z_perm _ _ _ Hp). Qed.
Lemma length_perm : length records = length records'.
Proof. by rewrite Hp. Qed.
Lemma mean_perm f : mean_of f records = mean_of f records'.
Proof. unfold mean_of. by rewrite length_perm, total_perm. Qed.
Lemma forallb_perm (p : UsageRecord.t -> bool) : forallb p records = forallb p records'.
Proof. apply eq_true_iff_eq. rewrite !forallb_forall. setoid_rewrite <- list_elem_of_In. by setoid_rewrite Hp. Qed.
Lemma models_perm : models_of records ≡ₚ models_of records'.
Proof.
  apply NoDup_Permutation; [apply NoDup_remove_dups..|].
  intros model. unfold models_of. rewrite !elem_of_remove_dups. by rewrite Hp.
Qed.
End Reordered.

Lemma summary_perm model records records' : records ≡ₚ records' -> summary_of model records = summary_of model records'.
Proof.
  intros Hp. unfold summary_of. f_equal; [by rewrite (length_perm _ _ Hp)|by apply count_perm|by apply total_perm
    |by apply quantity_perm|by apply quantity_perm|by apply quantity_perm|by apply total_perm|by apply mean_perm].
Qed.

Lemma aggregate_perm records records' : records ≡ₚ records' -> aggregate_of records = aggregate_of records'.
Proof.
  intros Hp. unfold aggregate_of. f_equal; [by rewrite (length_perm _ _ Hp)|by apply count_perm|by apply total_perm
    |by apply quantity_perm|by apply quantity_perm|by apply quantity_perm|by apply total_perm, filtered_perm
    |by rewrite (length_perm _ _ (filtered_perm _ _ Hp priced_status))|by apply count_perm, filtered_perm
    |by apply count_perm, filtered_perm|by rewrite (length_perm _ _ Hp), (forallb_perm _ _ Hp)|by apply mean_perm|].
  erewrite (map_ext (fun model => summary_of model (of_model model records)))
    by (intros model; by apply summary_perm, filtered_perm).
  apply sort_summaries; [done|]. by apply Permutation_map, models_perm.
Qed.

(** ** Properties *)

(** C38. The aggregate a query gives is the aggregate of the records that match
    it, each counted once: counts are exact, sums wrap as integers of the machine
    and quantities stop at the largest one, every model has one summary, made of
    its own records alone, the busiest first; and the order in which the store is
    ranged over does not matter. *)
Theorem usage_aggregate_exact query r records :
  records ≡ₚ List.filter (fun record => memoryUsageRecordMatches record query) (map_to_list (usageRecords r)).*2 ->
  countable records ->
  SummarizeUsageRecords query r = aggregate_of records.
Proof.
  intros Hp Hc. assert (Hm : records ≡ₚ matching query r). { unfold matching. by rewrite map_values_perm. }
  unfold SummarizeUsageRecords. rewrite aggregate_exact; [by apply aggregate_perm|].
  destruct Hc as [Hn Hd]. split; [by rewrite <- Hm|]. intros record Hr. apply Hd. by rewrite Hm.
Qed.
End Aggregates.

(** ** Witness *)

Module Demo.
#[local] Existing Instance canonical_range.
#[local] Instance no_lower : UnicodeCase := fun s => s.
Definition record_ (id key model status : string) (tokens latency : Z) : UsageRecord.t := UsageRecord.zero
  <| UsageRecord.ID := id |> <| UsageRecord.APIKeyID := key |> <| UsageRecord.Model := model |>
  <| UsageRecord.Status := status |> <| UsageRecord.InputTokens := tokens |> <| UsageRecord.LatencyMS := latency |>
  <| UsageRecord.PricingStatus := "priced"%string |> <| UsageRecord.UsageCostMicros := Some (2 * tokens) |>.
Definition one := record_ "1" "k" "big" "accepted" 10 4.
Definition two := record_ "2" "k" "small" "error" 1 7.
Definition three := record_ "3" "k" "big" "accepted" 5 2.
Definition foreign_ := record_ "4" "other" "big" "accepted" 100 2.
Definition store : MemoryRepository :=
  foldl (fun r record => (SaveUsageRecord record r).2) NewMemoryRepository [one; two; three; foreign_].
Definition query : UsageQuery.t := UsageQuery.mk 0 0 "" "" "k" [] "" "" "" "" "" "" "" "" 0 0.
End Demo.

#[local] Existing Instance canonical_range.
#[local] Existing Instance Demo.no_lower.

Lemma usage_aggregate_exact_witness :
  SummarizeUsageRecords Demo.query Demo.store =
  UsageAggregate.mk 3 1 16 0 0 0 32 3 0 0 true 4
    [UsageModelSummary.mk "big" 2 0 15 0 0 0 30 3; UsageModelSummary.mk "small" 1 1 1 0 0 0 2 7].
Proof.
  rewrite (usage_aggregate_exact Demo.query Demo.store [Demo.one; Demo.two; Demo.three]).
  - vm_compute. reflexivity.
  - assert (E : List.filter (fun record => memoryUsageRecordMatches record Demo.query) (map_to_list (usageRecords Demo.store)).*2 =
      [Demo.three; Demo.one; Demo.two]) by (vm_compute; reflexivity).
    rewrite E. transitivity [Demo.one; Demo.three; Demo.two]; [apply perm_skip, perm_swap|apply perm_swap].
  - split; [vm_compute; discriminate|]. intros record Hr. elem_cases Hr; subst record; by vm_compute.
Defined.
