(* ===== verification/Alerts.v ===== *)
(** * Alerts

    [alert_service.go] with the alerts in memory of [alert_repository.go]: an alert
    is raised or raised again under a key that names what it is about, is
    acknowledged, and is resolved by hand or when the condition is over.  The
    methods are programs [serv]; what they hand to the dispatcher of notifications
    is part of their answer; the alert of a risk rule prints floating-point numbers
    by [Float64]. *)

From S2P Require Import Prelude Threads Calendar Float64 UsageDimensions AccessModel RoutingModel GatewayPolicy Repository Service GatewayModels APIKeys UsageQueries.
From Stdlib Require Import Ascii.

(** ** Constants and records ([alert_model.go], [model.go]) *)

Definition AlertTypeAPIKeyQuota := "api_key_quota"%string.
Definition AlertTypeAPIKeyBudget := "api_key_budget"%string.
Definition AlertTypeGatewayErrorRate := "gateway_error_rate"%string.
Definition AlertTypeProviderHealth := "provider_health"%string.
Definition AlertTypeProviderAccountHealth := "provider_account_health"%string.
Definition AlertTypeRiskRule := "risk_rule"%string.

Definition AlertSeverityInfo := "info"%string.
Definition AlertSeverityWarning := "warning"%string.
Definition AlertSeverityCritical := "critical"%string.

Definition AlertStatusActive := "active"%string.
Definition AlertStatusAcknowledged := "acknowledged"%string.
Definition AlertStatusResolved := "resolved"%string.

Definition apiKeyQuotaWarningPercent : Z := 80.
Definition gatewayErrorRateWindow : duration := 15 * minute.
Definition gatewayErrorRateMinRequests : Z := 10.
Definition gatewayErrorRateWarningPercent : Z := 20.
Definition gatewayErrorRateCriticalPercent : Z := 50.
Definition systemActor := "system"%string.

Notation alert := AlertEvent.t (only parsing).

Module alertInput.
Record t := mk {
  Type_ : string;
  Severity : string;
  Title : string;
  Summary : string;
  ResourceType : string;
  ResourceID : string;
  DedupeKey : string;
  Metadata : gmap string string;
  ObservedAt : time;
  ApplicationID : string;
  ApplicationName : string;
  GatewayPrincipalID : string;
  GatewayPrincipalName : string;
  ExternalAuthIntegrationID : string;
  ExternalSubjectReference : string;
}.
#[export] Instance settable : Settable t := fun r => mk
  (Type_ r) (Severity r) (Title r) (Summary r) (ResourceType r) (ResourceID r) (DedupeKey r)
  (Metadata r) (ObservedAt r) (ApplicationID r) (ApplicationName r) (GatewayPrincipalID r)
  (GatewayPrincipalName r) (ExternalAuthIntegrationID r) (ExternalSubjectReference r).
End alertInput.
Export (hints) alertInput.

Module AlertQuery.
Record t := mk {
  Limit : Z;
  Offset : Z;
  Search : string;
  Type_ : string;
  Severity : string;
  Status : string;
  ResourceType : string;
  ResourceIDs : list string;
  ApplicationID : string;
  GatewayPrincipalID : string;
  ExternalAuthIntegrationID : string;
  CreatedFrom : time;
  CreatedTo : time;
}.
End AlertQuery.

Module AlertSummary.
Record t := mk {
  Total : Z;
  Active : Z;
  Acknowledged : Z;
  Resolved : Z;
  Warning : Z;
  Critical : Z;
}.
End AlertSummary.

Module ProviderHealthCheck.
Record t := mk {
  ID : string;
  ProviderID : string;
  Status : string;
  LatencyMS : Z;
  Message : string;
  CheckedAt : time;
}.
End ProviderHealthCheck.

Module ProviderAccountHealthCheck.
Record t := mk {
  ID : string;
  AccountID : string;
  ProviderID : string;
  Status : string;
  LatencyMS : Z;
  Message : string;
  Models : list string;
  CheckedAt : time;
}.
End ProviderAccountHealthCheck.

(** ** Texts and percentages *)

(** [%02d] and [%04d] of a number that is not negative. *)
Definition pad (width : nat) (n : Z) : string :=
  let s := Itoa n in
  (String.concat "" (repeat "0"%string (width - String.length s)) +:+ s)%string.

Definition alertMonthKey (now : time) : string :=
  let '(y, m, _) := civil (now / day) in (pad 4 y +:+ "-" +:+ pad 2 m)%string.

(** [t.Format(time.RFC3339)] of an instant in UTC. *)
Definition format_RFC3339 (t : time) : string :=
  let '(y, m, d) := civil (t / day) in
  let s := (t mod day) / second in
  (pad 4 y +:+ "-" +:+ pad 2 m +:+ "-" +:+ pad 2 d +:+ "T" +:+ pad 2 (s / 3600) +:+ ":"
   +:+ pad 2 (s / 60 mod 60) +:+ ":" +:+ pad 2 (s mod 60) +:+ "Z")%string.

Definition apiKeyQuotaAlertDedupeKey (apiKeyID : string) (now : time) : string :=
  ("api_key_quota:" +:+ TrimSpace apiKeyID +:+ ":" +:+ alertMonthKey now)%string.

(** [time.Duration.String]: a fraction of [width] digits without trailing zeros. *)
Fixpoint fraction (width : nat) (v : Z) : string :=
  match width with
  | O => ""%string
  | S rest => if v mod 10 =? 0 then fraction rest (v / 10) else ("." +:+ pad width v)%string
  end.
Definition duration_String (value : duration) : string :=
  let u := Z.abs value in
  let m := u / second / 60 in
  ((if (value <? 0)%Z then "-" else "") +:+
   (if (u =? 0)%Z then "0s"
    else if (u <? microsecond)%Z then Itoa u +:+ "ns"
    else if (u <? millisecond)%Z then Itoa (u / microsecond) +:+ fraction 3 (u mod microsecond) +:+ "µs"
    else if (u <? second)%Z then Itoa (u / millisecond) +:+ fraction 6 (u mod millisecond) +:+ "ms"
    else (if (0 <? m / 60)%Z then Itoa (m / 60) +:+ "h" else "") +:+ (if (0 <? m)%Z then Itoa (m mod 60) +:+ "m" else "")
         +:+ Itoa (u / second mod 60) +:+ fraction 9 (u mod second) +:+ "s"))%string.

(** [int(value.Minutes())] is the quotient whenever it is used. *)
Definition formatDuration (value : duration) : string :=
  let minutes := Z.quot value minute in
  if (minutes >? 0) && (Z.rem value minute =? 0) then (Itoa minutes +:+ " minutes")%string
  else duration_String value.

Example durations : duration_String (90 * minute + 500 * millisecond) = "1h30m0.5s"%string /\
  duration_String (-1500) = "-1.5µs"%string /\ duration_String (2 * second + 1) = "2.000000001s"%string /\
  duration_String (120 * millisecond) = "120ms"%string /\ formatDuration (15 * minute) = "15 minutes"%string.
Proof. vm_compute. split_and!; reflexivity. Qed.

Definition percentCeil64 (value limit : Z) : Z :=
  if (value <=? 0) || (limit <=? 0) then 0
  else if value >? Z.quot max_int64 100 then 100
  else Z.quot (wrap64 (wrap64 (value * 100) + limit) -i 1) limit.

Definition percentCeil (part total : Z) : Z :=
  if (total <=? 0) || (part <=? 0) then 0
  else to_int64 (ceil_int (fdiv (fmul (of_int part) (of_int 100)) (of_int total))).

Definition normalizeAlertType (value : string) : string :=
  if TrimSpace value =s "" then "system" else TrimSpace value.

Definition normalizeAlertSeverity (value : string) : string :=
  if TrimSpace value =s AlertSeverityCritical then AlertSeverityCritical
  else if TrimSpace value =s AlertSeverityInfo then AlertSeverityInfo
  else AlertSeverityWarning.

Definition normalizeActor (actor : string) : string :=
  if TrimSpace actor =s "" then "local-admin" else TrimSpace actor.

Definition cloneStringMap `{MapRange} (values : gmap string string) : gmap string string :=
  foldl (fun out entry => <[TrimSpace entry.1 := TrimSpace entry.2]> out) ∅ (map_range values).

(** ** The store ([alert_repository.go]) *)

Section Alerts.
Context `{range : MapRange} `{unicode : UnicodeCase}.

Definition memoryAlertEventMatches (event : alert) (query : AlertQuery.t) : bool :=
  if differs (AlertQuery.Type_ query) (AlertEvent.Type_ event)
     || differs (AlertQuery.Severity query) (AlertEvent.Severity event)
     || differs (AlertQuery.Status query) (AlertEvent.Status event)
     || differs (AlertQuery.ResourceType query) (AlertEvent.ResourceType event)
     || ((0 <? Z.of_nat (length (AlertQuery.ResourceIDs query)))
         && negb (contains (AlertQuery.ResourceIDs query) (AlertEvent.ResourceID event)))
     || differs (AlertQuery.ApplicationID query) (AlertEvent.ApplicationID event)
     || differs (AlertQuery.GatewayPrincipalID query) (AlertEvent.GatewayPrincipalID event)
     || differs (AlertQuery.ExternalAuthIntegrationID query) (AlertEvent.ExternalAuthIntegrationID event)
     || (negb (IsZero (AlertQuery.CreatedFrom query))
         && Before (AlertEvent.LastSeenAt event) (AlertQuery.CreatedFrom query))
     || (negb (IsZero (AlertQuery.CreatedTo query))
         && After (AlertEvent.LastSeenAt event) (AlertQuery.CreatedTo query))
  then false
  else
    let keyword := ToLower (TrimSpace (AlertQuery.Search query)) in
    if keyword =s "" then true
    else anyContains keyword
      ([AlertEvent.Type_ event; AlertEvent.Severity event; AlertEvent.Status event; AlertEvent.Title event;
        AlertEvent.Summary event; AlertEvent.ResourceType event; AlertEvent.ResourceID event; AlertEvent.DedupeKey event;
        AlertEvent.ApplicationID event; AlertEvent.ApplicationName event; AlertEvent.GatewayPrincipalID event;
        AlertEvent.GatewayPrincipalName event; AlertEvent.ExternalAuthIntegrationID event;
        AlertEvent.ExternalSubjectReference event]
       ++ flat_map (fun entry => [entry.1; entry.2]) (map_range (AlertEvent.Metadata event))).

Definition alert_less (i j : alert) : bool := After (AlertEvent.LastSeenAt i) (AlertEvent.LastSeenAt j).

Definition QueryAlertEvents (query : AlertQuery.t) (r : MemoryRepository) : list alert :=
  let out := sort_by alert_less
    (List.filter (fun event => memoryAlertEventMatches event query) (map_values (alertEvents r))) in
  let '(limit, offset) := normalizeListWindow (AlertQuery.Limit query) (AlertQuery.Offset query) 50 500 in
  window limit offset out.

Definition SummarizeAlertEvents (query : AlertQuery.t) (r : MemoryRepository) : AlertSummary.t :=
  foldl (fun summary event =>
      if negb (memoryAlertEventMatches event query) then summary
      else AlertSummary.mk
        (AlertSummary.Total summary +i 1)
        (count_if (AlertEvent.Status event =s AlertStatusActive) (AlertSummary.Active summary))
        (count_if (AlertEvent.Status event =s AlertStatusAcknowledged) (AlertSummary.Acknowledged summary))
        (count_if (AlertEvent.Status event =s AlertStatusResolved) (AlertSummary.Resolved summary))
        (count_if (AlertEvent.Severity event =s AlertSeverityWarning) (AlertSummary.Warning summary))
        (count_if (AlertEvent.Severity event =s AlertSeverityCritical) (AlertSummary.Critical summary)))
    (AlertSummary.mk 0 0 0 0 0 0) (map_values (alertEvents r)).

Definition FindAlertEvent (id : string) (r : MemoryRepository) : option alert := alertEvents r !! TrimSpace id.

Definition FindAlertByDedupeKey (dedupeKey : string) (r : MemoryRepository) : option alert :=
  find_value (fun event => AlertEvent.DedupeKey event =s TrimSpace dedupeKey) (alertEvents r).

Definition SaveAlertEvent (event : alert) : M unit :=
  write (fun r => r.[alertEvents]:[AlertEvent.ID event] <- event).

(** ** The service *)

Definition alertByID (id : string) : serv alert :=
  let id := TrimSpace id in
  _ ← refuse (id =s "") (ErrNew "alert id is required");
  found ← query (FindAlertEvent id);
  match found with
  | None => throw (ErrFmt "alert %q not found" [FmtStr id])
  | Some event => mret event
  end.

Definition acknowledged (actor : string) (now : time) (event : alert) : alert :=
  event
    <| AlertEvent.Status := AlertStatusAcknowledged |>
    <| AlertEvent.AcknowledgedAt := Some now |>
    <| AlertEvent.AcknowledgedBy := normalizeActor actor |>
    <| AlertEvent.LastSeenAt := now |>.

Definition AcknowledgeAlert (actor id random : string) : serv alert :=
  event ← alertByID id;
  _ ← refuse (AlertEvent.Status event =s AlertStatusResolved) (ErrNew "resolved alert cannot be acknowledged");
  now ← nowUTC;
  let event := acknowledged actor now event in
  _ ← section (SaveAlertEvent event);
  _ ← audit random actor "acknowledge" "alert_event" (AlertEvent.ID event)
        ("Acknowledged alert " +:+ AlertEvent.Title event)%string;
  mret event.

Definition resolved (actor : string) (now : time) (event : alert) : alert :=
  event
    <| AlertEvent.Status := AlertStatusResolved |>
    <| AlertEvent.ResolvedAt := Some now |>
    <| AlertEvent.ResolvedBy := normalizeActor actor |>
    <| AlertEvent.LastSeenAt := now |>.

Definition ResolveAlert (actor id random : string) : serv alert :=
  event ← alertByID id;
  now ← nowUTC;
  let event := resolved actor now event in
  _ ← section (SaveAlertEvent event);
  _ ← audit random actor "resolve" "alert_event" (AlertEvent.ID event)
        ("Resolved alert " +:+ AlertEvent.Title event)%string;
  mret event.

(** The alert found, or a new one. *)
Definition found_or_new (found : option alert) (dedupeKey random : string) (now : time) : alert :=
  match found with
  | Some event => event
  | None => AlertEvent.zero
      <| AlertEvent.ID := ("alert_" +:+ random)%string |>
      <| AlertEvent.Status := AlertStatusActive |>
      <| AlertEvent.DedupeKey := dedupeKey |>
      <| AlertEvent.FirstSeenAt := now |>
  end.

Definition reopened (event : alert) : alert :=
  if AlertEvent.Status event =s AlertStatusResolved
  then event
    <| AlertEvent.Status := AlertStatusActive |>
    <| AlertEvent.AcknowledgedAt := None |>
    <| AlertEvent.AcknowledgedBy := ""%string |>
    <| AlertEvent.ResolvedAt := None |>
    <| AlertEvent.ResolvedBy := ""%string |>
  else event.

(** What the alert says after it has been raised again. *)
Definition described (input : alertInput.t) (now : time) (event : alert) : alert :=
  let type := normalizeAlertType (alertInput.Type_ input) in
  let title := if TrimSpace (alertInput.Title input) =s "" then type else TrimSpace (alertInput.Title input) in
  let summary := if TrimSpace (alertInput.Summary input) =s "" then title else TrimSpace (alertInput.Summary input) in
  {| AlertEvent.ID := AlertEvent.ID event;
     AlertEvent.Type_ := type;
     AlertEvent.Severity := normalizeAlertSeverity (alertInput.Severity input);
     AlertEvent.Status := AlertEvent.Status event;
     AlertEvent.Title := title;
     AlertEvent.Summary := summary;
     AlertEvent.ResourceType := TrimSpace (alertInput.ResourceType input);
     AlertEvent.ResourceID := TrimSpace (alertInput.ResourceID input);
     AlertEvent.ApplicationID := TrimSpace (alertInput.ApplicationID input);
     AlertEvent.ApplicationName := TrimSpace (alertInput.ApplicationName input);
     AlertEvent.GatewayPrincipalID := TrimSpace (alertInput.GatewayPrincipalID input);
     AlertEvent.GatewayPrincipalName := TrimSpace (alertInput.GatewayPrincipalName input);
     AlertEvent.ExternalAuthIntegrationID := TrimSpace (alertInput.ExternalAuthIntegrationID input);
     AlertEvent.ExternalSubjectReference := TrimSpace (alertInput.ExternalSubjectReference input);
     AlertEvent.DedupeKey := AlertEvent.DedupeKey event;
     AlertEvent.Metadata := cloneStringMap (alertInput.Metadata input);
     AlertEvent.FirstSeenAt := AlertEvent.FirstSeenAt event;
     AlertEvent.LastSeenAt := now;
     AlertEvent.AcknowledgedAt := AlertEvent.AcknowledgedAt event;
     AlertEvent.AcknowledgedBy := AlertEvent.AcknowledgedBy event;
     AlertEvent.ResolvedAt := AlertEvent.ResolvedAt event;
     AlertEvent.ResolvedBy := AlertEvent.ResolvedBy event |}.

(** The answer is what is handed to the dispatcher, whose own answer is ignored. *)
Definition upsertAlert (input : alertInput.t) (random : string) : serv (option alert) :=
  let dedupeKey := TrimSpace (alertInput.DedupeKey input) in
  _ ← refuse (dedupeKey =s "") (ErrNew "alert dedupe key is required");
  now ← (if IsZero (alertInput.ObservedAt input) then nowUTC else mret (alertInput.ObservedAt input));
  found ← query (FindAlertByDedupeKey dedupeKey);
  let before := found_or_new found dedupeKey random now in
  let event := described input now (reopened before) in
  _ ← section (SaveAlertEvent event);
  mret (if (match found with None => true | Some _ => false end)
           || (AlertEvent.Status before =s AlertStatusResolved)
           || (AlertEvent.Severity before <>s AlertEvent.Severity event)
        then Some event else None).

Definition resolveAlertByDedupeKey (actor dedupeKey summary : string) : serv unit :=
  found ← query (FindAlertByDedupeKey (TrimSpace dedupeKey));
  match found with
  | None => mret tt
  | Some event =>
      if AlertEvent.Status event =s AlertStatusResolved then mret tt
      else
        now ← nowUTC;
        section (SaveAlertEvent ((resolved actor now event)
          <| AlertEvent.Summary := if TrimSpace summary <>s "" then TrimSpace summary else AlertEvent.Summary event |>))
  end.

(** Resolving dispatches nothing. *)
Definition over (dedupeKey summary : string) : serv (option alert) :=
  _ ← resolveAlertByDedupeKey systemActor dedupeKey summary; mret None.

(** ** Conditions that raise and resolve alerts *)

Definition applyGatewayPlatformSnapshotToAlertInput (input : alertInput.t) (auth : GatewayAuthContext.t) : alertInput.t :=
  match GatewayAuthContext.Application auth, GatewayAuthContext.GatewayPrincipal auth with
  | Some application, Some principal =>
      let input := input
        <| alertInput.ApplicationID := Application.ID application |>
        <| alertInput.ApplicationName := Application.Name application |>
        <| alertInput.GatewayPrincipalID := GatewayPrincipal.ID principal |>
        <| alertInput.GatewayPrincipalName := GatewayPrincipal.Name principal |> in
      match GatewayAuthContext.ExternalAuthIntegration auth with
      | Some integration => input
          <| alertInput.ExternalAuthIntegrationID := ExternalAuthIntegration.ID integration |>
          <| alertInput.ExternalSubjectReference := GatewayAuthContext.ExternalSubjectReference auth |>
      | None => input
      end
  | _, _ => input
  end.

(** [p], its error kept as a value. *)
Definition outcome {A} (p : serv A) : serv (result go_error A) := prog_bind p (fun x => Ret (Ok x)).

Definition applyPlatformAlertIdentityForKey (input : alertInput.t) (apiKeyID : string) : serv alertInput.t :=
  found ← outcome (apiKeyByID apiKeyID);
  match found with
  | Err _ => mret input
  | Ok key =>
      if negb (isApplicationAPIKey key) then mret input
      else
        found ← outcome (applicationCredentialIdentity_ (APIKeyRecord.ApplicationID key) (APIKeyRecord.GatewayPrincipalID key));
        match found with
        | Err _ => mret (input
            <| alertInput.ApplicationID := APIKeyRecord.ApplicationID key |>
            <| alertInput.GatewayPrincipalID := APIKeyRecord.GatewayPrincipalID key |>)
        | Ok identity => mret (input
            <| alertInput.ApplicationID := Application.ID (application identity) |>
            <| alertInput.ApplicationName := Application.Name (application identity) |>
            <| alertInput.GatewayPrincipalID := GatewayPrincipal.ID (principal identity) |>
            <| alertInput.GatewayPrincipalName := GatewayPrincipal.Name (principal identity) |>)
        end
  end.

Definition RecordRiskRuleAlert (apiKeyID ruleID ruleName summary : string) (value threshold : float64) (random : string)
    : serv (option alert) :=
  input ← applyPlatformAlertIdentityForKey
    (alertInput.mk AlertTypeRiskRule AlertSeverityWarning "Gateway risk rule requires review" summary
      "api_key" apiKeyID ("risk_rule:" +:+ TrimSpace ruleID +:+ ":" +:+ TrimSpace apiKeyID)
      (list_to_map [("rule_id", ruleID); ("rule_name", ruleName);
        ("value", format_f2 value); ("threshold", format_f2 threshold)])
      0 "" "" "" "" "" "")%string apiKeyID;
  upsertAlert input random.

Definition key_input (auth : GatewayAuthContext.t) (type severity title summary dedupeKey : string)
    (metadata : gmap string string) (observedAt : time) : alertInput.t :=
  applyGatewayPlatformSnapshotToAlertInput
    (alertInput.mk type severity title summary "api_key" (APIKeyRecord.ID (GatewayAuthContext.APIKey auth)) dedupeKey
      metadata observedAt "" "" "" "" "" "") auth.

Notation key_of auth := (GatewayAuthContext.APIKey auth).

Definition syncAPIKeyQuotaAlert (auth : GatewayAuthContext.t) (usedTokens : Z) (now : time) (random : string)
    : serv (option alert) :=
  let name := APIKeyRecord.Name (key_of auth) in
  let dedupeKey := apiKeyQuotaAlertDedupeKey (APIKeyRecord.ID (key_of auth)) now in
  let limit := effectiveMonthlyTokenLimit auth in
  if limit <=? 0 then over dedupeKey ("API key " +:+ name +:+ " has no monthly token quota.")%string
  else
    let usedPercent := percentCeil usedTokens limit in
    if usedPercent <? apiKeyQuotaWarningPercent
    then over dedupeKey ("API key " +:+ name +:+ " quota usage is within policy.")%string
    else
      let exhausted := usedTokens >=? limit in
      upsertAlert (key_input auth AlertTypeAPIKeyQuota
        (if exhausted then AlertSeverityCritical else AlertSeverityWarning)
        (if exhausted then "API key monthly token quota exhausted"
         else "API key monthly token quota reached warning threshold")
        ("API key " +:+ name +:+ " used " +:+ Itoa usedTokens +:+ " of " +:+ Itoa limit +:+ " monthly tokens ("
         +:+ Itoa usedPercent +:+ "%).")
        dedupeKey
        (list_to_map [("api_key_name", name);
          ("api_key_fingerprint", APIKeyRecord.Fingerprint (key_of auth));
          ("monthly_token_limit", Itoa limit);
          ("current_month_tokens", Itoa usedTokens);
          ("quota_used_percent", Itoa usedPercent);
          ("quota_month", alertMonthKey now)])
        now)%string random.

Definition syncAPIKeyQuotaAlertForAuth (auth : GatewayAuthContext.t) (now : time) (random : string)
    : serv (option alert) :=
  if effectiveMonthlyTokenLimit auth <=? 0 then mret None
  else
    used ← query (SumUsageTokensByAPIKeySince (APIKeyRecord.ID (key_of auth)) (monthStart now));
    syncAPIKeyQuotaAlert auth used now random.

Definition budget_dedupe_key (auth : GatewayAuthContext.t) (now : time) : string :=
  ("api_key_budget:" +:+ APIKeyRecord.ID (key_of auth) +:+ ":" +:+ alertMonthKey now)%string.

Definition syncAPIKeyBudgetAlert (auth : GatewayAuthContext.t) (usedMicros : Z) (now : time) (random : string)
    : serv (option alert) :=
  let name := APIKeyRecord.Name (key_of auth) in
  let limit := effectiveMonthlyBudgetMicros auth in
  let dedupeKey := budget_dedupe_key auth now in
  if limit <=? 0 then over dedupeKey ("API key " +:+ name +:+ " has no monthly budget policy.")%string
  else
    let usedPercent := percentCeil64 usedMicros limit in
    if usedPercent <? apiKeyQuotaWarningPercent
    then over dedupeKey ("API key " +:+ name +:+ " budget usage is within policy.")%string
    else
      let exhausted := usedMicros >=? limit in
      upsertAlert (key_input auth AlertTypeAPIKeyBudget
        (if exhausted then AlertSeverityCritical else AlertSeverityWarning)
        (if exhausted then "API key monthly budget exhausted" else "API key monthly budget reached warning threshold")
        ("API key " +:+ name +:+ " used " +:+ Itoa usedMicros +:+ " of " +:+ Itoa limit
         +:+ " monthly microdollars (" +:+ Itoa usedPercent +:+ "%).")
        dedupeKey
        (list_to_map [("api_key_name", name);
          ("api_key_fingerprint", APIKeyRecord.Fingerprint (key_of auth));
          ("monthly_budget_micros", Itoa limit);
          ("current_month_usage_cost_micros", Itoa usedMicros);
          ("budget_used_percent", Itoa usedPercent);
          ("budget_month", alertMonthKey now)])
        now)%string random.

Definition syncAPIKeyBudgetAlertForAuth (auth : GatewayAuthContext.t) (now : time) (random : string)
    : serv (option alert) :=
  if effectiveMonthlyBudgetMicros auth <=? 0 then mret None
  else
    used ← query (SumUsageCostMicrosByAPIKeySince (APIKeyRecord.ID (key_of auth)) (monthStart now));
    syncAPIKeyBudgetAlert auth used now random.

Definition syncGatewayErrorRateAlert (auth : GatewayAuthContext.t) (random : string) : serv (option alert) :=
  windowEnd ← nowUTC;
  let windowStart := windowEnd - gatewayErrorRateWindow in
  let id := APIKeyRecord.ID (key_of auth) in
  let name := APIKeyRecord.Name (key_of auth) in
  let dedupeKey := ("gateway_error_rate:" +:+ id)%string in
  aggregate ← query (SummarizeUsageRecords (UsageQuery.mk 0 0 "" "" id [] "" "" "" "" "" "" "" "" windowStart 0));
  let total := UsageAggregate.TotalRequests aggregate in
  let errors := UsageAggregate.ErrorRequests aggregate in
  if total <? gatewayErrorRateMinRequests
  then over dedupeKey ("Workspace key " +:+ name +:+ " has fewer than " +:+ Itoa gatewayErrorRateMinRequests
    +:+ " requests in the rolling error-rate window.")%string
  else
    let errorRate := percentCeil errors total in
    if errorRate <? gatewayErrorRateWarningPercent
    then over dedupeKey ("Workspace key " +:+ name +:+ " gateway error rate recovered to " +:+ Itoa errorRate +:+ "%.")%string
    else
      let severe := errorRate >=? gatewayErrorRateCriticalPercent in
      upsertAlert (key_input auth AlertTypeGatewayErrorRate
        (if severe then AlertSeverityCritical else AlertSeverityWarning)
        (if severe then "Gateway error rate is critical" else "Gateway error rate reached warning threshold")
        ("Workspace key " +:+ name +:+ " had " +:+ Itoa errors +:+ " errors out of " +:+ Itoa total
         +:+ " requests in the last " +:+ formatDuration gatewayErrorRateWindow +:+ " (" +:+ Itoa errorRate +:+ "%).")
        dedupeKey
        (list_to_map [("api_key_id", id);
          ("api_key_name", name);
          ("window_seconds", Itoa (Z.quot gatewayErrorRateWindow second));
          ("window_started_at", format_RFC3339 windowStart);
          ("window_ended_at", format_RFC3339 windowEnd);
          ("total_requests", Itoa total);
          ("error_requests", Itoa errors);
          ("error_rate_percent", Itoa errorRate);
          ("warning_threshold", Itoa gatewayErrorRateWarningPercent);
          ("critical_threshold", Itoa gatewayErrorRateCriticalPercent);
          ("min_request_threshold", Itoa gatewayErrorRateMinRequests)])
        0)%string random.

(** A check of health: what it says about, and what it found. *)
Definition unhealthy (status : string) : bool := (status =s "warning") || (status =s "error").
Definition health_severity (status : string) : string :=
  if status =s "error" then AlertSeverityCritical else AlertSeverityWarning.

Definition syncProviderHealthAlert (provider : ProviderConnection.t) (check : ProviderHealthCheck.t) (random : string)
    : serv (option alert) :=
  let name := ProviderConnection.Name provider in
  let status := ProviderHealthCheck.Status check in
  let dedupeKey := ("provider_health:" +:+ ProviderConnection.ID provider)%string in
  if negb (unhealthy status)
  then over dedupeKey ("Provider " +:+ name +:+ " recovered with status " +:+ status +:+ ".")%string
  else upsertAlert (alertInput.mk AlertTypeProviderHealth (health_severity status)
    ("Provider " +:+ name +:+ " health is " +:+ status) (ProviderHealthCheck.Message check)
    "provider" (ProviderConnection.ID provider) dedupeKey
    (list_to_map [("provider_name", name);
      ("provider_type", ProviderConnection.Type_ provider);
      ("health_status", status);
      ("latency_ms", Itoa (ProviderHealthCheck.LatencyMS check));
      ("checked_at", format_RFC3339 (ProviderHealthCheck.CheckedAt check))])
    0 "" "" "" "" "" "")%string random.

Definition syncProviderAccountHealthAlert (account : ProviderAccount.t) (provider : ProviderConnection.t)
    (check : ProviderAccountHealthCheck.t) (random : string) : serv (option alert) :=
  let name := ProviderAccount.Name account in
  let status := ProviderAccountHealthCheck.Status check in
  let dedupeKey := ("provider_account_health:" +:+ ProviderAccount.ID account)%string in
  if negb (unhealthy status)
  then over dedupeKey ("Provider account " +:+ name +:+ " recovered with status " +:+ status +:+ ".")%string
  else upsertAlert (alertInput.mk AlertTypeProviderAccountHealth (health_severity status)
    ("Provider account " +:+ name +:+ " health is " +:+ status) (ProviderAccountHealthCheck.Message check)
    "provider_account" (ProviderAccount.ID account) dedupeKey
    (list_to_map [("account_name", name);
      ("provider_id", ProviderConnection.ID provider);
      ("provider_name", ProviderConnection.Name provider);
      ("platform", ProviderAccount.Platform account);
      ("health_status", status);
      ("latency_ms", Itoa (ProviderAccountHealthCheck.LatencyMS check));
      ("checked_at", format_RFC3339 (ProviderAccountHealthCheck.CheckedAt check))])
    0 "" "" "" "" "" "")%string random.
End Alerts.

(** ** Lemmas: keys that start with a letter *)

Lemma trim_go_keeps (s2 : ascii -> ascii -> bool) s3 a q (n : nat) k :
  space1 a = false -> (forall x, s2 x a = false /\ s2 a x = false) ->
  (forall x y, s3 x y a = false /\ s3 x a y = false /\ s3 a x y = false) -> (length k <= n)%nat ->
  exists k', trim_go s2 s3 (k ++ a :: q) = k' ++ a :: q.
Proof.
  intros H1 H2 H3. revert k. induction n as [|n IH]; intros k Hn;
    (destruct k as [|x k]; [exists []; cbn; rewrite H1; destruct q as [|y q]; [done|]; rewrite (proj2 (H2 y));
       destruct q as [|z q]; [done|]; by rewrite (proj2 (proj2 (H3 y z)))|]); cbn in Hn; [lia|].
  assert (Hstop : exists k', x :: k ++ a :: q = k' ++ a :: q) by by exists (x :: k).
  cbn [app trim_go]. destruct (space1 x); [apply IH; lia|]. destruct k as [|y k]; cbn [app].
  - rewrite (proj1 (H2 x)). destruct q as [|z q]; [exact Hstop|]. rewrite (proj1 (proj2 (H3 x z))). exact Hstop.
  - cbn in Hn. destruct (s2 x y); [apply IH; lia|]. destruct k as [|z k]; cbn [app].
    + rewrite (proj1 (H3 x y)). exact Hstop.
    + cbn in Hn. destruct (s3 x y z); [apply IH; lia|exact Hstop].
Qed.

Lemma plain_never_space a : plain_char a = true ->
  (forall b, space2 b a = false) /\ (forall b c, space3 b a c = false) /\ (forall b c, space3 b c a = false).
Proof.
  destruct a as [[] [] [] [] [] [] [] []]; intros H; try discriminate H; unfold space2, space3;
    repeat split; intros; cbn; rewrite ?andb_false_r, ?orb_false_r; reflexivity.
Qed.

Lemma string_bytes_app (s t : string) :
  String.list_ascii_of_string (s +:+ t)%string = String.list_ascii_of_string s ++ String.list_ascii_of_string t.
Proof. induction s as [|a s IH]; [done|]. exact (f_equal (cons a) IH). Qed.
Lemma string_bytes_inj (s t : string) : String.list_ascii_of_string s = String.list_ascii_of_string t -> s = t.
Proof.
  intros H. rewrite <- (String.string_of_list_ascii_of_string s), H. apply String.string_of_list_ascii_of_string.
Qed.

(** Trimming a text that starts with characters other than white space keeps them. *)
Lemma TrimSpace_prefix p s : p <> ""%string -> forallb plain_char (String.list_ascii_of_string p) = true ->
  exists t, TrimSpace (p +:+ s)%string = (p +:+ t)%string.
Proof.
  intros Hne Hp. unfold TrimSpace. rewrite string_bytes_app.
  set (lp := String.list_ascii_of_string p) in *. set (ls := String.list_ascii_of_string s).
  assert (Elp : exists a q, rev lp = a :: q).
  { destruct (rev lp) as [|a q] eqn:E; [|by exists a, q]. apply (f_equal (@rev _)) in E. rewrite rev_involutive in E.
    subst lp. destruct p; [done|discriminate E]. }
  assert (Hl : trim_left (lp ++ ls) = lp ++ ls).
  { apply trim_go_fixed. destruct lp as [|a lp']; [by destruct Elp as (? & ? & ?)|]. cbn in Hp. apply andb_true_iff in Hp as [Ha _].
    destruct (plain_no_space a Ha) as (H1 & H2 & H3). cbn [app]. destruct (lp' ++ ls) as [|b [|c l']]; cbn; by rewrite ?H1, ?H2, ?H3. }
  rewrite Hl. unfold trim_right. rewrite rev_app_distr. destruct Elp as (a & q & E). rewrite E.
  assert (Ha : plain_char a = true).
  { apply (proj1 (forallb_forall _ _) Hp). apply in_rev. rewrite E. by left. }
  destruct (plain_no_space a Ha) as (H1 & H2 & H3). destruct (plain_never_space a Ha) as (G2 & G3 & G3').
  destruct (trim_go_keeps (fun a b => space2 b a) (fun a b c => space3 c b a) a q (length (rev ls)) (rev ls)) as [k' ->]; try done.
  exists (String.string_of_list_ascii (rev k')). rewrite rev_app_distr, <- E, rev_involutive.
  apply string_bytes_inj. rewrite string_bytes_app, !String.list_ascii_of_string_of_list_ascii. done.
Qed.

Lemma TrimSpace_starts a s : plain_char a = true -> TrimSpace (String a s) <> ""%string.
Proof.
  intros Ha. destruct (TrimSpace_prefix (String a "") s) as [t E]; [done|by cbn; rewrite Ha|].
  change (String a "" +:+ s)%string with (String a s) in E. rewrite E. done.
Qed.

(** ** A coherent store *)

Definition is_set (t : option time) : bool := match t with Some _ => true | None => false end.

Record alert_ok (e : alert) : Prop := {
  alert_status : oneOf (AlertEvent.Status e) [AlertStatusActive; AlertStatusAcknowledged; AlertStatusResolved] = true;
  alert_severity : oneOf (AlertEvent.Severity e) [AlertSeverityInfo; AlertSeverityWarning; AlertSeverityCritical] = true;
  alert_key : AlertEvent.DedupeKey e <> ""%string /\ TrimSpace (AlertEvent.DedupeKey e) = AlertEvent.DedupeKey e;
  alert_title : AlertEvent.Title e <> ""%string /\ AlertEvent.Summary e <> ""%string;
  alert_resolved : is_set (AlertEvent.ResolvedAt e) = (AlertEvent.Status e =s AlertStatusResolved);
  alert_acknowledged : AlertEvent.Status e = AlertStatusAcknowledged -> is_set (AlertEvent.AcknowledgedAt e) = true;
  alert_active : AlertEvent.Status e = AlertStatusActive -> AlertEvent.AcknowledgedAt e = None;
}.

Record alerts_ok (m : gmap string alert) : Prop := {
  alerts_keyed : keyed AlertEvent.ID m;
  alerts_each : map_Forall (fun _ e => alert_ok e) m;
  alerts_unique : forall k1 k2 e1 e2, m !! k1 = Some e1 -> m !! k2 = Some e2 ->
    AlertEvent.DedupeKey e1 = AlertEvent.DedupeKey e2 -> k1 = k2;
}.

(** An alert replaced, or a new one under a key of its own. *)
Lemma alerts_save m e : alerts_ok m -> alert_ok e ->
  (forall k e', m !! k = Some e' -> AlertEvent.DedupeKey e' = AlertEvent.DedupeKey e -> k = AlertEvent.ID e) ->
  alerts_ok (<[AlertEvent.ID e := e]> m).
Proof.
  intros [O1 O2 O3] He Hkey. split.
  - by apply keyed_insert.
  - by apply map_Forall_insert_2.
  - intros k1 k2 e1 e2. rewrite !lookup_insert_Some. intros [[<- <-]|[N1 H1]] [[<- <-]|[N2 H2]] E; try done.
    + symmetry. by apply (Hkey k2 e2).
    + by apply (Hkey k1 e1).
    + by eapply O3.
Qed.

Lemma alerts_replace m k e e' : alerts_ok m -> m !! k = Some e -> alert_ok e' ->
  AlertEvent.ID e' = AlertEvent.ID e -> AlertEvent.DedupeKey e' = AlertEvent.DedupeKey e ->
  alerts_ok (<[AlertEvent.ID e' := e']> m).
Proof.
  intros Hm Hk He Ei Ed. apply alerts_save; [done|done|]. intros k' e0 Hk' E.
  rewrite Ei, (alerts_keyed _ Hm _ _ Hk). eapply alerts_unique; [done|exact Hk'|exact Hk|congruence].
Qed.

(** ** What the alert about something is *)

Section Conditions.
Context `{range : MapRange} `{unicode : UnicodeCase}.

Notation alerts s := (alertEvents (repository s)).

Definition about (key : string) (m : gmap string alert) : option alert :=
  find_value (fun e => AlertEvent.DedupeKey e =s key) m.

Lemma about_Some key m e : alerts_ok m ->
  about key m = Some e <-> m !! AlertEvent.ID e = Some e /\ AlertEvent.DedupeKey e = key.
Proof.
  intros Hm. unfold about. split.
  - intros [(k & Hk) E%String.eqb_eq]%find_value_Some. by rewrite (alerts_keyed _ Hm _ _ Hk).
  - intros [Hk Ek]. destruct (find_value _ m) as [e'|] eqn:E.
    + apply find_value_Some in E as [(k' & Hk') E%String.eqb_eq]. f_equal.
      assert (k' = AlertEvent.ID e) as -> by (eapply alerts_unique; [done|exact Hk'|exact Hk|congruence]). congruence.
    + rewrite find_value_None in E. specialize (E _ _ Hk). cbn in E. by rewrite Ek, String.eqb_refl in E.
Qed.

Lemma about_None key m : about key m = None <-> forall k e, m !! k = Some e -> AlertEvent.DedupeKey e <> key.
Proof.
  unfold about. rewrite find_value_None. split; intros H k e Hk; specialize (H k e Hk); [by apply String.eqb_neq|].
  by apply String.eqb_neq.
Qed.

(** The alerts about anything else are as they were. *)
Definition elsewhere (key : string) (m m' : gmap string alert) : Prop :=
  forall other, other <> key -> about other m' = about other m.

Definition opened (key : string) (m : gmap string alert) : option alert :=
  e ← about key m; if AlertEvent.Status e =s AlertStatusResolved then None else Some e.

Lemma save_elsewhere key m e : alerts_ok m -> alerts_ok (<[AlertEvent.ID e := e]> m) -> AlertEvent.DedupeKey e = key ->
  (forall e', m !! AlertEvent.ID e = Some e' -> AlertEvent.DedupeKey e' = key) ->
  about key (<[AlertEvent.ID e := e]> m) = Some e /\ elsewhere key m (<[AlertEvent.ID e := e]> m).
Proof.
  intros Hm Hm' Ek Hold. split; [apply about_Some; [done|]; by rewrite lookup_insert_eq|]. intros other Hne.
  apply option_eq. intros e'. rewrite !about_Some by done. split; intros [H1 H2]; (split; [|done]).
  - apply lookup_insert_Some in H1 as [[_ <-]|[_ H1]]; [congruence|done].
  - apply lookup_insert_Some. right. split; [|done]. intros E. rewrite <- E in H1. apply Hold in H1. congruence.
Qed.

(** The alert about [key] is raised with [severity]: it is open with it, whoever
    acknowledged it before, and it is dispatched unless it was so already. *)
Definition raised (key severity : string) (s : service_state) (x : result go_error (option alert)) (s' : service_state) : Prop :=
  alerts_ok (alerts s') /\ elsewhere key (alerts s) (alerts s') /\
  exists e, opened key (alerts s') = Some e /\ AlertEvent.Severity e = severity /\
    match opened key (alerts s) with
    | Some before =>
        AlertEvent.ID e = AlertEvent.ID before /\ AlertEvent.Status e = AlertEvent.Status before /\
        AlertEvent.FirstSeenAt e = AlertEvent.FirstSeenAt before /\ AlertEvent.AcknowledgedAt e = AlertEvent.AcknowledgedAt before /\
        x = Ok (if AlertEvent.Severity before =s severity then None else Some e)
    | None => AlertEvent.Status e = AlertStatusActive /\ x = Ok (Some e)
    end.

(** The condition is over: the alert, if there is one, is resolved. *)
Definition settled (key : string) (s : service_state) (x : result go_error (option alert)) (s' : service_state) : Prop :=
  alerts_ok (alerts s') /\ elsewhere key (alerts s) (alerts s') /\ opened key (alerts s') = None /\ x = Ok None /\
  (opened key (alerts s) = None -> alerts s' = alerts s).

Lemma normal_severity value :
  oneOf (normalizeAlertSeverity value) [AlertSeverityInfo; AlertSeverityWarning; AlertSeverityCritical] = true.
Proof. unfold normalizeAlertSeverity. do 2 (case_match; [done|]). done. Qed.

Lemma normal_type value : normalizeAlertType value <> ""%string.
Proof. unfold normalizeAlertType. destruct (String.eqb_spec (TrimSpace value) ""); done. Qed.

(** An alert that is open, but for what it says. *)
Record open_ok (e : alert) : Prop := {
  open_status : AlertEvent.Status e = AlertStatusActive \/ AlertEvent.Status e = AlertStatusAcknowledged;
  open_key : AlertEvent.DedupeKey e <> ""%string /\ TrimSpace (AlertEvent.DedupeKey e) = AlertEvent.DedupeKey e;
  open_resolved : AlertEvent.ResolvedAt e = None;
  open_acknowledged : AlertEvent.Status e = AlertStatusAcknowledged -> is_set (AlertEvent.AcknowledgedAt e) = true;
  open_active : AlertEvent.Status e = AlertStatusActive -> AlertEvent.AcknowledgedAt e = None;
}.

Lemma described_ok input now e : open_ok e -> alert_ok (described input now e).
Proof.
  intros [O1 O2 O3 O4 O5]. unfold described. split; cbn; try done.
  - by destruct O1 as [-> | ->].
  - apply normal_severity.
  - pose proof (normal_type (alertInput.Type_ input)) as Ht.
    destruct (String.eqb_spec (TrimSpace (alertInput.Title input)) ""), (String.eqb_spec (TrimSpace (alertInput.Summary input)) ""); done.
  - rewrite O3. by destruct O1 as [-> | ->].
Qed.

Lemma reopened_ok e : alert_ok e -> open_ok (reopened e).
Proof.
  intros [O1 O2 O3 O4 O5 O6 O7]. unfold reopened. revert O5.
  destruct (String.eqb_spec (AlertEvent.Status e) AlertStatusResolved) as [E|E]; intros O5.
  - split; cbn; try done. by left.
  - apply oneOf_In in O1. split; try done.
    + elem_cases O1; auto. done.
    + by destruct (AlertEvent.ResolvedAt e).
Qed.

Lemma found_spec key random now m : alerts_ok m -> key <> ""%string -> TrimSpace key = key ->
  m !! ("alert_" +:+ random)%string = None ->
  let e := found_or_new (about key m) key random now in
  AlertEvent.DedupeKey e = key /\
  (forall k e', m !! k = Some e' -> AlertEvent.DedupeKey e' = key -> k = AlertEvent.ID e) /\
  (forall e', m !! AlertEvent.ID e = Some e' -> AlertEvent.DedupeKey e' = key).
Proof.
  intros Hm Hne Ht Hfresh. cbv zeta. destruct (about key m) as [e|] eqn:Ea; cbn.
  - apply about_Some in Ea as [Ek Ed]; [|done]. split_and!; [done| |].
    + intros k e' Hk E. eapply alerts_unique; [done|exact Hk|exact Ek|congruence].
    + intros e' H. congruence.
  - rewrite about_None in Ea. split_and!; [done| |].
    + intros k e' Hk E. by destruct (Ea _ _ Hk).
    + intros e' H. by rewrite Hfresh in H.
Qed.

Lemma new_alert_ok key random now : key <> ""%string -> TrimSpace key = key ->
  open_ok (reopened (found_or_new None key random now)).
Proof. intros H1 H2. split; cbn; try done. by left. Qed.

(** Raising an alert. *)
Lemma upsert_raises input random s (key := TrimSpace (alertInput.DedupeKey input)) :
  alerts_ok (alerts s) -> key <> ""%string -> alerts s !! ("alert_" +:+ random)%string = None ->
  solo (upsertAlert input random) (raised key (normalizeAlertSeverity (alertInput.Severity input)) s) s.
Proof.
  intros Hm Hne Hfresh. assert (Htrim : TrimSpace key = key) by apply TrimSpace_idemp.
  unfold upsertAlert. fold key. apply solo_reader; [by destruct (key =s ""); reader_tac| |].
  2: { intros e He. rewrite (proj2 (String.eqb_neq _ _) Hne) in He. done. }
  intros _ _. apply solo_reader; [by destruct (IsZero _); reader_tac| |by destruct (IsZero _)].
  intros now _. apply solo_reader; [apply reader_query| |done]. intros found Hf.
  change (Ok (FindAlertByDedupeKey key (repository s)) = Ok found :> result go_error _) in Hf. injection Hf as <-.
  unfold FindAlertByDedupeKey. rewrite Htrim. fold (about key (alerts s)).
  destruct (found_spec key random now (alerts s) Hm Hne Htrim Hfresh) as (Ek & Hkey & Hold).
  set (before := found_or_new (about key (alerts s)) key random now) in *.
  assert (Hopen : open_ok (reopened before)).
  { unfold before. destruct (about key (alerts s)) as [e|] eqn:Ea; [|by apply new_alert_ok].
    apply about_Some in Ea as [Ea _]; [|done]. by apply reopened_ok, (alerts_each _ Hm _ _ Ea). }
  assert (Ei : AlertEvent.ID (reopened before) = AlertEvent.ID before) by (unfold reopened; by destruct (_ =s _)).
  assert (Er : AlertEvent.DedupeKey (reopened before) = key) by (unfold reopened; by destruct (_ =s _)).
  pose proof (described_ok input now _ Hopen) as Hok. set (e := described input now (reopened before)) in *.
  assert (Hm' : alerts_ok (<[AlertEvent.ID e := e]> (alerts s))).
  { apply alerts_save; [done|done|]. intros k e' Hk E. cbn. rewrite Ei. apply (Hkey k e' Hk). by rewrite E. }
  destruct (save_elsewhere key (alerts s) e Hm Hm' Er) as [Habout Helse]. { cbn. by rewrite Ei. }
  assert (Hnr : (AlertEvent.Status (reopened before) =s AlertStatusResolved) = false)
    by (destruct (open_status _ Hopen) as [-> | ->]; done).
  assert (Ho : opened key (<[AlertEvent.ID e := e]> (alerts s)) = Some e).
  { unfold opened. rewrite Habout. cbn [mbind option_bind].
    change (AlertEvent.Status e) with (AlertEvent.Status (reopened before)). by rewrite Hnr. }
  apply solo_section; [|done]. intros a r [= <- <-]. unfold solo. cbn [exec fst snd mret serv_ret].
  split; [exact Hm'|]. split; [exact Helse|]. exists e. split; [exact Ho|]. split; [done|].
  clear Ho Hm' Helse Habout Hok. unfold opened.
  change (AlertEvent.Severity e) with (normalizeAlertSeverity (alertInput.Severity input)).
  unfold before in *. destruct (about key (alerts s)) as [b|]; cbn [mbind option_bind found_or_new orb] in *.
  - unfold reopened in *. destruct (AlertEvent.Status b =s AlertStatusResolved) eqn:Es; cbn [orb].
    + done.
    + split_and!; try done. by destruct (AlertEvent.Severity b =s normalizeAlertSeverity (alertInput.Severity input)).
  - done.
Qed.

Lemma resolved_ok actor now e : alert_ok e -> alert_ok (resolved actor now e).
Proof. intros [O1 O2 O3 O4 O5 O6 O7]. by split. Qed.

Lemma acknowledged_ok actor now e : alert_ok e -> AlertEvent.Status e <> AlertStatusResolved -> alert_ok (acknowledged actor now e).
Proof.
  intros [O1 O2 O3 O4 O5 O6 O7] Hs. split; cbn; try done. rewrite O5. by apply String.eqb_neq.
Qed.

Lemma summarized_ok e summary : alert_ok e -> summary <> ""%string -> alert_ok (e <| AlertEvent.Summary := summary |>).
Proof. intros [O1 O2 O3 [O4 _] O5 O6 O7] Hs. by split. Qed.

(** Resolving it. *)
Lemma over_settles key summary s : alerts_ok (alerts s) ->
  solo (over key summary) (settled (TrimSpace key) s) s.
Proof.
  intros Hm. assert (Htrim : TrimSpace (TrimSpace key) = TrimSpace key) by apply TrimSpace_idemp.
  unfold over, resolveAlertByDedupeKey. apply solo_bind. apply solo_reader; [apply reader_query| |done].
  intros found Hf. change (Ok (FindAlertByDedupeKey (TrimSpace key) (repository s)) = Ok found :> result go_error _) in Hf.
  injection Hf as <-. unfold FindAlertByDedupeKey. rewrite Htrim. fold (about (TrimSpace key) (alerts s)).
  assert (Hstill : opened (TrimSpace key) (alerts s) = None -> settled (TrimSpace key) s (Ok None) s) by (intros Ho; split; [done|]; by split_and!).
  destruct (about (TrimSpace key) (alerts s)) as [e|] eqn:Ea.
  2: { apply Hstill. unfold opened. by rewrite Ea. }
  destruct (AlertEvent.Status e =s AlertStatusResolved) eqn:Es.
  { apply Hstill. unfold opened. rewrite Ea. cbn. by rewrite Es. }
  set (summary' := if TrimSpace summary <>s "" then TrimSpace summary else AlertEvent.Summary e).
  apply about_Some in Ea as [Ea Ed]; [|done]. pose proof (alerts_each _ Hm _ _ Ea) as Hok.
  set (e' := (resolved systemActor (clock s) e) <| AlertEvent.Summary := summary' |>).
  assert (Hok' : alert_ok e').
  { apply summarized_ok; [by apply resolved_ok|]. unfold summary'.
    destruct (String.eqb_spec (TrimSpace summary) ""); [apply Hok|done]. }
  assert (Hm' : alerts_ok (<[AlertEvent.ID e' := e']> (alerts s))) by by apply (alerts_replace _ (AlertEvent.ID e) e).
  destruct (save_elsewhere (TrimSpace key) (alerts s) e' Hm Hm' Ed) as [Habout Helse].
  { intros e0 H. change (AlertEvent.ID e') with (AlertEvent.ID e) in H. congruence. }
  apply solo_reader; [apply reader_now| |done]. intros now [= <-]. apply solo_last. intros x r [= <- <-].
  split; [exact Hm'|]. split; [exact Helse|]. split_and!; [|done|].
  - assert (Ho : opened (TrimSpace key) (<[AlertEvent.ID e' := e']> (alerts s)) = None) by (unfold opened; by rewrite Habout).
    exact Ho.
  - unfold opened. rewrite (proj2 (about_Some _ _ e Hm)) by done. cbn. by rewrite Es.
Qed.

(** ** Lemmas: thresholds *)

Lemma budget_percent used limit : 0 <= used -> 0 < limit -> used * 100 + limit <= max_int64 ->
  (percentCeil64 used limit <? apiKeyQuotaWarningPercent) = (used * 100 <=? 79 * limit).
Proof.
  intros Hu Hl Hb. unfold percentCeil64, apiKeyQuotaWarningPercent.
  rewrite (proj2 (Z.leb_gt limit 0)) by lia. rewrite orb_false_r.
  destruct (Z.leb_spec used 0); [symmetry; decide_tests; lia|]. rewrite Z.gtb_ltb.
  assert (Hq : Z.quot max_int64 100 = 92233720368547758) by reflexivity. rewrite Hq.
  rewrite (proj2 (Z.ltb_ge 92233720368547758 used)) by (unfold max_int64 in *; lia).
  rewrite (wrap64_id (used * 100)), (wrap64_id (_ + limit)), wrap64_id, Z.quot_div_nonneg
    by (unfold in_int64, min_int64, max_int64 in *; lia).
  pose proof (Z.div_mod (used * 100 + limit - 1) limit ltac:(lia)) as E.
  pose proof (Z.mod_pos_bound (used * 100 + limit - 1) limit ltac:(lia)) as Hm.
  set (q := (used * 100 + limit - 1) / limit) in *.
  destruct (Z.ltb_spec q 80), (Z.leb_spec (used * 100) (79 * limit)); try done; nia.
Qed.

Lemma key_input_fields auth type severity title summary key metadata at_ :
  alertInput.DedupeKey (key_input auth type severity title summary key metadata at_) = key /\
  alertInput.Severity (key_input auth type severity title summary key metadata at_) = severity.
Proof. unfold key_input, applyGatewayPlatformSnapshotToAlertInput. by repeat case_match. Qed.

Lemma key_upsert auth type severity title summary key metadata at_ random s :
  alerts_ok (alerts s) -> TrimSpace key <> ""%string -> alerts s !! ("alert_" +:+ random)%string = None ->
  solo (upsertAlert (key_input auth type severity title summary key metadata at_) random)
    (raised (TrimSpace key) (normalizeAlertSeverity severity) s) s.
Proof.
  intros Hm Hk Hf. destruct (key_input_fields auth type severity title summary key metadata at_) as [E1 E2].
  pose proof (upsert_raises (key_input auth type severity title summary key metadata at_) random s Hm) as H.
  rewrite E1, E2 in H. by apply H.
Qed.

Lemma budget_key_set auth now : TrimSpace (budget_dedupe_key auth now) <> ""%string.
Proof. by apply TrimSpace_starts. Qed.

(** ** What a call about one thing leaves alone *)

Record touches (key random : string) (s s' : service_state) : Prop := {
  touches_ok : alerts_ok (alerts s');
  touches_elsewhere : elsewhere key (alerts s) (alerts s');
  touches_fresh : forall k, k <> ("alert_" +:+ random)%string -> alerts s !! k = None -> alerts s' !! k = None;
  touches_rest : repository s' = (repository s) <| alertEvents := alerts s' |>;
}.

Lemma same_repository (r : MemoryRepository) : r = r <| alertEvents := alertEvents r |>.
Proof. by destruct r. Qed.

Lemma upsert_saves input random s (key := TrimSpace (alertInput.DedupeKey input)) : key <> ""%string ->
  exists now x, let e := described input now (reopened (found_or_new (about key (alerts s)) key random now)) in
    exec (upsertAlert input random) s = (x, s <| repository := (repository s).[alertEvents]:[AlertEvent.ID e] <- e |>).
Proof.
  intros Hne. unfold upsertAlert. fold key. rewrite (proj2 (String.eqb_neq _ _) Hne).
  unfold about. assert (E : FindAlertByDedupeKey key (repository s) =
    find_value (fun event => AlertEvent.DedupeKey event =s key) (alerts s))
    by (unfold FindAlertByDedupeKey; by rewrite (TrimSpace_idemp (alertInput.DedupeKey input) : TrimSpace key = key)).
  destruct (IsZero (alertInput.ObservedAt input)).
  - exists (clock s). eexists. cbn. rewrite <- E. reflexivity.
  - exists (alertInput.ObservedAt input). eexists. cbn. rewrite <- E. reflexivity.
Qed.

Lemma raised_apart key severity s x s' : raised key severity s x s' -> alerts_ok (alerts s') /\ elsewhere key (alerts s) (alerts s').
Proof. by intros (H1 & H2 & _). Qed.
Lemma settled_apart key s x s' : settled key s x s' -> alerts_ok (alerts s') /\ elsewhere key (alerts s) (alerts s').
Proof. by intros (H1 & H2 & _). Qed.

Lemma upsert_touches input random s (key := TrimSpace (alertInput.DedupeKey input)) :
  alerts_ok (alerts s) -> key <> ""%string -> alerts s !! ("alert_" +:+ random)%string = None ->
  solo (upsertAlert input random) (fun _ s' => touches key random s s') s.
Proof.
  intros Hm Hne Hfresh. pose proof (raised_apart _ _ _ _ _ (upsert_raises input random s Hm Hne Hfresh)) as [H1 H2].
  destruct (upsert_saves input random s Hne) as (now & x & E). cbv zeta in E. unfold solo. fold key in H1, H2, E |- *.
  rewrite E in H1, H2 |- *. cbn [fst snd] in *. split; [exact H1|exact H2| |done].
  intros k Hk Hnone. apply lookup_insert_None. split; [exact Hnone|]. intros Ek.
  assert (Ei : AlertEvent.ID (reopened (found_or_new (about key (alerts s)) key random now)) =
    AlertEvent.ID (found_or_new (about key (alerts s)) key random now)) by (unfold reopened; by destruct (_ =s _)).
  change (AlertEvent.ID (reopened (found_or_new (about key (alerts s)) key random now)) = k) in Ek. rewrite Ei in Ek.
  destruct (about key (alerts s)) as [e|] eqn:Ea; cbn in Ek; [|congruence].
  apply about_Some in Ea as [Ea _]; [congruence|done].
Qed.

Lemma over_touches key summary random s : alerts_ok (alerts s) ->
  solo (over key summary) (fun _ s' => touches (TrimSpace key) random s s') s.
Proof.
  intros Hm. pose proof (settled_apart _ _ _ _ (over_settles key summary s Hm)) as [H1 H2].
  assert (E : (exec (over key summary) s).2 = s \/ exists e, is_Some (alerts s !! AlertEvent.ID e) /\
    (exec (over key summary) s).2 = s <| repository := (repository s).[alertEvents]:[AlertEvent.ID e] <- e |>).
  { unfold over, resolveAlertByDedupeKey. cbn.
    destruct (FindAlertByDedupeKey (TrimSpace key) (repository s)) as [e|] eqn:Ea; [|by left]. cbn.
    destruct (AlertEvent.Status e =s AlertStatusResolved) eqn:Es; [by left|]. right.
    exists ((resolved systemActor (clock s) e) <| AlertEvent.Summary :=
      if TrimSpace summary <>s "" then TrimSpace summary else AlertEvent.Summary e |>). split; [|reflexivity]. cbn.
    change (about (TrimSpace (TrimSpace key)) (alerts s) = Some e) in Ea. apply about_Some in Ea as [Ea _]; [|done]. by exists e. }
  unfold solo. destruct E as [E|(e & [e0 He] & E)]; rewrite E in H1, H2 |- *; cbn [fst snd] in *.
  - split; [exact H1|exact H2|done|apply same_repository].
  - split; [exact H1|exact H2| |done]. intros k Hk Hnone. apply lookup_insert_None. split; [exact Hnone|congruence].
Qed.

Lemma touches_refl key random s : alerts_ok (alerts s) -> touches key random s s.
Proof. intros Hm. split; [exact Hm|done|done|apply same_repository]. Qed.

Lemma key_upsert_touches auth type severity title summary key metadata at_ random s :
  alerts_ok (alerts s) -> TrimSpace key <> ""%string -> alerts s !! ("alert_" +:+ random)%string = None ->
  solo (upsertAlert (key_input auth type severity title summary key metadata at_) random)
    (fun _ s' => touches (TrimSpace key) random s s') s.
Proof.
  intros Hm Hk Hf. destruct (key_input_fields auth type severity title summary key metadata at_) as [E1 E2].
  pose proof (upsert_touches (key_input auth type severity title summary key metadata at_) random s Hm) as H.
  rewrite E1 in H. by apply H.
Qed.

Notation quota_key auth now := (apiKeyQuotaAlertDedupeKey (APIKeyRecord.ID (GatewayAuthContext.APIKey auth)) now).
Notation rate_key auth := ("gateway_error_rate:" +:+ APIKeyRecord.ID (GatewayAuthContext.APIKey auth))%string.

Lemma quota_touches auth now random s : alerts_ok (alerts s) -> alerts s !! ("alert_" +:+ random)%string = None ->
  solo (syncAPIKeyQuotaAlertForAuth auth now random) (fun _ s' => touches (TrimSpace (quota_key auth now)) random s s') s.
Proof.
  intros Hm Hf. unfold syncAPIKeyQuotaAlertForAuth, syncAPIKeyQuotaAlert. destruct (_ <=? 0); [by apply touches_refl|].
  apply solo_reader; [apply reader_query| |intros e He; discriminate He]. intros used _.
  repeat case_match; first [by apply over_touches|apply key_upsert_touches; [done|by apply TrimSpace_starts|done]].
Qed.

Lemma rate_touches auth random s : alerts_ok (alerts s) -> alerts s !! ("alert_" +:+ random)%string = None ->
  solo (syncGatewayErrorRateAlert auth random) (fun _ s' => touches (TrimSpace (rate_key auth)) random s s') s.
Proof.
  intros Hm Hf. unfold syncGatewayErrorRateAlert. apply solo_reader; [apply reader_now| |intros e He; discriminate He].
  intros now _. apply solo_reader; [apply reader_query| |intros e He; discriminate He]. intros aggregate _.
  repeat case_match; first [by apply over_touches|apply key_upsert_touches; [done|by apply TrimSpace_starts|done]].
Qed.

Lemma budget_touches auth now random s : alerts_ok (alerts s) -> alerts s !! ("alert_" +:+ random)%string = None ->
  solo (syncAPIKeyBudgetAlertForAuth auth now random) (fun _ s' => touches (TrimSpace (budget_dedupe_key auth now)) random s s') s.
Proof.
  intros Hm Hf. unfold syncAPIKeyBudgetAlertForAuth, syncAPIKeyBudgetAlert. destruct (_ <=? 0); [by apply touches_refl|].
  apply solo_reader; [apply reader_query| |intros e He; discriminate He]. intros used _.
  repeat case_match; first [by apply over_touches|apply key_upsert_touches; [done|by apply TrimSpace_starts|done]].
Qed.

(** The alert about a budget, after a call that runs alone. *)
Lemma budget_alert auth used now random s
    (limit := effectiveMonthlyBudgetMicros auth) (key := TrimSpace (budget_dedupe_key auth now)) :
  alerts_ok (alerts s) -> alerts s !! ("alert_" +:+ random)%string = None ->
  0 <= used -> used * 100 + limit <= max_int64 ->
  solo (syncAPIKeyBudgetAlert auth used now random) (fun x s' =>
    if (0 <? limit) && (79 * limit <? used * 100)
    then raised key (if limit <=? used then AlertSeverityCritical else AlertSeverityWarning) s x s'
    else settled key s x s') s.
Proof.
  intros Hm Hf Hu Hb. unfold syncAPIKeyBudgetAlert. fold limit.
  destruct (Z.leb_spec limit 0) as [Hl|Hl].
  { rewrite (proj2 (Z.ltb_ge 0 limit)) by lia. by apply over_settles. }
  rewrite (proj2 (Z.ltb_lt 0 limit)) by lia. cbn [andb]. rewrite budget_percent by lia.
  rewrite (Z.ltb_antisym (used * 100)).
  destruct (used * 100 <=? 79 * limit); cbn [negb]; [by apply over_settles|].
  pose proof (fun severity title summary metadata => key_upsert auth AlertTypeAPIKeyBudget severity title summary
    (budget_dedupe_key auth now) metadata now random s Hm (budget_key_set auth now) Hf) as H.
  rewrite Z.geb_leb. destruct (limit <=? used); apply H.
Qed.

(** The three kinds of alerts are about three things. *)
Lemma alert_keys_apart auth now :
  TrimSpace (quota_key auth now) <> TrimSpace (budget_dedupe_key auth now) /\
  TrimSpace (rate_key auth) <> TrimSpace (budget_dedupe_key auth now) /\
  TrimSpace (rate_key auth) <> TrimSpace (quota_key auth now).
Proof.
  unfold apiKeyQuotaAlertDedupeKey, budget_dedupe_key.
  assert (P : forall p s, p <> ""%string -> forallb plain_char (String.list_ascii_of_string p) = true ->
    exists t, TrimSpace (p +:+ s)%string = (p +:+ t)%string) by (intros; by apply TrimSpace_prefix).
  split_and!; intros H;
    repeat match type of H with context [TrimSpace (?p +:+ ?s)%string] =>
      destruct (P p s ltac:(discriminate) eq_refl) as [? E]; rewrite E in H; clear E end; discriminate H.
Qed.

(** ** Every call keeps the store coherent *)

(** The calls, with the identifier an alert they raise is given. *)
Inductive alert_call : string -> forall {A}, serv A -> Prop :=
| Call_acknowledge random actor id audit_random : alert_call random (AcknowledgeAlert actor id audit_random)
| Call_resolve random actor id audit_random : alert_call random (ResolveAlert actor id audit_random)
| Call_quota random auth now : alert_call random (syncAPIKeyQuotaAlertForAuth auth now random)
| Call_budget random auth now : alert_call random (syncAPIKeyBudgetAlertForAuth auth now random)
| Call_error_rate random auth : alert_call random (syncGatewayErrorRateAlert auth random)
| Call_provider random provider check : alert_call random (syncProviderHealthAlert provider check random)
| Call_account random account provider check : alert_call random (syncProviderAccountHealthAlert account provider check random)
| Call_risk random apiKeyID ruleID ruleName summary value threshold :
    alert_call random (RecordRiskRuleAlert apiKeyID ruleID ruleName summary value threshold random)
| Call_raise random input : TrimSpace (alertInput.DedupeKey input) <> ""%string -> alert_call random (upsertAlert input random).

(** A call that runs alone with an identifier nobody has, or anything that leaves
    the alerts alone. *)
Inductive alert_step : service_state -> service_state -> Prop :=
| Step_call random A (p : serv A) s : alert_call random p ->
    alerts s !! ("alert_" +:+ random)%string = None -> alert_step s (exec p s).2
| Step_else s s' : alerts s' = alerts s -> alert_step s s'.

Notation keeps p s := (solo p (fun _ s' => alerts_ok (alerts s')) s).

Lemma raised_keeps key severity s (p : serv (option alert)) : solo p (raised key severity s) s -> keeps p s.
Proof. by intros [H _]. Qed.
Lemma settled_keeps key s (p : serv (option alert)) : solo p (settled key s) s -> keeps p s.
Proof. by intros [H _]. Qed.
#[local] Hint Resolve raised_keeps settled_keeps key_upsert over_settles : core.

Lemma alert_found id s e : alerts_ok (alerts s) -> answer (alertByID id) s = Ok e ->
  alerts s !! AlertEvent.ID e = Some e.
Proof.
  intros Hm H. unfold alertByID in H. answer_inv H. unfold FindAlertEvent in H. rewrite TrimSpace_idemp in H.
  destruct (alerts s !! TrimSpace id) as [e'|] eqn:E; answer_inv H.
  by rewrite (alerts_keyed _ Hm _ _ E).
Qed.

Lemma save_keeps e e' s random actor action text (b : alert) : alerts_ok (alerts s) ->
  alerts s !! AlertEvent.ID e = Some e -> alert_ok e' -> AlertEvent.ID e' = AlertEvent.ID e ->
  AlertEvent.DedupeKey e' = AlertEvent.DedupeKey e ->
  keeps (_ ← section (SaveAlertEvent e'); _ ← audit random actor action "alert_event" (AlertEvent.ID e') text; mret b) s.
Proof.
  intros Hm He Hok Ei Ed. apply solo_section; [|done]. intros a r [= <- <-].
  apply solo_audit. intros k event. by apply (alerts_replace _ (AlertEvent.ID e) e).
Qed.

Lemma reader_alertByID id : reader (alertByID id).
Proof. unfold alertByID. reader_tac. Qed.

Lemma reader_outcome {A} (p : serv A) : reader p -> reader (outcome p).
Proof. unfold outcome. induction 1 as [A x|A X act k Hact _ IH]; cbn; constructor; [done|]. intros x. apply IH. Qed.

Lemma yields_outcome {A} (p : serv A) : yields (outcome p) (fun _ => True).
Proof. apply yields_any. Qed.

Lemma yields_answer {A} (p : serv A) P s a : yields p P -> answer p s = Ok a -> P a.
Proof.
  unfold answer. intros Hy. revert s. induction p as [[b|e]|X act k IH]; intros s; cbn; [by intros [= <-]|done|].
  destruct (act s) as [x s']. by apply IH.
Qed.

(** The identity of the key does not change what the alert is about. *)
Lemma identity_same_key input apiKeyID :
  yields (applyPlatformAlertIdentityForKey input apiKeyID) (fun input' => alertInput.DedupeKey input' = alertInput.DedupeKey input).
Proof.
  eapply yields_bind; [apply yields_outcome|]. intros [key|e] _; [|done]. destruct (isApplicationAPIKey key); [|done].
  eapply yields_bind; [apply yields_outcome|]. by intros [identity|e] _.
Qed.

Lemma identity_reads input apiKeyID : reader (applyPlatformAlertIdentityForKey input apiKeyID).
Proof.
  unfold applyPlatformAlertIdentityForKey. apply reader_bind; [apply reader_outcome, reader_by_id|].
  intros [key|e]; [|apply reader_mret]. destruct (isApplicationAPIKey key); [|apply reader_mret].
  apply reader_bind; [apply reader_outcome, reader_identity|]. intros [identity|e]; apply reader_mret.
Qed.

Lemma call_keeps random A (p : serv A) s : alert_call random p -> alerts_ok (alerts s) ->
  alerts s !! ("alert_" +:+ random)%string = None -> keeps p s.
Proof.
  intros Hp Hm Hfresh. destruct Hp.
  - unfold AcknowledgeAlert. apply solo_reader; [apply reader_alertByID| |done]. intros e He.
    apply alert_found in He; [|done]. apply solo_reader; [reader_tac| |done].
    intros a Hs. destruct (AlertEvent.Status e =s AlertStatusResolved) eqn:Es; [done|].
    apply solo_reader; [apply reader_now| |done]. intros now [= <-].
    apply (save_keeps e); try done. apply acknowledged_ok; [apply (alerts_each _ Hm _ _ He)|]. by apply String.eqb_neq.
  - unfold ResolveAlert. apply solo_reader; [apply reader_alertByID| |done]. intros e He.
    apply alert_found in He; [|done]. apply solo_reader; [apply reader_now| |done]. intros now [= <-].
    apply (save_keeps e); try done. apply resolved_ok, (alerts_each _ Hm _ _ He).
  - unfold syncAPIKeyQuotaAlertForAuth, syncAPIKeyQuotaAlert. destruct (_ <=? 0); [done|].
    apply solo_reader; [apply reader_query| |done]. intros used _.
    repeat case_match; first [by eauto|eapply raised_keeps, key_upsert; [done|by apply TrimSpace_starts|done]].
  - unfold syncAPIKeyBudgetAlertForAuth, syncAPIKeyBudgetAlert. destruct (_ <=? 0); [done|].
    apply solo_reader; [apply reader_query| |done]. intros used _.
    repeat case_match; first [by eauto|eapply raised_keeps, key_upsert; [done|by apply TrimSpace_starts|done]].
  - unfold syncGatewayErrorRateAlert. apply solo_reader; [apply reader_now| |done]. intros now _.
    apply solo_reader; [apply reader_query| |done]. intros aggregate _.
    repeat case_match; first [by eauto|eapply raised_keeps, key_upsert; [done|by apply TrimSpace_starts|done]].
  - unfold syncProviderHealthAlert. case_match; first [by eauto|eapply raised_keeps, upsert_raises; [done|by apply TrimSpace_starts|done]].
  - unfold syncProviderAccountHealthAlert. case_match; first [by eauto|eapply raised_keeps, upsert_raises; [done|by apply TrimSpace_starts|done]].
  - unfold RecordRiskRuleAlert. apply solo_reader; [apply identity_reads| |done]. intros input Hi.
    apply (yields_answer _ _ _ _ (identity_same_key _ _)) in Hi.
    eapply raised_keeps, upsert_raises; [done| |done]. rewrite Hi. by apply TrimSpace_starts.
  - by eapply raised_keeps, upsert_raises.
Qed.

(** ** Properties *)

(** C34. Calls that run one at a time keep the alerts coherent: there is one alert
    for one thing, under a key that is not blank; it is active, acknowledged or
    resolved, and has the moments that say so; and it has a title and a summary. *)
Theorem alerts_coherent s s' : rtc alert_step s s' -> alerts_ok (alerts s) -> alerts_ok (alerts s').
Proof.
  induction 1 as [s|s s1 s' H1 _ IH]; [done|]. intros Hm. apply IH.
  destruct H1 as [random A p s Hp Hf|s s1 E]; [by eapply call_keeps|by rewrite E].
Qed.

(** C35. The alert about the budget of a key is open exactly while more than 79
    percent of the budget of the month is used, critical once all of it is, and
    whoever acknowledged it is remembered; only an alert that is new, was resolved
    or changes its severity is dispatched; and no other alert is touched.  This is
    for amounts whose percentage can be computed: [used * 100 + limit] fits into
    64 bits. *)
Theorem budget_alert_exact auth used now random s
    (limit := effectiveMonthlyBudgetMicros auth) (key := TrimSpace (budget_dedupe_key auth now)) :
  alerts_ok (alerts s) -> alerts s !! ("alert_" +:+ random)%string = None ->
  0 <= used -> used * 100 + limit <= max_int64 ->
  solo (syncAPIKeyBudgetAlert auth used now random) (fun x s' =>
    if (0 <? limit) && (79 * limit <? used * 100)
    then raised key (if limit <=? used then AlertSeverityCritical else AlertSeverityWarning) s x s'
    else settled key s x s') s.
Proof. apply budget_alert. Qed.
End Conditions.

(** ** Witnesses *)

Module Demo.
#[local] Existing Instance canonical_range.
#[local] Instance no_lower : UnicodeCase := fun s => s.

Definition auth : GatewayAuthContext.t := GatewayAuthContext.zero
  <| GatewayAuthContext.APIKey := APIKeyRecord.zero
       <| APIKeyRecord.ID := "key"%string |> <| APIKeyRecord.Name := "main"%string |>
       <| APIKeyRecord.MonthlyBudgetMicros := 1000 |> |>.
Definition now_ : time := (719162 + 19782) * day + 5.
Definition start : service_state := mkService NewMemoryRepository now_ ∅.
Definition warned := exec (syncAPIKeyBudgetAlert auth 791 now_ "a") start.
Definition exhausted := exec (syncAPIKeyBudgetAlert auth 1000 now_ "b") warned.2.
Definition recovered := exec (syncAPIKeyBudgetAlert auth 0 now_ "c") exhausted.2.

Example goes_through :
  pad 4 12 = "0012"%string /\ format_RFC3339 now_ = "2024-02-29T00:00:00Z"%string /\
  (fun e => (AlertEvent.Severity e, AlertEvent.DedupeKey e, AlertEvent.Summary e)) <$> opened "api_key_budget:key:2024-02" (alertEvents (repository warned.2))
  = Some ("warning", "api_key_budget:key:2024-02", "API key main used 791 of 1000 monthly microdollars (80%).")%string /\
  AlertEvent.Severity <$> opened "api_key_budget:key:2024-02" (alertEvents (repository exhausted.2)) = Some "critical"%string /\
  opened "api_key_budget:key:2024-02" (alertEvents (repository recovered.2)) = None.
Proof. vm_compute. split_and!; reflexivity. Qed.

(** Near the end of the range the percentage overflows, and an alert about a
    budget that is used up to 92 percent is resolved. *)
Example percent_overflows : percentCeil64 92200000000000000 100000000000000000 = -91.
Proof. vm_compute. reflexivity. Qed.

(** Two calls that raise the same alert and both look before either saves leave
    two alerts under one key. *)
Definition first_look {A} (p : serv A) : serv A :=
  match p with Atomic act k => k (act start).1 | Ret x => Ret x end.
Definition raise_ (random : string) : serv (option AlertEvent.t) := syncAPIKeyBudgetAlert auth 1000 now_ random.
Example raised_twice :
  let both := (exec (first_look (raise_ "b")) (exec (first_look (raise_ "a")) start).2).2 in
  List.length (List.filter (fun e => AlertEvent.DedupeKey e =s "api_key_budget:key:2024-02")
    (map_values (alertEvents (repository both)))) = 2%nat.
Proof. vm_compute. reflexivity. Qed.
End Demo.

#[local] Existing Instance canonical_range.
#[local] Existing Instance Demo.no_lower.

Lemma no_alerts_ok : alerts_ok ∅.
Proof. split; [apply keyed_empty|apply map_Forall_empty|]. intros k1 k2 e1 e2 H. by rewrite lookup_empty in H. Qed.

Lemma alerts_coherent_witness :
  alerts_ok (alertEvents (repository (exec (syncAPIKeyBudgetAlertForAuth Demo.auth Demo.now_ "a") Demo.start).2)).
Proof.
  apply (alerts_coherent Demo.start); [|apply no_alerts_ok].
  apply rtc_once. by apply (Step_call "a"); [apply Call_budget|].
Defined.

Lemma budget_alert_exact_witness :
  solo (syncAPIKeyBudgetAlert Demo.auth 791 Demo.now_ "a")
    (fun x s' => raised (TrimSpace (budget_dedupe_key Demo.auth Demo.now_)) AlertSeverityWarning Demo.start x s') Demo.start.
Proof.
  apply (budget_alert_exact Demo.auth 791 Demo.now_ "a" Demo.start); [apply no_alerts_ok|reflexivity|lia|vm_compute; discriminate].
Defined.
