(* ===== verification/PricingCatalog.v ===== *)
(** * Pricing rules in memory

    The [MemoryRepository] half of
    [backend/internal/controlplane/pricing_repository.go]: rules with their lock
    version, drafts and published versions.  An operation that returns zero
    values with [false] returns [None].  The invariant of the catalogue, and that
    every operation keeps it and what [later] says, whatever is done between its
    critical section and the caller's earlier ones. *)

From S2P Require Import Prelude Threads PricingRule PricingEval Repository.

Notation rule := PricingRule.t (only parsing).
Notation version := PricingRuleVersion.t (only parsing).

(** A copy that shares no slice with the original: the same value. *)
Definition clonePricingRuleVersion (value : version) : version := value.
Definition clonePricingEvaluation (value : PricingEvaluation.t) : PricingEvaluation.t := value.

Definition pricingRuleSameSlot (left right : rule) : bool :=
  (PricingRule.Purpose left =s PricingRule.Purpose right)
  && (PricingRule.ScopeType left =s PricingRule.ScopeType right)
  && (PricingRule.ScopeID left =s PricingRule.ScopeID right)
  && (PricingRule.Model left =s PricingRule.Model right).

Definition is_draft (v : version) : bool := PricingRuleVersion.State v =s PricingVersionStateDraft.
Definition is_published (v : version) : bool :=
  PricingRuleVersion.State v =s PricingVersionStatePublished.
Definition belongs (v : version) (ruleID : string) : bool := PricingRuleVersion.RuleID v =s ruleID.

Section Memory.
Context `{range : MapRange}.

Definition CreatePricingRule (new : rule) (draft : version) : M unit :=
  r ← read id;
  _ ← check (has (pricingRules r) (PricingRule.ID new)) (ErrNew "pricing rule already exists");
  _ ← check (existsb (fun existing => pricingRuleSameSlot existing new) (map_values (pricingRules r)))
        (ErrNew "pricing rule slot already exists");
  _ ← check (negb (belongs draft (PricingRule.ID new)) || negb (is_draft draft))
        (ErrNew "pricing draft does not belong to rule");
  write (fun r =>
    let r := r.[pricingRules]:[PricingRule.ID new] <- new in
    r.[pricingRuleVersions]:[PricingRuleVersion.ID draft] <- (clonePricingRuleVersion draft)).

Definition ListPricingRules (r : MemoryRepository) : list rule :=
  sort_by (fun left right =>
    if PricingRule.Purpose left =s PricingRule.Purpose right
    then str_ltb (PricingRule.Model left) (PricingRule.Model right)
    else str_ltb (PricingRule.Purpose left) (PricingRule.Purpose right)) (map_values (pricingRules r)).

Definition FindPricingRule (id : string) (r : MemoryRepository) : option rule :=
  pricingRules r !! TrimSpace id.

Definition ListPricingRuleVersions (ruleID : string) (r : MemoryRepository) : list version :=
  sort_by (fun left right => PricingRuleVersion.Revision left >? PricingRuleVersion.Revision right)
    (map clonePricingRuleVersion
       (List.filter (fun v => belongs v (TrimSpace ruleID)) (map_values (pricingRuleVersions r)))).

Definition FindPricingRuleVersion (id : string) (r : MemoryRepository) : option version :=
  clonePricingRuleVersion <$> pricingRuleVersions r !! TrimSpace id.

(** The loop that deletes the other drafts of the rule. *)
Definition other_draft (new : rule) (draft : version) (entry : string * version) : bool :=
  belongs entry.2 (PricingRule.ID new) && is_draft entry.2
  && (entry.1 <>s PricingRuleVersion.ID draft).

Definition SavePricingRuleDraft (new : rule) (draft : version) (expectedLockVersion : Z)
    : M (option rule) :=
  r ← read id;
  match pricingRules r !! PricingRule.ID new with
  | None => mret None
  | Some current =>
      if negb (PricingRule.LockVersion current =? expectedLockVersion) then mret None else
      _ ← check (negb (pricingRuleSameSlot current new))
            (ErrNew "pricing rule selection slot is immutable");
      _ ← check (negb (belongs draft (PricingRule.ID new)) || negb (is_draft draft))
            (ErrNew "pricing draft is invalid");
      let saved := new
        <| PricingRule.LockVersion := PricingRule.LockVersion current +i 1 |>
        <| PricingRule.ActiveVersionID := PricingRule.ActiveVersionID current |>
        <| PricingRule.CreatedAt := PricingRule.CreatedAt current |> in
      _ ← write (fun r =>
        let kept := filter (fun entry => other_draft new draft entry = false) (pricingRuleVersions r) in
        let r := r <| pricingRuleVersions := kept |> in
        let r := r.[pricingRules]:[PricingRule.ID new] <- saved in
        r.[pricingRuleVersions]:[PricingRuleVersion.ID draft] <- (clonePricingRuleVersion draft));
      mret (Some saved)
  end.

Definition max_revision (ruleID : string) (versions : gmap string version) : Z :=
  foldl (fun maxRevision item =>
    if belongs item ruleID && is_published item && (PricingRuleVersion.Revision item >? maxRevision)
    then PricingRuleVersion.Revision item else maxRevision) 0 (map_values versions).

Definition PublishPricingRuleVersion (new : version) (expectedLockVersion : Z)
    (expectedActiveVersionID : string) : M (option (rule * version)) :=
  r ← read id;
  match pricingRules r !! PricingRuleVersion.RuleID new with
  | None => mret None
  | Some current =>
      if negb (PricingRule.LockVersion current =? expectedLockVersion)
         || ((expectedActiveVersionID <>s "")
             && (PricingRule.ActiveVersionID current <>s expectedActiveVersionID))
      then mret None else
      match pricingRuleVersions r !! PricingRuleVersion.ID new with
      | None => fail (ErrNew "pricing draft not found")
      | Some draft =>
          _ ← check (negb (belongs draft (PricingRule.ID current)) || negb (is_draft draft))
                (ErrNew "pricing draft not found");
          let published := new
            <| PricingRuleVersion.Revision := max_revision (PricingRule.ID current) (pricingRuleVersions r) +i 1 |>
            <| PricingRuleVersion.State := PricingVersionStatePublished |>
            <| PricingRuleVersion.RuleID := PricingRule.ID current |>
            <| PricingRuleVersion.CreatedAt := PricingRuleVersion.CreatedAt draft |>
            <| PricingRuleVersion.PublishedAt := Some (PricingRuleVersion.UpdatedAt new) |> in
          let saved := current
            <| PricingRule.ActiveVersionID := PricingRuleVersion.ID published |>
            <| PricingRule.LockVersion := PricingRule.LockVersion current +i 1 |>
            <| PricingRule.UpdatedAt := PricingRuleVersion.UpdatedAt published |>
            <| PricingRule.UpdatedBy := PricingRuleVersion.PublishedBy published |> in
          _ ← write (fun r =>
            let r := r.[pricingRuleVersions]:[PricingRuleVersion.ID published] <-
              (clonePricingRuleVersion published) in
            r.[pricingRules]:[PricingRule.ID current] <- saved);
          mret (Some (saved, published))
      end
  end.

Definition ActivatePricingRuleVersion (ruleID versionID : string) (expectedLockVersion : Z)
    (actor : string) (updatedAt : time) : M (option rule) :=
  r ← read id;
  match pricingRules r !! ruleID, pricingRuleVersions r !! versionID with
  | Some current, Some v =>
      if negb (belongs v ruleID) || negb (is_published v)
         || negb (PricingRule.LockVersion current =? expectedLockVersion)
      then mret None
      else
        let saved := current
          <| PricingRule.ActiveVersionID := versionID |>
          <| PricingRule.LockVersion := PricingRule.LockVersion current +i 1 |>
          <| PricingRule.UpdatedBy := actor |>
          <| PricingRule.UpdatedAt := updatedAt |> in
        _ ← write (fun r => r.[pricingRules]:[ruleID] <- saved);
        mret (Some saved)
  | _, _ => mret None
  end.

Definition SetPricingRuleStatus (ruleID status : string) (expectedLockVersion : Z)
    (actor : string) (updatedAt : time) : M (option rule) :=
  r ← read id;
  match pricingRules r !! ruleID with
  | None => mret None
  | Some current =>
      if negb (PricingRule.LockVersion current =? expectedLockVersion) then mret None
      else
        let saved := current
          <| PricingRule.Status := status |>
          <| PricingRule.LockVersion := PricingRule.LockVersion current +i 1 |>
          <| PricingRule.UpdatedBy := actor |>
          <| PricingRule.UpdatedAt := updatedAt |> in
        _ ← write (fun r => r.[pricingRules]:[ruleID] <- saved);
        mret (Some saved)
  end.

Definition SavePricingEvaluation (evaluation : PricingEvaluation.t) : M unit :=
  r ← read id;
  _ ← check (has (pricingEvaluations r) (PricingEvaluation.ID evaluation))
        (ErrNew "pricing evaluation already exists");
  write (fun r => r.[pricingEvaluations]:[PricingEvaluation.ID evaluation] <- (clonePricingEvaluation evaluation)).

Definition FindPricingEvaluation (id : string) (r : MemoryRepository) : option PricingEvaluation.t :=
  clonePricingEvaluation <$> pricingEvaluations r !! TrimSpace id.
End Memory.

(** ** Invariant *)

(** What publishing fixes of a version besides its place in the catalogue. *)
Definition content (v : version) :=
  (PricingRuleVersion.Expression v, PricingRuleVersion.ExpressionHash v,
   PricingRuleVersion.EngineVersion v, PricingRuleVersion.Analysis v, PricingRuleVersion.TestCases v).

(** ** What no operation undoes *)

(** Where the lock version is unchanged, so are the rule and its versions. *)
Definition same_versions (id : string) (s s' : MemoryRepository) : Prop :=
  forall vid v, PricingRuleVersion.RuleID v = id ->
    pricingRuleVersions s !! vid = Some v <-> pricingRuleVersions s' !! vid = Some v.

Definition rule_later (id : string) (s s' : MemoryRepository) (r r' : rule) : Prop :=
  pricingRuleSameSlot r r' = true /\ PricingRule.LockVersion r <= PricingRule.LockVersion r' /\
  (PricingRule.LockVersion r = PricingRule.LockVersion r' -> r' = r /\ same_versions id s s').

Record later (w w' : Z * MemoryRepository) : Prop := {
  later_clock : w.1 <= w'.1;
  later_rules : forall id r, pricingRules w.2 !! id = Some r ->
    exists r', pricingRules w'.2 !! id = Some r' /\ rule_later id w.2 w'.2 r r';
  later_published : forall id v, pricingRuleVersions w.2 !! id = Some v -> is_published v = true ->
    pricingRuleVersions w'.2 !! id = Some v;
}.

Definition present (id : string) (s : MemoryRepository) : Prop :=
  is_Some (pricingRules s !! id) \/ is_Some (pricingRuleVersions s !! id).

Lemma same_slot_spec r1 r2 : pricingRuleSameSlot r1 r2 = true <->
  PricingRule.Purpose r1 = PricingRule.Purpose r2 /\ PricingRule.ScopeType r1 = PricingRule.ScopeType r2 /\
  PricingRule.ScopeID r1 = PricingRule.ScopeID r2 /\ PricingRule.Model r1 = PricingRule.Model r2.
Proof. unfold pricingRuleSameSlot. rewrite !andb_true_iff, !String.eqb_eq. tauto. Qed.

Lemma same_slot_refl r : pricingRuleSameSlot r r = true.
Proof. by apply same_slot_spec. Qed.

Lemma draft_not_published v : is_draft v = true -> is_published v = false.
Proof. unfold is_draft, is_published. intros ->%String.eqb_eq. done. Qed.

Lemma later_refl w : later w w.
Proof.
  split; [done| |done]. intros id r Hr. exists r. split; [done|]. split_and!; [apply same_slot_refl|done|].
  intros _. split; [done|]. by intros vid v _.
Qed.

Lemma later_trans w1 w2 w3 : later w1 w2 -> later w2 w3 -> later w1 w3.
Proof.
  intros [C1 R1 P1] [C2 R2 P2]. split; [lia| |eauto].
  intros id r Hr. destruct (R1 id r Hr) as (r' & Hr' & S1 & L1 & K1). destruct (R2 id r' Hr') as (r'' & Hr'' & S2 & L2 & K2).
  exists r''. split; [done|]. split_and!; [|lia|].
  - apply same_slot_spec. apply same_slot_spec in S1, S2. naive_solver congruence.
  - intros E. destruct K1 as [-> V1]; [lia|]. destruct K2 as [-> V2]; [done|]. split; [done|].
    intros vid v Hv. by rewrite (V1 vid v Hv), (V2 vid v Hv).
Qed.

(** Lock versions pin a rule between two moments. *)
Lemma later_pinned w w' id r r' :
  later w w' -> pricingRules w.2 !! id = Some r -> pricingRules w'.2 !! id = Some r' ->
  PricingRule.LockVersion r = PricingRule.LockVersion r' -> r' = r /\ same_versions id w.2 w'.2.
Proof.
  intros [_ HR _] Hr Hr' E. destruct (HR id r Hr) as (r2 & Hr2 & _ & _ & Hk).
  assert (r2 = r') as -> by congruence. by apply Hk.
Qed.

Lemma later_between w1 w2 w3 id r1 r2 r3 :
  later w1 w2 -> later w2 w3 -> pricingRules w1.2 !! id = Some r1 ->
  pricingRules w2.2 !! id = Some r2 -> pricingRules w3.2 !! id = Some r3 ->
  PricingRule.LockVersion r1 = PricingRule.LockVersion r3 ->
  r2 = r1 /\ r3 = r1 /\ same_versions id w2.2 w3.2.
Proof.
  intros L12 L23 H1 H2 H3 E.
  destruct (later_rules _ _ L12 id r1 H1) as (r2' & H2' & _ & Le1 & _).
  destruct (later_rules _ _ L23 id r2 H2) as (r3' & H3' & _ & Le2 & _).
  assert (r2' = r2) as -> by congruence. assert (r3' = r3) as -> by congruence.
  destruct (later_pinned w1 w2 id r1 r2) as [-> _]; [done..|lia|].
  destruct (later_pinned w2 w3 id r1 r3) as [-> Hv]; [done..|]. done.
Qed.

Section Invariant.
(** What the service checks of a version before it publishes it. *)
Context (validated : string * string * Z * RuleAnalysis * list PricingRuleTestCase.t -> Prop).

Record rule_ok (w : Z * MemoryRepository) (r : rule) : Prop := {
  rule_purpose : PricingRule.Purpose r = PricingPurposeUsageCost;
  rule_scope : PricingRule.ScopeType r = PricingScopeGlobal /\ PricingRule.ScopeID r = ""%string;
  rule_status : oneOf (PricingRule.Status r) [PricingRuleStatusActive; PricingRuleStatusDisabled] = true;
  rule_id : TrimSpace (PricingRule.ID r) = PricingRule.ID r;
  rule_lock : 1 <= PricingRule.LockVersion r <= w.1;
  rule_active : PricingRule.ActiveVersionID r = ""%string \/
    exists v, pricingRuleVersions w.2 !! PricingRule.ActiveVersionID r = Some v /\
      PricingRuleVersion.RuleID v = PricingRule.ID r /\ is_published v = true;
}.

Record version_ok (w : Z * MemoryRepository) (v : version) : Prop := {
  version_rule : is_Some (pricingRules w.2 !! PricingRuleVersion.RuleID v);
  version_id : TrimSpace (PricingRuleVersion.ID v) = PricingRuleVersion.ID v;
  version_state : is_draft v = true \/
    is_published v = true /\ 1 <= PricingRuleVersion.Revision v <= w.1 /\ validated (content v);
}.

(** No two versions of a rule are drafts, or have the same published revision. *)
Definition rival (v1 v2 : version) : Prop :=
  PricingRuleVersion.RuleID v1 = PricingRuleVersion.RuleID v2 /\
  (is_draft v1 = true /\ is_draft v2 = true \/
   is_published v1 = true /\ is_published v2 = true /\
   PricingRuleVersion.Revision v1 = PricingRuleVersion.Revision v2).

Record catalogue_ok (w : Z * MemoryRepository) : Prop := {
  ok_clock : 0 <= w.1;
  ok_rules_keyed : keyed PricingRule.ID (pricingRules w.2);
  ok_versions_keyed : keyed PricingRuleVersion.ID (pricingRuleVersions w.2);
  ok_rules : forall id r, pricingRules w.2 !! id = Some r -> rule_ok w r;
  ok_slots : forall id1 id2 r1 r2, pricingRules w.2 !! id1 = Some r1 -> pricingRules w.2 !! id2 = Some r2 ->
    PricingRule.Model r1 = PricingRule.Model r2 -> id1 = id2;
  ok_versions : forall id v, pricingRuleVersions w.2 !! id = Some v -> version_ok w v;
  ok_rivals : forall id1 id2 v1 v2, pricingRuleVersions w.2 !! id1 = Some v1 ->
    pricingRuleVersions w.2 !! id2 = Some v2 -> rival v1 v2 -> id1 = id2;
}.

(** ** Operations keep the invariant and promise [later] *)

Notation promises ids w s' := (guar catalogue_ok later present ids w (w.1 + 1, s')) (only parsing).

(** A successful write with a lock version: one rule moves on, with what belongs
    to it.  [versions'] is the new map. *)
Record moves (w : Z * MemoryRepository) (id : string) (r0 r' : rule) (versions' : gmap string version) : Prop := {
  move_old : pricingRules w.2 !! id = Some r0;
  move_id : PricingRule.ID r' = id;
  move_slot : pricingRuleSameSlot r0 r' = true;
  move_status : oneOf (PricingRule.Status r') [PricingRuleStatusActive; PricingRuleStatusDisabled] = true;
  move_lock : PricingRule.LockVersion r' = PricingRule.LockVersion r0 +i 1;
  move_keyed : keyed PricingRuleVersion.ID versions';
  move_others : forall vid v, PricingRuleVersion.RuleID v <> id ->
    pricingRuleVersions w.2 !! vid = Some v <-> versions' !! vid = Some v;
  move_published : forall vid v, pricingRuleVersions w.2 !! vid = Some v -> is_published v = true ->
    versions' !! vid = Some v;
  move_versions : forall vid v, versions' !! vid = Some v -> PricingRuleVersion.RuleID v = id ->
    TrimSpace (PricingRuleVersion.ID v) = PricingRuleVersion.ID v /\
    (is_draft v = true \/
     is_published v = true /\ 1 <= PricingRuleVersion.Revision v <= w.1 + 1 /\ validated (content v));
  move_rivals : forall id1 id2 v1 v2, versions' !! id1 = Some v1 -> versions' !! id2 = Some v2 ->
    PricingRuleVersion.RuleID v1 = id -> rival v1 v2 -> id1 = id2;
  move_active : PricingRule.ActiveVersionID r' = PricingRule.ActiveVersionID r0 \/
    exists v, versions' !! PricingRule.ActiveVersionID r' = Some v /\
      PricingRuleVersion.RuleID v = id /\ is_published v = true;
}.

Lemma move_lock_exact w id r0 r' versions' :
  catalogue_ok w -> w.1 < max_int64 -> moves w id r0 r' versions' ->
  PricingRule.LockVersion r' = PricingRule.LockVersion r0 + 1 /\ 1 <= PricingRule.LockVersion r0 <= w.1.
Proof.
  intros Hw Hb Hm. pose proof (rule_lock _ _ (ok_rules w Hw id r0 (move_old _ _ _ _ _ Hm))) as Hl.
  split; [|done]. rewrite (move_lock _ _ _ _ _ Hm), wrap64_id; [done|].
  unfold in_int64, min_int64, max_int64 in *. lia.
Qed.

(** An active version stays one. *)
Lemma moves_active w id r0 r' versions' a ruleID : moves w id r0 r' versions' ->
  (a = ""%string \/ exists v, pricingRuleVersions w.2 !! a = Some v /\
     PricingRuleVersion.RuleID v = ruleID /\ is_published v = true) ->
  a = ""%string \/ exists v, versions' !! a = Some v /\ PricingRuleVersion.RuleID v = ruleID /\ is_published v = true.
Proof.
  intros Hm [->|(v & Hv & Hr & Hp)]; [by left|right]. exists v. split; [|done].
  by eapply (move_published _ _ _ _ _ Hm).
Qed.

Lemma moved_rule_ok w id r0 r' s' : catalogue_ok w -> w.1 < max_int64 ->
  moves w id r0 r' (pricingRuleVersions s') -> rule_ok (w.1 + 1, s') r'.
Proof.
  intros Hw Hb Hm. destruct (move_lock_exact _ _ _ _ _ Hw Hb Hm) as [Hl Hl0].
  pose proof (move_old _ _ _ _ _ Hm) as H0. destruct (ok_rules w Hw id r0 H0) as [P Sc St I _ A].
  pose proof (move_slot _ _ _ _ _ Hm) as Hslot. apply same_slot_spec in Hslot as (S1 & S2 & S3 & S4).
  pose proof (ok_rules_keyed w Hw id r0 H0) as Hid0. cbn in Hid0. pose proof (move_id _ _ _ _ _ Hm) as Hid.
  split; cbn [fst snd]; [congruence|split; [destruct Sc; congruence|destruct Sc; congruence]|apply Hm|congruence|lia|].
  rewrite Hid. destruct (move_active _ _ _ _ _ Hm) as [->|Ha]; [|by right].
  eapply moves_active; [exact Hm|]. by rewrite <- Hid0.
Qed.

Lemma moves_ok w id r0 r' s' : catalogue_ok w -> w.1 < max_int64 ->
  moves w id r0 r' (pricingRuleVersions s') -> pricingRules s' = <[id := r']> (pricingRules w.2) ->
  catalogue_ok (w.1 + 1, s').
Proof.
  intros Hw Hb Hm E. pose proof (move_old _ _ _ _ _ Hm) as H0.
  pose proof (move_slot _ _ _ _ _ Hm) as Hslot. apply same_slot_spec in Hslot as (_ & _ & _ & S4).
  split; cbn [fst snd].
  - pose proof (ok_clock w Hw). lia.
  - rewrite E. apply keyed_insert; [apply Hw|apply Hm].
  - apply Hm.
  - intros id2 r2. rewrite E. intros [[<- <-]|[Hne H2]]%lookup_insert_Some; [by eapply moved_rule_ok|].
    destruct (ok_rules w Hw id2 r2 H2) as [P Sc St I L A]. split; cbn [fst snd]; try done; [lia|].
    by eapply moves_active.
  - intros id1 id2 r1 r2. rewrite E.
    intros [[<- <-]|[Hne1 H1]]%lookup_insert_Some [[<- <-]|[Hne2 H2]]%lookup_insert_Some Em; [done| | |].
    + exfalso. apply Hne2. eapply (ok_slots w Hw); [exact H0|exact H2|congruence].
    + exfalso. apply Hne1. symmetry. eapply (ok_slots w Hw); [exact H1|exact H0|congruence].
    + by eapply (ok_slots w Hw).
  - intros vid v Hv. destruct (decide (PricingRuleVersion.RuleID v = id)) as [Ev|Ev].
    + destruct (move_versions _ _ _ _ _ Hm vid v Hv Ev) as [Ht Hs]. split; cbn [fst snd]; [|done|done].
      rewrite Ev, E, lookup_insert_eq. eauto.
    + apply (move_others _ _ _ _ _ Hm vid v Ev) in Hv. destruct (ok_versions w Hw vid v Hv) as [Hx Ht Hs].
      split; cbn [fst snd]; [by rewrite E, lookup_insert_ne by congruence|done|].
      destruct Hs as [?|(? & ? & ?)]; [by left|right]. split_and!; [done|lia..|done].
  - intros id1 id2 v1 v2 H1 H2 Hr. destruct (decide (PricingRuleVersion.RuleID v1 = id)) as [Ev|Ev].
    + by eapply (move_rivals _ _ _ _ _ Hm).
    + apply (move_others _ _ _ _ _ Hm _ v1 Ev) in H1.
      assert (Ev2 : PricingRuleVersion.RuleID v2 <> id) by (destruct Hr as [<- _]; done).
      apply (move_others _ _ _ _ _ Hm _ v2 Ev2) in H2. by eapply (ok_rivals w Hw).
Qed.

Lemma moves_promise ids w id r0 r' s' :
  catalogue_ok w -> w.1 < max_int64 -> moves w id r0 r' (pricingRuleVersions s') ->
  pricingRules s' = <[id := r']> (pricingRules w.2) ->
  (forall vid, is_Some (pricingRuleVersions s' !! vid) -> is_Some (pricingRuleVersions w.2 !! vid) \/ vid ∈ ids) ->
  promises ids w s'.
Proof.
  intros Hw Hb Hm E Hids. pose proof (move_old _ _ _ _ _ Hm) as H0.
  destruct (move_lock_exact _ _ _ _ _ Hw Hb Hm) as [Hl _]. split_and!; [by eapply moves_ok| |].
  - split; cbn [fst snd]; [lia| |apply Hm]. intros id2 r2 H2. destruct (decide (id2 = id)) as [->|Hne].
    + exists r'. rewrite E, lookup_insert_eq. split; [done|]. assert (r2 = r0) as -> by congruence.
      split_and!; [apply Hm|lia|lia].
    + exists r2. rewrite E, lookup_insert_ne by done. split; [done|]. split_and!; [apply same_slot_refl|done|].
      intros _. split; [done|]. intros vid v Ev. apply Hm. congruence.
  - cbn [fst snd]. intros id2 [[r2 H2]|H2]; [left; left|destruct (Hids id2 H2); [left; by right|by right]].
    rewrite E in H2. apply lookup_insert_Some in H2 as [[<- _]|[_ H2]]; [|eauto].
    exists r0. exact H0.
Qed.

(** Anything that leaves the two maps alone. *)
Lemma quiet_ok w n s' : catalogue_ok w -> w.1 <= n ->
  pricingRules s' = pricingRules w.2 -> pricingRuleVersions s' = pricingRuleVersions w.2 ->
  catalogue_ok (n, s') /\ later w (n, s') /\ forall id, present id s' <-> present id w.2.
Proof.
  intros [C K1 K2 R S V D] Hn E1 E2. split_and!.
  - split; cbn [fst snd]; rewrite ?E1, ?E2; [lia|done|done| |done| |done].
    + intros id r Hr. destruct (R id r Hr) as [P Sc St I L A].
      split; cbn [fst snd]; rewrite ?E2; try done. lia.
    + intros id v Hv. destruct (V id v Hv) as [Hx Ht Hs]. split; cbn [fst snd]; rewrite ?E1; [done..|].
      destruct Hs as [?|(? & ? & ?)]; [by left|right]. split_and!; [done|lia..|done].
  - pose proof (later_refl w) as [L1 L2 L3]. split; cbn [fst snd]; unfold rule_later, same_versions in *;
      rewrite ?E1, ?E2; done.
  - intros id. unfold present. by rewrite E1, E2.
Qed.

Lemma quiet_promise ids w s' : catalogue_ok w ->
  pricingRules s' = pricingRules w.2 -> pricingRuleVersions s' = pricingRuleVersions w.2 -> promises ids w s'.
Proof.
  intros Hw E1 E2. destruct (quiet_ok w (w.1 + 1) s' Hw) as (H1 & H2 & H3); [lia|done..|].
  split_and!; [done..|]. intros id Hid. left. by apply H3.
Qed.

(** Run an operation on a store. *)
Ltac run_op :=
  unfold mbind, M_bind, check, fail, read, write, mret, M_ret; cbn [fst snd id].

(** A move that only changes the rule. *)
Lemma rule_move w id r0 r' : catalogue_ok w -> pricingRules w.2 !! id = Some r0 ->
  PricingRule.ID r' = id -> pricingRuleSameSlot r0 r' = true ->
  oneOf (PricingRule.Status r') [PricingRuleStatusActive; PricingRuleStatusDisabled] = true ->
  PricingRule.LockVersion r' = PricingRule.LockVersion r0 +i 1 ->
  (PricingRule.ActiveVersionID r' = PricingRule.ActiveVersionID r0 \/
   exists v, pricingRuleVersions w.2 !! PricingRule.ActiveVersionID r' = Some v /\
     PricingRuleVersion.RuleID v = id /\ is_published v = true) ->
  moves w id r0 r' (pricingRuleVersions w.2).
Proof.
  intros Hw H0 Hid Hs Hst Hl Ha. split; try done; [apply Hw| |].
  - intros vid v Hv _. destruct (ok_versions w Hw vid v Hv) as [_ Ht Hv']. split; [done|].
    destruct Hv' as [?|(? & ? & ?)]; [by left|right]. split_and!; [done|lia..|done].
  - intros. by eapply (ok_rivals w Hw).
Qed.

Lemma status_promise ids w id status expected actor t :
  catalogue_ok w -> w.1 < max_int64 ->
  oneOf status [PricingRuleStatusActive; PricingRuleStatusDisabled] = true ->
  promises ids w (SetPricingRuleStatus id status expected actor t w.2).2.
Proof.
  intros Hw Hb Hst. unfold SetPricingRuleStatus. run_op.
  destruct (pricingRules w.2 !! id) as [r0|] eqn:E0; [|by apply quiet_promise].
  destruct (negb _); [by apply quiet_promise|]. cbn.
  pose proof (ok_rules_keyed w Hw id r0 E0) as Hid. cbn in Hid.
  eapply (moves_promise _ _ id r0); [done..| |reflexivity|by left]. cbn. apply rule_move; cbn; auto.
  by apply same_slot_spec.
Qed.

Lemma activate_promise ids w id vid expected actor t :
  catalogue_ok w -> w.1 < max_int64 ->
  promises ids w (ActivatePricingRuleVersion id vid expected actor t w.2).2.
Proof.
  intros Hw Hb. unfold ActivatePricingRuleVersion. run_op.
  destruct (pricingRules w.2 !! id) as [r0|] eqn:E0; [|by apply quiet_promise].
  destruct (pricingRuleVersions w.2 !! vid) as [v|] eqn:Ev; [|by apply quiet_promise].
  destruct (_ || _) eqn:Eg; [by apply quiet_promise|]. cbn. unfold belongs in Eg. boolify.
  pose proof (ok_rules_keyed w Hw id r0 E0) as Hid. cbn in Hid.
  eapply (moves_promise _ _ id r0); [done..| |reflexivity|by left]. cbn. apply rule_move; cbn; auto.
  - by apply same_slot_spec.
  - apply (ok_rules w Hw id r0 E0).
  - right. exists v. auto.
Qed.

(** Saving a draft removes the other drafts of the rule. *)
Lemma kept_lookup new draft (versions : gmap string version) vid v :
  filter (fun entry => other_draft new draft entry = false) versions !! vid = Some v <->
  versions !! vid = Some v /\
  (PricingRuleVersion.RuleID v = PricingRule.ID new -> is_draft v = true -> vid = PricingRuleVersion.ID draft).
Proof.
  rewrite map_lookup_filter_Some. unfold other_draft, belongs. cbn.
  rewrite !andb_false_iff, negb_false_iff, String.eqb_eq, String.eqb_neq.
  destruct (decide (PricingRuleVersion.RuleID v = PricingRule.ID new)), (is_draft v); naive_solver.
Qed.

Lemma draft_move w r0 new draft saved :
  catalogue_ok w -> pricingRules w.2 !! PricingRule.ID new = Some r0 ->
  PricingRule.ID saved = PricingRule.ID new -> pricingRuleSameSlot r0 saved = true ->
  oneOf (PricingRule.Status saved) [PricingRuleStatusActive; PricingRuleStatusDisabled] = true ->
  PricingRule.LockVersion saved = PricingRule.LockVersion r0 +i 1 ->
  PricingRule.ActiveVersionID saved = PricingRule.ActiveVersionID r0 ->
  TrimSpace (PricingRuleVersion.ID draft) = PricingRuleVersion.ID draft ->
  is_draft draft = true -> PricingRuleVersion.RuleID draft = PricingRule.ID new ->
  (forall v, pricingRuleVersions w.2 !! PricingRuleVersion.ID draft = Some v ->
     is_draft v = true /\ PricingRuleVersion.RuleID v = PricingRule.ID new) ->
  moves w (PricingRule.ID new) r0 saved
    (<[PricingRuleVersion.ID draft := draft]>
       (filter (fun entry => other_draft new draft entry = false) (pricingRuleVersions w.2))).
Proof.
  intros Hw H0 Hid Hslot Hst Hl Ha Ht Hd Hr Hold. set (did := PricingRuleVersion.ID draft) in *.
  assert (Hone : forall vid v, did <> vid ->
    filter (fun entry => other_draft new draft entry = false) (pricingRuleVersions w.2) !! vid = Some v ->
    rival draft v -> False).
  { intros vid v Hne [_ Ho]%kept_lookup [E [[_ Hv]|(Hv & _)]]; [|by rewrite (draft_not_published draft) in Hv].
    apply Hne. symmetry. apply Ho; [congruence|done]. }
  split; try done.
  - apply keyed_insert; [|done]. intros vid v [Hv _]%kept_lookup. by apply (ok_versions_keyed w Hw).
  - intros vid v Ev. rewrite lookup_insert_Some, kept_lookup. split; [|naive_solver congruence].
    intros Hv. right. split; [|done]. intros <-. by destruct (Hold v Hv).
  - intros vid v Hv Hp. assert (Hn : is_draft v <> true) by (intros Hdr; by rewrite (draft_not_published v Hdr) in Hp).
    apply lookup_insert_Some. right. split; [intros <-; by destruct (Hold v Hv)|]. by apply kept_lookup.
  - intros vid v [[<- <-]|[_ [Hv _]%kept_lookup]]%lookup_insert_Some Ev; [split; [done|by left]|].
    destruct (ok_versions w Hw vid v Hv) as [_ Ht' Hs]. split; [done|].
    destruct Hs as [?|(? & ? & ?)]; [by left|right]. split_and!; [done|lia..|done].
  - intros id1 id2 v1 v2 [[<- <-]|[Hn1 H1]]%lookup_insert_Some [[<- <-]|[Hn2 H2]]%lookup_insert_Some _ Hriv; [done| | |].
    + by destruct (Hone id2 v2).
    + destruct (Hone id1 v1 Hn1 H1). destruct Hriv as [E [[? ?]|(? & ? & ?)]]; split; [done|by left|done|by right].
    + apply kept_lookup in H1 as [H1 _], H2 as [H2 _]. by eapply (ok_rivals w Hw).
  - by left.
Qed.

Lemma draft_promise ids w new draft expected :
  catalogue_ok w -> w.1 < max_int64 ->
  oneOf (PricingRule.Status new) [PricingRuleStatusActive; PricingRuleStatusDisabled] = true ->
  TrimSpace (PricingRuleVersion.ID draft) = PricingRuleVersion.ID draft ->
  (forall current, pricingRules w.2 !! PricingRule.ID new = Some current ->
     PricingRule.LockVersion current = expected ->
     (pricingRuleVersions w.2 !! PricingRuleVersion.ID draft = None /\ PricingRuleVersion.ID draft ∈ ids) \/
     exists d, pricingRuleVersions w.2 !! PricingRuleVersion.ID draft = Some d /\ is_draft d = true /\
       PricingRuleVersion.RuleID d = PricingRule.ID new) ->
  promises ids w (SavePricingRuleDraft new draft expected w.2).2.
Proof.
  intros Hw Hb Hst Ht Hd. unfold SavePricingRuleDraft. run_op. unfold clonePricingRuleVersion.
  destruct (pricingRules w.2 !! PricingRule.ID new) as [r0|] eqn:E0; [|by apply quiet_promise].
  destruct (negb (_ =? _)) eqn:El; [by apply quiet_promise|].
  destruct (negb (pricingRuleSameSlot r0 new)) eqn:Es; [by apply quiet_promise|].
  destruct (_ || _) eqn:Eg; [by apply quiet_promise|]. cbn [fst snd]. unfold belongs in Eg. boolify.
  specialize (Hd r0 eq_refl El).
  eapply (moves_promise _ _ (PricingRule.ID new) r0); [done..| |reflexivity|].
  - cbn. apply draft_move; cbn; try done. intros v Hv.
    destruct Hd as [[Hn _]|(d & Hd' & ? & ?)]; [congruence|]. assert (d = v) as <- by congruence. done.
  - cbn. intros vid [v [[<- <-]|[_ [Hv _]%kept_lookup]]%lookup_insert_Some]; [|left; eauto].
    destruct Hd as [[_ ?]|(d & Hd' & _)]; [by right|left; eauto].
Qed.

Lemma max_revision_spec `{range : MapRange} (ruleID : string) versions :
  0 <= max_revision ruleID versions /\
  (forall id v, versions !! id = Some v -> belongs v ruleID = true -> is_published v = true ->
     PricingRuleVersion.Revision v <= max_revision ruleID versions) /\
  forall n, 0 <= n -> (forall id v, versions !! id = Some v -> PricingRuleVersion.Revision v <= n \/ is_published v = false) ->
    max_revision ruleID versions <= n.
Proof.
  unfold max_revision. set (f := fun _ _ => _).
  assert (Hf : forall l m, m <= foldl f m l /\
    (forall v, v ∈ l -> belongs v ruleID = true -> is_published v = true -> PricingRuleVersion.Revision v <= foldl f m l) /\
    forall n, m <= n -> (forall v, v ∈ l -> PricingRuleVersion.Revision v <= n \/ is_published v = false) -> foldl f m l <= n).
  { induction l as [|x l IH]; intros m; cbn [foldl].
    - split_and!; [lia| |done]. by intros v ?%elem_of_nil.
    - destruct (IH (f m x)) as (H1 & H2 & H3).
      assert (Hx : m <= f m x /\ (belongs x ruleID = true -> is_published x = true -> PricingRuleVersion.Revision x <= f m x) /\
        forall n, m <= n -> PricingRuleVersion.Revision x <= n \/ is_published x = false -> f m x <= n).
      { unfold f. destruct (belongs x ruleID), (is_published x); cbn; try (split_and!; [lia|done|lia]).
        destruct (Z.gtb_spec (PricingRuleVersion.Revision x) m); split_and!; try lia; intros; naive_solver lia. }
      destruct Hx as (X1 & X2 & X3). split_and!; [lia| |].
      + intros v [->|Hv]%elem_of_cons Hb Hp; [specialize (X2 Hb Hp); lia|auto].
      + intros n Hn Hall. apply H3; [apply X3; [done|apply Hall; by left]|]. intros v Hv. apply Hall. by right. }
  destruct (Hf (map_values versions) 0) as (H1 & H2 & H3). split_and!; [done| |].
  - intros id v Hv. apply H2, elem_of_map_values. eauto.
  - intros n Hn Hall. apply H3; [done|]. intros v (id & Hv)%elem_of_map_values. eauto.
Qed.

(** Publishing turns the draft [d] into a version of the next revision. *)
Lemma publish_move `{range : MapRange} w r0 d vid new' r' :
  catalogue_ok w -> w.1 < max_int64 -> pricingRules w.2 !! PricingRule.ID r0 = Some r0 ->
  PricingRuleVersion.ID new' = vid -> pricingRuleVersions w.2 !! vid = Some d -> is_draft d = true ->
  PricingRuleVersion.RuleID d = PricingRule.ID r0 ->
  PricingRuleVersion.RuleID new' = PricingRule.ID r0 -> is_published new' = true -> validated (content new') ->
  PricingRuleVersion.Revision new' = max_revision (PricingRule.ID r0) (pricingRuleVersions w.2) +i 1 ->
  PricingRule.ID r' = PricingRule.ID r0 -> pricingRuleSameSlot r0 r' = true ->
  PricingRule.Status r' = PricingRule.Status r0 -> PricingRule.LockVersion r' = PricingRule.LockVersion r0 +i 1 ->
  PricingRule.ActiveVersionID r' = vid ->
  moves w (PricingRule.ID r0) r0 r' (<[vid := new']> (pricingRuleVersions w.2)).
Proof.
  intros Hw Hb H0 <- Hd Hdr Hdid Hnid Hpub Hval Hrev Hid Hslot Hst Hl Ha.
  destruct (max_revision_spec (PricingRule.ID r0) (pricingRuleVersions w.2)) as (M0 & Mall & Mle).
  set (m := max_revision _ _) in *.
  assert (Hm : m <= w.1).
  { apply Mle; [apply Hw|]. intros id v Hv. destruct (ok_versions w Hw id v Hv) as [_ _ [?|(_ & ? & _)]]; [|left; lia].
    right. by apply draft_not_published. }
  rewrite wrap64_id in Hrev by (unfold in_int64, min_int64, max_int64 in *; lia).
  assert (Hne : is_draft new' = false) by (destruct (is_draft new') eqn:E; [by rewrite (draft_not_published _ E) in Hpub|done]).
  assert (Hnew : forall vid v, PricingRuleVersion.ID new' <> vid -> pricingRuleVersions w.2 !! vid = Some v ->
    rival new' v -> False).
  { intros vid v _ Hv [E [[? _]|(_ & Hp & Er)]]; [congruence|]. specialize (Mall vid v Hv).
    unfold belongs in Mall. rewrite <- E, Hnid, String.eqb_refl in Mall. specialize (Mall eq_refl Hp). lia. }
  split; try done.
  - rewrite Hst. apply (ok_rules w Hw _ _ H0).
  - apply keyed_insert; [apply Hw|done].
  - intros vid v Ev. rewrite lookup_insert_Some. split; [|naive_solver congruence].
    intros Hv. right. split; [|done]. intros <-. congruence.
  - intros vid v Hv Hp. apply lookup_insert_Some. right. split; [|done]. intros <-.
    assert (d = v) as <- by congruence. by rewrite (draft_not_published d Hdr) in Hp.
  - intros vid v [[<- <-]|[_ Hv]]%lookup_insert_Some Ev.
    + split; [apply (ok_versions_keyed w Hw) in Hd as Hk; cbn in Hk; rewrite <- Hk; by apply (ok_versions w Hw _ _ Hd)|].
      right. split_and!; [done|lia..|done].
    + destruct (ok_versions w Hw vid v Hv) as [_ Ht Hs]. split; [done|].
      destruct Hs as [?|(? & ? & ?)]; [by left|right]. split_and!; [done|lia..|done].
  - intros id1 id2 v1 v2 [[<- <-]|[Hn1 H1]]%lookup_insert_Some [[<- <-]|[Hn2 H2]]%lookup_insert_Some E1 Hr; [done| | |].
    + by destruct (Hnew id2 v2).
    + destruct (Hnew id1 v1 Hn1 H1). destruct Hr as [E [[? ?]|(? & ? & ?)]]; split; [done|by left|done|right; done].
    + by eapply (ok_rivals w Hw).
  - right. exists new'. by rewrite Ha, lookup_insert_eq.
Qed.

Lemma publish_promise `{range : MapRange} ids w new expected active :
  catalogue_ok w -> w.1 < max_int64 -> validated (content new) ->
  promises ids w (PublishPricingRuleVersion new expected active w.2).2.
Proof.
  intros Hw Hb Hval. unfold PublishPricingRuleVersion. run_op. unfold clonePricingRuleVersion.
  destruct (pricingRules w.2 !! PricingRuleVersion.RuleID new) as [r0|] eqn:E0; [|by apply quiet_promise].
  destruct (_ || _); [by apply quiet_promise|].
  destruct (pricingRuleVersions w.2 !! PricingRuleVersion.ID new) as [d|] eqn:Ed; [|by apply quiet_promise].
  destruct (_ || _) eqn:Eg; [by apply quiet_promise|]. cbn [fst snd]. unfold belongs in Eg. boolify.
  pose proof (ok_rules_keyed w Hw _ r0 E0) as Hid. cbn in Hid. rewrite <- Hid in E0.
  eapply (moves_promise _ _ (PricingRule.ID r0) r0); [done..| |reflexivity|].
  - cbn. apply (publish_move w r0 d); first [done|by apply same_slot_spec].
  - cbn. intros vid [v [[<- _]|[_ Hv]]%lookup_insert_Some]; left; eauto.
Qed.

Lemma create_promise `{range : MapRange} ids w new draft :
  catalogue_ok w -> w.1 < max_int64 ->
  PricingRule.ID new ∈ ids -> PricingRuleVersion.ID draft ∈ ids ->
  pricingRuleVersions w.2 !! PricingRuleVersion.ID draft = None ->
  TrimSpace (PricingRuleVersion.ID draft) = PricingRuleVersion.ID draft ->
  (forall n s, 1 <= n -> rule_ok (n, s) new) ->
  promises ids w (CreatePricingRule new draft w.2).2.
Proof.
  intros Hw Hb Hin1 Hin2 Hnone Ht Hnew. unfold CreatePricingRule. run_op. unfold clonePricingRuleVersion.
  destruct (has _ _) eqn:Eh; [by apply quiet_promise|]. apply has_None in Eh.
  destruct (existsb _ _) eqn:Ex; [by apply quiet_promise|].
  destruct (_ || _) eqn:Eg; [by apply quiet_promise|]. cbn [fst snd]. unfold belongs in Eg. boolify.
  assert (Hslot : forall id r, pricingRules w.2 !! id = Some r -> PricingRule.Model r <> PricingRule.Model new).
  { intros id r Hr Em. rewrite <- not_true_iff_false in Ex. apply Ex, existsb_exists. exists r.
    split; [apply list_elem_of_In, elem_of_map_values; eauto|]. pose proof (ok_rules w Hw id r Hr) as [P [S1 S2] _ _ _ _].
    destruct (Hnew 1 w.2) as [P' [S1' S2'] _ _ _ _]; [lia|]. apply same_slot_spec. split_and!; congruence. }
  assert (Hfresh : forall id v, pricingRuleVersions w.2 !! id = Some v -> PricingRuleVersion.ID draft <> id)
    by (intros id v Hv <-; congruence).
  pose proof (ok_clock w Hw) as Hc. split_and!.
  - split; cbn; [lia|by apply keyed_insert; [apply Hw|]..| | | |].
    + intros id r [[<- <-]|[_ Hr]]%lookup_insert_Some; [apply Hnew; lia|].
      destruct (ok_rules w Hw id r Hr) as [P Sc St I L A]. split; cbn; try done; [lia|].
      destruct A as [?|(v & Hv & Hv')]; [by left|right]. exists v. split; [|done].
      rewrite lookup_insert_ne; [done|]. by eapply Hfresh.
    + intros id1 id2 r1 r2 [[<- <-]|[_ H1]]%lookup_insert_Some [[<- <-]|[_ H2]]%lookup_insert_Some Em; try done.
      * by destruct (Hslot id2 r2).
      * by destruct (Hslot id1 r1).
      * by eapply (ok_slots w Hw).
    + intros id v [[<- <-]|[_ Hv]]%lookup_insert_Some; [split; cbn; [|done|by left]|].
      * rewrite H, lookup_insert_eq. eauto.
      * destruct (ok_versions w Hw id v Hv) as [[r Hr] Hti Hs]. split; cbn; [|done|].
        -- rewrite lookup_insert_ne; [eauto|]. intros E. congruence.
        -- destruct Hs as [?|(? & ? & ?)]; [by left|right]. split_and!; [done|lia..|done].
    + assert (Hno : forall id v, pricingRuleVersions w.2 !! id = Some v -> PricingRuleVersion.RuleID v <> PricingRuleVersion.RuleID draft).
      { intros id v Hv E. destruct (ok_versions w Hw id v Hv) as [[r Hr] _ _]. congruence. }
      intros id1 id2 v1 v2 [[<- <-]|[_ H1]]%lookup_insert_Some [[<- <-]|[_ H2]]%lookup_insert_Some [E Hr]; try done.
      * by destruct (Hno id2 v2).
      * by destruct (Hno id1 v1).
      * eapply (ok_rivals w Hw); [exact H1|exact H2|]. done.
  - split; cbn; [lia| |].
    + intros id r Hr. exists r. rewrite lookup_insert_ne by (intros <-; congruence). split; [done|].
      split_and!; [apply same_slot_refl|done|]. intros _. split; [done|]. intros vid v Ev. cbn.
      rewrite lookup_insert_Some. split; [intros Hv; right; split; [by eapply Hfresh|done]|].
      intros [[_ <-]|[_ Hv]]; [|done]. exfalso. assert (PricingRule.ID new = id) by congruence. subst. congruence.
    + intros id v Hv _. rewrite lookup_insert_ne; [done|]. by eapply Hfresh.
  - intros id [[r Hr]|[v Hv]]; cbn in *.
    + apply lookup_insert_Some in Hr as [[<- _]|[_ Hr]]; [by right|]. left. left. eauto.
    + apply lookup_insert_Some in Hv as [[<- _]|[_ Hv]]; [by right|]. left. right. eauto.
Qed.
End Invariant.
