(* ===== verification/PricingService.v ===== *)
(** * Pricing rules: the service

    [backend/internal/controlplane/pricing_service.go]: creating, drafting,
    publishing, activating and disabling rules, their validation, and the
    selection of the rule that prices a model.  A method is a program of critical
    sections of the repository ([Threads]): other calls run between the read of a
    rule and the write that depends on it.  The pricing engine appears as its
    compiler without the cache, which [PricingEngine] shows to answer alike.
    Random identifiers and readings of the clock are arguments. *)

From S2P Require Import Prelude Sha256 Threads PricingMoney PricingRule PricingEval Repository PricingCatalog.

(** ** Service programs *)

(** What a method returns: an error of the control plane or of the engine. *)
Inductive service_error :=
| Plain (e : go_error)
| Pricing (e : Error).

Definition srv (A : Type) : Type := prog MemoryRepository (result service_error A).

Definition srv_bind {A B} (p : srv A) (f : A -> srv B) : srv B :=
  prog_bind p (fun x => match x with Ok a => f a | Err e => Ret (Err e) end).
#[export] Instance srv_ret : MRet srv := fun A a => Ret (Ok a).
#[export] Instance srv_mbind : MBind srv := fun A B f p => srv_bind p f.

Definition throw {A} (e : go_error) : srv A := Ret (Err (Plain e)).
(** [if cond { return ..., err }] *)
Definition refuse (cond : bool) (e : go_error) : srv unit := if cond then throw e else mret tt.
(** A call of the repository whose error is returned. *)
Definition call {A} (m : M A) : srv A :=
  Atomic m (fun x => Ret (match x with Ok a => Ok a | Err e => Err (Plain e) end)).
Definition query {A} (f : MemoryRepository -> A) : srv A := call (read f).
(** [_ = s.audit(...)] *)
Definition ignored {A} (m : M A) : srv unit := Atomic m (fun _ => Ret (Ok tt)).
Definition from_engine {A} (x : result Error A) : srv A :=
  Ret (match x with Ok a => Ok a | Err e => Err (Pricing e) end).

(** What one call draws: the suffixes of its random identifiers, [nowUTC] in its
    body, and [nowUTC] in its audit entry. *)
Record draws := mkDraws {
  rule_suffix : string;
  draft_suffix : string;
  audit_suffix : string;
  now : time;
  audit_now : time;
}.
Definition rule_id_of (d : draws) : string := ("prule_" +:+ rule_suffix d)%string.
Definition draft_id_of (d : draws) : string := ("pdraft_" +:+ draft_suffix d)%string.

Definition audit (d : draws) (actor action resourceType resourceID summary : string) : srv unit :=
  ignored (AddAuditLog (newAuditLog (audit_suffix d) (audit_now d) actor action resourceType resourceID summary)).

(** ** Requests and answers ([pricing_model.go]) *)

Module PricingRuleQuery.
Record t := mk { Purpose : string; ScopeType : string; ScopeID : string; Model : string; Status : string }.
End PricingRuleQuery.

Module PricingRuleCreateRequest.
Record t := mk {
  Name : string;
  Purpose : string;
  ScopeType : string;
  ScopeID : string;
  Model : string;
  Currency : string;
  AuthoringMode : string;
  Expression : string;
  TestCases : list PricingRuleTestCase.t;
}.
End PricingRuleCreateRequest.

Module PricingDraftUpdateRequest.
Record t := mk {
  ExpectedLockVersion : Z;
  Name : string;
  Currency : string;
  AuthoringMode : string;
  Expression : string;
  TestCases : list PricingRuleTestCase.t;
}.
End PricingDraftUpdateRequest.

Module PricingPublishRequest.
Record t := mk {
  DraftVersionID : string;
  ExpectedLockVersion : Z;
  ExpectedActiveVersion : string;
  ExpressionHash : string;
}.
End PricingPublishRequest.

Module PricingRuleDetail.
Record t := mk {
  Rule : rule;
  ActiveVersion : option version;
  Draft : option version;
  Versions : list version;
}.
End PricingRuleDetail.

Module PricingTestCaseResult.
Record t := mk {
  Name : string;
  Passed : bool;
  AmountMicros : Z;
  Tier : string;
  Lines : list PricingLine;
  Error : option PricingMoney.Error;
}.
End PricingTestCaseResult.

Module PricingValidationResult.
Record t := mk {
  Valid : bool;
  ExpressionHash : string;
  Analysis : option RuleAnalysis;
  TestResults : list PricingTestCaseResult.t;
  Errors : list PricingMoney.Error;
}.
End PricingValidationResult.

Module PricingSimulationRequest.
Record t := mk { RuleVersionID : string; Expression : string; Currency : string; Facts : PricingEval.Facts }.
End PricingSimulationRequest.

Definition ErrPricingRuleNotFound : go_error := ErrNew "pricing rule not found".
Definition ErrPricingVersionNotFound : go_error := ErrNew "pricing rule version not found".
Definition ErrPricingCASConflict : go_error := ErrNew "pricing rule version conflict".
Definition ErrPricingInvalidSlot : go_error := ErrNew "pricing rule selection slot is invalid".
Definition ErrPricingCurrencyUnsupported : go_error := ErrNew "only USD pricing rules are supported".

Definition normalizePricingRule `{UnicodeUpper} (request : PricingRuleCreateRequest.t) (actor : string)
    (now : time) (id : string) : result go_error rule :=
  let purpose := TrimSpace (PricingRuleCreateRequest.Purpose request) in
  let scopeType := TrimSpace (PricingRuleCreateRequest.ScopeType request) in
  let model := TrimSpace (PricingRuleCreateRequest.Model request) in
  if (purpose <>s PricingPurposeUsageCost) || (scopeType <>s PricingScopeGlobal) || (model =s "")
  then Err ErrPricingInvalidSlot else
  let scopeID := TrimSpace (PricingRuleCreateRequest.ScopeID request) in
  if scopeID <>s "" then Err ErrPricingInvalidSlot else
  let currency := ToUpper (TrimSpace (PricingRuleCreateRequest.Currency request)) in
  if (currency <>s "") && (currency <>s CurrencyUSD) then Err ErrPricingCurrencyUnsupported else
  Ok (PricingRule.mk id (TrimSpace (PricingRuleCreateRequest.Name request)) purpose scopeType scopeID model
        PricingRuleStatusActive "" 1 actor actor now now).

Definition normalizeAuthoringMode (value : string) : string :=
  if TrimSpace value =s PricingAuthoringRaw then PricingAuthoringRaw else PricingAuthoringVisual.

(** A copy of the slice: the same values. *)
Definition clonePricingTestCases (values : list PricingRuleTestCase.t) : list PricingRuleTestCase.t := values.

(** ** Methods *)

Section Service.
Context `{range : MapRange} `{unicode : UnicodeCase} `{upper : UnicodeUpper}.
Context {VMProgram : Type}.
Context (Parse : string -> result string Node) (CompileExpr : string -> result string VMProgram).
Context (Run : VMProgram -> gmap string value -> script) (wrapCallError : Error -> run_error).
Context (render : message -> string) (Marshal : Facts -> result string string).

(** [Compile], [CompileByHash] and [Evaluate] of the pricing engine. *)
Definition engine_Compile (source : string) : result Error (CompiledRule VMProgram) :=
  compileV1 Parse CompileExpr source (ExpressionHash source).
Definition engine_CompileByHash (source expectedHash : string) : result Error (CompiledRule VMProgram) :=
  if ExpressionHash source <>s ToLower (TrimSpace expectedHash)
  then Err (errorf ErrorHashMismatch "expression hash does not match source" [])
  else engine_Compile source.
Definition engine_Evaluate (compiled : CompiledRule VMProgram) (facts : Facts) : result Error Result :=
  Evaluate Run wrapCallError render Marshal compiled facts.

Definition ListPricingRules (query_ : PricingRuleQuery.t) : srv (list rule) :=
  rules ← query PricingCatalog.ListPricingRules;
  mret (List.filter (fun r =>
    negb ((PricingRuleQuery.Purpose query_ <>s "") && (PricingRule.Purpose r <>s PricingRuleQuery.Purpose query_)
       || (PricingRuleQuery.ScopeType query_ <>s "") && (PricingRule.ScopeType r <>s PricingRuleQuery.ScopeType query_)
       || (PricingRuleQuery.ScopeID query_ <>s "") && (PricingRule.ScopeID r <>s PricingRuleQuery.ScopeID query_)
       || (PricingRuleQuery.Model query_ <>s "") && (PricingRule.Model r <>s PricingRuleQuery.Model query_)
       || (PricingRuleQuery.Status query_ <>s "") && (PricingRule.Status r <>s PricingRuleQuery.Status query_)))
    rules).

Definition PricingRuleVersionDetail (versionID : string) : srv (rule * version) :=
  found ← query (FindPricingRuleVersion (TrimSpace versionID));
  match found with
  | None => throw ErrPricingVersionNotFound
  | Some v =>
      found ← query (FindPricingRule (PricingRuleVersion.RuleID v));
      match found with
      | None => throw ErrPricingRuleNotFound
      | Some r => mret (r, v)
      end
  end.

(** [models] is what [ListGatewayModels] returns. *)
Definition validatePricingRuleSlot (models : list string) (r : rule) : srv unit :=
  _ ← refuse ((PricingRule.Model r <>s "*") && negb (contains models (PricingRule.Model r)))
        (ErrNew "pricing rule model does not exist");
  rules ← query PricingCatalog.ListPricingRules;
  refuse (existsb (fun existing => pricingRuleSameSlot existing r) rules)
    (ErrNew "pricing rule slot already exists").

Definition new_draft (id ruleID expression authoringMode actor : string)
    (testCases : list PricingRuleTestCase.t) (now : time) : version :=
  PricingRuleVersion.mk id ruleID 0 EngineVersionV1 CurrencyUSD expression (ExpressionHash expression)
    noAnalysis (normalizeAuthoringMode authoringMode) (clonePricingTestCases testCases)
    PricingVersionStateDraft actor "" now now None.

Definition CreatePricingRule (models : list string) (actor : string)
    (request : PricingRuleCreateRequest.t) (d : draws) : srv PricingRuleDetail.t :=
  match normalizePricingRule request actor (now d) (rule_id_of d) with
  | Err e => throw e
  | Ok new =>
      _ ← validatePricingRuleSlot models new;
      let draft := new_draft (draft_id_of d) (PricingRule.ID new)
        (PricingRuleCreateRequest.Expression request) (PricingRuleCreateRequest.AuthoringMode request)
        actor (PricingRuleCreateRequest.TestCases request) (PricingRule.CreatedAt new) in
      _ ← call (PricingCatalog.CreatePricingRule new draft);
      _ ← audit d actor "pricing_rule.create" "pricing_rule" (PricingRule.ID new) "Created pricing rule";
      mret (PricingRuleDetail.mk new None (Some draft) [draft])
  end.

(** The loop over the versions: the last one that fits wins. *)
Definition last_version (p : version -> bool) (versions : list version) : option version :=
  foldl (fun found v => if p v then Some v else found) None versions.

Definition service_PricingRuleDetail (id : string) : srv PricingRuleDetail.t :=
  found ← query (FindPricingRule id);
  match found with
  | None => throw ErrPricingRuleNotFound
  | Some r =>
      versions ← query (ListPricingRuleVersions (PricingRule.ID r));
      mret (PricingRuleDetail.mk r
        (last_version (fun v => PricingRuleVersion.ID v =s PricingRule.ActiveVersionID r) versions)
        (last_version is_draft versions) versions)
  end.

Definition UpdatePricingRuleDraft (actor ruleID : string) (request : PricingDraftUpdateRequest.t)
    (d : draws) : srv PricingRuleDetail.t :=
  detail ← service_PricingRuleDetail ruleID;
  let current := PricingRuleDetail.Rule detail in
  _ ← refuse (negb (PricingDraftUpdateRequest.ExpectedLockVersion request =? PricingRule.LockVersion current))
        ErrPricingCASConflict;
  _ ← refuse (TrimSpace (PricingDraftUpdateRequest.Expression request) =s "")
        (ErrNew "expression is required");
  let draft := new_draft (draft_id_of d) ruleID (PricingDraftUpdateRequest.Expression request)
    (PricingDraftUpdateRequest.AuthoringMode request) actor
    (PricingDraftUpdateRequest.TestCases request) (now d) in
  let draft := match PricingRuleDetail.Draft detail with
    | Some old => draft <| PricingRuleVersion.ID := PricingRuleVersion.ID old |>
                        <| PricingRuleVersion.CreatedAt := PricingRuleVersion.CreatedAt old |>
    | None => draft
    end in
  let name := TrimSpace (PricingDraftUpdateRequest.Name request) in
  let new := if name <>s "" then current <| PricingRule.Name := name |> else current in
  let new := new <| PricingRule.UpdatedBy := actor |> <| PricingRule.UpdatedAt := now d |> in
  applied ← call (SavePricingRuleDraft new draft (PricingDraftUpdateRequest.ExpectedLockVersion request));
  match applied with
  | None => throw ErrPricingCASConflict
  | Some updated =>
      _ ← audit d actor "pricing_rule.draft_update" "pricing_rule" ruleID "Updated pricing draft";
      mret (PricingRuleDetail.mk updated (PricingRuleDetail.ActiveVersion detail) (Some draft)
              (draft :: PricingRuleDetail.Versions detail))
  end.

(** One test case: its result, and whether it fails the validation. *)
Definition run_test_case (compiled : CompiledRule VMProgram) (testCase : PricingRuleTestCase.t)
    : PricingTestCaseResult.t :=
  let name := PricingRuleTestCase.Name testCase in
  match engine_Evaluate compiled (PricingRuleTestCase.Facts testCase) with
  | Err e => PricingTestCaseResult.mk name false 0 "" [] (Some e)
  | Ok evaluated =>
      let passed :=
        ((PricingRuleTestCase.ExpectedTier testCase =s "")
         || (PricingRuleTestCase.ExpectedTier testCase =s MatchedTier evaluated))
        && match PricingRuleTestCase.ExpectedAmountMicros testCase with
           | None => true
           | Some expected => expected =? ResultAmountMicros evaluated
           end in
      PricingTestCaseResult.mk name passed (ResultAmountMicros evaluated) (MatchedTier evaluated)
        (Lines evaluated) None
  end.

Definition ValidatePricingRule (expression : string) (testCases : list PricingRuleTestCase.t)
    : PricingValidationResult.t :=
  match engine_Compile expression with
  | Err e => PricingValidationResult.mk false "" None [] [e]
  | Ok compiled =>
      let results := map (run_test_case compiled) testCases in
      PricingValidationResult.mk (forallb PricingTestCaseResult.Passed results)
        (RuleHash compiled) (Some (Analysis compiled)) results []
  end.

Definition SimulatePricing (request : PricingSimulationRequest.t) : srv Result :=
  compiled ← (if TrimSpace (PricingSimulationRequest.RuleVersionID request) <>s "" then
    found ← query (FindPricingRuleVersion (PricingSimulationRequest.RuleVersionID request));
    match found with
    | None => throw ErrPricingVersionNotFound
    | Some v => from_engine (engine_CompileByHash (PricingRuleVersion.Expression v)
                               (PricingRuleVersion.ExpressionHash v))
    end
  else from_engine (engine_Compile (PricingSimulationRequest.Expression request)));
  _ ← refuse ((PricingSimulationRequest.Currency request <>s "")
              && (ToUpper (PricingSimulationRequest.Currency request) <>s CurrencyUSD))
        ErrPricingCurrencyUnsupported;
  from_engine (engine_Evaluate compiled (PricingSimulationRequest.Facts request)).

Definition PublishPricingRule (actor ruleID : string) (request : PricingPublishRequest.t)
    (d : draws) : srv PricingRuleDetail.t :=
  detail ← service_PricingRuleDetail ruleID;
  _ ← refuse (negb (PricingPublishRequest.ExpectedLockVersion request
                    =? PricingRule.LockVersion (PricingRuleDetail.Rule detail))) ErrPricingCASConflict;
  found ← query (FindPricingRuleVersion (PricingPublishRequest.DraftVersionID request));
  match found with
  | None => throw ErrPricingVersionNotFound
  | Some v =>
      _ ← refuse ((PricingRuleVersion.RuleID v <>s ruleID)
                  || (PricingRuleVersion.State v <>s PricingVersionStateDraft)) ErrPricingVersionNotFound;
      _ ← refuse ((PricingPublishRequest.ExpressionHash request <>s "")
                  && (PricingPublishRequest.ExpressionHash request
                      <>s ExpressionHash (PricingRuleVersion.Expression v)))
            (ErrNew "publish expression hash does not match draft");
      compiled ← from_engine (engine_Compile (PricingRuleVersion.Expression v));
      let validation := ValidatePricingRule (PricingRuleVersion.Expression v) (PricingRuleVersion.TestCases v) in
      if negb (PricingValidationResult.Valid validation) then
        match PricingValidationResult.Errors validation with
        | e :: _ => Ret (Err (Pricing e))
        | [] => throw (ErrNew "pricing rule test cases failed")
        end
      else
        let new := v
          <| PricingRuleVersion.EngineVersion := EngineVersion compiled |>
          <| PricingRuleVersion.ExpressionHash := RuleHash compiled |>
          <| PricingRuleVersion.Analysis := Analysis compiled |>
          <| PricingRuleVersion.PublishedBy := actor |>
          <| PricingRuleVersion.UpdatedAt := now d |> in
        applied ← call (PublishPricingRuleVersion new (PricingPublishRequest.ExpectedLockVersion request)
                          (PricingPublishRequest.ExpectedActiveVersion request));
        match applied with
        | None => throw ErrPricingCASConflict
        | Some (updated, published) =>
            _ ← audit d actor "pricing_rule.publish" "pricing_rule" ruleID
                  ("Published pricing rule version " +:+ PricingRuleVersion.ID published)%string;
            service_PricingRuleDetail (PricingRule.ID updated)
        end
  end.

Definition ActivatePricingRuleVersion (actor ruleID versionID : string) (expectedLockVersion : Z)
    (d : draws) : srv unit :=
  applied ← call (PricingCatalog.ActivatePricingRuleVersion ruleID versionID expectedLockVersion actor (now d));
  match applied with
  | None => throw ErrPricingCASConflict
  | Some updated =>
      audit d actor "pricing_rule.activate_version" "pricing_rule" (PricingRule.ID updated)
        ("Activated pricing version " +:+ versionID)%string
  end.

Definition DisablePricingRule (actor ruleID : string) (expectedLockVersion : Z) (d : draws) : srv unit :=
  applied ← call (SetPricingRuleStatus ruleID PricingRuleStatusDisabled expectedLockVersion actor (now d));
  match applied with
  | None => throw ErrPricingCASConflict
  | Some updated =>
      audit d actor "pricing_rule.disable" "pricing_rule" (PricingRule.ID updated) "Disabled pricing rule"
  end.

(** ** Selection *)

Record PricingSelection := mkSelection {
  SelectedRule : rule;
  SelectedVersion : version;
  Compiled : CompiledRule VMProgram;
  SelectedHash : string;
}.

Definition eligible (model : string) (r : rule) : bool :=
  negb ((PricingRule.Status r <>s PricingRuleStatusActive)
     || (PricingRule.Purpose r <>s PricingPurposeUsageCost)
     || (PricingRule.ScopeType r <>s PricingScopeGlobal)
     || (PricingRule.ScopeID r <>s "")
     || ((PricingRule.Model r <>s model) && (PricingRule.Model r <>s "*"))).

Definition select_rule (model : string) (acc : option rule * Z) (r : rule) : option rule * Z :=
  let '(selected, best) := acc in
  if negb (eligible model r) then acc else
  let score := if PricingRule.Model r =s model then 1 else 0 in
  if score >? best then (Some r, score) else acc.

Definition SelectPricingRule (model : string) : srv (option PricingSelection) :=
  rules ← query PricingCatalog.ListPricingRules;
  match (foldl (select_rule model) (None, -1) rules).1 with
  | None => mret None
  | Some selected =>
      if PricingRule.ActiveVersionID selected =s "" then mret None else
      found ← query (FindPricingRuleVersion (PricingRule.ActiveVersionID selected));
      match found with
      | None => mret None
      | Some v =>
          if PricingRuleVersion.State v <>s PricingVersionStatePublished then mret None else
          compiled ← from_engine (engine_CompileByHash (PricingRuleVersion.Expression v)
                                    (PricingRuleVersion.ExpressionHash v));
          mret (Some (mkSelection selected v compiled (PricingRuleVersion.ExpressionHash v)))
      end
  end.

Definition EstimateModelUsageCostMicros (model : string) (inputTokens outputTokens : Z)
    : srv (option Z) :=
  selection ← SelectPricingRule (TrimSpace model);
  match selection with
  | None => mret None
  | Some selection =>
      let facts := noFacts
        <| TotalInputTokens := Z.max inputTokens 0 |>
        <| UncachedInputTokens := Z.max inputTokens 0 |>
        <| OutputTokens := Z.max outputTokens 0 |>
        <| Phase := PhaseEstimate |> in
      evaluated ← from_engine (engine_Evaluate (Compiled selection) facts);
      mret (Some (ResultAmountMicros evaluated))
  end.
End Service.

(** ** Lemmas: methods keep the invariant *)

Section Proofs.
Context `{range : MapRange} `{unicode : UnicodeCase} `{upper : UnicodeUpper}.
Context {VMProgram : Type}.
Context (Parse : string -> result string Node) (CompileExpr : string -> result string VMProgram).
Context (Run : VMProgram -> gmap string value -> script) (wrapCallError : Error -> run_error).
Context (render : message -> string) (Marshal : Facts -> result string string).

Notation Compile := (engine_Compile Parse CompileExpr).
Notation Validate := (ValidatePricingRule Parse CompileExpr Run wrapCallError render Marshal).

(** What publishing has checked: the expression compiles to what is recorded of
    it, and it passes its test cases. *)
Definition validated (c : string * string * Z * RuleAnalysis * list PricingRuleTestCase.t) : Prop :=
  let '(expression, hash, engine, analysis, tests) := c in
  PricingValidationResult.Valid (Validate expression tests) = true /\
  exists compiled, Compile expression = Ok compiled /\ hash = RuleHash compiled /\
    engine = EngineVersion compiled /\ analysis = Analysis compiled.

Notation ok := (catalogue_ok validated).
Notation obeys := (holds max_int64 ok later present).
Notation relies := (rely ok later present).

Lemma obeys_query {A B} ids (f : MemoryRepository -> A) (k : A -> srv B) Q w :
  (forall w', relies ids w w' -> obeys ids (k (f w'.2)) Q (w'.1 + 1, w'.2)) ->
  obeys ids (query f ≫= k) Q w.
Proof.
  intros H w' Hr Hb. split; [|exact (H w' Hr)]. apply quiet_promise; [by destruct Hr|done..].
Qed.

Lemma obeys_call {A B} ids (m : M A) (k : A -> srv B) Q w :
  (forall w', relies ids w w' -> w'.1 < max_int64 ->
     guar ok later present ids w' (w'.1 + 1, (m w'.2).2) /\
     (ok (w'.1 + 1, (m w'.2).2) -> forall x, (m w'.2).1 = x ->
      match x with
      | Ok a => obeys ids (k a) Q (w'.1 + 1, (m w'.2).2)
      | Err e => forall w'', relies ids (w'.1 + 1, (m w'.2).2) w'' -> Q (Err (Plain e)) w''
      end)) ->
  obeys ids (call m ≫= k) Q w.
Proof.
  intros H w' Hr Hb. destruct (H w' Hr Hb) as [Hg Hk]. split; [exact Hg|].
  specialize (Hk (proj1 Hg) _ eq_refl). unfold after. cbn [fst snd]. destruct ((m w'.2).1); exact Hk.
Qed.

Lemma obeys_ignored {A B} ids (m : M A) (k : unit -> srv B) Q w :
  (forall r, pricingRules (m r).2 = pricingRules r /\ pricingRuleVersions (m r).2 = pricingRuleVersions r) ->
  (forall w', relies ids w w' -> obeys ids (k tt) Q w') -> ok w ->
  obeys ids (ignored m ≫= k) Q w.
Proof.
  intros Hm Hk Hw w' Hr Hb. destruct (Hm w'.2) as [E1 E2].
  assert (Hg : guar ok later present ids w' (after m w').2) by (apply quiet_promise; [by destruct Hr|done..]).
  split; [exact Hg|]. apply Hk. eapply (rely_trans ok later present later_trans); [exact Hr|].
  destruct Hg as (Ho & Hl & Hp). split_and!; [done..|]. intros id Hid. unfold present, after. cbn [fst snd].
  by rewrite E1, E2.
Qed.

Lemma obeys_audit {B} ids d actor action type id summary (k : unit -> srv B) Q w :
  (forall w', relies ids w w' -> obeys ids (k tt) Q w') -> ok w ->
  obeys ids (audit d actor action type id summary ≫= k) Q w.
Proof. apply obeys_ignored. done. Qed.

Lemma obeys_refuse {B} ids c e (k : unit -> srv B) Q w :
  (c = false -> obeys ids (k tt) Q w) ->
  (c = true -> forall w', relies ids w w' -> Q (Err (Plain e)) w') ->
  obeys ids (refuse c e ≫= k) Q w.
Proof. destruct c; cbn; eauto. Qed.

Lemma obeys_engine {A B} ids (x : result Error A) (k : A -> srv B) Q w :
  match x with
  | Ok a => obeys ids (k a) Q w
  | Err e => forall w', relies ids w w' -> Q (Err (Pricing e)) w'
  end -> obeys ids (from_engine x ≫= k) Q w.
Proof. destruct x; cbn; eauto. Qed.

Lemma obeys_bind {A B} ids (p : srv A) (k : A -> srv B) Q w :
  obeys ids p (fun x w' => match x with
    | Ok a => obeys ids (k a) Q w'
    | Err e => forall w'', relies ids w' w'' -> Q (Err e) w''
    end) w ->
  ok w -> obeys ids (p ≫= k) Q w.
Proof.
  intros H Hw. apply holds_bind; [apply later_refl| |done].
  eapply holds_impl; [|exact H]. intros [a|e] w' _ Hx; [exact Hx|exact Hx].
Qed.

Notation relies_refl := (rely_refl ok later present later_refl) (only parsing).
Notation relies_trans := (rely_trans ok later present later_trans) (only parsing).

(** A detail is two reads: the rule, and later its versions. *)
Definition detail_read (w w3 : Z * MemoryRepository) (id : string) (detail : PricingRuleDetail.t) : Prop :=
  exists w1 w2 r, later w w1 /\ ok w1 /\ later w1 w2 /\ ok w2 /\ later w2 w3 /\
    pricingRules w1.2 !! TrimSpace id = Some r /\ PricingRuleDetail.Rule detail = r /\
    PricingRuleDetail.Draft detail = last_version is_draft (ListPricingRuleVersions (PricingRule.ID r) w2.2).

Lemma tick_later w : later w (w.1 + 1, w.2).
Proof. destruct (later_refl w) as [_ H2 H3]. split; cbn; [lia|done|done]. Qed.

Lemma relies_tick ids w : ok w -> relies ids w (w.1 + 1, w.2).
Proof. intros Hw. destruct (quiet_ok validated w (w.1 + 1) w.2 Hw) as (H1 & H2 & H3); [lia|done..|]. by split_and!. Qed.

Lemma detail_spec ids id w : ok w ->
  obeys ids (service_PricingRuleDetail id) (fun x w' => relies ids w w' /\
    match x with Ok detail => detail_read w w' id detail | Err _ => True end) w.
Proof.
  intros Hw. apply obeys_query. intros w1 H1.
  assert (H1' : relies ids w (w1.1 + 1, w1.2)) by (eapply relies_trans; [exact H1|apply relies_tick, H1]).
  unfold FindPricingRule. destruct (pricingRules w1.2 !! TrimSpace id) as [r|] eqn:Er.
  2: { intros w' Hr. split; [by eapply relies_trans|done]. }
  apply obeys_query. intros w2 H2. intros w' Hr.
  assert (H2' : relies ids (w1.1 + 1, w1.2) (w2.1 + 1, w2.2)) by (eapply relies_trans; [exact H2|apply relies_tick, H2]).
  split; [eapply relies_trans; [exact H1'|]; by eapply relies_trans|].
  exists w1, w2, r. destruct H1 as (O1 & L1 & _), H2 as (O2 & L2 & _), Hr as (_ & Lr & _).
  split_and!; try done.
  - eapply later_trans; [apply tick_later|exact L2].
  - eapply later_trans; [apply tick_later|exact Lr].
Qed.

Lemma last_version_Some p l v : last_version p l = Some v -> v ∈ l /\ p v = true.
Proof.
  unfold last_version. assert (H : forall l acc, foldl (fun found v => if p v then Some v else found) acc l = Some v ->
    acc = Some v \/ v ∈ l /\ p v = true).
  { clear l. induction l as [|x l IH]; intros acc; cbn; [by left|]. intros [Hx|[? ?]]%IH.
    - destruct (p x) eqn:Ex; [|by left]. injection Hx as <-. right. split; [by left|done].
    - right. split; [by right|done]. }
  intros [[=]|?]%H. done.
Qed.

Lemma elem_of_versions ruleID s v :
  v ∈ ListPricingRuleVersions ruleID s <->
  (exists vid, pricingRuleVersions s !! vid = Some v) /\ PricingRuleVersion.RuleID v = TrimSpace ruleID.
Proof.
  unfold ListPricingRuleVersions, clonePricingRuleVersion. rewrite elem_of_sort_by, map_id.
  rewrite list_elem_of_In, filter_In, <- list_elem_of_In, elem_of_map_values. unfold belongs.
  by rewrite String.eqb_eq.
Qed.

(** *** Creating *)

Notation anything := (fun _ _ => True).
Notation plain_draws d :=
  (plain_text (rule_suffix d) /\ plain_text (draft_suffix d)) (only parsing).

Lemma obeys_create models actor request d w :
  ok w -> plain_draws d ->
  (forall id, id ∈ ({[rule_id_of d; draft_id_of d]} : gset string) -> ~ present id w.2) ->
  obeys {[rule_id_of d; draft_id_of d]} (CreatePricingRule models actor request d) anything w.
Proof.
  intros Hw [Hp1 Hp2] Hfresh. unfold CreatePricingRule.
  destruct (normalizePricingRule _ _ _ _) as [new|e] eqn:En; [|done].
  assert (Hnew : PricingRule.ID new = rule_id_of d /\ forall n s, 1 <= n -> rule_ok (n, s) new).
  { unfold normalizePricingRule in En. destruct (_ || _) eqn:E1; [done|]. destruct (_ <>s "") eqn:E2; [done|].
    destruct (_ && _); [done|]. injection En as <-. boolify. split; [done|]. intros n s Hn.
    split; cbn; try done; [|by left]. apply TrimSpace_plain, plain_app; [done|exact Hp1]. }
  destruct Hnew as [Hid Hnew]. apply obeys_bind; [|done]. unfold validatePricingRuleSlot.
  apply obeys_refuse; [intros _|done]. apply obeys_query. intros w1 H1.
  assert (Hslot : forall c e, obeys {[rule_id_of d; draft_id_of d]} (refuse c e) (fun x w' => match x with
    | Ok _ => relies {[rule_id_of d; draft_id_of d]} w w' | Err _ => True end) (w1.1 + 1, w1.2)).
  { intros [] e w' Hr; [done|]. cbn. eapply relies_trans; [exact H1|]. eapply relies_trans; [apply relies_tick, H1|done]. }
  eapply holds_impl; [|apply Hslot]. intros [[]|e] w2 Hw2 Hr2; [|done].
  apply obeys_call. intros w3 Hr3 Hb. split; [|intros Hok [[]|] _; [by apply obeys_audit|done]].
  assert (Hr : relies {[rule_id_of d; draft_id_of d]} w w3) by by eapply relies_trans.
  apply create_promise; [apply Hr3|done|..|done].
  - rewrite Hid. set_solver.
  - cbn. set_solver.
  - cbn. apply eq_None_not_Some. intros Hs. apply (Hfresh (draft_id_of d)); [set_solver|].
    apply Hr; [set_solver|]. by right.
  - cbn. apply TrimSpace_plain, plain_app; [done|exact Hp2].
Qed.

(** *** Drafting *)

Lemma detail_pinned w w3 w4 id detail r4 :
  detail_read w w3 id detail -> later w3 w4 -> ok w4 ->
  pricingRules w4.2 !! PricingRule.ID (PricingRuleDetail.Rule detail) = Some r4 ->
  PricingRule.LockVersion (PricingRuleDetail.Rule detail) = PricingRule.LockVersion r4 ->
  r4 = PricingRuleDetail.Rule detail /\
  forall old, PricingRuleDetail.Draft detail = Some old ->
    pricingRuleVersions w4.2 !! PricingRuleVersion.ID old = Some old /\ is_draft old = true /\
    PricingRuleVersion.RuleID old = PricingRule.ID r4.
Proof.
  intros (w1 & w2 & r & _ & O1 & L12 & O2 & L23 & Hr & E & Hd) L34 O4 Hr4 El. rewrite E in *.
  pose proof (ok_rules_keyed _ _ O1 _ _ Hr) as Hid. cbn in Hid. rewrite <- Hid in Hr.
  destruct (later_rules _ _ L12 _ _ Hr) as (r2 & Hr2 & _).
  assert (L24 : later w2 w4) by by eapply later_trans.
  destruct (later_between w1 w2 w4 (PricingRule.ID r) r r2 r4) as (-> & -> & Hsame); [done..|].
  split; [done|]. intros old Ho. rewrite Hd in Ho.
  apply last_version_Some in Ho as [[[vid Hv] Hb]%elem_of_versions Hdraft].
  assert (Hrid : PricingRuleVersion.RuleID old = PricingRule.ID r).
  { rewrite Hb. apply (rule_id _ _ (ok_rules _ _ O1 _ _ Hr)). }
  pose proof (ok_versions_keyed _ _ O2 _ _ Hv) as Hk. cbn in Hk. rewrite Hk.
  split_and!; [by apply Hsame|done|done].
Qed.

Lemma obeys_update actor ruleID request d w :
  ok w -> plain_draws d -> (forall id, id ∈ ({[draft_id_of d]} : gset string) -> ~ present id w.2) ->
  obeys {[draft_id_of d]} (UpdatePricingRuleDraft actor ruleID request d) anything w.
Proof.
  intros Hw [_ Hp] Hfresh. unfold UpdatePricingRuleDraft. apply obeys_bind; [|done].
  eapply holds_impl; [|by apply detail_spec]. intros [detail|e] w3 O3 [H3 Hd]; [|done].
  set (current := PricingRuleDetail.Rule detail) in *.
  apply obeys_refuse; [intros El|done]. boolify. apply obeys_refuse; [intros _|done].
  set (new := set PricingRule.UpdatedAt _ _).
  assert (Hnew : PricingRule.ID new = PricingRule.ID current /\ PricingRule.Status new = PricingRule.Status current).
  { subst new. cbn. by destruct (_ <>s ""). }
  destruct Hnew as [Hid Hst]. set (draft := match PricingRuleDetail.Draft detail with Some _ => _ | None => _ end).
  apply obeys_call. intros w4 H4 Hb. split.
  2: { intros Hok [[updated|]|] _; [by apply obeys_audit|done..]. }
  assert (Hr : relies {[draft_id_of d]} w w4) by by eapply relies_trans.
  apply draft_promise; [apply Hr|done|..].
  - rewrite Hst. destruct Hd as (w1 & w2 & r & _ & O1 & _ & _ & _ & Hr1 & E & _). unfold current. rewrite E.
    apply (rule_status _ _ (ok_rules _ _ O1 _ _ Hr1)).
  - subst draft. destruct (PricingRuleDetail.Draft detail) as [old|] eqn:Eo; cbn.
    + destruct Hd as (w1 & w2 & r & _ & _ & _ & O2 & _ & _ & _ & Hd). rewrite Hd in Eo.
      apply last_version_Some in Eo as [[[vid Hv] _]%elem_of_versions _]. apply (version_id _ _ _ (ok_versions _ _ O2 _ _ Hv)).
    + apply TrimSpace_plain, plain_app; [done|exact Hp].
  - rewrite Hid. intros r4 Hr4 E4.
    destruct (detail_pinned w w3 w4 ruleID detail r4) as [-> Hold]; [done|apply H4|apply H4|done|unfold current in *; congruence|].
    subst draft. destruct (PricingRuleDetail.Draft detail) as [old|] eqn:Eo; cbn.
    + right. exists old. destruct (Hold old eq_refl) as (? & ? & ?). done.
    + left. split; [|set_solver]. apply eq_None_not_Some. intros Hs. apply (Hfresh (draft_id_of d)); [set_solver|].
      apply Hr; [set_solver|]. by right.
Qed.

(** *** The other methods *)

Lemma obeys_publish actor ruleID request d w :
  ok w -> obeys ∅ (PublishPricingRule Parse CompileExpr Run wrapCallError render Marshal actor ruleID request d) anything w.
Proof.
  intros Hw. unfold PublishPricingRule. apply obeys_bind; [|done].
  eapply holds_impl; [|by apply detail_spec]. intros [detail|e] w3 O3 _; [|done].
  apply obeys_refuse; [intros _|done]. apply obeys_query. intros w4 H4.
  destruct (FindPricingRuleVersion _ _) as [v|]; [|done].
  apply obeys_refuse; [intros _|done]. apply obeys_refuse; [intros _|done].
  apply obeys_engine. destruct (Compile _) as [compiled|] eqn:Ec; [|done].
  destruct (negb _) eqn:Ev; [by destruct (PricingValidationResult.Errors _)|]. boolify.
  apply obeys_call. intros w5 H5 Hb. split.
  - apply publish_promise; [apply H5|done|]. cbn. split; [done|]. by exists compiled.
  - intros Hok [[[updated published]|]|] _; [|done..].
    apply obeys_audit; [|done]. intros w6 [O6 _]. eapply holds_impl; [|by apply detail_spec]. done.
Qed.

Lemma obeys_activate actor ruleID vid lock d w :
  ok w -> obeys ∅ (ActivatePricingRuleVersion actor ruleID vid lock d) anything w.
Proof.
  intros Hw. apply obeys_call. intros w1 H1 Hb. split; [apply activate_promise; [apply H1|done]|].
  intros Hok [[updated|]|] _; [|done..]. intros w2 H2 Hb2. split; [|done].
  apply quiet_promise; [apply H2|done..].
Qed.

Lemma obeys_disable actor ruleID lock d w :
  ok w -> obeys ∅ (DisablePricingRule actor ruleID lock d) anything w.
Proof.
  intros Hw. apply obeys_call. intros w1 H1 Hb. split; [apply status_promise; [apply H1|done|done]|].
  intros Hok [[updated|]|] _; [|done..]. intros w2 H2 Hb2. split; [|done].
  apply quiet_promise; [apply H2|done..].
Qed.

Lemma obeys_list q w : ok w -> obeys ∅ (ListPricingRules q) anything w.
Proof. intros Hw. by apply obeys_query. Qed.

Lemma obeys_version_detail id w : ok w -> obeys ∅ (PricingRuleVersionDetail id) anything w.
Proof.
  intros Hw. apply obeys_query. intros w1 H1. destruct (FindPricingRuleVersion _ _); [|done].
  apply obeys_query. intros w2 H2. by destruct (FindPricingRule _ _).
Qed.

Lemma obeys_detail id w : ok w -> obeys ∅ (service_PricingRuleDetail id) anything w.
Proof. intros Hw. eapply holds_impl; [|by apply detail_spec]. done. Qed.

Lemma obeys_simulate request w :
  ok w -> obeys ∅ (SimulatePricing Parse CompileExpr Run wrapCallError render Marshal request) anything w.
Proof.
  intros Hw. apply obeys_bind; [|done]. apply (holds_impl max_int64 ok later present ∅ _ (fun _ _ => True)).
  - intros [compiled|e] w1 O1 _; [|done]. apply obeys_refuse; [intros _|done].
    unfold from_engine. by destruct (engine_Evaluate _ _ _ _ _ _).
  - destruct (_ <>s ""); [|by destruct (Compile _)]. apply obeys_query. intros w1 H1.
    destruct (FindPricingRuleVersion _ _); [|done]. unfold from_engine. by destruct (engine_CompileByHash _ _ _ _).
Qed.

(** *** Selection *)

(** The rule for a model: the one for exactly this model, or else the one for
    every model. *)
Definition priced_by (model : string) (r : rule) : bool :=
  (PricingRule.Status r =s PricingRuleStatusActive) && (PricingRule.Model r =s model).

Definition selection_of (model : string) (s : MemoryRepository) : option (PricingSelection (VMProgram := VMProgram)) :=
  r ← match find_value (priced_by model) (pricingRules s) with
      | Some r => Some r
      | None => find_value (priced_by "*") (pricingRules s)
      end;
  if PricingRule.ActiveVersionID r =s "" then None else
  v ← pricingRuleVersions s !! PricingRule.ActiveVersionID r;
  match Compile (PricingRuleVersion.Expression v) with
  | Ok compiled => Some (mkSelection r v compiled (PricingRuleVersion.ExpressionHash v))
  | Err _ => None
  end.

Definition exact_for (model : string) (r : rule) : bool := eligible model r && (PricingRule.Model r =s model).

Lemma select_fold model l :
  (foldl (select_rule model) (None, -1) l).1 =
  match List.find (exact_for model) l with Some r => Some r | None => List.find (eligible model) l end.
Proof.
  assert (H1 : forall l r, foldl (select_rule model) (Some r, 1) l = (Some r, 1)).
  { clear l. induction l as [|x l IH]; intros r; cbn; [done|].
    destruct (eligible model x), (PricingRule.Model x =s model); cbn; apply IH. }
  assert (H0 : forall l r, (foldl (select_rule model) (Some r, 0) l).1 =
    match List.find (exact_for model) l with Some r' => Some r' | None => Some r end).
  { clear l. induction l as [|x l IH]; intros r; cbn; [done|]. unfold exact_for at 1.
    destruct (eligible model x), (PricingRule.Model x =s model); cbn; by rewrite ?H1, ?IH. }
  induction l as [|x l IH]; cbn; [done|]. unfold exact_for at 1.
  destruct (eligible model x), (PricingRule.Model x =s model); cbn; by rewrite ?H1, ?H0, ?IH.
Qed.

(** With one rule for each model, the order of the list does not matter. *)
Lemma find_unique (p q : rule -> bool) model w l :
  ok w -> (forall r, r ∈ l <-> r ∈ map_values (pricingRules w.2)) ->
  (forall r, r ∈ l -> p r = q r) -> (forall r, r ∈ l -> p r = true -> PricingRule.Model r = model) ->
  List.find p l = find_value q (pricingRules w.2).
Proof.
  intros Hw Hl Hpq Hm. destruct (find_value q (pricingRules w.2)) as [r|] eqn:Eq.
  - apply find_value_Some in Eq as [[id Hr] Hq].
    assert (Hin : r ∈ l) by (apply Hl, elem_of_map_values; eauto). rewrite <- (Hpq r Hin) in Hq.
    destruct (List.find p l) as [r'|] eqn:Ep.
    + apply List.find_some in Ep as [Hin' Hp']. apply list_elem_of_In in Hin'.
      pose proof (proj1 (Hl r') Hin') as [id' Hr']%elem_of_map_values.
      assert (id' = id) as ->; [|congruence].
      eapply (ok_slots _ _ Hw); [done..|]. by rewrite (Hm r'), (Hm r).
    + apply list_elem_of_In in Hin. pose proof (List.find_none _ _ Ep _ Hin). congruence.
  - destruct (List.find p l) as [r'|] eqn:Ep; [|done].
    apply List.find_some in Ep as [Hin' Hp']. apply list_elem_of_In in Hin'. rewrite (Hpq r' Hin') in Hp'.
    pose proof (proj1 (Hl r') Hin') as [id' Hr']%elem_of_map_values.
    rewrite find_value_None in Eq. by rewrite (Eq _ _ Hr') in Hp'.
Qed.

Lemma selected_rule model w : ok w ->
  (foldl (select_rule model) (None, -1) (PricingCatalog.ListPricingRules w.2)).1 =
  match find_value (priced_by model) (pricingRules w.2) with
  | Some r => Some r
  | None => find_value (priced_by "*") (pricingRules w.2)
  end.
Proof.
  intros Hw. rewrite select_fold. unfold PricingCatalog.ListPricingRules. set (l := sort_by _ _).
  assert (Hl : forall r, r ∈ l <-> r ∈ map_values (pricingRules w.2)) by (intros; apply elem_of_sort_by).
  assert (Helig : forall m r, r ∈ l -> eligible m r =
    (PricingRule.Status r =s PricingRuleStatusActive) && ((PricingRule.Model r =s m) || (PricingRule.Model r =s "*"))).
  { intros m r [id Hr]%Hl%elem_of_map_values. destruct (ok_rules _ _ Hw _ _ Hr) as [P [S1 S2] _ _ _ _].
    unfold eligible. rewrite P, S1, S2, !String.eqb_refl.
    by destruct (PricingRule.Status r =s _), (PricingRule.Model r =s m), (PricingRule.Model r =s "*"). }
  assert (Hexact : List.find (exact_for model) l = find_value (priced_by model) (pricingRules w.2)).
  { apply (find_unique _ _ model w); [done|done| |].
    - intros r Hr. unfold exact_for, priced_by. rewrite (Helig model r Hr).
      by destruct (PricingRule.Status r =s _), (PricingRule.Model r =s model), (PricingRule.Model r =s "*").
    - intros r _. unfold exact_for. intros [_ ?%String.eqb_eq]%andb_true_iff. done. }
  rewrite Hexact. destruct (find_value (priced_by model) _) eqn:Ef; [done|]. rewrite find_value_None in Ef.
  assert (Hno : forall r, r ∈ l -> eligible model r = priced_by "*" r).
  { intros r Hr. rewrite (Helig model r Hr). unfold priced_by. pose proof (proj1 (Hl r) Hr) as [id Hr']%elem_of_map_values.
    specialize (Ef _ _ Hr'). unfold priced_by in Ef.
    by destruct (PricingRule.Status r =s _), (PricingRule.Model r =s model). }
  apply (find_unique _ _ "*"%string w); [done..|].
  intros r Hr. rewrite (Hno r Hr). intros [_ ?%String.eqb_eq]%andb_true_iff. done.
Qed.

(** A published version compiles by the hash that is stored with it. *)
Lemma published_compiles v : validated (content v) ->
  exists compiled, Compile (PricingRuleVersion.Expression v) = Ok compiled /\
    engine_CompileByHash Parse CompileExpr (PricingRuleVersion.Expression v) (PricingRuleVersion.ExpressionHash v) = Ok compiled.
Proof.
  intros [_ (compiled & Hc & Hh & _)]. exists compiled. split; [done|]. unfold engine_CompileByHash.
  rewrite Hh. assert (RuleHash compiled = ExpressionHash (PricingRuleVersion.Expression v)) as ->.
  { unfold engine_Compile, compileV1 in Hc. run_inv. repeat (case_match; simplify_eq; run_inv); done. }
  unfold ExpressionHash. rewrite (TrimSpace_plain _ (hash_plain _)). unfold hashAPIKey.
  change (EncodeToString (Sum256 ?x)) with (sha256_hex x). by rewrite hash_lower, String.eqb_refl.
Qed.

Lemma select_spec ids model w : ok w ->
  obeys ids (SelectPricingRule Parse CompileExpr model) (fun x w' =>
    exists w1, later w w1 /\ later w1 w' /\ x = Ok (selection_of model w1.2)) w.
Proof.
  intros Hw. apply obeys_query. intros w1 (O1 & L1 & _). rewrite selected_rule by done.
  assert (Hdone : forall x, x = selection_of model w1.2 -> obeys ids (mret x : srv _) (fun x w' =>
    exists w1, later w w1 /\ later w1 w' /\ x = Ok (selection_of model w1.2)) (w1.1 + 1, w1.2)).
  { intros x -> w' (_ & L & _). exists w1. split_and!; [done| |done]. eapply later_trans; [apply tick_later|exact L]. }
  assert (Hsel : selection_of model w1.2 = selection_of model w1.2) by done.
  unfold selection_of in Hsel at 2.
  destruct (match find_value (priced_by model) _ with Some _ => _ | None => _ end) as [r|] eqn:Es; [|by apply Hdone].
  cbn [mbind option_bind] in *. destruct (_ =s "") eqn:Ea; [by apply Hdone|]. boolify.
  assert (Hr : exists id, pricingRules w1.2 !! id = Some r).
  { destruct (find_value (priced_by model) _) as [r'|] eqn:Ef; simplify_eq.
    - by apply find_value_Some in Ef as [? _].
    - by apply find_value_Some in Es as [? _]. }
  destruct Hr as [id Hr]. destruct (rule_active _ _ (ok_rules _ _ O1 _ _ Hr)) as [?|(v & Hv & _ & Hp)]; [done|].
  destruct (ok_versions _ _ O1 _ _ Hv) as [_ Ht Hs].
  pose proof (ok_versions_keyed _ _ O1 _ _ Hv) as Hk. cbn in Hk. rewrite Hk in Ht.
  destruct Hs as [Hd|(_ & _ & Hval)]; [by rewrite (draft_not_published v Hd) in Hp|].
  apply obeys_query. intros w2 (O2 & L2 & _).
  assert (L2' : later w1 w2) by (eapply later_trans; [apply tick_later|exact L2]).
  unfold FindPricingRuleVersion, clonePricingRuleVersion.
  rewrite Ht, (later_published _ _ L2' _ _ Hv Hp). cbn [fmap option_fmap option_map].
  unfold is_published in Hp. rewrite Hp. cbn [negb].
  destruct (published_compiles v Hval) as (compiled & Hc & ->). cbn. intros w3 (_ & L3 & _).
  rewrite Hv in Hsel. cbn in Hsel. rewrite Hc in Hsel. exists w1. split_and!; [done| |by rewrite Hsel].
  eapply later_trans; [exact L2'|]. eapply later_trans; [apply tick_later|exact L3].
Qed.

Lemma obeys_estimate model inputTokens outputTokens w : ok w ->
  obeys ∅ (EstimateModelUsageCostMicros Parse CompileExpr Run wrapCallError render Marshal
             model inputTokens outputTokens) anything w.
Proof.
  intros Hw. apply obeys_bind; [|done]. eapply holds_impl; [|by apply select_spec].
  intros [[selection|]|e] w1 O1 _; [|done..]. apply obeys_engine. by destruct (engine_Evaluate _ _ _ _ _ _).
Qed.

(** ** The calls under way *)

Inductive pricing_calls : thread MemoryRepository -> Prop :=
| Call_ListPricingRules q : pricing_calls (mkThread ∅ _ (ListPricingRules q))
| Call_PricingRuleVersionDetail id : pricing_calls (mkThread ∅ _ (PricingRuleVersionDetail id))
| Call_CreatePricingRule models actor request d :
    plain_draws d ->
    pricing_calls (mkThread {[rule_id_of d; draft_id_of d]} _ (CreatePricingRule models actor request d))
| Call_PricingRuleDetail id : pricing_calls (mkThread ∅ _ (service_PricingRuleDetail id))
| Call_UpdatePricingRuleDraft actor ruleID request d :
    plain_draws d ->
    pricing_calls (mkThread {[draft_id_of d]} _ (UpdatePricingRuleDraft actor ruleID request d))
| Call_SimulatePricing request :
    pricing_calls (mkThread ∅ _ (SimulatePricing Parse CompileExpr Run wrapCallError render Marshal request))
| Call_PublishPricingRule actor ruleID request d :
    pricing_calls (mkThread ∅ _ (PublishPricingRule Parse CompileExpr Run wrapCallError render Marshal
      actor ruleID request d))
| Call_ActivatePricingRuleVersion actor ruleID versionID lock d :
    pricing_calls (mkThread ∅ _ (ActivatePricingRuleVersion actor ruleID versionID lock d))
| Call_DisablePricingRule actor ruleID lock d :
    pricing_calls (mkThread ∅ _ (DisablePricingRule actor ruleID lock d))
| Call_SelectPricingRule model : pricing_calls (mkThread ∅ _ (SelectPricingRule Parse CompileExpr model))
| Call_EstimateModelUsageCostMicros model inputTokens outputTokens :
    pricing_calls (mkThread ∅ _ (EstimateModelUsageCostMicros Parse CompileExpr Run wrapCallError render Marshal
      model inputTokens outputTokens)).

(** The other components leave the two maps of the catalogue alone. *)
Definition elsewhere (s s' : MemoryRepository) : Prop :=
  pricingRules s' = pricingRules s /\ pricingRuleVersions s' = pricingRuleVersions s.

Notation steps := (pool_steps max_int64 pricing_calls elsewhere).
Definition start : pool MemoryRepository := mkPool (0, NewMemoryRepository) ∅ [].

Lemma calls_obey : calls_hold max_int64 ok later present pricing_calls.
Proof.
  intros t w Ht Hw Hfresh. destruct Ht; cbn [owned code answer] in *.
  - by apply obeys_list.
  - by apply obeys_version_detail.
  - by apply obeys_create.
  - by apply obeys_detail.
  - by apply obeys_update.
  - by apply obeys_simulate.
  - by apply obeys_publish.
  - by apply obeys_activate.
  - by apply obeys_disable.
  - eapply holds_impl; [|by apply select_spec]. done.
  - by apply obeys_estimate.
Qed.

Lemma elsewhere_quiet : outside_quiet ok later present elsewhere.
Proof. intros n s s' [E1 E2] Hok. by apply (quiet_ok validated (n, s) n s' Hok). Qed.

Lemma start_ok : pool_ok max_int64 ok later present start.
Proof.
  split; cbn; [|intros id [[r H]|[v H]]; cbn in H; by rewrite lookup_empty in H|constructor..].
  split; cbn; [done|apply keyed_empty..| | | |]; intros *; rewrite lookup_empty; discriminate.
Qed.

Lemma pool_steps_ok P P' : pool_ok max_int64 ok later present P -> steps P P' ->
  pool_ok max_int64 ok later present P' /\ later (world P) (world P').
Proof.
  intros HP Hs. eapply (pool_sound _ _ _ _ later_refl later_trans); [apply calls_obey|apply elsewhere_quiet|done|done].
Qed.

(** ** Properties *)

Lemma pool_reachable_ok P : steps start P -> pool_ok max_int64 ok later present P.
Proof. intros Hs. by apply (pool_steps_ok start P start_ok). Qed.

(** A write with lock version [lock] that succeeds on rule [ruleID]. *)
Inductive accepted (ruleID : string) (lock : Z) (s : MemoryRepository) : MemoryRepository -> Prop :=
| Accepted_SavePricingRuleDraft new draft r s' :
    PricingRule.ID new = ruleID -> SavePricingRuleDraft new draft lock s = (Ok (Some r), s') ->
    accepted ruleID lock s s'
| Accepted_PublishPricingRuleVersion v active x s' :
    PricingRuleVersion.RuleID v = ruleID -> PublishPricingRuleVersion v lock active s = (Ok (Some x), s') ->
    accepted ruleID lock s s'
| Accepted_ActivatePricingRuleVersion versionID actor t r s' :
    PricingCatalog.ActivatePricingRuleVersion ruleID versionID lock actor t s = (Ok (Some r), s') ->
    accepted ruleID lock s s'
| Accepted_SetPricingRuleStatus status actor t r s' :
    SetPricingRuleStatus ruleID status lock actor t s = (Ok (Some r), s') ->
    accepted ruleID lock s s'.

Lemma keyed_update (s s' : MemoryRepository) ruleID r' :
  keyed PricingRule.ID (pricingRules s) -> pricingRules s' = <[ruleID := r']> (pricingRules s) ->
  PricingRule.ID r' = ruleID ->
  keyed PricingRule.ID (pricingRules s') /\ pricingRules s' !! ruleID = Some r'.
Proof. intros Hk -> Hid. split; [by apply keyed_insert|apply lookup_insert_eq]. Qed.

Lemma accepted_inv ruleID lock s s' : keyed PricingRule.ID (pricingRules s) -> accepted ruleID lock s s' ->
  exists r r', pricingRules s !! ruleID = Some r /\ PricingRule.LockVersion r = lock /\
    PricingRule.LockVersion r' = lock +i 1 /\
    keyed PricingRule.ID (pricingRules s') /\ pricingRules s' !! ruleID = Some r'.
Proof.
  intros Hk [new draft r s1 <- H|v active x s1 <- H|vid actor t r s1 H|status actor t r s1 H].
  - unfold SavePricingRuleDraft in H. m_inv H. destruct (pricingRules s !! _) as [r0|] eqn:E0; [|by m_inv H].
    destruct (negb _) eqn:El; [by m_inv H|]. m_inv H. boolify. exists r0. eexists.
    split_and!; [done|done| |by eapply keyed_update..]. cbn. by rewrite El.
  - unfold PublishPricingRuleVersion in H. m_inv H. destruct (pricingRules s !! _) as [r0|] eqn:E0; [|by m_inv H].
    destruct (_ || _) eqn:El; [by m_inv H|]. destruct (pricingRuleVersions s !! _); [|by m_inv H]. m_inv H. boolify.
    pose proof (Hk _ _ E0) as Hid. cbn in Hid. exists r0. eexists.
    split_and!; [done|done| |rewrite Hid; by eapply keyed_update..]. cbn. congruence.
  - unfold PricingCatalog.ActivatePricingRuleVersion in H. m_inv H.
    destruct (pricingRules s !! _) as [r0|] eqn:E0; [|by m_inv H].
    destruct (pricingRuleVersions s !! _); [|by m_inv H]. destruct (_ || _) eqn:El; [by m_inv H|]. m_inv H. boolify.
    pose proof (Hk _ _ E0) as Hid. exists r0. eexists.
    split_and!; [done|done| |by eapply keyed_update..]. cbn. congruence.
  - unfold SetPricingRuleStatus in H. m_inv H. destruct (pricingRules s !! _) as [r0|] eqn:E0; [|by m_inv H].
    destruct (negb _) eqn:El; [by m_inv H|]. m_inv H. boolify. pose proof (Hk _ _ E0) as Hid. exists r0. eexists.
    split_and!; [done|done| |by eapply keyed_update..]. cbn. congruence.
Qed.

Lemma next_lock l : l +i 1 <> l.
Proof.
  unfold wrap64, min_int64, two64. intros E.
  pose proof (Z.div_mod (l + 1 - -9223372036854775808) 18446744073709551616). lia.
Qed.

(** Whatever calls run, and however their critical sections interleave, a
    model has one rule; the active version of a rule is one of its published
    versions; a rule has one draft at most and no two publications of one
    revision; and what is published compiles to what is recorded of it and passed
    its test cases. *)
Theorem catalogue_invariant P : steps start P ->
  let s := (world P).2 in
  (forall id1 id2 r1 r2, pricingRules s !! id1 = Some r1 -> pricingRules s !! id2 = Some r2 ->
     PricingRule.Model r1 = PricingRule.Model r2 -> id1 = id2) /\
  (forall id r, pricingRules s !! id = Some r -> PricingRule.ActiveVersionID r = ""%string \/
     exists v, pricingRuleVersions s !! PricingRule.ActiveVersionID r = Some v /\
       PricingRuleVersion.RuleID v = id /\ is_published v = true) /\
  (forall id1 id2 v1 v2, pricingRuleVersions s !! id1 = Some v1 -> pricingRuleVersions s !! id2 = Some v2 ->
     rival v1 v2 -> id1 = id2) /\
  (forall id v, pricingRuleVersions s !! id = Some v -> is_published v = true -> validated (content v)).
Proof.
  intros HP. destruct (pool_reachable_ok P HP) as [Hw _ _ _ _]. cbv zeta. split_and!.
  - apply (ok_slots _ _ Hw).
  - intros id r Hr. pose proof (ok_rules_keyed _ _ Hw _ _ Hr) as Hk. cbn in Hk.
    rewrite <- Hk. apply (rule_active _ _ (ok_rules _ _ Hw _ _ Hr)).
  - apply (ok_rivals _ _ Hw).
  - intros id v Hv Hp. destruct (ok_versions _ _ Hw _ _ Hv) as [_ _ [Hd|(_ & _ & ?)]]; [|done].
    by rewrite (draft_not_published v Hd) in Hp.
Qed.

(** C3. A published version never changes again, whatever calls are under way when
    it is published and whatever comes later; and a rule is never removed and
    never priced for another model. *)
Theorem published_immutable P P' :
  steps start P -> steps P P' ->
  (forall id v, pricingRuleVersions (world P).2 !! id = Some v -> is_published v = true ->
     pricingRuleVersions (world P').2 !! id = Some v) /\
  (forall id r, pricingRules (world P).2 !! id = Some r ->
     exists r', pricingRules (world P').2 !! id = Some r' /\ pricingRuleSameSlot r r' = true).
Proof.
  intros HP HP'. destruct (pool_steps_ok P P' (pool_reachable_ok P HP) HP') as [_ L]. split; [apply L|].
  intros id r Hr. destruct (later_rules _ _ L _ _ Hr) as (r' & Hr' & Hs & _). eauto.
Qed.

(** C24. No update is lost: a write is accepted with the lock version of a rule read
    earlier only if the rule and its versions are still as they were then; and
    then no second write is accepted with it. *)
Theorem no_lost_update P P' ruleID r s' :
  steps start P -> steps P P' -> pricingRules (world P).2 !! ruleID = Some r ->
  accepted ruleID (PricingRule.LockVersion r) (world P').2 s' ->
  pricingRules (world P').2 !! ruleID = Some r /\
  (forall vid v, PricingRuleVersion.RuleID v = ruleID ->
     pricingRuleVersions (world P).2 !! vid = Some v <-> pricingRuleVersions (world P').2 !! vid = Some v) /\
  (forall s'', ~ accepted ruleID (PricingRule.LockVersion r) s' s'').
Proof.
  intros HP HP' Hr Ha. destruct (pool_steps_ok P P' (pool_reachable_ok P HP) HP') as [[Hw _ _ _ _] L].
  destruct (accepted_inv _ _ _ _ (ok_rules_keyed _ _ Hw) Ha) as (r1 & r2 & H1 & E1 & E2 & Hk & H2).
  destruct (later_pinned _ _ _ _ _ L Hr H1) as [-> Hsame]; [done|]. split_and!; [done|exact Hsame|].
  intros s'' Ha'. destruct (accepted_inv _ _ _ _ Hk Ha') as (r3 & _ & H3 & E3 & _).
  apply (next_lock (PricingRule.LockVersion r)). congruence.
Qed.

(** Selecting the rule for a model is atomic and never fails: its two reads,
    with any calls between them, answer what one look at the catalogue at one
    moment of the call gives - the active version of the active rule for exactly
    this model, or else for all models, compiled. *)
Theorem selection_atomic P model : steps start P ->
  holds max_int64 ok later present ∅ (SelectPricingRule Parse CompileExpr model) (fun x w' =>
    exists w1, later (world P) w1 /\ later w1 w' /\ x = Ok (selection_of model w1.2)) (world P).
Proof. intros HP. by apply select_spec, (pool_world _ _ _ _ _ (pool_reachable_ok P HP)). Qed.
End Proofs.

(** ** Witnesses *)

(** A rule is created, its draft published, and a new draft saved, with every
    call running to its end. *)
Module Demo.
#[local] Existing Instance canonical_range.
Definition no_lower : UnicodeCase := fun s => s.
Definition no_upper : UnicodeUpper := fun s => s.
#[local] Existing Instance no_lower.
#[local] Existing Instance no_upper.
Definition parse (_ : string) : result string Node := Ok (IntegerNode 0).
Definition compile (_ : string) : result string unit := Ok tt.
Definition run (_ : unit) (_ : gmap string value) : script := Return (VInt64 0).
Definition wrap (e : Error) : run_error := PricingError e.
Definition show (_ : message) : string := "".
Definition marshal (_ : Facts) : result string string := Ok "{}"%string.

Definition d1 : draws := mkDraws "r1" "v1" "a1" 10 10.
Definition d2 : draws := mkDraws "r2" "v2" "a2" 20 20.
Definition d3 : draws := mkDraws "r3" "v3" "a3" 30 30.
Definition request : PricingRuleCreateRequest.t :=
  PricingRuleCreateRequest.mk "Zero" "usage_cost" "global" "" "m" "usd" "raw" "v1:0" [].
Definition publish : PricingPublishRequest.t := PricingPublishRequest.mk "pdraft_v1" 1 "" "".
Definition redraft : PricingDraftUpdateRequest.t := PricingDraftUpdateRequest.mk 2 "" "" "raw" "v1:1" [].

Definition t1 : thread MemoryRepository :=
  mkThread {[rule_id_of d1; draft_id_of d1]} _ (CreatePricingRule ["m"%string] "admin" request d1).
Definition t2 : thread MemoryRepository :=
  mkThread ∅ _ (PublishPricingRule parse compile run wrap show marshal "admin" "prule_r1" publish d2).
Definition t3 : thread MemoryRepository :=
  mkThread {[draft_id_of d3]} _ (UpdatePricingRuleDraft "admin" "prule_r1" redraft d3).

Definition finished (t : thread MemoryRepository) (P : pool MemoryRepository) : pool MemoryRepository :=
  mkPool (run_in (code t) (world P)).2 (owned t ∪ used P)
    (mkThread (owned t) (answer t) (Ret (run_in (code t) (world P)).1) :: threads P).
Definition P1 := finished t1 start.
Definition P2 := finished t2 P1.
Definition P3 := finished t3 P2.
Notation steps := (pool_steps max_int64 (pricing_calls parse compile run wrap show marshal) elsewhere).

Lemma steps_to_2 : steps start P2.
Proof.
  eapply pool_steps_trans; apply call_runs; [constructor; by vm_compute|set_solver|vm_compute; discriminate| |set_solver|].
  - constructor.
  - vm_compute. discriminate.
Qed.

Lemma steps_to_3 : steps P2 P3.
Proof.
  apply call_runs; [constructor; by vm_compute|..].
  - apply (bool_decide_unpack _). vm_compute. reflexivity.
  - vm_compute. discriminate.
Qed.

Definition published : version :=
  default PricingRuleVersion.zero (pricingRuleVersions (world P2).2 !! "pdraft_v1"%string).
Definition drafted : rule := default PricingRule.zero (pricingRules (world P2).2 !! "prule_r1"%string).

(** The selection after the publication. *)
Example selects : exists s, selection_of parse compile "m" (world P3).2 = Some s /\
  SelectedVersion s = published /\ PricingRuleVersion.Revision published = 1.
Proof. eexists. vm_compute. split_and!; reflexivity. Qed.
End Demo.

Lemma catalogue_invariant_witness : exists id v,
  pricingRuleVersions (world Demo.P2).2 !! id = Some v /\ is_published v = true /\
  validated Demo.parse Demo.compile Demo.run Demo.wrap Demo.show Demo.marshal (content v).
Proof.
  exists "pdraft_v1"%string, Demo.published.
  assert (H : pricingRuleVersions (world Demo.P2).2 !! "pdraft_v1"%string = Some Demo.published)
    by (vm_compute; reflexivity).
  split; [exact H|]. split; [vm_compute; reflexivity|].
  eapply (catalogue_invariant (range := canonical_range) (unicode := Demo.no_lower) (upper := Demo.no_upper)
    _ _ _ _ _ _ _ Demo.steps_to_2); [exact H|vm_compute; reflexivity].
Defined.

Lemma published_immutable_witness :
  pricingRuleVersions (world Demo.P2).2 !! "pdraft_v1"%string = Some Demo.published /\
  pricingRuleVersions (world Demo.P3).2 !! "pdraft_v1"%string = Some Demo.published.
Proof.
  assert (H : pricingRuleVersions (world Demo.P2).2 !! "pdraft_v1"%string = Some Demo.published)
    by (vm_compute; reflexivity).
  split; [exact H|].
  apply (published_immutable (range := canonical_range) (unicode := Demo.no_lower) (upper := Demo.no_upper)
    _ _ _ _ _ _ _ _ Demo.steps_to_2 Demo.steps_to_3); [exact H|vm_compute; reflexivity].
Defined.

Lemma no_lost_update_witness :
  let s := (world Demo.P2).2 in
  let written := (SetPricingRuleStatus "prule_r1" PricingRuleStatusDisabled 2 "admin" 40 s).2 in
  pricingRules s !! "prule_r1"%string = Some Demo.drafted /\
  forall s'', ~ accepted (range := canonical_range) "prule_r1" 2 written s''.
Proof.
  cbv zeta. assert (H : pricingRules (world Demo.P2).2 !! "prule_r1"%string = Some Demo.drafted)
    by (vm_compute; reflexivity).
  split; [exact H|]. assert (El : PricingRule.LockVersion Demo.drafted = 2) by (vm_compute; reflexivity).
  rewrite <- El.
  eapply (no_lost_update (range := canonical_range) (unicode := Demo.no_lower) (upper := Demo.no_upper)
    _ _ _ _ _ _ Demo.P2 Demo.P2 _ _ _ Demo.steps_to_2); [apply Steps_refl|exact H|].
  eapply (Accepted_SetPricingRuleStatus _ _ _ PricingRuleStatusDisabled "admin" 40). rewrite El. vm_compute. reflexivity.
Defined.

Lemma selection_atomic_witness :
  holds max_int64 (catalogue_ok (validated Demo.parse Demo.compile Demo.run Demo.wrap Demo.show Demo.marshal))
    later present ∅ (SelectPricingRule (range := canonical_range) (unicode := Demo.no_lower) Demo.parse Demo.compile "m")
    (fun x w' => exists w1, later (world Demo.P2) w1 /\ later w1 w' /\
       x = Ok (selection_of (range := canonical_range) Demo.parse Demo.compile "m" w1.2)) (world Demo.P2).
Proof.
  exact (selection_atomic (range := canonical_range) (unicode := Demo.no_lower) (upper := Demo.no_upper)
    _ _ _ _ _ _ Demo.P2 "m" Demo.steps_to_2).
Defined.
