(* ===== verification/JobModel.v ===== *)
(** * Durable jobs: status machine, transition records, admission limits

    [backend/internal/controlplane/ai_job_model.go], [ai_job_admission.go], and
    the functions of [ai_job_repository.go] that prepare a transition: the new
    job, its event and its outbox event. *)

From S2P Require Import Prelude Sha256 Repository.
From Stdlib Require Import Ascii.

(** ** The status machine ([ai_job_model.go]) *)

Definition ErrAIJobNotCancelable : go_error := ErrNew "ai job is not cancelable".
Definition ErrAIJobStateConflict : go_error := ErrNew "ai job state changed concurrently".

Definition aiJobOwnerMatches (job : AIJob.t) (owner : AIJobOwner.t) : bool :=
  (AIJob.ApplicationID job =s AIJobOwner.ApplicationID owner)
  && (AIJob.IntegrationID job =s AIJobOwner.IntegrationID owner)
  && (AIJob.PrincipalType job =s AIJobOwner.PrincipalType owner)
  && (AIJob.PrincipalID job =s AIJobOwner.PrincipalID owner)
  && (AIJob.ExternalSubjectReference job =s AIJobOwner.ExternalSubjectReference owner).

Definition aiJobStatusTransitionAllowed (fromStatus toStatus reason : string) : bool :=
  if fromStatus =s AIJobStatusAccepted then
    (toStatus =s AIJobStatusQueued) || (toStatus =s AIJobStatusCanceled)
  else if fromStatus =s AIJobStatusQueued then
    (toStatus =s AIJobStatusDispatching) || (toStatus =s AIJobStatusCanceled)
  else if fromStatus =s AIJobStatusDispatching then
    oneOf toStatus [AIJobStatusQueued; AIJobStatusRunning; AIJobStatusUnknown; AIJobStatusCanceling]
  else if fromStatus =s AIJobStatusRunning then
    oneOf toStatus [AIJobStatusSucceeded; AIJobStatusFailed; AIJobStatusCanceling; AIJobStatusUnknown]
  else if fromStatus =s AIJobStatusCanceling then
    oneOf toStatus [AIJobStatusCanceled; AIJobStatusSucceeded; AIJobStatusFailed]
  else if fromStatus =s AIJobStatusUnknown then
    if toStatus =s AIJobStatusQueued then TrimSpace reason =s "proven_not_created"
    else oneOf toStatus [AIJobStatusRunning; AIJobStatusSucceeded; AIJobStatusFailed]
  else if oneOf fromStatus [AIJobStatusSucceeded; AIJobStatusFailed; AIJobStatusCanceled] then
    toStatus =s AIJobStatusExpired
  else false.

Definition aiJobEventType (status : string) : string :=
  if status =s AIJobStatusQueued then AIJobEventQueued
  else if status =s AIJobStatusDispatching then AIJobEventScheduled
  else if status =s AIJobStatusRunning then AIJobEventRunning
  else if status =s AIJobStatusCanceling then AIJobEventCancelling
  else if status =s AIJobStatusCanceled then AIJobEventCancelled
  else if status =s AIJobStatusSucceeded then AIJobEventCompleted
  else if status =s AIJobStatusFailed then AIJobEventFailed
  else if status =s AIJobStatusUnknown then AIJobEventUnknown
  else if status =s AIJobStatusExpired then AIJobEventExpired
  else "".

Definition aiJobTerminalStatus (status : string) : bool :=
  oneOf status [AIJobStatusSucceeded; AIJobStatusFailed; AIJobStatusCanceled; AIJobStatusExpired].

(** ** Transition records ([ai_job_repository.go]) *)

(** [json.Marshal] of a string: plain printable ASCII is quoted as it is, and
    the package's escapes are a parameter for other strings. *)
Class JSONText := json_escaped : string -> string.
Definition quote : string := String (ascii_of_nat 34) "".
Definition json_plain (a : ascii) : bool :=
  ascii_in a 32 126
  && negb (ascii_in a 34 34 || ascii_in a 92 92 || ascii_in a 60 60 || ascii_in a 62 62 || ascii_in a 38 38).
Definition json_string `{JSONText} (s : string) : string :=
  (quote +:+ (if forallb json_plain (String.list_ascii_of_string s) then s else json_escaped s) +:+ quote)%string.
Definition json_field `{JSONText} (name value : string) : string :=
  (json_string name +:+ ":" +:+ value)%string.

Section Records.
Context `{JSONText}.

(** The payload of the outbox event, its fields in the order of the struct. *)
Definition job_event_payload (eventID jobID operationID : string) (version : Z)
    (eventType status : string) : string :=
  ("{" +:+ json_field "event_id" (json_string eventID)
   +:+ "," +:+ json_field "job_id" (json_string jobID)
   +:+ "," +:+ json_field "operation_id" (json_string operationID)
   +:+ "," +:+ json_field "version" (Itoa version)
   +:+ "," +:+ json_field "event_type" (json_string eventType)
   +:+ "," +:+ json_field "status" (json_string status) +:+ "}")%string.

Definition newAIJobEventRecords (job : AIJob.t) (fromStatus reason eventType : string)
    (occurredAt : time) : result go_error (AIJobEvent.t * TransactionalOutboxEvent.t) :=
  if (eventType =s "") || (AIJob.StatusVersion job <=? 0)
  then Err (ErrNew "invalid ai job event state")
  else
    let identity := (AIJob.ID job +:+ nul +:+ Itoa (AIJob.StatusVersion job))%string in
    let digest := prefix (hashAPIKey identity) 24 in
    let event := AIJobEvent.mk ("job_event_" +:+ digest)%string (AIJob.ID job)
      (AIJob.StatusVersion job) eventType fromStatus (AIJob.Status job) (TrimSpace reason) occurredAt in
    let payload := job_event_payload (AIJobEvent.ID event) (AIJob.ID job) (AIJob.OperationID job)
      (AIJob.StatusVersion job) (AIJobEvent.EventType event) (AIJob.Status job) in
    let outbox := TransactionalOutboxEvent.zero
      <| TransactionalOutboxEvent.ID := ("outbox_" +:+ digest)%string |>
      <| TransactionalOutboxEvent.AggregateType := AIJobOutboxAggregate |>
      <| TransactionalOutboxEvent.AggregateID := AIJob.ID job |>
      <| TransactionalOutboxEvent.EventType := AIJobEvent.EventType event |>
      <| TransactionalOutboxEvent.EventVersion := AIJobEvent.Version event |>
      <| TransactionalOutboxEvent.PayloadJSON := payload |>
      <| TransactionalOutboxEvent.Status := OutboxStatusPending |>
      <| TransactionalOutboxEvent.AvailableAt := occurredAt |>
      <| TransactionalOutboxEvent.MaxAttempts := OutboxDefaultMaxAttempts |>
      <| TransactionalOutboxEvent.CreatedAt := occurredAt |>
      <| TransactionalOutboxEvent.UpdatedAt := occurredAt |> in
    Ok (event, outbox).

Definition newAIJobTransitionRecords (job : AIJob.t) (fromStatus reason : string)
    (occurredAt : time) : result go_error (AIJobEvent.t * TransactionalOutboxEvent.t) :=
  newAIJobEventRecords job fromStatus reason (aiJobEventType (AIJob.Status job)) occurredAt.

(** A prepared change of a job: the job, its event, its outbox event. *)
Definition prepared : Type := AIJob.t * AIJobEvent.t * TransactionalOutboxEvent.t.

(** The job after the assignments of [prepareAIJobTransition]. *)
Definition transitioned (job : AIJob.t) (toStatus reason : string) (transitionedAt : time) : AIJob.t :=
  let job := job
    <| AIJob.Status := toStatus |>
    <| AIJob.StatusVersion := AIJob.StatusVersion job +i 1 |>
    <| AIJob.UpdatedAt := transitionedAt |> in
  let job := if toStatus <>s AIJobStatusDispatching
    then job <| AIJob.QueueLeaseUntil := None |> <| AIJob.QueueLeaseToken := ""%string |>
             <| AIJob.QueueWorkerID := ""%string |>
    else job in
  let job := if toStatus =s AIJobStatusQueued
    then job <| AIJob.NextEligibleAt := transitionedAt |> else job in
  let job := job <| AIJob.ErrorType :=
    if (toStatus =s AIJobStatusFailed) || (toStatus =s AIJobStatusUnknown)
    then TrimSpace reason else ""%string |> in
  if aiJobTerminalStatus toStatus && (toStatus <>s AIJobStatusExpired)
  then job <| AIJob.CompletedAt := Some transitionedAt |> else job.

Definition prepareAIJobTransition (job : AIJob.t) (toStatus reason : string)
    (transitionedAt : time) : result go_error prepared :=
  if negb (aiJobStatusTransitionAllowed (AIJob.Status job) toStatus reason)
  then Err (ErrFmt "invalid ai job transition %s -> %s" [FmtStr (AIJob.Status job); FmtStr toStatus])
  else
    let fromStatus := AIJob.Status job in
    let job := transitioned job toStatus reason transitionedAt in
    '(event, outbox) ← newAIJobTransitionRecords job fromStatus reason transitionedAt;
    Ok (job, event, outbox).

Definition prepareAIJobLeaseReassignment (job : AIJob.t) (transitionedAt : time)
    : result go_error prepared :=
  let live := match AIJob.QueueLeaseUntil job with
              | None => true
              | Some leaseUntil => After leaseUntil transitionedAt
              end in
  if (AIJob.Status job <>s AIJobStatusDispatching) || live
  then Err (ErrNew "ai job dispatch lease is not reclaimable")
  else
    let job := job <| AIJob.StatusVersion := AIJob.StatusVersion job +i 1 |>
                   <| AIJob.UpdatedAt := transitionedAt |> in
    '(event, outbox) ← newAIJobEventRecords job AIJobStatusDispatching "lease_expired"
        AIJobEventLeaseReassigned transitionedAt;
    Ok (job, event, outbox).

Definition prepareAIJobClaim (job : AIJob.t) (claimedAt : time) : result go_error prepared :=
  if AIJob.Status job =s AIJobStatusDispatching
  then prepareAIJobLeaseReassignment job claimedAt
  else prepareAIJobTransition job AIJobStatusDispatching "" claimedAt.
End Records.

Definition mapAIJobToOperationStatus (status : string) : string :=
  if status =s AIJobStatusSucceeded then AIOperationStatusSucceeded
  else if status =s AIJobStatusCanceled then AIOperationStatusCanceled
  else AIOperationStatusFailed.

Definition applyMemoryOperationJobStatus (operation : AIOperation.t) (jobStatus errorType : string)
    (at_ : time) : AIOperation.t :=
  if AIOperation.ID operation =s "" then operation
  else if oneOf jobStatus [AIJobStatusDispatching; AIJobStatusRunning; AIJobStatusCanceling;
                           AIJobStatusUnknown] then
    if AIOperation.Status operation =s AIOperationStatusAccepted
    then operation <| AIOperation.Status := AIOperationStatusRunning |>
                   <| AIOperation.UpdatedAt := at_ |>
    else operation
  else if oneOf jobStatus [AIJobStatusSucceeded; AIJobStatusFailed; AIJobStatusCanceled] then
    if (AIOperation.Status operation <>s AIOperationStatusAccepted)
       && (AIOperation.Status operation <>s AIOperationStatusRunning)
    then operation
    else operation <| AIOperation.Status := mapAIJobToOperationStatus jobStatus |>
                   <| AIOperation.ErrorType := errorType |>
                   <| AIOperation.UpdatedAt := at_ |>
                   <| AIOperation.CompletedAt := Some at_ |>
  else operation.

(** ** Admission limits ([ai_job_admission.go]) *)

Definition ErrAIJobQueueCapacityExceeded : go_error :=
  ErrNew "durable ai job queue capacity exceeded".

Record AIJobAdmissionLimits := mkLimits { Organization : Z; Application : Z; Principal : Z }.
Record aiJobAdmissionCounts := mkCounts {
  OrganizationCount : Z; ApplicationCount : Z; PrincipalCount : Z }.

Definition limits_validate (limits : AIJobAdmissionLimits) : result go_error unit :=
  guard_err ((Organization limits <? 0) || (Application limits <? 0) || (Principal limits <? 0))
    (ErrNew "ai job admission limits must be non-negative").

Definition limits_enabled (limits : AIJobAdmissionLimits) : bool :=
  (Organization limits >? 0) || (Application limits >? 0) || (Principal limits >? 0).

Definition enforceAIJobAdmissionLimits (limits : AIJobAdmissionLimits)
    (counts : aiJobAdmissionCounts) : result go_error unit :=
  if (Organization limits >? 0) && (OrganizationCount counts >=? Organization limits)
  then Err (ErrWrap "%w: organization" ErrAIJobQueueCapacityExceeded)
  else if (Application limits >? 0) && (ApplicationCount counts >=? Application limits)
  then Err (ErrWrap "%w: application" ErrAIJobQueueCapacityExceeded)
  else if (Principal limits >? 0) && (PrincipalCount counts >=? Principal limits)
  then Err (ErrWrap "%w: principal" ErrAIJobQueueCapacityExceeded)
  else Ok tt.

Definition aiJobCountsTowardQueueAdmission (job : AIJob.t) : bool :=
  oneOf (AIJob.Status job) [AIJobStatusQueued; AIJobStatusDispatching].

(** The fair keys of [ai_job_fair_queue.go]; the principal key joins its parts
    with NUL bytes. *)
Definition aiJobApplicationFairKey (job : AIJob.t) : string := TrimSpace (AIJob.ApplicationID job).
Definition aiJobPrincipalFairKey (job : AIJob.t) : string :=
  String.concat nul [
    aiJobApplicationFairKey job; TrimSpace (AIJob.CredentialSource job);
    TrimSpace (AIJob.IntegrationID job); TrimSpace (AIJob.PrincipalType job);
    TrimSpace (AIJob.PrincipalID job); TrimSpace (AIJob.ExternalSubjectReference job)].

(** One round of the counting loop.  The counters count jobs in memory, so they
    cannot reach the end of [int]. *)
Definition count_job (candidate : AIJob.t) (counts : aiJobAdmissionCounts) (job : AIJob.t)
    : aiJobAdmissionCounts :=
  if negb (aiJobCountsTowardQueueAdmission job) then counts
  else
    let '(mkCounts o a p) := counts in
    if TrimSpace (AIJob.ApplicationID job) <>s TrimSpace (AIJob.ApplicationID candidate)
    then mkCounts (o + 1) a p
    else if aiJobPrincipalFairKey job =s aiJobPrincipalFairKey candidate
    then mkCounts (o + 1) (a + 1) (p + 1)
    else mkCounts (o + 1) (a + 1) p.

Definition aiJobAdmissionCountsForJobs `{MapRange} (jobs : gmap string AIJob.t) (candidate : AIJob.t)
    : aiJobAdmissionCounts :=
  foldl (count_job candidate) (mkCounts 0 0 0) (map_values jobs).

(** ** Specification *)

(** Edges of the status machine, and those that give no proof that a provider
    never created the task. *)
Definition status_step (a b : string) : Prop :=
  exists reason, aiJobStatusTransitionAllowed a b reason = true.
Definition unproven_step (a b : string) : Prop :=
  exists reason, TrimSpace reason <> "proven_not_created"%string /\
    aiJobStatusTransitionAllowed a b reason = true.

(** What holds of every job the repository keeps. *)
Record job_ok (job : AIJob.t) : Prop := {
  job_completed : is_Some (AIJob.CompletedAt job) <-> aiJobTerminalStatus (AIJob.Status job) = true;
  job_lease : AIJob.Status job <> AIJobStatusDispatching ->
    AIJob.QueueLeaseUntil job = None /\ AIJob.QueueLeaseToken job = ""%string /\
    AIJob.QueueWorkerID job = ""%string;
  job_error : AIJob.ErrorType job <> ""%string ->
    oneOf (AIJob.Status job) [AIJobStatusFailed; AIJobStatusUnknown] = true;
}.

(** The event and the outbox event of a change say what the change was. *)
Definition records_match (before after : AIJob.t) (event : AIJobEvent.t)
    (outbox : TransactionalOutboxEvent.t) : Prop :=
  AIJob.StatusVersion after = AIJob.StatusVersion before +i 1 /\
  AIJobEvent.JobID event = AIJob.ID before /\
  AIJobEvent.Version event = AIJob.StatusVersion after /\
  AIJobEvent.FromStatus event = AIJob.Status before /\
  AIJobEvent.ToStatus event = AIJob.Status after /\
  TransactionalOutboxEvent.AggregateType outbox = AIJobOutboxAggregate /\
  TransactionalOutboxEvent.AggregateID outbox = AIJob.ID before /\
  TransactionalOutboxEvent.EventVersion outbox = AIJob.StatusVersion after /\
  TransactionalOutboxEvent.EventType outbox = AIJobEvent.EventType event /\
  TransactionalOutboxEvent.Status outbox = OutboxStatusPending.

(** ** Lemmas *)

(** Case analysis on the string tests of the status machine. *)
Ltac status_cases :=
  repeat match goal with
  | H : context [String.eqb ?a ?b] |- _ => destruct (String.eqb_spec a b); subst; try discriminate H
  | |- context [String.eqb ?a ?b] => destruct (String.eqb_spec a b); subst
  end.

Lemma allowed_cases a b reason :
  aiJobStatusTransitionAllowed a b reason = true ->
  (a, b) ∈ [
    (AIJobStatusAccepted, AIJobStatusQueued); (AIJobStatusAccepted, AIJobStatusCanceled);
    (AIJobStatusQueued, AIJobStatusDispatching); (AIJobStatusQueued, AIJobStatusCanceled);
    (AIJobStatusDispatching, AIJobStatusQueued); (AIJobStatusDispatching, AIJobStatusRunning);
    (AIJobStatusDispatching, AIJobStatusUnknown); (AIJobStatusDispatching, AIJobStatusCanceling);
    (AIJobStatusRunning, AIJobStatusSucceeded); (AIJobStatusRunning, AIJobStatusFailed);
    (AIJobStatusRunning, AIJobStatusCanceling); (AIJobStatusRunning, AIJobStatusUnknown);
    (AIJobStatusCanceling, AIJobStatusCanceled); (AIJobStatusCanceling, AIJobStatusSucceeded);
    (AIJobStatusCanceling, AIJobStatusFailed);
    (AIJobStatusUnknown, AIJobStatusRunning); (AIJobStatusUnknown, AIJobStatusSucceeded);
    (AIJobStatusUnknown, AIJobStatusFailed);
    (AIJobStatusSucceeded, AIJobStatusExpired); (AIJobStatusFailed, AIJobStatusExpired);
    (AIJobStatusCanceled, AIJobStatusExpired)]
  \/ (a = AIJobStatusUnknown /\ b = AIJobStatusQueued /\ TrimSpace reason = "proven_not_created"%string).
Proof.
  unfold aiJobStatusTransitionAllowed. intros H.
  repeat match type of H with
  | (if ?a =s ?b then _ else _) = true => destruct (String.eqb_spec a b); subst
  end; [| | | | |by right; apply String.eqb_eq in H| |]; left;
  rewrite ?orb_true_iff, ?oneOf_In, ?String.eqb_eq, ?elem_of_cons in H.
  all: try (destruct (oneOf a _) eqn:E; [|done]; apply oneOf_In in E; apply String.eqb_eq in H;
    rewrite !elem_of_cons in E; destruct E as [->|[->|[->|[]%elem_of_nil]]]; subst;
    apply (bool_decide_unpack _); vm_compute; exact I).
  all: repeat match type of H with
    | _ \/ _ => destruct H as [H|H]
    | _ ∈ [] => by apply elem_of_nil in H
    end; subst; apply (bool_decide_unpack _); vm_compute; exact I.
Qed.

Lemma transitioned_ok job toStatus reason at_ :
  aiJobStatusTransitionAllowed (AIJob.Status job) toStatus reason = true ->
  job_ok job -> job_ok (transitioned job toStatus reason at_).
Proof.
  intros Ha [Hc Hl He]. apply allowed_cases in Ha as [Ha|(E1 & -> & Er)].
  - elem_cases Ha; injection Ha as E1 ->; rewrite E1 in *;
      (split; cbn; [split; intros H; try exact (mk_is_Some _ _ eq_refl); try done; by apply Hc in H
                   |intros H; first [by split_and!|by apply Hl]|intros H; done]).
  - rewrite E1 in *. split; cbn; [|by intros _|done].
    split; intros H; [by apply Hc in H|done].
Qed.

Section RecordLemmas.
Context `{JSONText}.

Lemma newRecords_match job fromStatus reason eventType at_ event outbox :
  newAIJobEventRecords job fromStatus reason eventType at_ = Ok (event, outbox) ->
  AIJobEvent.JobID event = AIJob.ID job /\ AIJobEvent.Version event = AIJob.StatusVersion job /\
  AIJobEvent.FromStatus event = fromStatus /\ AIJobEvent.ToStatus event = AIJob.Status job /\
  AIJobEvent.EventType event = eventType /\ AIJobEvent.CreatedAt event = at_ /\
  TransactionalOutboxEvent.AggregateType outbox = AIJobOutboxAggregate /\
  TransactionalOutboxEvent.AggregateID outbox = AIJob.ID job /\
  TransactionalOutboxEvent.EventVersion outbox = AIJob.StatusVersion job /\
  TransactionalOutboxEvent.EventType outbox = eventType /\
  TransactionalOutboxEvent.Status outbox = OutboxStatusPending.
Proof.
  unfold newAIJobEventRecords. destruct (_ || _); [done|]. intros [= <- <-]. done.
Qed.

Lemma prepareTransition_inv job toStatus reason at_ job' event outbox :
  prepareAIJobTransition job toStatus reason at_ = Ok (job', event, outbox) ->
  aiJobStatusTransitionAllowed (AIJob.Status job) toStatus reason = true /\
  job' = transitioned job toStatus reason at_ /\
  newAIJobEventRecords job' (AIJob.Status job) reason (aiJobEventType toStatus) at_ = Ok (event, outbox).
Proof.
  unfold prepareAIJobTransition. destruct (aiJobStatusTransitionAllowed _ _ _) eqn:Ea; cbn; [|done].
  intros H0. apply bind_Ok in H0 as ([ev ob] & Hr & [= <- <- <-]). split_and!; [done|done|].
  unfold newAIJobTransitionRecords in Hr.
  assert (Es : AIJob.Status (transitioned job toStatus reason at_) = toStatus)
    by (unfold transitioned; repeat case_match; done).
  by rewrite Es in Hr.
Qed.

Lemma transitioned_fields job toStatus reason at_ :
  AIJob.ID (transitioned job toStatus reason at_) = AIJob.ID job /\
  AIJob.OperationID (transitioned job toStatus reason at_) = AIJob.OperationID job /\
  AIJob.Status (transitioned job toStatus reason at_) = toStatus /\
  AIJob.StatusVersion (transitioned job toStatus reason at_) = AIJob.StatusVersion job +i 1 /\
  AIJob.FenceToken (transitioned job toStatus reason at_) = AIJob.FenceToken job.
Proof. unfold transitioned. repeat case_match; done. Qed.

Lemma prepareClaim_inv job at_ job' event outbox :
  prepareAIJobClaim job at_ = Ok (job', event, outbox) ->
  AIJob.ID job' = AIJob.ID job /\ AIJob.OperationID job' = AIJob.OperationID job /\
  AIJob.Status job' = AIJobStatusDispatching /\
  AIJob.FenceToken job' = AIJob.FenceToken job /\ (job_ok job -> job_ok job') /\
  records_match job job' event outbox /\ AIJobEvent.CreatedAt event = at_.
Proof.
  unfold prepareAIJobClaim. destruct (String.eqb_spec (AIJob.Status job) AIJobStatusDispatching) as [Es|Es].
  - unfold prepareAIJobLeaseReassignment. destruct (_ || _) eqn:E; [done|].
    intros H0. apply bind_Ok in H0 as ([ev ob] & Hr & [= <- <- <-]).
    apply newRecords_match in Hr as (R1 & R2 & R3 & R4 & R5 & R6 & R7 & R8 & R9 & R10 & R11).
    cbn in *. split_and!; try done.
    + intros [Hc Hl He]. split; cbn; rewrite ?Es in *; done.
    + unfold records_match. cbn. rewrite Es in *. split_and!; congruence.
  - intros (Ha & -> & Hr)%prepareTransition_inv.
    apply newRecords_match in Hr as (R1 & R2 & R3 & R4 & R5 & R6 & R7 & R8 & R9 & R10 & R11).
    pose proof (transitioned_fields job AIJobStatusDispatching "" at_) as (F1 & F2 & F3 & F4 & F5).
    split_and!; try done.
    + by apply transitioned_ok.
    + unfold records_match. split_and!; congruence.
Qed.
End RecordLemmas.

(** ** Lemmas: admission counts *)

Definition in_organization (job : AIJob.t) : bool := aiJobCountsTowardQueueAdmission job.
Definition in_application (candidate job : AIJob.t) : bool :=
  aiJobCountsTowardQueueAdmission job
  && (TrimSpace (AIJob.ApplicationID job) =s TrimSpace (AIJob.ApplicationID candidate)).
Definition of_principal (candidate job : AIJob.t) : bool :=
  in_application candidate job && (aiJobPrincipalFairKey job =s aiJobPrincipalFairKey candidate).

(** How many jobs of the map satisfy a test. *)
Definition number_of (p : AIJob.t -> bool) (jobs : gmap string AIJob.t) : Z :=
  sum_map (fun job => if p job then 1 else 0) jobs.

Lemma counts_number `{MapRange} jobs candidate :
  aiJobAdmissionCountsForJobs jobs candidate =
  mkCounts (number_of in_organization jobs) (number_of (in_application candidate) jobs)
           (number_of (of_principal candidate) jobs).
Proof.
  unfold aiJobAdmissionCountsForJobs, number_of. rewrite <- !sum_map_values.
  enough (Hg : forall l o a p, foldl (count_job candidate) (mkCounts o a p) l =
    mkCounts (o + sum_Z (fun job => if in_organization job then 1 else 0) l)
      (a + sum_Z (fun job => if in_application candidate job then 1 else 0) l)
      (p + sum_Z (fun job => if of_principal candidate job then 1 else 0) l)).
  { rewrite Hg. done. }
  induction l as [|x l IH]; intros o a p; cbn; [f_equal; lia|].
  assert (Hx : count_job candidate (mkCounts o a p) x =
    mkCounts (o + (if in_organization x then 1 else 0)) (a + (if in_application candidate x then 1 else 0))
      (p + (if of_principal candidate x then 1 else 0))).
  { unfold count_job, of_principal, in_application, in_organization.
    destruct (aiJobCountsTowardQueueAdmission x); cbn; [|f_equal; lia].
    destruct (_ =s _); cbn; [|f_equal; lia]. destruct (_ =s _); cbn; f_equal; lia. }
  rewrite Hx, IH. f_equal; lia.
Qed.

Lemma enforce_iff limits o a p :
  enforceAIJobAdmissionLimits limits (mkCounts o a p) = Ok tt <->
  (0 < Organization limits -> o < Organization limits) /\
  (0 < Application limits -> a < Application limits) /\
  (0 < Principal limits -> p < Principal limits).
Proof.
  unfold enforceAIJobAdmissionLimits. cbn. rewrite !Z.gtb_ltb, !Z.geb_leb.
  destruct (Z.ltb_spec 0 (Organization limits)), (Z.leb_spec (Organization limits) o);
    cbn; try (split; [done|intros (? & ? & ?); lia]);
  destruct (Z.ltb_spec 0 (Application limits)), (Z.leb_spec (Application limits) a);
    cbn; try (split; [done|intros (? & ? & ?); lia]);
  destruct (Z.ltb_spec 0 (Principal limits)), (Z.leb_spec (Principal limits) p);
    cbn; try (split; [done|intros (? & ? & ?); lia]);
  (split; [intros _; split_and!; lia|done]).
Qed.

Lemma number_of_insert p (jobs : gmap string AIJob.t) k job : jobs !! k = None ->
  number_of p (<[k := job]> jobs) = (if p job then 1 else 0) + number_of p jobs.
Proof. apply sum_map_insert. Qed.

(** ** Properties *)

(** C8. Once a job has reached a provider (it is running, being cancelled, or of
    unknown outcome), no sequence of transitions puts it back into the queue or
    into dispatch unless one of them carries the proof that the provider never
    created the task: a task is not submitted twice. *)
Theorem no_resubmission a b :
  a ∈ [AIJobStatusRunning; AIJobStatusCanceling; AIJobStatusUnknown] ->
  rtc unproven_step a b ->
  b ∉ [AIJobStatusAccepted; AIJobStatusQueued; AIJobStatusDispatching].
Proof.
  intros Ha Hab.
  assert (Hinv : a ∉ [AIJobStatusAccepted; AIJobStatusQueued; AIJobStatusDispatching])
    by (elem_cases Ha; subst; apply (bool_decide_unpack _); vm_compute; exact I).
  clear Ha. induction Hab as [|a b c [reason [Hr Hs]] _ IH]; [done|].
  apply IH. apply allowed_cases in Hs as [Hs|(_ & _ & E)]; [|done].
  elem_cases Hs; injection Hs as -> ->; first
    [ apply (bool_decide_unpack _); vm_compute; exact I
    | exfalso; apply Hinv; apply (bool_decide_unpack _); vm_compute; exact I ].
Qed.

(** A finished job stays finished: from a terminal status transitions lead
    only to expiry, and expiry is the end. *)
Theorem terminal_statuses_final a b :
  aiJobTerminalStatus a = true -> rtc status_step a b -> b = a \/ b = AIJobStatusExpired.
Proof.
  intros Ha Hab. apply oneOf_In in Ha.
  induction Hab as [a|a b c [reason Hs] _ IH]; [by left|]. right.
  assert (Hb : b = AIJobStatusExpired).
  { apply allowed_cases in Hs as [Hs|(-> & _)]; [|by elem_cases Ha].
    elem_cases Hs; injection Hs as -> ->; first [reflexivity|by elem_cases Ha]. }
  subst b. destruct IH as [->| ->]; [|done|done].
  apply (bool_decide_unpack _). vm_compute. exact I.
Qed.

(** Preparing a transition keeps a job well formed (it is completed exactly
    when its status is terminal, it holds a lease only while it is dispatched,
    it carries an error only when it failed or is unknown), raises its version
    by one and records that version in one event and one outbox event that
    describe the change. *)
Theorem prepareAIJobTransition_sound `{JSONText} job toStatus reason at_ job' event outbox :
  job_ok job -> prepareAIJobTransition job toStatus reason at_ = Ok (job', event, outbox) ->
  job_ok job' /\ records_match job job' event outbox.
Proof.
  intros Hok (Ha & -> & Hr)%prepareTransition_inv. split; [by apply transitioned_ok|].
  apply newRecords_match in Hr as (R1 & R2 & R3 & R4 & R5 & R6 & R7 & R8 & R9 & R10 & R11).
  pose proof (transitioned_fields job toStatus reason at_) as (F1 & F2 & F3 & F4 & F5).
  unfold records_match. split_and!; congruence.
Qed.

(** The three admission counters are the numbers of queued or dispatched jobs
    of the installation, of the application and of the principal, in whatever
    order the jobs are visited, and a candidate is admitted exactly when each
    enabled limit exceeds its number. *)
Theorem admission_limits_exact `{MapRange} limits jobs candidate :
  enforceAIJobAdmissionLimits limits (aiJobAdmissionCountsForJobs jobs candidate) = Ok tt <->
  (0 < Organization limits -> number_of in_organization jobs < Organization limits) /\
  (0 < Application limits -> number_of (in_application candidate) jobs < Application limits) /\
  (0 < Principal limits -> number_of (of_principal candidate) jobs < Principal limits).
Proof. rewrite counts_number. apply enforce_iff. Qed.

(** ** Witnesses *)

#[local] Instance no_escapes : JSONText := fun s => s.

Definition a_running_job : AIJob.t :=
  AIJob.zero <| AIJob.ID := "job_1"%string |> <| AIJob.Status := AIJobStatusRunning |>
    <| AIJob.StatusVersion := 3 |>.

Lemma no_resubmission_witness :
  AIJobStatusUnknown ∉ [AIJobStatusAccepted; AIJobStatusQueued; AIJobStatusDispatching].
Proof.
  apply (no_resubmission AIJobStatusRunning).
  - apply (bool_decide_unpack _). vm_compute. exact I.
  - apply rtc_once. exists ""%string. split; [done|reflexivity].
Defined.

Lemma terminal_statuses_final_witness :
  AIJobStatusExpired = AIJobStatusFailed \/ AIJobStatusExpired = AIJobStatusExpired.
Proof.
  apply terminal_statuses_final; [reflexivity|]. apply rtc_once. exists ""%string. reflexivity.
Defined.

Lemma prepareAIJobTransition_sound_witness :
  match prepareAIJobTransition a_running_job AIJobStatusSucceeded "" 5 with
  | Ok (job', event, outbox) => job_ok job' /\ records_match a_running_job job' event outbox
  | Err _ => False
  end.
Proof.
  destruct (prepareAIJobTransition a_running_job AIJobStatusSucceeded "" 5)
    as [[[job' event] outbox]|e] eqn:E.
  - apply (prepareAIJobTransition_sound a_running_job AIJobStatusSucceeded "" 5); [|exact E].
    split; cbn; [split; [by intros [? [=]]|done]|done|done].
  - vm_compute in E. discriminate E.
Defined.
