(* ===== verification/FairQueue.v ===== *)
(** * Durable jobs: fair ranking

    [backend/internal/controlplane/ai_job_fair_queue.go]: which jobs are ready,
    their effective priority, and the selection loop that shares dispatch between
    applications and principals.  The maps of statistics hold pointers made on
    demand by [fairStats]; here a missing key reads as the zero statistics.  The
    counters count jobs in memory, so they cannot reach the end of [int]. *)

From S2P Require Import Prelude Repository JobModel.

Definition aiJobMaxPriority : Z := 9.
Definition aiJobPriorityAgingInterval : duration := minute.

Record aiJobDispatchActivity := mkActivity { ActivityJob : AIJob.t; DispatchedAt : time }.

Record aiJobFairLevelStats := mkStats {
  InFlight : Z;
  Selected : Z;
  LastDispatchAt : time;
  HasDispatch : bool;
}.
#[export] Instance stats_settable : Settable aiJobFairLevelStats := fun s =>
  mkStats (InFlight s) (Selected s) (LastDispatchAt s) (HasDispatch s).

Record aiJobFairCandidate := mkCandidate {
  Job : AIJob.t;
  ApplicationKey : string;
  PrincipalKey : string;
  EffectivePriority : Z;
}.

(** ** Priority and readiness *)

Definition effectiveAIJobPriority (job : AIJob.t) (now : time) : Z :=
  let priority := AIJob.Priority job in
  let priority := if priority <? 0 then 0 else priority in
  let priority := if priority >? aiJobMaxPriority then aiJobMaxPriority else priority in
  let waitStartedAt := AIJob.NextEligibleAt job in
  let waitStartedAt := if IsZero waitStartedAt || Before waitStartedAt (AIJob.CreatedAt job)
    then AIJob.CreatedAt job else waitStartedAt in
  let priority := if After now waitStartedAt
    then priority +i Z.quot (TimeSub now waitStartedAt) aiJobPriorityAgingInterval else priority in
  if priority >? aiJobMaxPriority then aiJobMaxPriority else priority.

Definition aiJobInFlightForFairness (status : string) : bool :=
  oneOf status [AIJobStatusDispatching; AIJobStatusRunning; AIJobStatusCanceling; AIJobStatusUnknown].

Definition lease_over (job : AIJob.t) (now : time) : option bool :=
  (fun leaseUntil => negb (After leaseUntil now)) <$> AIJob.QueueLeaseUntil job.
Definition aiJobReadyForClaim (job : AIJob.t) (now : time) : bool :=
  if AIJob.Status job =s AIJobStatusQueued
  then negb (After (AIJob.NextEligibleAt job) now) && default true (lease_over job now)
  else (AIJob.Status job =s AIJobStatusDispatching) && default false (lease_over job now).

(** ** Statistics *)

Definition fairStats (values : gmap string aiJobFairLevelStats) (key : string) : aiJobFairLevelStats :=
  default (mkStats 0 0 0 false) (values !! key).
Definition fair_update (f : aiJobFairLevelStats -> aiJobFairLevelStats) (key : string)
    (values : gmap string aiJobFairLevelStats) : gmap string aiJobFairLevelStats :=
  <[key := f (fairStats values key)]> values.

Definition updateAIJobLastDispatch (dispatchedAt : time) (stats : aiJobFairLevelStats)
    : aiJobFairLevelStats :=
  if negb (HasDispatch stats) || After dispatchedAt (LastDispatchAt stats)
  then stats <| LastDispatchAt := dispatchedAt |> <| HasDispatch := true |>
  else stats.

Definition more_in_flight (s : aiJobFairLevelStats) := s <| InFlight := InFlight s + 1 |>.
Definition more_selected (s : aiJobFairLevelStats) := s <| Selected := Selected s + 1 |>.

(** ** Order *)

(** [compareAIJobFairLevel]: -1, 0 or 1 as Lt, Eq or Gt. *)
Definition compareAIJobFairLevel (left right : aiJobFairLevelStats) (leftKey rightKey : string)
    : comparison :=
  let leftLoad := InFlight left + Selected left in
  let rightLoad := InFlight right + Selected right in
  if leftLoad <? rightLoad then Lt
  else if leftLoad >? rightLoad then Gt
  else if negb (eqb (HasDispatch left) (HasDispatch right)) then
    if negb (HasDispatch left) then Lt else Gt
  else if HasDispatch left && negb (LastDispatchAt left =? LastDispatchAt right) then
    if Before (LastDispatchAt left) (LastDispatchAt right) then Lt else Gt
  else String.compare leftKey rightKey.

Definition aiJobFairCandidateLess (applicationStats principalStats : gmap string aiJobFairLevelStats)
    (left right : aiJobFairCandidate) : bool :=
  let leftReclaim := AIJob.Status (Job left) =s AIJobStatusDispatching in
  let rightReclaim := AIJob.Status (Job right) =s AIJobStatusDispatching in
  if negb (eqb leftReclaim rightReclaim) then leftReclaim
  else match compareAIJobFairLevel (fairStats applicationStats (ApplicationKey left))
               (fairStats applicationStats (ApplicationKey right)) (ApplicationKey left) (ApplicationKey right) with
  | Lt => true
  | Gt => false
  | Eq =>
  match compareAIJobFairLevel (fairStats principalStats (PrincipalKey left))
          (fairStats principalStats (PrincipalKey right)) (PrincipalKey left) (PrincipalKey right) with
  | Lt => true
  | Gt => false
  | Eq =>
  if negb (EffectivePriority left =? EffectivePriority right)
  then EffectivePriority left >? EffectivePriority right
  else if negb (AIJob.NextEligibleAt (Job left) =? AIJob.NextEligibleAt (Job right))
  then Before (AIJob.NextEligibleAt (Job left)) (AIJob.NextEligibleAt (Job right))
  else if negb (AIJob.CreatedAt (Job left) =? AIJob.CreatedAt (Job right))
  then Before (AIJob.CreatedAt (Job left)) (AIJob.CreatedAt (Job right))
  else str_ltb (AIJob.ID (Job left)) (AIJob.ID (Job right))
  end end.

(** ** Selection *)

Definition newAIJobFairCandidate (now : time) (job : AIJob.t) : aiJobFairCandidate :=
  mkCandidate job (aiJobApplicationFairKey job) (aiJobPrincipalFairKey job)
    (effectiveAIJobPriority job now).

(** The inner loop: the best candidate and its index, from the current best on. *)
Fixpoint find_best {A} (less : A -> A -> bool) (best : nat) (current : A) (index : nat) (l : list A)
    : nat * A :=
  match l with
  | [] => (best, current)
  | x :: l' => if less x current then find_best less index x (S index) l'
               else find_best less best current (S index) l'
  end.

(** [remaining[best] = remaining[len-1]; remaining = remaining[:len-1]] *)
Definition swap_remove {A} (best : nat) (remaining : list A) : list A :=
  match list.last remaining with
  | None => []
  | Some x => take (length remaining - 1) (<[best := x]> remaining)
  end.

(** The outer loop, which selects one candidate a round; the number of
    candidates bounds its rounds. *)
Fixpoint select_loop (rounds : nat) (limit : Z) (applicationStats principalStats : gmap string aiJobFairLevelStats)
    (remaining : list aiJobFairCandidate) (out : list AIJob.t) : list AIJob.t :=
  match rounds, remaining with
  | S rounds', first :: rest =>
      if Z.of_nat (length out) <? limit then
        let '(best, selected) :=
          find_best (aiJobFairCandidateLess applicationStats principalStats) 0 first 1 rest in
        select_loop rounds' limit
          (fair_update more_selected (ApplicationKey selected) applicationStats)
          (fair_update more_selected (PrincipalKey selected) principalStats)
          (swap_remove best remaining) (out ++ [Job selected])
      else out
  | _, _ => out
  end.

(** The statistics before the first round. *)
Definition initial_stats (key : AIJob.t -> string) (jobs : list AIJob.t)
    (activities : list aiJobDispatchActivity) : gmap string aiJobFairLevelStats :=
  let stats := foldl (fun stats job =>
    if negb (aiJobInFlightForFairness (AIJob.Status job)) then stats
    else fair_update more_in_flight (key job) stats) ∅ jobs in
  foldl (fun stats activity =>
    if IsZero (DispatchedAt activity) then stats
    else fair_update (updateAIJobLastDispatch (DispatchedAt activity)) (key (ActivityJob activity)) stats)
    stats activities.

Definition rankAIJobFairCandidates (candidates jobs : list AIJob.t)
    (activities : list aiJobDispatchActivity) (now : time) (limit : Z) : list AIJob.t :=
  if (limit <=? 0) || (length candidates =? 0)%nat then []
  else select_loop (length candidates) limit
         (initial_stats aiJobApplicationFairKey jobs activities)
         (initial_stats aiJobPrincipalFairKey jobs activities)
         (map (newAIJobFairCandidate now) candidates) [].

(** ** Specification *)

(** The order as a comparator: reclaims first, then the less loaded and longer
    idle application, the same for the principal, the higher priority, the
    earlier eligibility and creation, the identity. *)
Definition level_compare (stats : gmap string aiJobFairLevelStats) : string -> string -> comparison :=
  cmp_then (cmp_on (fun k => InFlight (fairStats stats k) + Selected (fairStats stats k)) Z.compare)
  (cmp_then (cmp_on (fun k => negb (HasDispatch (fairStats stats k))) cmp_true_first)
  (cmp_then (cmp_on (fun k => if HasDispatch (fairStats stats k)
                              then LastDispatchAt (fairStats stats k) else 0) Z.compare)
            String.compare)).

Definition candidate_compare (apps principals : gmap string aiJobFairLevelStats)
    : aiJobFairCandidate -> aiJobFairCandidate -> comparison :=
  cmp_then (cmp_on (fun c => AIJob.Status (Job c) =s AIJobStatusDispatching) cmp_true_first)
  (cmp_then (cmp_on ApplicationKey (level_compare apps))
  (cmp_then (cmp_on PrincipalKey (level_compare principals))
  (cmp_then (cmp_on EffectivePriority (cmp_rev Z.compare))
  (cmp_then (cmp_on (fun c => AIJob.NextEligibleAt (Job c)) Z.compare)
  (cmp_then (cmp_on (fun c => AIJob.CreatedAt (Job c)) Z.compare)
            (cmp_on (fun c => AIJob.ID (Job c)) String.compare)))))).

#[export] Instance level_comparator stats : Comparator (level_compare stats).
Proof. unfold level_compare. apply _. Qed.
#[export] Instance candidate_comparator apps principals : Comparator (candidate_compare apps principals).
Proof. unfold candidate_compare. apply _. Qed.

(** ** Lemmas *)

Lemma compareLevel_spec stats k1 k2 :
  compareAIJobFairLevel (fairStats stats k1) (fairStats stats k2) k1 k2 = level_compare stats k1 k2.
Proof.
  unfold compareAIJobFairLevel, level_compare, cmp_then, cmp_on, Before.
  set (s1 := fairStats stats k1). set (s2 := fairStats stats k2). cbv zeta.
  rewrite Z.gtb_ltb.
  destruct (Z.compare_spec (InFlight s1 + Selected s1) (InFlight s2 + Selected s2)) as [E|E|E].
  - rewrite E, Z.ltb_irrefl.
    destruct (HasDispatch s1), (HasDispatch s2); cbn [negb eqb cmp_true_first andb]; try done.
    destruct (Z.compare_spec (LastDispatchAt s1) (LastDispatchAt s2)) as [E2|E2|E2].
    + by rewrite E2, Z.eqb_refl.
    + by rewrite (proj2 (Z.eqb_neq _ _)), (proj2 (Z.ltb_lt _ _)) by lia.
    + by rewrite (proj2 (Z.eqb_neq _ _)), (proj2 (Z.ltb_ge _ _)) by lia.
  - by rewrite (proj2 (Z.ltb_lt _ _) E).
  - by rewrite (proj2 (Z.ltb_ge _ _)), (proj2 (Z.ltb_lt _ _) E) by lia.
Qed.

Lemma compare_last {A} (f : A -> Z) x y (k : bool) :
  (if negb (f x =? f y) then f x <? f y else k) =
  is_lt (match f x ?= f y with Eq => if k then Lt else Gt | c => c end).
Proof.
  destruct (Z.compare_spec (f x) (f y)) as [E|E|E], (Z.eqb_spec (f x) (f y)); cbn; try lia.
  by destruct k.
Qed.

Lemma is_lt_then (c : comparison) (b : bool) (d : comparison) :
  b = is_lt d -> is_lt (match c with Eq => if b then Lt else Gt | Lt => Lt | Gt => Gt end)
                 = is_lt (match c with Eq => d | Lt => Lt | Gt => Gt end).
Proof. intros ->. destruct c; [by destruct d|done|done]. Qed.

Lemma candidateLess_spec apps principals c1 c2 :
  aiJobFairCandidateLess apps principals c1 c2 = is_lt (candidate_compare apps principals c1 c2).
Proof.
  unfold aiJobFairCandidateLess, candidate_compare.
  rewrite !compareLevel_spec. unfold cmp_then, cmp_on, cmp_rev.
  assert (Htail :
    (if negb (EffectivePriority c1 =? EffectivePriority c2)
     then EffectivePriority c1 >? EffectivePriority c2
     else if negb (AIJob.NextEligibleAt (Job c1) =? AIJob.NextEligibleAt (Job c2))
     then Before (AIJob.NextEligibleAt (Job c1)) (AIJob.NextEligibleAt (Job c2))
     else if negb (AIJob.CreatedAt (Job c1) =? AIJob.CreatedAt (Job c2))
     then Before (AIJob.CreatedAt (Job c1)) (AIJob.CreatedAt (Job c2))
     else str_ltb (AIJob.ID (Job c1)) (AIJob.ID (Job c2))) =
    is_lt (match EffectivePriority c2 ?= EffectivePriority c1 with
           | Eq => match AIJob.NextEligibleAt (Job c1) ?= AIJob.NextEligibleAt (Job c2) with
                   | Eq => match AIJob.CreatedAt (Job c1) ?= AIJob.CreatedAt (Job c2) with
                           | Eq => String.compare (AIJob.ID (Job c1)) (AIJob.ID (Job c2))
                           | c => c end
                   | c => c end
           | c => c end)).
  { unfold Before. rewrite Z.eqb_sym, Z.gtb_ltb.
    rewrite (compare_last EffectivePriority c2 c1). apply is_lt_then.
    rewrite (compare_last (fun c => AIJob.NextEligibleAt (Job c)) c1 c2). apply is_lt_then.
    rewrite (compare_last (fun c => AIJob.CreatedAt (Job c)) c1 c2). apply is_lt_then. done. }
  destruct (AIJob.Status (Job c1) =s AIJobStatusDispatching), (AIJob.Status (Job c2) =s AIJobStatusDispatching);
    cbn [negb eqb cmp_true_first is_lt]; try done;
  (destruct (level_compare apps _ _); [|done|done];
   destruct (level_compare principals _ _); [exact Htail|done|done]).
Qed.

(** *** Choosing and removing the best *)

Lemma find_best_spec {A} (c : A -> A -> comparison) `{!Comparator c} less full :
  (forall x y, less x y = is_lt (c x y)) ->
  forall l best current index,
  full !! best = Some current -> drop index full = l ->
  (forall j y, (j < index)%nat -> full !! j = Some y -> c y current <> Lt) ->
  let '(i, x) := find_best less best current index l in
  full !! i = Some x /\ forall y, y ∈ full -> c y x <> Lt.
Proof.
  intros Hless. induction l as [|x l IH]; intros best current index Hb Hd Hmin; cbn.
  - split; [done|]. intros y [j Hj]%list_elem_of_lookup. apply (Hmin j); [|done].
    apply lookup_lt_Some in Hj. apply (f_equal length) in Hd. rewrite length_drop in Hd. cbn in Hd. lia.
  - assert (Hx : full !! index = Some x).
    { rewrite <- (Nat.add_0_r index), <- lookup_drop, Hd. done. }
    assert (Hd' : drop (S index) full = l).
    { rewrite <- Nat.add_1_r, <- drop_drop, Hd. done. }
    rewrite Hless. destruct (is_lt (c x current)) eqn:E.
    + apply is_lt_iff in E. apply IH; [done|done|].
      intros j y Hj Hy Hlt. apply Nat.lt_succ_r, Nat.lt_eq_cases in Hj as [Hj| ->].
      * apply (Hmin j y Hj Hy). by apply (cmp_trans y x current).
      * simplify_eq. by rewrite cmp_refl in Hlt.
    + apply IH; [done|done|].
      intros j y Hj Hy Hlt. apply Nat.lt_succ_r, Nat.lt_eq_cases in Hj as [Hj| ->].
      * by apply (Hmin j y Hj Hy).
      * simplify_eq. by rewrite Hlt in E.
Qed.

Lemma swap_remove_perm {A} i (l : list A) x : l !! i = Some x -> x :: swap_remove i l ≡ₚ l.
Proof.
  intros Hi. destruct l as [|z l] using rev_ind; [done|]. clear IHl.
  unfold swap_remove. rewrite last_snoc, length_app. cbn.
  replace (length l + 1 - 1)%nat with (length l) by lia.
  apply lookup_app_Some in Hi as [Hi|[Hge Hi]].
  - pose proof (lookup_lt_Some _ _ _ Hi). rewrite insert_app_l by done.
    rewrite take_app_le by (rewrite length_insert; lia).
    rewrite take_ge by (rewrite length_insert; lia).
    rewrite <- Permutation_cons_append, insert_take_drop by done.
    rewrite <- (take_drop_middle l i x Hi) at 3.
    rewrite <- !Permutation_middle. apply Permutation_swap.
  - destruct (i - length l)%nat eqn:E; [|done]. cbn in Hi. injection Hi as ->.
    assert (i = length l) as -> by lia.
    rewrite insert_app_r_alt by lia. rewrite Nat.sub_diag. cbn.
    rewrite take_app_length. apply Permutation_cons_append.
Qed.

(** One round: what is chosen, and what remains. *)
Lemma best_of apps principals first rest :
  let '(i, x) := find_best (aiJobFairCandidateLess apps principals) 0 first 1 rest in
  x :: swap_remove i (first :: rest) ≡ₚ first :: rest /\
  forall y, y ∈ first :: rest -> candidate_compare apps principals y x <> Lt.
Proof.
  pose proof (find_best_spec (candidate_compare apps principals)
    (aiJobFairCandidateLess apps principals) (first :: rest)
    (candidateLess_spec apps principals) rest 0 first 1) as H.
  destruct (find_best _ _ _ _ _) as [i x]. destruct H as [Hi Hmin]; [done|done| |].
  - intros j y Hj Hy. assert (j = 0%nat) as -> by lia. cbn in Hy. simplify_eq. by rewrite cmp_refl.
  - split; [by apply swap_remove_perm|done].
Qed.

Lemma candidate_compare_Eq apps principals x y :
  candidate_compare apps principals x y = Eq -> AIJob.ID (Job x) = AIJob.ID (Job y).
Proof.
  unfold candidate_compare, cmp_then. repeat (case_match; try done).
  intros E. by apply str_compare_eq.
Qed.

Notation ids := (fmap (fun c : aiJobFairCandidate => AIJob.ID (Job c))).

Lemma same_best apps principals l x y :
  NoDup (ids l) -> x ∈ l -> y ∈ l ->
  (forall z, z ∈ l -> candidate_compare apps principals z x <> Lt) ->
  (forall z, z ∈ l -> candidate_compare apps principals z y <> Lt) -> x = y.
Proof.
  intros Hn Hx Hy Hmx Hmy. specialize (Hmx y Hy). specialize (Hmy x Hx).
  assert (E : AIJob.ID (Job x) = AIJob.ID (Job y)).
  { apply (candidate_compare_Eq apps principals). rewrite cmp_opp in Hmx.
    destruct (candidate_compare apps principals x y); done. }
  apply list_elem_of_lookup in Hx as [i Hi]. apply list_elem_of_lookup in Hy as [j Hj].
  assert (i = j) as ->; [|congruence].
  eapply (NoDup_lookup (ids l)); [done| |]; rewrite list_lookup_fmap; [by rewrite Hi|].
  rewrite Hj. cbn. by rewrite E.
Qed.

(** The selection depends only on which candidates remain. *)
Lemma select_perm rounds limit apps principals l1 l2 out :
  l1 ≡ₚ l2 -> NoDup (ids l1) ->
  select_loop rounds limit apps principals l1 out = select_loop rounds limit apps principals l2 out.
Proof.
  revert apps principals l1 l2 out.
  induction rounds as [|rounds IH]; intros apps principals l1 l2 out Hp Hn; [done|].
  destruct l1 as [|x1 l1], l2 as [|x2 l2]; cbn;
    [done|by apply Permutation_nil_cons in Hp|symmetry in Hp; by apply Permutation_nil_cons in Hp|].
  destruct (_ <? _); [|done].
  pose proof (best_of apps principals x1 l1) as H1. pose proof (best_of apps principals x2 l2) as H2.
  destruct (find_best _ _ x1 _ _) as [i1 b1], (find_best _ _ x2 _ _) as [i2 b2].
  destruct H1 as [P1 M1], H2 as [P2 M2].
  assert (b1 = b2) as <-.
  { apply (same_best apps principals (x1 :: l1)); [done| | |done|].
    - rewrite <- P1. apply elem_of_cons. by left.
    - rewrite Hp, <- P2. apply elem_of_cons. by left.
    - intros z Hz. apply M2. by rewrite <- Hp. }
  apply IH.
  - apply (Permutation_cons_inv (a := b1)). by rewrite P1, P2.
  - rewrite <- P1 in Hn. cbn in Hn. by apply NoDup_cons in Hn as [_ Hn].
Qed.

(** *** Statistics *)

Lemma fairStats_update f k k' stats :
  fairStats (fair_update f k stats) k' =
  if decide (k = k') then f (fairStats stats k) else fairStats stats k'.
Proof.
  unfold fair_update, fairStats at 1. destruct (decide (k = k')) as [<-|Hk].
  - by rewrite lookup_insert_eq.
  - by rewrite lookup_insert_ne.
Qed.

Lemma fair_update_comm f g k1 k2 stats :
  (forall s, f (g s) = g (f s)) ->
  fair_update f k1 (fair_update g k2 stats) = fair_update g k2 (fair_update f k1 stats).
Proof.
  intros Hfg. unfold fair_update at 1 3. rewrite !fairStats_update. unfold fair_update.
  destruct (decide (k2 = k1)) as [->|Hk].
  - rewrite decide_True by done. by rewrite !insert_insert_eq, Hfg.
  - rewrite decide_False by done. by rewrite insert_insert_ne.
Qed.

Lemma last_dispatch_max t s : updateAIJobLastDispatch t s =
  mkStats (InFlight s) (Selected s) (if HasDispatch s then Z.max (LastDispatchAt s) t else t) true.
Proof.
  unfold updateAIJobLastDispatch, After. destruct s as [f n last []]; [|done].
  cbn. destruct (Z.ltb_spec last t); cbn; unfold set; cbn; f_equal; lia.
Qed.

Lemma last_dispatch_comm t1 t2 s :
  updateAIJobLastDispatch t1 (updateAIJobLastDispatch t2 s) =
  updateAIJobLastDispatch t2 (updateAIJobLastDispatch t1 s).
Proof. rewrite !last_dispatch_max. cbn. f_equal. destruct (HasDispatch s); lia. Qed.

Lemma initial_stats_perm key jobs1 jobs2 acts1 acts2 :
  jobs1 ≡ₚ jobs2 -> acts1 ≡ₚ acts2 -> initial_stats key jobs1 acts1 = initial_stats key jobs2 acts2.
Proof.
  intros Hj Ha. unfold initial_stats. rewrite (foldl_perm _ jobs1 jobs2); [|clear|done].
  - apply foldl_perm; [|done]. intros stats a1 a2. repeat case_match; try done.
    apply fair_update_comm. intros. apply last_dispatch_comm.
  - intros stats j1 j2. repeat case_match; try done. by apply fair_update_comm.
Qed.

Lemma fairStats_empty k : fairStats ∅ k = mkStats 0 0 0 false.
Proof. unfold fairStats. by rewrite lookup_empty. Qed.

(** How many jobs in flight share a key. *)
Definition in_flight (key : AIJob.t -> string) (k : string) (jobs : list AIJob.t) : Z :=
  sum_Z (fun job => if aiJobInFlightForFairness (AIJob.Status job) && (key job =s k) then 1 else 0) jobs.

Lemma initial_load key jobs acts k :
  InFlight (fairStats (initial_stats key jobs acts) k) = in_flight key k jobs /\
  Selected (fairStats (initial_stats key jobs acts) k) = 0.
Proof.
  unfold in_flight.
  assert (Hj : forall l stats, Selected (fairStats stats k) = 0 ->
    let stats' := foldl (fun stats job =>
      if negb (aiJobInFlightForFairness (AIJob.Status job)) then stats
      else fair_update more_in_flight (key job) stats) stats l in
    InFlight (fairStats stats' k) = InFlight (fairStats stats k) + sum_Z (fun job =>
      if aiJobInFlightForFairness (AIJob.Status job) && (key job =s k) then 1 else 0) l /\
    Selected (fairStats stats' k) = 0).
  { induction l as [|x l IH]; intros stats Hs; cbn; [split; [lia|done]|].
    destruct (aiJobInFlightForFairness _); cbn; [|apply IH; done].
    destruct (IH (fair_update more_in_flight (key x) stats)) as [E1 E2].
    { rewrite fairStats_update. destruct (decide _); [by subst|done]. }
    split; [|done]. rewrite E1, fairStats_update. destruct (decide _) as [->|Hk].
    - rewrite String.eqb_refl. cbn. lia.
    - rewrite (proj2 (String.eqb_neq _ _)) by done. lia. }
  assert (Ha : forall l stats,
    let stats' := foldl (fun stats activity =>
      if IsZero (DispatchedAt activity) then stats
      else fair_update (updateAIJobLastDispatch (DispatchedAt activity)) (key (ActivityJob activity)) stats)
      stats l in
    InFlight (fairStats stats' k) = InFlight (fairStats stats k) /\
    Selected (fairStats stats' k) = Selected (fairStats stats k)).
  { induction l as [|x l IH]; intros stats; cbn; [done|]. destruct (IsZero _); [apply IH|].
    destruct (IH (fair_update (updateAIJobLastDispatch (DispatchedAt x)) (key (ActivityJob x)) stats))
      as [E1 E2].
    rewrite E1, E2, fairStats_update. destruct (decide _); [|done]. subst.
    unfold updateAIJobLastDispatch. by destruct (_ || _). }
  unfold initial_stats. pose proof (fairStats_empty k) as E0.
  destruct (Hj jobs ∅) as [E1 E2]; [by rewrite E0|]. rewrite E0 in E1.
  match goal with |- context [foldl _ (foldl ?f ∅ jobs) acts] =>
    destruct (Ha acts (foldl f ∅ jobs)) as [E3 E4] end.
  by rewrite E3, E4, E1, E2.
Qed.

(** *** What a selection takes *)

Definition is_prefix_of_choice (limit : Z) (remaining : list aiJobFairCandidate)
    (out result picked : list AIJob.t) : Prop :=
  result = out ++ picked /\ picked ⊆+ (Job <$> remaining) /\
  (Z.of_nat (length result) < limit -> picked ≡ₚ (Job <$> remaining)).

Lemma select_takes rounds limit apps principals remaining out :
  (length remaining <= rounds)%nat -> Z.of_nat (length out) <= limit ->
  exists picked, is_prefix_of_choice limit remaining out
    (select_loop rounds limit apps principals remaining out) picked /\
    Z.of_nat (length (select_loop rounds limit apps principals remaining out)) <= limit.
Proof.
  revert apps principals remaining out.
  induction rounds as [|rounds IH]; intros apps principals remaining out Hl Ho.
  { destruct remaining; [|cbn in Hl; lia]. exists []. unfold is_prefix_of_choice. cbn.
    rewrite app_nil_r. done. }
  destruct remaining as [|first rest]; cbn.
  { exists []. unfold is_prefix_of_choice. cbn. rewrite app_nil_r. done. }
  destruct (Z.ltb_spec (Z.of_nat (length out)) limit) as [Hlt|Hge].
  2: { exists []. unfold is_prefix_of_choice. cbn. rewrite app_nil_r.
       split_and!; [done|apply submseteq_nil_l|lia|lia]. }
  pose proof (best_of apps principals first rest) as Hb.
  destruct (find_best _ _ _ _ _) as [i x]. destruct Hb as [Hp _].
  destruct (IH (fair_update more_selected (ApplicationKey x) apps)
    (fair_update more_selected (PrincipalKey x) principals) (swap_remove i (first :: rest)) (out ++ [Job x]))
    as (picked & (E & Hsub & Hfull) & Hlen).
  { apply Permutation_length in Hp. cbn in *. lia. }
  { rewrite length_app. cbn. lia. }
  exists (Job x :: picked). unfold is_prefix_of_choice. rewrite E in *. rewrite <- app_assoc in *.
  assert (Hq : Job <$> first :: rest ≡ₚ Job x :: (Job <$> swap_remove i (first :: rest)))
    by by rewrite <- Hp at 1.
  cbn [fmap list_fmap] in Hq. rewrite Hq. split_and!; [done|by apply submseteq_skip| |done].
  intros Hlt2. f_equiv. by apply Hfull.
Qed.

(** How many of the picked jobs belong to an application. *)
Definition picks (k : string) (jobs : list AIJob.t) : Z :=
  sum_Z (fun job => if aiJobApplicationFairKey job =s k then 1 else 0) jobs.
Definition load (apps : gmap string aiJobFairLevelStats) (k : string) : Z :=
  InFlight (fairStats apps k) + Selected (fairStats apps k).

Definition well_keyed (c : aiJobFairCandidate) : Prop :=
  ApplicationKey c = aiJobApplicationFairKey (Job c) /\ AIJob.Status (Job c) <> AIJobStatusDispatching.

Lemma best_least_loaded apps principals x y :
  well_keyed x -> well_keyed y -> candidate_compare apps principals y x <> Lt ->
  load apps (ApplicationKey x) <= load apps (ApplicationKey y).
Proof.
  intros [_ Hx] [_ Hy] Hc. unfold candidate_compare, cmp_then in Hc. unfold cmp_on at 1 in Hc.
  rewrite (proj2 (String.eqb_neq _ _) Hx), (proj2 (String.eqb_neq _ _) Hy) in Hc. cbn in Hc.
  unfold cmp_on at 1, level_compare, cmp_then in Hc. unfold cmp_on at 1 in Hc. unfold load.
  match type of Hc with context [?a ?= ?b] => destruct (Z.compare_spec a b) end; try lia. done.
Qed.

Lemma load_pick apps k k' :
  load (fair_update more_selected k apps) k' = load apps k' + (if k =s k' then 1 else 0).
Proof.
  unfold load. rewrite fairStats_update. destruct (decide (k = k')) as [->|Hk].
  - rewrite String.eqb_refl. cbn. lia.
  - rewrite (proj2 (String.eqb_neq _ _)) by done. lia.
Qed.

Lemma picks_nonneg k l : 0 <= picks k l.
Proof. apply sum_Z_nonneg. intros x _. by destruct (_ =s _). Qed.

Lemma select_fair rounds limit apps principals remaining out y a :
  (length remaining <= rounds)%nat ->
  Forall well_keyed remaining -> NoDup (ids remaining) -> y ∈ remaining ->
  forall picked, select_loop rounds limit apps principals remaining out = out ++ picked ->
  Job y ∉ picked ->
  load apps a + picks a picked <=
    Z.max (load apps a) (load apps (ApplicationKey y) + picks (ApplicationKey y) picked + 1).
Proof.
  revert apps principals remaining out.
  induction rounds as [|rounds IH]; intros apps principals remaining out Hl Hk Hn Hy picked.
  { destruct remaining; [by apply elem_of_nil in Hy|cbn in Hl; lia]. }
  assert (Hstop : forall picked, picked = [] -> load apps a + picks a picked <=
    Z.max (load apps a) (load apps (ApplicationKey y) + picks (ApplicationKey y) picked + 1)).
  { intros p ->. cbn. lia. }
  destruct remaining as [|first rest]; [by apply elem_of_nil in Hy|]. cbn [select_loop].
  destruct (_ <? _).
  2: { intros E _. apply Hstop. by apply (app_inv_head out); rewrite app_nil_r. }
  pose proof (best_of apps principals first rest) as Hb.
  destruct (find_best _ _ _ _ _) as [i x]. destruct Hb as [Hp Hmin].
  intros E Hnot.
  assert (Hpx : exists picked', picked = Job x :: picked' /\
    select_loop rounds limit (fair_update more_selected (ApplicationKey x) apps)
      (fair_update more_selected (PrincipalKey x) principals) (swap_remove i (first :: rest))
      (out ++ [Job x]) = (out ++ [Job x]) ++ picked').
  { assert (Hpre : forall n l A P rem o, exists q, select_loop n l A P rem o = o ++ q).
    { clear. induction n as [|n IHn]; intros l A P [|f r] o; cbn; try (exists []; by rewrite app_nil_r).
      destruct (_ <? _); [|exists []; by rewrite app_nil_r].
      destruct (find_best _ _ _ _ _) as [j b].
      destruct (IHn l (fair_update more_selected (ApplicationKey b) A)
        (fair_update more_selected (PrincipalKey b) P) (swap_remove j (f :: r)) (o ++ [Job b])) as [q ->].
      exists (Job b :: q). by rewrite <- app_assoc. }
    destruct (Hpre rounds limit (fair_update more_selected (ApplicationKey x) apps)
      (fair_update more_selected (PrincipalKey x) principals) (swap_remove i (first :: rest))
      (out ++ [Job x])) as [q Hq].
    exists q. split; [|done]. rewrite Hq, <- app_assoc in E. symmetry. by apply app_inv_head in E. }
  destruct Hpx as (picked' & -> & Hrun).
  assert (Hxy : y <> x) by (intros ->; apply Hnot, elem_of_cons; by left).
  assert (Hy' : y ∈ swap_remove i (first :: rest)).
  { rewrite <- Hp in Hy. by apply elem_of_cons in Hy as [->|Hy]. }
  rewrite <- Hp in Hk, Hn. apply Forall_cons_iff in Hk as [Hkx Hk]. cbn in Hn.
  apply NoDup_cons in Hn as [_ Hn].
  specialize (IH (fair_update more_selected (ApplicationKey x) apps)
    (fair_update more_selected (PrincipalKey x) principals) (swap_remove i (first :: rest)) (out ++ [Job x])).
  assert (Hlen : (length (swap_remove i (first :: rest)) <= rounds)%nat)
    by (apply Permutation_length in Hp; cbn in *; lia).
  specialize (IH Hlen Hk Hn Hy' picked' Hrun).
  rewrite !load_pick in IH.
  assert (Hle : load apps (ApplicationKey x) <= load apps (ApplicationKey y)).
  { apply (best_least_loaded apps principals); [done| |by apply Hmin].
    by apply (proj1 (Forall_forall _ _) Hk). }
  assert (Hnot' : Job y ∉ picked') by (intros Hin; apply Hnot, elem_of_cons; by right).
  specialize (IH Hnot'). pose proof (picks_nonneg (ApplicationKey y) picked').
  unfold picks in *. cbn [sum_Z]. rewrite <- (proj1 Hkx).
  destruct (String.eqb_spec (ApplicationKey x) a) as [<-|Ha],
    (String.eqb_spec (ApplicationKey x) (ApplicationKey y)) as [Hxy'|Hxy']; rewrite <- ?Hxy' in *; lia.
Qed.

Lemma rank_candidates candidates jobs acts now limit :
  0 < limit ->
  rankAIJobFairCandidates candidates jobs acts now limit =
  select_loop (length candidates) limit
    (initial_stats aiJobApplicationFairKey jobs acts) (initial_stats aiJobPrincipalFairKey jobs acts)
    (map (newAIJobFairCandidate now) candidates) [].
Proof.
  intros Hl. unfold rankAIJobFairCandidates. rewrite (proj2 (Z.leb_gt _ _)) by lia.
  by destruct candidates.
Qed.

Lemma candidate_jobs now candidates : Job <$> map (newAIJobFairCandidate now) candidates = candidates.
Proof. induction candidates as [|j l IH]; cbn; congruence. Qed.

Lemma candidate_ids now candidates :
  ids (map (newAIJobFairCandidate now) candidates) = AIJob.ID <$> candidates.
Proof. induction candidates as [|j l IH]; cbn; congruence. Qed.

(** ** Properties *)

(** The ranking picks as many candidates as it may, each at most once. *)
Lemma rank_takes candidates jobs acts now limit :
  let ranked := rankAIJobFairCandidates candidates jobs acts now limit in
  ranked ⊆+ candidates /\ Z.of_nat (length ranked) = Z.min (Z.max 0 limit) (Z.of_nat (length candidates)).
Proof.
  cbv zeta.
  destruct (Z.le_gt_cases limit 0) as [Hl|Hl].
  { unfold rankAIJobFairCandidates. rewrite (proj2 (Z.leb_le _ _)) by lia. cbn.
    split; [apply submseteq_nil_l|lia]. }
  rewrite rank_candidates by done.
  destruct (select_takes (length candidates) limit (initial_stats aiJobApplicationFairKey jobs acts)
    (initial_stats aiJobPrincipalFairKey jobs acts) (map (newAIJobFairCandidate now) candidates) [])
    as (picked & (E & Hs & Hf) & Hlen).
  { by rewrite length_map. }
  { cbn. lia. }
  rewrite candidate_jobs in *. cbn in E. subst picked. split; [done|].
  pose proof (submseteq_length _ _ Hs).
  match type of Hlen with Z.of_nat (length ?r) <= _ => set (n := length r) in * end.
  destruct (Z.eq_dec (Z.of_nat n) limit) as [Heq|Hne]; [lia|].
  specialize (Hf ltac:(lia)). apply Permutation_length in Hf. fold n in Hf. lia.
Qed.

(** The ranking is a function of the state of the queue: whatever order the
    maps of jobs and events are visited in, the same jobs are selected in the
    same order. *)
Theorem rank_order_independent candidates1 candidates2 jobs1 jobs2 acts1 acts2 now limit :
  NoDup (AIJob.ID <$> candidates1) ->
  candidates1 ≡ₚ candidates2 -> jobs1 ≡ₚ jobs2 -> acts1 ≡ₚ acts2 ->
  rankAIJobFairCandidates candidates1 jobs1 acts1 now limit =
  rankAIJobFairCandidates candidates2 jobs2 acts2 now limit.
Proof.
  intros Hn Hc Hj Ha. destruct (Z.le_gt_cases limit 0) as [Hl|Hl].
  { unfold rankAIJobFairCandidates. by rewrite (proj2 (Z.leb_le _ _)) by lia. }
  rewrite !rank_candidates by done. rewrite !(initial_stats_perm _ jobs1 jobs2 acts1 acts2) by done.
  rewrite (Permutation_length Hc). apply select_perm; [by apply Permutation_map|].
  by rewrite candidate_ids.
Qed.

(** C14. Fair sharing between applications: when a queued job is left over,
    every application's load (jobs in flight and jobs selected now) exceeds the
    load of the left-over job's application by at most one, unless its jobs in
    flight alone already did. *)
Theorem rank_fair candidates jobs acts now limit waiting a :
  Forall (fun job => AIJob.Status job <> AIJobStatusDispatching) candidates ->
  NoDup (AIJob.ID <$> candidates) -> waiting ∈ candidates ->
  waiting ∉ rankAIJobFairCandidates candidates jobs acts now limit ->
  let selected := rankAIJobFairCandidates candidates jobs acts now limit in
  let b := aiJobApplicationFairKey waiting in
  in_flight aiJobApplicationFairKey a jobs + picks a selected <=
  Z.max (in_flight aiJobApplicationFairKey a jobs)
        (in_flight aiJobApplicationFairKey b jobs + picks b selected + 1).
Proof.
  intros Hq Hn Hw Hnot. cbv zeta. destruct (Z.le_gt_cases limit 0) as [Hl|Hl].
  { unfold rankAIJobFairCandidates. rewrite (proj2 (Z.leb_le _ _)) by lia. unfold picks. cbn [orb sum_Z]. lia. }
  rewrite rank_candidates in * by done.
  match goal with |- context [picks a ?r] => set (picked := r) in * end.
  pose proof (select_fair (length candidates) limit (initial_stats aiJobApplicationFairKey jobs acts)
    (initial_stats aiJobPrincipalFairKey jobs acts) (map (newAIJobFairCandidate now) candidates) []
    (newAIJobFairCandidate now waiting) a) as H.
  unfold load in H. destruct (initial_load aiJobApplicationFairKey jobs acts a) as [Ea Ea'].
  destruct (initial_load aiJobApplicationFairKey jobs acts
    (ApplicationKey (newAIJobFairCandidate now waiting))) as [Eb Eb'].
  rewrite Ea, Ea', Eb, Eb', !Z.add_0_r in H. apply H; try done.
  - by rewrite length_map.
  - apply Forall_map. eapply Forall_impl; [exact Hq|]. intros j Hj. done.
  - by rewrite candidate_ids.
  - by apply (list_elem_of_fmap_2 (newAIJobFairCandidate now)).
Qed.

(** A waiting job is not starved by priorities: its effective priority lies
    between 0 and 9, never falls as time passes, and after nine minutes of
    waiting is the highest there is. *)
Theorem effective_priority_ages job now :
  0 <= effectiveAIJobPriority job now <= aiJobMaxPriority /\
  (forall later, now <= later -> effectiveAIJobPriority job now <= effectiveAIJobPriority job later) /\
  (Z.max (AIJob.NextEligibleAt job) (AIJob.CreatedAt job) + 9 * aiJobPriorityAgingInterval <= now ->
   effectiveAIJobPriority job now = aiJobMaxPriority).
Proof.
  unfold effectiveAIJobPriority, aiJobMaxPriority, aiJobPriorityAgingInterval, minute, second,
    After, Before, TimeSub. cbv zeta.
  set (wait := if IsZero (AIJob.NextEligibleAt job) || (AIJob.NextEligibleAt job <? AIJob.CreatedAt job)
               then AIJob.CreatedAt job else AIJob.NextEligibleAt job).
  assert (Hw : wait <= Z.max (AIJob.NextEligibleAt job) (AIJob.CreatedAt job))
    by (unfold wait; destruct (_ || _); lia).
  set (base := if (if AIJob.Priority job <? 0 then 0 else AIJob.Priority job) >? 9 then 9
               else if AIJob.Priority job <? 0 then 0 else AIJob.Priority job).
  assert (Hb : 0 <= base <= 9).
  { unfold base. rewrite Z.gtb_ltb. destruct (Z.ltb_spec (AIJob.Priority job) 0); cbn;
      [lia|]. destruct (Z.ltb_spec 9 (AIJob.Priority job)); lia. }
  clearbody base wait.
  set (q t := Z.quot (Z.max min_int64 (Z.min max_int64 (t - wait))) (60 * 1000000000)).
  assert (Hq : forall t, wait < t -> 0 <= q t <= max_int64 / 60000000000).
  { intros t Ht. unfold q. rewrite Z.quot_div_nonneg by (unfold min_int64, max_int64; lia).
    split; [apply Z.div_pos; unfold min_int64, max_int64; lia|].
    apply Z.div_le_mono; unfold min_int64, max_int64; lia. }
  assert (Hm : forall t u, wait < t -> t <= u -> q t <= q u).
  { intros t u Ht Hu. unfold q. rewrite !Z.quot_div_nonneg by (unfold min_int64, max_int64; lia).
    apply Z.div_le_mono; unfold min_int64, max_int64; lia. }
  assert (Hs : forall t, wait < t -> base +i q t = base + q t).
  { intros t Ht. apply wrap64_id. specialize (Hq t Ht). unfold in_int64, min_int64, max_int64 in *.
    change (9223372036854775807 / 60000000000) with 153722867 in Hq. lia. }
  assert (Hval : forall t, (if (if wait <? t then base +i q t else base) >? 9 then 9
                            else if wait <? t then base +i q t else base)
                           = if wait <? t then Z.min 9 (base + q t) else base).
  { intros t. rewrite Z.gtb_ltb. destruct (Z.ltb_spec wait t) as [Ht|Ht].
    - rewrite Hs by done. destruct (Z.ltb_spec 9 (base + q t)); lia.
    - destruct (Z.ltb_spec 9 base); lia. }
  fold (q now). rewrite Hval. split; [|split].
  - destruct (Z.ltb_spec wait now) as [Ht|Ht]; [specialize (Hq _ Ht); lia|lia].
  - intros later Hlater. fold (q later). rewrite Hval.
    destruct (Z.ltb_spec wait now) as [Ht|Ht].
    + rewrite (proj2 (Z.ltb_lt _ _)) by lia. specialize (Hm _ _ Ht Hlater). lia.
    + destruct (Z.ltb_spec wait later) as [Ht'|Ht']; [|lia]. specialize (Hq _ Ht'). lia.
  - intros Hlong. rewrite (proj2 (Z.ltb_lt _ _)) by lia.
    assert (9 <= q now); [|lia]. unfold q.
    rewrite Z.quot_div_nonneg by (unfold min_int64, max_int64; lia).
    apply Z.div_le_lower_bound; unfold min_int64, max_int64; lia.
Qed.

(** ** Witnesses *)

Module Demo.
Definition job (id application : string) (created : time) : AIJob.t :=
  AIJob.zero <| AIJob.ID := id |> <| AIJob.ApplicationID := application |>
    <| AIJob.Status := AIJobStatusQueued |> <| AIJob.CreatedAt := created |>
    <| AIJob.NextEligibleAt := created |>.
Definition queue : list AIJob.t := [job "a1" "A" 1; job "a2" "A" 2; job "b1" "B" 3; job "b2" "B" 4].
End Demo.

Lemma rank_order_independent_witness :
  AIJob.ID <$> rankAIJobFairCandidates (reverse Demo.queue) Demo.queue [] 100 3 = ["a1"; "b1"; "a2"]%string.
Proof.
  rewrite <- (rank_order_independent Demo.queue (reverse Demo.queue) Demo.queue Demo.queue [] [] 100 3).
  - vm_compute. reflexivity.
  - apply (bool_decide_unpack _). vm_compute. exact I.
  - symmetry. apply reverse_Permutation.
  - reflexivity.
  - reflexivity.
Defined.

Lemma rank_fair_witness :
  let selected := rankAIJobFairCandidates Demo.queue Demo.queue [] 100 3 in
  in_flight aiJobApplicationFairKey "A" Demo.queue + picks "A" selected <=
  Z.max (in_flight aiJobApplicationFairKey "A" Demo.queue)
        (in_flight aiJobApplicationFairKey "B" Demo.queue + picks "B" selected + 1).
Proof.
  apply (rank_fair Demo.queue Demo.queue [] 100 3 (Demo.job "b2" "B" 4) "A").
  - repeat constructor; discriminate.
  - apply (bool_decide_unpack _). vm_compute. exact I.
  - do 3 (apply elem_of_cons; right). apply elem_of_cons. by left.
  - intros Hin. assert (Hid : "b2"%string ∈ AIJob.ID <$> rankAIJobFairCandidates Demo.queue Demo.queue [] 100 3)
      by (apply (list_elem_of_fmap_2 AIJob.ID) in Hin; exact Hin).
    revert Hid. apply (bool_decide_unpack _). vm_compute. exact I.
Defined.

Lemma effective_priority_ages_witness :
  effectiveAIJobPriority (Demo.job "a1" "A" 1) (10 * minute) = aiJobMaxPriority.
Proof. apply effective_priority_ages. vm_compute. discriminate. Defined.
