(* ===== verification/Outbox.v ===== *)
(** * The transactional outbox

    [backend/internal/controlplane/transactional_outbox.go] and the in-memory
    outbox of [operation_repository.go]: leases, ordering within an aggregate,
    retries with back-off, dead letters.  The publisher is a parameter, and so is
    the text of an error. *)

From S2P Require Import Prelude Repository.

Definition ErrTransactionalOutboxPublisherUnavailable : go_error :=
  ErrNew "transactional outbox publisher is not configured".
Definition transactionalOutboxLease : duration := 30 * second.

Definition transactionalOutboxRetryDelay (attempt : Z) : duration :=
  let attempt := if attempt <? 1 then 1 else attempt in
  let shift := attempt -i 1 in
  let shift := if shift >? 8 then 8 else shift in
  let delay := wrap64 (5 * second * wrap64 (Z.shiftl 1 shift)) in
  if delay >? 15 * minute then 15 * minute else delay.

(** ** The repository *)

Notation event := TransactionalOutboxEvent.t (only parsing).
Notation outbox := (gmap string TransactionalOutboxEvent.t) (only parsing).

Definition earlier_unpublished (candidate e : event) : bool :=
  (TransactionalOutboxEvent.AggregateType e =s TransactionalOutboxEvent.AggregateType candidate)
  && (TransactionalOutboxEvent.AggregateID e =s TransactionalOutboxEvent.AggregateID candidate)
  && (TransactionalOutboxEvent.EventVersion e <? TransactionalOutboxEvent.EventVersion candidate)
  && (TransactionalOutboxEvent.Status e <>s OutboxStatusPublished)
  && (TransactionalOutboxEvent.Status e <>s OutboxStatusDeadLetter).

(** A lease that has not run out. *)
Definition leased (now : time) (e : event) : bool :=
  (TransactionalOutboxEvent.Status e =s OutboxStatusPublishing)
  && match TransactionalOutboxEvent.LeaseUntil e with
     | Some leaseUntil => After leaseUntil now
     | None => false
     end.

Definition due_less (i j : event) : bool :=
  if TransactionalOutboxEvent.AvailableAt i =? TransactionalOutboxEvent.AvailableAt j
  then Before (TransactionalOutboxEvent.CreatedAt i) (TransactionalOutboxEvent.CreatedAt j)
  else Before (TransactionalOutboxEvent.AvailableAt i) (TransactionalOutboxEvent.AvailableAt j).

Definition claimed_event (now leaseUntil : time) (leaseToken : string) (e : event) : event :=
  let e := normalizeTransactionalOutboxEvent e in
  e <| TransactionalOutboxEvent.Status := OutboxStatusPublishing |>
    <| TransactionalOutboxEvent.AttemptCount := TransactionalOutboxEvent.AttemptCount e +i 1 |>
    <| TransactionalOutboxEvent.LeaseUntil := Some leaseUntil |>
    <| TransactionalOutboxEvent.LeaseToken := leaseToken |>
    <| TransactionalOutboxEvent.UpdatedAt := now |>.

Definition not_leased : go_error := ErrFmt "transactional outbox event is not leased" [].

(** The event a lease token still owns. *)
Definition owned (id leaseToken : string) (r : MemoryRepository) : option event :=
  match transactionalOutboxEvents r !! id with
  | Some e =>
      if (TransactionalOutboxEvent.Status e <>s OutboxStatusPublishing)
         || (TransactionalOutboxEvent.LeaseToken e <>s leaseToken)
      then None else Some e
  | None => None
  end.

Section Outbox.
Context `{range : MapRange}.

Definition hasEarlierUnpublishedOutboxEvent (events : outbox) (candidate : event) : bool :=
  match find_value (earlier_unpublished candidate) events with Some _ => true | None => false end.

(** The [continue]s of the loop over the events. *)
Definition claimable (events : outbox) (now : time) (e : event) : bool :=
  if After (TransactionalOutboxEvent.AvailableAt e) now
     || (TransactionalOutboxEvent.Status e =s OutboxStatusPublished)
     || (TransactionalOutboxEvent.Status e =s OutboxStatusDeadLetter) then false
  else if leased now e then false
  else if (TransactionalOutboxEvent.Status e <>s OutboxStatusPending)
          && (TransactionalOutboxEvent.Status e <>s OutboxStatusPublishing) then false
  else negb (hasEarlierUnpublishedOutboxEvent events e).

(** Listings sort by creation only; [sort.Slice] leaves ties open, and so does
    the order the map is visited in. *)
Definition ListTransactionalOutboxEvents (aggregateID : string) (r : MemoryRepository) : list event :=
  sort_by (fun i j => Before (TransactionalOutboxEvent.CreatedAt i) (TransactionalOutboxEvent.CreatedAt j))
    (List.filter (fun e => (aggregateID =s "") || (TransactionalOutboxEvent.AggregateID e =s aggregateID))
       (map_values (transactionalOutboxEvents r))).

Definition ClaimDueTransactionalOutboxEvents (now leaseUntil : time) (leaseToken : string) (limit : Z)
    : M (list event) :=
  if (limit <=? 0) || (TrimSpace leaseToken =s "") then mret []
  else
    events ← read transactionalOutboxEvents;
    let candidates := List.filter (claimable events now) (map_values events) in
    let candidates := first_n limit (sort_by due_less candidates) in
    let candidates := map (claimed_event now leaseUntil leaseToken) candidates in
    _ ← for_each (fun e => write (fun r =>
          r.[transactionalOutboxEvents]:[TransactionalOutboxEvent.ID e] <- e)) candidates;
    mret candidates.

Definition completed_event (publishedAt : time) (e : event) : event :=
  e <| TransactionalOutboxEvent.Status := OutboxStatusPublished |>
    <| TransactionalOutboxEvent.PublishedAt := Some publishedAt |>
    <| TransactionalOutboxEvent.LeaseUntil := None |>
    <| TransactionalOutboxEvent.LeaseToken := ""%string |>
    <| TransactionalOutboxEvent.LastError := ""%string |>
    <| TransactionalOutboxEvent.UpdatedAt := publishedAt |>.

Definition CompleteTransactionalOutboxEvent (id leaseToken : string) (publishedAt : time) : M unit :=
  found ← read (owned id leaseToken);
  match found with
  | None => fail not_leased
  | Some e => write (fun r => r.[transactionalOutboxEvents]:[id] <- completed_event publishedAt e)
  end.

Definition rescheduled_event (nextAttemptAt : time) (lastError : string) (deadLetter : bool)
    (updatedAt : time) (e : event) : event :=
  e <| TransactionalOutboxEvent.Status :=
         if deadLetter then OutboxStatusDeadLetter else OutboxStatusPending |>
    <| TransactionalOutboxEvent.AvailableAt := nextAttemptAt |>
    <| TransactionalOutboxEvent.LeaseUntil := None |>
    <| TransactionalOutboxEvent.LeaseToken := ""%string |>
    <| TransactionalOutboxEvent.LastError := trimTransactionalOutboxError lastError |>
    <| TransactionalOutboxEvent.UpdatedAt := updatedAt |>.

Definition RescheduleTransactionalOutboxEvent (id leaseToken : string) (nextAttemptAt : time)
    (lastError : string) (deadLetter : bool) (updatedAt : time) : M unit :=
  found ← read (owned id leaseToken);
  match found with
  | None => fail not_leased
  | Some e => write (fun r => r.[transactionalOutboxEvents]:[id] <-
                rescheduled_event nextAttemptAt lastError deadLetter updatedAt e)
  end.

Definition requeued_event (nextAttemptAt : time) (e : event) : event :=
  e <| TransactionalOutboxEvent.Status := OutboxStatusPending |>
    <| TransactionalOutboxEvent.AvailableAt := nextAttemptAt |>
    <| TransactionalOutboxEvent.AttemptCount := 0 |>
    <| TransactionalOutboxEvent.LeaseUntil := None |>
    <| TransactionalOutboxEvent.LeaseToken := ""%string |>
    <| TransactionalOutboxEvent.LastError := ""%string |>
    <| TransactionalOutboxEvent.UpdatedAt := nextAttemptAt |>.

Definition RequeueTransactionalOutboxEvent (id : string) (nextAttemptAt : time) : M unit :=
  found ← read (fun r => transactionalOutboxEvents r !! id);
  match found with
  | Some e =>
      if TransactionalOutboxEvent.Status e <>s OutboxStatusDeadLetter
      then fail (ErrFmt "transactional outbox event not found or not dead-lettered" [])
      else write (fun r => r.[transactionalOutboxEvents]:[id] <- requeued_event nextAttemptAt e)
  | None => fail (ErrFmt "transactional outbox event not found or not dead-lettered" [])
  end.

(** ** The service *)

Context (publisher : event -> option go_error) (Error : go_error -> string).

Definition first_error (firstErr err : option go_error) : option go_error :=
  match firstErr with Some _ => firstErr | None => err end.

(** One round of the publishing loop; [finishedAt] is the clock when the
    publisher has answered. *)
Definition publish_event (now : time) (leaseToken : string) (finishedAt : time)
    (firstErr : option go_error) (e : event) : M (option go_error) :=
  match publisher e with
  | None =>
      err ← catch (CompleteTransactionalOutboxEvent (TransactionalOutboxEvent.ID e) leaseToken finishedAt);
      mret (first_error firstErr err)
  | Some publishErr =>
      let deadLetter := TransactionalOutboxEvent.AttemptCount e >=? TransactionalOutboxEvent.MaxAttempts e in
      let nextAttemptAt := if negb deadLetter
        then now + transactionalOutboxRetryDelay (TransactionalOutboxEvent.AttemptCount e) else now in
      err ← catch (RescheduleTransactionalOutboxEvent (TransactionalOutboxEvent.ID e) leaseToken
              nextAttemptAt (Error publishErr) deadLetter finishedAt);
      mret (first_error (first_error firstErr err)
        (Some (ErrWrap ("publish transactional outbox event " +:+ TransactionalOutboxEvent.ID e +:+ ": %w")
                 publishErr)))
  end.

Fixpoint publish_events (now : time) (leaseToken : string) (clock : event -> time)
    (firstErr : option go_error) (events : list event) : M (option go_error) :=
  match events with
  | [] => mret firstErr
  | e :: rest =>
      firstErr ← publish_event now leaseToken (clock e) firstErr e;
      publish_events now leaseToken clock firstErr rest
  end.

(** A run that no other process interrupts; the interleavings are those of the
    operations above.  [token] is what [randomID] drew. *)
Definition PublishDueTransactionalOutbox (configured : bool) (now : time) (token : string)
    (clock : event -> time) (limit : Z) : M (option go_error) :=
  if negb configured then fail ErrTransactionalOutboxPublisherUnavailable
  else if limit <=? 0 then mret None
  else
    let leaseToken := ("outbox_lease_" +:+ token)%string in
    events ← ClaimDueTransactionalOutboxEvents now (now + transactionalOutboxLease) leaseToken limit;
    publish_events now leaseToken clock None events.

Definition requeue_event (id : string) (now : time) : M unit :=
  let id := TrimSpace id in
  _ ← check (id =s "") (ErrNew "transactional outbox event id is required");
  RequeueTransactionalOutboxEvent id now.
End Outbox.

(** ** Lemmas *)

#[local] Notation eid := TransactionalOutboxEvent.ID.
#[local] Notation events_of := transactionalOutboxEvents.

Section Lemmas.
Context `{range : MapRange}.

Lemma earlier_spec events candidate :
  hasEarlierUnpublishedOutboxEvent events candidate = false <->
  forall k e, events !! k = Some e -> earlier_unpublished candidate e = false.
Proof.
  unfold hasEarlierUnpublishedOutboxEvent. rewrite <- find_value_None. by destruct (find_value _ _).
Qed.

Lemma claimed_ID now until token e : eid (claimed_event now until token e) = eid e.
Proof. unfold claimed_event, normalizeTransactionalOutboxEvent. by destruct (_ <=? 0). Qed.

(** A claim stores the claimed form of the events it returns and touches
    nothing else. *)
Lemma claim_due_inv now until token limit r claimed r' :
  keyed eid (events_of r) ->
  ClaimDueTransactionalOutboxEvents now until token limit r = (Ok claimed, r') ->
  r' = (r <| transactionalOutboxEvents := events_of r' |>) /\ keyed eid (events_of r') /\
  NoDup (eid <$> claimed) /\
  (forall e, e ∈ claimed -> events_of r' !! eid e = Some e /\
     exists e0, events_of r !! eid e = Some e0 /\ claimable (events_of r) now e0 = true /\
       e = claimed_event now until token e0) /\
  (forall k, k ∉ eid <$> claimed -> events_of r' !! k = events_of r !! k).
Proof.
  intros Hk. unfold ClaimDueTransactionalOutboxEvents.
  destruct (_ || _).
  { intros H. injection H as <- <-.
    split_and!; [by destruct r|done|constructor|by intros e ?%elem_of_nil|done]. }
  unfold mbind at 1, M_bind, read at 1.
  fold (picked (claimable (events_of r) now) due_less limit (events_of r)).
  set (c := picked _ _ _ _). set (g := claimed_event now until token).
  unfold mbind, M_bind. rewrite for_each_write. intros [= <- <-].
  assert (Hc : NoDup (eid <$> map g c)).
  { assert (E : eid <$> map g c = eid <$> c).
    { rewrite <- list_fmap_compose. apply list_fmap_ext. intros i x _. apply claimed_ID. }
    rewrite E. by apply picked_NoDup. }
  set (f := fun (r : MemoryRepository) e => r.[transactionalOutboxEvents]:[eid e] <- e).
  assert (Hf : forall l r, foldl f r l =
    r <| transactionalOutboxEvents := foldl (fun m e => <[eid e := e]> m) (events_of r) l |>).
  { induction l as [|x l IH]; intros r0; cbn; [by destruct r0|]. rewrite IH. by destruct r0. }
  fold f. rewrite Hf. cbn [transactionalOutboxEvents set].
  destruct (foldl_store eid (map g c) (events_of r) Hc) as [Hin Hout].
  split_and!; [by destruct r|by apply keyed_store|done| |done].
  intros e He. split; [by apply Hin|].
  apply list_elem_of_fmap in He as (e0 & -> & He0).
  apply (elem_of_picked eid) in He0 as [He0 Hp]; [|done].
  exists e0. unfold g. by rewrite claimed_ID.
Qed.

(** ** Specification *)

(** What processes that do not hold the token do to the outbox before the
    instant [until]: claim, finish, reschedule and requeue, and insert events
    that are not there. *)
Inductive other_step (token : string) (until : time) : MemoryRepository -> MemoryRepository -> Prop :=
| Other_claim now until' token' limit claimed r r' :
    now < until -> ClaimDueTransactionalOutboxEvents now until' token' limit r = (Ok claimed, r') ->
    other_step token until r r'
| Other_complete id token' at_ r x r' :
    token' <> token -> CompleteTransactionalOutboxEvent id token' at_ r = (x, r') ->
    other_step token until r r'
| Other_reschedule id token' next text dead at_ r x r' :
    token' <> token -> RescheduleTransactionalOutboxEvent id token' next text dead at_ r = (x, r') ->
    other_step token until r r'
| Other_requeue id at_ r x r' :
    RequeueTransactionalOutboxEvent id at_ r = (x, r') -> other_step token until r r'
| Other_insert e r :
    validateMemoryOutboxInsert (events_of r) e = Ok tt ->
    other_step token until r (r.[transactionalOutboxEvents]:[eid e] <- e).

(** The event a process leased. *)
Definition held (token : string) (until : time) (e : event) : Prop :=
  TransactionalOutboxEvent.Status e = OutboxStatusPublishing /\
  TransactionalOutboxEvent.LeaseUntil e = Some until /\
  TransactionalOutboxEvent.LeaseToken e = token.

(** A failed delivery of the event [id] by some process, after which others may
    do anything to the other events. *)
Definition failed_delivery (publisher : event -> option go_error) (Error : go_error -> string)
    (id : string) (r r' : MemoryRepository) : Prop :=
  exists now until token limit claimed r1 e at_ firstErr answer r2,
    ClaimDueTransactionalOutboxEvents now until token limit r = (Ok claimed, r1) /\
    e ∈ claimed /\ eid e = id /\ is_Some (publisher e) /\
    publish_event publisher Error now token at_ firstErr e r1 = (Ok answer, r2) /\
    events_of r' !! id = events_of r2 !! id /\ keyed eid (events_of r').

Definition attempts_allowed (e : event) : Z :=
  TransactionalOutboxEvent.MaxAttempts (normalizeTransactionalOutboxEvent e).

(** ** Lemmas: leases *)

Lemma owned_Some id token r e :
  owned id token r = Some e <->
  events_of r !! id = Some e /\ TransactionalOutboxEvent.Status e = OutboxStatusPublishing /\
  TransactionalOutboxEvent.LeaseToken e = token.
Proof.
  unfold owned. destruct (events_of r !! id) as [e'|]; [|by split; [|intros ([=] & _)]].
  destruct (String.eqb_spec (TransactionalOutboxEvent.Status e') OutboxStatusPublishing),
    (String.eqb_spec (TransactionalOutboxEvent.LeaseToken e') token); cbn;
    (split; [intros [=]; by subst|intros ([= ->] & ? & ?); done]).
Qed.

Lemma claimed_held now until token e : held token until (claimed_event now until token e).
Proof. unfold held, claimed_event. by destruct (normalizeTransactionalOutboxEvent e). Qed.

Lemma held_leased token until now e : held token until e -> now < until -> leased now e = true.
Proof.
  intros (Hs & Hl & _) Hn. unfold leased. rewrite Hs, Hl, String.eqb_refl. cbn. by apply Z.ltb_lt.
Qed.

Lemma leased_not_claimable events now e : leased now e = true -> claimable events now e = false.
Proof. intros Hl. unfold claimable. rewrite Hl. by destruct (_ || _). Qed.

(** A claim before the end of a lease does not return the event. *)
Lemma held_not_claimed now until' token' limit r claimed r' token until e :
  keyed eid (events_of r) -> events_of r !! eid e = Some e -> held token until e -> now < until ->
  ClaimDueTransactionalOutboxEvents now until' token' limit r = (Ok claimed, r') ->
  eid e ∉ eid <$> claimed.
Proof.
  intros Hk He Hh Hn Hc Hin. apply claim_due_inv in Hc as (_ & _ & _ & Hcl & _); [|done].
  apply list_elem_of_fmap in Hin as (c & Ec & Hin). apply Hcl in Hin as (_ & e0 & He0 & Hcl0 & _).
  rewrite <- Ec in He0. assert (e0 = e) as -> by congruence.
  by rewrite (leased_not_claimable _ _ _ (held_leased _ _ _ _ Hh Hn)) in Hcl0.
Qed.

(** An update under a key by a function of the value stored there. *)
Lemma update_other (r : MemoryRepository) id (e v : event) :
  keyed eid (events_of r) -> eid v = id -> id <> eid e -> events_of r !! eid e = Some e ->
  keyed eid (<[id := v]> (events_of r)) /\ <[id := v]> (events_of r) !! eid e = Some e.
Proof. intros Hk Hv Hne He. split; [by apply keyed_insert|]. by rewrite lookup_insert_ne. Qed.

Lemma other_preserves token until r r' e :
  other_step token until r r' -> keyed eid (events_of r) -> held token until e ->
  events_of r !! eid e = Some e -> keyed eid (events_of r') /\ events_of r' !! eid e = Some e.
Proof.
  intros Hstep Hk Hh He. pose proof Hh as (Hs & Hl & Ht).
  destruct Hstep as [now until' token' limit claimed r r' Hn Hc|id token' at_ r x r' Hne Hc
    |id token' next text dead at_ r x r' Hne Hc|id at_ r x r' Hc|e' r Hc].
  - assert (Hnot : eid e ∉ eid <$> claimed) by by eapply held_not_claimed.
    apply claim_due_inv in Hc as (_ & Hk' & _ & _ & Hout); [|done]. by rewrite Hout.
  - unfold CompleteTransactionalOutboxEvent in Hc. m_inv Hc.
    destruct (owned id token' _) as [e'|] eqn:Eo; m_inv Hc.
    apply owned_Some in Eo as (E1 & E2 & E3).
    apply update_other; [done|exact (Hk id e' E1)|congruence|done].
  - unfold RescheduleTransactionalOutboxEvent in Hc. m_inv Hc.
    destruct (owned id token' _) as [e'|] eqn:Eo; m_inv Hc.
    apply owned_Some in Eo as (E1 & E2 & E3).
    apply update_other; [done|exact (Hk id e' E1)|congruence|done].
  - unfold RequeueTransactionalOutboxEvent in Hc. m_inv Hc.
    destruct (events_of _ !! id) as [e'|] eqn:Eo; [|by m_inv Hc].
    destruct (String.eqb_spec (TransactionalOutboxEvent.Status e') OutboxStatusDeadLetter) as [E|E];
      cbn in Hc; m_inv Hc.
    apply update_other; [done|exact (Hk id e' Eo)| |done].
    intros ->. rewrite He in Eo. injection Eo as ->. rewrite Hs in E. done.
  - apply update_other; [done|done| |done].
    intros Eq. unfold validateMemoryOutboxInsert in Hc. rewrite Eq in Hc.
    unfold has in Hc. by rewrite He in Hc.
Qed.

(** ** Lemmas: failed deliveries *)

Lemma total_publish publisher Error now token at_ firstErr e :
  total (publish_event publisher Error now token at_ firstErr e).
Proof. unfold publish_event. total_tac. Qed.

Lemma retry_shift attempt : 1 <= attempt <= max_int64 ->
  transactionalOutboxRetryDelay attempt = Z.min (15 * minute) (5 * second * 2 ^ (Z.min 8 (attempt - 1))).
Proof.
  intros Ha. unfold transactionalOutboxRetryDelay. rewrite (proj2 (Z.ltb_ge attempt 1)) by lia.
  rewrite (wrap64_id (attempt - 1)) by (unfold in_int64, min_int64; lia).
  assert (Hs : forall k, 0 <= k <= 8 ->
    (let delay := wrap64 (5 * second * wrap64 (Z.shiftl 1 k)) in
     if delay >? 15 * minute then 15 * minute else delay) = Z.min (15 * minute) (5 * second * 2 ^ k)).
  { intros k Hk. assert (k = 0 \/ k = 1 \/ k = 2 \/ k = 3 \/ k = 4 \/ k = 5 \/ k = 6 \/ k = 7 \/ k = 8) by lia.
    repeat match goal with H : _ \/ _ |- _ => destruct H as [->|H] end; try subst; vm_compute; reflexivity. }
  cbv zeta. replace (if attempt - 1 >? 8 then 8 else attempt - 1) with (Z.min 8 (attempt - 1)).
  - apply Hs. lia.
  - rewrite Z.gtb_ltb. destruct (Z.ltb_spec 8 (attempt - 1)); lia.
Qed.

Lemma allowed_MaxAttempts e1 e2 :
  TransactionalOutboxEvent.MaxAttempts e1 = TransactionalOutboxEvent.MaxAttempts e2 ->
  attempts_allowed e1 = attempts_allowed e2.
Proof.
  unfold attempts_allowed, normalizeTransactionalOutboxEvent. intros E. rewrite E. by destruct (_ <=? 0).
Qed.

Lemma normalize_fields e :
  let n := normalizeTransactionalOutboxEvent e in
  0 < TransactionalOutboxEvent.MaxAttempts n /\
  TransactionalOutboxEvent.AttemptCount n = TransactionalOutboxEvent.AttemptCount e /\
  attempts_allowed n = attempts_allowed e.
Proof.
  cbv zeta. unfold attempts_allowed, normalizeTransactionalOutboxEvent.
  destruct (Z.leb_spec (TransactionalOutboxEvent.MaxAttempts e) 0); cbn.
  - split_and!; [done|done|]. done.
  - by rewrite (proj2 (Z.leb_gt _ _)).
Qed.

Lemma failed_delivery_inv publisher Error id r r' e :
  keyed eid (events_of r) -> events_of r !! id = Some e ->
  0 <= TransactionalOutboxEvent.AttemptCount e < max_int64 ->
  failed_delivery publisher Error id r r' ->
  TransactionalOutboxEvent.Status e <> OutboxStatusDeadLetter /\ keyed eid (events_of r') /\
  exists e', events_of r' !! id = Some e' /\
    TransactionalOutboxEvent.AttemptCount e' = TransactionalOutboxEvent.AttemptCount e + 1 /\
    attempts_allowed e' = attempts_allowed e /\
    (TransactionalOutboxEvent.Status e' =
      if TransactionalOutboxEvent.AttemptCount e + 1 >=? attempts_allowed e
      then OutboxStatusDeadLetter else OutboxStatusPending).
Proof.
  intros Hk He Hcount (now & until & token & limit & claimed & r1 & c & at_ & firstErr & answer & r2 &
    Hc & Hin & <- & [err Herr] & Hp & Hl & Hk').
  apply claim_due_inv in Hc as (_ & Hk1 & _ & Hcl & _); [|done].
  destruct (Hcl c Hin) as (Hc1 & e0 & He0 & Hable & ->).
  rewrite claimed_ID in *. rewrite He in He0. injection He0 as <-.
  unfold publish_event in Hp. rewrite Herr in Hp.
  unfold mbind, M_bind, catch, RescheduleTransactionalOutboxEvent in Hp. rewrite claimed_ID in Hp.
  unfold mbind, M_bind, read in Hp.
  assert (Ho : owned (eid e) token r1 = Some (claimed_event now until token e)).
  { apply owned_Some. split; [done|]. by destruct (claimed_held now until token e) as (? & ? & ?). }
  rewrite Ho in Hp. injection Hp as _ <-.
  split; [|split; [done|]].
  { intros Hd. unfold claimable in Hable. rewrite Hd in Hable.
    str_eval. by rewrite orb_true_r in Hable. }
  rewrite Hl. eexists. split; [apply lookup_insert_eq|].
  destruct (normalize_fields e) as (N1 & N2 & N3).
  unfold claimed_event. cbn. rewrite N2.
  rewrite wrap64_id by (unfold in_int64, min_int64 in *; lia).
  split_and!; [done| |].
  { rewrite <- N3. by apply allowed_MaxAttempts. }
  unfold attempts_allowed. by destruct (_ >=? _).
Qed.
End Lemmas.

(** ** Properties *)

Section Properties.
Context `{range : MapRange}.

(** C15. A claimed event belongs to its claimant: until the lease runs out,
    whatever the processes with other tokens do (claim, finish, reschedule,
    requeue or insert events, in any order), the event stays as it was claimed,
    no claim returns it, and its holder can mark it published. *)
Theorem lease_exclusive now until token limit r claimed r1 e r2 :
  keyed eid (events_of r) ->
  ClaimDueTransactionalOutboxEvents now until token limit r = (Ok claimed, r1) -> e ∈ claimed ->
  rtc (other_step token until) r1 r2 ->
  events_of r2 !! eid e = Some e /\
  (forall now' until' token' limit' claimed' r3, now' < until ->
     ClaimDueTransactionalOutboxEvents now' until' token' limit' r2 = (Ok claimed', r3) ->
     eid e ∉ eid <$> claimed') /\
  forall at_, CompleteTransactionalOutboxEvent (eid e) token at_ r2
    = (Ok tt, r2.[transactionalOutboxEvents]:[eid e] <- completed_event at_ e).
Proof.
  intros Hk Hc Hin Hrtc. apply claim_due_inv in Hc as (_ & Hk1 & _ & Hcl & _); [|done].
  destruct (Hcl e Hin) as (He & e0 & _ & _ & Ee).
  assert (Hh : held token until e) by (subst e; apply claimed_held). clear Hk Hcl Hin Ee e0.
  assert (H2 : keyed eid (events_of r2) /\ events_of r2 !! eid e = Some e).
  { induction Hrtc as [x|x y z Hs _ IH]; [done|].
    destruct (other_preserves _ _ _ _ _ Hs Hk1 Hh He). by apply IH. }
  destruct H2 as [Hk2 He2]. split; [done|split].
  - intros now' until' token' limit' claimed' r3 Hn Hc'. by eapply held_not_claimed.
  - intros at_. unfold CompleteTransactionalOutboxEvent, mbind, M_bind, read.
    rewrite (proj2 (owned_Some (eid e) token r2 e)); [done|]. split; [done|]. by destruct Hh as (? & ? & ?).
Qed.

(** The events of an aggregate go out in the order of their versions: a claim
    returns at most as many events as asked for, each once and due, and when an
    event has been claimed every earlier event of its aggregate has been
    published or given up. *)
Theorem claims_in_order now until token limit r claimed r' :
  keyed eid (events_of r) -> 0 <= limit ->
  ClaimDueTransactionalOutboxEvents now until token limit r = (Ok claimed, r') ->
  Z.of_nat (length claimed) <= limit /\ NoDup (eid <$> claimed) /\
  forall e, e ∈ claimed ->
    TransactionalOutboxEvent.AvailableAt e <= now /\ held token until e /\
    forall k earlier, events_of r' !! k = Some earlier ->
      TransactionalOutboxEvent.AggregateType earlier = TransactionalOutboxEvent.AggregateType e ->
      TransactionalOutboxEvent.AggregateID earlier = TransactionalOutboxEvent.AggregateID e ->
      TransactionalOutboxEvent.EventVersion earlier < TransactionalOutboxEvent.EventVersion e ->
      TransactionalOutboxEvent.Status earlier ∈ [OutboxStatusPublished; OutboxStatusDeadLetter].
Proof.
  intros Hk Hlim Hc. split.
  { unfold ClaimDueTransactionalOutboxEvents in Hc. destruct (_ || _).
    - injection Hc as <- <-. done.
    - unfold mbind, M_bind, read in Hc. rewrite for_each_write in Hc. injection Hc as <- _.
      rewrite length_map. by apply first_n_length. }
  apply claim_due_inv in Hc as (_ & Hk' & Hnd & Hcl & Hout); [|done]. split; [done|].
  intros e He. destruct (Hcl e He) as (He' & e0 & He0 & Hable & ->).
  assert (Hf : TransactionalOutboxEvent.AvailableAt (claimed_event now until token e0)
                 = TransactionalOutboxEvent.AvailableAt e0 /\
    TransactionalOutboxEvent.AggregateType (claimed_event now until token e0)
      = TransactionalOutboxEvent.AggregateType e0 /\
    TransactionalOutboxEvent.AggregateID (claimed_event now until token e0)
      = TransactionalOutboxEvent.AggregateID e0 /\
    TransactionalOutboxEvent.EventVersion (claimed_event now until token e0)
      = TransactionalOutboxEvent.EventVersion e0)
    by (unfold claimed_event, normalizeTransactionalOutboxEvent; by destruct (_ <=? 0)).
  destruct Hf as (-> & -> & -> & ->). unfold claimable in Hable.
  destruct (_ || _) eqn:E1 in Hable; [done|]. destruct (leased now e0); [done|].
  destruct (_ && _) in Hable; [done|]. apply negb_true_iff in Hable. boolify.
  split; [unfold After in *; lia|]. split; [apply claimed_held|].
  intros k earlier Hearlier Ht Hid Hv.
  assert (Hno : forall k' e', events_of r !! k' = Some e' -> earlier_unpublished e0 e' = false)
    by by apply earlier_spec.
  (* the earlier event was not claimed itself *)
  assert (Hold : events_of r !! k = Some earlier).
  { destruct (decide (k ∈ eid <$> claimed)) as [Hin|Hnot]; [|by rewrite <- Hout].
    apply list_elem_of_fmap in Hin as (c & -> & Hc). destruct (Hcl c Hc) as (Hc' & c0 & Hc0 & Hcable & ->).
    rewrite Hc' in Hearlier. injection Hearlier as <-. exfalso.
    assert (Hc0s : TransactionalOutboxEvent.Status c0 <> OutboxStatusPublished /\
                   TransactionalOutboxEvent.Status c0 <> OutboxStatusDeadLetter).
    { unfold claimable in Hcable. destruct (_ || _) eqn:E in Hcable; [done|]. boolify. done. }
    specialize (Hno _ _ Hc0). unfold earlier_unpublished in Hno. destruct Hc0s as [S1 S2].
    rewrite (proj2 (String.eqb_neq _ _) S1), (proj2 (String.eqb_neq _ _) S2) in Hno.
    unfold claimed_event, normalizeTransactionalOutboxEvent in Ht, Hid, Hv.
    destruct (_ <=? 0) in Ht, Hid, Hv; cbn in *;
      rewrite Ht, Hid, !String.eqb_refl, (proj2 (Z.ltb_lt _ _) Hv) in Hno; done. }
  specialize (Hno _ _ Hold). unfold earlier_unpublished in Hno.
  rewrite Ht, Hid, !String.eqb_refl, (proj2 (Z.ltb_lt _ _) Hv) in Hno. cbn in Hno.
  apply andb_false_iff in Hno as [Hno|Hno]; apply negb_false_iff, String.eqb_eq in Hno; rewrite Hno;
    rewrite !elem_of_cons; tauto.
Qed.

(** Retries back off: the delay after an attempt doubles from five seconds and
    never exceeds fifteen minutes, for every attempt number an [int] can hold,
    without overflow. *)
Theorem retry_delay_backs_off attempt :
  in_int64 attempt ->
  transactionalOutboxRetryDelay attempt
    = Z.min (15 * minute) (5 * second * 2 ^ (Z.min 8 (Z.max 1 attempt - 1))) /\
  5 * second <= transactionalOutboxRetryDelay attempt <= 15 * minute /\
  (attempt < max_int64 ->
   transactionalOutboxRetryDelay attempt <= transactionalOutboxRetryDelay (attempt + 1)).
Proof.
  intros Ha. unfold in_int64 in Ha.
  assert (Hmax : forall n, in_int64 n -> transactionalOutboxRetryDelay n
    = Z.min (15 * minute) (5 * second * 2 ^ (Z.min 8 (Z.max 1 n - 1)))).
  { intros n Hn. unfold in_int64 in Hn. destruct (Z.le_gt_cases 1 n).
    - rewrite Z.max_r by done. apply retry_shift. lia.
    - rewrite Z.max_l by lia. unfold transactionalOutboxRetryDelay.
      rewrite (proj2 (Z.ltb_lt n 1)) by lia. vm_compute. reflexivity. }
  assert (Hpow : forall a b, 0 <= a <= b -> 2 ^ a <= 2 ^ b) by (intros a b ?; apply Z.pow_le_mono_r; lia).
  rewrite !Hmax by done. split; [done|]. split; [split|].
  - pose proof (Hpow 0 (Z.min 8 (Z.max 1 attempt - 1)) ltac:(lia)). change (2 ^ 0) with 1 in *.
    unfold minute, second. lia.
  - lia.
  - intros Hlt. rewrite Hmax by (unfold in_int64; lia).
    pose proof (Hpow (Z.min 8 (Z.max 1 attempt - 1)) (Z.min 8 (Z.max 1 (attempt + 1) - 1)) ltac:(lia)).
    unfold second. lia.
Qed.

(** C19. An event the publisher keeps refusing is not retried for ever: after [n]
    failed deliveries, whoever made them and whatever happened to other events
    in between, [n] is at most the number of attempts the event allows, and the
    event is in the dead letters exactly when it has used them all. *)
Theorem refused_event_given_up publisher Error id n r r' e :
  keyed eid (events_of r) -> events_of r !! id = Some e ->
  TransactionalOutboxEvent.AttemptCount e = 0 ->
  TransactionalOutboxEvent.Status e = OutboxStatusPending ->
  attempts_allowed e < max_int64 ->
  nsteps (failed_delivery publisher Error id) n r r' ->
  Z.of_nat n <= attempts_allowed e /\
  exists e', events_of r' !! id = Some e' /\ TransactionalOutboxEvent.AttemptCount e' = Z.of_nat n /\
    (TransactionalOutboxEvent.Status e' = OutboxStatusDeadLetter <-> Z.of_nat n = attempts_allowed e).
Proof.
  intros Hk He H0 Hs Hmax Hn.
  enough (H : keyed eid (events_of r') /\ Z.of_nat n <= attempts_allowed e /\
    exists e', events_of r' !! id = Some e' /\ TransactionalOutboxEvent.AttemptCount e' = Z.of_nat n /\
      attempts_allowed e' = attempts_allowed e /\
      (TransactionalOutboxEvent.Status e' = OutboxStatusDeadLetter <-> Z.of_nat n = attempts_allowed e)).
  { destruct H as (_ & H1 & e' & H2 & H3 & _ & H4). eauto. }
  assert (Hpos : 0 < attempts_allowed e) by apply normalize_fields.
  revert r' Hn. induction n as [|n IH]; intros r' Hn.
  - inversion Hn; subst. split_and!; [done|lia|]. exists e. split_and!; [done|done|done|].
    rewrite Hs. split; [done|lia].
  - apply nsteps_inv_r in Hn as (r1 & Hn & H1).
    destruct (IH _ Hn) as (Hk1 & Hle & e1 & E1 & E2 & E3 & E4).
    apply (failed_delivery_inv _ _ _ _ _ e1) in H1 as (Hd & Hk' & e' & F1 & F2 & F3 & F4);
      [|done|done|lia].
    assert (Hlt : Z.of_nat n <> attempts_allowed e) by (intros Heq; by apply Hd, E4).
    split; [done|]. split; [lia|]. exists e'. split_and!; [done|lia|congruence|].
    rewrite F4, E2, E3, Z.geb_leb.
    destruct (Z.leb_spec (attempts_allowed e) (Z.of_nat n + 1)); split; intros; first [done|lia].
Qed.
End Properties.

(** ** Witnesses *)

Module Demo.
#[local] Existing Instance canonical_range.
Open Scope string_scope.

Definition pending (id : string) (version : Z) : event :=
  TransactionalOutboxEvent.zero <| eid := id |>
    <| TransactionalOutboxEvent.AggregateType := "ai_job" |>
    <| TransactionalOutboxEvent.AggregateID := "job_1" |>
    <| TransactionalOutboxEvent.EventVersion := version |>
    <| TransactionalOutboxEvent.Status := OutboxStatusPending |>
    <| TransactionalOutboxEvent.MaxAttempts := 1%Z |>.
(** Two versions of one job. *)
Definition two_events : MemoryRepository :=
  (NewMemoryRepository.[transactionalOutboxEvents]:["e1"] <- pending "e1" 1)
  .[transactionalOutboxEvents]:["e2"] <- pending "e2" 2.
Definition claim : M (list event) := ClaimDueTransactionalOutboxEvents 5 35 "t" 10.
Definition leased_event : event := claimed_event 5 35 "t" (pending "e1" 1).
Definition refused (e : event) : option go_error := Some (ErrNew "down").
Close Scope string_scope.

Lemma two_events_keyed : keyed eid (events_of two_events).
Proof. apply keyed_insert; [|done]. apply keyed_insert; [|done]. apply keyed_empty. Qed.
End Demo.

Lemma claims_in_order_witness :
  match Demo.claim Demo.two_events with
  | (Ok claimed, r') => Z.of_nat (length claimed) <= 10 /\ Demo.leased_event ∈ claimed
  | _ => False
  end.
Proof.
  destruct (Demo.claim Demo.two_events) as [[claimed|err] r'] eqn:E; [|vm_compute in E; discriminate E].
  split.
  - refine (proj1 (claims_in_order (range := canonical_range) 5 35 "t"%string 10 Demo.two_events claimed r'
      Demo.two_events_keyed _ E)). discriminate.
  - assert (Hc : claimed = [Demo.leased_event]) by (vm_compute in E; injection E as <- _; reflexivity).
    rewrite Hc. by left.
Defined.

Lemma lease_exclusive_witness :
  match Demo.claim Demo.two_events with
  | (Ok _, r1) => events_of r1 !! "e1"%string = Some Demo.leased_event
  | _ => False
  end.
Proof.
  destruct (Demo.claim Demo.two_events) as [[claimed|err] r1] eqn:E; [|vm_compute in E; discriminate E].
  refine (proj1 (lease_exclusive (range := canonical_range) 5 35 "t"%string 10 Demo.two_events claimed r1
    Demo.leased_event r1 Demo.two_events_keyed E _ (rtc_refl _ _))).
  assert (Hc : claimed = [Demo.leased_event]) by (vm_compute in E; injection E as <- _; reflexivity).
  rewrite Hc. by left.
Defined.

Lemma retry_delay_backs_off_witness :
  transactionalOutboxRetryDelay 3 = 20 * second /\ transactionalOutboxRetryDelay max_int64 = 15 * minute.
Proof.
  split.
  - rewrite (proj1 (retry_delay_backs_off 3 ltac:(split; discriminate))). reflexivity.
  - rewrite (proj1 (retry_delay_backs_off max_int64 ltac:(split; discriminate))). reflexivity.
Defined.

Lemma refused_event_given_up_witness :
  exists r', nsteps (failed_delivery (range := canonical_range) Demo.refused (fun _ => "down"%string) "e1")
               1 Demo.two_events r' /\
    exists e', events_of r' !! "e1"%string = Some e' /\
      TransactionalOutboxEvent.Status e' = OutboxStatusDeadLetter.
Proof.
  destruct (Demo.claim Demo.two_events) as [[claimed|err] r1] eqn:E; [|vm_compute in E; discriminate E].
  assert (Hc : claimed = [Demo.leased_event] /\ events_of r1 !! "e1"%string = Some Demo.leased_event
    /\ keyed eid (events_of r1)).
  { pose proof (claim_due_inv (range := canonical_range) _ _ _ _ _ _ _ Demo.two_events_keyed E)
      as (_ & Hk & _ & _ & _).
    vm_compute in E. injection E as <- <-. split; [reflexivity|]. split; [reflexivity|exact Hk]. }
  destruct Hc as (-> & He1 & Hk1).
  destruct (publish_event Demo.refused (fun _ => "down"%string) 5 "t" 6 None Demo.leased_event r1)
    as [[answer|err] r2] eqn:Ep; [|by destruct (total_publish _ _ _ _ _ _ _ _ err (f_equal fst Ep))].
  assert (Hk2 : keyed eid (events_of r2)).
  { cbn in Ep. unfold mbind, M_bind, catch, RescheduleTransactionalOutboxEvent, mbind, M_bind, read in Ep.
    unfold owned in Ep. rewrite He1 in Ep. cbn in Ep. injection Ep as _ <-.
    by apply keyed_insert. }
  assert (Hs : nsteps (failed_delivery (range := canonical_range) Demo.refused (fun _ => "down"%string) "e1")
               1 Demo.two_events r2).
  { apply nsteps_once. exists 5, 35, "t"%string, 10, [Demo.leased_event], r1, Demo.leased_event, 6, None, answer, r2.
    split_and!; [exact E|by left|reflexivity|by eexists|exact Ep|reflexivity|exact Hk2]. }
  exists r2. split; [exact Hs|].
  destruct (refused_event_given_up (range := canonical_range) Demo.refused (fun _ => "down"%string) "e1" 1
    Demo.two_events r2 (Demo.pending "e1" 1) Demo.two_events_keyed) as (_ & e' & He' & _ & Hd).
  - reflexivity.
  - reflexivity.
  - reflexivity.
  - reflexivity.
  - exact Hs.
  - exists e'. split; [exact He'|]. apply Hd. reflexivity.
Defined.
