(* ===== verification/Attempts.v ===== *)
(** * Operations and provider attempts

    The in-memory half of [backend/internal/controlplane/operation_repository.go]
    up to the settlement: operations with their idempotency scope, attempts with
    the versioned state of their dispatch, reconciliation.  A lookup that returns
    the zero attempt and [false] is [None]. *)

From S2P Require Import Prelude Canonical Repository.

Definition ErrAIAttemptDispatchConflict : go_error :=
  ErrNew "ai attempt dispatch intent conflicts with existing state".

Definition applyAIAttemptDispatchUpdate (current requested : AIAttempt.t) : AIAttempt.t :=
  current
    <| AIAttempt.DispatchState := AIAttempt.DispatchState requested |>
    <| AIAttempt.DispatchVersion := AIAttempt.DispatchVersion current +i 1 |>
    <| AIAttempt.DispatchKey := AIAttempt.DispatchKey requested |>
    <| AIAttempt.DispatchIntentJSON := AIAttempt.DispatchIntentJSON requested |>
    <| AIAttempt.DispatchSubmittedAt := AIAttempt.DispatchSubmittedAt requested |>
    <| AIAttempt.ProviderTaskID := AIAttempt.ProviderTaskID requested |>
    <| AIAttempt.ProviderRequestID := AIAttempt.ProviderRequestID requested |>
    <| AIAttempt.ProviderTaskStatus := AIAttempt.ProviderTaskStatus requested |>
    <| AIAttempt.ProviderAcceptedAt := AIAttempt.ProviderAcceptedAt requested |>
    <| AIAttempt.LastReconciledAt := AIAttempt.LastReconciledAt requested |>
    <| AIAttempt.ReconcileAfter := AIAttempt.ReconcileAfter requested |>
    <| AIAttempt.UpdatedAt := AIAttempt.UpdatedAt requested |>.

Definition aiAttemptReconciliationTime (attempt : AIAttempt.t) : time :=
  match AIAttempt.ReconcileAfter attempt with
  | Some at_ => at_
  | None => AIAttempt.UpdatedAt attempt
  end.

(** Dispatch states in which a provider may hold a task. *)
Definition dispatched (attempt : AIAttempt.t) : bool :=
  oneOf (AIAttempt.DispatchState attempt)
    [AIAttemptDispatchSubmitted; AIAttemptDispatchAccepted; AIAttemptDispatchUnknown].

Definition aiAttemptDueForReconciliation (attempt : AIAttempt.t) (now : time) : bool :=
  if (AIAttempt.Status attempt <>s AIAttemptStatusRunning) || negb (dispatched attempt) then false
  else match AIAttempt.ReconcileAfter attempt with
       | None => true
       | Some at_ => negb (After at_ now)
       end.

(** An operation that is still open, or failed only because the provider's
    answer is unknown. *)
Definition status_unknown (operation : AIOperation.t) : bool :=
  (AIOperation.Status operation =s AIOperationStatusFailed)
  && (AIOperation.ErrorType operation =s "provider_status_unknown").

Section Attempts.
Context `{range : MapRange}.

(** ** Operations *)

Definition CreateAIOperation (operation : AIOperation.t) : M (AIOperation.t * bool) :=
  let operation := normalizeAIOperation operation in
  replay ← read (fun r =>
    if AIOperation.IdempotencyKey operation <>s ""
    then find_value (fun current => sameAIOperationIdempotencyScope current operation) (aiOperations r)
    else None);
  match replay with
  | Some current => mret (current, false)
  | None =>
      r ← read id;
      _ ← check (has (aiOperations r) (AIOperation.ID operation))
            (exists_error "ai operation %q already exists" (AIOperation.ID operation));
      _ ← write (fun r => r.[aiOperations]:[AIOperation.ID operation] <- operation);
      mret (operation, true)
  end.

Definition FindAIOperation (id : string) (r : MemoryRepository) : option AIOperation.t :=
  aiOperations r !! id.

Definition MarkAIOperationRunning (id : string) (updatedAt : time) : M bool :=
  found ← read (FindAIOperation id);
  match found with
  | None => mret false
  | Some operation =>
      if (AIOperation.Status operation <>s AIOperationStatusAccepted) && negb (status_unknown operation)
      then mret false
      else
        _ ← write (fun r => r.[aiOperations]:[id] <- operation
              <| AIOperation.Status := AIOperationStatusRunning |>
              <| AIOperation.ErrorType := ""%string |>
              <| AIOperation.UpdatedAt := updatedAt |>
              <| AIOperation.CompletedAt := None |>);
        mret true
  end.

Definition CompleteAIOperation (id status errorType : string) (completedAt : time) : M bool :=
  found ← read (FindAIOperation id);
  match found with
  | None => mret false
  | Some operation =>
      if (AIOperation.Status operation <>s AIOperationStatusAccepted)
         && (AIOperation.Status operation <>s AIOperationStatusRunning)
         && negb (status_unknown operation)
      then mret false
      else
        _ ← write (fun r => r.[aiOperations]:[id] <- operation
              <| AIOperation.Status := status |>
              <| AIOperation.ErrorType := errorType |>
              <| AIOperation.UpdatedAt := completedAt |>
              <| AIOperation.CompletedAt := Some completedAt |>);
        mret true
  end.

(** ** Attempts *)

Definition same_attempt_number (attempt current : AIAttempt.t) : bool :=
  (AIAttempt.OperationID current =s AIAttempt.OperationID attempt)
  && (AIAttempt.AttemptNumber current =? AIAttempt.AttemptNumber attempt).

Definition CreateOrGetAIAttempt (attempt : AIAttempt.t) : M (AIAttempt.t * bool) :=
  let attempt := normalizeAIAttempt attempt in
  r ← read id;
  _ ← check (negb (has (aiOperations r) (AIAttempt.OperationID attempt)))
        (exists_error "ai operation %q not found" (AIAttempt.OperationID attempt));
  match find_value (same_attempt_number attempt) (aiAttempts r) with
  | Some current => mret (current, false)
  | None =>
      _ ← check (has (aiAttempts r) (AIAttempt.ID attempt))
            (exists_error "ai attempt %q already exists" (AIAttempt.ID attempt));
      _ ← write (fun r => r.[aiAttempts]:[AIAttempt.ID attempt] <- attempt);
      mret (attempt, true)
  end.

Definition CreateAIAttempt (attempt : AIAttempt.t) : M unit :=
  '(_, created) ← CreateOrGetAIAttempt attempt;
  check (negb created) (ErrFmt "ai attempt number already exists" []).

Definition FindAIAttempt (id : string) (r : MemoryRepository) : option AIAttempt.t :=
  aiAttempts r !! TrimSpace id.

Definition attempt_less (i j : AIAttempt.t) : bool :=
  if AIAttempt.AttemptNumber i =? AIAttempt.AttemptNumber j
  then str_ltb (AIAttempt.ID i) (AIAttempt.ID j)
  else AIAttempt.AttemptNumber i <? AIAttempt.AttemptNumber j.
Definition ListAIAttemptsByOperationID (operationID : string) (r : MemoryRepository) : list AIAttempt.t :=
  sort_by attempt_less
    (List.filter (fun attempt => AIAttempt.OperationID attempt =s TrimSpace operationID)
       (map_values (aiAttempts r))).

(** The attempt of another that already carries the provider task. *)
Definition task_taken (current requested other : AIAttempt.t) : bool :=
  (AIAttempt.ID other <>s AIAttempt.ID current)
  && (AIAttempt.ProviderTaskID other =s AIAttempt.ProviderTaskID requested)
  && (AIAttempt.ProviderAccountID other =s AIAttempt.ProviderAccountID requested).

Definition UpdateAIAttemptDispatch (requested : AIAttempt.t) (expectedVersion : Z)
    : M (option AIAttempt.t * bool) :=
  r ← read id;
  match aiAttempts r !! AIAttempt.ID requested with
  | None => mret (None, false)
  | Some current =>
      if (AIAttempt.Status current <>s AIAttemptStatusRunning)
         || negb (AIAttempt.DispatchVersion current =? expectedVersion)
      then mret (Some current, false)
      else
        _ ← check ((AIAttempt.ProviderTaskID requested <>s "")
                   && match find_value (task_taken current requested) (aiAttempts r) with
                      | Some _ => true | None => false end)
              ErrAIAttemptDispatchConflict;
        let current := applyAIAttemptDispatchUpdate current requested in
        _ ← write (fun r => r.[aiAttempts]:[AIAttempt.ID current] <- current);
        mret (Some current, true)
  end.

Definition ScheduleAIAttemptReconciliation (id_ : string) (expectedVersion : Z) (scheduledAt : time)
    (audit : AuditLog.t) : M (option AIAttempt.t * bool) :=
  r ← read id;
  match FindAIAttempt id_ r with
  | None => mret (None, false)
  | Some current =>
      if (AIAttempt.Status current <>s AIAttemptStatusRunning)
         || negb (AIAttempt.DispatchVersion current =? expectedVersion)
         || negb (dispatched current)
      then mret (Some current, false)
      else
        _ ← check (has (auditLogs r) (AuditLog.ID audit))
              (exists_error "audit log %q already exists" (AuditLog.ID audit));
        let requested := current <| AIAttempt.ReconcileAfter := Some scheduledAt |>
                                 <| AIAttempt.UpdatedAt := scheduledAt |> in
        let current := applyAIAttemptDispatchUpdate current requested in
        _ ← write (fun r => (r.[aiAttempts]:[AIAttempt.ID current] <- current)
                            .[auditLogs]:[AuditLog.ID audit] <- audit);
        mret (Some current, true)
  end.

Definition ScheduleArtifactDeliveryRetry (artifactID : string) (requested : AIAttempt.t)
    (expectedVersion : Z) (audit : AuditLog.t) : M (option AIAttempt.t * bool) :=
  r ← read id;
  let refused := match artifacts r !! TrimSpace artifactID with
    | None => true
    | Some artifact =>
        (Artifact.Status artifact <>s ArtifactStatusDeliveryFailed)
        || (Artifact.Policy artifact <>s GatewayArtifactPolicyCustomerSink)
        || (Artifact.AttemptID artifact <>s AIAttempt.ID requested)
    end in
  match aiAttempts r !! AIAttempt.ID requested with
  | None => mret (None, false)
  | Some current =>
      if refused || (AIAttempt.Status current <>s AIAttemptStatusRunning)
         || negb (AIAttempt.DispatchVersion current =? expectedVersion)
      then mret (Some current, false)
      else
        _ ← check (has (auditLogs r) (AuditLog.ID audit))
              (exists_error "audit log %q already exists" (AuditLog.ID audit));
        let current := applyAIAttemptDispatchUpdate current requested in
        _ ← write (fun r => (r.[aiAttempts]:[AIAttempt.ID current] <- current)
                            .[auditLogs]:[AuditLog.ID audit] <- audit);
        mret (Some current, true)
  end.

(** ** Reconciliation *)

Definition reconciliation_less (i j : AIAttempt.t) : bool :=
  Before (aiAttemptReconciliationTime i) (aiAttemptReconciliationTime j).

Definition list_due (also : MemoryRepository -> AIAttempt.t -> bool) (now : time) (limit : Z)
    (r : MemoryRepository) : list AIAttempt.t :=
  if limit <=? 0 then []
  else
    let result := List.filter (fun attempt => aiAttemptDueForReconciliation attempt now && also r attempt)
                    (map_values (aiAttempts r)) in
    first_n limit (sort_by reconciliation_less result).

Definition ListAIAttemptsForReconciliation (now : time) (limit : Z) (r : MemoryRepository)
    : list AIAttempt.t := list_due (fun _ _ => true) now limit r.

Definition ListDirectAIAttemptsForReconciliation (now : time) (limit : Z) (r : MemoryRepository)
    : list AIAttempt.t :=
  list_due (fun r attempt =>
    match aiOperations r !! AIAttempt.OperationID attempt with
    | Some operation => AIOperation.Lane operation =s LaneDirect
    | None => false
    end) now limit r.

Definition ListDurableAIAttemptsForReconciliation (now : time) (limit : Z) (r : MemoryRepository)
    : list AIAttempt.t :=
  list_due (fun r attempt =>
    match memoryAIJobByOperationID (aiJobs r) (AIAttempt.OperationID attempt) with
    | Some _ => true | None => false end) now limit r.

Definition CompleteAIAttempt (id_ status errorType : string) (completedAt : time) : M bool :=
  found ← read (fun r => aiAttempts r !! id_);
  match found with
  | None => mret false
  | Some attempt =>
      if AIAttempt.Status attempt <>s AIAttemptStatusRunning then mret false
      else
        _ ← write (fun r => r.[aiAttempts]:[id_] <- attempt
              <| AIAttempt.Status := status |>
              <| AIAttempt.ErrorType := errorType |>
              <| AIAttempt.UpdatedAt := completedAt |>
              <| AIAttempt.CompletedAt := Some completedAt |>);
        mret true
  end.
End Attempts.
