(* ===== verification/Dispatch.v ===== *)
(** * Dispatching an attempt to its provider

    The attempts of [backend/internal/controlplane/operation_service.go] and
    [provider_dispatch.go]: preparing, submitting and binding a dispatch, its
    reconciliation, and the proof that no task was created.  A method is a program
    of critical sections ([Threads]); the provider is called between two of them.
    The world keeps, beside the repository, the history of submissions and of
    calls to providers, which no method reads. *)

From S2P Require Import Prelude Sha256 Threads Canonical AccessModel RoutingModel Repository Attempts.

Definition ErrAIAttemptNotFound : go_error := ErrNew "ai attempt not found".
Definition ErrAIAttemptDispatchState : go_error := ErrNew "ai attempt dispatch state changed concurrently".
Definition ErrAIAttemptRequiresReconciliation : go_error :=
  ErrNew "ai attempt requires provider reconciliation".

Definition ProviderDispatchOutcomeAccepted := "accepted"%string.
Definition ProviderDispatchOutcomeUnknown := "unknown"%string.
Definition ProviderDispatchOutcomeProvenNotCreated := "proven_not_created"%string.
Definition providerDispatchDefaultReconcileDelay : duration := minute.

(** An [error] value: the errors it joins, none for [nil]. *)
Notation errors := (list go_error) (only parsing).
Definition is_error (target : go_error) (err : errors) : bool := bool_decide (target ∈ err).

Module ProviderDispatchIntent.
Record t := mk {
  Version : Z;
  AttemptID : string;
  OperationID : string;
  DispatchKey : string;
  RequestFingerprint : string;
  ProviderID : string;
  ProviderAccountID : string;
  ProviderAdapterID : string;
  RouteID : string;
  UpstreamModel : string;
}.
End ProviderDispatchIntent.

Module ProviderTaskReference.
Record t := mk {
  ProviderTaskID : string;
  ProviderRequestID : string;
  Status : string;
  AcceptedAt : time;
}.
#[export] Instance settable : Settable t := fun r => mk
  (ProviderTaskID r) (ProviderRequestID r) (Status r) (AcceptedAt r).
Definition zero : t := mk "" "" "" 0.
End ProviderTaskReference.
Export (hints) ProviderTaskReference.

Module ProviderDispatchCommand.
Record t := mk { Intent : ProviderDispatchIntent.t; Payload : string }.
End ProviderDispatchCommand.

Module ProviderBillingObservation.
Record t := mk {
  Status : string;
  ProcurementCostMicros : option Z;
  Currency : string;
  Source : string;
  Confidence : string;
  PriceID : string;
  ProviderBillingLineID : string;
}.
#[export] Instance settable : Settable t := fun r => mk
  (Status r) (ProcurementCostMicros r) (Currency r) (Source r) (Confidence r) (PriceID r)
  (ProviderBillingLineID r).
Definition zero : t := mk "" None "" "" "" "" "".
End ProviderBillingObservation.
Export (hints) ProviderBillingObservation.

(** [ProviderDispatchResult] without its progress and outputs, which neither the
    dispatch nor the recording of usage reads. *)
Module ProviderDispatchResult.
Record t := mk {
  Outcome : string;
  Task : ProviderTaskReference.t;
  UsageDimensions : gmap string UsageDimensions.UsageDimension;
  Billing : ProviderBillingObservation.t;
  ReconcileAfter : time;
}.
Definition zero : t := mk "" ProviderTaskReference.zero ∅ ProviderBillingObservation.zero 0.
End ProviderDispatchResult.

(** ** The status of a provider task *)

Section Status.
Context `{unicode : UnicodeCase}.

Definition canonicalProviderTaskStatus (status : string) : string :=
  let status := ToLower (TrimSpace status) in
  if status =s "completed" then "succeeded"%string
  else if status =s "error" then "failed"%string
  else if status =s "cancelled" then "canceled"%string
  else status.

Definition providerTaskStatusRank (status : string) : Z :=
  let status := canonicalProviderTaskStatus status in
  if oneOf status ["succeeded"; "failed"; "canceled"]%string then 4
  else if status =s "processing" then 3
  else if status =s "running" then 2
  else if oneOf status ["queued"; "accepted"]%string then 1
  else 0.

Definition providerTaskStatusStale (current next : string) : bool :=
  let current := canonicalProviderTaskStatus current in
  let next := canonicalProviderTaskStatus next in
  if (current =s "") || (next =s "") || (current =s next) then false
  else if current =s "unknown" then false
  else if next =s "unknown" then true
  else if providerTaskStatusRank current =? 4 then true
  else providerTaskStatusRank next <? providerTaskStatusRank current.

Definition isDurableProviderTerminalStatus (status : string) : bool :=
  oneOf status ["succeeded"; "completed"; "failed"; "error"; "canceled"; "cancelled"]%string.
End Status.

(** ** Worlds *)

(** A submission: the attempt as it was stored, and the call that stored it. *)
Record submission := mkSubmission { submitted : AIAttempt.t; submitter : string }.
(** A call of a provider: what it was sent, and by which call of the service. *)
Record dispatch := mkDispatch { command : ProviderDispatchCommand.t; sender : string }.

Record dispatch_world := mkWorld {
  repository : MemoryRepository;
  clock : time;
  submissions : list submission;
  dispatches : list dispatch;
}.
#[export] Instance dispatch_world_settable : Settable dispatch_world := fun w => mkWorld
  (repository w) (clock w) (submissions w) (dispatches w).

Definition svc (A : Type) : Type := prog dispatch_world A.
#[export] Instance svc_ret : MRet svc := fun A a => Ret a.
#[export] Instance svc_bind : MBind svc := fun A B f p => prog_bind p f.

Definition query {A} (f : MemoryRepository -> A) : svc A := Atomic (fun w => (f (repository w), w)) Ret.
Definition nowUTC : svc time := Atomic (fun w => (clock w, w)) Ret.
(** A call of the repository; [note] records what its answer means to the history. *)
Definition section_of {A} (note : A -> dispatch_world -> dispatch_world) (m : M A) (w : dispatch_world)
    : result go_error A * dispatch_world :=
  let '(x, r) := m (repository w) in
  let w := w <| repository := r |> in
  (x, match x with Ok a => note a w | Err _ => w end).
Definition noting {A} (note : A -> dispatch_world -> dispatch_world) (m : M A) : svc (result go_error A) :=
  Atomic (section_of note m) Ret.
Definition call {A} : M A -> svc (result go_error A) := noting (fun _ w => w).

Notation updated_attempt := (option AIAttempt.t * bool)%type.
Definition note_submission (caller : string) (x : updated_attempt) (w : dispatch_world) : dispatch_world :=
  match x with
  | (Some attempt, true) => w <| submissions := mkSubmission attempt caller :: submissions w |>
  | _ => w
  end.

(** [attempt, changed, err] *)
Notation answer := (AIAttempt.t * bool * errors)%type.
Definition failed (attempt : AIAttempt.t) (e : go_error) : svc answer := mret (attempt, false, [e]).

Section Dispatch.
Context `{range : MapRange} `{unicode : UnicodeCase}.
(** [json.Marshal] and [json.Unmarshal] of an intent. *)
Context (Marshal : ProviderDispatchIntent.t -> result go_error string).
Context (Unmarshal : string -> result go_error ProviderDispatchIntent.t).
(** What the provider answers to the next call, after the calls it has had. *)
Context (provider : list dispatch -> dispatch -> ProviderDispatchResult.t * errors).
Context (reconciler : dispatch_world -> ProviderDispatchIntent.t -> ProviderTaskReference.t ->
  ProviderDispatchResult.t * errors).

(** ** Attempts *)

(** The fields of [GatewayProvider] a dispatch keeps. *)
Definition new_attempt (random operationID : string) (attemptNumber : Z) (provider : GatewayProvider.t)
    (now : time) : AIAttempt.t :=
  let attempt := AIAttempt.zero
    <| AIAttempt.ID := ("attempt_" +:+ random)%string |>
    <| AIAttempt.OperationID := TrimSpace operationID |>
    <| AIAttempt.AttemptNumber := attemptNumber |>
    <| AIAttempt.ProviderID := GatewayProvider.ID provider |>
    <| AIAttempt.ProviderAccountID := GatewayProvider.AccountID provider |>
    <| AIAttempt.ProviderAdapterID := GatewayProvider.AdapterID provider |>
    <| AIAttempt.RouteID := GatewayProvider.RouteID provider |>
    <| AIAttempt.UpstreamModel := GatewayProvider.UpstreamModel provider |>
    <| AIAttempt.Status := AIAttemptStatusRunning |>
    <| AIAttempt.DispatchState := AIAttemptDispatchPending |>
    <| AIAttempt.CreatedAt := now |>
    <| AIAttempt.UpdatedAt := now |> in
  attempt <| AIAttempt.DispatchKey := AIAttempt.ID attempt |>.

Definition sameAIAttemptProvider (left right : AIAttempt.t) : bool :=
  (AIAttempt.OperationID left =s AIAttempt.OperationID right)
  && (AIAttempt.AttemptNumber left =? AIAttempt.AttemptNumber right)
  && (AIAttempt.ProviderID left =s AIAttempt.ProviderID right)
  && (AIAttempt.ProviderAccountID left =s AIAttempt.ProviderAccountID right)
  && (AIAttempt.RouteID left =s AIAttempt.RouteID right)
  && (AIAttempt.UpstreamModel left =s AIAttempt.UpstreamModel right).

Definition BeginAIAttempt (random operationID : string) (attemptNumber : Z) (provider : GatewayProvider.t)
    : svc (AIAttempt.t * errors) :=
  if (TrimSpace operationID =s "") || (attemptNumber <=? 0)
  then mret (AIAttempt.zero, [ErrNew "operation id and positive attempt number are required"]) else
  now ← nowUTC;
  let attempt := new_attempt random operationID attemptNumber provider now in
  x ← call (CreateOrGetAIAttempt attempt);
  match x with
  | Err e => mret (AIAttempt.zero, [e])
  | Ok (stored, created) =>
      if negb created && negb (sameAIAttemptProvider stored attempt)
      then mret (AIAttempt.zero, [ErrAIAttemptDispatchConflict])
      else mret (stored, [])
  end.

Definition service_AIAttempt (id : string) : svc (option AIAttempt.t) := query (FindAIAttempt (TrimSpace id)).

Definition stored_or_zero (updated : option AIAttempt.t) : AIAttempt.t :=
  match updated with Some attempt => attempt | None => AIAttempt.zero end.

Definition updateAIAttemptDispatch_noting (note : updated_attempt -> dispatch_world -> dispatch_world)
    (requested : AIAttempt.t) (expectedVersion : Z) : svc answer :=
  x ← noting note (UpdateAIAttemptDispatch requested expectedVersion);
  match x with
  | Err e => failed AIAttempt.zero e
  | Ok (updated, false) => failed (stored_or_zero updated) ErrAIAttemptDispatchState
  | Ok (updated, true) => mret (stored_or_zero updated, true, [])
  end.
Definition updateAIAttemptDispatch : AIAttempt.t -> Z -> svc answer :=
  updateAIAttemptDispatch_noting (fun _ w => w).

(** *** Preparing *)

Definition intent_of (attempt : AIAttempt.t) (requestFingerprint : string) : ProviderDispatchIntent.t :=
  ProviderDispatchIntent.mk 1 (AIAttempt.ID attempt) (AIAttempt.OperationID attempt)
    (AIAttempt.DispatchKey attempt) requestFingerprint (AIAttempt.ProviderID attempt)
    (AIAttempt.ProviderAccountID attempt) (AIAttempt.ProviderAdapterID attempt)
    (AIAttempt.RouteID attempt) (AIAttempt.UpstreamModel attempt).

(** The second half of [PrepareAIAttemptDispatch]: [payload] is the marshalled intent. *)
Definition prepare_pending (attempt : AIAttempt.t) (payload key : string) : svc answer :=
  if (AIAttempt.DispatchState attempt <>s AIAttemptDispatchPending)
     || (AIAttempt.DispatchIntentJSON attempt <>s "")
  then
    if (AIAttempt.DispatchIntentJSON attempt =s payload) && (AIAttempt.DispatchKey attempt =s key)
    then mret (attempt, false, []) else failed AIAttempt.zero ErrAIAttemptDispatchConflict
  else if AIAttempt.Status attempt <>s AIAttemptStatusRunning
  then failed AIAttempt.zero ErrAIAttemptDispatchState
  else
    now ← nowUTC;
    let requested := attempt
      <| AIAttempt.DispatchState := AIAttemptDispatchPrepared |>
      <| AIAttempt.DispatchIntentJSON := payload |>
      <| AIAttempt.UpdatedAt := now |> in
    x ← call (UpdateAIAttemptDispatch requested (AIAttempt.DispatchVersion attempt));
    match x with
    | Err e => failed AIAttempt.zero e
    | Ok (updated, false) =>
        let updated := stored_or_zero updated in
        if (AIAttempt.DispatchIntentJSON updated =s payload) && (AIAttempt.DispatchKey updated =s key)
           && (AIAttempt.DispatchState updated <>s AIAttemptDispatchPending)
        then mret (updated, false, []) else failed updated ErrAIAttemptDispatchState
    | Ok (updated, true) => mret (stored_or_zero updated, true, [])
    end.

(** The branch of an attempt of unknown outcome: back to pending. *)
Definition reset_attempt (attempt : AIAttempt.t) (now : time) : AIAttempt.t :=
  attempt
    <| AIAttempt.DispatchState := AIAttemptDispatchPending |>
    <| AIAttempt.DispatchIntentJSON := ""%string |>
    <| AIAttempt.DispatchSubmittedAt := None |>
    <| AIAttempt.ProviderRequestID := ""%string |>
    <| AIAttempt.ProviderTaskStatus := ""%string |>
    <| AIAttempt.ProviderAcceptedAt := None |>
    <| AIAttempt.LastReconciledAt := None |>
    <| AIAttempt.ReconcileAfter := None |>
    <| AIAttempt.UpdatedAt := now |>.

Definition PrepareAIAttemptDispatch (attemptID : string) : svc answer :=
  found ← query (FindAIAttempt (TrimSpace attemptID));
  match found with
  | None => failed AIAttempt.zero ErrAIAttemptNotFound
  | Some attempt =>
      found ← query (FindAIOperation (AIAttempt.OperationID attempt));
      match found with
      | None => failed AIAttempt.zero (exists_error "ai operation %q not found" (AIAttempt.OperationID attempt))
      | Some operation =>
          let intent := intent_of attempt (AIOperation.RequestFingerprint operation) in
          let key := ProviderDispatchIntent.DispatchKey intent in
          match Marshal intent with
          | Err e => failed AIAttempt.zero e
          | Ok payload =>
              if AIAttempt.DispatchState attempt =s AIAttemptDispatchUnknown then
                if AIAttempt.ProviderTaskID attempt <>s "" then failed AIAttempt.zero ErrAIAttemptDispatchConflict
                else
                  now ← nowUTC;
                  x ← call (UpdateAIAttemptDispatch (reset_attempt attempt now) (AIAttempt.DispatchVersion attempt));
                  match x with
                  | Err e => failed AIAttempt.zero e
                  | Ok (updated, false) => failed (stored_or_zero updated) ErrAIAttemptDispatchState
                  | Ok (updated, true) => prepare_pending (stored_or_zero updated) payload key
                  end
              else prepare_pending attempt payload key
          end
      end
  end.
(** *** Submitting and binding *)

(** [found, err := FindAIAttempt(...)] and what a method does with the attempt. *)
Definition with_attempt (attemptID : string) (k : AIAttempt.t -> svc answer) : svc answer :=
  found ← query (FindAIAttempt (TrimSpace attemptID));
  match found with
  | None => failed AIAttempt.zero ErrAIAttemptNotFound
  | Some attempt => k attempt
  end.

(** [reconcileAfter], or [now] where it is zero. *)
Definition or_now (reconcileAfter now : time) : time := if IsZero reconcileAfter then now else reconcileAfter.

(** [caller] names the call, for the history of submissions. *)
Definition MarkAIAttemptDispatchSubmitted (caller attemptID : string) (expectedVersion : Z)
    (reconcileAfter : time) : svc answer :=
  with_attempt attemptID (fun attempt =>
  if oneOf (AIAttempt.DispatchState attempt)
       [AIAttemptDispatchSubmitted; AIAttemptDispatchAccepted; AIAttemptDispatchUnknown]
     && (if AIAttempt.DispatchSubmittedAt attempt then true else false)
  then mret (attempt, false, [])
  else if (AIAttempt.DispatchState attempt <>s AIAttemptDispatchPrepared)
          || negb (AIAttempt.DispatchVersion attempt =? expectedVersion)
  then failed attempt ErrAIAttemptDispatchState
  else
    now ← nowUTC;
    let requested := attempt
      <| AIAttempt.DispatchState := AIAttemptDispatchSubmitted |>
      <| AIAttempt.DispatchSubmittedAt := Some now |>
      <| AIAttempt.ReconcileAfter := Some (or_now reconcileAfter now) |>
      <| AIAttempt.UpdatedAt := now |> in
    updateAIAttemptDispatch_noting (note_submission caller) requested expectedVersion).

Definition BindAIAttemptProviderTask (attemptID : string) (expectedVersion : Z)
    (reference : ProviderTaskReference.t) (reconcileAfter : time) : svc answer :=
  let taskID := TrimSpace (ProviderTaskReference.ProviderTaskID reference) in
  let requestID := TrimSpace (ProviderTaskReference.ProviderRequestID reference) in
  let status := TrimSpace (ProviderTaskReference.Status reference) in
  if taskID =s "" then failed AIAttempt.zero (ErrNew "provider task id is required") else
  with_attempt attemptID (fun attempt =>
  if (AIAttempt.ProviderTaskID attempt <>s "")
     && ((AIAttempt.ProviderTaskID attempt <>s taskID) || (AIAttempt.ProviderRequestID attempt <>s requestID))
  then failed attempt ErrAIAttemptDispatchConflict
  else if (AIAttempt.ProviderTaskID attempt <>s "")
          && (providerTaskStatusStale (AIAttempt.ProviderTaskStatus attempt) status
              || (AIAttempt.DispatchState attempt <>s AIAttemptDispatchUnknown))
  then mret (attempt, false, [])
  else if negb (oneOf (AIAttempt.DispatchState attempt) [AIAttemptDispatchSubmitted; AIAttemptDispatchUnknown])
          || negb (AIAttempt.DispatchVersion attempt =? expectedVersion)
  then failed attempt ErrAIAttemptDispatchState
  else
    now ← nowUTC;
    let requested := attempt
      <| AIAttempt.DispatchState := AIAttemptDispatchAccepted |>
      <| AIAttempt.ProviderTaskID := taskID |>
      <| AIAttempt.ProviderRequestID := requestID |>
      <| AIAttempt.ProviderTaskStatus := if status =s "" then "accepted"%string else status |>
      <| AIAttempt.ProviderAcceptedAt := Some (or_now (ProviderTaskReference.AcceptedAt reference) now) |>
      <| AIAttempt.LastReconciledAt := Some now |>
      <| AIAttempt.ReconcileAfter := Some (or_now reconcileAfter now) |>
      <| AIAttempt.UpdatedAt := now |> in
    updateAIAttemptDispatch requested expectedVersion).

Definition MarkAIAttemptDispatchUnknown (attemptID : string) (expectedVersion : Z) (reconcileAfter : time)
    : svc answer :=
  with_attempt attemptID (fun attempt =>
  if AIAttempt.DispatchState attempt =s AIAttemptDispatchUnknown then mret (attempt, false, [])
  else if negb (oneOf (AIAttempt.DispatchState attempt) [AIAttemptDispatchSubmitted; AIAttemptDispatchAccepted])
          || negb (AIAttempt.DispatchVersion attempt =? expectedVersion)
  then failed attempt ErrAIAttemptDispatchState
  else
    now ← nowUTC;
    let requested := attempt
      <| AIAttempt.DispatchState := AIAttemptDispatchUnknown |>
      <| AIAttempt.ProviderTaskStatus := "unknown"%string |>
      <| AIAttempt.LastReconciledAt := Some now |>
      <| AIAttempt.ReconcileAfter := Some (or_now reconcileAfter now) |>
      <| AIAttempt.UpdatedAt := now |> in
    updateAIAttemptDispatch requested expectedVersion).

Definition RecordAIAttemptReconciliation (attemptID : string) (expectedVersion : Z) (providerStatus : string)
    (reconcileAfter : time) : svc answer :=
  with_attempt attemptID (fun attempt =>
  if negb (dispatched attempt) || negb (AIAttempt.DispatchVersion attempt =? expectedVersion)
  then failed attempt ErrAIAttemptDispatchState
  else
    now ← nowUTC;
    if providerTaskStatusStale (AIAttempt.ProviderTaskStatus attempt) providerStatus
    then mret (attempt, false, [])
    else
      let requested := attempt
        <| AIAttempt.ProviderTaskStatus := TrimSpace providerStatus |>
        <| AIAttempt.LastReconciledAt := Some now |>
        <| AIAttempt.ReconcileAfter := Some (or_now reconcileAfter now) |>
        <| AIAttempt.UpdatedAt := now |> in
      updateAIAttemptDispatch requested expectedVersion).

Definition service_CompleteAIAttempt (attemptID status errorType : string) : svc errors :=
  if negb (oneOf status [AIAttemptStatusSucceeded; AIAttemptStatusFailed; AIAttemptStatusSkipped;
                         AIAttemptStatusCanceled])
  then mret [ErrNew "invalid ai attempt terminal status"] else
  now ← nowUTC;
  x ← call (CompleteAIAttempt (TrimSpace attemptID) status (TrimSpace errorType) now);
  match x with
  | Err e => mret [e]
  | Ok false => mret [ErrNew "ai attempt is not running"]
  | Ok true => mret []
  end.

(** The end of [ProveAIAttemptNotCreated]: a running attempt is skipped. *)
Definition skip_attempt (attempt : AIAttempt.t) (changed : bool) : svc answer :=
  if AIAttempt.Status attempt =s AIAttemptStatusRunning then
    err ← service_CompleteAIAttempt (AIAttempt.ID attempt) AIAttemptStatusSkipped AIAttemptDispatchProvenNotCreated;
    match err with
    | _ :: _ => mret (attempt, changed, err)
    | [] =>
        found ← query (FindAIAttempt (AIAttempt.ID attempt));
        mret (stored_or_zero found, changed, [])
    end
  else mret (attempt, changed, []).

Definition ProveAIAttemptNotCreated (attemptID : string) (expectedVersion : Z) : svc answer :=
  with_attempt attemptID (fun attempt =>
  if AIAttempt.ProviderTaskID attempt <>s "" then failed attempt ErrAIAttemptDispatchConflict
  else if AIAttempt.DispatchState attempt =s AIAttemptDispatchProvenNotCreated then skip_attempt attempt false
  else if negb (oneOf (AIAttempt.DispatchState attempt)
                  [AIAttemptDispatchPrepared; AIAttemptDispatchSubmitted; AIAttemptDispatchUnknown])
          || negb (AIAttempt.DispatchVersion attempt =? expectedVersion)
  then failed attempt ErrAIAttemptDispatchState
  else
    now ← nowUTC;
    let requested := attempt
      <| AIAttempt.DispatchState := AIAttemptDispatchProvenNotCreated |>
      <| AIAttempt.ProviderTaskStatus := AIAttemptDispatchProvenNotCreated |>
      <| AIAttempt.LastReconciledAt := Some now |>
      <| AIAttempt.ReconcileAfter := None |>
      <| AIAttempt.UpdatedAt := now |> in
    '(attempt, changed, err) ← updateAIAttemptDispatch requested expectedVersion;
    match err with
    | _ :: _ => mret (attempt, false, err)
    | [] => skip_attempt attempt changed
    end).

Definition AIAttemptsForReconciliation (limit : Z) : svc (list AIAttempt.t) :=
  now ← nowUTC; query (ListAIAttemptsForReconciliation now limit).
Definition DirectAIAttemptsForReconciliation (limit : Z) : svc (list AIAttempt.t) :=
  now ← nowUTC; query (ListDirectAIAttemptsForReconciliation now limit).
Definition DurableAIAttemptsForReconciliation (limit : Z) : svc (list AIAttempt.t) :=
  now ← nowUTC; query (ListDurableAIAttemptsForReconciliation now limit).
Definition AIAttemptsForOperation (operationID : string) : svc (list AIAttempt.t) :=
  query (ListAIAttemptsByOperationID (TrimSpace operationID)).

(** ** Calling the provider *)

Definition providerDispatchIntentFromAttempt (attempt : AIAttempt.t)
    : result go_error ProviderDispatchIntent.t :=
  match Unmarshal (AIAttempt.DispatchIntentJSON attempt) with
  | Err e => Err (ErrWrap "decode provider dispatch intent: %w" e)
  | Ok intent =>
      if negb (ProviderDispatchIntent.Version intent =? 1)
         || (ProviderDispatchIntent.AttemptID intent <>s AIAttempt.ID attempt)
         || (ProviderDispatchIntent.OperationID intent <>s AIAttempt.OperationID attempt)
         || (ProviderDispatchIntent.DispatchKey intent <>s AIAttempt.DispatchKey attempt)
         || (ProviderDispatchIntent.ProviderID intent <>s AIAttempt.ProviderID attempt)
         || (ProviderDispatchIntent.ProviderAccountID intent <>s AIAttempt.ProviderAccountID attempt)
         || (ProviderDispatchIntent.RouteID intent <>s AIAttempt.RouteID attempt)
         || (ProviderDispatchIntent.UpstreamModel intent <>s AIAttempt.UpstreamModel attempt)
         || (ProviderDispatchIntent.RequestFingerprint intent =s "")
      then Err ErrAIAttemptDispatchConflict
      else if ProviderDispatchIntent.ProviderAdapterID intent <>s AIAttempt.ProviderAdapterID attempt
      then Err ErrAIAttemptDispatchConflict
      else Ok intent
  end.

Definition resolveProviderDispatchResult (attempt : AIAttempt.t) (result_ : ProviderDispatchResult.t)
    : svc (AIAttempt.t * errors) :=
  let outcome := ProviderDispatchResult.Outcome result_ in
  let task := ProviderDispatchResult.Task result_ in
  let id := AIAttempt.ID attempt in
  let version := AIAttempt.DispatchVersion attempt in
  next ← (if (outcome =s ProviderDispatchOutcomeAccepted)
             && isDurableProviderTerminalStatus (ToLower (TrimSpace (ProviderTaskReference.Status task)))
          then nowUTC else mret (ProviderDispatchResult.ReconcileAfter result_));
  next ← (if IsZero next then now ← nowUTC; mret (now + providerDispatchDefaultReconcileDelay) else mret next);
  if outcome =s ProviderDispatchOutcomeAccepted then
    if ProviderTaskReference.ProviderTaskID task =s "" then
      '(updated, _, err) ← MarkAIAttemptDispatchUnknown id version next;
      mret (updated, [ErrAIAttemptRequiresReconciliation;
                      ErrNew "accepted provider dispatch result requires a task id"] ++ err)
    else
      '(updated, changed, err) ← BindAIAttemptProviderTask id version task next;
      if (match err with [] => false | _ => true end) || changed then mret (updated, err)
      else
        '(updated, _, err) ← RecordAIAttemptReconciliation id (AIAttempt.DispatchVersion updated)
                               (ProviderTaskReference.Status task) next;
        mret (updated, err)
  else if outcome =s ProviderDispatchOutcomeProvenNotCreated then
    '(updated, _, err) ← ProveAIAttemptNotCreated id version;
    mret (updated, err)
  else if oneOf outcome [ProviderDispatchOutcomeUnknown; ""%string] then
    if AIAttempt.DispatchState attempt =s AIAttemptDispatchUnknown then
      '(updated, _, err) ← RecordAIAttemptReconciliation id version "unknown" next;
      mret (updated, ErrAIAttemptRequiresReconciliation :: err)
    else
      '(updated, _, err) ← MarkAIAttemptDispatchUnknown id version next;
      mret (updated, ErrAIAttemptRequiresReconciliation :: err)
  else
    '(updated, _, err) ← MarkAIAttemptDispatchUnknown id version next;
    mret (updated, [ErrAIAttemptRequiresReconciliation;
                    exists_error "invalid provider dispatch outcome %q" outcome] ++ err).

(** The provider hears of the dispatch, and answers. *)
Definition DispatchProviderTask (caller : string) (c : ProviderDispatchCommand.t)
    : svc (ProviderDispatchResult.t * errors) :=
  Atomic (fun w =>
    let d := mkDispatch c caller in
    (provider (dispatches w) d, w <| dispatches := d :: dispatches w |>)) Ret.

(** What a call answers: the attempt, the provider's result, and an error. *)
Notation execution := (AIAttempt.t * ProviderDispatchResult.t * errors)%type.

(** [errors.Join(ErrAIAttemptRequiresReconciliation, err, resolveErr)], or the
    second error where the first is [nil]. *)
Definition join_resolved (err resolveErr : errors) : errors :=
  match err with [] => resolveErr | _ => ErrAIAttemptRequiresReconciliation :: err ++ resolveErr end.

Definition ExecuteAIAttemptDispatch (caller attemptID payload : string) : svc execution :=
  '(prepared, _, err) ← PrepareAIAttemptDispatch attemptID;
  match err with
  | _ :: _ => mret (AIAttempt.zero, ProviderDispatchResult.zero, err)
  | [] =>
      match providerDispatchIntentFromAttempt prepared with
      | Err e => mret (prepared, ProviderDispatchResult.zero, [e])
      | Ok intent =>
          now ← nowUTC;
          '(submitted, changed, err) ← MarkAIAttemptDispatchSubmitted caller (AIAttempt.ID prepared)
             (AIAttempt.DispatchVersion prepared) (now + providerDispatchDefaultReconcileDelay);
          match err with
          | _ :: _ => mret (submitted, ProviderDispatchResult.zero, err)
          | [] =>
              if negb changed
              then mret (submitted, ProviderDispatchResult.zero, [ErrAIAttemptRequiresReconciliation])
              else
                '(answered, dispatchErr) ← DispatchProviderTask caller
                   (ProviderDispatchCommand.mk intent payload);
                '(updated, resolveErr) ← resolveProviderDispatchResult submitted answered;
                mret (updated, answered, join_resolved dispatchErr resolveErr)
          end
      end
  end.

Definition reference_of (attempt : AIAttempt.t) : ProviderTaskReference.t :=
  ProviderTaskReference.mk (AIAttempt.ProviderTaskID attempt) (AIAttempt.ProviderRequestID attempt)
    (AIAttempt.ProviderTaskStatus attempt)
    (match AIAttempt.ProviderAcceptedAt attempt with Some at_ => at_ | None => 0 end).

Definition ReconcileAIAttemptDispatch (attemptID : string) : svc execution :=
  found ← service_AIAttempt attemptID;
  match found with
  | None => mret (AIAttempt.zero, ProviderDispatchResult.zero, [ErrAIAttemptNotFound])
  | Some attempt =>
      if negb (dispatched attempt)
      then mret (attempt, ProviderDispatchResult.zero, [ErrAIAttemptDispatchState])
      else match providerDispatchIntentFromAttempt attempt with
      | Err e => mret (attempt, ProviderDispatchResult.zero, [e])
      | Ok intent =>
          '(answered, reconcileErr) ← Atomic (fun w => (reconciler w intent (reference_of attempt), w)) Ret;
          '(updated, resolveErr) ← resolveProviderDispatchResult attempt answered;
          mret (updated, answered, join_resolved reconcileErr resolveErr)
      end
  end.

(** [deferAIAttemptReconciliation] of [ai_job_worker.go]. *)
Definition AIJobDefaultRetryAfter : duration := 5 * second.
Definition deferAIAttemptReconciliation (attempt : AIAttempt.t) (delay : duration) : svc errors :=
  found ← query (FindAIAttempt (AIAttempt.ID attempt));
  match found with
  | None => mret []
  | Some current =>
      if AIAttempt.Status current <>s AIAttemptStatusRunning then mret [] else
      now ← nowUTC;
      '(_, _, err) ← RecordAIAttemptReconciliation (AIAttempt.ID current) (AIAttempt.DispatchVersion current)
         (AIAttempt.ProviderTaskStatus current)
         (now + (if delay <=? 0 then AIJobDefaultRetryAfter else delay));
      mret (if is_error ErrAIAttemptDispatchState err then [] else err)
  end.
End Dispatch.

(** ** The life of an attempt

    What the methods above may do to one attempt.  Each change of its dispatch
    raises its version; its phase is its state and the provider's task. *)

Definition phase (a : AIAttempt.t) : string * string := (AIAttempt.DispatchState a, AIAttempt.ProviderTaskID a).

Inductive phase_step : string * string -> string * string -> Prop :=
| Phase_prepare : phase_step (AIAttemptDispatchPending, ""%string) (AIAttemptDispatchPrepared, ""%string)
| Phase_submit : phase_step (AIAttemptDispatchPrepared, ""%string) (AIAttemptDispatchSubmitted, ""%string)
| Phase_accept state task :
    state ∈ [AIAttemptDispatchSubmitted; AIAttemptDispatchUnknown] -> task <> ""%string ->
    phase_step (state, ""%string) (AIAttemptDispatchAccepted, task)
| Phase_found task :
    task <> ""%string -> phase_step (AIAttemptDispatchUnknown, task) (AIAttemptDispatchAccepted, task)
| Phase_lose state task :
    state ∈ [AIAttemptDispatchSubmitted; AIAttemptDispatchAccepted] ->
    phase_step (state, task) (AIAttemptDispatchUnknown, task)
| Phase_reset : phase_step (AIAttemptDispatchUnknown, ""%string) (AIAttemptDispatchPending, ""%string)
| Phase_prove state :
    state ∈ [AIAttemptDispatchPrepared; AIAttemptDispatchSubmitted; AIAttemptDispatchUnknown] ->
    phase_step (state, ""%string) (AIAttemptDispatchProvenNotCreated, ""%string)
| Phase_stay state task :
    state ∈ [AIAttemptDispatchSubmitted; AIAttemptDispatchAccepted; AIAttemptDispatchUnknown] ->
    phase_step (state, task) (state, task).

Definition identity (a : AIAttempt.t) :=
  (AIAttempt.ID a, AIAttempt.OperationID a, AIAttempt.AttemptNumber a, AIAttempt.ProviderID a,
   AIAttempt.ProviderAccountID a, AIAttempt.ProviderAdapterID a, AIAttempt.RouteID a,
   AIAttempt.UpstreamModel a, AIAttempt.DispatchKey a).

Definition dispatch_part (a : AIAttempt.t) :=
  (phase a, AIAttempt.DispatchVersion a, AIAttempt.DispatchIntentJSON a, AIAttempt.DispatchSubmittedAt a,
   AIAttempt.ProviderRequestID a, AIAttempt.ProviderTaskStatus a, AIAttempt.ProviderAcceptedAt a,
   AIAttempt.LastReconciledAt a, AIAttempt.ReconcileAfter a).

Inductive attempt_step (a a' : AIAttempt.t) : Prop :=
| Step_dispatch :
    identity a = identity a' -> AIAttempt.DispatchVersion a' = AIAttempt.DispatchVersion a + 1 ->
    phase_step (phase a) (phase a') -> attempt_step a a'
| Step_rest : identity a = identity a' -> dispatch_part a = dispatch_part a' -> attempt_step a a'.

Notation advances := (rtc attempt_step).

(** A task belongs to an attempt that was accepted. *)
Definition phase_ok (p : string * string) : Prop :=
  p.2 = ""%string \/ p.1 = AIAttemptDispatchAccepted \/ p.1 = AIAttemptDispatchUnknown.

Ltac phase_cases H :=
  inversion H; subst; repeat match goal with
  | E : _ ∈ _ :: _ |- _ => rewrite !elem_of_cons in E; destruct_or?; subst
  | E : _ ∈ [] |- _ => by apply elem_of_nil in E
  end; simplify_eq/=.

Lemma phase_step_ok p q : phase_step p q -> phase_ok p -> phase_ok q.
Proof. intros H. unfold phase_ok. phase_cases H; naive_solver. Qed.

Lemma advances_identity a b : advances a b -> identity a = identity b.
Proof. induction 1 as [|a b c [] _ IH]; congruence. Qed.

Lemma identity_fields a b : identity a = identity b ->
  AIAttempt.ID a = AIAttempt.ID b /\ AIAttempt.ProviderAccountID a = AIAttempt.ProviderAccountID b /\
  AIAttempt.DispatchKey a = AIAttempt.DispatchKey b.
Proof. unfold identity. by intros [= -> _ _ _ -> _ _ _ ->]. Qed.

Lemma part_version a b : dispatch_part a = dispatch_part b -> AIAttempt.DispatchVersion a = AIAttempt.DispatchVersion b.
Proof. unfold dispatch_part. congruence. Qed.

Lemma part_phase a b : dispatch_part a = dispatch_part b -> phase a = phase b.
Proof. unfold dispatch_part. congruence. Qed.

Lemma advances_version a b : advances a b -> AIAttempt.DispatchVersion a <= AIAttempt.DispatchVersion b.
Proof. induction 1 as [|a b c [_ E _|_ E%part_version] _ IH]; lia. Qed.

(** Nothing about the dispatch changes without a new version. *)
Lemma advances_same a b :
  advances a b -> AIAttempt.DispatchVersion a = AIAttempt.DispatchVersion b -> dispatch_part a = dispatch_part b.
Proof.
  induction 1 as [|a b c [_ E _|_ E] Hs IH]; intros Hv; [done| |].
  - apply advances_version in Hs. lia.
  - rewrite E. apply IH. apply part_version in E. lia.
Qed.

Lemma advances_ok a b : advances a b -> phase_ok (phase a) -> phase_ok (phase b).
Proof.
  induction 1 as [|a b c [_ _ Hp|_ E%part_phase] _ IH]; [done| |]; intros Ha; apply IH.
  - by eapply phase_step_ok.
  - by rewrite <- E.
Qed.

(** A task, once known, stays; and "not created" is final. *)
Lemma advances_task a b : advances a b -> phase_ok (phase a) -> AIAttempt.ProviderTaskID a <> ""%string ->
  AIAttempt.ProviderTaskID b = AIAttempt.ProviderTaskID a.
Proof.
  induction 1 as [|a b c Hs _ IH]; intros Ha Ht; [done|].
  assert (E : AIAttempt.ProviderTaskID b = AIAttempt.ProviderTaskID a /\ phase_ok (phase b)).
  { destruct Hs as [_ _ Hp|_ E%part_phase]; [|split; [by injection E|by rewrite <- E]].
    split; [|by eapply phase_step_ok]. unfold phase in Hp. phase_cases Hp; congruence. }
  destruct E as [E Hb]. rewrite IH; [done..|]. congruence.
Qed.

Lemma advances_proven a b : advances a b -> AIAttempt.DispatchState a = AIAttemptDispatchProvenNotCreated ->
  AIAttempt.DispatchState b = AIAttemptDispatchProvenNotCreated.
Proof.
  induction 1 as [|a b c Hs _ IH]; intros Ha; [done|]. apply IH.
  destruct Hs as [_ _ Hp|_ E%part_phase]; [|by injection E; intros; congruence].
  unfold phase in Hp. rewrite Ha in Hp. phase_cases Hp.
Qed.

Notation may_have_task := [AIAttemptDispatchSubmitted; AIAttemptDispatchAccepted; AIAttemptDispatchUnknown].

Lemma phase_step_dispatched p q : phase_step p q ->
  oneOf p.1 may_have_task = true -> oneOf q.1 may_have_task = false ->
  p = (AIAttemptDispatchUnknown, ""%string) \/ q.1 = AIAttemptDispatchProvenNotCreated.
Proof. intros H. phase_cases H; auto; discriminate. Qed.

(** From dispatched back to prepared there is one way: the outcome was given up
    as unknown, and no task was known. *)
Lemma advances_prepared a p : advances a p -> dispatched a = true ->
  oneOf (AIAttempt.DispatchState p) [AIAttemptDispatchPending; AIAttemptDispatchPrepared] = true ->
  exists u, advances a u /\ advances u p /\ phase u = (AIAttemptDispatchUnknown, ""%string).
Proof.
  induction 1 as [a|a b p Hs Hr IH]; intros Ha Hp.
  - unfold dispatched in Ha. rewrite oneOf_In in Ha, Hp. elem_cases Hp; elem_cases Ha; rewrite Hp in Ha; discriminate Ha.
  - destruct (dispatched b) eqn:Eb.
    { destruct (IH eq_refl Hp) as (u & H1 & H2 & H3). exists u. split_and!; [|done..]. by eapply rtc_l. }
    assert (Hph : phase a = (AIAttemptDispatchUnknown, ""%string) \/ AIAttempt.DispatchState b = AIAttemptDispatchProvenNotCreated).
    { unfold dispatched in Ha, Eb. destruct Hs as [_ _ Hph|_ E%part_phase].
      - by apply (phase_step_dispatched _ _ Hph).
      - injection E as E1 _. rewrite E1 in Ha. congruence. }
    destruct Hph as [E|E].
    + exists a. split_and!; [done|by eapply rtc_l|done].
    + rewrite (advances_proven _ _ Hr E) in Hp. done.
Qed.

(** ** Worlds the methods keep *)

Record attempt_ok (n : Z) (k : string) (a : AIAttempt.t) : Prop := {
  attempt_id : AIAttempt.ID a = k;
  attempt_trimmed : TrimSpace k = k;
  attempt_key : AIAttempt.DispatchKey a = k;
  attempt_phase : phase_ok (phase a);
  attempt_version : 0 <= AIAttempt.DispatchVersion a <= n;
}.

Notation stored_attempt w k := (aiAttempts (repository w) !! k) (only parsing).
Definition submission_key (s : submission) : string * Z :=
  (AIAttempt.ID (submitted s), AIAttempt.DispatchVersion (submitted s)).
Notation intent d := (ProviderDispatchCommand.Intent (command d)) (only parsing).

(** A submission made after [a] was stored: [a] came to be prepared first. *)
Definition submitted_after (a : AIAttempt.t) (s : submission) : Prop :=
  exists p, advances a p /\ phase p = (AIAttemptDispatchPrepared, ""%string) /\ attempt_step p (submitted s).

Record world_ok (w : Z * dispatch_world) : Prop := {
  ok_clock : 0 <= w.1;
  ok_attempts : forall k a, stored_attempt w.2 k = Some a -> attempt_ok w.1 k a;
  ok_tasks : forall k1 k2 a1 a2,
    stored_attempt w.2 k1 = Some a1 -> stored_attempt w.2 k2 = Some a2 ->
    AIAttempt.ProviderTaskID a1 <> ""%string ->
    AIAttempt.ProviderTaskID a1 = AIAttempt.ProviderTaskID a2 ->
    AIAttempt.ProviderAccountID a1 = AIAttempt.ProviderAccountID a2 -> k1 = k2;
  ok_submissions : forall s, s ∈ submissions w.2 ->
    AIAttempt.DispatchState (submitted s) = AIAttemptDispatchSubmitted /\
    exists a, stored_attempt w.2 (AIAttempt.ID (submitted s)) = Some a /\ advances (submitted s) a;
  ok_submissions_once : NoDup (map submission_key (submissions w.2));
  ok_resubmissions : forall s1 s2, s1 ∈ submissions w.2 -> s2 ∈ submissions w.2 ->
    AIAttempt.ID (submitted s1) = AIAttempt.ID (submitted s2) ->
    AIAttempt.DispatchVersion (submitted s1) < AIAttempt.DispatchVersion (submitted s2) ->
    submitted_after (submitted s1) s2;
  ok_dispatches : forall d, d ∈ dispatches w.2 ->
    ProviderDispatchIntent.DispatchKey (intent d) = ProviderDispatchIntent.AttemptID (intent d) /\
    exists s, s ∈ submissions w.2 /\ submitter s = sender d /\
      AIAttempt.ID (submitted s) = ProviderDispatchIntent.AttemptID (intent d);
  ok_dispatches_once : NoDup (map sender (dispatches w.2));
}.

Record world_later (w w' : Z * dispatch_world) : Prop := {
  later_clock : w.1 <= w'.1;
  later_attempts : forall k a, stored_attempt w.2 k = Some a ->
    exists a', stored_attempt w'.2 k = Some a' /\ advances a a';
  later_submissions : exists new, submissions w'.2 = new ++ submissions w.2 /\
    forall s, s ∈ new -> forall a, stored_attempt w.2 (AIAttempt.ID (submitted s)) = Some a -> submitted_after a s;
  later_dispatches : exists new, dispatches w'.2 = new ++ dispatches w.2;
}.

Definition has_sent (caller : string) (w : dispatch_world) : Prop := caller ∈ map sender (dispatches w).

Notation obeys := (holds max_int64 world_ok world_later has_sent).
Notation relies := (rely world_ok world_later has_sent).
Notation promises := (guar world_ok world_later has_sent).

Lemma world_later_refl w : world_later w w.
Proof.
  split; [done| | |by exists []].
  - intros k a H. exists a. by split.
  - exists []. split; [done|]. intros s Hs. exfalso. set_solver.
Qed.

Lemma world_later_trans w1 w2 w3 : world_later w1 w2 -> world_later w2 w3 -> world_later w1 w3.
Proof.
  intros [C1 A1 (n1 & E1 & S1) (d1 & D1)] [C2 A2 (n2 & E2 & S2) (d2 & D2)]. split.
  - lia.
  - intros k a H. destruct (A1 k a H) as (b & Hb & Hab). destruct (A2 k b Hb) as (c & Hc & Hbc).
    exists c. split; [done|]. by etransitivity.
  - exists (n2 ++ n1). split; [by rewrite E2, E1, app_assoc|]. intros s [Hs|Hs]%elem_of_app a Ha; [|by apply S1].
    destruct (A1 _ a Ha) as (b & Hb & Hab). destruct (S2 s Hs b Hb) as (p & Hp & H).
    exists p. split; [by etransitivity|done].
  - exists (d2 ++ d1). by rewrite D2, D1, app_assoc.
Qed.

Lemma relies_refl ids w : world_ok w -> relies ids w w.
Proof. intros H. apply rely_refl; [apply world_later_refl|done]. Qed.

Lemma relies_trans ids w1 w2 w3 : relies ids w1 w2 -> relies ids w2 w3 -> relies ids w1 w3.
Proof. apply rely_trans, world_later_trans. Qed.

(** What leaves the dispatch of the attempts and the histories alone. *)
Definition quiet (w w' : dispatch_world) : Prop :=
  (forall k, match stored_attempt w k, stored_attempt w' k with
             | Some a, Some a' => identity a = identity a' /\ dispatch_part a = dispatch_part a'
             | None, None => True
             | _, _ => False
             end) /\
  submissions w' = submissions w /\ dispatches w' = dispatches w.

Lemma quiet_same w w' : aiAttempts (repository w') = aiAttempts (repository w) ->
  submissions w' = submissions w -> dispatches w' = dispatches w -> quiet w w'.
Proof. intros E1 E2 E3. split_and!; [|done..]. intros k. rewrite E1. by destruct (stored_attempt w k). Qed.

Lemma attempt_ok_part n n' k a a' : n <= n' -> identity a = identity a' -> dispatch_part a = dispatch_part a' ->
  attempt_ok n k a -> attempt_ok n' k a'.
Proof.
  intros Hn Hi Hd [H1 H2 H3 H4 H5]. pose proof (part_phase _ _ Hd). pose proof (part_version _ _ Hd).
  destruct (identity_fields _ _ Hi) as (? & ? & ?). split; [congruence|done|congruence|congruence|lia].
Qed.

Lemma quiet_world_ok n n' w w' : n <= n' -> quiet w w' -> world_ok (n, w) ->
  world_ok (n', w') /\ world_later (n, w) (n', w').
Proof.
  intros Hn (Ha & Es & Ed) [H0 H1 H2 H3 H4 H7 H5 H6]. cbn in *.
  assert (Hback : forall k a', stored_attempt w' k = Some a' ->
    exists a, stored_attempt w k = Some a /\ identity a = identity a' /\ dispatch_part a = dispatch_part a').
  { intros k a' E. specialize (Ha k). rewrite E in Ha. destruct (stored_attempt w k) as [a|]; [eauto|done]. }
  assert (Hforth : forall k a, stored_attempt w k = Some a ->
    exists a', stored_attempt w' k = Some a' /\ attempt_step a a').
  { intros k a E. specialize (Ha k). rewrite E in Ha. destruct (stored_attempt w' k) as [a'|]; [|done].
    destruct Ha. exists a'. split; [done|]. by apply Step_rest. }
  split; split; cbn; [lia|..].
  - intros k a' (a & E & Hi & Hd)%Hback. eapply attempt_ok_part; eauto.
  - intros k1 k2 a1' a2' (a1 & E1 & I1 & D1)%Hback (a2 & E2 & I2 & D2)%Hback Ht Et Ea.
    unfold dispatch_part, phase, identity in *. apply (H2 k1 k2 a1 a2); congruence.
  - rewrite Es. intros s Hs. destruct (H3 s Hs) as (? & a & E & Hadv). split; [done|].
    destruct (Hforth _ _ E) as (a' & E' & Hstep). exists a'. split; [done|]. by eapply rtc_r.
  - by rewrite Es.
  - by rewrite Es.
  - rewrite Ed, Es. done.
  - by rewrite Ed.
  - done.
  - intros k a (a' & E & Hs)%Hforth. exists a'. split; [done|]. by apply rtc_once.
  - exists []. rewrite Es. split; [done|]. intros s Hs. exfalso. set_solver.
  - exists []. by rewrite Ed.
Qed.

Lemma quiet_relies ids w n' w' : world_ok w -> w.1 <= n' -> quiet w.2 w' -> relies ids w (n', w').
Proof.
  destruct w as [n w]. cbn. intros Hw Hn Hq. destruct (quiet_world_ok n n' w w' Hn Hq Hw). split_and!; [done..|].
  intros id _. unfold has_sent. cbn. destruct Hq as (_ & _ & ->). done.
Qed.

Lemma relies_promises ids w w' : relies ids w w' -> (forall id, has_sent id w'.2 -> has_sent id w.2) ->
  promises ids w w'.
Proof. intros (Ho & Hl & _) H. split_and!; auto. Qed.

Lemma quiet_section {X} ids w (x : X) w' : world_ok w -> quiet w.2 w' ->
  promises ids w (w.1 + 1, w') /\ relies ids w (w.1 + 1, w').
Proof.
  intros Hw Hq. assert (H : relies ids w (w.1 + 1, w')) by (apply quiet_relies; [done|lia|done]).
  split; [|done]. apply relies_promises; [done|]. intros id. unfold has_sent. cbn. by destruct Hq as (_ & _ & ->).
Qed.

(** ** The critical section that changes a dispatch *)

Lemma UpdateAIAttemptDispatch_spec `{MapRange} requested v r :
  (exists current,
     let new := applyAIAttemptDispatchUpdate current requested in
     aiAttempts r !! AIAttempt.ID requested = Some current /\ AIAttempt.DispatchVersion current = v /\
     (AIAttempt.ProviderTaskID requested <> ""%string ->
      forall k other, aiAttempts r !! k = Some other -> task_taken current requested other = false) /\
     UpdateAIAttemptDispatch requested v r = (Ok (Some new, true), r.[aiAttempts]:[AIAttempt.ID new] <- new)) \/
  (exists x, UpdateAIAttemptDispatch requested v r = (x, r) /\
     forall u changed, x = Ok (u, changed) -> u = aiAttempts r !! AIAttempt.ID requested /\ changed = false).
Proof.
  unfold UpdateAIAttemptDispatch, mbind, M_bind, read, id.
  destruct (aiAttempts r !! AIAttempt.ID requested) as [current|] eqn:Ec.
  2: { right. eexists. split; [reflexivity|]. by intros u changed [= <- <-]. }
  destruct (_ || _) eqn:Et.
  { right. eexists. split; [reflexivity|]. by intros u changed [= <- <-]. }
  boolify. unfold check. destruct (_ && _) eqn:Ett; unfold fail, mret, M_ret, write.
  { right. eexists. split; [reflexivity|]. by intros u changed [= <- <-]. }
  left. exists current. split_and!; [done|done| |done].
  intros Hn k other Hk. destruct (find_value _ _) eqn:Ef.
  - rewrite andb_true_r in Ett. boolify. done.
  - by eapply find_value_None in Ef.
Qed.

(** What a method asks for: the attempt [a] it has read, changed by one step. *)
Record update_request (a requested : AIAttempt.t) : Prop := {
  request_id : AIAttempt.ID requested = AIAttempt.ID a;
  request_key : AIAttempt.DispatchKey requested = AIAttempt.DispatchKey a;
  request_account : AIAttempt.ProviderAccountID requested = AIAttempt.ProviderAccountID a;
  request_step : phase_step (phase a) (phase requested);
}.

(** The history that goes with it. *)
Inductive noted (a requested : AIAttempt.t) : (updated_attempt -> dispatch_world -> dispatch_world) -> Prop :=
| Noted_nothing : noted a requested (fun _ w => w)
| Noted_submission caller :
    phase a = (AIAttemptDispatchPrepared, ""%string) ->
    phase requested = (AIAttemptDispatchSubmitted, ""%string) ->
    noted a requested (note_submission caller).

(** [a] was stored once. *)
Definition seen (a : AIAttempt.t) (w : dispatch_world) : Prop :=
  exists b, stored_attempt w (AIAttempt.ID a) = Some b /\ advances a b.

(** An attempt that has been read. *)
Record read_attempt (a : AIAttempt.t) (w : dispatch_world) : Prop := {
  read_seen : seen a w;
  read_ok : exists n, attempt_ok n (AIAttempt.ID a) a;
}.

Lemma seen_relies ids a w w' : seen a w.2 -> relies ids w w' -> seen a w'.2.
Proof.
  intros (b & Hb & Hab) (_ & Hl & _). destruct (later_attempts _ _ Hl _ _ Hb) as (c & Hc & Hbc).
  exists c. split; [done|]. by etransitivity.
Qed.

Definition history_grown (note : updated_attempt -> dispatch_world -> dispatch_world) (u : AIAttempt.t)
    (w : dispatch_world) : Prop :=
  forall caller, note = note_submission caller -> mkSubmission u caller ∈ submissions w.

Section Proofs.
Context `{range : MapRange} `{unicode : UnicodeCase}.

Lemma apply_step a requested current :
  update_request a requested -> advances a current ->
  AIAttempt.DispatchVersion current = AIAttempt.DispatchVersion a -> AIAttempt.DispatchVersion a < max_int64 ->
  0 <= AIAttempt.DispatchVersion a ->
  let new := applyAIAttemptDispatchUpdate current requested in
  identity current = identity new /\ AIAttempt.DispatchVersion new = AIAttempt.DispatchVersion current + 1 /\
  phase_step (phase current) (phase new) /\ phase new = phase requested /\ phase current = phase a.
Proof.
  intros [R1 R2 R3 R4] Hadv Hv Hmax H0. pose proof (advances_identity _ _ Hadv) as Hi.
  pose proof (part_phase _ _ (advances_same _ _ Hadv (eq_sym Hv))) as Hp.
  unfold identity in *. injection Hi as I1 I2 I3 I4 I5 I6 I7 I8 I9. cbn.
  split_and!; [congruence| | |done|congruence].
  - apply wrap64_id. unfold in_int64, min_int64, max_int64 in *. lia.
  - rewrite <- Hp. exact R4.
Qed.

(** One attempt takes a step; what is added to the submissions is this attempt. *)
Lemma stepped_ok n w w2 k current new extra :
  world_ok (n, w) -> stored_attempt w k = Some current ->
  aiAttempts (repository w2) = <[k := new]> (aiAttempts (repository w)) ->
  dispatches w2 = dispatches w -> submissions w2 = extra ++ submissions w ->
  (forall s, s ∈ extra -> extra = [s] /\ submitted s = new /\
    phase current = (AIAttemptDispatchPrepared, ""%string) /\
    phase new = (AIAttemptDispatchSubmitted, ""%string)) ->
  identity current = identity new ->
  AIAttempt.DispatchVersion new = AIAttempt.DispatchVersion current + 1 ->
  phase_step (phase current) (phase new) ->
  (AIAttempt.ProviderTaskID new <> ""%string ->
   forall k' other, stored_attempt w k' = Some other -> task_taken current new other = false) ->
  world_ok (n + 1, w2) /\ world_later (n, w) (n + 1, w2).
Proof.
  intros Hw Hc Ha Hd Hs Hextra Hi Hv Hp Htask. destruct Hw as [H0 H1 H2 H3 H4 H7 H5 H6]. cbn in *.
  pose proof (H1 _ _ Hc) as Hcur. destruct (identity_fields _ _ Hi) as (I1 & I2 & I3).
  pose proof (attempt_id _ _ _ Hcur) as Hk.
  assert (Hstep : attempt_step current new) by by apply Step_dispatch.
  assert (Hforth : forall k' a, stored_attempt w k' = Some a ->
    exists a', stored_attempt w2 k' = Some a' /\ advances a a').
  { intros k' a E. rewrite Ha. destruct (decide (k' = k)) as [->|Hne].
    - exists new. rewrite lookup_insert_eq. split; [done|]. replace a with current by congruence. by apply rtc_once.
    - exists a. by rewrite lookup_insert_ne by done. }
  assert (Hother : forall k' a1 a2, k' <> k -> stored_attempt w k' = Some a1 -> a2 = new ->
    AIAttempt.ProviderTaskID new <> ""%string -> AIAttempt.ProviderTaskID a1 = AIAttempt.ProviderTaskID new ->
    AIAttempt.ProviderAccountID a1 <> AIAttempt.ProviderAccountID new).
  { intros k' a1 a2 Hne E _ Ht Et Ea. specialize (Htask Ht k' a1 E). unfold task_taken in Htask.
    rewrite Et, Ea, !String.eqb_refl, !andb_true_r in Htask. boolify.
    rewrite (attempt_id _ _ _ (H1 _ _ E)) in Htask. congruence. }
  split; split; cbn; [lia|..].
  - intros k' a. rewrite Ha. intros [[<- <-]|[Hne E]]%lookup_insert_Some.
    + destruct Hcur as [C1 C2 C3 C4 C5]. split; [congruence|done|congruence| |lia]. by eapply phase_step_ok.
    + by eapply attempt_ok_part; [|done|done|apply H1]; [lia|].
  - intros k1 k2 a1 a2. rewrite Ha. intros [[<- <-]|[N1 E1]]%lookup_insert_Some [[<- <-]|[N2 E2]]%lookup_insert_Some Ht Et Ea.
    + done.
    + exfalso. eapply (Hother k2 a2 new); congruence.
    + exfalso. eapply (Hother k1 a1 new); congruence.
    + by eapply H2.
  - rewrite Hs. intros s [He|He]%elem_of_app.
    + destruct (Hextra s He) as (_ & -> & _ & E). split; [by injection E|]. exists new.
      rewrite Ha, <- I1, Hk, lookup_insert_eq. by split.
    + destruct (H3 s He) as (? & a & E & Hadv). split; [done|]. destruct (Hforth _ _ E) as (a' & E' & ?).
      exists a'. split; [done|]. by etransitivity.
  - rewrite Hs. destruct extra as [|s extra]; [done|]. destruct (Hextra s) as ([= ->] & Hnew & _); [by left|].
    cbn. constructor; [|done]. intros (s' & Ek & Hin)%list_elem_of_fmap. unfold submission_key in Ek.
    rewrite Hnew in Ek. injection Ek as Ek1 Ek2. destruct (H3 s' Hin) as (_ & a & E & Hadv%advances_version).
    rewrite <- Ek1, <- I1, Hk in E. replace a with current in Hadv by congruence. lia.
  - rewrite Hs. intros s1 s2 Hin1 Hin2 Eid Ev.
    assert (Hold : forall s, s ∈ submissions w -> AIAttempt.ID (submitted s) = k -> advances (submitted s) current).
    { intros s Hin E. destruct (H3 s Hin) as (_ & a & Ea & Hadv). rewrite E in Ea. replace current with a by congruence. done. }
    assert (Hnewid : forall s, s ∈ extra -> AIAttempt.ID (submitted s) = k /\ AIAttempt.DispatchVersion (submitted s) = AIAttempt.DispatchVersion new).
    { intros s Hin. destruct (Hextra s Hin) as (_ & -> & _). split; congruence. }
    apply elem_of_app in Hin1 as [Hin1|Hin1]; apply elem_of_app in Hin2 as [Hin2|Hin2].
    + destruct (Hnewid _ Hin1), (Hnewid _ Hin2). lia.
    + destruct (Hnewid _ Hin1) as [E1 E2]. assert (advances (submitted s2) current) as Hadv%advances_version by (apply Hold; congruence). lia.
    + destruct (Hnewid _ Hin2) as [E1 E2]. destruct (Hextra _ Hin2) as (_ & Hnew & Hpre & _).
      exists current. rewrite Hnew. split_and!; [apply Hold; congruence|done|done].
    + by apply H7.
  - rewrite Hd, Hs. intros d Hin. destruct (H5 d Hin) as (? & s & ? & ? & ?). split; [done|]. exists s.
    split_and!; [|done..]. apply elem_of_app. by right.
  - by rewrite Hd.
  - lia.
  - exact Hforth.
  - exists extra. split; [done|]. intros s He a E. destruct (Hextra s He) as (_ & Hnew & Hpre & _).
    rewrite Hnew, <- I1, Hk, Hc in E. injection E as <-. exists current. by rewrite Hnew.
  - exists []. by rewrite Hd.
Qed.

(** What an answer tells. *)
Definition answered (note : updated_attempt -> dispatch_world -> dispatch_world) (a : AIAttempt.t)
    (x : result go_error updated_attempt) (w : dispatch_world) : Prop :=
  forall v changed, x = Ok (v, changed) -> exists u, v = Some u /\ read_attempt u w /\
    AIAttempt.ID u = AIAttempt.ID a /\ (changed = true -> history_grown note u w).

Lemma update_section ids note a requested w :
  world_ok w -> w.1 < max_int64 -> seen a w.2 -> update_request a requested -> noted a requested note ->
  let '(x, w2) := section_of note (UpdateAIAttemptDispatch requested (AIAttempt.DispatchVersion a)) w.2 in
  promises ids w (w.1 + 1, w2) /\ relies ids w (w.1 + 1, w2) /\
  answered note a x w2.
Proof.
  destruct w as [n w]. cbn [fst snd]. intros Hw Hn (b & Hb & Hab) Hr Hnote. unfold section_of.
  destruct (UpdateAIAttemptDispatch_spec requested (AIAttempt.DispatchVersion a) (repository w))
    as [(current & Hc & Hv & Htask & ->)|(x & -> & Hx)].
  2: { assert (Hq : quiet w (match x with
         | Ok u => note u (w <| repository := repository w |>) | Err _ => w <| repository := repository w |> end)).
       { apply quiet_same; destruct x as [[[u|] []]|e]; destruct Hnote; try done; by destruct (Hx _ _ eq_refl). }
       destruct (quiet_section ids (n, w) x _ Hw Hq) as [Hp Hl]. split_and!; [done|done|].
       intros v changed Ex. destruct (Hx v changed Ex) as [-> ->]. rewrite (request_id _ _ Hr), Hb. exists b.
       pose proof (ok_attempts _ Hw _ _ Hb) as Ho. pose proof (attempt_id _ _ _ Ho) as Hid. cbn in Ho.
       split_and!; [done| |done|done]. split; [|exists n; by rewrite Hid]. exists b. rewrite Hid. split; [|done].
       subst x. destruct Hnote; [done|]. cbn. by destruct (stored_attempt w (AIAttempt.ID requested)). }
  set (new := applyAIAttemptDispatchUpdate current requested) in *.
  rewrite (request_id _ _ Hr) in Hc. rewrite Hb in Hc. injection Hc as ->.
  pose proof (ok_attempts _ Hw _ _ Hb) as Hcur. cbn in Hcur.
  pose proof (attempt_version _ _ _ Hcur) as Hver.
  destruct (apply_step a requested current Hr Hab Hv) as (Hi & Hv' & Hps & Hpn & Hpc); [lia..|].
  fold new in Hi, Hv', Hps, Hpn.
  assert (Hid : AIAttempt.ID new = AIAttempt.ID a).
  { destruct (identity_fields _ _ Hi) as [<- _]. apply (attempt_id _ _ _ Hcur). }
  assert (Hstep : attempt_step current new) by by apply Step_dispatch.
  rewrite Hid. match goal with |- context [(n + 1, ?x)] => set (w2 := x) end.
  assert (Hatt : aiAttempts (repository w2) = <[AIAttempt.ID a := new]> (aiAttempts (repository w))) by (by destruct Hnote).
  assert (Hdis : dispatches w2 = dispatches w) by (by destruct Hnote).
  assert (Hsub : exists extra, submissions w2 = extra ++ submissions w /\ forall s, s ∈ extra ->
    extra = [s] /\ submitted s = new /\ phase current = (AIAttemptDispatchPrepared, ""%string) /\
    phase new = (AIAttemptDispatchSubmitted, ""%string)).
  { destruct Hnote as [|caller Ep Eq]; [exists []; split; [done|]; intros s Hs; exfalso; set_solver|].
    exists [mkSubmission new caller]. split; [done|]. intros s ->%list_elem_of_singleton. cbn. split_and!; congruence. }
  destruct Hsub as (extra & Hsub & Hextra).
  destruct (stepped_ok n w w2 (AIAttempt.ID a) current new extra) as [Hok Hlater]; try done.
  { intros Ht k' other E. specialize (Htask Ht k' other E). unfold task_taken in *. cbn in Htask. cbn.
    by rewrite (request_account _ _ Hr), (proj1 (proj2 (identity_fields _ _ (advances_identity _ _ Hab)))) in Htask. }
  assert (Hrel : relies ids (n, w) (n + 1, w2)).
  { split_and!; [done..|]. intros id _. unfold has_sent. cbn. by rewrite Hdis. }
  split_and!; [|done|].
  - apply relies_promises; [done|]. intros id. unfold has_sent. cbn. by rewrite Hdis.
  - intros v changed [= <- <-]. exists new.
    assert (Hstored : stored_attempt w2 (AIAttempt.ID a) = Some new) by by rewrite Hatt, lookup_insert_eq.
    split_and!; [done| |done|].
    + split; [exists new; by rewrite Hid|]. exists (n + 1). rewrite Hid. apply (ok_attempts _ Hok _ _ Hstored).
    + intros _ caller Ec. subst w2. rewrite Ec. cbn. by left.
Qed.

(** *** The other critical sections *)

Lemma created_ok n w w2 k new :
  world_ok (n, w) -> stored_attempt w k = None -> attempt_ok (n + 1) k new ->
  AIAttempt.ProviderTaskID new = ""%string ->
  aiAttempts (repository w2) = <[k := new]> (aiAttempts (repository w)) ->
  dispatches w2 = dispatches w -> submissions w2 = submissions w ->
  world_ok (n + 1, w2) /\ world_later (n, w) (n + 1, w2).
Proof.
  intros [H0 H1 H2 H3 H4 H7 H5 H6] Hnone Hnew Htask Ha Hd Hs. cbn in *.
  assert (Hforth : forall k' a, stored_attempt w k' = Some a -> stored_attempt w2 k' = Some a).
  { intros k' a E. rewrite Ha, lookup_insert_ne; [done|congruence]. }
  split; split; cbn; [lia|..].
  - intros k' a. rewrite Ha. intros [[<- <-]|[Hne E]]%lookup_insert_Some; [done|].
    eapply attempt_ok_part; [|done|done|by apply H1]. lia.
  - intros k1 k2 a1 a2. rewrite Ha. intros [[<- <-]|[N1 E1]]%lookup_insert_Some [[<- <-]|[N2 E2]]%lookup_insert_Some; [done|congruence..|].
    by apply H2.
  - rewrite Hs. intros s Hin. destruct (H3 s Hin) as (? & a & E & ?). split; [done|]. exists a. auto.
  - by rewrite Hs.
  - by rewrite Hs.
  - by rewrite Hd, Hs.
  - by rewrite Hd.
  - lia.
  - intros k' a E. exists a. split; [auto|done].
  - exists []. rewrite Hs. split; [done|]. intros s Hin. exfalso. set_solver.
  - exists []. by rewrite Hd.
Qed.

Lemma create_section ids attempt w :
  world_ok w -> TrimSpace (AIAttempt.ID attempt) = AIAttempt.ID attempt ->
  AIAttempt.DispatchKey attempt = AIAttempt.ID attempt -> AIAttempt.ProviderTaskID attempt = ""%string ->
  AIAttempt.DispatchVersion attempt = 0 ->
  let '(x, w2) := section_of (fun _ w => w) (CreateOrGetAIAttempt attempt) w.2 in
  promises ids w (w.1 + 1, w2) /\ relies ids w (w.1 + 1, w2).
Proof.
  destruct w as [n w]. cbn [fst snd]. intros Hw Htrim Hkey Htask Hver. pose proof (ok_clock _ Hw) as Hn. cbn in Hn.
  assert (Hquiet : quiet w (w <| repository := repository w |>)) by by apply quiet_same.
  pose proof (fun x : result go_error (AIAttempt.t * bool) => quiet_section ids (n, w) x _ Hw Hquiet) as Hsame.
  unfold section_of, CreateOrGetAIAttempt, mbind, M_bind, read, id, check.
  assert (Hnorm : AIAttempt.ID (normalizeAIAttempt attempt) = AIAttempt.ID attempt /\
    AIAttempt.ProviderTaskID (normalizeAIAttempt attempt) = ""%string /\
    attempt_ok (n + 1) (AIAttempt.ID attempt) (normalizeAIAttempt attempt)).
  { assert (Hid : AIAttempt.ID (normalizeAIAttempt attempt) = AIAttempt.ID attempt) by (unfold normalizeAIAttempt; repeat case_match; done).
    split_and!; [done|unfold normalizeAIAttempt; repeat case_match; done|]. split; [done|done|..].
    - unfold normalizeAIAttempt. repeat case_match; done.
    - left. unfold normalizeAIAttempt. repeat case_match; done.
    - replace (AIAttempt.DispatchVersion _) with 0; [lia|]. unfold normalizeAIAttempt. repeat case_match; done. }
  destruct Hnorm as (Hid & Ht & Hok). set (new := normalizeAIAttempt attempt) in *.
  destruct (negb _); [by apply (Hsame (Ok (new, false)))|]. cbn [mret M_ret].
  destruct (find_value _ _) as [current|]; [by apply (Hsame (Ok (new, false)))|].
  destruct (has _ _) eqn:Ehas; [by apply (Hsame (Ok (new, false)))|]. cbn.
  unfold has in Ehas. rewrite Hid in *.
  destruct (created_ok n w (w <| repository := (repository w).[aiAttempts]:[AIAttempt.ID attempt] <- new |>)
    (AIAttempt.ID attempt) new) as [Ho Hl]; try done.
  { by destruct (stored_attempt w (AIAttempt.ID attempt)). }
  assert (Hrel : relies ids (n, w) (n + 1, w <| repository := (repository w).[aiAttempts]:[AIAttempt.ID attempt] <- new |>))
    by (by split_and!).
  split; [|exact Hrel]. by apply relies_promises.
Qed.

Lemma CompleteAIAttempt_quiet id status errorType now w :
  let '(x, w2) := section_of (fun _ w => w) (CompleteAIAttempt id status errorType now) w in quiet w w2.
Proof.
  unfold section_of, CompleteAIAttempt, mbind, M_bind, read.
  destruct (stored_attempt w id) as [a|] eqn:Ea; [|by apply quiet_same].
  destruct (_ <>s _); [by apply quiet_same|]. cbn. split_and!; [|done..]. intros k. cbn.
  destruct (decide (k = id)) as [->|Hne]; [by rewrite lookup_insert_eq, Ea|].
  rewrite lookup_insert_ne by done. by destruct (stored_attempt w k).
Qed.

(** *** Rules *)

Section Rules.
Context {B : Type} (ids : gset string) (Q : B -> Z * dispatch_world -> Prop).

Lemma obeys_quiet {X} (act : dispatch_world -> X * dispatch_world) (k : X -> svc B) w :
  world_ok w -> (forall w, quiet w (act w).2) ->
  (forall x w', relies ids w w' -> obeys ids (k x) Q w') ->
  obeys ids (prog_bind (Atomic act Ret) k) Q w.
Proof.
  intros Hw Hq Hk w1 Hr Hb. destruct (quiet_section ids w1 tt _ (proj1 Hr) (Hq w1.2)) as [Hp Hl].
  split; [exact Hp|]. apply Hk. by eapply relies_trans.
Qed.

Lemma obeys_find {A} (f : MemoryRepository -> A) (k : A -> svc B) w :
  world_ok w -> (forall w', relies ids w w' -> obeys ids (k (f (repository w'.2))) Q w') ->
  obeys ids (query f ≫= k) Q w.
Proof.
  intros Hw Hk w1 Hr Hb.
  destruct (quiet_section ids w1 tt w1.2 (proj1 Hr)) as [Hp Hl]; [by apply quiet_same|].
  split; [exact Hp|]. apply (Hk (w1.1 + 1, w1.2)). by eapply relies_trans.
Qed.

Lemma obeys_now (k : time -> svc B) w :
  world_ok w -> (forall now w', relies ids w w' -> obeys ids (k now) Q w') -> obeys ids (nowUTC ≫= k) Q w.
Proof. intros Hw. apply obeys_quiet; [done|]. intros w'. by apply quiet_same. Qed.

Lemma obeys_update_section note a requested (k : result go_error updated_attempt -> svc B) w :
  world_ok w -> seen a w.2 -> update_request a requested -> noted a requested note ->
  (forall x w', relies ids w w' ->
    answered note a x w'.2 -> obeys ids (k x) Q w') ->
  obeys ids (noting note (UpdateAIAttemptDispatch requested (AIAttempt.DispatchVersion a)) ≫= k) Q w.
Proof.
  intros Hw Hs Hr Hn Hk w1 Hr1 Hb.
  pose proof (update_section ids note a requested w1 (proj1 Hr1) Hb (seen_relies _ _ _ _ Hs Hr1) Hr Hn) as H.
  unfold after. cbn [fst snd].
  destruct (section_of _ _ _) as [x w2]. destruct H as (Hp & Hl & Hu). split; [exact Hp|].
  apply Hk; [by eapply relies_trans|exact Hu].
Qed.

Lemma obeys_ret (b : B) w : (forall w', relies ids w w' -> Q b w') -> obeys ids (mret b) Q w.
Proof. done. Qed.

Lemma obeys_seq {A} (p : svc A) (k : A -> svc B) w :
  world_ok w -> obeys ids p (fun a w' => obeys ids (k a) Q w') w -> obeys ids (p ≫= k) Q w.
Proof. intros Hw Hp. apply holds_bind; [apply world_later_refl|done|done]. Qed.
End Rules.

Lemma read_relies ids a w w' : read_attempt a w.2 -> relies ids w w' -> read_attempt a w'.2.
Proof. intros [H1 H2] Hr. split; [by eapply seen_relies|done]. Qed.

Lemma read_found id a w : world_ok w -> FindAIAttempt id (repository w.2) = Some a ->
  read_attempt a w.2 /\ AIAttempt.ID a = TrimSpace id.
Proof.
  unfold FindAIAttempt. intros Hw E. pose proof (ok_attempts _ Hw _ _ E) as Ho.
  pose proof (attempt_id _ _ _ Ho) as Hid. split; [|done]. split; [exists a; by rewrite Hid|].
  exists w.1. by rewrite Hid.
Qed.

Lemma obeys_with_attempt ids Q attemptID (k : AIAttempt.t -> svc answer) w :
  world_ok w ->
  (forall a w', relies ids w w' -> read_attempt a w'.2 -> AIAttempt.ID a = TrimSpace attemptID ->
     obeys ids (k a) Q w') ->
  (forall w', relies ids w w' -> Q (AIAttempt.zero, false, [ErrAIAttemptNotFound]) w') ->
  obeys ids (with_attempt attemptID k) Q w.
Proof.
  intros Hw Hk Hnone. apply obeys_find; [done|]. intros w1 H1.
  destruct (FindAIAttempt _ _) as [a|] eqn:Ef.
  - destruct (read_found _ _ _ (proj1 H1) Ef) as [Ha Hid]. rewrite TrimSpace_idemp in Hid. by apply Hk.
  - apply obeys_ret. intros w2 H2. apply Hnone. by eapply relies_trans.
Qed.

Lemma submission_relies ids s w w' : s ∈ submissions w.2 -> relies ids w w' -> s ∈ submissions w'.2.
Proof.
  intros H (_ & Hl & _). destruct (later_submissions _ _ Hl) as (new & -> & _). apply elem_of_app. by right.
Qed.

Lemma history_relies ids note u w w' : history_grown note u w.2 -> relies ids w w' -> history_grown note u w'.2.
Proof. intros H Hr caller E. eapply submission_relies; [by apply H|done]. Qed.

Lemma obeys_change ids Q note a requested v w :
  world_ok w -> read_attempt a w.2 -> AIAttempt.DispatchVersion a = v ->
  update_request a requested -> noted a requested note ->
  (forall u w', relies ids w w' -> AIAttempt.ID u = AIAttempt.ID a -> history_grown note u w'.2 ->
    Q (u, true, []) w') ->
  (forall u err w', relies ids w w' -> err <> [] -> Q (u, false, err) w') ->
  obeys ids (updateAIAttemptDispatch_noting note requested v) Q w.
Proof.
  intros Hw [Hs _] <- Hr Hn Hyes Hno. apply (obeys_update_section ids Q note a); [done..|].
  intros x w1 H1 Hx.
  assert (Hfail : forall u e, obeys ids (failed u e) Q w1).
  { intros u e. apply obeys_ret. intros w2 H2. apply Hno; [by eapply relies_trans|done]. }
  destruct x as [[updated []]|e]; [|apply Hfail..].
  destruct (Hx updated true eq_refl) as (u & -> & _ & Hid & Hh). apply obeys_ret. intros w2 H2.
  apply Hyes; [by eapply relies_trans|done|eapply history_relies; [by apply Hh|done]].
Qed.

(** *** Methods *)

Definition settled (ids : gset string) (w : Z * dispatch_world) {A} (_ : A) (w' : Z * dispatch_world) : Prop :=
  relies ids w w'.

Lemma no_task a n k : attempt_ok n k a ->
  oneOf (AIAttempt.DispatchState a)
    [AIAttemptDispatchPending; AIAttemptDispatchPrepared; AIAttemptDispatchSubmitted;
     AIAttemptDispatchProvenNotCreated] = true -> AIAttempt.ProviderTaskID a = ""%string.
Proof.
  intros Ho Hs%oneOf_In. destruct (attempt_phase _ _ _ Ho) as [?|[E|E]]; [done|..]; cbn in E;
    elem_cases Hs; rewrite Hs in E; discriminate E.
Qed.

Lemma obeys_answer ids (x : answer) w0 w (P : answer -> Z * dispatch_world -> Prop) :
  relies ids w0 w -> (forall w', P x w') -> obeys ids (mret x) (fun x w' => relies ids w0 w' /\ P x w') w.
Proof. intros H HP. apply obeys_ret. intros w' H'. split; [by eapply relies_trans|done]. Qed.

Lemma obeys_mark_submitted ids caller attemptID v at_ w : world_ok w ->
  obeys ids (MarkAIAttemptDispatchSubmitted caller attemptID v at_) (fun x w' => relies ids w w' /\
    match x with
    | (u, true, []) => mkSubmission u caller ∈ submissions w'.2 /\ AIAttempt.ID u = TrimSpace attemptID
    | _ => True
    end) w.
Proof.
  intros Hw. apply obeys_with_attempt; [done|intros a w1 H1 Ha Hid|by intros w1 H1].
  destruct (_ && _); [by apply obeys_answer|]. destruct (_ || _) eqn:Et; [by apply obeys_answer|]. boolify.
  apply obeys_now; [apply H1|]. intros now w2 H2.
  assert (Hph : phase a = (AIAttemptDispatchPrepared, ""%string)).
  { unfold phase. f_equal; [done|]. destruct Ha as [_ [n Ho]]. eapply no_task; [exact Ho|]. by rewrite H. }
  assert (H02 : relies ids w w2) by by eapply relies_trans.
  eapply (obeys_change _ _ _ a); [apply H2|by eapply read_relies|done|..].
  - split; [done..|]. rewrite Hph. unfold phase in *. cbn. injection Hph as _ ->. constructor.
  - constructor; [done|]. unfold phase in *. cbn. congruence.
  - intros u w3 H3 Hu Hh. split; [by eapply relies_trans|]. split; [by apply Hh|congruence].
  - intros u [|e err] w3 H3 Hne; [done|]. split; [by eapply relies_trans|done].
Qed.

(** The next test of a method. *)
Ltac branch E := match goal with |- holds _ _ _ _ _ (if ?c then _ else _) _ _ => destruct c eqn:E end.

(** The methods that only need to leave the world to the others. *)
Ltac start := apply obeys_with_attempt; [done|intros a w1 H1 Ha Hid|by intros w1 H1].

Lemma obeys_settled {B} ids (x : B) w0 w : relies ids w0 w -> obeys ids (mret x) (settled ids w0) w.
Proof. intros H. apply obeys_ret. intros w' H'. by eapply relies_trans. Qed.

Lemma obeys_plain_update ids a requested w0 w :
  relies ids w0 w -> read_attempt a w.2 -> update_request a requested ->
  obeys ids (updateAIAttemptDispatch requested (AIAttempt.DispatchVersion a)) (settled ids w0) w.
Proof.
  intros H0 Ha Hr. eapply (obeys_change _ _ _ a); [apply H0|done|done|done|constructor|..];
    intros *; by intros; eapply relies_trans.
Qed.

Lemma obeys_bind_task ids attemptID v reference at_ w : world_ok w ->
  obeys ids (BindAIAttemptProviderTask attemptID v reference at_) (settled ids w) w.
Proof.
  intros Hw. unfold BindAIAttemptProviderTask.
  destruct (TrimSpace (ProviderTaskReference.ProviderTaskID reference) =s "") eqn:Etask; [by apply obeys_settled, relies_refl|].
  start. branch E1; [by apply obeys_settled|]. branch E2; [by apply obeys_settled|].
  branch E3; [by apply obeys_settled|]. boolify.
  apply obeys_now; [apply H1|]. intros now w2 H2. subst v. apply obeys_plain_update; [by eapply relies_trans|by eapply read_relies|].
  split; [done..|]. unfold phase. cbn. apply andb_false_iff in E1. destruct (AIAttempt.ProviderTaskID a =s "") eqn:Et; boolify.
  - rewrite Et. constructor; [by apply oneOf_In|done].
  - destruct E1 as [?|E1]; [done|]. cbn in E2. boolify.
    rename select (AIAttempt.DispatchState a = _) into Es. rename select (AIAttempt.ProviderTaskID a = TrimSpace _) into Ei.
    rewrite Es, Ei. constructor. congruence.
Qed.

(** The same state and task, with other observations. *)
Lemma obeys_stay ids a requested w0 w :
  relies ids w0 w -> read_attempt a w.2 -> dispatched a = true ->
  AIAttempt.ID requested = AIAttempt.ID a -> AIAttempt.DispatchKey requested = AIAttempt.DispatchKey a ->
  AIAttempt.ProviderAccountID requested = AIAttempt.ProviderAccountID a -> phase requested = phase a ->
  obeys ids (updateAIAttemptDispatch requested (AIAttempt.DispatchVersion a)) (settled ids w0) w.
Proof.
  intros H0 Ha Hd H1 H2 H3 H4. apply obeys_plain_update; [done..|]. split; [done..|]. rewrite H4.
  constructor. by apply oneOf_In.
Qed.

Lemma obeys_unknown ids attemptID v at_ w : world_ok w ->
  obeys ids (MarkAIAttemptDispatchUnknown attemptID v at_) (settled ids w) w.
Proof.
  intros Hw. start. branch E1; [by apply obeys_settled|]. branch E2; [by apply obeys_settled|]. boolify.
  apply obeys_now; [apply H1|]. intros now w2 H2. subst v. apply obeys_plain_update; [by eapply relies_trans|by eapply read_relies|].
  split; [done..|]. constructor. by apply oneOf_In.
Qed.

Lemma obeys_record ids attemptID v status at_ w : world_ok w ->
  obeys ids (RecordAIAttemptReconciliation attemptID v status at_) (settled ids w) w.
Proof.
  intros Hw. start. branch E1; [by apply obeys_settled|]. boolify.
  apply obeys_now; [apply H1|]. intros now w2 H2.
  assert (H02 : relies ids w w2) by by eapply relies_trans.
  branch E2; [by apply obeys_settled|]. subst v. apply (obeys_stay _ a); [done|by eapply read_relies|done..].
Qed.

Lemma obeys_complete ids attemptID status errorType w : world_ok w ->
  obeys ids (service_CompleteAIAttempt attemptID status errorType) (settled ids w) w.
Proof.
  intros Hw. unfold service_CompleteAIAttempt. branch E; [by apply obeys_settled, relies_refl|].
  apply obeys_now; [done|]. intros now w1 H1. apply obeys_quiet; [apply H1| |].
  - intros w2. pose proof (CompleteAIAttempt_quiet (TrimSpace attemptID) status (TrimSpace errorType) now w2) as H.
    by destruct (section_of _ _ _).
  - intros x w2 H2. assert (relies ids w w2) by by eapply relies_trans. destruct x as [[]|]; by apply obeys_settled.
Qed.

Lemma obeys_skip ids attempt changed w0 w : relies ids w0 w ->
  obeys ids (skip_attempt attempt changed) (settled ids w0) w.
Proof.
  intros H0. unfold skip_attempt. branch E; [|by apply obeys_settled].
  apply obeys_seq; [apply H0|]. eapply holds_impl; [|apply obeys_complete; apply H0].
  intros [|e err] w1 Ho H1; assert (relies ids w0 w1) by (by eapply relies_trans); [|by apply obeys_settled].
  apply obeys_find; [done|]. intros w2 H2. apply obeys_settled. by eapply relies_trans.
Qed.

Lemma obeys_prove ids attemptID v w : world_ok w ->
  obeys ids (ProveAIAttemptNotCreated attemptID v) (settled ids w) w.
Proof.
  intros Hw. start. branch E1; [by apply obeys_settled|]. branch E2; [by apply obeys_skip|].
  branch E3; [by apply obeys_settled|]. boolify. apply obeys_now; [apply H1|]. intros now w2 H2. subst v.
  apply obeys_seq; [apply H2|]. eapply holds_impl; [|apply obeys_plain_update].
  - intros [[u changed] [|e err]] w3 Ho H3; [by apply obeys_skip|by apply obeys_settled].
  - by eapply relies_trans.
  - by eapply read_relies.
  - split; [done..|]. unfold phase. cbn. rename select (AIAttempt.ProviderTaskID a = _) into Et. rewrite Et.
    constructor. by apply oneOf_In.
Qed.

(** *** Preparing *)

(** An attempt whose dispatch key is its identifier. *)
Definition keyed (a : AIAttempt.t) : Prop :=
  TrimSpace (AIAttempt.ID a) = AIAttempt.ID a /\ AIAttempt.DispatchKey a = AIAttempt.ID a.

Lemma read_keyed a w : read_attempt a w -> keyed a.
Proof. intros [_ [n Ho]]. split; [apply (attempt_trimmed _ _ _ Ho)|apply (attempt_key _ _ _ Ho)]. Qed.

Definition prepared_answer (ids : gset string) (w : Z * dispatch_world) (x : answer) (w' : Z * dispatch_world) : Prop :=
  relies ids w w' /\ (x.2 = [] -> keyed x.1.1).

Lemma obeys_prepare_pending ids a payload w0 w :
  relies ids w0 w -> read_attempt a w.2 ->
  obeys ids (prepare_pending a payload (AIAttempt.DispatchKey a)) (prepared_answer ids w0) w.
Proof.
  intros H0 Ha. pose proof (read_keyed _ _ Ha) as Hk. unfold prepare_pending.
  branch E1; [branch E2; by apply obeys_answer|]. branch E2; [by apply obeys_answer|]. boolify.
  apply obeys_now; [apply H0|]. intros now w1 Hr1. apply (obeys_update_section _ _ _ a).
  - apply Hr1.
  - by eapply seen_relies; [apply Ha|].
  - split; [done..|]. unfold phase. cbn. rename select (AIAttempt.DispatchState a = _) into Es. rewrite Es.
    replace (AIAttempt.ProviderTaskID a) with ""%string; [constructor|].
    symmetry. destruct Ha as [_ [n Ho]]. eapply no_task; [exact Ho|by rewrite Es].
  - constructor.
  - intros x w2 Hr2 Hx. assert (H02 : relies ids w0 w2) by (eapply relies_trans; [exact H0|by eapply relies_trans]).
    destruct x as [[updated [|]]|e]; [| |by apply obeys_answer].
    + destruct (Hx _ _ eq_refl) as (u & -> & Hu & _). apply obeys_answer; [done|]. intros _ _. by eapply read_keyed.
    + destruct (Hx _ _ eq_refl) as (u & -> & Hu & _). cbn [stored_or_zero].
      branch E; [|by apply obeys_answer]. apply obeys_answer; [done|]. intros _ _. by eapply read_keyed.
Qed.

Context (Marshal : ProviderDispatchIntent.t -> result go_error string).
Context (Unmarshal : string -> result go_error ProviderDispatchIntent.t).
Context (provider : list dispatch -> dispatch -> ProviderDispatchResult.t * errors).
Context (reconciler : dispatch_world -> ProviderDispatchIntent.t -> ProviderTaskReference.t ->
  ProviderDispatchResult.t * errors).

Lemma obeys_prepare ids attemptID w : world_ok w ->
  obeys ids (PrepareAIAttemptDispatch Marshal attemptID) (prepared_answer ids w) w.
Proof.
  intros Hw. apply obeys_find; [done|]. intros w1 H1.
  destruct (FindAIAttempt _ _) as [a|] eqn:Ef; [|by apply obeys_answer].
  destruct (read_found _ _ _ (proj1 H1) Ef) as [Ha _]. apply obeys_find; [apply H1|]. intros w2 Hr2.
  assert (H2 : relies ids w w2) by by eapply relies_trans. pose proof (read_relies _ _ _ _ Ha Hr2) as Ha2.
  destruct (FindAIOperation _ _) as [operation|]; [|by apply obeys_answer].
  cbv zeta. destruct (Marshal (intent_of a (AIOperation.RequestFingerprint operation))) as [payload|]; [|by apply obeys_answer].
  branch E1; [|by apply obeys_prepare_pending]. branch E2; [by apply obeys_answer|]. boolify.
  apply obeys_now; [apply H2|]. intros now w3 Hr3. pose proof (read_relies _ _ _ _ Ha2 Hr3) as Ha3.
  apply (obeys_update_section _ _ _ a); [apply Hr3|apply Ha3| |constructor|].
  - split; [done..|]. unfold phase. cbn. rewrite E1, E2. constructor.
  - intros x w4 Hr4 Hx. assert (H4 : relies ids w w4) by (eapply relies_trans; [exact H2|by eapply relies_trans]).
    destruct x as [[updated [|]]|e]; [|by apply obeys_answer..].
    destruct (Hx _ _ eq_refl) as (u & -> & Hu & Hid & _). cbn [stored_or_zero].
    assert (Ek : ProviderDispatchIntent.DispatchKey (intent_of a (AIOperation.RequestFingerprint operation))
      = AIAttempt.DispatchKey u).
    { cbn. rewrite (proj2 (read_keyed _ _ Hu)), Hid. by apply (read_keyed _ _ Ha). }
    rewrite Ek. by apply obeys_prepare_pending.
Qed.

(** *** Calling the provider *)

Lemma intent_spec a i : providerDispatchIntentFromAttempt Unmarshal a = Ok i ->
  ProviderDispatchIntent.AttemptID i = AIAttempt.ID a /\
  ProviderDispatchIntent.DispatchKey i = AIAttempt.DispatchKey a /\
  ProviderDispatchIntent.ProviderAccountID i = AIAttempt.ProviderAccountID a.
Proof.
  unfold providerDispatchIntentFromAttempt. destruct (Unmarshal _) as [j|]; [|done].
  case_match; [done|]. case_match; [done|]. intros [= <-]. boolify. done.
Qed.

(** Going on after a method. *)
Lemma obeys_then {A B} ids (p : svc A) (k : A -> svc B) Q w0 w :
  relies ids w0 w -> obeys ids p (settled ids w) w ->
  (forall a w1, relies ids w0 w1 -> obeys ids (k a) Q w1) ->
  obeys ids (p ≫= k) Q w.
Proof.
  intros H0 Hp Hk. apply obeys_seq; [apply H0|]. eapply holds_impl; [|exact Hp].
  intros a w1 _ H1. apply Hk. by eapply relies_trans.
Qed.

(** The provider has the task, or has none. *)
Definition conclusive (x : ProviderDispatchResult.t) : Prop :=
  ProviderDispatchResult.Outcome x = ProviderDispatchOutcomeAccepted /\
    ProviderTaskReference.ProviderTaskID (ProviderDispatchResult.Task x) <> ""%string \/
  ProviderDispatchResult.Outcome x = ProviderDispatchOutcomeProvenNotCreated.

Lemma obeys_conclusion ids (u : AIAttempt.t) (err : errors) (P : Prop) w :
  (err = [] -> P) -> obeys ids (mret (u, err)) (fun x w' => x.2 = [] -> P) w.
Proof. by intros H w' _. Qed.

Lemma obeys_resolve ids attempt answered_ w : world_ok w ->
  obeys ids (resolveProviderDispatchResult attempt answered_)
    (fun x _ => x.2 = [] -> conclusive answered_) w.
Proof.
  intros Hw. unfold resolveProviderDispatchResult.
  apply obeys_then with w; [by apply relies_refl| |].
  { branch E; [|by apply obeys_settled, relies_refl]. intros w1 H1 Hb.
    destruct (quiet_section ids w1 tt w1.2 (proj1 H1)) as [Hp Hl]; [by apply quiet_same|]. split; [exact Hp|].
    intros w2 H2. eapply relies_trans; [exact H1|]. by eapply relies_trans. }
  intros next w1 H1. apply obeys_then with w; [done| |].
  { branch E; [|by apply obeys_settled, relies_refl, H1]. apply obeys_now; [apply H1|]. intros now w2 H2.
    by apply obeys_settled. }
  clear next. intros next w2 H2.
  pose proof (proj1 H2) as Hw2.
  branch E1; [branch E2|branch E2; [|branch E3; [branch E4|]]]; apply obeys_then with w; try done.
  - by apply obeys_unknown.
  - intros [[u c] err] w3 H3. by apply obeys_conclusion.
  - by apply obeys_bind_task.
  - boolify. assert (Hc : conclusive answered_) by (left; by split).
    intros [[u c] err] w3 H3. branch E; [by apply obeys_conclusion|]. apply obeys_then with w; [done|apply obeys_record, H3|].
    intros [[u' c'] err'] w4 H4. by apply obeys_conclusion.
  - by apply obeys_prove.
  - boolify. assert (Hc : conclusive answered_) by by right. intros [[u c] err] w3 H3. by apply obeys_conclusion.
  - by apply obeys_record.
  - intros [[u c] err] w3 H3. by apply obeys_conclusion.
  - by apply obeys_unknown.
  - intros [[u c] err] w3 H3. by apply obeys_conclusion.
  - by apply obeys_unknown.
  - intros [[u c] err] w3 H3. by apply obeys_conclusion.
Qed.

Lemma dispatched_ok n w caller c s :
  world_ok (n, w) -> ~ has_sent caller w -> s ∈ submissions w -> submitter s = caller ->
  AIAttempt.ID (submitted s) = ProviderDispatchIntent.AttemptID (ProviderDispatchCommand.Intent c) ->
  ProviderDispatchIntent.DispatchKey (ProviderDispatchCommand.Intent c)
    = ProviderDispatchIntent.AttemptID (ProviderDispatchCommand.Intent c) ->
  let w2 := w <| dispatches := mkDispatch c caller :: dispatches w |> in
  world_ok (n + 1, w2) /\ world_later (n, w) (n + 1, w2).
Proof.
  intros [H0 H1 H2 H3 H4 H7 H5 H6] Hnew Hs Hsub Hid Hkey w2. cbn in *. split; split; cbn; try done; [lia|..].
  - intros k a E. eapply attempt_ok_part; [|done|done|by apply H1]. lia.
  - intros d [->|Hd]%elem_of_cons; [|by apply H5]. split; [done|]. by exists s.
  - by constructor.
  - lia.
  - intros k a E. by exists a.
  - exists []. split; [done|]. intros s' Hin. exfalso. set_solver.
  - by exists [mkDispatch c caller].
Qed.

Notation anything := (fun _ _ => True).

Lemma obeys_execute caller attemptID payload w :
  world_ok w -> ~ has_sent caller w.2 ->
  obeys {[caller]} (ExecuteAIAttemptDispatch Marshal Unmarshal provider caller attemptID payload)
    (fun x w' => x.2 = [] -> has_sent caller w'.2 /\ conclusive x.1.2) w.
Proof.
  intros Hw Hnew. apply obeys_seq; [done|]. eapply holds_impl; [|by apply obeys_prepare].
  intros [[prepared c] [|e err]] w1 _ [H1 Hk]; [|done]. cbn in Hk. destruct (Hk eq_refl) as [Htrim Hkey].
  destruct (providerDispatchIntentFromAttempt _ _) as [i|] eqn:Ei; [|done].
  destruct (intent_spec _ _ Ei) as (I1 & I2 & _).
  apply obeys_now; [apply H1|]. intros now w2 H2.
  apply obeys_seq; [apply H2|]. eapply holds_impl; [|apply obeys_mark_submitted, H2].
  intros [[submitted_ changed] [|e err]] w3 _ [H3 Hs]; [|done].
  branch E; [done|]. boolify. subst changed. destruct Hs as [Hs Hid]. intros w4 H4 _.
  assert (H04 : relies {[caller]} w w4) by (do 3 (eapply relies_trans; [eassumption|]); done).
  pose proof (submission_relies _ _ _ _ Hs H4) as Hs4.
  destruct w4 as [n w4]. destruct (dispatched_ok n w4 caller (ProviderDispatchCommand.mk i payload)
    (mkSubmission submitted_ caller)) as [Hok Hl].
  - apply H4.
  - intros Hsent. apply Hnew. apply H04; [set_solver|exact Hsent].
  - exact Hs4.
  - done.
  - cbn. congruence.
  - cbn. congruence.
  - split.
    + split_and!; [done..|]. intros id. unfold has_sent. cbn. intros [->|Hin]%elem_of_cons; [right; set_solver|by left].
    + apply obeys_seq; [done|]. intros w5 H5. unfold after. cbn [fst snd].
      destruct (provider _ _) as [answered_ dispatchErr]. apply obeys_seq; [apply H5|].
      eapply holds_impl; [|eapply holds_grows; [apply world_later_refl|apply world_later_trans|apply obeys_resolve, H5]].
      intros [updated resolveErr] w6 _ [Hc Hl6] w7 H7 Ej. cbn in Hc, Ej.
      destruct dispatchErr; [|done]. split; [|by apply Hc].
      assert (Hl7 : world_later (n + 1, w4 <| dispatches := mkDispatch (ProviderDispatchCommand.mk i payload) caller :: dispatches w4 |>) w7).
      { eapply world_later_trans; [apply H5|]. eapply world_later_trans; [exact Hl6|apply H7]. }
      destruct (later_dispatches _ _ Hl7) as (new & E7). unfold has_sent. rewrite E7. cbn. rewrite map_app. set_solver.
Qed.

Lemma obeys_settled_any {A} ids (p : svc A) w : obeys ids p (settled ids w) w -> obeys ids p anything w.
Proof. by apply holds_impl. Qed.

Lemma obeys_reconcile ids attemptID w : world_ok w ->
  obeys ids (ReconcileAIAttemptDispatch Unmarshal reconciler attemptID) anything w.
Proof.
  intros Hw. apply obeys_find; [done|]. intros w1 H1. destruct (FindAIAttempt _ _) as [a|]; [|done].
  branch E; [done|]. destruct (providerDispatchIntentFromAttempt _ _); [|done].
  apply obeys_quiet; [apply H1|intros w2; by apply quiet_same|]. intros [answered_ err] w2 H2.
  apply obeys_seq; [apply H2|]. eapply holds_impl; [|apply obeys_resolve, H2]. by intros [updated resolveErr].
Qed.

Lemma obeys_defer ids a delay w : world_ok w -> obeys ids (deferAIAttemptReconciliation a delay) anything w.
Proof.
  intros Hw. apply obeys_find; [done|]. intros w1 H1. destruct (FindAIAttempt _ _) as [current|]; [|done].
  branch E; [done|]. apply obeys_now; [apply H1|]. intros now w2 H2.
  apply obeys_seq; [apply H2|]. eapply holds_impl; [|apply obeys_record, H2]. by intros [[u c] err].
Qed.

Lemma obeys_begin ids random operationID number provider_ w : world_ok w -> plain_text random ->
  obeys ids (BeginAIAttempt random operationID number provider_) anything w.
Proof.
  intros Hw Hp. unfold BeginAIAttempt. branch E; [done|]. apply obeys_now; [done|]. intros now w1 H1.
  set (a := new_attempt _ _ _ _ _).
  assert (Ha : TrimSpace (AIAttempt.ID a) = AIAttempt.ID a /\ AIAttempt.DispatchKey a = AIAttempt.ID a /\
    AIAttempt.ProviderTaskID a = ""%string /\ AIAttempt.DispatchVersion a = 0).
  { split_and!; [|done..]. apply TrimSpace_plain, plain_app; [done|exact Hp]. }
  destruct Ha as (A1 & A2 & A3 & A4). intros w2 H2 Hb.
  pose proof (create_section ids a w2 (proj1 H2) A1 A2 A3 A4) as H. unfold after. cbn [fst snd].
  destruct (section_of _ _ _) as [x w3]. destruct H as [Hg Hl]. split; [exact Hg|].
  destruct x as [[stored created]|e]; [|done]. cbn. by destruct (_ && _).
Qed.

(** *** All interleavings *)

(** The calls of the service, with the names they bring. *)
Inductive dispatch_call : thread dispatch_world -> Prop :=
| Call_begin random operationID number provider_ :
    plain_text random ->
    dispatch_call (mkThread ∅ _ (BeginAIAttempt random operationID number provider_))
| Call_prepare attemptID :
    dispatch_call (mkThread ∅ _ (PrepareAIAttemptDispatch Marshal attemptID))
| Call_submitted caller attemptID v at_ :
    dispatch_call (mkThread ∅ _ (MarkAIAttemptDispatchSubmitted caller attemptID v at_))
| Call_bind attemptID v reference at_ :
    dispatch_call (mkThread ∅ _ (BindAIAttemptProviderTask attemptID v reference at_))
| Call_unknown attemptID v at_ :
    dispatch_call (mkThread ∅ _ (MarkAIAttemptDispatchUnknown attemptID v at_))
| Call_record attemptID v status at_ :
    dispatch_call (mkThread ∅ _ (RecordAIAttemptReconciliation attemptID v status at_))
| Call_prove attemptID v :
    dispatch_call (mkThread ∅ _ (ProveAIAttemptNotCreated attemptID v))
| Call_complete attemptID status errorType :
    dispatch_call (mkThread ∅ _ (service_CompleteAIAttempt attemptID status errorType))
| Call_execute caller attemptID payload :
    dispatch_call (mkThread {[caller]} _
      (ExecuteAIAttemptDispatch Marshal Unmarshal provider caller attemptID payload))
| Call_reconcile attemptID :
    dispatch_call (mkThread ∅ _ (ReconcileAIAttemptDispatch Unmarshal reconciler attemptID))
| Call_defer attempt delay :
    dispatch_call (mkThread ∅ _ (deferAIAttemptReconciliation attempt delay)).

Notation dispatch_steps := (pool_steps max_int64 dispatch_call quiet).
Notation good_pool := (pool_ok max_int64 world_ok world_later has_sent).

Lemma dispatch_calls_hold : calls_hold max_int64 world_ok world_later has_sent dispatch_call.
Proof.
  intros t w Ht Hw Hfresh. destruct Ht; cbn [owned code Threads.answer] in *.
  - by apply obeys_begin.
  - eapply holds_impl; [|by apply obeys_prepare]. done.
  - eapply holds_impl; [|by apply obeys_mark_submitted]. done.
  - by apply obeys_settled_any, obeys_bind_task.
  - by apply obeys_settled_any, obeys_unknown.
  - by apply obeys_settled_any, obeys_record.
  - by apply obeys_settled_any, obeys_prove.
  - by apply obeys_settled_any, obeys_complete.
  - eapply holds_impl; [|apply obeys_execute; [done|apply Hfresh; set_solver]]. done.
  - by apply obeys_reconcile.
  - by apply obeys_defer.
Qed.

Lemma quiet_outside : outside_quiet world_ok world_later has_sent quiet.
Proof.
  intros n s s' Hq Hw. destruct (quiet_world_ok n n s s' (Z.le_refl n) Hq Hw). split_and!; [done..|].
  intros id. unfold has_sent. cbn. by destruct Hq as (_ & _ & ->).
Qed.

Lemma dispatch_sound P P' : dispatch_steps P P' -> good_pool P -> good_pool P' /\ world_later (world P) (world P').
Proof.
  apply pool_sound; [apply world_later_refl|apply world_later_trans|apply dispatch_calls_hold|apply quiet_outside].
Qed.

(** A service that starts: no attempts, no history. *)
Definition starting (P : pool dispatch_world) : Prop :=
  (world P).1 = 0 /\ aiAttempts (repository (world P).2) = ∅ /\
  submissions (world P).2 = [] /\ dispatches (world P).2 = [] /\ threads P = [].

Lemma starting_ok P : starting P -> good_pool P.
Proof.
  destruct P as [[n w] u ts]. intros (E1 & E2 & E3 & E4 & E5). cbn in *. subst. split; cbn.
  - split; cbn; [done|..]; rewrite ?E3, ?E4; cbn.
    + intros k a. by rewrite E2, lookup_empty.
    + intros k1 k2 a1 a2. by rewrite E2, lookup_empty.
    + intros s Hs. exfalso. set_solver.
    + constructor.
    + intros s1 s2 Hs. exfalso. set_solver.
    + intros d Hd. exfalso. set_solver.
    + constructor.
  - unfold has_sent. cbn. rewrite E4. set_solver.
  - done.
  - constructor.
  - done.
Qed.

Definition submissions_of (id : string) (w : dispatch_world) : list submission :=
  List.filter (fun s => AIAttempt.ID (submitted s) =s id) (submissions w).
Definition dispatches_of (id : string) (w : dispatch_world) : list dispatch :=
  List.filter (fun d => ProviderDispatchIntent.AttemptID (intent d) =s id) (dispatches w).

Lemma dispatches_submitted w id : world_ok w ->
  (length (dispatches_of id w.2) <= length (submissions_of id w.2))%nat.
Proof.
  intros Hw. rewrite <- (length_map sender), <- (length_map submitter (submissions_of id w.2)).
  apply submseteq_length, NoDup_submseteq.
  - unfold dispatches_of. pose proof (ok_dispatches_once _ Hw) as Hn. revert Hn.
    induction (dispatches w.2) as [|d l IH]; cbn; [done|]. intros [Hd Hn]%NoDup_cons.
    case_match; cbn; [|by apply IH]. constructor; [|by apply IH].
    intros (d' & Ed & Hin)%list_elem_of_fmap. apply Hd. apply list_elem_of_fmap. exists d'. split; [done|].
    apply list_elem_of_In, filter_In in Hin as [Hin _]. by apply list_elem_of_In.
  - intros c (d & -> & Hin)%list_elem_of_fmap. unfold dispatches_of in Hin.
    apply list_elem_of_In, filter_In in Hin as [Hin Hid]. apply list_elem_of_In in Hin. boolify.
    destruct (ok_dispatches _ Hw d Hin) as (_ & s & Hs & Hsub & Es). apply list_elem_of_fmap. exists s. split; [done|].
    unfold submissions_of. apply list_elem_of_In, filter_In. split; [by apply list_elem_of_In|].
    apply String.eqb_eq. congruence.
Qed.
End Proofs.

(** ** Properties *)

Section Properties.
Context `{range : MapRange} `{unicode : UnicodeCase}.
Context (Marshal : ProviderDispatchIntent.t -> result go_error string).
Context (Unmarshal : string -> result go_error ProviderDispatchIntent.t).
Context (provider : list dispatch -> dispatch -> ProviderDispatchResult.t * errors).
Context (reconciler : dispatch_world -> ProviderDispatchIntent.t -> ProviderTaskReference.t ->
  ProviderDispatchResult.t * errors).

Notation steps := (pool_steps max_int64 (dispatch_call Marshal Unmarshal provider reconciler) quiet).
Notation reached P := (world P).2 (only parsing).

(** C2. Whatever calls run, and however their critical sections interleave: a
    provider is only called for an attempt that the same call has stored as
    submitted before, under a dispatch key that never changes; each such
    submission leads to at most one call of a provider; and no two submissions
    of an attempt carry the same version. *)
Theorem provider_called_once P0 P :
  starting P0 -> steps P0 P ->
  (forall d, d ∈ dispatches (reached P) ->
     ProviderDispatchIntent.DispatchKey (intent d) = ProviderDispatchIntent.AttemptID (intent d) /\
     exists s, s ∈ submissions (reached P) /\ submitter s = sender d /\
       AIAttempt.ID (submitted s) = ProviderDispatchIntent.AttemptID (intent d)) /\
  NoDup (map sender (dispatches (reached P))) /\
  NoDup (map submission_key (submissions (reached P))) /\
  forall id, (length (dispatches_of id (reached P)) <= length (submissions_of id (reached P)))%nat.
Proof.
  intros H0 Hs. destruct (dispatch_sound _ _ _ _ _ _ Hs (starting_ok _ H0)) as [[Hw _ _ _ _] _].
  split_and!; [apply (ok_dispatches _ Hw)|apply (ok_dispatches_once _ Hw)|apply (ok_submissions_once _ Hw)|].
  intros id. by apply dispatches_submitted.
Qed.

(** C6. Once the provider's task is known, or the attempt is proven not to have
    created one, no call whatsoever submits the attempt again, and what is known
    stays known; and one task of an account never belongs to two attempts. *)
Theorem no_second_task P0 P P' id a :
  starting P0 -> steps P0 P -> steps P P' -> stored_attempt (reached P) id = Some a ->
  AIAttempt.ProviderTaskID a <> ""%string \/ AIAttempt.DispatchState a = AIAttemptDispatchProvenNotCreated ->
  submissions_of id (reached P') = submissions_of id (reached P) /\
  exists a', stored_attempt (reached P') id = Some a' /\
    (AIAttempt.ProviderTaskID a <> ""%string -> AIAttempt.ProviderTaskID a' = AIAttempt.ProviderTaskID a /\
       forall id' b, stored_attempt (reached P') id' = Some b ->
         AIAttempt.ProviderTaskID b = AIAttempt.ProviderTaskID a ->
         AIAttempt.ProviderAccountID b = AIAttempt.ProviderAccountID a -> id' = id) /\
    (AIAttempt.DispatchState a = AIAttemptDispatchProvenNotCreated ->
     AIAttempt.DispatchState a' = AIAttemptDispatchProvenNotCreated).
Proof.
  intros H0 Hs Hs' Ha Hdone. destruct (dispatch_sound _ _ _ _ _ _ Hs (starting_ok _ H0)) as [HP _].
  destruct (dispatch_sound _ _ _ _ _ _ Hs' HP) as [[Hw' _ _ _ _] Hl]. destruct HP as [Hw _ _ _ _].
  pose proof (ok_attempts _ Hw _ _ Ha) as Ho. pose proof (attempt_phase _ _ _ Ho) as Hph. split.
  - destruct (later_submissions _ _ Hl) as (new & E & Hnew). unfold submissions_of. rewrite E, List.filter_app.
    rewrite (filter_nil _ new); [done|]. intros s Hin. apply String.eqb_neq. intros Eid.
    rewrite <- Eid in Ha. destruct (Hnew s Hin a Ha) as (p & Hp & Ep & _). injection Ep as E1 E2. destruct Hdone as [Ht|Hd].
    + apply (advances_task _ _ Hp Hph) in Ht as Ht'. congruence.
    + pose proof (advances_proven _ _ Hp Hd) as Hd'. rewrite E1 in Hd'. discriminate Hd'.
  - destruct (later_attempts _ _ Hl _ _ Ha) as (a' & Ha' & Hadv). exists a'. split; [done|]. split.
    + intros Ht. pose proof (advances_task _ _ Hadv Hph Ht) as Et. split; [done|]. intros id' b Hb Eb Ea.
      apply (ok_tasks _ Hw' id' id b a' Hb Ha'); [congruence..|].
      destruct (identity_fields _ _ (advances_identity _ _ Hadv)) as (_ & ? & _). congruence.
    + apply (advances_proven _ _ Hadv).
Qed.

(** An attempt is submitted a second time only after its outcome was given up
    as unknown with no task in sight: between two submissions there is a stored
    state of this attempt that says so. *)
Theorem resubmitted_after_unknown P0 P s1 s2 :
  starting P0 -> steps P0 P -> s1 ∈ submissions (reached P) -> s2 ∈ submissions (reached P) ->
  AIAttempt.ID (submitted s1) = AIAttempt.ID (submitted s2) ->
  AIAttempt.DispatchVersion (submitted s1) < AIAttempt.DispatchVersion (submitted s2) ->
  exists u, advances (submitted s1) u /\ advances u (submitted s2) /\
    phase u = (AIAttemptDispatchUnknown, ""%string) /\
    identity u = identity (submitted s1) /\
    AIAttempt.DispatchVersion (submitted s1) < AIAttempt.DispatchVersion u < AIAttempt.DispatchVersion (submitted s2).
Proof.
  intros H0 Hs H1 H2 Eid Hv. destruct (dispatch_sound _ _ _ _ _ _ Hs (starting_ok _ H0)) as [[Hw _ _ _ _] _].
  destruct (ok_resubmissions _ Hw s1 s2 H1 H2 Eid Hv) as (p & Hp & Ep & Hstep).
  destruct (ok_submissions _ Hw _ H1) as [E1 _]. destruct (ok_submissions _ Hw _ H2) as [E2 _].
  destruct (advances_prepared _ _ Hp) as (u & Hu1 & Hu2 & Eu).
  { unfold dispatched. by rewrite E1. }
  { injection Ep as -> _. done. }
  exists u. assert (Hu3 : advances u (submitted s2)) by by eapply rtc_r.
  split_and!; [done..|symmetry; by apply advances_identity| |].
  - pose proof (advances_version _ _ Hu1) as Hle. pose proof (advances_same _ _ Hu1) as Hsame.
    destruct (decide (AIAttempt.DispatchVersion (submitted s1) = AIAttempt.DispatchVersion u)) as [E|]; [|lia].
    apply part_phase in Hsame; [|done]. injection Hsame as Es _. injection Eu as Eu _. rewrite E1, Eu in Es. discriminate Es.
  - pose proof (advances_version _ _ Hu3) as Hle. pose proof (advances_same _ _ Hu3) as Hsame.
    destruct (decide (AIAttempt.DispatchVersion u = AIAttempt.DispatchVersion (submitted s2))) as [E|]; [|lia].
    apply part_phase in Hsame; [|done]. injection Hsame as Es _. injection Eu as Eu _. rewrite E2, Eu in Es. discriminate Es.
Qed.

(** If executing a dispatch answers without an error, in any interleaving, the
    provider was called by this very call, and its answer was conclusive: it has
    accepted the task under an identifier, or has proven that it created none. *)
Theorem execution_conclusive P0 P caller attemptID payload :
  starting P0 -> steps P0 P -> ~ has_sent caller (reached P) ->
  holds max_int64 world_ok world_later has_sent {[caller]}
    (ExecuteAIAttemptDispatch Marshal Unmarshal provider caller attemptID payload)
    (fun '(_, answered_, err) w' => err = [] ->
       has_sent caller w'.2 /\ conclusive answered_) (world P).
Proof.
  intros H0 Hs Hc. destruct (dispatch_sound _ _ _ _ _ _ Hs (starting_ok _ H0)) as [[Hw _ _ _ _] _].
  eapply holds_impl; [|by apply obeys_execute]. by intros [[u answered_] err] w' _ H.
Qed.
End Properties.

(** A dispatch that times out, and a second one that the provider accepts. *)
Module Demo.
#[local] Existing Instance canonical_range.
Definition no_lower : UnicodeCase := fun s => s.
#[local] Existing Instance no_lower.

Fixpoint split_lines (s line : string) : list string :=
  match s with
  | EmptyString => [line]
  | String c s => if (String c "" =s lf) then line :: split_lines s "" else split_lines s (line +:+ String c "")
  end.
Definition marshal (i : ProviderDispatchIntent.t) : result go_error string :=
  Ok (String.concat lf [ProviderDispatchIntent.AttemptID i; ProviderDispatchIntent.OperationID i;
    ProviderDispatchIntent.DispatchKey i; ProviderDispatchIntent.RequestFingerprint i;
    ProviderDispatchIntent.ProviderID i; ProviderDispatchIntent.ProviderAccountID i;
    ProviderDispatchIntent.ProviderAdapterID i; ProviderDispatchIntent.RouteID i;
    ProviderDispatchIntent.UpstreamModel i]).
Definition unmarshal (s : string) : result go_error ProviderDispatchIntent.t :=
  match split_lines s "" with
  | [a; o; k; f; p; acc; ad; r; m] => Ok (ProviderDispatchIntent.mk 1 a o k f p acc ad r m)
  | _ => Err (ErrNew "unexpected end of JSON input")
  end.

Definition provider (before : list dispatch) (_ : dispatch) : ProviderDispatchResult.t * errors :=
  match before with
  | [] => (ProviderDispatchResult.zero, [ErrNew "timeout"])
  | _ => (ProviderDispatchResult.mk "accepted" (ProviderTaskReference.mk "task" "req" "queued" 0) ∅ ProviderBillingObservation.zero 0, [])
  end.
Definition reconciler (_ : dispatch_world) (_ : ProviderDispatchIntent.t) (_ : ProviderTaskReference.t)
    : ProviderDispatchResult.t * errors := (ProviderDispatchResult.zero, []).

Definition operation : AIOperation.t :=
  AIOperation.zero <| AIOperation.ID := "op"%string |> <| AIOperation.RequestFingerprint := "f"%string |>.
Definition start : pool dispatch_world :=
  mkPool (0, mkWorld (NewMemoryRepository <| aiOperations := {["op"%string := operation]} |>) 100 [] []) ∅ [].

Definition gateway : GatewayProvider.t :=
  GatewayProvider.zero <| GatewayProvider.ID := "p"%string |> <| GatewayProvider.AccountID := "acc"%string |>.
Definition t1 : thread dispatch_world := mkThread ∅ _ (BeginAIAttempt "1" "op" 1 gateway).
Definition execute (caller : string) : thread dispatch_world := mkThread {[caller]} _
  (ExecuteAIAttemptDispatch marshal unmarshal provider caller "attempt_1" "payload").

Definition finished (t : thread dispatch_world) (P : pool dispatch_world) : pool dispatch_world :=
  mkPool (run_in (code t) (world P)).2 (owned t ∪ used P)
    (mkThread (owned t) (Threads.answer t) (Ret (run_in (code t) (world P)).1) :: threads P).
Definition P1 := finished t1 start.
Definition P2 := finished (execute "c1") P1.
Definition P3 := finished (execute "c2") P2.
Notation steps := (pool_steps max_int64 (dispatch_call marshal unmarshal provider reconciler) quiet).

Lemma starts : starting start.
Proof. done. Qed.

Definition attempt (P : pool dispatch_world) : AIAttempt.t :=
  default AIAttempt.zero (stored_attempt (world P).2 "attempt_1"%string).
Example timed_out : phase (attempt P2) = (AIAttemptDispatchUnknown, ""%string) /\
  length (dispatches (world P2).2) = 1%nat.
Proof. vm_compute. split; reflexivity. Qed.
Example accepted : phase (attempt P3) = (AIAttemptDispatchAccepted, "task"%string) /\
  length (dispatches (world P3).2) = 2%nat /\ length (submissions (world P3).2) = 2%nat.
Proof. vm_compute. split_and!; reflexivity. Qed.

Lemma demo_steps_2 : steps start P2.
Proof.
  eapply pool_steps_trans; apply call_runs; [constructor; by vm_compute|set_solver|vm_compute; discriminate| |set_solver|].
  - constructor.
  - vm_compute. discriminate.
Qed.

Lemma demo_steps_3 : steps P2 P3.
Proof.
  apply call_runs; [constructor|..].
  - apply (bool_decide_unpack _). vm_compute. reflexivity.
  - vm_compute. discriminate.
Qed.

Lemma steps_all : steps start P3.
Proof. eapply pool_steps_trans; [apply demo_steps_2|apply demo_steps_3]. Qed.

Definition s1 : submission := default (mkSubmission AIAttempt.zero "") (last (submissions (world P3).2)).
Definition s2 : submission := default (mkSubmission AIAttempt.zero "") (head (submissions (world P3).2)).
Lemma history : submissions (world P3).2 = [s2; s1].
Proof. vm_compute. reflexivity. Qed.
End Demo.

Lemma provider_called_once_witness : starting Demo.start /\
  length (dispatches_of "attempt_1" (world Demo.P3).2) = 2%nat /\
  (length (dispatches_of "attempt_1" (world Demo.P3).2) <= length (submissions_of "attempt_1" (world Demo.P3).2))%nat.
Proof.
  split; [exact Demo.starts|]. split; [vm_compute; reflexivity|].
  apply (provider_called_once (range := canonical_range) (unicode := Demo.no_lower) _ _ _ _ _ _ Demo.starts Demo.steps_all).
Defined.

Lemma no_second_task_witness :
  AIAttempt.ProviderTaskID (Demo.attempt Demo.P3) = "task"%string /\
  submissions_of "attempt_1" (world Demo.P3).2 = submissions_of "attempt_1" (world Demo.P3).2 /\
  exists a', stored_attempt (world Demo.P3).2 "attempt_1"%string = Some a' /\ AIAttempt.ProviderTaskID a' = "task"%string.
Proof.
  assert (E : stored_attempt (world Demo.P3).2 "attempt_1"%string = Some (Demo.attempt Demo.P3)) by (vm_compute; reflexivity).
  assert (Et : AIAttempt.ProviderTaskID (Demo.attempt Demo.P3) = "task"%string) by (vm_compute; reflexivity).
  split; [exact Et|].
  destruct (no_second_task (range := canonical_range) (unicode := Demo.no_lower) _ _ _ _ _ _ Demo.P3 "attempt_1" _ Demo.starts Demo.steps_all
    (Steps_refl _ _ _ Demo.P3) E) as [Hs (a' & Ha & Ht & _)].
  { left. rewrite Et. discriminate. }
  split; [exact Hs|]. exists a'. split; [exact Ha|]. rewrite <- Et. apply Ht. rewrite Et. discriminate.
Defined.

Lemma resubmitted_after_unknown_witness :
  submitter Demo.s1 = "c1"%string /\ submitter Demo.s2 = "c2"%string /\
  exists u, advances (submitted Demo.s1) u /\ advances u (submitted Demo.s2) /\
    phase u = (AIAttemptDispatchUnknown, ""%string).
Proof.
  split; [vm_compute; reflexivity|]. split; [vm_compute; reflexivity|].
  destruct (resubmitted_after_unknown (range := canonical_range) (unicode := Demo.no_lower) _ _ _ _ _ _ Demo.s1 Demo.s2
    Demo.starts Demo.steps_all) as (u & H1 & H2 & H3 & _).
  - rewrite Demo.history. right. left.
  - rewrite Demo.history. left.
  - vm_compute. reflexivity.
  - vm_compute. reflexivity.
  - by exists u.
Defined.

Lemma execution_conclusive_witness : ~ has_sent "c2" (world Demo.P2).2 /\
  holds max_int64 world_ok world_later has_sent {["c2"%string]}
    (ExecuteAIAttemptDispatch (range := canonical_range) (unicode := Demo.no_lower) Demo.marshal Demo.unmarshal Demo.provider
       "c2" "attempt_1" "payload")
    (fun '(_, answered_, err) w' => err = [] -> has_sent "c2" w'.2 /\ conclusive answered_) (world Demo.P2).
Proof.
  assert (H : ~ has_sent "c2" (world Demo.P2).2).
  { unfold has_sent. apply (bool_decide_unpack _). vm_compute. reflexivity. }
  split; [exact H|].
  exact (execution_conclusive (range := canonical_range) (unicode := Demo.no_lower) Demo.marshal Demo.unmarshal Demo.provider
    Demo.reconciler _ _ "c2" "attempt_1" "payload" Demo.starts Demo.demo_steps_2 H).
Defined.
