(* ===== verification/BillingHolds.v ===== *)
(** * Billing holds

    [backend/internal/controlplane/billing_hold.go] and the in-memory half of
    [billing_hold_repository.go]: what a request reserves, the validation of an
    admission, the monthly budget and media quotas, the hold's state machine,
    its release, settlement and dispute.  The estimate of a request's cost is an
    argument of [newBillingHoldAdmission]; [HoldEstimate] computes it. *)

From S2P Require Import Prelude Calendar Canonical AccessModel PricingEval UsageDimensions Repository.

Definition ErrBillingHoldBudgetExceeded : go_error :=
  ErrNew "billing hold exceeds available monthly budget".
Definition ErrBillingHoldEstimateUnavailable : go_error :=
  ErrNew "billing hold cost estimate is unavailable".
Definition ErrBillingHoldImageQuotaExceeded : go_error :=
  ErrNew "billing hold exceeds the monthly image quota".
Definition ErrBillingHoldVideoQuotaExceeded : go_error :=
  ErrNew "billing hold exceeds the monthly video quota".
Definition ErrBillingHoldAudioQuotaExceeded : go_error :=
  ErrNew "billing hold exceeds the monthly audio quota".
Definition ErrBillingHoldUsageEstimate : go_error :=
  ErrNew "billing hold requires a media usage estimate".
Definition ErrBillingHoldStateConflict : go_error :=
  ErrNew "billing hold state changed concurrently".

Definition BillingHoldDefaultTTL : duration := 24 * hour.
Definition billingHoldDefaultMaxOutputTokens : Z := 4096.

(** ** Reservations *)

Record billingHoldEstimate := mkEstimate {
  ReservedAmountMicros : Z;
  Currency : string;
  Source : string;
  PricingVersions : list BillingHoldPricingVersion.t;
  PricingEvaluations : list PricingEvaluation.t;
}.

(** A quantity taken from the request. *)
Definition requested_dimension (quantity : Z) (unit : string) : UsageDimension :=
  mkDimension quantity unit "request" UsageConfidenceEstimated "" ∅.

(** The output images of a request, one when it generates and names none. *)
Definition image_count (request : CanonicalRequest.t) : Z :=
  let count := CanonicalRequest.OutputCount request in
  if (count <=? 0) && (CanonicalRequest.Operation request =s GatewayOperationImageGeneration)
  then 1 else count.

Section Reservation.
Context `{unicode : UnicodeCase} `{range : MapRange}.

Definition usageReservationForCanonicalRequest (request : CanonicalRequest.t)
    : result go_error (gmap string UsageDimension) :=
  let modality := CanonicalRequest.Modality request in
  let reserved : gmap string UsageDimension := ∅ in
  let reserved :=
    if modality =s GatewayModalityImage then
      let count := image_count request in
      if count >? 0 then <[UsageDimensionOutputImages := requested_dimension count UsageUnitCount]> reserved
      else reserved
    else if modality =s "video" then
      let duration := CanonicalRequest.VideoDurationMS request in
      if duration >? 0
      then <[UsageDimensionOutputVideoMilliseconds := requested_dimension duration UsageUnitMillisecond]> reserved
      else reserved
    else if modality =s "audio" then
      let input := CanonicalRequest.InputAudioDurationMS request in
      let output := CanonicalRequest.AudioDurationMS request in
      let reserved := if input >? 0
        then <[UsageDimensionInputAudioMilliseconds := requested_dimension input UsageUnitMillisecond]> reserved
        else reserved in
      if output >? 0
      then <[UsageDimensionOutputAudioMilliseconds := requested_dimension output UsageUnitMillisecond]> reserved
      else reserved
    else reserved in
  NormalizeUsageDimensions reserved.

Definition estimatePricingFacts (operation : AIOperation.t) (request : CanonicalRequest.t)
    (maxTokens maxCompletionTokens : Z) : Facts :=
  let outputTokens := Z.max maxTokens maxCompletionTokens in
  let outputTokens :=
    if (outputTokens =? 0) && (CanonicalRequest.Modality request =s GatewayModalityText)
    then billingHoldDefaultMaxOutputTokens else outputTokens in
  let inputTokens := Z.max 1 (Z.quot (go_len (CanonicalRequest.Payload request)) 4) in
  let outputCount := image_count request in
  noFacts
    <| PricingEval.TotalInputTokens := inputTokens |>
    <| PricingEval.UncachedInputTokens := inputTokens |>
    <| PricingEval.OutputTokens := outputTokens |>
    <| PricingEval.OutputImages := Z.max outputCount 0 |>
    <| PricingEval.OutputVideoMilliseconds := Z.max (CanonicalRequest.VideoDurationMS request) 0 |>
    <| PricingEval.InputAudioMilliseconds := Z.max (CanonicalRequest.InputAudioDurationMS request) 0 |>
    <| PricingEval.OutputAudioMilliseconds := Z.max (CanonicalRequest.AudioDurationMS request) 0 |>
    <| PricingEval.InputCharacters := Z.max (CanonicalRequest.InputCharacters request) 0 |>
    <| PricingEval.Protocol := CanonicalRequest.Protocol request |>
    <| PricingEval.Operation := CanonicalRequest.Operation request |>
    <| PricingEval.Modality := CanonicalRequest.Modality request |>
    <| PricingEval.Lane := CanonicalRequest.Lane request |>
    <| PricingEval.Stream := CanonicalRequest.Stream request |>
    <| PricingEval.OutputCount := Z.max outputCount 0 |>
    <| PricingEval.NormalizationStatus := "estimated_request"%string |>
    <| PricingEval.Phase := PhaseEstimate |>
    <| PricingEval.ObservedAt := AIOperation.CreatedAt operation |>.

(** [estimate] is what [estimateBillingHold] returned, [random] what [randomID]
    draws. *)
Definition newBillingHoldAdmission (random : string) (estimate : result go_error billingHoldEstimate)
    (operation : AIOperation.t) (limits : CanonicalLimits.t) (request : CanonicalRequest.t)
    : result go_error BillingHoldAdmission.t :=
  estimate ← estimate;
  _ ← guard_err ((CanonicalLimits.MonthlyBudgetMicros limits >? 0)
                 && (ReservedAmountMicros estimate =? 0) && (Source estimate =s "unpriced"))
        ErrBillingHoldEstimateUnavailable;
  _ ← guard_err ((CanonicalLimits.MonthlyBudgetMicros limits >? 0)
                 && (Currency estimate <>s CurrencyUSD)) ErrBillingHoldEstimateUnavailable;
  reservedUsage ← usageReservationForCanonicalRequest request;
  _ ← guard_err ((CanonicalLimits.MonthlyVideoSecondsLimit limits >? 0)
                 && (CanonicalRequest.Modality request =s "video")
                 && (CanonicalRequest.VideoDurationMS request <=? 0)) ErrBillingHoldUsageEstimate;
  let durationMS :=
    if (CanonicalRequest.Operation request =s GatewayOperationAudioTranscription)
       || (CanonicalRequest.Operation request =s GatewayOperationAudioTranslation)
    then CanonicalRequest.InputAudioDurationMS request
    else CanonicalRequest.AudioDurationMS request in
  _ ← guard_err ((CanonicalLimits.MonthlyAudioSecondsLimit limits >? 0)
                 && (CanonicalRequest.Modality request =s "audio") && (durationMS <=? 0))
        ErrBillingHoldUsageEstimate;
  let now := AIOperation.CreatedAt operation in
  let hold := BillingHold.mk
    ("hold_" +:+ random)%string (AIOperation.ID operation) (AIOperation.ApplicationID operation)
    (AIOperation.CredentialID operation) (AIOperation.CredentialSource operation)
    (AIOperation.IntegrationID operation) (AIOperation.PrincipalType operation)
    (AIOperation.PrincipalID operation) (AIOperation.ExternalSubjectReference operation)
    (AIOperation.RequestFingerprint operation) BillingHoldStatusReserved 1
    (ReservedAmountMicros estimate) reservedUsage 0 (Currency estimate) (Source estimate) ""
    (monthStart now) (now + BillingHoldDefaultTTL) now now None None in
  Ok (BillingHoldAdmission.mk hold
    ((fun version => version <| BillingHoldPricingVersion.HoldID := BillingHold.ID hold |>)
       <$> PricingVersions estimate)
    (PricingEvaluations estimate)
    (nonNegativeInt64 (CanonicalLimits.MonthlyBudgetMicros limits))
    (nonNegative (CanonicalLimits.MonthlyImageLimit limits))
    (nonNegative (CanonicalLimits.MonthlyVideoSecondsLimit limits))
    (nonNegative (CanonicalLimits.MonthlyAudioSecondsLimit limits))).

(** ** Validation of an admission *)

Definition invalid_hold (operation : AIOperation.t) (admission : BillingHoldAdmission.t) : bool :=
  let hold := BillingHoldAdmission.Hold admission in
  (TrimSpace (BillingHold.ID hold) =s "")
  || (BillingHold.OperationID hold <>s AIOperation.ID operation)
  || (BillingHold.CredentialID hold <>s AIOperation.CredentialID operation)
  || (BillingHold.ApplicationID hold <>s AIOperation.ApplicationID operation)
  || (BillingHold.CredentialSource hold <>s AIOperation.CredentialSource operation)
  || (BillingHold.IntegrationID hold <>s AIOperation.IntegrationID operation)
  || (BillingHold.PrincipalType hold <>s AIOperation.PrincipalType operation)
  || (BillingHold.PrincipalID hold <>s AIOperation.PrincipalID operation)
  || (BillingHold.ExternalSubjectReference hold <>s AIOperation.ExternalSubjectReference operation)
  || (BillingHold.RequestFingerprint hold =s "")
  || (BillingHold.RequestFingerprint hold <>s AIOperation.RequestFingerprint operation)
  || (BillingHold.Status hold <>s BillingHoldStatusReserved)
  || negb (BillingHold.Version hold =? 1) || (BillingHold.ReservedAmountMicros hold <? 0)
  || negb (BillingHold.SettledAmountMicros hold =? 0)
  || negb (go_len (TrimSpace (BillingHold.Currency hold)) =? 3)
  || IsZero (BillingHold.BudgetPeriodStart hold) || IsZero (BillingHold.CreatedAt hold)
  || negb (After (BillingHold.ExpiresAt hold) (BillingHold.CreatedAt hold))
  || (BillingHoldAdmission.MonthlyBudgetMicros admission <? 0)
  || (BillingHoldAdmission.MonthlyImageLimit admission <? 0)
  || (BillingHoldAdmission.MonthlyVideoSecondsLimit admission <? 0)
  || (BillingHoldAdmission.MonthlyAudioSecondsLimit admission <? 0).

Definition collect_evaluation (operation : AIOperation.t)
    (evaluations : gmap string PricingEvaluation.t) (evaluation : PricingEvaluation.t)
    : result go_error (gmap string PricingEvaluation.t) :=
  if (PricingEvaluation.ID evaluation =s "")
     || (PricingEvaluation.OperationID evaluation <>s AIOperation.ID operation)
     || (PricingEvaluation.Phase evaluation <>s PhaseEstimate)
     || (PricingEvaluation.Status evaluation <>s PricingEvaluationStatusSuccess)
     || match PricingEvaluation.AmountMicros evaluation with None => true | Some _ => false end
  then Err (ErrNew "invalid billing hold pricing evaluation")
  else Ok (<[PricingEvaluation.ID evaluation := evaluation]> evaluations).

Definition check_version (hold : BillingHold.t) (evaluations : gmap string PricingEvaluation.t)
    (purposes : gmap string unit) (version : BillingHoldPricingVersion.t)
    : result go_error (gmap string unit) :=
  match evaluations !! BillingHoldPricingVersion.EstimateEvaluationID version with
  | None => Err (ErrNew "invalid billing hold pricing version")
  | Some evaluation =>
      if (BillingHoldPricingVersion.HoldID version <>s BillingHold.ID hold)
         || (BillingHoldPricingVersion.Purpose version <>s PricingEvaluation.Purpose evaluation)
         || (BillingHoldPricingVersion.PricingRuleVersionID version
             <>s PricingEvaluation.PricingRuleVersionID evaluation)
         || (BillingHoldPricingVersion.SettlementEvaluationID version <>s "")
      then Err (ErrNew "invalid billing hold pricing version")
      else if has purposes (BillingHoldPricingVersion.Purpose version)
      then Err (ErrNew "duplicate billing hold pricing purpose")
      else Ok (<[BillingHoldPricingVersion.Purpose version := tt]> purposes)
  end.

Definition validateBillingHoldAdmission (operation : AIOperation.t)
    (admission : BillingHoldAdmission.t) : result go_error unit :=
  let hold := BillingHoldAdmission.Hold admission in
  _ ← NormalizeUsageDimensions (BillingHold.ReservedUsageDimensions hold);
  _ ← guard_err (invalid_hold operation admission) (ErrNew "invalid billing hold admission");
  evaluations ← foldM (collect_evaluation operation) ∅ (BillingHoldAdmission.PricingEvaluations admission);
  _ ← foldM (check_version hold evaluations) ∅ (BillingHoldAdmission.PricingVersions admission);
  guard_err (negb (map_len evaluations
                   =? Z.of_nat (length (BillingHoldAdmission.PricingVersions admission))))
    (ErrNew "orphan billing hold pricing evaluation").
End Reservation.

(** ** The state machine *)

Definition billingHoldCountsAgainstBudget (status : string) : bool :=
  oneOf status [BillingHoldStatusReserved; BillingHoldStatusCommitted; BillingHoldStatusDisputed].

Definition billingHoldTransitionAllowed (fromStatus toStatus : string) : bool :=
  if fromStatus =s BillingHoldStatusReserved then
    oneOf toStatus [BillingHoldStatusCommitted; BillingHoldStatusSettled; BillingHoldStatusReleased;
                    BillingHoldStatusDisputed]
  else if fromStatus =s BillingHoldStatusCommitted then
    oneOf toStatus [BillingHoldStatusSettled; BillingHoldStatusDisputed]
  else if fromStatus =s BillingHoldStatusDisputed then
    oneOf toStatus [BillingHoldStatusSettled; BillingHoldStatusReleased]
  else false.

Definition prepareBillingHoldTransition (hold : BillingHold.t) (toStatus : string)
    (settledAmount : Z) (reason : string) (at_ : time) : result go_error BillingHold.t :=
  let toStatus := TrimSpace toStatus in
  if BillingHold.Status hold =s toStatus then Ok hold
  else if negb (billingHoldTransitionAllowed (BillingHold.Status hold) toStatus) || (settledAmount <? 0)
  then Err (ErrFmt "invalid billing hold transition %s -> %s"
              [FmtStr (BillingHold.Status hold); FmtStr toStatus])
  else
    let hold := hold
      <| BillingHold.Status := toStatus |>
      <| BillingHold.Version := BillingHold.Version hold +i 1 |>
      <| BillingHold.Reason := TrimSpace reason |>
      <| BillingHold.UpdatedAt := at_ |> in
    let hold := if toStatus =s BillingHoldStatusSettled
      then hold <| BillingHold.SettledAmountMicros := settledAmount |>
                <| BillingHold.SettledAt := Some at_ |>
      else hold in
    Ok (if toStatus =s BillingHoldStatusReleased
        then hold <| BillingHold.ReleasedAt := Some at_ |> else hold).

Definition billingHoldUsageIsFinal `{UnicodeCase} (record : UsageRecord.t) : bool :=
  oneOf (ToLower (TrimSpace (UsageRecord.UsageSource record)))
    ["gateway_final"; "upstream_final"; "provider_final"; "provider_billing"]%string.

(** ** The monthly budget *)

Definition sameBillingCredentialScope (applicationID credentialID : string) (hold : BillingHold.t) : bool :=
  (applicationID =s BillingHold.ApplicationID hold) && (credentialID =s BillingHold.CredentialID hold).

Definition billingHoldAdmissionHasLimits (admission : BillingHoldAdmission.t) : bool :=
  (BillingHoldAdmission.MonthlyBudgetMicros admission >? 0)
  || (BillingHoldAdmission.MonthlyImageLimit admission >? 0)
  || (BillingHoldAdmission.MonthlyVideoSecondsLimit admission >? 0)
  || (BillingHoldAdmission.MonthlyAudioSecondsLimit admission >? 0).

Definition usageSecondsLimitMilliseconds (seconds : Z) : Z :=
  if seconds <=? 0 then 0
  else if seconds >? Z.quot max_int64 1000 then max_int64
  else wrap64 (seconds * 1000).

Definition enforceUsageDimensionLimits (admission : BillingHoldAdmission.t)
    (current : UsageDimensionTotals) : result go_error unit :=
  let requested := UsageDimensionsTotals
    (BillingHold.ReservedUsageDimensions (BillingHoldAdmission.Hold admission)) in
  _ ← guard_err ((BillingHoldAdmission.MonthlyImageLimit admission >? 0)
      && (saturatingUsageAdd (OutputImages current) (OutputImages requested)
          >? BillingHoldAdmission.MonthlyImageLimit admission)) ErrBillingHoldImageQuotaExceeded;
  _ ← guard_err ((BillingHoldAdmission.MonthlyVideoSecondsLimit admission >? 0)
      && (saturatingUsageAdd (VideoMilliseconds current) (VideoMilliseconds requested)
          >? usageSecondsLimitMilliseconds (BillingHoldAdmission.MonthlyVideoSecondsLimit admission)))
      ErrBillingHoldVideoQuotaExceeded;
  guard_err ((BillingHoldAdmission.MonthlyAudioSecondsLimit admission >? 0)
      && (saturatingUsageAdd (AudioMilliseconds current) (AudioMilliseconds requested)
          >? usageSecondsLimitMilliseconds (BillingHoldAdmission.MonthlyAudioSecondsLimit admission)))
      ErrBillingHoldAudioQuotaExceeded.

Section Budget.
Context `{range : MapRange}.

(** An operation of the hold's credential. *)
Definition in_scope (r : MemoryRepository) (operationID : string) (hold : BillingHold.t) : bool :=
  match aiOperations r !! operationID with
  | Some operation => sameBillingCredentialScope (AIOperation.ApplicationID operation)
                        (AIOperation.CredentialID operation) hold
  | None => false
  end.
Definition in_period (hold : BillingHold.t) (at_ : time) : bool :=
  negb (Before at_ (BillingHold.BudgetPeriodStart hold))
  && Before at_ (AddMonth (BillingHold.BudgetPeriodStart hold)).

(** The tests the three loops make of an entry, a record and a hold. *)
Definition ledger_counts (r : MemoryRepository) (hold : BillingHold.t) (entry : BillingLedgerEntry.t) : bool :=
  (BillingLedgerEntry.Purpose entry =s PricingPurposeUsageCost)
  && (BillingLedgerEntry.Status entry =s BillingLedgerStatusApplied)
  && in_period hold (BillingLedgerEntry.CreatedAt entry)
  && in_scope r (BillingLedgerEntry.OperationID entry) hold
  && (BillingLedgerEntry.AmountMicros entry >? 0).
Definition record_counts (r : MemoryRepository) (hold : BillingHold.t) (record : UsageRecord.t) : bool :=
  in_period hold (UsageRecord.CreatedAt record) && in_scope r (UsageRecord.OperationID record) hold.
Definition hold_counts (hold current : BillingHold.t) : bool :=
  billingHoldCountsAgainstBudget (BillingHold.Status current)
  && (BillingHold.BudgetPeriodStart current =? BillingHold.BudgetPeriodStart hold)
  && sameBillingCredentialScope (BillingHold.ApplicationID current) (BillingHold.CredentialID current) hold.

(** The three loops. *)
Definition settled_exposure (r : MemoryRepository) (hold : BillingHold.t) : Z :=
  foldl (fun exposure entry =>
    if ledger_counts r hold entry then exposure +i BillingLedgerEntry.AmountMicros entry else exposure)
    0 (map_values (billingLedgerEntries r)).
Definition settled_usage (r : MemoryRepository) (hold : BillingHold.t) : UsageDimensionTotals :=
  foldl (fun totals record =>
    if record_counts r hold record
    then addUsageDimensionTotals totals (UsageDimensionsTotals (UsageRecord.UsageDimensions record))
    else totals) noTotals (map_values (usageRecords r)).
Definition active_exposure (r : MemoryRepository) (hold : BillingHold.t)
    (start : Z * UsageDimensionTotals) : Z * UsageDimensionTotals :=
  foldl (fun '(exposure, totals) current =>
    if hold_counts hold current
    then (exposure +i nonNegativeInt64 (BillingHold.ReservedAmountMicros current),
          addUsageDimensionTotals totals
            (UsageDimensionsTotals (BillingHold.ReservedUsageDimensions current)))
    else (exposure, totals)) start (map_values (billingHolds r)).

Definition enforceMemoryBillingHoldBudget (r : MemoryRepository) (admission : BillingHoldAdmission.t)
    : result go_error unit :=
  if negb (billingHoldAdmissionHasLimits admission) then Ok tt
  else
    let hold := BillingHoldAdmission.Hold admission in
    let exposure := settled_exposure r hold in
    let settledUsage := settled_usage r hold in
    let '(exposure, activeUsage) := active_exposure r hold (exposure, noTotals) in
    if (BillingHoldAdmission.MonthlyBudgetMicros admission >? 0)
       && (exposure +i BillingHold.ReservedAmountMicros hold
           >? BillingHoldAdmission.MonthlyBudgetMicros admission)
    then Err ErrBillingHoldBudgetExceeded
    else enforceUsageDimensionLimits admission (addUsageDimensionTotals settledUsage activeUsage).

(** ** Operations of the in-memory repository *)

(** The checks of an admission against the maps, and its insertion; the job and
    the direct operation share them. *)
Definition check_admission (admission : BillingHoldAdmission.t) (operationID : string) : M unit :=
  let hold := BillingHoldAdmission.Hold admission in
  r ← read id;
  _ ← check (has (billingHolds r) (BillingHold.ID hold))
        (exists_error "billing hold %q already exists" (BillingHold.ID hold));
  _ ← check (match memoryBillingHoldForOperation (billingHolds r) operationID with
             | Some _ => true | None => false end)
        (exists_error "billing hold for operation %q already exists" operationID);
  _ ← for_each (fun evaluation =>
        check (has (pricingEvaluations r) (PricingEvaluation.ID evaluation))
          (exists_error "pricing evaluation %q already exists" (PricingEvaluation.ID evaluation)))
        (BillingHoldAdmission.PricingEvaluations admission);
  for_each (fun version =>
    _ ← check ((BillingHoldPricingVersion.HoldID version <>s BillingHold.ID hold)
               || (BillingHoldPricingVersion.PricingRuleVersionID version =s "")
               || (BillingHoldPricingVersion.EstimateEvaluationID version =s ""))
          (ErrNew "invalid billing hold pricing version");
    check (has (billingHoldPricingVersions r)
             (BillingHoldPricingVersion.HoldID version +:+ lf +:+ BillingHoldPricingVersion.Purpose version)%string)
      (ErrNew "billing hold pricing purpose already exists"))
    (BillingHoldAdmission.PricingVersions admission).

Definition insert_admission (admission : BillingHoldAdmission.t) (r : MemoryRepository)
    : MemoryRepository :=
  let hold := BillingHoldAdmission.Hold admission in
  let r := r.[billingHolds]:[BillingHold.ID hold] <- hold in
  let r := foldl (fun r evaluation => r.[pricingEvaluations]:[PricingEvaluation.ID evaluation] <- evaluation)
             r (BillingHoldAdmission.PricingEvaluations admission) in
  foldl (fun r version =>
    r.[billingHoldPricingVersions]:[(BillingHoldPricingVersion.HoldID version +:+ lf
      +:+ BillingHoldPricingVersion.Purpose version)%string] <- version)
    r (BillingHoldAdmission.PricingVersions admission).

Definition CreateAIOperationWithBillingHold `{UnicodeCase} (operation : AIOperation.t)
    (admission : BillingHoldAdmission.t) : M (AIOperation.t * bool) :=
  let operation := normalizeAIOperation operation in
  _ ← lift (validateBillingHoldAdmission operation admission);
  replay ← read (fun r =>
    if AIOperation.IdempotencyKey operation <>s ""
    then find_value (fun current => sameAIOperationIdempotencyScope current operation) (aiOperations r)
    else None);
  match replay with
  | Some current => mret (current, false)
  | None =>
      r ← read id;
      _ ← check (has (aiOperations r) (AIOperation.ID operation))
            (exists_error "ai operation %q already exists" (AIOperation.ID operation));
      _ ← check_admission admission (AIOperation.ID operation);
      _ ← lift (enforceMemoryBillingHoldBudget r admission);
      _ ← write (fun r =>
            insert_admission admission (r.[aiOperations]:[AIOperation.ID operation] <- operation));
      mret (operation, true)
  end.

Definition FindBillingHoldByOperationID (operationID : string) (r : MemoryRepository)
    : option BillingHold.t :=
  memoryBillingHoldForOperation (billingHolds r) (TrimSpace operationID).

Definition ListBillingHoldPricingVersions (holdID : string) (r : MemoryRepository)
    : list BillingHoldPricingVersion.t :=
  sort_by (fun i j => str_ltb (BillingHoldPricingVersion.Purpose i) (BillingHoldPricingVersion.Purpose j))
    (List.filter (fun version => BillingHoldPricingVersion.HoldID version =s TrimSpace holdID)
       (map_values (billingHoldPricingVersions r))).

(** The hold, if any, and whether it was updated. *)
Definition TransitionBillingHold (operationID : string) (expectedVersion : Z) (toStatus : string)
    (settledAmount : Z) (reason : string) (transitionedAt : time) : M (option BillingHold.t * bool) :=
  found ← read (FindBillingHoldByOperationID operationID);
  match found with
  | None => mret (None, false)
  | Some hold =>
      if negb (BillingHold.Version hold =? expectedVersion) then mret (Some hold, false)
      else
        updated ← lift (prepareBillingHoldTransition hold toStatus settledAmount reason transitionedAt);
        if BillingHold.Version updated =? BillingHold.Version hold then mret (Some hold, false)
        else
          _ ← write (fun r => r.[billingHolds]:[BillingHold.ID hold] <- updated);
          mret (Some updated, true)
  end.

Definition ListBillingHolds (r : MemoryRepository) : list BillingHold.t :=
  sort_by (fun i j =>
    if BillingHold.CreatedAt i =? BillingHold.CreatedAt j
    then str_ltb (BillingHold.ID i) (BillingHold.ID j)
    else Before (BillingHold.CreatedAt i) (BillingHold.CreatedAt j)) (map_values (billingHolds r)).

Definition releaseMemoryBillingHoldForOperation (operationID reason : string) (transitionedAt : time)
    : M unit :=
  found ← read (fun r => memoryBillingHoldForOperation (billingHolds r) operationID);
  match found with
  | None => mret tt
  | Some hold =>
      if oneOf (BillingHold.Status hold)
           [BillingHoldStatusSettled; BillingHoldStatusReleased; BillingHoldStatusCommitted]
      then mret tt
      else
        updated ← lift (prepareBillingHoldTransition hold BillingHoldStatusReleased 0 reason transitionedAt);
        write (fun r => r.[billingHolds]:[BillingHold.ID hold] <- updated)
  end.

Definition ledger_same_operation (current entry : BillingLedgerEntry.t) : bool :=
  (BillingLedgerEntry.OperationID entry =s BillingLedgerEntry.OperationID current)
  && (BillingLedgerEntry.Purpose entry =s PricingPurposeUsageCost)
  && (BillingLedgerEntry.Status entry =s BillingLedgerStatusApplied).

Definition cumulative_error : go_error := ErrNew "cumulative billing amount exceeds supported range".

Definition cumulativeMemoryBillingAmount (r : MemoryRepository) (current : BillingLedgerEntry.t)
    : result go_error Z :=
  total ← foldM (fun total entry =>
      if ledger_same_operation current entry then
        if BillingLedgerEntry.AmountMicros entry >? max_int64 -i total then Err cumulative_error
        else Ok (total +i BillingLedgerEntry.AmountMicros entry)
      else Ok total)
    (BillingLedgerEntry.AmountMicros current) (map_values (billingLedgerEntries r));
  if total <? 0 then Err cumulative_error else Ok total.

Definition settleMemoryBillingHoldForUsage `{UnicodeCase} (record : UsageRecord.t)
    (billing : BillingLedgerEntry.t) : M unit :=
  if negb (billingHoldUsageIsFinal record) then mret tt
  else
    r ← read id;
    match memoryBillingHoldForOperation (billingHolds r) (UsageRecord.OperationID record) with
    | None => mret tt
    | Some hold =>
        if oneOf (BillingHold.Status hold) [BillingHoldStatusSettled; BillingHoldStatusReleased]
        then mret tt
        else
          settledAmount ← lift (cumulativeMemoryBillingAmount r billing);
          updated ← lift (prepareBillingHoldTransition hold BillingHoldStatusSettled settledAmount
                            "usage_ledger_applied" (UsageRecord.CreatedAt record));
          write (fun r => r.[billingHolds]:[BillingHold.ID hold] <- updated)
    end.

(** ** The service *)

(** [Service.transitionBillingHold]: the lookup and the transition are two
    critical sections, so the hold found may be stale. *)
Definition transitionBillingHold (found : option BillingHold.t) (status : string)
    (settledAmount : Z) (reason : string) (now : time) : M unit :=
  match found with
  | None => mret tt
  | Some hold =>
      if (BillingHold.Status hold =s status)
         || oneOf (BillingHold.Status hold) [BillingHoldStatusSettled; BillingHoldStatusReleased]
         || ((BillingHold.Status hold =s BillingHoldStatusDisputed) && (status =s BillingHoldStatusCommitted))
      then mret tt
      else
        '(_, updated) ← TransitionBillingHold (BillingHold.OperationID hold) (BillingHold.Version hold)
            status settledAmount (TrimSpace reason) now;
        check (negb updated) ErrBillingHoldStateConflict
  end.
Definition CommitBillingHold (found : option BillingHold.t) (reason : string) (now : time) : M unit :=
  transitionBillingHold found BillingHoldStatusCommitted 0 reason now.
Definition DisputeBillingHold (found : option BillingHold.t) (reason : string) (now : time) : M unit :=
  transitionBillingHold found BillingHoldStatusDisputed 0 reason now.
Definition ReleaseBillingHold (found : option BillingHold.t) (reason : string) (now : time) : M unit :=
  transitionBillingHold found BillingHoldStatusReleased 0 reason now.
End Budget.

(** ** Specification *)

(** What holds of every hold the repository keeps. *)
Record hold_ok (hold : BillingHold.t) : Prop := {
  hold_status : oneOf (BillingHold.Status hold) [BillingHoldStatusReserved; BillingHoldStatusCommitted;
    BillingHoldStatusSettled; BillingHoldStatusReleased; BillingHoldStatusDisputed] = true;
  hold_settled : is_Some (BillingHold.SettledAt hold) <-> BillingHold.Status hold = BillingHoldStatusSettled;
  hold_released : is_Some (BillingHold.ReleasedAt hold) <-> BillingHold.Status hold = BillingHoldStatusReleased;
  hold_amount : 0 <= BillingHold.SettledAmountMicros hold /\
    (BillingHold.Status hold <> BillingHoldStatusSettled -> BillingHold.SettledAmountMicros hold = 0);
}.

Definition hold_final (hold : BillingHold.t) : bool :=
  oneOf (BillingHold.Status hold) [BillingHoldStatusSettled; BillingHoldStatusReleased].

(** Holds are filed under their identity, and an operation has at most one. *)
Record holds_ok (holds : gmap string BillingHold.t) : Prop := {
  holds_keys : forall k hold, holds !! k = Some hold -> BillingHold.ID hold = k /\ hold_ok hold;
  holds_one : forall k1 k2 h1 h2, holds !! k1 = Some h1 -> holds !! k2 = Some h2 ->
    BillingHold.OperationID h1 = BillingHold.OperationID h2 -> k1 = k2;
}.

(** The exposure of a credential in a period: what was billed to it and what
    its open holds reserve, as mathematical sums. *)
Definition exposure (r : MemoryRepository) (hold : BillingHold.t) : Z :=
  sum_map (fun entry => if ledger_counts r hold entry then BillingLedgerEntry.AmountMicros entry else 0)
    (billingLedgerEntries r)
  + sum_map (fun current => if hold_counts hold current
                            then Z.max 0 (BillingHold.ReservedAmountMicros current) else 0) (billingHolds r).

(** The media usage of a credential in a period, by one of the three totals. *)
Definition usage_exposure (f : UsageDimensionTotals -> Z) (r : MemoryRepository) (hold : BillingHold.t) : Z :=
  sum_map (fun record => if record_counts r hold record
    then Z.max 0 (f (UsageDimensionsTotals (UsageRecord.UsageDimensions record))) else 0) (usageRecords r)
  + sum_map (fun current => if hold_counts hold current
    then Z.max 0 (f (UsageDimensionsTotals (BillingHold.ReservedUsageDimensions current))) else 0)
    (billingHolds r).

(** ** Lemmas: the state machine *)

Lemma hold_allowed_cases a b : billingHoldTransitionAllowed a b = true ->
  (a, b) ∈ [(BillingHoldStatusReserved, BillingHoldStatusCommitted);
    (BillingHoldStatusReserved, BillingHoldStatusSettled);
    (BillingHoldStatusReserved, BillingHoldStatusReleased);
    (BillingHoldStatusReserved, BillingHoldStatusDisputed);
    (BillingHoldStatusCommitted, BillingHoldStatusSettled);
    (BillingHoldStatusCommitted, BillingHoldStatusDisputed);
    (BillingHoldStatusDisputed, BillingHoldStatusSettled);
    (BillingHoldStatusDisputed, BillingHoldStatusReleased)].
Proof.
  unfold billingHoldTransitionAllowed. intros H.
  repeat match type of H with
  | (if ?a =s ?b then _ else _) = true => destruct (String.eqb_spec a b); subst
  end; try done; apply oneOf_In in H;
  repeat match type of H with
  | _ ∈ _ :: _ => apply elem_of_cons in H as [->|H]
  | _ ∈ [] => by apply elem_of_nil in H
  end; apply (bool_decide_unpack _); vm_compute; exact I.
Qed.

Lemma prepareHold_inv hold toStatus amount reason at_ updated :
  prepareBillingHoldTransition hold toStatus amount reason at_ = Ok updated ->
  (updated = hold /\ BillingHold.Status hold = TrimSpace toStatus) \/
  (billingHoldTransitionAllowed (BillingHold.Status hold) (TrimSpace toStatus) = true /\ 0 <= amount /\
   BillingHold.Status updated = TrimSpace toStatus /\ BillingHold.ID updated = BillingHold.ID hold /\
   BillingHold.OperationID updated = BillingHold.OperationID hold /\
   BillingHold.Version updated = BillingHold.Version hold +i 1 /\
   BillingHold.ReservedAmountMicros updated = BillingHold.ReservedAmountMicros hold /\
   BillingHold.SettledAmountMicros updated =
     (if TrimSpace toStatus =s BillingHoldStatusSettled then amount
      else BillingHold.SettledAmountMicros hold) /\
   BillingHold.SettledAt updated =
     (if TrimSpace toStatus =s BillingHoldStatusSettled then Some at_ else BillingHold.SettledAt hold) /\
   BillingHold.ReleasedAt updated =
     (if TrimSpace toStatus =s BillingHoldStatusReleased then Some at_ else BillingHold.ReleasedAt hold)).
Proof.
  unfold prepareBillingHoldTransition. cbv zeta. set (st := TrimSpace toStatus).
  destruct (String.eqb_spec (BillingHold.Status hold) st) as [E|E]; [intros [= <-]; by left|].
  destruct (_ || _) eqn:Eb; [done|]. boolify. intros [= <-]. right.
  destruct (st =s BillingHoldStatusSettled), (st =s BillingHoldStatusReleased); done.
Qed.

Lemma prepareHold_ok hold toStatus amount reason at_ updated :
  hold_ok hold -> prepareBillingHoldTransition hold toStatus amount reason at_ = Ok updated ->
  hold_ok updated.
Proof.
  intros [Hs Hset Hrel [Ha1 Ha2]] [[-> _]|(Ha & Hamt & E1 & _ & _ & _ & _ & E3 & E4 & E5)]%prepareHold_inv;
    [by constructor|].
  apply hold_allowed_cases in Ha.
  assert (Hn : BillingHold.Status hold <> BillingHoldStatusSettled /\
               BillingHold.Status hold <> BillingHoldStatusReleased).
  { elem_cases Ha; injection Ha as -> _; done. }
  destruct Hn as [Hn1 Hn2].
  assert (N1 : BillingHold.SettledAt hold = None)
    by (destruct (BillingHold.SettledAt hold) eqn:E; [|done]; destruct Hn1; apply Hset; by eexists).
  assert (N2 : BillingHold.ReleasedAt hold = None)
    by (destruct (BillingHold.ReleasedAt hold) eqn:E; [|done]; destruct Hn2; apply Hrel; by eexists).
  rewrite N1 in E4. rewrite N2 in E5. rewrite Ha2 in E3 by done.
  elem_cases Ha; injection Ha as _ Eb; rewrite Eb in *; str_eval;
  (split; rewrite ?E1, ?E3, ?E4, ?E5; [done| | |split; [lia|done]];
   split; try done; intros _; by apply mk_is_Some with at_).
Qed.

(** A final hold stays as it is. *)
Lemma prepareHold_final hold toStatus amount reason at_ updated :
  hold_final hold = true -> prepareBillingHoldTransition hold toStatus amount reason at_ = Ok updated ->
  updated = hold.
Proof.
  intros Hf [[-> _]|(Ha & _)]%prepareHold_inv; [done|]. apply hold_allowed_cases in Ha.
  unfold hold_final in Hf. apply oneOf_In in Hf.
  elem_cases Ha; injection Ha as E _; rewrite E in Hf;
  elem_cases Hf; discriminate Hf.
Qed.

(** ** Lemmas: the budget *)

(** Quantities are [int64] numbers. *)
Definition typed_usage (values : gmap string UsageDimension) : Prop :=
  map_Forall (fun _ d => in_int64 (Quantity d)) values.
Definition typed_repository (r : MemoryRepository) : Prop :=
  map_Forall (fun _ record => typed_usage (UsageRecord.UsageDimensions record)) (usageRecords r) /\
  map_Forall (fun _ hold => typed_usage (BillingHold.ReservedUsageDimensions hold)) (billingHolds r).

Lemma quantity_range values name : typed_usage values -> 0 <= usageDimensionQuantity values name <= max_int64.
Proof.
  intros Ht. unfold usageDimensionQuantity. destruct (values !! name) as [d|] eqn:E.
  - specialize (Ht _ _ E). cbn in Ht. unfold in_int64 in Ht. destruct (Z.ltb_spec (Quantity d) 0); [done|lia].
  - done.
Qed.

Lemma saturating_range a b : 0 <= a <= max_int64 -> 0 <= b <= max_int64 ->
  0 <= saturatingUsageAdd a b <= max_int64.
Proof. intros Ha Hb. rewrite saturating_spec_nonneg by done. unfold saturated. lia. Qed.

Lemma saturated_add a b : 0 <= a -> 0 <= b ->
  saturatingUsageAdd (saturated a) (saturated b) = saturated (a + b).
Proof.
  intros Ha Hb. pose proof (saturated_range a Ha). pose proof (saturated_range b Hb).
  rewrite saturating_spec_nonneg by tauto. unfold saturated. lia.
Qed.

Lemma saturated_add_r a b : 0 <= a -> 0 <= b <= max_int64 ->
  saturatingUsageAdd (saturated a) b = saturated (a + b).
Proof.
  intros Ha Hb. rewrite <- saturated_add by lia.
  replace (saturated b) with b by (unfold saturated; lia). done.
Qed.

Definition totals_range (t : UsageDimensionTotals) : Prop :=
  0 <= OutputImages t <= max_int64 /\ 0 <= VideoMilliseconds t <= max_int64 /\
  0 <= AudioMilliseconds t <= max_int64.

Lemma totals_in_range values : typed_usage values -> totals_range (UsageDimensionsTotals values).
Proof.
  intros Ht. unfold totals_range, UsageDimensionsTotals. cbn.
  split; [|split]; [|apply saturating_range|apply saturating_range; [apply saturating_range|]];
    by apply quantity_range.
Qed.

(** A conditional accumulation of totals, column by column. *)
Lemma totals_fold {A} (p : A -> bool) (g : A -> UsageDimensionTotals) l (t : UsageDimensionTotals) :
  totals_range t -> (forall x, x ∈ l -> totals_range (g x)) ->
  let column (f : UsageDimensionTotals -> Z) :=
    saturated (f t + sum_Z (fun x => if p x then Z.max 0 (f (g x)) else 0) l) in
  foldl (fun totals x => if p x then addUsageDimensionTotals totals (g x) else totals) t l
  = mkTotals (column OutputImages) (column VideoMilliseconds) (column AudioMilliseconds).
Proof.
  cbv zeta. revert t. induction l as [|x l IH]; intros t Ht Hl; cbn.
  { destruct t as [i v a], Ht as (H1 & H2 & H3). cbn in *. unfold saturated. f_equal; lia. }
  assert (Hx : totals_range (g x)) by (apply Hl, elem_of_cons; by left).
  assert (Hl' : forall y, y ∈ l -> totals_range (g y)) by (intros y Hy; apply Hl, elem_of_cons; by right).
  assert (Hs : forall f : A -> Z, (forall y, y ∈ l -> 0 <= f y) -> 0 <= sum_Z f l)
    by (intros; by apply sum_Z_nonneg).
  destruct (p x) eqn:Ep.
  - destruct Ht as (H1 & H2 & H3), Hx as (X1 & X2 & X3).
    assert (Hr : totals_range (addUsageDimensionTotals t (g x)))
      by (split_and!; cbn; by apply saturating_range).
    rewrite IH by done. cbn [OutputImages VideoMilliseconds AudioMilliseconds addUsageDimensionTotals].
    rewrite !saturating_spec_nonneg by done. unfold saturated.
    assert (N : forall f : UsageDimensionTotals -> Z,
      0 <= sum_Z (fun y => if p y then Z.max 0 (f (g y)) else 0) l)
      by (intros f; apply Hs; intros y _; destruct (p y); lia).
    pose proof (N OutputImages). pose proof (N VideoMilliseconds).
    pose proof (N AudioMilliseconds). f_equal; lia.
  - rewrite IH by done. done.
Qed.

(** A limit that is enforced when it is positive. *)
Lemma limit_guard {E} (limit amount bound : Z) (e : E) :
  guard_err ((limit >? 0) && (amount >? bound)) e = Ok tt <-> (0 < limit -> amount <= bound).
Proof.
  rewrite guard_Ok, andb_false_iff, !Z.gtb_ltb, !Z.ltb_ge. lia.
Qed.

Lemma guard_then {E} c (e : E) (k : unit -> result E unit) :
  (guard_err c e ≫= k) = Ok tt <-> guard_err c e = Ok tt /\ k tt = Ok tt.
Proof. destruct c; cbn; split; [done|by intros []|done|by intros []]. Qed.

Lemma if_guard {E} (c : bool) (e : E) (k : result E unit) :
  (if c then Err e else k) = Ok tt <-> guard_err c e = Ok tt /\ k = Ok tt.
Proof. destruct c; cbn; split; [done|by intros []|done|by intros []]. Qed.

Section BudgetLemmas.
Context `{range : MapRange}.

Lemma settled_exposure_spec r hold :
  settled_exposure r hold =
  wrap64 (sum_map (fun entry => if ledger_counts r hold entry then BillingLedgerEntry.AmountMicros entry else 0)
            (billingLedgerEntries r)).
Proof.
  unfold settled_exposure. rewrite foldl_wrap_if by (unfold in_int64, min_int64, max_int64; lia).
  by rewrite Z.add_0_l, sum_map_values.
Qed.

Lemma active_exposure_spec r hold e t :
  in_int64 e ->
  active_exposure r hold (e, t) =
  (wrap64 (e + sum_map (fun current => if hold_counts hold current
                 then Z.max 0 (BillingHold.ReservedAmountMicros current) else 0) (billingHolds r)),
   foldl (fun totals current => if hold_counts hold current
            then addUsageDimensionTotals totals
                   (UsageDimensionsTotals (BillingHold.ReservedUsageDimensions current))
            else totals) t (map_values (billingHolds r))).
Proof.
  unfold active_exposure. rewrite <- sum_map_values. generalize (map_values (billingHolds r)).
  intros l. revert e t. induction l as [|x l IH]; intros e t He; cbn.
  { by rewrite Z.add_0_r, wrap64_id. }
  destruct (hold_counts hold x).
  - rewrite IH by apply wrap64_range. rewrite wrap64_add_l.
    assert (En : nonNegativeInt64 (BillingHold.ReservedAmountMicros x)
      = Z.max 0 (BillingHold.ReservedAmountMicros x))
      by (unfold nonNegativeInt64; destruct (Z.ltb_spec (BillingHold.ReservedAmountMicros x) 0); lia).
    rewrite En. do 2 f_equal. lia.
  - rewrite IH by done. done.
Qed.

Lemma exposure_total r hold t :
  (active_exposure r hold (settled_exposure r hold, t)).1 = wrap64 (exposure r hold).
Proof.
  rewrite active_exposure_spec by (rewrite settled_exposure_spec; apply wrap64_range). cbn.
  by rewrite settled_exposure_spec, wrap64_add_l.
Qed.

Lemma usage_total r hold :
  typed_repository r ->
  let total f := saturated (usage_exposure f r hold) in
  addUsageDimensionTotals (settled_usage r hold)
    (active_exposure r hold (settled_exposure r hold, noTotals)).2
  = mkTotals (total OutputImages) (total VideoMilliseconds) (total AudioMilliseconds).
Proof.
  intros [Hr Hh] total.
  rewrite active_exposure_spec by (rewrite settled_exposure_spec; apply wrap64_range). cbn [snd].
  unfold settled_usage.
  rewrite (totals_fold (record_counts r hold)
    (fun record => UsageDimensionsTotals (UsageRecord.UsageDimensions record))).
  2: { unfold totals_range, max_int64. cbn. lia. }
  2: { intros record [k Hk]%elem_of_map_values. apply totals_in_range. by apply (Hr k). }
  rewrite (totals_fold (hold_counts hold)
    (fun current => UsageDimensionsTotals (BillingHold.ReservedUsageDimensions current))).
  2: { unfold totals_range, max_int64. cbn. lia. }
  2: { intros current [k Hk]%elem_of_map_values. apply totals_in_range. by apply (Hh k). }
  unfold addUsageDimensionTotals. cbn. unfold total, usage_exposure. rewrite <- !sum_map_values.
  assert (Hadd : forall a b, 0 <= a -> 0 <= b ->
    saturatingUsageAdd (saturated a) (saturated b) = saturated (a + b)) by exact saturated_add.
  rewrite !Hadd; [done| | | | | |]; apply sum_Z_nonneg; intros x _; case_match; lia.
Qed.

(** An accepted admission, in terms of the sums. *)
Lemma enforce_budget_iff r admission :
  let hold := BillingHoldAdmission.Hold admission in
  let requested := UsageDimensionsTotals (BillingHold.ReservedUsageDimensions hold) in
  typed_repository r -> typed_usage (BillingHold.ReservedUsageDimensions hold) ->
  enforceMemoryBillingHoldBudget r admission = Ok tt <->
  (0 < BillingHoldAdmission.MonthlyBudgetMicros admission ->
     wrap64 (exposure r hold + BillingHold.ReservedAmountMicros hold)
     <= BillingHoldAdmission.MonthlyBudgetMicros admission) /\
  (0 < BillingHoldAdmission.MonthlyImageLimit admission ->
     saturated (usage_exposure OutputImages r hold + OutputImages requested)
     <= BillingHoldAdmission.MonthlyImageLimit admission) /\
  (0 < BillingHoldAdmission.MonthlyVideoSecondsLimit admission ->
     saturated (usage_exposure VideoMilliseconds r hold + VideoMilliseconds requested)
     <= usageSecondsLimitMilliseconds (BillingHoldAdmission.MonthlyVideoSecondsLimit admission)) /\
  (0 < BillingHoldAdmission.MonthlyAudioSecondsLimit admission ->
     saturated (usage_exposure AudioMilliseconds r hold + AudioMilliseconds requested)
     <= usageSecondsLimitMilliseconds (BillingHoldAdmission.MonthlyAudioSecondsLimit admission)).
Proof.
  intros hold requested Hr Hreq. unfold enforceMemoryBillingHoldBudget, billingHoldAdmissionHasLimits.
  destruct (_ || _) eqn:Elim; cbn [negb].
  2: { boolify. split; [intros _; split_and!; lia|done]. }
  fold hold. pose proof (exposure_total r hold noTotals) as He. pose proof (usage_total r hold Hr) as Hu.
  destruct (active_exposure r hold (settled_exposure r hold, noTotals)) as [e a]. cbn in He, Hu. subst e.
  rewrite Hu, wrap64_add_l. unfold enforceUsageDimensionLimits. fold hold requested.
  cbn [OutputImages VideoMilliseconds AudioMilliseconds].
  destruct (totals_in_range _ Hreq) as (R1 & R2 & R3). fold requested in R1, R2, R3.
  assert (Hn : forall f, 0 <= usage_exposure f r hold).
  { intros f. unfold usage_exposure. rewrite <- !sum_map_values.
    apply Z.add_nonneg_nonneg; apply sum_Z_nonneg; intros x _; case_match; lia. }
  assert (Hadd : forall f b, 0 <= b <= max_int64 ->
    saturatingUsageAdd (saturated (usage_exposure f r hold)) b = saturated (usage_exposure f r hold + b)).
  { intros f b Hb. by apply saturated_add_r. }
  rewrite !Hadd by done.
  rewrite if_guard, !guard_then, !limit_guard. done.
Qed.
End BudgetLemmas.

(** ** Lemmas: settlement *)

Lemma cumulative_fold {A} (p : A -> bool) (f : A -> Z) l acc :
  0 <= acc <= max_int64 -> (forall x, x ∈ l -> 0 <= f x <= max_int64) ->
  foldM (fun total x => if p x then
      if f x >? max_int64 -i total then Err cumulative_error else Ok (total +i f x)
    else Ok total) acc l =
  (let total := acc + sum_Z (fun x => if p x then f x else 0) l in
   if total <=? max_int64 then Ok total else Err cumulative_error).
Proof.
  revert acc. induction l as [|x l IH]; intros acc Hacc Hl; cbn.
  { rewrite Z.add_0_r. by rewrite (proj2 (Z.leb_le _ _)) by lia. }
  assert (Hx : 0 <= f x <= max_int64) by (apply Hl, elem_of_cons; by left).
  assert (Hl' : forall y, y ∈ l -> 0 <= f y <= max_int64)
    by (intros y Hy; apply Hl, elem_of_cons; by right).
  assert (Hs : 0 <= sum_Z (fun y => if p y then f y else 0) l)
    by (apply sum_Z_nonneg; intros y Hy; specialize (Hl' y Hy); destruct (p y); lia).
  destruct (p x).
  - rewrite (wrap64_id (max_int64 - acc)) by (unfold in_int64, min_int64, max_int64 in *; lia).
    rewrite Z.gtb_ltb. destruct (Z.ltb_spec (max_int64 - acc) (f x)).
    + by rewrite (proj2 (Z.leb_gt _ _)) by lia.
    + rewrite wrap64_id by (unfold in_int64, min_int64, max_int64 in *; lia).
      rewrite IH by (done || lia). cbv zeta. by rewrite Z.add_assoc.
  - rewrite IH by done. done.
Qed.

Section SettlementLemmas.
Context `{range : MapRange}.

(** The usage cost already billed to the operation of an entry. *)
Definition billed (r : MemoryRepository) (current : BillingLedgerEntry.t) : Z :=
  sum_map (fun entry => if ledger_same_operation current entry
                        then BillingLedgerEntry.AmountMicros entry else 0) (billingLedgerEntries r).

Definition amounts_ok (r : MemoryRepository) : Prop :=
  map_Forall (fun _ entry => 0 <= BillingLedgerEntry.AmountMicros entry <= max_int64)
    (billingLedgerEntries r).

Lemma cumulative_exact r current :
  amounts_ok r -> 0 <= BillingLedgerEntry.AmountMicros current <= max_int64 ->
  cumulativeMemoryBillingAmount r current =
  (let total := BillingLedgerEntry.AmountMicros current + billed r current in
   if total <=? max_int64 then Ok total else Err cumulative_error).
Proof.
  intros Hr Hc. unfold cumulativeMemoryBillingAmount, billed. rewrite <- sum_map_values.
  rewrite (cumulative_fold (ledger_same_operation current)); [|done|].
  2: { intros x [k Hk]%elem_of_map_values. by apply (Hr k). }
  cbv zeta. destruct (_ <=? _); cbn; [|done].
  assert (Hs : 0 <= sum_Z (fun entry => if ledger_same_operation current entry
    then BillingLedgerEntry.AmountMicros entry else 0) (map_values (billingLedgerEntries r))).
  { apply sum_Z_nonneg. intros x [k Hk]%elem_of_map_values. specialize (Hr k x Hk). cbn in Hr.
    destruct (ledger_same_operation current x); lia. }
  by rewrite (proj2 (Z.ltb_ge _ _)) by lia.
Qed.

(** An open hold can be settled with any amount. *)
Lemma open_settles hold amount reason at_ :
  hold_ok hold -> hold_final hold = false -> 0 <= amount ->
  exists updated, prepareBillingHoldTransition hold BillingHoldStatusSettled amount reason at_ = Ok updated /\
    BillingHold.Status updated = BillingHoldStatusSettled /\
    BillingHold.SettledAmountMicros updated = amount /\
    BillingHold.SettledAt updated = Some at_ /\
    BillingHold.Version updated = BillingHold.Version hold +i 1.
Proof.
  intros [Hs _ _ _] Hf Ha. unfold hold_final in Hf. apply oneOf_In in Hs.
  assert (Hne : BillingHold.Status hold <> BillingHoldStatusSettled).
  { intros E. by rewrite E in Hf. }
  assert (Hall : billingHoldTransitionAllowed (BillingHold.Status hold) BillingHoldStatusSettled = true).
  { elem_cases Hs; rewrite Hs in *; try done. }
  unfold prepareBillingHoldTransition.
  change (TrimSpace BillingHoldStatusSettled) with BillingHoldStatusSettled.
  rewrite (proj2 (String.eqb_neq _ _) Hne), Hall, (proj2 (Z.ltb_ge _ _)) by done.
  eexists. split; [reflexivity|]. done.
Qed.

Lemma memoryHold_spec holds operationID hold :
  holds_ok holds ->
  memoryBillingHoldForOperation holds operationID = Some hold <->
  holds !! BillingHold.ID hold = Some hold /\ BillingHold.OperationID hold = operationID.
Proof.
  intros [Hk Hone]. split.
  - intros [[k E] Ho]%find_value_Some. apply String.eqb_eq in Ho.
    destruct (Hk _ _ E) as [-> _]. done.
  - intros [E Ho]. destruct (memoryBillingHoldForOperation holds operationID) as [h|] eqn:Ef.
    + apply find_value_Some in Ef as [[k E'] Ho']. apply String.eqb_eq in Ho'. subst operationID.
      pose proof (Hone _ _ _ _ E E' ltac:(congruence)). congruence.
    + apply find_value_None with (k := BillingHold.ID hold) (v := hold) in Ef; [|done].
      by rewrite Ho, String.eqb_refl in Ef.
Qed.

Lemma holds_update holds hold updated :
  holds_ok holds -> holds !! BillingHold.ID hold = Some hold -> hold_ok updated ->
  BillingHold.ID updated = BillingHold.ID hold ->
  BillingHold.OperationID updated = BillingHold.OperationID hold ->
  holds_ok (<[BillingHold.ID hold := updated]> holds).
Proof.
  intros [Hk Hone] E Hu Eid Eop. split.
  - intros k h [[<- <-]|[Hne Hl]]%lookup_insert_Some; [done|by apply Hk].
  - intros k1 k2 h1 h2 H1 H2 Eq.
    apply lookup_insert_Some in H1 as [[<- <-]|[N1 H1]], H2 as [[<- <-]|[N2 H2]]; [done| | |by eapply Hone].
    + by eapply (Hone _ k2 hold h2); [done|done|congruence].
    + by eapply (Hone k1 _ h1 hold); [done|done|congruence].
Qed.

Lemma holds_insert holds hold :
  holds_ok holds -> holds !! BillingHold.ID hold = None ->
  memoryBillingHoldForOperation holds (BillingHold.OperationID hold) = None -> hold_ok hold ->
  holds_ok (<[BillingHold.ID hold := hold]> holds).
Proof.
  intros [Hk Hone] Hn Hop Hok.
  assert (Hfree : forall k h, holds !! k = Some h -> BillingHold.OperationID h <> BillingHold.OperationID hold).
  { intros k h Hh Eq. eapply find_value_None in Hop; [|exact Hh]. cbn in Hop.
    by rewrite Eq, String.eqb_refl in Hop. }
  split.
  - intros k h [[<- <-]|[_ Hh]]%lookup_insert_Some; [done|by apply Hk].
  - intros k1 k2 h1 h2 H1 H2 Eq.
    apply lookup_insert_Some in H1 as [[<- <-]|[_ H1]], H2 as [[<- <-]|[_ H2]]; [done| | |by eapply Hone].
    + by destruct (Hfree k2 h2 H2).
    + by destruct (Hfree k1 h1 H1).
Qed.

Lemma check_admission_inv admission operationID r r' :
  check_admission admission operationID r = (Ok tt, r') ->
  billingHolds r !! BillingHold.ID (BillingHoldAdmission.Hold admission) = None /\
  memoryBillingHoldForOperation (billingHolds r) operationID = None.
Proof.
  unfold check_admission. intros H.
  apply readonly_bind_inv in H as [(e & [=] & _)|(? & [= <-] & H)]; [|apply readonly_read].
  apply readonly_bind_inv in H as [(e & _ & [=] & _)|([] & H1 & H)]; [|apply readonly_check].
  apply readonly_bind_inv in H as [(e & _ & [=] & _)|([] & H2 & _)]; [|apply readonly_check].
  apply check_inv in H1 as [_ [[_ [=]]|[H1%has_None _]]].
  apply check_inv in H2 as [_ [[_ [=]]|[H2 _]]].
  split; [done|]. unfold id in H2. by destruct (memoryBillingHoldForOperation _ _).
Qed.

Lemma admitted_hold `{UnicodeCase} operation admission :
  validateBillingHoldAdmission operation admission = Ok tt ->
  let hold := BillingHoldAdmission.Hold admission in
  BillingHold.OperationID hold = AIOperation.ID operation /\
  BillingHold.Status hold = BillingHoldStatusReserved /\
  (BillingHold.SettledAt hold = None -> BillingHold.ReleasedAt hold = None -> hold_ok hold).
Proof.
  cbv zeta. unfold validateBillingHoldAdmission. intros Hv.
  apply bind_Ok in Hv as (? & _ & Hv). apply bind_Ok in Hv as ([] & Hi%guard_Ok & _).
  unfold invalid_hold in Hi. boolify. split; [done|]. split; [done|]. intros Hset Hrel.
  match goal with E : BillingHold.Status _ = _ |- _ => rename E into Es end.
  split; rewrite ?Hset, ?Hrel, ?Es; [done| | |split; [lia|done]].
  - split; [by intros [? ?]|done].
  - split; [by intros [? ?]|done].
Qed.
End SettlementLemmas.

(** ** Properties *)

Section Properties.
Context `{range : MapRange}.

(** C11. The monthly limits are enforced exactly: as long as the sums fit an
    [int64], an admission is accepted if and only if, for each limit that is
    set, what the credential was billed or used this month, what its open holds
    reserve and what the request reserves add up to at most the limit; the order
    in which the maps are visited plays no part. *)
Theorem budget_exact r admission :
  let hold := BillingHoldAdmission.Hold admission in
  let requested := UsageDimensionsTotals (BillingHold.ReservedUsageDimensions hold) in
  typed_repository r -> typed_usage (BillingHold.ReservedUsageDimensions hold) ->
  0 <= BillingHold.ReservedAmountMicros hold ->
  amounts_ok r -> exposure r hold + BillingHold.ReservedAmountMicros hold <= max_int64 ->
  BillingHoldAdmission.MonthlyImageLimit admission < max_int64 ->
  BillingHoldAdmission.MonthlyVideoSecondsLimit admission <= max_int64 / 1000 ->
  BillingHoldAdmission.MonthlyAudioSecondsLimit admission <= max_int64 / 1000 ->
  enforceMemoryBillingHoldBudget r admission = Ok tt <->
  (0 < BillingHoldAdmission.MonthlyBudgetMicros admission ->
     exposure r hold + BillingHold.ReservedAmountMicros hold
     <= BillingHoldAdmission.MonthlyBudgetMicros admission) /\
  (0 < BillingHoldAdmission.MonthlyImageLimit admission ->
     usage_exposure OutputImages r hold + OutputImages requested
     <= BillingHoldAdmission.MonthlyImageLimit admission) /\
  (0 < BillingHoldAdmission.MonthlyVideoSecondsLimit admission ->
     usage_exposure VideoMilliseconds r hold + VideoMilliseconds requested
     <= 1000 * BillingHoldAdmission.MonthlyVideoSecondsLimit admission) /\
  (0 < BillingHoldAdmission.MonthlyAudioSecondsLimit admission ->
     usage_exposure AudioMilliseconds r hold + AudioMilliseconds requested
     <= 1000 * BillingHoldAdmission.MonthlyAudioSecondsLimit admission).
Proof.
  intros hold requested Hr Hu Hres Hamt Hsum Hi Hv Ha.
  rewrite enforce_budget_iff by done. fold hold requested.
  assert (Hexp : 0 <= exposure r hold).
  { unfold exposure. apply Z.add_nonneg_nonneg; apply sum_map_nonneg; intros k x Hx;
      [specialize (Hamt k x Hx); cbn in Hamt|]; case_match; lia. }
  rewrite wrap64_id by (unfold in_int64, min_int64; lia).
  assert (Hms : forall seconds, 0 < seconds <= max_int64 / 1000 ->
    usageSecondsLimitMilliseconds seconds = 1000 * seconds /\ 1000 * seconds < max_int64).
  { intros s Hs. unfold usageSecondsLimitMilliseconds. change (Z.quot max_int64 1000) with 9223372036854775.
    change (max_int64 / 1000) with 9223372036854775 in Hs.
    rewrite (proj2 (Z.leb_gt _ _)), Z.gtb_ltb, (proj2 (Z.ltb_ge _ _)) by lia.
    rewrite wrap64_id by (unfold in_int64, min_int64, max_int64; lia). unfold max_int64. lia. }
  assert (Hsat : forall z limit, limit < max_int64 -> saturated z <= limit <-> z <= limit)
    by (intros z limit Hlim; unfold saturated; lia).
  repeat match goal with |- _ <-> _ => split end; intros (H1 & H2 & H3 & H4);
    (split; [done|]; split; [intros Hp; apply (Hsat _ _ Hi); by apply H2|]; split; intros Hp).
  all: try (destruct (Hms (BillingHoldAdmission.MonthlyVideoSecondsLimit admission)) as [E L]; [lia|];
    specialize (H3 Hp); rewrite ?E in *; by apply (Hsat _ _ L)).
  all: destruct (Hms (BillingHoldAdmission.MonthlyAudioSecondsLimit admission)) as [E L]; [lia|];
    specialize (H4 Hp); rewrite ?E in *; by apply (Hsat _ _ L).
Qed.

(** C17. Final usage settles the open hold of its operation at the sum of the new
    charge and of all usage charges applied to the operation before, computed
    exactly, or fails without a trace when the sum exceeds [int64]. *)
Theorem settlement_exact `{UnicodeCase} record billing r hold :
  billingHoldUsageIsFinal record = true ->
  memoryBillingHoldForOperation (billingHolds r) (UsageRecord.OperationID record) = Some hold ->
  hold_ok hold -> hold_final hold = false ->
  amounts_ok r -> 0 <= BillingLedgerEntry.AmountMicros billing <= max_int64 ->
  let total := BillingLedgerEntry.AmountMicros billing + billed r billing in
  if total <=? max_int64 then
    exists updated, settleMemoryBillingHoldForUsage record billing r
        = (Ok tt, r.[billingHolds]:[BillingHold.ID hold] <- updated) /\
      BillingHold.Status updated = BillingHoldStatusSettled /\
      BillingHold.SettledAmountMicros updated = total /\
      BillingHold.SettledAt updated = Some (UsageRecord.CreatedAt record) /\
      BillingHold.Version updated = BillingHold.Version hold +i 1
  else settleMemoryBillingHoldForUsage record billing r = (Err cumulative_error, r).
Proof.
  intros Hfin Hfind Hok Hopen Hamt Hb total.
  unfold settleMemoryBillingHoldForUsage. rewrite Hfin. cbn [negb mbind M_bind read id].
  unfold mbind, M_bind, read, id. rewrite Hfind. unfold hold_final in Hopen. rewrite Hopen.
  unfold lift. rewrite cumulative_exact by done. fold total. cbv zeta.
  destruct (Z.leb_spec total max_int64) as [Hle|Hgt]; [|done].
  assert (Ht : 0 <= total).
  { apply Z.add_nonneg_nonneg; [lia|]. apply sum_map_nonneg. intros k x Hx.
    specialize (Hamt k x Hx). cbn in Hamt. case_match; lia. }
  destruct (open_settles hold total "usage_ledger_applied" (UsageRecord.CreatedAt record) Hok Hopen Ht)
    as (updated & -> & H1 & H2 & H3 & H4).
  exists updated. done.
Qed.
End Properties.

(** ** Concrete repositories *)

Module Demo.
#[local] Existing Instance canonical_range.
#[local] Instance no_unicode : UnicodeCase := fun s => s.
Open Scope string_scope.

Definition hold (id operation status : string) (reserved : Z) : BillingHold.t :=
  BillingHold.zero <| BillingHold.ID := id |> <| BillingHold.OperationID := operation |>
    <| BillingHold.ApplicationID := "app" |> <| BillingHold.CredentialID := "key" |>
    <| BillingHold.RequestFingerprint := "fp" |> <| BillingHold.Status := status |>
    <| BillingHold.Version := 1%Z |> <| BillingHold.ReservedAmountMicros := reserved |>
    <| BillingHold.Currency := CurrencyUSD |> <| BillingHold.BudgetPeriodStart := (31 * day)%Z |>
    <| BillingHold.CreatedAt := (32 * day)%Z |> <| BillingHold.ExpiresAt := (33 * day)%Z |>.
Definition operation (id : string) : AIOperation.t :=
  AIOperation.zero <| AIOperation.ID := id |> <| AIOperation.ApplicationID := "app" |>
    <| AIOperation.CredentialID := "key" |> <| AIOperation.RequestFingerprint := "fp" |>.
Definition admission (id op : string) (reserved budget : Z) : BillingHoldAdmission.t :=
  BillingHoldAdmission.mk (hold id op BillingHoldStatusReserved reserved) [] [] budget 0 0 0.

(** One open hold of one micro-dollar. *)
Definition one_hold : MemoryRepository :=
  (NewMemoryRepository.[billingHolds]:["h1"] <- hold "h1" "op1" BillingHoldStatusReserved 1)
  .[aiOperations]:["op1"] <- operation "op1".
Close Scope string_scope.

Lemma one_hold_holds :
  billingHolds one_hold = {["h1"%string := hold "h1" "op1" BillingHoldStatusReserved 1]}.
Proof. reflexivity. Qed.

Lemma one_hold_ok : holds_ok (billingHolds one_hold).
Proof.
  rewrite one_hold_holds. split.
  - intros k h [<- <-]%lookup_singleton_Some. split; [done|].
    split; cbn; [done| | |done]; (split; [by intros [? [=]]|done]).
  - intros k1 k2 h1 h2 [<- _]%lookup_singleton_Some [<- _]%lookup_singleton_Some _. done.
Qed.

Lemma one_hold_typed : typed_repository one_hold.
Proof.
  split; [apply map_Forall_empty|]. rewrite one_hold_holds.
  intros k h [_ <-]%lookup_singleton_Some. apply map_Forall_empty.
Qed.
End Demo.

(** Beyond [int64] the budget check fails open: with a budget of 100
    micro-dollars and one already reserved, a valid admission that reserves the
    largest [int64] is accepted, because the sum wraps around to a negative
    number. *)
Theorem budget_wraps_around :
  let r := Demo.one_hold in
  let admission := Demo.admission "h2" "op2" max_int64 100 in
  @validateBillingHoldAdmission Demo.no_unicode canonical_range (Demo.operation "op2") admission = Ok tt /\
  exposure r (BillingHoldAdmission.Hold admission) = 1 /\
  @enforceMemoryBillingHoldBudget canonical_range r admission = Ok tt.
Proof. split_and!; vm_compute; reflexivity. Qed.

Lemma budget_exact_witness :
  @enforceMemoryBillingHoldBudget canonical_range Demo.one_hold (Demo.admission "h2" "op2" 99 100) = Ok tt.
Proof.
  apply (budget_exact (range := canonical_range) Demo.one_hold (Demo.admission "h2" "op2" 99 100)).
  - exact Demo.one_hold_typed.
  - apply map_Forall_empty.
  - vm_compute. discriminate.
  - apply map_Forall_empty.
  - vm_compute. discriminate.
  - reflexivity.
  - vm_compute. discriminate.
  - vm_compute. discriminate.
  - split_and!; intros _; vm_compute; discriminate.
Defined.

Lemma settlement_exact_witness :
  let record := UsageRecord.zero <| UsageRecord.OperationID := "op1"%string |>
    <| UsageRecord.UsageSource := "gateway_final"%string |> in
  let billing := BillingLedgerEntry.zero <| BillingLedgerEntry.OperationID := "op1"%string |>
    <| BillingLedgerEntry.AmountMicros := 7 |> in
  exists updated, @settleMemoryBillingHoldForUsage canonical_range Demo.no_unicode record billing Demo.one_hold
        = (Ok tt, Demo.one_hold.[billingHolds]:["h1"%string] <- updated) /\
      BillingHold.Status updated = BillingHoldStatusSettled /\
      BillingHold.SettledAmountMicros updated = 7 /\
      BillingHold.SettledAt updated = Some 0 /\ BillingHold.Version updated = 2.
Proof.
  intros record billing.
  pose proof (settlement_exact (range := canonical_range) (H := Demo.no_unicode) record billing Demo.one_hold
    (Demo.hold "h1" "op1" BillingHoldStatusReserved 1)) as H.
  apply H.
  - reflexivity.
  - vm_compute. reflexivity.
  - apply (holds_keys _ Demo.one_hold_ok "h1"). vm_compute. reflexivity.
  - reflexivity.
  - apply map_Forall_empty.
  - split; vm_compute; discriminate.
Defined.
