(* ===== verification/HoldEstimate.v ===== *)
(** * The estimate behind a billing hold

    [estimateBillingHold] and [newBillingHoldAdmission] of
    [backend/internal/controlplane/billing_hold.go] as the service runs them: the
    rule for the model is selected ([PricingService]), the request's facts are
    evaluated, and the admission is built ([BillingHolds]).  The theorem closes
    the loop: what the service prepares is what the repository accepts. *)

From S2P Require Import Prelude Sha256 Threads PricingMoney PricingRule PricingEval UsageDimensions Calendar Canonical AccessModel Repository PricingCatalog PricingService BillingHolds.

Section Estimate.
Context `{range : MapRange} `{unicode : UnicodeCase}.
Context {VMProgram : Type}.
Context (Parse : string -> result string Node) (CompileExpr : string -> result string VMProgram).
Context (Run : VMProgram -> gmap string value -> script) (wrapCallError : Error -> run_error).
Context (render : message -> string) (Marshal : Facts -> result string string).
(** [json.Unmarshal] of a payload into [max_tokens], [max_completion_tokens] and
    [max_cost_micros]. *)
Context (UnmarshalLimits : string -> result go_error (Z * Z * Z)).

Definition successfulPricingEvaluation (random : string) (operation : AIOperation.t) (purpose phase : string)
    (selection : PricingSelection (VMProgram := VMProgram)) (facts : Facts) (evaluated : Result)
    : PricingEvaluation.t :=
  PricingEvaluation.zero
    <| PricingEvaluation.ID := ("peval_" +:+ random)%string |>
    <| PricingEvaluation.Purpose := purpose |>
    <| PricingEvaluation.Phase := phase |>
    <| PricingEvaluation.OperationID := AIOperation.ID operation |>
    <| PricingEvaluation.PricingRuleID := PricingRule.ID (SelectedRule selection) |>
    <| PricingEvaluation.PricingRuleVersionID := PricingRuleVersion.ID (SelectedVersion selection) |>
    <| PricingEvaluation.EngineVersion := ResultEngineVersion evaluated |>
    <| PricingEvaluation.ExpressionHash := ResultExpressionHash evaluated |>
    <| PricingEvaluation.FactsHash := FactsHash evaluated |>
    <| PricingEvaluation.Facts := facts |>
    <| PricingEvaluation.AmountMicros := Some (ResultAmountMicros evaluated) |>
    <| PricingEvaluation.Currency := PricingEval.Currency evaluated |>
    <| PricingEvaluation.MatchedTier := MatchedTier evaluated |>
    <| PricingEvaluation.Lines := Lines evaluated |>
    <| PricingEvaluation.NormalizationStatus := NormalizationStatus facts |>
    <| PricingEvaluation.Status := PricingEvaluationStatusSuccess |>
    <| PricingEvaluation.CreatedAt := AIOperation.CreatedAt operation |>.

(** The limits a request states for itself. *)
Definition request_limits (request : CanonicalRequest.t) : result go_error (Z * Z * Z) :=
  '(maxTokens, maxCompletionTokens, maxCostMicros) ←
    (if go_len (CanonicalRequest.Payload request) >? 0
     then UnmarshalLimits (CanonicalRequest.Payload request) else Ok (0, 0, 0));
  let maxCompletionTokens :=
    match CanonicalRequest.TextMaxOutputTokens request with
    | Some n => if n >? maxCompletionTokens then n else maxCompletionTokens
    | None => maxCompletionTokens
    end in
  if (maxTokens <? 0) || (maxCompletionTokens <? 0) || (maxCostMicros <? 0)
  then Err (ErrNew "billing hold request limits must be non-negative")
  else Ok (maxTokens, maxCompletionTokens, maxCostMicros).

Definition from_result {A} (x : result go_error A) : srv A :=
  Ret (match x with Ok a => Ok a | Err e => Err (Plain e) end).

(** [random] is what [randomID] draws for the evaluation. *)
Definition estimateBillingHold (random : string) (operation : AIOperation.t) (request : CanonicalRequest.t)
    : srv billingHoldEstimate :=
  '(maxTokens, maxCompletionTokens, maxCostMicros) ← from_result (request_limits request);
  let facts := estimatePricingFacts operation request maxTokens maxCompletionTokens in
  selection ← SelectPricingRule Parse CompileExpr (CanonicalRequest.Model request);
  match selection with
  | Some selection =>
      evaluated ← from_engine (engine_Evaluate Run wrapCallError render Marshal (Compiled selection) facts);
      let evaluation := successfulPricingEvaluation random operation PricingPurposeUsageCost PhaseEstimate
                          selection facts evaluated in
      mret (mkEstimate (Z.max maxCostMicros (ResultAmountMicros evaluated)) (PricingEval.Currency evaluated)
              "pricing_rule"
              [BillingHoldPricingVersion.mk "" PricingPurposeUsageCost
                 (PricingRuleVersion.ID (SelectedVersion selection)) (PricingEvaluation.ID evaluation) ""]
              [evaluation])
  | None =>
      mret (mkEstimate maxCostMicros CurrencyUSD
              (if maxCostMicros >? 0 then "request_max_cost" else "unpriced") [] [])
  end.

(** [newBillingHoldAdmission], with the estimate it asks for. *)
Definition service_newBillingHoldAdmission (holdRandom evaluationRandom : string) (operation : AIOperation.t)
    (limits : CanonicalLimits.t) (request : CanonicalRequest.t) : srv BillingHoldAdmission.t :=
  estimate ← estimateBillingHold evaluationRandom operation request;
  from_result (newBillingHoldAdmission holdRandom (Ok estimate) operation limits request).

(** ** Lemmas *)

(** An estimate the repository can check: its evaluations are of this operation,
    one for each purpose, and each is named by the version that was used. *)
Definition estimate_ok (operation : AIOperation.t) (estimate : billingHoldEstimate) : Prop :=
  0 <= ReservedAmountMicros estimate /\ Currency estimate = CurrencyUSD /\
  (PricingVersions estimate = [] /\ PricingEvaluations estimate = [] \/
   exists v e, PricingVersions estimate = [v] /\ PricingEvaluations estimate = [e] /\
     PricingEvaluation.ID e <> ""%string /\ PricingEvaluation.OperationID e = AIOperation.ID operation /\
     PricingEvaluation.Phase e = PhaseEstimate /\ PricingEvaluation.Status e = PricingEvaluationStatusSuccess /\
     is_Some (PricingEvaluation.AmountMicros e) /\
     BillingHoldPricingVersion.EstimateEvaluationID v = PricingEvaluation.ID e /\
     BillingHoldPricingVersion.Purpose v = PricingEvaluation.Purpose e /\
     BillingHoldPricingVersion.PricingRuleVersionID v = PricingEvaluation.PricingRuleVersionID e /\
     BillingHoldPricingVersion.SettlementEvaluationID v = ""%string).

Lemma nonNegative_le z : nonNegative z <? 0 = false /\ nonNegativeInt64 z <? 0 = false.
Proof. unfold nonNegative, nonNegativeInt64. split; case_match; boolify; by apply Z.ltb_ge. Qed.

Lemma evaluations_check operation hold estimate :
  estimate_ok operation estimate ->
  foldM (collect_evaluation operation) ∅ (PricingEvaluations estimate) ≫= (fun evaluations =>
    foldM (check_version hold evaluations) ∅
      ((fun version => version <| BillingHoldPricingVersion.HoldID := BillingHold.ID hold |>)
         <$> PricingVersions estimate) ≫= fun _ =>
    guard_err (negb (map_len evaluations =? Z.of_nat (length
      ((fun version => version <| BillingHoldPricingVersion.HoldID := BillingHold.ID hold |>)
         <$> PricingVersions estimate)))) (ErrNew "orphan billing hold pricing evaluation")) = Ok tt.
Proof.
  intros (_ & _ & [[-> ->]|(v & e & -> & -> & E1 & E2 & E3 & E4 & [a Ea] & V1 & V2 & V3 & V4)]); [done|].
  cbn. unfold collect_evaluation, check_version. cbn. rewrite E2, E3, E4, Ea.
  rewrite (proj2 (String.eqb_neq _ _) E1), !String.eqb_refl. cbn. rewrite V1, lookup_insert_eq.
  cbn. rewrite V2, V3, V4, !String.eqb_refl. cbn. unfold map_len. by rewrite map_size_insert_None.
Qed.

Lemma admission_checks random estimate operation limits request admission :
  estimate_ok operation estimate -> plain_text random ->
  AIOperation.RequestFingerprint operation <> ""%string ->
  AIOperation.CreatedAt operation <> 0 -> monthStart (AIOperation.CreatedAt operation) <> 0 ->
  newBillingHoldAdmission random (Ok estimate) operation limits request = Ok admission ->
  validateBillingHoldAdmission (normalizeAIOperation operation) admission = Ok tt /\
  BillingHold.ReservedAmountMicros (BillingHoldAdmission.Hold admission) = ReservedAmountMicros estimate.
Proof.
  intros Hok Hp Hf Ht Hm Ha. unfold newBillingHoldAdmission in Ha. cbn [mbind result_bind] in Ha.
  repeat match goal with H : (_ ≫= _) = Ok _ |- _ => apply bind_Ok in H as (? & ? & H) end.
  injection Ha as <-. split; [|done]. apply Normalize_fixed in H1. unfold validateBillingHoldAdmission.
  cbn [BillingHoldAdmission.Hold BillingHold.ReservedUsageDimensions]. rewrite H1. cbn [mbind result_bind].
  match goal with |- context [invalid_hold ?o ?a] => assert (invalid_hold o a = false) as -> end.
  { destruct Hok as (Hr & Hc & _). unfold invalid_hold, normalizeAIOperation. cbn.
    rewrite !String.eqb_refl, Hc, (proj2 (String.eqb_neq _ _) Hf), (TrimSpace_plain _ (plain_app "hold_" _ eq_refl Hp)).
    rewrite (proj1 (nonNegative_le _)), (proj2 (nonNegative_le _)), !(proj1 (nonNegative_le _)).
    unfold IsZero, After, BillingHoldDefaultTTL, hour, minute, second.
    rewrite (proj2 (Z.eqb_neq _ _) Ht), (proj2 (Z.eqb_neq _ _) Hm), (proj2 (Z.ltb_ge _ _) Hr).
    cbn. rewrite (proj2 (Z.ltb_lt _ _)) by lia. done. }
  cbn [guard_err mbind result_bind]. exact (evaluations_check (normalizeAIOperation operation) _ estimate Hok).
Qed.

Lemma Evaluate_currency compiled facts evaluated :
  engine_Evaluate Run wrapCallError render Marshal compiled facts = Ok evaluated ->
  PricingEval.Currency evaluated = CurrencyUSD.
Proof. intros He. by apply Evaluate_Ok in He as (? & ? & ? & ? & ? & ? & ? & ? & ? & ? & ? & ? & ? & ?). Qed.

Notation ok := (catalogue_ok (validated Parse CompileExpr Run wrapCallError render Marshal)).
Notation obeys := (holds max_int64 ok later present).

(** The amount an estimate reserves, with the catalogue of one moment. *)
Definition reserves (operation : AIOperation.t) (request : CanonicalRequest.t) (s : MemoryRepository)
    (amount : Z) : Prop :=
  exists maxTokens maxCompletionTokens maxCostMicros,
    request_limits request = Ok (maxTokens, maxCompletionTokens, maxCostMicros) /\ 0 <= maxCostMicros /\
    match selection_of Parse CompileExpr (CanonicalRequest.Model request) s with
    | None => amount = maxCostMicros
    | Some selection => exists evaluated,
        engine_Evaluate Run wrapCallError render Marshal (Compiled selection)
          (estimatePricingFacts operation request maxTokens maxCompletionTokens) = Ok evaluated /\
        amount = Z.max maxCostMicros (ResultAmountMicros evaluated)
    end.

Lemma request_limits_nonneg request a b c : request_limits request = Ok (a, b, c) -> 0 <= c.
Proof.
  unfold request_limits. intros H. apply bind_Ok in H as ([[x y] z] & _ & H).
  destruct (_ || _) eqn:E; [done|]. injection H as <- <- <-. by boolify.
Qed.

Lemma estimate_spec ids random operation request w : plain_text random -> ok w ->
  obeys ids (estimateBillingHold random operation request) (fun x w' =>
    forall estimate, x = Ok estimate -> estimate_ok operation estimate /\
    exists w1, later w w1 /\ later w1 w' /\ reserves operation request w1.2 (ReservedAmountMicros estimate)) w.
Proof.
  intros Hp Hw. unfold estimateBillingHold, from_result.
  destruct (request_limits request) as [[[maxTokens maxCompletionTokens] maxCost]|e] eqn:El; [|by intros w' _ estimate].
  pose proof (request_limits_nonneg _ _ _ _ El) as Hc. cbn [mbind srv_mbind srv_bind prog_bind].
  apply (obeys_bind Parse CompileExpr Run wrapCallError render Marshal); [|done].
  eapply holds_impl; [|by apply select_spec]. intros x w2 O2 (w1 & L1 & L2 & ->).
  destruct (selection_of _ _ _ _) as [selection|] eqn:Es.
  - apply (obeys_engine Parse CompileExpr Run wrapCallError render Marshal).
    destruct (engine_Evaluate _ _ _ _ _ _) as [evaluated|e] eqn:Ee; [|by intros w3 _ estimate].
    intros w3 (_ & L3 & _) estimate [= <-]. split.
    + split_and!; cbn; [lia|by eapply Evaluate_currency|]. right. do 2 eexists. by split_and!.
    + exists w1. split_and!; [done|by eapply later_trans|]. exists maxTokens, maxCompletionTokens, maxCost.
      rewrite Es. cbn. eauto.
  - intros w3 (_ & L3 & _) estimate [= <-]. split; [split_and!; [done|done|by left]|].
    exists w1. split_and!; [done|by eapply later_trans|]. exists maxTokens, maxCompletionTokens, maxCost.
    by rewrite Es.
Qed.

(** ** Property *)

(** What the service reserves, the repository accepts: in every interleaving
    with the administration of the rules, an admission it prepares passes the
    repository's validation, and the amount it reserves is what the request
    allows itself or, if that is more, the price of the request's facts under the
    rule that was active for its model at one moment of the call. *)
Theorem admission_accepted `{upper : UnicodeUpper} P holdRandom evaluationRandom operation limits request :
  pool_steps max_int64 (pricing_calls Parse CompileExpr Run wrapCallError render Marshal) elsewhere start P ->
  plain_text holdRandom -> plain_text evaluationRandom ->
  AIOperation.RequestFingerprint operation <> ""%string ->
  AIOperation.CreatedAt operation <> 0 -> monthStart (AIOperation.CreatedAt operation) <> 0 ->
  obeys ∅ (service_newBillingHoldAdmission holdRandom evaluationRandom operation limits request) (fun x w' =>
    forall admission, x = Ok admission ->
      validateBillingHoldAdmission (normalizeAIOperation operation) admission = Ok tt /\
      exists w1, later (world P) w1 /\ later w1 w' /\
        reserves operation request w1.2
          (BillingHold.ReservedAmountMicros (BillingHoldAdmission.Hold admission))) (world P).
Proof.
  intros HP Hh He Hf Ht Hm. pose proof (pool_world _ _ _ _ _ (pool_reachable_ok _ _ _ _ _ _ P HP)) as Hw.
  apply (obeys_bind Parse CompileExpr Run wrapCallError render Marshal); [|done].
  eapply holds_impl; [|by apply estimate_spec]. intros [estimate|e] w2 O2 Hx; [|by intros w3 _ admission].
  destruct (Hx estimate eq_refl) as (Hok & w1 & L1 & L2 & Hres). unfold from_result.
  destruct (newBillingHoldAdmission _ _ _ _ _) as [admission|e] eqn:Ea; intros w3 (_ & L3 & _) a [=]. subst a.
  destruct (admission_checks holdRandom estimate operation limits request admission) as [Hv Hamount]; [done..|].
  split; [exact Hv|]. exists w1. rewrite Hamount. split_and!; [done|by eapply later_trans|done].
Qed.
End Estimate.

(** ** Witness *)

#[local] Existing Instance canonical_range.
#[local] Existing Instance PricingService.Demo.no_lower.

Module Demo.
Definition operation : AIOperation.t :=
  AIOperation.zero <| AIOperation.ID := "op1"%string |> <| AIOperation.RequestFingerprint := "f"%string |>
    <| AIOperation.CreatedAt := 719162 * day |>.
Definition request : CanonicalRequest.t :=
  CanonicalRequest.zero
    <| CanonicalRequest.Protocol := "openai_chat"%string |>
    <| CanonicalRequest.Operation := "chat"%string |>
    <| CanonicalRequest.Modality := "text"%string |>
    <| CanonicalRequest.Lane := "direct"%string |>
    <| CanonicalRequest.Model := "m"%string |>
    <| CanonicalRequest.TextMaxOutputTokens := Some 10 |>
    <| CanonicalRequest.Payload := "{}"%string |>.
Definition limits : CanonicalLimits.t := CanonicalLimits.zero <| CanonicalLimits.MonthlyBudgetMicros := 1000 |>.
Definition unmarshal (_ : string) : result go_error (Z * Z * Z) := Ok (0, 0, 7).
Definition prepared :=
  run_in (service_newBillingHoldAdmission PricingService.Demo.parse PricingService.Demo.compile
    PricingService.Demo.run PricingService.Demo.wrap PricingService.Demo.show PricingService.Demo.marshal
    unmarshal "h" "e" operation limits request) (world PricingService.Demo.P2).
End Demo.

(** The call run on its own: the reservation is what the request allows itself,
    the published rule being free. *)
Example admission_prepared :
  match Demo.prepared.1 with
  | Ok admission =>
      BillingHold.ReservedAmountMicros (BillingHoldAdmission.Hold admission) = 7 /\
      length (BillingHoldAdmission.PricingEvaluations admission) = 1%nat /\
      validateBillingHoldAdmission (normalizeAIOperation Demo.operation) admission = Ok tt
  | Err _ => False
  end.
Proof. vm_compute. split_and!; reflexivity. Qed.

#[local] Notation demo f := (f PricingService.Demo.parse PricingService.Demo.compile PricingService.Demo.run
  PricingService.Demo.wrap PricingService.Demo.show PricingService.Demo.marshal) (only parsing).

Lemma admission_accepted_witness :
  holds max_int64 (catalogue_ok (demo validated)) later present ∅
    (demo service_newBillingHoldAdmission Demo.unmarshal "h" "e" Demo.operation Demo.limits Demo.request)
    (fun x w' => forall admission, x = Ok admission ->
       validateBillingHoldAdmission (normalizeAIOperation Demo.operation) admission = Ok tt /\
       exists w1, later (world PricingService.Demo.P2) w1 /\ later w1 w' /\
         demo reserves Demo.unmarshal Demo.operation Demo.request w1.2
           (BillingHold.ReservedAmountMicros (BillingHoldAdmission.Hold admission)))
    (world PricingService.Demo.P2).
Proof.
  apply (admission_accepted (upper := PricingService.Demo.no_upper) _ _ _ _ _ _ _ _ "h" "e" _ _ _
    PricingService.Demo.steps_to_2); vm_compute; first [reflexivity|discriminate].
Defined.
