(* ===== verification/Settlement.v ===== *)
(** * Settlement of usage

    [MemoryRepository.ApplyUsageSettlement] and its validation
    ([backend/internal/controlplane/operation_repository.go]): one usage record
    with its pricing evaluations, ledger entries and outbox events is applied
    once, settles or disputes the billing hold of its operation, and is
    recognised when it comes again.  The JSON encoding behind the comparison of
    usage maps is a parameter. *)

From S2P Require Import Prelude PricingEval UsageDimensions Repository BillingHolds.

Definition ErrUsageLedgerConflict : go_error :=
  ErrNew "usage ledger identity conflicts with an existing entry".

Definition optionalMoneyEqual (left right : option Z) : bool :=
  match left, right with
  | None, None => true
  | Some l, Some r => l =? r
  | _, _ => false
  end.

Definition sameBillingLedgerIdentity (left right : BillingLedgerEntry.t) : bool :=
  (BillingLedgerEntry.OperationID left =s BillingLedgerEntry.OperationID right)
  && (BillingLedgerEntry.AttemptID left =s BillingLedgerEntry.AttemptID right)
  && (BillingLedgerEntry.UsageVersion left =? BillingLedgerEntry.UsageVersion right)
  && (BillingLedgerEntry.Purpose left =s BillingLedgerEntry.Purpose right).

Definition sameBillingLedgerContent (left right : BillingLedgerEntry.t) : bool :=
  sameBillingLedgerIdentity left right
  && (BillingLedgerEntry.UsageRecordID left =s BillingLedgerEntry.UsageRecordID right)
  && (BillingLedgerEntry.RequestFingerprint left =s BillingLedgerEntry.RequestFingerprint right)
  && (BillingLedgerEntry.AmountMicros left =? BillingLedgerEntry.AmountMicros right)
  && (BillingLedgerEntry.Currency left =s BillingLedgerEntry.Currency right)
  && (BillingLedgerEntry.PricingEvaluationID left =s BillingLedgerEntry.PricingEvaluationID right)
  && (BillingLedgerEntry.PricingRuleVersionID left =s BillingLedgerEntry.PricingRuleVersionID right).

(** ** Validation *)

(** An evaluation, and a ledger entry, that do not belong to the record. *)
Definition foreign_evaluation (record : UsageRecord.t) (evaluation : PricingEvaluation.t) : bool :=
  (PricingEvaluation.ID evaluation =s "")
  || (PricingEvaluation.OperationID evaluation <>s UsageRecord.OperationID record)
  || (PricingEvaluation.AttemptID evaluation <>s UsageRecord.AttemptID record)
  || (PricingEvaluation.UsageRecordID evaluation <>s UsageRecord.ID record)
  || negb (PricingEvaluation.UsageVersion evaluation =? UsageRecord.UsageVersion record)
  || (PricingEvaluation.Phase evaluation <>s PhaseSettlement).
Definition foreign_ledger (record : UsageRecord.t) (billing : BillingLedgerEntry.t) : bool :=
  (UsageRecord.OperationID record <>s BillingLedgerEntry.OperationID billing)
  || (UsageRecord.AttemptID record <>s BillingLedgerEntry.AttemptID billing)
  || negb (UsageRecord.UsageVersion record =? BillingLedgerEntry.UsageVersion billing)
  || (UsageRecord.ID record <>s BillingLedgerEntry.UsageRecordID billing)
  || (UsageRecord.RequestFingerprint record <>s BillingLedgerEntry.RequestFingerprint billing)
  || (BillingLedgerEntry.Status billing <>s BillingLedgerStatusApplied)
  || (BillingLedgerEntry.Currency billing <>s CurrencyUSD)
  || (BillingLedgerEntry.AmountMicros billing <? 0).
(** The evaluation a ledger entry cites does not support it. *)
Definition unsupported (evaluations : gmap string PricingEvaluation.t) (billing : BillingLedgerEntry.t) : bool :=
  match evaluations !! BillingLedgerEntry.PricingEvaluationID billing with
  | None => true
  | Some evaluation =>
      (PricingEvaluation.Status evaluation <>s PricingEvaluationStatusSuccess)
      || match PricingEvaluation.AmountMicros evaluation with
         | None => true
         | Some amount => negb (amount =? BillingLedgerEntry.AmountMicros billing)
         end
      || (PricingEvaluation.Purpose evaluation <>s BillingLedgerEntry.Purpose billing)
      || (PricingEvaluation.PricingRuleVersionID evaluation
            <>s BillingLedgerEntry.PricingRuleVersionID billing)
  end.

(** The rounds of the two loops of the validation. *)
Definition validate_evaluation (record : UsageRecord.t)
    (evaluations : gmap string PricingEvaluation.t) (evaluation : PricingEvaluation.t) :
    result go_error (gmap string PricingEvaluation.t) :=
  _ ← guard_err (foreign_evaluation record evaluation) ErrUsageLedgerConflict;
  Ok (<[PricingEvaluation.ID evaluation := evaluation]> evaluations).
Definition validate_ledger (record : UsageRecord.t) (evaluations : gmap string PricingEvaluation.t)
    (purposes : list string) (billing : BillingLedgerEntry.t) : result go_error (list string) :=
  _ ← guard_err (foreign_ledger record billing) ErrUsageLedgerConflict;
  _ ← guard_err (unsupported evaluations billing) ErrUsageLedgerConflict;
  _ ← guard_err (contains purposes (BillingLedgerEntry.Purpose billing)) ErrUsageLedgerConflict;
  Ok (BillingLedgerEntry.Purpose billing :: purposes).

Definition validateUsageSettlement (settlement : UsageSettlement.t) : result go_error unit :=
  let record := UsageSettlement.Record settlement in
  _ ← guard_err ((TrimSpace (UsageRecord.OperationID record) =s "")
                 || (UsageRecord.UsageVersion record <=? 0) || (UsageRecord.ID record =s "")
                 || (UsageRecord.RequestFingerprint record =s "")) ErrUsageLedgerConflict;
  evaluations ← foldM (validate_evaluation record) ∅ (UsageSettlement.Evaluations settlement);
  _ ← foldM (validate_ledger record evaluations) [] (UsageSettlement.Ledgers settlement);
  Ok tt.

(** ** Application *)

Section Settlement.
Context `{range : MapRange} `{unicode : UnicodeCase}.
Context (Marshal : gmap string UsageDimension -> result go_error string).

Definition memoryBillingHoldPricingVersionKeyForEvaluation (r : MemoryRepository)
    (versionID purpose operationID : string) : string :=
  match memoryBillingHoldForOperation (billingHolds r) operationID with
  | None => ""
  | Some hold =>
      let key := (BillingHold.ID hold +:+ lf +:+ purpose)%string in
      match billingHoldPricingVersions r !! key with
      | None => ""
      | Some version =>
          if BillingHoldPricingVersion.PricingRuleVersionID version <>s versionID then "" else key
      end
  end.

(** How many entries of the ledger have the identity of [billing]; an entry of
    the same identity and another content is a conflict. *)
Definition count_existing (r : MemoryRepository) (existingCount : Z) (billing : BillingLedgerEntry.t)
    : result go_error Z :=
  foldM (fun existingCount current =>
    if sameBillingLedgerIdentity current billing
    then if negb (sameBillingLedgerContent current billing) then Err ErrUsageLedgerConflict
         else Ok (existingCount + 1)
    else Ok existingCount) existingCount (map_values (billingLedgerEntries r)).

Definition same_record (existing record : UsageRecord.t) : bool :=
  usageDimensionsEqual Marshal (UsageRecord.UsageDimensions existing) (UsageRecord.UsageDimensions record)
  && (UsageRecord.PricingStatus existing =s UsageRecord.PricingStatus record)
  && optionalMoneyEqual (UsageRecord.UsageCostMicros existing) (UsageRecord.UsageCostMicros record).

(** Move the hold of the record's operation, unless it has one of the statuses
    [kept]. *)
Definition move_hold (record : UsageRecord.t) (kept : list string) (toStatus reason : string) : M unit :=
  found ← read (fun r => memoryBillingHoldForOperation (billingHolds r) (UsageRecord.OperationID record));
  match found with
  | None => mret tt
  | Some hold =>
      if oneOf (BillingHold.Status hold) kept then mret tt
      else
        updated ← lift (prepareBillingHoldTransition hold toStatus 0 reason (UsageRecord.CreatedAt record));
        write (fun r => r.[billingHolds]:[BillingHold.ID hold] <- updated)
  end.

(** One round of the loop over the evaluations. *)
Definition settle_evaluation (record : UsageRecord.t) (evaluation : PricingEvaluation.t) : M unit :=
  r ← read id;
  let key := memoryBillingHoldPricingVersionKeyForEvaluation r
    (PricingEvaluation.PricingRuleVersionID evaluation) (PricingEvaluation.Purpose evaluation)
    (UsageRecord.OperationID record) in
  _ ← (if key <>s "" then
         let version := default BillingHoldPricingVersion.zero (billingHoldPricingVersions r !! key) in
         write (fun r => r.[billingHoldPricingVersions]:[key] <-
           (version <| BillingHoldPricingVersion.SettlementEvaluationID := PricingEvaluation.ID evaluation |>))
       else mret tt);
  if (PricingEvaluation.Purpose evaluation =s PricingPurposeUsageCost)
     && (PricingEvaluation.Status evaluation =s PricingEvaluationStatusDisputed)
     && billingHoldUsageIsFinal record
  then move_hold record [BillingHoldStatusSettled; BillingHoldStatusReleased; BillingHoldStatusDisputed]
         BillingHoldStatusDisputed "pricing_evaluation_failed"
  else mret tt.

Definition settle_ledger (record : UsageRecord.t) (billing : BillingLedgerEntry.t) : M unit :=
  if BillingLedgerEntry.Purpose billing =s PricingPurposeUsageCost
  then settleMemoryBillingHoldForUsage record billing else mret tt.

(** The four maps the settlement is recorded in. *)
Definition record_settlement (settlement : UsageSettlement.t) (r : MemoryRepository) : MemoryRepository :=
  let record := UsageSettlement.Record settlement in
  let r := r.[usageRecords]:[UsageRecord.ID record] <- record in
  let r := r <| pricingEvaluations := foldl (fun m evaluation =>
      <[PricingEvaluation.ID evaluation := evaluation]> m)
    (pricingEvaluations r) (UsageSettlement.Evaluations settlement) |> in
  let r := r <| billingLedgerEntries := foldl (fun m billing => <[BillingLedgerEntry.ID billing := billing]> m)
    (billingLedgerEntries r) (UsageSettlement.Ledgers settlement) |> in
  r <| transactionalOutboxEvents := foldl (fun m outbox =>
      <[TransactionalOutboxEvent.ID outbox := outbox]> m)
    (transactionalOutboxEvents r) (UsageSettlement.OutboxEvents settlement) |>.

(** The tests that answer a settlement without applying it: [Some] of the answer
    for one applied before, [None] for a new one. *)
Definition find_settled (settlement : UsageSettlement.t) (r : MemoryRepository)
    : result go_error (option bool) :=
  let record := UsageSettlement.Record settlement in
  existingCount ← foldM (count_existing r) 0 (UsageSettlement.Ledgers settlement);
  if existingCount >? 0 then
    if negb (existingCount =? Z.of_nat (length (UsageSettlement.Ledgers settlement)))
    then Err ErrUsageLedgerConflict
    else match usageRecords r !! UsageRecord.ID record with
         | None => Err ErrUsageLedgerConflict
         | Some existing =>
             if negb (same_record existing record) then Err ErrUsageLedgerConflict else Ok (Some false)
         end
  else match UsageSettlement.Ledgers settlement with
       | [] =>
           match usageRecords r !! UsageRecord.ID record with
           | Some existing =>
               if same_record existing record then Ok (Some false) else Err ErrUsageLedgerConflict
           | None => Ok None
           end
       | _ => Ok None
       end.

(** The tests that nothing to be inserted is there. *)
Definition check_absent (settlement : UsageSettlement.t) : M unit :=
  let record := UsageSettlement.Record settlement in
  r ← read id;
  _ ← check (has (usageRecords r) (UsageRecord.ID record))
        (exists_error "usage record %q already exists" (UsageRecord.ID record));
  _ ← for_each (fun evaluation =>
        check (has (pricingEvaluations r) (PricingEvaluation.ID evaluation))
          (exists_error "pricing evaluation %q already exists" (PricingEvaluation.ID evaluation)))
        (UsageSettlement.Evaluations settlement);
  _ ← for_each (fun billing =>
        check (has (billingLedgerEntries r) (BillingLedgerEntry.ID billing))
          (exists_error "billing ledger entry %q already exists" (BillingLedgerEntry.ID billing)))
        (UsageSettlement.Ledgers settlement);
  for_each (fun outbox => lift (validateMemoryOutboxInsert (transactionalOutboxEvents r) outbox))
    (UsageSettlement.OutboxEvents settlement).

(** The references of the record: its operation and, if it names one, its attempt. *)
Definition check_references (record : UsageRecord.t) : M unit :=
  r ← read id;
  _ ← check (negb (has (aiOperations r) (UsageRecord.OperationID record)))
        (exists_error "ai operation %q not found" (UsageRecord.OperationID record));
  if UsageRecord.AttemptID record <>s "" then
    check (match aiAttempts r !! UsageRecord.AttemptID record with
           | Some attempt => AIAttempt.OperationID attempt <>s UsageRecord.OperationID record
           | None => true
           end) (exists_error "ai attempt %q not found for operation" (UsageRecord.AttemptID record))
  else mret tt.

(** The settlement as the code stores it: usage normalised, outbox events with
    their default number of attempts (which the code writes into the slice of
    the caller). *)
Definition normalizeSettlement (settlement : UsageSettlement.t) : result go_error UsageSettlement.t :=
  let record := UsageSettlement.Record settlement in
  usageDimensions ← NormalizeUsageDimensions (UsageRecord.UsageDimensions record);
  let record := record <| UsageRecord.UsageDimensions := usageDimensions |> in
  let settlement := settlement <| UsageSettlement.Record := record |> in
  _ ← validateUsageSettlement settlement;
  Ok (settlement <| UsageSettlement.OutboxEvents :=
        map normalizeTransactionalOutboxEvent (UsageSettlement.OutboxEvents settlement) |>).

(** What the settlement does to the hold of its operation. *)
Definition settle_hold (settlement : UsageSettlement.t) : M unit :=
  let record := UsageSettlement.Record settlement in
  _ ← for_each (settle_ledger record) (UsageSettlement.Ledgers settlement);
  _ ← for_each (settle_evaluation record) (UsageSettlement.Evaluations settlement);
  if (UsageRecord.PricingStatus record =s "unpriced") && billingHoldUsageIsFinal record
  then move_hold record [BillingHoldStatusSettled; BillingHoldStatusReleased]
         BillingHoldStatusSettled "usage_unpriced"
  else mret tt.

Definition ApplyUsageSettlement (settlement : UsageSettlement.t) : M bool :=
  settlement ← lift (normalizeSettlement settlement);
  _ ← check_references (UsageSettlement.Record settlement);
  r ← read id;
  answered ← lift (find_settled settlement r);
  match answered with
  | Some answer => mret answer
  | None =>
      _ ← check_absent settlement;
      _ ← settle_hold settlement;
      _ ← write (record_settlement settlement);
      mret true
  end.

Definition ListBillingLedgerEntries (operationID : string) (r : MemoryRepository)
    : list BillingLedgerEntry.t :=
  sort_by (fun i j => Before (BillingLedgerEntry.CreatedAt i) (BillingLedgerEntry.CreatedAt j))
    (List.filter (fun entry => (operationID =s "") || (BillingLedgerEntry.OperationID entry =s operationID))
       (map_values (billingLedgerEntries r))).
End Settlement.

(** ** Lemmas: validation *)

Lemma validate_ledgers record evaluations l purposes out :
  foldM (validate_ledger record evaluations) purposes l = Ok out ->
  Forall (fun billing => foreign_ledger record billing = false) l /\
  NoDup (BillingLedgerEntry.Purpose <$> l) /\
  Forall (fun billing => BillingLedgerEntry.Purpose billing ∉ purposes) l.
Proof.
  revert purposes. induction l as [|x l IH]; intros purposes; cbn; [by repeat constructor|].
  intros H. apply bind_Ok in H as (ps & Hx & H). unfold validate_ledger in Hx.
  apply bind_Ok in Hx as ([] & E1%guard_Ok & Hx). apply bind_Ok in Hx as ([] & _ & Hx).
  apply bind_Ok in Hx as ([] & E3%guard_Ok & [= <-]).
  apply IH in H as (H1 & H2 & H3).
  assert (Hnot : BillingLedgerEntry.Purpose x ∉ purposes)
    by (intros Hin%contains_In; by rewrite Hin in E3).
  split_and!.
  - by constructor.
  - constructor; [|done]. intros Hin%list_elem_of_fmap. destruct Hin as (y & Ey & Hy).
    rewrite Forall_forall in H3. specialize (H3 y Hy). rewrite <- Ey in H3. apply H3. by left.
  - constructor; [done|]. eapply Forall_impl; [exact H3|]. cbn. intros y Hy Hin. apply Hy. by right.
Qed.

Lemma validate_inv settlement :
  validateUsageSettlement settlement = Ok tt ->
  let ledgers := UsageSettlement.Ledgers settlement in
  Forall (fun billing => foreign_ledger (UsageSettlement.Record settlement) billing = false) ledgers /\
  NoDup (BillingLedgerEntry.Purpose <$> ledgers).
Proof.
  cbv zeta. unfold validateUsageSettlement. intros H.
  apply bind_Ok in H as ([] & _ & H). apply bind_Ok in H as (evaluations & _ & H).
  apply bind_Ok in H as (ps & H & _). by apply validate_ledgers in H as (H1 & H2 & _).
Qed.

Lemma native_ledger record billing : foreign_ledger record billing = false ->
  BillingLedgerEntry.OperationID billing = UsageRecord.OperationID record /\
  BillingLedgerEntry.AttemptID billing = UsageRecord.AttemptID record /\
  BillingLedgerEntry.UsageVersion billing = UsageRecord.UsageVersion record /\
  0 <= BillingLedgerEntry.AmountMicros billing.
Proof. unfold foreign_ledger. intros H. boolify. split_and!; congruence || lia. Qed.

Lemma normalizeSettlement_inv `{MapRange} `{UnicodeCase} settlement normal :
  normalizeSettlement settlement = Ok normal ->
  let record := UsageSettlement.Record normal in
  NormalizeUsageDimensions (UsageRecord.UsageDimensions record) = Ok (UsageRecord.UsageDimensions record) /\
  UsageSettlement.Ledgers normal = UsageSettlement.Ledgers settlement /\
  Forall (fun billing => foreign_ledger record billing = false) (UsageSettlement.Ledgers normal) /\
  NoDup (BillingLedgerEntry.Purpose <$> UsageSettlement.Ledgers normal).
Proof.
  cbv zeta. unfold normalizeSettlement. intros Hs. apply bind_Ok in Hs as (dimensions & Hd & Hs).
  apply bind_Ok in Hs as ([] & Hv%validate_inv & [= <-]). destruct Hv as [H1 H2]. cbn in *.
  split_and!; [|done|done|done]. by eapply Normalize_fixed.
Qed.

(** ** Lemmas: the identity of ledger entries *)

Lemma sameIdentity_spec left right : sameBillingLedgerIdentity left right = true <->
  BillingLedgerEntry.OperationID left = BillingLedgerEntry.OperationID right /\
  BillingLedgerEntry.AttemptID left = BillingLedgerEntry.AttemptID right /\
  BillingLedgerEntry.UsageVersion left = BillingLedgerEntry.UsageVersion right /\
  BillingLedgerEntry.Purpose left = BillingLedgerEntry.Purpose right.
Proof.
  unfold sameBillingLedgerIdentity. rewrite !andb_true_iff, !String.eqb_eq, Z.eqb_eq. tauto.
Qed.

Lemma sameContent_refl billing : sameBillingLedgerContent billing billing = true.
Proof.
  unfold sameBillingLedgerContent, sameBillingLedgerIdentity. by rewrite !String.eqb_refl, !Z.eqb_refl.
Qed.

(** No two entries of the ledger have the same identity. *)
Definition ledger_unique (ledger : gmap string BillingLedgerEntry.t) : Prop :=
  forall k1 k2 e1 e2, ledger !! k1 = Some e1 -> ledger !! k2 = Some e2 ->
    sameBillingLedgerIdentity e1 e2 = true -> k1 = k2.

Definition occurrences (ledger : gmap string BillingLedgerEntry.t) (billing : BillingLedgerEntry.t) : Z :=
  sum_map (fun current => if sameBillingLedgerIdentity current billing then 1 else 0) ledger.

Lemma occurrences_nonneg ledger billing : 0 <= occurrences ledger billing.
Proof. apply sum_map_nonneg. intros k v _. by destruct (sameBillingLedgerIdentity v billing). Qed.

Lemma occurrences_0 ledger billing : occurrences ledger billing = 0 <->
  forall k current, ledger !! k = Some current -> sameBillingLedgerIdentity current billing = false.
Proof.
  split.
  - intros H0 k current Hk. unfold occurrences in H0.
    rewrite <- (insert_delete_id _ _ _ Hk), sum_map_insert in H0 by apply lookup_delete_eq.
    pose proof (occurrences_nonneg (delete k ledger) billing) as Hn. unfold occurrences in Hn.
    destruct (sameBillingLedgerIdentity current billing); [lia|done].
  - intros Hall. unfold occurrences. induction ledger as [|k v m Hm IH] using map_ind; [by rewrite sum_map_empty|].
    rewrite sum_map_insert by done. rewrite (Hall k v) by apply lookup_insert_eq.
    rewrite IH; [done|]. intros k' v' Hk'. apply (Hall k'). rewrite lookup_insert_ne; [done|]. congruence.
Qed.

Lemma occurrences_1 ledger k billing :
  ledger_unique ledger -> ledger !! k = Some billing -> occurrences ledger billing = 1.
Proof.
  intros Hu Hk. unfold occurrences.
  rewrite <- (insert_delete_id _ _ _ Hk) at 1. rewrite sum_map_insert by apply lookup_delete_eq.
  assert (E : sameBillingLedgerIdentity billing billing = true) by by apply sameIdentity_spec.
  rewrite E. fold (occurrences (delete k ledger) billing). rewrite (proj2 (occurrences_0 _ _)); [done|].
  intros k' current [Hne Hk']%lookup_delete_Some. apply not_true_is_false.
  intros Hs. by pose proof (Hu _ _ _ _ Hk' Hk Hs).
Qed.

Lemma count_list billing acc l n :
  foldM (fun existingCount current =>
    if sameBillingLedgerIdentity current billing
    then if negb (sameBillingLedgerContent current billing) then Err ErrUsageLedgerConflict
         else Ok (existingCount + 1)
    else Ok existingCount) acc l = Ok n <->
  n = acc + sum_Z (fun current => if sameBillingLedgerIdentity current billing then 1 else 0) l /\
  forall current, current ∈ l -> sameBillingLedgerIdentity current billing = true ->
    sameBillingLedgerContent current billing = true.
Proof.
  revert acc. induction l as [|x l IH]; intros acc; cbn.
  { rewrite Z.add_0_r. split; [|by intros [-> _]].
    intros [= <-]. split; [done|]. by intros current ?%elem_of_nil. }
  setoid_rewrite elem_of_cons.
  destruct (sameBillingLedgerIdentity x billing) eqn:Ex; [destruct (sameBillingLedgerContent x billing) eqn:Ec|]; cbn.
  - rewrite IH, Z.add_assoc. split; intros [-> Hall]; (split; [done|]); intros current Hc.
    + destruct Hc as [->|Hc]; [by intros _|by apply Hall].
    + by apply Hall; right.
  - split; [done|]. intros [_ Hall]. specialize (Hall x (or_introl eq_refl) Ex). congruence.
  - rewrite IH. split; intros [-> Hall]; (split; [lia|]); intros current Hc.
    + destruct Hc as [->|Hc]; [congruence|by apply Hall].
    + by apply Hall; right.
Qed.

Section Count.
Context `{range : MapRange}.

Lemma count_spec r acc billing n :
  count_existing r acc billing = Ok n <->
  n = acc + occurrences (billingLedgerEntries r) billing /\
  forall k current, billingLedgerEntries r !! k = Some current ->
    sameBillingLedgerIdentity current billing = true -> sameBillingLedgerContent current billing = true.
Proof.
  unfold count_existing, occurrences. rewrite count_list, sum_map_values.
  setoid_rewrite elem_of_map_values.
  split; intros [-> Hall]; (split; [done|]).
  - intros k current Hk. apply Hall. by exists k.
  - intros current [k Hk]. by apply (Hall k).
Qed.

(** A fresh settlement meets no entry of its identities. *)
Lemma count_fresh r l acc n :
  foldM (count_existing r) acc l = Ok n -> n <= acc ->
  Forall (fun billing => occurrences (billingLedgerEntries r) billing = 0) l.
Proof.
  enough (H : forall acc, foldM (count_existing r) acc l = Ok n -> acc <= n /\
    (n <= acc -> Forall (fun billing => occurrences (billingLedgerEntries r) billing = 0) l))
    by (intros E; by apply H).
  clear acc. induction l as [|x l IH]; intros acc; cbn; [by intros [= ->]|].
  intros E. apply bind_Ok in E as (m & [-> _]%count_spec & E). apply IH in E as [E1 E2].
  pose proof (occurrences_nonneg (billingLedgerEntries r) x).
  split; [lia|]. intros Hn. constructor; [lia|]. apply E2. lia.
Qed.

(** Entries that are all in the ledger are all found. *)
Lemma count_stored r l acc :
  ledger_unique (billingLedgerEntries r) ->
  Forall (fun billing => billingLedgerEntries r !! BillingLedgerEntry.ID billing = Some billing) l ->
  foldM (count_existing r) acc l = Ok (acc + Z.of_nat (length l)).
Proof.
  intros Hu. revert acc. induction l as [|x l IH]; intros acc; cbn [foldM length]; [by rewrite Z.add_0_r|].
  intros [Hx Hl]%Forall_cons_iff.
  assert (E : count_existing r acc x = Ok (acc + 1)).
  { apply count_spec. rewrite (occurrences_1 _ _ _ Hu Hx). split; [done|].
    intros k current Hk Hs. pose proof (Hu _ _ _ _ Hk Hx Hs) as ->.
    assert (current = x) as -> by congruence. apply sameContent_refl. }
  rewrite E. cbn. rewrite IH by done. f_equal. lia.
Qed.
End Count.

(** Adding fresh entries with distinct identities keeps identities unique. *)
Lemma ledger_unique_store ledger l :
  ledger_unique ledger -> keyed BillingLedgerEntry.ID ledger ->
  NoDup (BillingLedgerEntry.ID <$> l) ->
  Forall (fun billing => occurrences ledger billing = 0) l ->
  (forall b1 b2, b1 ∈ l -> b2 ∈ l -> sameBillingLedgerIdentity b1 b2 = true -> b1 = b2) ->
  ledger_unique (foldl (fun m billing => <[BillingLedgerEntry.ID billing := billing]> m) ledger l).
Proof.
  intros Hu Hk Hnd Hfresh Hl. destruct (foldl_store BillingLedgerEntry.ID l ledger Hnd) as [Hin Hout].
  set (ledger' := foldl _ _ _) in *.
  (* an entry of the new ledger is one of [l], or an old one *)
  assert (Hcase : forall k e, ledger' !! k = Some e ->
    (e ∈ l /\ BillingLedgerEntry.ID e = k) \/ (ledger !! k = Some e /\ k ∉ BillingLedgerEntry.ID <$> l)).
  { intros k e He. destruct (decide (k ∈ BillingLedgerEntry.ID <$> l)) as [Hi|Hn].
    - left. apply list_elem_of_fmap in Hi as (b & -> & Hb). rewrite (Hin b Hb) in He. by injection He as <-.
    - right. by rewrite <- Hout. }
  rewrite Forall_forall in Hfresh.
  assert (Hsym : forall a b, sameBillingLedgerIdentity a b = true -> sameBillingLedgerIdentity b a = true)
    by (intros a b (E1 & E2 & E3 & E4)%sameIdentity_spec; apply sameIdentity_spec; by rewrite E1, E2, E3, E4).
  intros k1 k2 e1 e2 H1 H2 Hs.
  apply Hcase in H1 as [[L1 <-]|[O1 N1]], H2 as [[L2 <-]|[O2 N2]].
  - by rewrite (Hl e1 e2).
  - apply Hsym in Hs. rewrite (proj1 (occurrences_0 _ _) (Hfresh e1 L1) _ _ O2) in Hs. done.
  - rewrite (proj1 (occurrences_0 _ _) (Hfresh e2 L2) _ _ O1) in Hs. done.
  - by eapply Hu.
Qed.

Lemma native_distinct record l :
  Forall (fun billing => foreign_ledger record billing = false) l ->
  NoDup (BillingLedgerEntry.Purpose <$> l) ->
  forall b1 b2, b1 ∈ l -> b2 ∈ l -> sameBillingLedgerIdentity b1 b2 = true -> b1 = b2.
Proof.
  intros _ Hnd b1 b2 H1 H2 (_ & _ & _ & Hp)%sameIdentity_spec.
  apply list_elem_of_lookup in H1 as [i Hi], H2 as [j Hj].
  assert (i = j) as ->.
  { eapply NoDup_lookup; [exact Hnd| |]; rewrite list_lookup_fmap.
    - by rewrite Hi.
    - rewrite Hj. cbn. by rewrite Hp. }
  congruence.
Qed.

(** ** Lemmas: the hold of the operation *)

(** [r'] differs from [r] in the holds and their pricing versions only. *)
Definition holds_only (r r' : MemoryRepository) : Prop :=
  r' = (r <| billingHolds := billingHolds r' |>
          <| billingHoldPricingVersions := billingHoldPricingVersions r' |>).

Lemma holds_only_refl r : holds_only r r.
Proof. by destruct r. Qed.

Lemma holds_only_trans r1 r2 r3 : holds_only r1 r2 -> holds_only r2 r3 -> holds_only r1 r3.
Proof. intros H1 H2. unfold holds_only in *. rewrite H2, H1. by destruct r1. Qed.

(** An operation that, on good holds, cannot fail and keeps them good. *)
Definition keeps_holds (m : M unit) : Prop := forall r, holds_ok (billingHolds r) ->
  exists r', m r = (Ok tt, r') /\ holds_ok (billingHolds r') /\ holds_only r r'.

Lemma keeps_ret : keeps_holds (mret tt).
Proof. intros r Hr. exists r. split; [done|]. split; [done|apply holds_only_refl]. Qed.

Lemma keeps_bind m1 m2 : keeps_holds m1 -> keeps_holds m2 -> keeps_holds (_ ← m1; m2).
Proof.
  intros H1 H2 r Hr. destruct (H1 r Hr) as (r1 & E1 & K1 & O1). destruct (H2 r1 K1) as (r2 & E2 & K2 & O2).
  exists r2. unfold mbind, M_bind. rewrite E1. split; [done|]. split; [done|by eapply holds_only_trans].
Qed.

Lemma keeps_read {A} (f : MemoryRepository -> A) k :
  (forall a, keeps_holds (k a)) -> keeps_holds (a ← read f; k a).
Proof. intros Hk r Hr. by apply Hk. Qed.

Lemma keeps_write g :
  (forall r, billingHolds (g r) = billingHolds r /\ holds_only r (g r)) -> keeps_holds (write g).
Proof.
  intros Hg r Hr. destruct (Hg r) as [E O]. exists (g r). split; [done|]. split; [|done]. by rewrite E.
Qed.

Lemma keeps_for_each {A} (f : A -> M unit) l : (forall x, keeps_holds (f x)) -> keeps_holds (for_each f l).
Proof. intros Hf. induction l as [|x l IH]; [apply keeps_ret|]. by apply keeps_bind. Qed.

Lemma unchanged r (x : result go_error unit) : holds_ok (billingHolds r) ->
  holds_ok (billingHolds r) /\ holds_only r r /\ (x <> Ok tt -> r = r).
Proof. intros Hr. split_and!; [done|apply holds_only_refl|done]. Qed.

Section Holds.
Context `{range : MapRange} `{unicode : UnicodeCase}.

(** A transition that the state machine allows from every status not [kept]. *)
Lemma keeps_move record kept toStatus reason :
  TrimSpace toStatus = toStatus ->
  (forall status, oneOf status [BillingHoldStatusReserved; BillingHoldStatusCommitted;
      BillingHoldStatusSettled; BillingHoldStatusReleased; BillingHoldStatusDisputed] = true ->
    oneOf status kept = false -> billingHoldTransitionAllowed status toStatus = true) ->
  keeps_holds (move_hold record kept toStatus reason).
Proof.
  intros Htrim Hall r Hr. unfold move_hold, mbind, M_bind, read.
  destruct (memoryBillingHoldForOperation _ _) as [hold|] eqn:Ef; [|by apply keeps_ret].
  apply memoryHold_spec in Ef as [Ef _]; [|done].
  destruct (holds_keys _ Hr _ _ Ef) as [_ Hok].
  destruct (oneOf (BillingHold.Status hold) kept) eqn:Ek; [by apply keeps_ret|].
  specialize (Hall _ (hold_status _ Hok) Ek). unfold lift.
  destruct (prepareBillingHoldTransition hold toStatus 0 reason (UsageRecord.CreatedAt record))
    as [updated|e] eqn:Ep.
  - pose proof Ep as Ep'. apply prepareHold_inv in Ep' as [[-> _]|(_ & _ & _ & Eid & Eop & _)].
    all: eexists; split; [reflexivity|]; split; [|by destruct r].
    all: apply holds_update; try done. by eapply prepareHold_ok.
  - exfalso. unfold prepareBillingHoldTransition in Ep. rewrite Htrim, Hall in Ep. cbn in Ep.
    by destruct (_ =s _) in Ep.
Qed.

Lemma keeps_evaluation record evaluation : keeps_holds (settle_evaluation record evaluation).
Proof.
  unfold settle_evaluation. apply keeps_read. intros r0. apply keeps_bind.
  - destruct (_ <>s ""); [|apply keeps_ret]. apply keeps_write. intros r. by destruct r.
  - destruct (_ && _); [|apply keeps_ret]. apply keeps_move; [done|].
    intros status Hin Hout. apply oneOf_In in Hin. elem_cases Hin; subst; try done; by vm_compute in Hout.
Qed.

(** Settling by the ledger entry may fail, but then it has changed nothing. *)
Lemma settle_ledger_ok record billing r x r' :
  holds_ok (billingHolds r) -> settle_ledger record billing r = (x, r') ->
  holds_ok (billingHolds r') /\ holds_only r r' /\ (x <> Ok tt -> r' = r).
Proof.
  intros Hr. unfold settle_ledger, settleMemoryBillingHoldForUsage.
  destruct (_ =s _); [|intros H; injection H as <- <-; by apply unchanged].
  destruct (billingHoldUsageIsFinal record); cbn [negb];
    [|intros H; injection H as <- <-; by apply unchanged].
  unfold mbind, M_bind, read, lift, id.
  destruct (memoryBillingHoldForOperation _ _) as [hold|] eqn:Ef;
    [|intros [= <- <-]; by apply unchanged].
  apply memoryHold_spec in Ef as [Ef _]; [|done].
  destruct (holds_keys _ Hr _ _ Ef) as [_ Hok].
  destruct (oneOf _ _); [intros [= <- <-]; by apply unchanged|].
  destruct (cumulativeMemoryBillingAmount r billing) as [amount|e];
    [|intros [= <- <-]; by apply unchanged].
  destruct (prepareBillingHoldTransition _ _ _ _ _) as [updated|e] eqn:Ep;
    [|intros [= <- <-]; by apply unchanged].
  intros [= <- <-]. pose proof Ep as Ep'.
  apply prepareHold_inv in Ep' as [[-> _]|(_ & _ & _ & Eid & Eop & _)];
    (split_and!; [|by destruct r|done]); apply holds_update; try done. by eapply prepareHold_ok.
Qed.

Lemma skip_ledgers record l :
  Forall (fun billing => BillingLedgerEntry.Purpose billing <> PricingPurposeUsageCost) l ->
  keeps_holds (for_each (settle_ledger record) l).
Proof.
  induction l as [|x l IH]; [intros _; apply keeps_ret|]. intros [Hx Hl]%Forall_cons_iff.
  apply keeps_bind; [|by apply IH]. unfold settle_ledger.
  rewrite (proj2 (String.eqb_neq _ _) Hx). apply keeps_ret.
Qed.

(** At most one entry has the purpose that settles the hold. *)
Lemma settle_ledgers_ok record l r x r' :
  NoDup (BillingLedgerEntry.Purpose <$> l) ->
  holds_ok (billingHolds r) -> for_each (settle_ledger record) l r = (x, r') ->
  holds_ok (billingHolds r') /\ holds_only r r' /\ (x <> Ok tt -> r' = r).
Proof.
  revert r. induction l as [|b l IH]; intros r; cbn.
  - intros _ Hr H. injection H as <- <-. by apply unchanged.
  - intros [Hb Hnd]%NoDup_cons Hr H.
    destruct (String.eqb_spec (BillingLedgerEntry.Purpose b) PricingPurposeUsageCost) as [E|E].
    + apply M_bind_inv in H as [(e & H1 & ->)|([] & r1 & H1 & H)].
      { apply settle_ledger_ok in H1; [|done]. destruct H1 as (K & O & T). split_and!; [done|done|].
        intros _. by apply T. }
      apply settle_ledger_ok in H1 as (K1 & O1 & _); [|done].
      destruct (skip_ledgers record l) with (r := r1) as (r2 & E2 & K2 & O2); [|done|].
      { apply Forall_forall. intros y Hy Ey. apply Hb. rewrite E, <- Ey. by apply list_elem_of_fmap_2. }
      rewrite E2 in H. injection H as <- <-. split_and!; [done|by eapply holds_only_trans|done].
    + apply (IH r Hnd Hr). assert (Eb : settle_ledger record b = mret tt)
        by (unfold settle_ledger; by rewrite (proj2 (String.eqb_neq _ _) E)).
      rewrite Eb in H. exact H.
Qed.

(** What the settlement does to the hold: all of it or nothing. *)
Lemma settle_hold_ok settlement r x r' :
  NoDup (BillingLedgerEntry.Purpose <$> UsageSettlement.Ledgers settlement) ->
  holds_ok (billingHolds r) -> settle_hold settlement r = (x, r') ->
  holds_ok (billingHolds r') /\ holds_only r r' /\ (x <> Ok tt -> r' = r).
Proof.
  intros Hnd Hr H. unfold settle_hold in H.
  apply M_bind_inv in H as [(e & H1 & ->)|([] & r1 & H1 & H)].
  { apply settle_ledgers_ok in H1 as (K & O & T); [|done|done]. split_and!; [done|done|].
    intros _. by apply T. }
  apply settle_ledgers_ok in H1 as (K1 & O1 & _); [|done|done].
  assert (Hrest : keeps_holds (_ ← for_each (settle_evaluation (UsageSettlement.Record settlement))
      (UsageSettlement.Evaluations settlement);
    if (UsageRecord.PricingStatus (UsageSettlement.Record settlement) =s "unpriced")
       && billingHoldUsageIsFinal (UsageSettlement.Record settlement)
    then move_hold (UsageSettlement.Record settlement) [BillingHoldStatusSettled; BillingHoldStatusReleased]
           BillingHoldStatusSettled "usage_unpriced"
    else mret tt)).
  { apply keeps_bind; [apply keeps_for_each; intros evaluation; apply keeps_evaluation|].
    destruct (_ && _); [|apply keeps_ret]. apply keeps_move; [done|].
    intros status Hin Hout. apply oneOf_In in Hin. elem_cases Hin; subst; try done; by vm_compute in Hout. }
  destruct (Hrest r1 K1) as (r2 & E2 & K2 & O2). rewrite E2 in H. injection H as <- <-.
  split_and!; [done|by eapply holds_only_trans|done].
Qed.
End Holds.

(** ** Lemmas: the whole settlement *)

Section Applied.
Context `{range : MapRange} `{unicode : UnicodeCase}.
Context (Marshal : gmap string UsageDimension -> result go_error string).
#[local] Notation Apply := (ApplyUsageSettlement Marshal).

Lemma readonly_check_references record : readonly (check_references record).
Proof. unfold check_references. readonly_tac. Qed.
Lemma readonly_check_absent settlement : readonly (check_absent settlement).
Proof. unfold check_absent. readonly_tac. Qed.

Lemma references_frame record r r' :
  aiOperations r' = aiOperations r -> aiAttempts r' = aiAttempts r ->
  check_references record r = (Ok tt, r) -> check_references record r' = (Ok tt, r').
Proof.
  intros E1 E2. unfold check_references, check, mbind, M_bind, read, id. rewrite E1, E2.
  destruct (negb _); [done|]. cbn. destruct (_ <>s ""); [|done].
  by destruct (aiAttempts r !! _) as [attempt|]; [destruct (_ <>s _)|].
Qed.

(** Either nothing was written, or the settlement is new and was recorded. *)
Lemma apply_inv settlement r x r' :
  holds_ok (billingHolds r) -> Apply settlement r = (x, r') ->
  (r' = r /\ x <> Ok true) \/
  (x = Ok true /\ exists normal r1,
     normalizeSettlement settlement = Ok normal /\
     check_references (UsageSettlement.Record normal) r = (Ok tt, r) /\
     find_settled Marshal normal r = Ok None /\ check_absent normal r = (Ok tt, r) /\
     holds_ok (billingHolds r1) /\ holds_only r r1 /\ r' = record_settlement normal r1).
Proof.
  intros Hr H. unfold ApplyUsageSettlement in H.
  apply readonly_bind_inv in H as [(e & _ & -> & ->)|(normal & H1 & H)]; [by left| |apply readonly_lift].
  apply readonly_bind_inv in H as [(e & _ & -> & ->)|([] & H2 & H)];
    [by left| |apply readonly_check_references].
  apply readonly_bind_inv in H as [(e & [=] & _)|(? & [= <-] & H)]; [|apply readonly_read]. unfold id in H.
  apply readonly_bind_inv in H as [(e & _ & -> & ->)|(answer & H4 & H)]; [by left| |apply readonly_lift].
  injection H1 as H1. injection H4 as H4. destruct answer as [answer|].
  { injection H as <- <-. left. split; [done|]. intros [= ->]. unfold find_settled in H4.
    apply bind_Ok in H4 as (n & _ & H4). destruct (n >? 0).
    - destruct (negb _); [done|]. destruct (usageRecords r !! _); [|done]. by destruct (negb _).
    - destruct (UsageSettlement.Ledgers normal); [|done].
      destruct (usageRecords r !! _); [|done]. by destruct (same_record _ _ _). }
  apply readonly_bind_inv in H as [(e & _ & -> & ->)|([] & H5 & H)];
    [by left| |apply readonly_check_absent].
  pose proof (normalizeSettlement_inv _ _ H1) as (_ & _ & _ & Hnd).
  apply M_bind_inv in H as [(e & H6 & ->)|([] & r1 & H6 & H)];
    apply settle_hold_ok in H6 as (K & O & T); try done; [left; split; [by apply T|done]|].
  injection H as <- <-. right. split; [done|]. exists normal, r1. by split_and!.
Qed.

Lemma recorded settlement r1 :
  usageRecords (record_settlement settlement r1) !! UsageRecord.ID (UsageSettlement.Record settlement)
    = Some (UsageSettlement.Record settlement) /\
  aiOperations (record_settlement settlement r1) = aiOperations r1 /\
  aiAttempts (record_settlement settlement r1) = aiAttempts r1 /\
  billingHolds (record_settlement settlement r1) = billingHolds r1 /\
  billingLedgerEntries (record_settlement settlement r1) =
    foldl (fun m billing => <[BillingLedgerEntry.ID billing := billing]> m)
      (billingLedgerEntries r1) (UsageSettlement.Ledgers settlement).
Proof. split_and!; [cbn; apply lookup_insert_eq|done..]. Qed.

Lemma same_record_refl record :
  (forall m, exists text, Marshal m = Ok text) ->
  NormalizeUsageDimensions (UsageRecord.UsageDimensions record) = Ok (UsageRecord.UsageDimensions record) ->
  same_record Marshal record record = true.
Proof.
  intros HM Hn. unfold same_record, usageDimensionsEqual, UsageDimensionsJSON. rewrite Hn. cbn.
  destruct (HM (UsageRecord.UsageDimensions record)) as [text ->]. rewrite !String.eqb_refl. cbn.
  unfold optionalMoneyEqual. destruct (UsageRecord.UsageCostMicros record); [apply Z.eqb_refl|done].
Qed.

(** The ledger after a new settlement. *)
Lemma recorded_ledger settlement normal r r1 :
  normalizeSettlement settlement = Ok normal -> find_settled Marshal normal r = Ok None ->
  holds_only r r1 -> NoDup (BillingLedgerEntry.ID <$> UsageSettlement.Ledgers settlement) ->
  keyed BillingLedgerEntry.ID (billingLedgerEntries r) -> ledger_unique (billingLedgerEntries r) ->
  let ledger := billingLedgerEntries (record_settlement normal r1) in
  keyed BillingLedgerEntry.ID ledger /\ ledger_unique ledger /\
  Forall (fun billing => ledger !! BillingLedgerEntry.ID billing = Some billing)
    (UsageSettlement.Ledgers normal).
Proof.
  intros Hn Hf Ho Hids Hk Hu. cbv zeta.
  pose proof (normalizeSettlement_inv _ _ Hn) as (_ & El & Hnat & Hnd).
  destruct (recorded normal r1) as (_ & _ & _ & _ & ->).
  assert (E : billingLedgerEntries r1 = billingLedgerEntries r) by (rewrite Ho; by destruct r).
  rewrite E. rewrite <- El in Hids. split_and!.
  - by apply keyed_store.
  - apply ledger_unique_store; [done..| |by apply (native_distinct (UsageSettlement.Record normal))].
    unfold find_settled in Hf. apply bind_Ok in Hf as (n & Hc & Hf).
    eapply count_fresh; [exact Hc|]. rewrite Z.gtb_ltb in Hf.
    destruct (Z.ltb_spec 0 n); [|done]. destruct (negb _); [done|].
    destruct (usageRecords r !! _); [|done]. by destruct (negb _).
  - apply Forall_forall. intros b Hb. by apply (foldl_store BillingLedgerEntry.ID).
Qed.
End Applied.

(** ** Properties *)

Section Properties.
Context `{range : MapRange} `{unicode : UnicodeCase}.
Context (Marshal : gmap string UsageDimension -> result go_error string).

(** C4. A settlement is applied once: when it has been applied, each of its ledger
    entries is in the ledger, in which no two entries have the same operation,
    attempt, usage version and purpose, and applying it again changes nothing
    and reports that it was known. *)
Theorem settlement_applied_once settlement r r' :
  (forall m, exists text, Marshal m = Ok text) ->
  holds_ok (billingHolds r) ->
  keyed BillingLedgerEntry.ID (billingLedgerEntries r) -> ledger_unique (billingLedgerEntries r) ->
  NoDup (BillingLedgerEntry.ID <$> UsageSettlement.Ledgers settlement) ->
  ApplyUsageSettlement Marshal settlement r = (Ok true, r') ->
  Forall (fun billing => billingLedgerEntries r' !! BillingLedgerEntry.ID billing = Some billing)
    (UsageSettlement.Ledgers settlement) /\
  ledger_unique (billingLedgerEntries r') /\
  ApplyUsageSettlement Marshal settlement r' = (Ok false, r').
Proof.
  intros HM Hh Hk Hu Hids H.
  apply apply_inv in H as [[_ []]|(_ & normal & r1 & Hn & Href & Hf & _ & _ & Ho & ->)]; [done| |done].
  pose proof (recorded_ledger Marshal _ _ _ _ Hn Hf Ho Hids Hk Hu) as (_ & Hu' & Hin).
  pose proof (normalizeSettlement_inv _ _ Hn) as (Hdim & El & _ & _).
  destruct (recorded normal r1) as (Hrec & Hops & Hatt & _ & _).
  rewrite <- El. split; [done|]. split; [done|].
  unfold ApplyUsageSettlement. rewrite Hn.
  assert (Eref : check_references (UsageSettlement.Record normal) (record_settlement normal r1)
                 = (Ok tt, record_settlement normal r1)).
  { apply (references_frame _ r); [rewrite Hops|rewrite Hatt|done]; rewrite Ho; by destruct r. }
  assert (Efs : find_settled Marshal normal (record_settlement normal r1) = Ok (Some false)).
  { unfold find_settled. rewrite count_stored by done. cbn [mbind result_bind].
    rewrite Hrec, same_record_refl by done. rewrite Z.add_0_l, Z.eqb_refl. cbn.
    destruct (UsageSettlement.Ledgers normal); done. }
  unfold mbind, M_bind, lift, read, id. rewrite Eref, Efs. done.
Qed.

(** C16. A settlement is all or nothing: one that fails, at whatever check or step,
    leaves the repository as it was, the hold and its pricing versions
    included. *)
Theorem settlement_all_or_nothing settlement r e r' :
  holds_ok (billingHolds r) ->
  ApplyUsageSettlement Marshal settlement r = (Err e, r') -> r' = r.
Proof. intros Hh H. by apply apply_inv in H as [[-> _]|[? _]]. Qed.
End Properties.

(** ** A settlement *)

Module Demo.
#[local] Existing Instance canonical_range.
#[local] Instance no_unicode : UnicodeCase := fun s => s.
Open Scope string_scope.

Definition no_json (_ : gmap string UsageDimension) : result go_error string := Ok "".
Definition record : UsageRecord.t :=
  UsageRecord.zero <| UsageRecord.ID := "u1" |> <| UsageRecord.OperationID := "op1" |>
    <| UsageRecord.UsageVersion := 1%Z |> <| UsageRecord.RequestFingerprint := "fp" |>
    <| UsageRecord.UsageSource := "gateway_final" |> <| UsageRecord.PricingStatus := "priced" |>.
Definition evaluation (amount : Z) : PricingEvaluation.t :=
  PricingEvaluation.zero <| PricingEvaluation.ID := "e1" |> <| PricingEvaluation.OperationID := "op1" |>
    <| PricingEvaluation.UsageRecordID := "u1" |> <| PricingEvaluation.UsageVersion := 1%Z |>
    <| PricingEvaluation.Phase := PhaseSettlement |>
    <| PricingEvaluation.Status := PricingEvaluationStatusSuccess |>
    <| PricingEvaluation.AmountMicros := Some amount |>
    <| PricingEvaluation.Purpose := PricingPurposeUsageCost |>.
Definition ledger (amount : Z) : BillingLedgerEntry.t :=
  BillingLedgerEntry.zero <| BillingLedgerEntry.ID := "l1" |> <| BillingLedgerEntry.OperationID := "op1" |>
    <| BillingLedgerEntry.UsageRecordID := "u1" |> <| BillingLedgerEntry.UsageVersion := 1%Z |>
    <| BillingLedgerEntry.RequestFingerprint := "fp" |>
    <| BillingLedgerEntry.Purpose := PricingPurposeUsageCost |>
    <| BillingLedgerEntry.AmountMicros := amount |> <| BillingLedgerEntry.Currency := CurrencyUSD |>
    <| BillingLedgerEntry.PricingEvaluationID := "e1" |>
    <| BillingLedgerEntry.Status := BillingLedgerStatusApplied |>.
Definition settlement (amount : Z) : UsageSettlement.t :=
  UsageSettlement.mk record [evaluation amount] [ledger amount] [].
Definition apply (amount : Z) : M bool := ApplyUsageSettlement no_json (settlement amount).
Close Scope string_scope.

(** The hold is settled at the amount billed. *)
Example apply_settles :
  match apply 7 BillingHolds.Demo.one_hold with
  | (Ok true, r') =>
      (fun hold => (BillingHold.Status hold, BillingHold.SettledAmountMicros hold)) <$> billingHolds r' !! "h1"%string
      = Some (BillingHoldStatusSettled, 7)
  | _ => False
  end.
Proof. vm_compute. reflexivity. Qed.
End Demo.

Lemma settlement_applied_once_witness :
  match Demo.apply 7 BillingHolds.Demo.one_hold with
  | (Ok true, r') => Demo.apply 7 r' = (Ok false, r')
  | _ => False
  end.
Proof.
  destruct (Demo.apply 7 BillingHolds.Demo.one_hold) as [[[]|e] r'] eqn:E;
    [|vm_compute in E; discriminate E|vm_compute in E; discriminate E].
  refine (proj2 (proj2 (settlement_applied_once (range := canonical_range) (unicode := Demo.no_unicode)
    Demo.no_json (Demo.settlement 7) BillingHolds.Demo.one_hold r' _ _ _ _ _ E))).
  - intros m. exists ""%string. reflexivity.
  - exact BillingHolds.Demo.one_hold_ok.
  - apply keyed_empty.
  - intros k1 k2 e1 e2 H1. assert (H0 : (∅ : gmap string BillingLedgerEntry.t) !! k1 = Some e1) by exact H1.
    by rewrite lookup_empty in H0.
  - repeat constructor. by intros ?%elem_of_nil.
Defined.

Lemma settlement_all_or_nothing_witness :
  match Demo.apply (-7) BillingHolds.Demo.one_hold with
  | (Err _, r') => r' = BillingHolds.Demo.one_hold
  | _ => False
  end.
Proof.
  destruct (Demo.apply (-7) BillingHolds.Demo.one_hold) as [[b|e] r'] eqn:E;
    [vm_compute in E; discriminate E|].
  exact (settlement_all_or_nothing (range := canonical_range) (unicode := Demo.no_unicode)
    Demo.no_json (Demo.settlement (-7)) BillingHolds.Demo.one_hold e r' BillingHolds.Demo.one_hold_ok E).
Defined.
