(* ===== verification/DeliveryQueue.v ===== *)
(** * Durable jobs: the delivery queue

    [backend/internal/controlplane/ai_job_delivery_queue.go]: the envelope that
    is all a worker is sent, its identity, and the queue in memory with leases,
    duplicates and at-least-once delivery.  Each operation is one critical
    section of the queue's mutex; [Receive] is the body of its loop, whose rounds
    other callers may separate.  The readings of the clock are arguments, and so
    are the random parts of the lease tokens and the error of the context. *)

From S2P Require Import Prelude Sha256 Repository.

(** ** Envelopes *)

Definition ErrAIJobDeliveryEnvelopeInvalid : go_error := ErrNew "invalid ai job delivery envelope".
Definition ErrAIJobDeliveryDedupeConflict : go_error :=
  ErrNew "ai job delivery dedupe key conflicts with an existing envelope".
Definition ErrAIJobDeliveryNotFound : go_error := ErrNew "ai job delivery was not found".
Definition ErrAIJobDeliveryLeaseConflict : go_error := ErrNew "ai job delivery lease does not match".
Definition ErrAIJobDeliveryLeaseExpired : go_error := ErrNew "ai job delivery lease has expired".
Definition ErrAIJobDeliveryLeaseDurationInvalid : go_error :=
  ErrNew "ai job delivery lease duration must be positive".

Definition aiJobDeliveryEnvelopeSchemaVersion : Z := 1.

Module AIJobDeliveryEnvelope.
Record t := mk {
  SchemaVersion : Z;
  DeliveryID : string;
  JobID : string;
  OperationID : string;
  StatusVersion : Z;
  FenceToken : Z;
  QueueLeaseToken : string;
}.
#[export] Instance eq_dec : EqDecision t.
Proof. solve_decision. Defined.
End AIJobDeliveryEnvelope.
Export (hints) AIJobDeliveryEnvelope.

Definition durableAIJobDeliveryIDParts (jobID operationID : string) (statusVersion fenceToken : Z) : string :=
  if (TrimSpace jobID =s "") || (TrimSpace operationID =s "") || (statusVersion <=? 0) || (fenceToken <=? 0)
  then "" else
    ("job_delivery_" +:+ prefix (hashAPIKey (jobID +:+ nul +:+ operationID +:+ nul
       +:+ Itoa statusVersion +:+ nul +:+ Itoa fenceToken)) 32)%string.

Definition durableAIJobDeliveryID (job : AIJob.t) : string :=
  durableAIJobDeliveryIDParts (AIJob.ID job) (AIJob.OperationID job) (AIJob.StatusVersion job)
    (AIJob.FenceToken job).

Definition validateAIJobDeliveryEnvelope (envelope : AIJobDeliveryEnvelope.t) : option go_error :=
  if negb (AIJobDeliveryEnvelope.SchemaVersion envelope =? aiJobDeliveryEnvelopeSchemaVersion)
     || (TrimSpace (AIJobDeliveryEnvelope.DeliveryID envelope) =s "")
     || (TrimSpace (AIJobDeliveryEnvelope.JobID envelope) =s "")
     || (TrimSpace (AIJobDeliveryEnvelope.OperationID envelope) =s "")
     || (AIJobDeliveryEnvelope.StatusVersion envelope <=? 0)
     || (AIJobDeliveryEnvelope.FenceToken envelope <=? 0)
     || (TrimSpace (AIJobDeliveryEnvelope.QueueLeaseToken envelope) =s "")
  then Some ErrAIJobDeliveryEnvelopeInvalid
  else if AIJobDeliveryEnvelope.DeliveryID envelope <>s
          durableAIJobDeliveryIDParts (AIJobDeliveryEnvelope.JobID envelope)
            (AIJobDeliveryEnvelope.OperationID envelope) (AIJobDeliveryEnvelope.StatusVersion envelope)
            (AIJobDeliveryEnvelope.FenceToken envelope)
  then Some ErrAIJobDeliveryEnvelopeInvalid else None.

Definition NewAIJobDeliveryEnvelope (job : AIJob.t) : result go_error AIJobDeliveryEnvelope.t :=
  let envelope := AIJobDeliveryEnvelope.mk aiJobDeliveryEnvelopeSchemaVersion
    (durableAIJobDeliveryID job) (TrimSpace (AIJob.ID job)) (TrimSpace (AIJob.OperationID job))
    (AIJob.StatusVersion job) (AIJob.FenceToken job) (TrimSpace (AIJob.QueueLeaseToken job)) in
  match validateAIJobDeliveryEnvelope envelope with
  | Some err => Err err
  | None => Ok envelope
  end.

Definition DedupeKey (e : AIJobDeliveryEnvelope.t) : string := TrimSpace (AIJobDeliveryEnvelope.DeliveryID e).

(** A delivery still speaks for the job ([ai_job_delivery_worker.go]). *)
Definition aiJobDeliveryMatches (job : AIJob.t) (envelope : AIJobDeliveryEnvelope.t) (now : time) : bool :=
  (AIJob.OperationID job =s AIJobDeliveryEnvelope.OperationID envelope)
  && (AIJob.Status job =s AIJobStatusDispatching)
  && (AIJob.StatusVersion job =? AIJobDeliveryEnvelope.StatusVersion envelope)
  && (AIJob.FenceToken job =? AIJobDeliveryEnvelope.FenceToken envelope)
  && (TrimSpace (AIJob.QueueLeaseToken job) =s TrimSpace (AIJobDeliveryEnvelope.QueueLeaseToken envelope))
  && match AIJob.QueueLeaseUntil job with
     | Some leaseUntil => After leaseUntil now
     | None => false
     end.

(** ** The queue *)

Module AIJobDelivery.
Record t := mk {
  ID : string;
  Envelope : AIJobDeliveryEnvelope.t;
  Consumer : string;
  Attempt : Z;
  LeaseUntil : time;
  LeaseToken : string;
}.
End AIJobDelivery.

Inductive memoryAIJobDeliveryStatus := Pending | Inflight | Acked | Dead.
#[export] Instance status_eq_dec : EqDecision memoryAIJobDeliveryStatus.
Proof. solve_decision. Defined.

Record memoryAIJobDeliveryEntry := mkEntry {
  envelope : AIJobDeliveryEnvelope.t;
  dedupeKey : string;
  status : memoryAIJobDeliveryStatus;
  availableAt : time;
  leaseUntil : time;
  leaseToken : string;
  consumer : string;
  attempt : Z;
  sequence : Z;
  lastError : string;
}.
#[export] Instance entry_settable : Settable memoryAIJobDeliveryEntry := fun e => mkEntry
  (envelope e) (dedupeKey e) (status e) (availableAt e) (leaseUntil e) (leaseToken e) (consumer e)
  (attempt e) (sequence e) (lastError e).

(** [notify] counts the channels closed so far: who waits on one is woken when
    the count moves. *)
Record MemoryAIJobDeliveryQueue := mkQueue {
  entries : gmap string memoryAIJobDeliveryEntry;
  byDedupe : gmap string string;
  notify : Z;
  deliveryLease : duration;
  nextSequence : Z;
}.
#[export] Instance queue_settable : Settable MemoryAIJobDeliveryQueue := fun q => mkQueue
  (entries q) (byDedupe q) (notify q) (deliveryLease q) (nextSequence q).

Definition NewMemoryAIJobDeliveryQueue (lease : duration) : result go_error MemoryAIJobDeliveryQueue :=
  if lease <=? 0 then Err ErrAIJobDeliveryLeaseDurationInvalid else Ok (mkQueue ∅ ∅ 0 lease 0).

Notation queue := MemoryAIJobDeliveryQueue (only parsing).
Notation delivery_entry := memoryAIJobDeliveryEntry (only parsing).

Definition signalLocked (q : queue) : queue := q <| notify := notify q + 1 |>.

Definition store_entry (id : string) (e : delivery_entry) (q : queue) : queue :=
  q <| entries := <[id := e]> (entries q) |>.

Definition Publish (ctxErr : option go_error) (now : time) (env : AIJobDeliveryEnvelope.t)
    (key : string) (availableAt : time) (q : queue) : result go_error unit * queue :=
  match ctxErr, validateAIJobDeliveryEnvelope env with
  | Some err, _ | None, Some err => (Err err, q)
  | None, None =>
      let key := TrimSpace key in
      let key := if key =s "" then DedupeKey env else key in
      if key =s "" then (Err ErrAIJobDeliveryEnvelopeInvalid, q)
      else
        let availableAt := if IsZero availableAt then now else availableAt in
        let id := AIJobDeliveryEnvelope.DeliveryID env in
        match byDedupe q !! key with
        | Some existingID =>
            match entries q !! existingID with
            | Some existing =>
                if negb (bool_decide (envelope existing = env))
                then (Err ErrAIJobDeliveryDedupeConflict, q) else (Ok tt, q)
            | None => (Ok tt, q)
            end
        | None =>
            match entries q !! id with
            | Some existing =>
                if negb (bool_decide (envelope existing = env)) || (dedupeKey existing <>s key)
                then (Err ErrAIJobDeliveryDedupeConflict, q) else (Ok tt, q)
            | None =>
                let sequence := (nextSequence q + 1) mod two64 in
                let e := mkEntry env key Pending availableAt 0 "" "" 0 sequence "" in
                (Ok tt, signalLocked (store_entry id e q <| nextSequence := sequence |>
                          <| byDedupe := <[key := id]> (byDedupe q) |>))
            end
        end
  end.

(** The entry a delivery still leases. *)
Definition validateLeaseLocked (now : time) (d : AIJobDelivery.t) (q : queue)
    : result go_error delivery_entry :=
  match entries q !! TrimSpace (AIJobDelivery.ID d) with
  | None => Err ErrAIJobDeliveryNotFound
  | Some e =>
      if negb (bool_decide (status e = Inflight)) || (leaseToken e =s "")
         || (leaseToken e <>s AIJobDelivery.LeaseToken d)
      then Err ErrAIJobDeliveryLeaseConflict
      else if negb (After (leaseUntil e) now) then Err ErrAIJobDeliveryLeaseExpired
      else Ok e
  end.

(** The shared shape of the operations on a leased entry. *)
Definition update_leased (ctxErr : option go_error) (now : time) (d : AIJobDelivery.t)
    (f : delivery_entry -> delivery_entry) (q : queue) : result go_error unit * queue :=
  match ctxErr with
  | Some err => (Err err, q)
  | None =>
      match validateLeaseLocked now d q with
      | Err err => (Err err, q)
      | Ok e => (Ok tt, store_entry (TrimSpace (AIJobDelivery.ID d)) (f e) q)
      end
  end.

Definition unleased (e : delivery_entry) : delivery_entry :=
  e <| leaseUntil := 0 |> <| leaseToken := ""%string |> <| consumer := ""%string |>.

(** [defer q.signalLocked()] after a success *)
Definition signalled (r : result go_error unit * queue) : result go_error unit * queue :=
  match r with (Ok _, q) => (Ok tt, signalLocked q) | _ => r end.

Definition Extend (ctxErr : option go_error) (now checkedAt : time) (d : AIJobDelivery.t) (until : time)
    (q : queue) : result go_error unit * queue :=
  match ctxErr with
  | Some err => (Err err, q)
  | None =>
      if negb (After until now) then (Err ErrAIJobDeliveryLeaseExpired, q)
      else update_leased None checkedAt d (fun e => e <| leaseUntil := until |>) q
  end.

Definition Ack (ctxErr : option go_error) (now : time) (d : AIJobDelivery.t) (q : queue)
    : result go_error unit * queue :=
  signalled (update_leased ctxErr now d (fun e => unleased (e <| status := Acked |>)) q).

Definition Nack (ctxErr : option go_error) (now checkedAt : time) (d : AIJobDelivery.t) (retryAt : time)
    (reason : string) (q : queue) : result go_error unit * queue :=
  let retryAt := if IsZero retryAt || Before retryAt now then now else retryAt in
  signalled (update_leased ctxErr checkedAt d (fun e => unleased (e <| status := Pending |>
    <| availableAt := retryAt |> <| lastError := TrimSpace reason |>)) q).

Definition DeadLetter (ctxErr : option go_error) (now : time) (d : AIJobDelivery.t) (reason : string)
    (q : queue) : result go_error unit * queue :=
  signalled (update_leased ctxErr now d (fun e => unleased (e <| status := Dead |>
    <| lastError := TrimSpace reason |>)) q).

Definition expired (now : time) (e : delivery_entry) : bool :=
  bool_decide (status e = Inflight) && negb (After (leaseUntil e) now).
Definition reclaimed (now : time) (e : delivery_entry) : delivery_entry :=
  if expired now e then unleased (e <| status := Pending |> <| availableAt := now |>) else e.

Definition is_ready (now : time) (e : delivery_entry) : bool :=
  bool_decide (status e = Pending) && negb (After (availableAt e) now).
Definition ready_less (i j : delivery_entry) : bool :=
  if negb (availableAt i =? availableAt j) then Before (availableAt i) (availableAt j)
  else sequence i <? sequence j.

Definition leased_entry (now : time) (lease : duration) (consumer' token : string) (e : delivery_entry)
    : delivery_entry :=
  e <| status := Inflight |> <| attempt := attempt e +i 1 |> <| consumer := consumer' |>
    <| leaseToken := ("delivery_lease_" +:+ token)%string |> <| leaseUntil := now + lease |>.
Definition delivery_of (e : delivery_entry) : AIJobDelivery.t :=
  AIJobDelivery.mk (AIJobDeliveryEnvelope.DeliveryID (envelope e)) (envelope e) (consumer e) (attempt e)
    (leaseUntil e) (leaseToken e).

Section Receive.
Context `{range : MapRange}.

Definition reclaimExpiredLocked (now : time) (q : queue) : queue :=
  let q' := q <| entries := reclaimed now <$> entries q |> in
  match find_value (expired now) (entries q) with Some _ => signalLocked q' | None => q' end.

Definition readyEntriesLocked (now : time) (limit : Z) (q : queue) : list delivery_entry :=
  first_n limit (sort_by ready_less (List.filter (is_ready now) (map_values (entries q)))).

Definition wake_candidate (e : delivery_entry) : time :=
  match status e with Pending => availableAt e | Inflight => leaseUntil e | _ => 0 end.
Definition next_wake (now next : time) (e : delivery_entry) : time :=
  let candidate := wake_candidate e in
  if negb (After candidate now) then next
  else if IsZero next || Before candidate next then candidate else next.
Definition nextWakeLocked (now : time) (q : queue) : time :=
  foldl (next_wake now) 0 (map_values (entries q)).

(** The round of [Receive] at the instant [now]; [tokens i] is what [randomID]
    draws for the delivery [i]. *)
Definition receive_round (now : time) (consumer' : string) (maxItems : Z) (tokens : nat -> string)
    (q : queue) : list AIJobDelivery.t * queue :=
  let q := reclaimExpiredLocked now q in
  let ready := readyEntriesLocked now maxItems q in
  let leased := imap (fun i e => leased_entry now (deliveryLease q) consumer' (tokens i) e) ready in
  (delivery_of <$> leased,
   foldl (fun q e => store_entry (AIJobDeliveryEnvelope.DeliveryID (envelope e)) e q) q leased).

(** What a round comes to: deliveries (none when the time to wait has run out),
    or a wait of so long for the channel open now. *)
Inductive received := Delivered (deliveries : list AIJobDelivery.t) | WaitFor (d : duration) (channel : Z).

(** [remaining] is what is left until the deadline, if the caller waits at all. *)
Definition Receive (ctxErr : option go_error) (now : time) (consumer' : string) (maxItems : Z)
    (remaining : option duration) (tokens : nat -> string) (q : queue) : result go_error received * queue :=
  let consumer' := TrimSpace consumer' in
  if (consumer' =s "") || (maxItems <=? 0) then (Ok (Delivered []), q)
  else match ctxErr with
  | Some err => (Err err, q)
  | None =>
      let '(out, q) := receive_round now consumer' maxItems tokens q in
      match out, remaining with
      | _ :: _, _ => (Ok (Delivered out), q)
      | [], None => (Ok (Delivered []), q)
      | [], Some waitFor =>
          if waitFor <=? 0 then (Ok (Delivered []), q)
          else
            let nextWake := nextWakeLocked now q in
            let untilNext := TimeSub nextWake now in
            let waitFor := if negb (IsZero nextWake) && (untilNext <? waitFor) then untilNext else waitFor in
            (Ok (WaitFor waitFor (notify q)), q)
      end
  end.
End Receive.

(** ** Operations as data, and runs *)

Inductive queue_op :=
| OpPublish (ctxErr : option go_error) (now : time) (env : AIJobDeliveryEnvelope.t) (key : string)
    (availableAt : time)
| OpReceive (ctxErr : option go_error) (now : time) (consumer' : string) (maxItems : Z)
    (remaining : option duration) (tokens : nat -> string)
| OpExtend (ctxErr : option go_error) (now checkedAt : time) (d : AIJobDelivery.t) (until : time)
| OpAck (ctxErr : option go_error) (now : time) (d : AIJobDelivery.t)
| OpNack (ctxErr : option go_error) (now checkedAt : time) (d : AIJobDelivery.t) (retryAt : time)
    (reason : string)
| OpDeadLetter (ctxErr : option go_error) (now : time) (d : AIJobDelivery.t) (reason : string).

Section Runs.
Context `{range : MapRange}.

Definition exec (q : queue) (op : queue_op) : queue :=
  match op with
  | OpPublish ctxErr now env key at_ => (Publish ctxErr now env key at_ q).2
  | OpReceive ctxErr now c n remaining tokens => (Receive ctxErr now c n remaining tokens q).2
  | OpExtend ctxErr now checkedAt d until => (Extend ctxErr now checkedAt d until q).2
  | OpAck ctxErr now d => (Ack ctxErr now d q).2
  | OpNack ctxErr now checkedAt d retryAt reason => (Nack ctxErr now checkedAt d retryAt reason q).2
  | OpDeadLetter ctxErr now d reason => (DeadLetter ctxErr now d reason q).2
  end.
Definition run (q : queue) (ops : list queue_op) : queue := foldl exec q ops.
End Runs.

(** The delivery an operation presents. *)
Definition presented (op : queue_op) : option AIJobDelivery.t :=
  match op with
  | OpExtend _ _ _ d _ | OpAck _ _ d | OpNack _ _ _ d _ _ | OpDeadLetter _ _ d _ => Some d
  | _ => None
  end.

(** ** Lemmas: identities *)

#[local] Notation eid := AIJobDeliveryEnvelope.DeliveryID.

Lemma delivery_id_plain j o v f : TrimSpace (durableAIJobDeliveryIDParts j o v f) = durableAIJobDeliveryIDParts j o v f.
Proof.
  unfold durableAIJobDeliveryIDParts. destruct (_ || _); [reflexivity|].
  apply TrimSpace_plain, plain_app; [reflexivity|]. apply prefix_plain, hash_plain.
Qed.

Lemma valid_id env : validateAIJobDeliveryEnvelope env = None -> TrimSpace (eid env) = eid env.
Proof.
  unfold validateAIJobDeliveryEnvelope. destruct (_ || _); [done|].
  destruct (eid env =s _) eqn:E; [|done]. apply String.eqb_eq in E. rewrite E. by rewrite delivery_id_plain.
Qed.

(** ** The invariant *)

Record queue_ok (q : queue) : Prop := {
  ok_keyed : map_Forall (fun id e => eid (envelope e) = id /\ validateAIJobDeliveryEnvelope (envelope e) = None)
    (entries q);
  ok_dedupe : forall key id, byDedupe q !! key = Some id <->
    exists e, entries q !! id = Some e /\ dedupeKey e = key;
}.

Lemma ok_id q id e : queue_ok q -> entries q !! id = Some e -> eid (envelope e) = id /\ TrimSpace id = id.
Proof.
  intros Hq He. destruct (ok_keyed _ Hq _ _ He) as [<- Hv]. split; [done|]. by apply valid_id.
Qed.

(** What an operation keeps of an entry. *)
Definition same_identity (e e' : delivery_entry) : Prop :=
  envelope e' = envelope e /\ dedupeKey e' = dedupeKey e /\ sequence e' = sequence e.

Lemma same_identity_refl e : same_identity e e.
Proof. done. Qed.
#[local] Hint Resolve same_identity_refl : core.

(** Replacing entries by entries of the same identity keeps the invariant. *)
Lemma ok_same q q' : queue_ok q -> byDedupe q' = byDedupe q ->
  (forall id, option_Forall2 same_identity (entries q !! id) (entries q' !! id)) -> queue_ok q'.
Proof.
  intros Hq Hd Hs. split.
  - intros id e' He'. specialize (Hs id). rewrite He' in Hs. inversion Hs as [e ? Hi E|]; subst.
    destruct Hi as (-> & _ & _). by apply (ok_keyed _ Hq id).
  - intros key id. rewrite Hd, (ok_dedupe _ Hq). specialize (Hs id). split; intros (e & He & <-); rewrite He in Hs;
      inversion Hs as [? ? Hi|]; subst; destruct Hi as (_ & Hk & _); eauto.
Qed.

Lemma lookup_same q id e' :
  (forall e, entries q !! id = Some e -> same_identity e e') -> is_Some (entries q !! id) ->
  forall k, option_Forall2 same_identity (entries q !! k) (<[id := e']> (entries q) !! k).
Proof.
  intros He [e E] k. destruct (decide (k = id)) as [->|Hne].
  - rewrite lookup_insert_eq, E. constructor. by apply He.
  - rewrite lookup_insert_ne by done. destruct (entries q !! k); constructor; done.
Qed.

Lemma option_refl {A} (R : A -> A -> Prop) (x : option A) : (forall a, R a a) -> option_Forall2 R x x.
Proof. intros HR. destruct x; constructor. apply HR. Qed.

(** ** Lemmas: publication *)

Lemma publish_inv ctxErr now env key at_ q x q' :
  queue_ok q -> Publish ctxErr now env key at_ q = (x, q') ->
  (q' = q /\ (x = Ok tt -> exists e, entries q !! eid env = Some e /\ envelope e = env)) \/
  (x = Ok tt /\ entries q !! eid env = None /\ exists e, entries q' = <[eid env := e]> (entries q) /\
     envelope e = env /\ status e = Pending /\ leaseToken e = ""%string /\
     availableAt e = (if IsZero at_ then now else at_) /\
     notify q' = notify q + 1 /\ deliveryLease q' = deliveryLease q /\ queue_ok q').
Proof.
  intros Hq. unfold Publish.
  destruct ctxErr as [err|]; [intros [= <- <-]; by left|].
  destruct (validateAIJobDeliveryEnvelope env) as [err|] eqn:Ev; [intros [= <- <-]; by left|].
  destruct (_ =s "") eqn:Ek; [intros [= <- <-]; by left|].
  set (k := if TrimSpace key =s "" then _ else _) in *.
  destruct (byDedupe q !! k) as [id|] eqn:Ed.
  { pose proof Ed as Hd. apply (ok_dedupe _ Hq) in Hd as (e & He & _). rewrite He.
    destruct (ok_id q id e Hq He) as [Eid _].
    destruct (bool_decide _) eqn:Eb; cbn; intros [= <- <-]; left; (split; [done|]); [|done].
    intros _. boolify. exists e. split; [|done]. congruence. }
  destruct (entries q !! eid env) as [e|] eqn:He.
  { destruct (bool_decide _) eqn:Eb; cbn; [destruct (dedupeKey e =s k); cbn|]; intros [= <- <-]; left;
      (split; [done|]); [|done|done]. intros _. boolify. eauto. }
  intros [= <- <-]. right. split; [done|]. split; [done|]. eexists. split_and!; [done..|].
  split; cbn.
  - apply map_Forall_insert_2; [done|]. apply (ok_keyed _ Hq).
  - intros key' id. destruct (decide (key' = k)) as [->|Hne].
    + rewrite lookup_insert_eq. split.
      * intros [= <-]. rewrite lookup_insert_eq. eauto.
      * intros (e & He' & Hk). destruct (decide (id = eid env)) as [->|Hid]; [done|].
        rewrite lookup_insert_ne in He' by done.
        assert (byDedupe q !! k = Some id) by (apply (ok_dedupe _ Hq); eauto). congruence.
    + rewrite lookup_insert_ne, (ok_dedupe _ Hq) by done. split; intros (e & He' & Hk); exists e.
      * rewrite lookup_insert_ne; [done|]. intros E. rewrite <- E in He'. congruence.
      * destruct (decide (id = eid env)) as [->|Hid].
        -- rewrite lookup_insert_eq in He'. injection He' as <-. done.
        -- by rewrite lookup_insert_ne in He'.
Qed.

(** ** Lemmas: operations on a leased entry *)

(** A delivery that still leases its entry. *)
Definition leases (now : time) (d : AIJobDelivery.t) (q : queue) (e : delivery_entry) : Prop :=
  entries q !! TrimSpace (AIJobDelivery.ID d) = Some e /\ status e = Inflight /\
  leaseToken e <> ""%string /\ leaseToken e = AIJobDelivery.LeaseToken d /\ now < leaseUntil e.

Lemma lease_found now d q e : validateLeaseLocked now d q = Ok e <-> leases now d q e.
Proof.
  unfold validateLeaseLocked, leases. destruct (entries q !! _) as [e'|]; [|split; [done|by intros ([=] & _)]].
  split.
  - destruct (_ || _) eqn:E; [done|]. destruct (After _ _) eqn:Ea; cbn; [|done]. intros [= <-].
    boolify. unfold After in Ea. boolify. done.
  - intros ([= ->] & Hs & Hne & Ht & Hn).
    rewrite bool_decide_eq_true_2, (proj2 (String.eqb_neq _ _) Hne), Ht, String.eqb_refl by done.
    cbn. unfold After. by rewrite (proj2 (Z.ltb_lt _ _)).
Qed.

Lemma update_inv ctxErr now d f q x q' :
  update_leased ctxErr now d f q = (x, q') ->
  (q' = q /\ x <> Ok tt) \/
  (ctxErr = None /\ x = Ok tt /\ exists e, leases now d q e /\
     q' = store_entry (TrimSpace (AIJobDelivery.ID d)) (f e) q).
Proof.
  unfold update_leased. destruct ctxErr as [err|]; [intros [= <- <-]; by left|].
  destruct (validateLeaseLocked now d q) as [e|err] eqn:E; intros [= <- <-]; [|by left].
  right. split_and!; [done..|]. exists e. split; [|done]. by apply lease_found.
Qed.

#[local] Arguments update_leased : simpl never.

(** What the operations on a leased entry do to it. *)
Inductive lease_change (op : queue_op) (e : delivery_entry) : delivery_entry -> Prop :=
| Change_extend ctxErr now checkedAt d until : op = OpExtend ctxErr now checkedAt d until -> now < until ->
    lease_change op e (e <| leaseUntil := until |>)
| Change_ack ctxErr now d : op = OpAck ctxErr now d -> lease_change op e (unleased (e <| status := Acked |>))
| Change_nack ctxErr now checkedAt d retryAt reason t : op = OpNack ctxErr now checkedAt d retryAt reason ->
    now <= t -> lease_change op e (unleased (e <| status := Pending |> <| availableAt := t |>
      <| lastError := TrimSpace reason |>))
| Change_dead ctxErr now d reason : op = OpDeadLetter ctxErr now d reason ->
    lease_change op e (unleased (e <| status := Dead |> <| lastError := TrimSpace reason |>)).

Lemma change_identity op e e' : lease_change op e e' -> same_identity e e'.
Proof. by destruct 1. Qed.

Section Steps.
Context `{range : MapRange}.

(** An operation that presents a delivery changes the entry it leases, at most,
    and wakes the consumers unless it only extends the lease. *)
Lemma exec_presented op d q : presented op = Some d ->
  exec q op = q \/
  exists now e e', leases now d q e /\ lease_change op e e' /\
    entries (exec q op) = <[TrimSpace (AIJobDelivery.ID d) := e']> (entries q) /\
    byDedupe (exec q op) = byDedupe q /\ deliveryLease (exec q op) = deliveryLease q /\
    (notify (exec q op) = notify q /\ status e' = Inflight \/ notify (exec q op) = notify q + 1).
Proof.
  destruct op as [| |ctxErr now checkedAt d' until|ctxErr now d'|ctxErr now checkedAt d' retryAt reason
    |ctxErr now d' reason]; try done; cbn; intros [= ->].
  - unfold Extend. destruct ctxErr as [err|]; [by left|]. destruct (After until now) eqn:Ea; cbn; [|by left].
    destruct (update_leased None _ _ _ _) as [x q'] eqn:E.
    apply update_inv in E as [[-> _]|(_ & -> & e & He & ->)]; [by left|right].
    exists checkedAt, e, (e <| leaseUntil := until |>). split_and!; [done| |done..|].
    + unfold After in Ea. boolify. eapply (Change_extend _ _ None now checkedAt d until); done.
    + left. split; [done|]. by destruct He as (_ & ? & _).
  - unfold Ack. destruct (update_leased ctxErr _ _ _ _) as [x q'] eqn:E.
    apply update_inv in E as [[-> Hx]|(_ & -> & e & He & ->)].
    { left. by destruct x as [[]|]. }
    right. exists now, e. eexists. split_and!; [done|by apply (Change_ack _ _ ctxErr now d)|done..|by right].
  - unfold Nack. destruct (update_leased ctxErr _ _ _ _) as [x q'] eqn:E.
    apply update_inv in E as [[-> Hx]|(_ & -> & e & He & ->)].
    { left. by destruct x as [[]|]. }
    right. exists checkedAt, e. eexists. split_and!; [done| |done..|by right].
    eapply (Change_nack _ _ ctxErr now checkedAt d retryAt reason); [done|].
    destruct (IsZero retryAt || Before retryAt now) eqn:Eb; [lia|]. unfold Before in Eb. boolify. lia.
  - unfold DeadLetter. destruct (update_leased ctxErr _ _ _ _) as [x q'] eqn:E.
    apply update_inv in E as [[-> Hx]|(_ & -> & e & He & ->)].
    { left. by destruct x as [[]|]. }
    right. exists now, e. eexists. split_and!; [done|by apply (Change_dead _ _ ctxErr now d reason)|done..|by right].
Qed.
End Steps.

(** ** Lemmas: a round of [Receive] *)

#[local] Notation did := AIJobDelivery.ID.
#[local] Notation key_of := (fun e => eid (envelope e)).

Lemma reclaimed_identity now e : same_identity e (reclaimed now e).
Proof. unfold reclaimed. by destruct (expired now e). Qed.

Lemma reclaimed_idem now e : reclaimed now (reclaimed now e) = reclaimed now e.
Proof. unfold reclaimed at 2 3. destruct (expired now e) eqn:E; [done|]. unfold reclaimed. by rewrite E. Qed.

Lemma store_entries l q :
  foldl (fun q e => store_entry (eid (envelope e)) e q) q l =
  q <| entries := foldl (fun m e => <[key_of e := e]> m) (entries q) l |>.
Proof. revert q. induction l as [|e l IH]; intros q; cbn; [by destruct q|]. rewrite IH. by destruct q. Qed.

Section Rounds.
Context `{range : MapRange}.

Lemma reclaim_fields now q :
  entries (reclaimExpiredLocked now q) = reclaimed now <$> entries q /\
  byDedupe (reclaimExpiredLocked now q) = byDedupe q /\
  deliveryLease (reclaimExpiredLocked now q) = deliveryLease q /\
  notify q <= notify (reclaimExpiredLocked now q) /\
  (notify (reclaimExpiredLocked now q) = notify q -> entries (reclaimExpiredLocked now q) = entries q).
Proof.
  unfold reclaimExpiredLocked. destruct (find_value _ _) eqn:E; cbn; split_and!; try done; try lia.
  intros _. apply map_eq. intros id. rewrite lookup_fmap. destruct (entries q !! id) as [e|] eqn:He; [|done].
  cbn. unfold reclaimed. by rewrite (proj1 (find_value_None _ _) E id e He).
Qed.

Lemma round_inv now c n tokens q out q' :
  queue_ok q -> receive_round now c n tokens q = (out, q') ->
  byDedupe q' = byDedupe q /\ deliveryLease q' = deliveryLease q /\
  notify q' = notify (reclaimExpiredLocked now q) /\ NoDup (did <$> out) /\
  (forall d, d ∈ out -> exists e token, entries q !! did d = Some e /\ is_ready now (reclaimed now e) = true /\
     let e' := leased_entry now (deliveryLease q) c token (reclaimed now e) in
     entries q' !! did d = Some e' /\ d = delivery_of e') /\
  (forall id, id ∉ did <$> out -> entries q' !! id = reclaimed now <$> entries q !! id).
Proof.
  intros Hq. unfold receive_round. destruct (reclaim_fields now q) as (R1 & R2 & R3 & _ & _).
  set (q0 := reclaimExpiredLocked now q) in *.
  assert (Hk : keyed key_of (entries q0)).
  { intros id e. rewrite R1, lookup_fmap. intros (e0 & He & ->)%fmap_Some.
    destruct (reclaimed_identity now e0) as [-> _]. by destruct (ok_id q id e0 Hq He). }
  unfold readyEntriesLocked. fold (picked (is_ready now) ready_less n (entries q0)).
  set (ready := picked _ _ _ _). set (leased := imap _ ready). rewrite store_entries.
  intros [= <- <-]. cbn.
  assert (Hids : key_of <$> leased = key_of <$> ready).
  { unfold leased. rewrite fmap_imap. rewrite (imap_ext _ (fun _ => key_of)); [|done]. apply imap_const. }
  assert (Hdid : did <$> (delivery_of <$> leased) = key_of <$> leased).
  { rewrite <- list_fmap_compose. by apply list_fmap_ext. }
  assert (Hnd : NoDup (key_of <$> leased)) by (rewrite Hids; by apply picked_NoDup).
  destruct (foldl_store key_of leased (entries q0) Hnd) as [Hin Hout].
  rewrite Hdid. split_and!; [done..| |].
  - intros d (e' & -> & He')%list_elem_of_fmap. pose proof (Hin e' He') as Hstored.
    apply list_elem_of_lookup in He' as [i Hi]. unfold leased in Hi. rewrite list_lookup_imap in Hi.
    apply fmap_Some in Hi as (e0 & He0 & ->).
    assert (Hm : e0 ∈ ready) by by eapply list_elem_of_lookup_2.
    apply (elem_of_picked key_of) in Hm as [Hm Hr]; [|done].
    rewrite R1, lookup_fmap in Hm. apply fmap_Some in Hm as (e & He & ->).
    exists e, (tokens i). cbn in *. rewrite R3 in *. split_and!; done.
  - intros id Hid. rewrite Hout by done. by rewrite R1, lookup_fmap.
Qed.

(** A round gives a ready entry to the consumer, or as many others as were asked
    for, none of which comes after it. *)
Definition ready_compare : delivery_entry -> delivery_entry -> comparison :=
  cmp_then (cmp_on availableAt Z.compare) (cmp_on sequence Z.compare).

Lemma ready_less_compare i j : ready_less i j = is_lt (ready_compare i j).
Proof.
  unfold ready_less, ready_compare, cmp_then, cmp_on, Before, Z.ltb.
  destruct (Z.compare_spec (availableAt i) (availableAt j)) as [E|E|E].
  - rewrite (proj2 (Z.eqb_eq _ _) E). cbn. by destruct (_ ?= _).
  - rewrite (proj2 (Z.eqb_neq _ _)) by lia. done.
  - rewrite (proj2 (Z.eqb_neq _ _)) by lia. done.
Qed.

Lemma round_complete now c n tokens q out q' id e :
  queue_ok q -> 0 <= n -> receive_round now c n tokens q = (out, q') ->
  entries q !! id = Some e -> is_ready now (reclaimed now e) = true ->
  id ∈ did <$> out \/
  (Z.of_nat (length out) = n /\ forall d e0, d ∈ out -> entries q !! did d = Some e0 ->
     not_after ready_compare (reclaimed now e0) (reclaimed now e)).
Proof.
  intros Hq Hn Hr He Hready. pose proof (round_inv _ _ _ _ _ _ _ Hq Hr) as (_ & _ & _ & _ & Hin & _).
  unfold receive_round in Hr. destruct (reclaim_fields now q) as (R1 & _).
  set (q0 := reclaimExpiredLocked now q) in *. injection Hr as Hout _.
  unfold readyEntriesLocked in Hout.
  rewrite (sort_by_ext _ _ _ ready_less_compare) in Hout.
  fold (picked (is_ready now) (fun x y => is_lt (ready_compare x y)) n (entries q0)) in Hout.
  set (ready := picked _ _ _ _) in *.
  assert (He0 : entries q0 !! id = Some (reclaimed now e)) by (rewrite R1, lookup_fmap, He; done).
  destruct (picked_complete (is_ready now) ready_compare n (entries q0) id (reclaimed now e) Hn He0 Hready)
    as [Hp|[Hlen Hp]]; fold ready in Hp; subst out.
  - left. apply list_elem_of_lookup in Hp as [i Hi].
    apply list_elem_of_lookup. exists i. rewrite !list_lookup_fmap, list_lookup_imap, Hi. cbn.
    destruct (reclaimed_identity now e) as [-> _]. by destruct (ok_id q id e Hq He) as [-> _].
  - right. fold ready in Hlen. rewrite length_fmap, length_imap. split; [done|].
    intros d e0 Hd He0'. apply Hp. apply list_elem_of_fmap in Hd as (e' & -> & He').
    apply list_elem_of_lookup in He' as [i Hi]. rewrite list_lookup_imap in Hi.
    apply fmap_Some in Hi as (e1 & Hi & ->). assert (Hm : e1 ∈ ready) by by eapply list_elem_of_lookup_2.
    assert (Hk : keyed key_of (entries q0)).
    { intros k x. rewrite R1, lookup_fmap. intros (x0 & Hx & ->)%fmap_Some.
      destruct (reclaimed_identity now x0) as [-> _]. by destruct (ok_id q k x0 Hq Hx). }
    apply (elem_of_picked key_of) in Hm as Hm'; [|done]. destruct Hm' as [Hm' _].
    rewrite R1, lookup_fmap in Hm'. apply fmap_Some in Hm' as (e2 & He2 & ->).
    cbn in He0'. by rewrite He2 in He0'; injection He0' as <-.
Qed.
End Rounds.

(** ** Lemmas: steps and runs *)

Lemma receive_inv `{range : MapRange} ctxErr now c n remaining tokens q x q' :
  Receive ctxErr now c n remaining tokens q = (x, q') ->
  (q' = q /\ (forall out, x = Ok (Delivered out) -> out = []) /\ forall w ch, x <> Ok (WaitFor w ch)) \/
  (ctxErr = None /\ TrimSpace c <> ""%string /\ 0 < n /\ exists out,
     receive_round now (TrimSpace c) n tokens q = (out, q') /\
     (x = Ok (Delivered out) \/
      out = [] /\ exists w, x = Ok (WaitFor w (notify q')) /\
        (nextWakeLocked now q' = 0 \/ w <= TimeSub (nextWakeLocked now q') now))).
Proof.
  unfold Receive. destruct (_ || _) eqn:E; [intros [= <- <-]; left; split_and!; [done|by intros out [=]|done]|].
  boolify. destruct ctxErr as [err|]; [intros [= <- <-]; by left|].
  destruct (receive_round _ _ _ _ _) as [out q1] eqn:Er. intros Heq. right. split_and!; [done..|].
  exists out. revert Heq. destruct out as [|d out].
  - destruct remaining as [w|]; [destruct (w <=? 0)|]; intros [= <- <-]; (split; [done|]); [by left| |by left].
    right. split; [done|]. eexists. split; [reflexivity|]. unfold IsZero.
    destruct (Z.eqb_spec (nextWakeLocked now q1) 0); cbn; [by left|right].
    destruct (Z.ltb_spec (TimeSub (nextWakeLocked now q1) now) w); lia.
  - intros [= <- <-]. split; [done|by left].
Qed.

Lemma receive_runs `{range : MapRange} t c n remaining tokens q :
  TrimSpace c <> ""%string -> 0 < n ->
  let r := receive_round t (TrimSpace c) n tokens q in
  exists x, Receive None t c n remaining tokens q = (x, r.2) /\ (r.1 <> [] -> x = Ok (Delivered r.1)).
Proof.
  intros Hc Hn. cbv zeta. unfold Receive. rewrite (proj2 (String.eqb_neq _ _) Hc), (proj2 (Z.leb_gt _ _)) by done.
  cbv iota beta delta [orb]. destruct (receive_round t (TrimSpace c) n tokens q) as [[|d out] q']; cbn [fst snd]; [|by eexists].
  destruct remaining as [w|]; [destruct (w <=? 0)|]; by eexists.
Qed.

(** What an operation does to an entry: nothing, reclaim it, lease it out, or
    what the holder of its lease asks for. *)
Inductive entry_step (q : queue) (op : queue_op) (id : string) (e : delivery_entry) : delivery_entry -> Prop :=
| Step_same : entry_step q op id e e
| Step_reclaimed ctxErr now c n remaining tokens : op = OpReceive ctxErr now c n remaining tokens ->
    entry_step q op id e (reclaimed now e)
| Step_leased ctxErr now c n remaining tokens c' token : op = OpReceive ctxErr now c n remaining tokens ->
    is_ready now (reclaimed now e) = true ->
    entry_step q op id e (leased_entry now (deliveryLease q) c' token (reclaimed now e))
| Step_presented d e' : presented op = Some d -> TrimSpace (did d) = id -> status e = Inflight ->
    leaseToken e = AIJobDelivery.LeaseToken d -> lease_change op e e' -> entry_step q op id e e'.

Lemma step_identity q op id e e' : entry_step q op id e e' -> same_identity e e'.
Proof.
  destruct 1; [done|apply reclaimed_identity|apply (reclaimed_identity now e)|by eapply change_identity].
Qed.

Section Reachable.
Context `{range : MapRange}.

Lemma exec_entry q op id e :
  queue_ok q -> entries q !! id = Some e ->
  exists e', entries (exec q op) !! id = Some e' /\ entry_step q op id e e'.
Proof.
  intros Hq He. destruct (presented op) as [d|] eqn:Ep.
  - destruct (exec_presented op d q Ep) as [->|(now & e0 & e' & Hl & Hc & Hent & _)].
    { exists e. split; [done|constructor]. }
    rewrite Hent. destruct (decide (id = TrimSpace (did d))) as [->|Hne].
    + destruct Hl as (He0 & Hs & _ & Ht & _). rewrite He in He0. injection He0 as <-.
      exists e'. rewrite lookup_insert_eq. split; [done|]. by eapply Step_presented.
    + exists e. rewrite lookup_insert_ne by done. split; [done|constructor].
  - destruct op as [ctxErr now env key at_|ctxErr now c n remaining tokens| | | |]; try done; cbn.
    + destruct (Publish _ _ _ _ _ _) as [x q'] eqn:E. cbn.
      apply publish_inv in E as [[-> _]|(_ & Hnone & e0 & -> & _)]; [|rewrite lookup_insert_ne by congruence|done];
        (exists e; split; [done|constructor]).
    + destruct (Receive _ _ _ _ _ _ _) as [x q'] eqn:E. cbn.
      apply receive_inv in E as [[-> _]|(_ & _ & _ & out & Hr & _)]; [exists e; split; [done|constructor]|].
      apply round_inv in Hr as (_ & _ & _ & _ & Hin & Hout); [|done].
      destruct (decide (id ∈ did <$> out)) as [Hid|Hid].
      * apply list_elem_of_fmap in Hid as (d & -> & Hd). apply Hin in Hd as (e0 & token & He0 & Hready & He' & _).
        rewrite He in He0. injection He0 as <-. eexists. split; [exact He'|]. by eapply Step_leased.
      * rewrite Hout, He by done. eexists. split; [done|]. by eapply Step_reclaimed.
Qed.

Lemma exec_dedupe q op : queue_ok q -> (forall env now ctx key at_, op <> OpPublish ctx now env key at_) ->
  byDedupe (exec q op) = byDedupe q /\ forall id, entries q !! id = None -> entries (exec q op) !! id = None.
Proof.
  intros Hq Hop. destruct (presented op) as [d|] eqn:Ep.
  - destruct (exec_presented op d q Ep) as [->|(now & e0 & e' & (Hl & _) & Hc & Hent & Hd & _)]; [done|].
    split; [done|]. intros id Hid. rewrite Hent, lookup_insert_ne; [done|]. congruence.
  - destruct op as [? ? ? ? ?|ctxErr now c n remaining tokens| | | |]; try done; [by edestruct Hop|]. cbn.
    destruct (Receive _ _ _ _ _ _ _) as [x q'] eqn:E. cbn.
    apply receive_inv in E as [[-> _]|(_ & _ & _ & out & Hr & _)]; [done|].
    apply round_inv in Hr as (Hd & _ & _ & _ & Hin & Hout); [|done]. split; [done|].
    intros id Hid. rewrite Hout, Hid; [done|]. intros (d & -> & Hm)%list_elem_of_fmap.
    apply Hin in Hm as (? & ? & ? & _). congruence.
Qed.

Lemma queue_exec_ok q op : queue_ok q -> queue_ok (exec q op).
Proof.
  intros Hq. destruct op as [ctxErr now env key at_|ctxErr now c n remaining tokens|ctxErr now ch d until
    |ctxErr now d|ctxErr now ch d retryAt reason|ctxErr now d reason] eqn:Eop.
  1: { cbn. destruct (Publish _ _ _ _ _ _) as [x q'] eqn:E. cbn.
       by apply publish_inv in E as [[-> _]|(_ & _ & e0 & _ & _ & _ & _ & _ & _ & _ & ?)]. }
  all: rewrite <- Eop; destruct (exec_dedupe q op Hq) as [Hd Hnone]; [by subst|];
    apply (ok_same q); [done..|]; intros id; destruct (entries q !! id) as [e|] eqn:He;
    [destruct (exec_entry q op id e Hq He) as (e' & -> & Hs); constructor; by eapply step_identity
    |rewrite (Hnone id He); constructor].
Qed.

Lemma run_ok q ops : queue_ok q -> queue_ok (run q ops).
Proof. revert q. induction ops as [|op ops IH]; intros q Hq; [done|]. by apply IH, queue_exec_ok. Qed.

Lemma new_ok lease q : NewMemoryAIJobDeliveryQueue lease = Ok q -> queue_ok q.
Proof.
  unfold NewMemoryAIJobDeliveryQueue. destruct (_ <=? 0); intros [= <-]. split; cbn; [apply map_Forall_empty|].
  intros key id. rewrite lookup_empty. split; [done|]. intros (e & He & _). by rewrite lookup_empty in He.
Qed.

(** A fact about an entry that every step keeps holds after a run. *)
Lemma run_entry (P : delivery_entry -> Prop) (ok : queue_op -> Prop) q ops id e :
  queue_ok q -> entries q !! id = Some e -> P e -> Forall ok ops ->
  (forall q op e e', ok op -> P e -> entry_step q op id e e' -> P e') ->
  exists e', entries (run q ops) !! id = Some e' /\ same_identity e e' /\ P e'.
Proof.
  intros Hq He HP Hops Hstep. revert q e Hq He HP.
  induction Hops as [|op ops Hop _ IH]; intros q e Hq He HP; cbn; [eauto|].
  destruct (exec_entry q op id e Hq He) as (e1 & He1 & Hs).
  destruct (IH (exec q op) e1) as (e' & He' & Hi & HP'); [by apply queue_exec_ok|done|by eapply Hstep|].
  exists e'. split_and!; [done| |done]. apply step_identity in Hs.
  destruct Hs as (? & ? & ?), Hi as (? & ? & ?). split_and!; congruence.
Qed.
End Reachable.

(** ** Specification *)

(** What others do while a delivery is leased: receive before the lease ends, and
    anything with other deliveries. *)
Definition foreign (d : AIJobDelivery.t) (op : queue_op) : Prop :=
  match op, presented op with
  | OpReceive _ now _ _ _ _, _ => now < AIJobDelivery.LeaseUntil d
  | _, Some d' => TrimSpace (did d') <> did d \/ AIJobDelivery.LeaseToken d' <> AIJobDelivery.LeaseToken d
  | _, None => True
  end.

(** An operation that ends the life of the delivery [id]. *)
Definition settles (id : string) (op : queue_op) : Prop :=
  match op with OpAck _ _ d | OpDeadLetter _ _ d _ => TrimSpace (did d) = id | _ => False end.
Definition unsettled (e : delivery_entry) : Prop := status e = Pending \/ status e = Inflight.

(** What may happen while a consumer sleeps until [wake] (0: for as long as it
    likes): others receive before that instant, and leases are extended past it. *)
Definition before_wake (wake : time) (op : queue_op) : Prop :=
  match op with
  | OpReceive _ now _ _ _ _ => wake = 0 \/ now < wake
  | OpExtend _ _ _ _ until => wake = 0 \/ wake <= until
  | _ => True
  end.
Definition sleeps (wake : time) (e : delivery_entry) : Prop :=
  unsettled e -> wake <> 0 /\ wake <= wake_candidate e.

(** ** Lemmas: leases *)

Definition held (d : AIJobDelivery.t) (e : delivery_entry) : Prop :=
  status e = Inflight /\ leaseToken e = AIJobDelivery.LeaseToken d /\ leaseUntil e = AIJobDelivery.LeaseUntil d.
Definition final (e : delivery_entry) : Prop := status e = Acked \/ status e = Dead.

Lemma inflight_kept now e : status e = Inflight -> now < leaseUntil e ->
  reclaimed now e = e /\ is_ready now (reclaimed now e) = false.
Proof.
  intros Hs Hn. assert (E : reclaimed now e = e).
  { unfold reclaimed, expired, After. by rewrite (proj2 (Z.ltb_lt _ _)), andb_false_r. }
  rewrite E. split; [done|]. unfold is_ready. by rewrite bool_decide_eq_false_2 by congruence.
Qed.

Lemma final_kept now e : final e -> reclaimed now e = e /\ is_ready now (reclaimed now e) = false.
Proof.
  intros Hf. assert (E : reclaimed now e = e).
  { unfold reclaimed, expired. rewrite bool_decide_eq_false_2; [done|]. destruct Hf; congruence. }
  rewrite E. split; [done|]. unfold is_ready. rewrite bool_decide_eq_false_2; [done|]. destruct Hf; congruence.
Qed.

Lemma due_ready t e : unsettled e -> wake_candidate e <= t -> is_ready t (reclaimed t e) = true.
Proof.
  intros Hopen Hdue. unfold is_ready, reclaimed, expired, wake_candidate, After in *.
  destruct Hopen as [Hs|Hs]; rewrite Hs in *.
  - rewrite (bool_decide_eq_false_2 (Pending = Inflight)) by done. cbn.
    rewrite Hs, bool_decide_eq_true_2 by done. cbn. by rewrite (proj2 (Z.ltb_ge _ _)).
  - rewrite (bool_decide_eq_true_2 (Inflight = Inflight)), (proj2 (Z.ltb_ge _ _)) by done. cbn.
    by rewrite (proj2 (Z.ltb_ge _ _)).
Qed.

(** Before the instant it waits for, nothing happens to an entry by itself. *)
Lemma not_due_ready t e : (unsettled e -> t < wake_candidate e) ->
  reclaimed t e = e /\ is_ready t (reclaimed t e) = false.
Proof.
  intros H. destruct (status e) eqn:Hs.
  - specialize (H (or_introl Hs)). unfold wake_candidate in H. rewrite Hs in H.
    assert (E : reclaimed t e = e) by (unfold reclaimed, expired; by rewrite Hs).
    rewrite E. split; [done|]. unfold is_ready, After. by rewrite (proj2 (Z.ltb_lt _ _)), andb_false_r.
  - specialize (H (or_intror Hs)). unfold wake_candidate in H. rewrite Hs in H. by apply inflight_kept.
  - apply final_kept. by left.
  - apply final_kept. by right.
Qed.

Lemma held_step q op id d e e' : foreign d op -> id = did d -> held d e -> entry_step q op id e e' -> held d e'.
Proof.
  intros Hf Hid (Hs & Ht & Hl) Hstep.
  destruct Hstep as [|ctxErr now c n remaining tokens ->|ctxErr now c n remaining tokens c' token -> Hr
    |d' e' Hp Hid' _ Ht' _]; [done|..].
  - cbn in Hf. destruct (inflight_kept now e Hs) as [-> _]; [by rewrite Hl|done].
  - cbn in Hf. destruct (inflight_kept now e Hs) as [_ E]; [by rewrite Hl|congruence].
  - exfalso. unfold foreign in Hf. destruct op; try discriminate Hp; cbn in *; injection Hp as ->;
      destruct Hf; congruence.
Qed.

Lemma final_step q op id e e' : final e -> entry_step q op id e e' -> final e'.
Proof.
  intros Hf Hstep.
  destruct Hstep as [|ctxErr now c n remaining tokens ->|ctxErr now c n remaining tokens c' token -> Hr
    |d' e' Hp Hid' Hs _ _]; [done|..].
  - by destruct (final_kept now e Hf) as [-> _].
  - destruct (final_kept now e Hf) as [_ E]. congruence.
  - exfalso. destruct Hf; congruence.
Qed.

Lemma open_step q op id e e' :
  ~ settles id op -> unsettled e -> entry_step q op id e e' -> unsettled e'.
Proof.
  intros Hop He Hstep. unfold unsettled in *.
  destruct Hstep as [|ctxErr now c n remaining tokens ->|ctxErr now c n remaining tokens c' token -> Hr
    |d' e' Hp Hid' Hs _ Hc]; [done|..].
  - unfold reclaimed. destruct (expired now e); [by left|done].
  - by right.
  - destruct Hc as [? ? ? d until -> _|? ? d ->|? ? ? d ? ? t -> _|? ? d ? ->]; cbn in *; simplify_eq; auto.
Qed.

Section Properties.
Context `{range : MapRange}.

Lemma not_delivered ctxErr now c n remaining tokens q out q' id e :
  queue_ok q -> entries q !! id = Some e -> is_ready now (reclaimed now e) = false ->
  Receive ctxErr now c n remaining tokens q = (Ok (Delivered out), q') -> id ∉ did <$> out.
Proof.
  intros Hq He Hno Hr Hin. apply receive_inv in Hr as [(_ & Hout & _)|(_ & _ & _ & out' & Hr & Hx)].
  { rewrite (Hout out eq_refl) in Hin. by apply elem_of_nil in Hin. }
  destruct Hx as [[= ->]|(_ & w & [=] & _)].
  apply list_elem_of_fmap in Hin as (d & -> & Hd).
  apply round_inv in Hr as (_ & _ & _ & _ & Hin & _); [|done].
  apply Hin in Hd as (e0 & token & He0 & Hr & _). congruence.
Qed.

Lemma exec_new q op id e : queue_ok q -> entries q !! id = None -> entries (exec q op) !! id = Some e ->
  status e = Pending.
Proof.
  intros Hq Hn He. destruct op as [ctxErr now env key at_| | | | |] eqn:Eop.
  1: { cbn in He. destruct (Publish _ _ _ _ _ _) as [x q'] eqn:E. cbn in He.
       apply publish_inv in E as [[-> _]|(_ & _ & e0 & Hent & _ & Hs & _)]; [congruence| |done].
       rewrite Hent in He. destruct (decide (id = eid env)) as [->|Hne].
       - rewrite lookup_insert_eq in He. congruence.
       - rewrite lookup_insert_ne in He; congruence. }
  all: rewrite <- Eop in He; destruct (exec_dedupe q op Hq) as [_ H]; [by subst|]; by rewrite (H id Hn) in He.
Qed.

(** While nobody settles a delivery it stays open. *)
Lemma run_open q ops id e : queue_ok q -> Forall (fun op => ~ settles id op) ops ->
  (forall e0, entries q !! id = Some e0 -> unsettled e0) ->
  entries (run q ops) !! id = Some e -> unsettled e.
Proof.
  intros Hq Hops. revert q Hq. induction Hops as [|op ops Hop _ IH]; intros q Hq Hopen; cbn; [apply Hopen|].
  apply IH; [by apply queue_exec_ok|]. intros e1 He1. destruct (entries q !! id) as [e0|] eqn:He0.
  - destruct (exec_entry q op id e0 Hq He0) as (e' & He' & Hs). rewrite He1 in He'. injection He' as <-.
    eapply open_step; [done| |done]. by apply Hopen.
  - left. by eapply exec_new.
Qed.

(** What a consumer gets from [Receive]: a lease on the entry of its delivery. *)
Lemma received_held ctxErr now c n remaining tokens q out q1 d :
  queue_ok q -> Receive ctxErr now c n remaining tokens q = (Ok (Delivered out), q1) -> d ∈ out ->
  queue_ok q1 /\ TrimSpace (did d) = did d /\ AIJobDelivery.LeaseToken d <> ""%string /\
  exists e, entries q1 !! did d = Some e /\ held d e /\ envelope e = AIJobDelivery.Envelope d.
Proof.
  intros Hq Hr Hin. assert (Hq1 : queue_ok q1).
  { pose proof (queue_exec_ok _ (OpReceive ctxErr now c n remaining tokens) Hq) as H. cbn in H. by rewrite Hr in H. }
  apply receive_inv in Hr as [(_ & Hout & _)|(_ & _ & _ & out' & Hr & Hx)].
  { rewrite (Hout out eq_refl) in Hin. by apply elem_of_nil in Hin. }
  destruct Hx as [[= ->]|(_ & w & [=] & _)].
  apply round_inv in Hr as (_ & _ & _ & _ & Hd & _); [|done].
  destruct (Hd d Hin) as (e0 & token & He0 & _ & He & Ed).
  destruct (ok_id q1 _ _ Hq1 He) as [_ Hid]. split_and!; [done|done|by rewrite Ed|].
  eexists. split; [exact He|]. by rewrite Ed.
Qed.

Lemma ack_held t d q e :
  queue_ok q -> entries q !! did d = Some e -> held d e -> TrimSpace (did d) = did d ->
  AIJobDelivery.LeaseToken d <> ""%string -> t < AIJobDelivery.LeaseUntil d ->
  exists q' e', Ack None t d q = (Ok tt, q') /\ queue_ok q' /\ entries q' !! did d = Some e' /\ final e'.
Proof.
  intros Hq He (Hs & Ht & Hl) Hid Hne Hlt. pose proof (queue_exec_ok q (OpAck None t d) Hq) as Hok. cbn in Hok.
  assert (E : validateLeaseLocked t d q = Ok e).
  { apply lease_found. unfold leases. rewrite Hid. split_and!; try done; [congruence|]. by rewrite Hl. }
  unfold Ack, update_leased in *. rewrite E in *. do 2 eexists. split; [reflexivity|]. split; [exact Hok|].
  rewrite Hid. split; [apply lookup_insert_eq|]. by left.
Qed.

Lemma final_never_delivered ctxErr now c n remaining tokens q ops id e out q' :
  queue_ok q -> entries q !! id = Some e -> final e ->
  Receive ctxErr now c n remaining tokens (run q ops) = (Ok (Delivered out), q') -> id ∉ did <$> out.
Proof.
  intros Hq He Hf Hr.
  destruct (run_entry final (fun _ => True) q ops id e) as (e' & He' & _ & Hf'); [done..|by apply Forall_true| |].
  { intros q0 op e1 e2 _ H1 Hstep. by eapply final_step. }
  eapply not_delivered; [by apply run_ok|done| |done]. by apply final_kept.
Qed.

(** ** Properties *)

(** C21. A delivery has one consumer at a time and is done once it is
    acknowledged: until its lease ends, whatever the others do, no consumer
    receives it again, its holder can acknowledge it, and after that nobody ever
    receives it. *)
Theorem delivery_exclusive lease q0 ops ctxErr now c n remaining tokens out q1 d ops' :
  NewMemoryAIJobDeliveryQueue lease = Ok q0 ->
  Receive ctxErr now c n remaining tokens (run q0 ops) = (Ok (Delivered out), q1) -> d ∈ out ->
  Forall (foreign d) ops' ->
  (forall ctxErr' t c' n' remaining' tokens' out' q3, t < AIJobDelivery.LeaseUntil d ->
     Receive ctxErr' t c' n' remaining' tokens' (run q1 ops') = (Ok (Delivered out'), q3) ->
     did d ∉ did <$> out') /\
  (forall t, t < AIJobDelivery.LeaseUntil d -> exists q3,
     Ack None t d (run q1 ops') = (Ok tt, q3) /\
     forall ops'' ctxErr' t' c' n' remaining' tokens' out' q4,
       Receive ctxErr' t' c' n' remaining' tokens' (run q3 ops'') = (Ok (Delivered out'), q4) ->
       did d ∉ did <$> out').
Proof.
  intros Hnew Hr Hin Hops. assert (Hq : queue_ok (run q0 ops)) by (apply run_ok; by eapply new_ok).
  destruct (received_held _ _ _ _ _ _ _ _ _ _ Hq Hr Hin) as (Hq1 & Hid & Hne & e & He & Hheld & _).
  destruct (run_entry (held d) (foreign d) q1 ops' (did d) e) as (e2 & He2 & _ & Hheld2); [done..| |].
  { intros q op e1 e' Hf H1 Hstep. exact (held_step q op _ d e1 e' Hf eq_refl H1 Hstep). }
  assert (Hq2 : queue_ok (run q1 ops')) by by apply run_ok. split.
  - intros ctxErr' t c' n' remaining' tokens' out' q3 Hlt Hr'.
    eapply not_delivered; [done|done| |done]. destruct Hheld2 as (Hs & _ & Hl).
    apply inflight_kept; [done|by rewrite Hl].
  - intros t Hlt. destruct (ack_held t d _ e2 Hq2 He2 Hheld2 Hid Hne Hlt) as (q3 & e3 & Ha & Hq3 & He3 & Hf).
    exists q3. split; [done|]. intros. by eapply (final_never_delivered _ _ _ _ _ _ q3).
Qed.

(** C22. Nothing published is lost: once [Publish] has accepted an envelope, by
    then or before, and as long as nobody acknowledges or dead-letters it, there
    is an instant from which on every [Receive] returns it, or as many other
    deliveries as were asked for, none of which comes after it. *)
Theorem at_least_once lease q0 ops ctxErr now env key at_ q1 ops' :
  NewMemoryAIJobDeliveryQueue lease = Ok q0 ->
  Publish ctxErr now env key at_ (run q0 ops) = (Ok tt, q1) ->
  Forall (fun op => ~ settles (eid env) op) (ops ++ ops') ->
  exists due, forall t c n remaining tokens x q3, due <= t -> TrimSpace c <> ""%string -> 0 < n ->
    Receive None t c n remaining tokens (run q1 ops') = (x, q3) ->
    exists out, x = Ok (Delivered out) /\
      ((exists d, d ∈ out /\ AIJobDelivery.Envelope d = env) \/
       (Z.of_nat (length out) = n /\ forall d e e0, d ∈ out ->
          entries (run q1 ops') !! eid env = Some e -> entries (run q1 ops') !! did d = Some e0 ->
          not_after ready_compare (reclaimed t e0) (reclaimed t e))).
Proof.
  intros Hnew Hp [Hops Hops']%Forall_app. assert (Hq : queue_ok (run q0 ops)) by (apply run_ok; by eapply new_ok).
  pose proof (queue_exec_ok _ (OpPublish ctxErr now env key at_) Hq) as Hq1. cbn in Hq1. rewrite Hp in Hq1. cbn in Hq1.
  assert (H1 : exists e, entries q1 !! eid env = Some e /\ envelope e = env /\ unsettled e).
  { apply publish_inv in Hp as [[-> He]|(_ & _ & e & -> & Ee & Hs & _)]; [| |done].
    - destruct (He eq_refl) as (e & He' & Ee). exists e. split_and!; [done..|].
      eapply (run_open q0 ops (eid env)); [by eapply new_ok|done| |done].
      revert Hnew. unfold NewMemoryAIJobDeliveryQueue. destruct (_ <=? 0); intros [= <-] e0. cbn.
      by rewrite lookup_empty.
    - exists e. rewrite lookup_insert_eq. split_and!; [done..|]. by left. }
  destruct H1 as (e1 & He1 & Ee1 & Hopen1).
  destruct (run_entry unsettled (fun op => ~ settles (eid env) op) q1 ops' (eid env) e1)
    as (e & He & (Hi & _) & Hopen); [done..| |].
  { intros q op e' e'' Hop H1 Hstep. by eapply open_step. }
  exists (wake_candidate e). intros t c n remaining tokens x q3 Hdue Hc Hn Hr.
  pose proof (due_ready t e Hopen Hdue) as Hready.
  destruct (receive_runs t c n remaining tokens (run q1 ops') Hc Hn) as (x' & Hr' & Hx).
  rewrite Hr in Hr'. injection Hr' as <- ->. assert (Hq2 : queue_ok (run q1 ops')) by by apply run_ok.
  destruct (receive_round t (TrimSpace c) n tokens (run q1 ops')) as [out q2] eqn:Hround. cbn [fst snd] in *. exists out.
  pose proof (round_complete _ _ _ _ _ _ _ _ _ Hq2 (Z.lt_le_incl _ _ Hn) Hround He Hready) as Hcases.
  split.
  { apply Hx. intros ->. destruct Hcases as [Hin|[Hlen _]]; [by apply elem_of_nil in Hin|cbn in Hlen; lia]. }
  destruct Hcases as [Hin|[Hlen Hafter]]; [left|right].
  - apply list_elem_of_fmap in Hin as (d & Eid & Hd). exists d. split; [done|].
    apply round_inv in Hround as (_ & _ & _ & _ & Hin & _); [|done].
    destruct (Hin d Hd) as (e0 & token & He0 & _ & _ & ->). rewrite Eid in He. rewrite He0 in He.
    injection He as ->. destruct (reclaimed_identity t e) as [E _]. cbn. congruence.
  - split; [done|]. intros d e' e0 Hd He' He0. rewrite He in He'. injection He' as <-. by apply (Hafter d).
Qed.

(** *** Waiting *)

Lemma wake_spec now l acc : 0 <= now -> acc = 0 \/ now < acc ->
  let w := foldl (next_wake now) acc l in
  (w = 0 \/ now < w) /\ (acc <> 0 -> w <> 0 /\ w <= acc) /\
  forall e, e ∈ l -> now < wake_candidate e -> w <> 0 /\ w <= wake_candidate e.
Proof.
  cbv zeta. intros Hnow. revert acc. induction l as [|e l IH]; intros acc Hacc; cbn.
  { split_and!; [done|done|]. by intros e ?%elem_of_nil. }
  assert (Hn : (next_wake now acc e = 0 \/ now < next_wake now acc e) /\
    (acc <> 0 -> next_wake now acc e <> 0 /\ next_wake now acc e <= acc) /\
    (now < wake_candidate e -> next_wake now acc e <> 0 /\ next_wake now acc e <= wake_candidate e)).
  { unfold next_wake, After, Before, IsZero. destruct (Z.ltb_spec now (wake_candidate e)); cbn; [|lia].
    destruct (Z.eqb_spec acc 0), (Z.ltb_spec (wake_candidate e) acc); cbn; lia. }
  destruct Hn as (H1 & H2 & H3). destruct (IH _ H1) as (IH0 & IH1 & IH2). split_and!; [done| |].
  - intros Ha. destruct (H2 Ha). destruct IH1; [done|]. lia.
  - intros e' [->|He']%elem_of_cons Hc; [|by apply IH2]. destruct (H3 Hc). destruct IH1; [done|]. lia.
Qed.

Lemma no_ready t n q : (forall id e, entries q !! id = Some e -> is_ready t (reclaimed t e) = false) ->
  readyEntriesLocked t n (reclaimExpiredLocked t q) = [].
Proof.
  intros H. unfold readyEntriesLocked. destruct (reclaim_fields t q) as (-> & _).
  assert (E : List.filter (is_ready t) (map_values (reclaimed t <$> entries q)) = []).
  { apply elem_of_nil_inv. intros e He%list_elem_of_In. apply filter_In in He as [He Hr].
    apply list_elem_of_In, elem_of_map_values in He as [id He]. rewrite lookup_fmap in He.
    apply fmap_Some in He as (e0 & He0 & ->). by rewrite (H id e0) in Hr. }
  rewrite E. unfold first_n. cbn. rewrite take_nil. by destruct (_ >? _).
Qed.

(** A consumer that is told to wait has seen nothing ready, and is told to wait
    no longer than until the next instant known. *)
Lemma wait_inv now c n remaining tokens q w channel q1 :
  queue_ok q -> 0 <= now -> Receive None now c n remaining tokens q = (Ok (WaitFor w channel), q1) ->
  let wake := nextWakeLocked now q1 in
  queue_ok q1 /\ channel = notify q1 /\ (wake = 0 \/ w <= wake - now) /\
  forall id e, entries q1 !! id = Some e -> sleeps wake e.
Proof.
  intros Hq Hnow Hr. cbv zeta. assert (Hq1 : queue_ok q1).
  { pose proof (queue_exec_ok _ (OpReceive None now c n remaining tokens) Hq) as H. cbn in H. by rewrite Hr in H. }
  apply receive_inv in Hr as [(_ & _ & Hx)|(_ & _ & Hn & out & Hround & [[=]|[-> (w' & [= <- ->] & Hle)]])];
    [by destruct (Hx w channel)|].
  assert (Hfar : forall id e, entries q1 !! id = Some e -> unsettled e -> now < wake_candidate e).
  { intros id e He Hu. destruct (Z.lt_ge_cases now (wake_candidate e)) as [|Hdue]; [done|exfalso].
    pose proof (due_ready now e Hu Hdue) as Hready.
    pose proof (round_inv _ _ _ _ _ _ _ Hq Hround) as (_ & _ & _ & _ & _ & Hout).
    rewrite Hout in He by (by intros ?%elem_of_nil). apply fmap_Some in He as (e0 & He0 & ->).
    rewrite reclaimed_idem in Hready.
    destruct (round_complete _ _ _ _ _ _ _ _ _ Hq (Z.lt_le_incl _ _ Hn) Hround He0 Hready) as [Hin|[Hlen _]];
      [by apply elem_of_nil in Hin|cbn in Hlen; lia]. }
  pose proof (wake_spec now (map_values (entries q1)) 0 Hnow (or_introl eq_refl)) as (Hlt & _ & Hw).
  fold (nextWakeLocked now q1) in Hw, Hlt. split_and!; [done|done| |].
  - destruct Hle as [|Hle]; [by left|]. destruct Hlt as [|Hlt]; [by left|right].
    unfold TimeSub, min_int64 in Hle. lia.
  - intros id e He Hu. apply Hw; [|by eapply Hfar]. apply elem_of_map_values. eauto.
Qed.

Lemma notify_step q op : queue_ok q -> notify q <= notify (exec q op).
Proof.
  intros Hq. destruct (presented op) as [d|] eqn:Ep.
  - destruct (exec_presented op d q Ep) as [->|(now & e & e' & _ & _ & _ & _ & _ & [[-> _]| ->])]; lia.
  - destruct op as [ctxErr now env key at_|ctxErr now c n remaining tokens| | | |]; try done; cbn.
    + destruct (Publish _ _ _ _ _ _) as [x q'] eqn:E. cbn.
      apply publish_inv in E as [[-> _]|(_ & _ & e & _ & _ & _ & _ & _ & -> & _)]; [lia|lia|done].
    + destruct (Receive _ _ _ _ _ _ _) as [x q'] eqn:E. cbn.
      apply receive_inv in E as [[-> _]|(_ & _ & _ & out & Hr & _)]; [lia|].
      apply round_inv in Hr as (_ & _ & -> & _); [|done]. by destruct (reclaim_fields now q) as (_ & _ & _ & ? & _).
Qed.

Lemma notify_run q ops : queue_ok q -> notify q <= notify (run q ops).
Proof.
  revert q. induction ops as [|op ops IH]; intros q Hq; [done|].
  change (run q (op :: ops)) with (run (exec q op) ops). pose proof (notify_step q op Hq). specialize (IH (exec q op) (queue_exec_ok q op Hq)). lia.
Qed.

(** As long as nobody is woken, sleeping entries sleep on. *)
Lemma sleeping_step wake q op :
  queue_ok q -> before_wake wake op -> (forall id e, entries q !! id = Some e -> sleeps wake e) ->
  notify (exec q op) = notify q -> forall id e, entries (exec q op) !! id = Some e -> sleeps wake e.
Proof.
  intros Hq Hop Hs Hn id e' He'. destruct (presented op) as [d|] eqn:Ep.
  - destruct (exec_presented op d q Ep) as [E|(now & e & e1 & Hl & Hc & Hent & _ & _ & Hnot)];
      [rewrite E in He'; by eapply Hs|].
    rewrite Hent in He'. destruct (decide (id = TrimSpace (did d))) as [->|Hne];
      [|rewrite lookup_insert_ne in He' by done; by eapply Hs].
    rewrite lookup_insert_eq in He'. injection He' as <-.
    destruct Hnot as [[_ Hin]|Hnot]; [|lia]. destruct Hl as (He & Hin0 & _).
    destruct (Hs _ _ He (or_intror Hin0)) as [Hw _]. intros _. split; [done|].
    destruct Hc as [? ? ? d' until -> _|? ? ? _|? ? ? ? ? ? ? _ _|? ? ? ? _]; try discriminate Hin.
    unfold wake_candidate. cbn in *. rewrite Hin0. by destruct Hop.
  - destruct op as [ctxErr now env key at_|ctxErr now c n remaining tokens| | | |]; try done; cbn in *.
    + destruct (Publish _ _ _ _ _ _) as [x q'] eqn:E. cbn in *.
      apply publish_inv in E as [[-> _]|(_ & _ & e & _ & _ & _ & _ & _ & E & _)]; [by eapply Hs|lia|done].
    + destruct (Receive _ _ _ _ _ _ _) as [x q'] eqn:E. cbn in *.
      apply receive_inv in E as [[-> _]|(_ & _ & _ & out & Hr & _)]; [by eapply Hs|].
      apply round_inv in Hr as (_ & _ & _ & _ & Hin & Hout); [|done].
      assert (Hstill : forall id e, entries q !! id = Some e ->
        reclaimed now e = e /\ is_ready now (reclaimed now e) = false).
      { intros k e He. apply not_due_ready. intros Hu. destruct (Hs k e He Hu). lia. }
      assert (Hnone : id ∉ did <$> out).
      { intros (d & -> & Hd)%list_elem_of_fmap. destruct (Hin d Hd) as (e & token & He & Hr & _).
        destruct (Hstill _ e He) as [_ E]. congruence. }
      rewrite Hout in He' by done. apply fmap_Some in He' as (e & He & ->).
      destruct (Hstill id e He) as [-> _]. by eapply Hs.
Qed.

Lemma sleeping_run wake q ops :
  queue_ok q -> Forall (before_wake wake) ops -> (forall id e, entries q !! id = Some e -> sleeps wake e) ->
  notify (run q ops) = notify q -> forall id e, entries (run q ops) !! id = Some e -> sleeps wake e.
Proof.
  intros Hq Hops. revert q Hq. induction Hops as [|op ops Hop _ IH]; intros q Hq Hs; cbn; [done|]. intros Hn.
  pose proof (notify_step q op Hq). pose proof (queue_exec_ok q op Hq) as Hq'.
  pose proof (notify_run (exec q op) ops Hq') as Hrun. fold (run (exec q op) ops) in Hn.
  apply IH; [done| |lia]. eapply sleeping_step; [done..|lia].
Qed.

(** A consumer that finds nothing and sleeps misses nothing: until the instant
    [Receive] told it to wait for, or until the channel it waits on is closed,
    no delivery becomes ready, whatever the other callers do. *)
Theorem waiting_misses_nothing lease q0 ops now c n remaining tokens w channel q1 ops' :
  NewMemoryAIJobDeliveryQueue lease = Ok q0 -> 0 <= now ->
  Receive None now c n remaining tokens (run q0 ops) = (Ok (WaitFor w channel), q1) ->
  let wake := nextWakeLocked now q1 in
  (wake = 0 \/ w <= wake - now) /\
  (Forall (before_wake wake) ops' -> notify (run q1 ops') = channel ->
   forall t n', wake = 0 \/ t < wake ->
     readyEntriesLocked t n' (reclaimExpiredLocked t (run q1 ops')) = []).
Proof.
  intros Hnew Hnow Hr. cbv zeta. assert (Hq : queue_ok (run q0 ops)) by (apply run_ok; by eapply new_ok).
  destruct (wait_inv _ _ _ _ _ _ _ _ _ Hq Hnow Hr) as (Hq1 & -> & Hw & Hs). split; [done|].
  set (wake := nextWakeLocked now q1) in *. intros Hops Hn t n' Ht. apply no_ready.
  intros id e He. apply not_due_ready. intros Hopen.
  destruct (sleeping_run wake q1 ops' Hq1 Hops Hs Hn id e He Hopen) as [H0 H1]. lia.
Qed.
End Properties.

(** ** Witnesses *)

Module Demo.
Definition job : AIJob.t :=
  AIJob.zero <| AIJob.ID := "j1"%string |> <| AIJob.OperationID := "op1"%string |>
    <| AIJob.Status := AIJobStatusDispatching |> <| AIJob.StatusVersion := 2 |> <| AIJob.FenceToken := 1 |>
    <| AIJob.QueueLeaseToken := "claim"%string |> <| AIJob.QueueLeaseUntil := Some 1000 |>.
Definition env : AIJobDeliveryEnvelope.t := AIJobDeliveryEnvelope.mk 1 (durableAIJobDeliveryID job) "j1" "op1" 2 1 "claim".
Definition new : queue := mkQueue ∅ ∅ 0 100 0.
Definition tokens (i : nat) : string := "t".

(** The envelope of the claimed job is valid, and the job still matches it. *)
Example envelope_of_job :
  NewAIJobDeliveryEnvelope job = Ok env /\ aiJobDeliveryMatches job env 5 = true.
Proof. split; vm_compute; reflexivity. Qed.
End Demo.

#[local] Notation publish := (OpPublish None 5 Demo.env "" 0).
#[local] Notation receive t q := (Receive (range := canonical_range) None t "worker" 2 (Some 50) Demo.tokens q).
#[local] Notation runs := (run (range := canonical_range)).

Lemma delivery_exclusive_witness :
  match receive 10 (runs Demo.new [publish]) with
  | (Ok (Delivered out), q1) => length out = 1%nat /\ Forall (fun d => forall out' q2,
      receive 60 q1 = (Ok (Delivered out'), q2) -> did d ∉ did <$> out') out
  | _ => False
  end.
Proof.
  assert (El : match (receive 10 (runs Demo.new [publish])).1 with
    | Ok (Delivered [d]) => AIJobDelivery.LeaseUntil d =? 110 | _ => false end = true) by (vm_compute; reflexivity).
  destruct (receive 10 (runs Demo.new [publish])) as [[[[|d [|]]|]|] q1] eqn:E;
    [discriminate El| |discriminate El|discriminate El|discriminate El].
  split; [reflexivity|]. constructor; [|constructor]. intros out' q2.
  refine (proj1 (delivery_exclusive (range := canonical_range) 100 Demo.new [publish] None 10 "worker" 2
    (Some 50) Demo.tokens [d] q1 d [] _ E _ _) None 60 "worker"%string 2 (Some 50) Demo.tokens out' q2 _).
  - reflexivity.
  - apply elem_of_cons. by left.
  - constructor.
  - cbn in El. apply Z.eqb_eq in El. rewrite El. reflexivity.
Defined.

Lemma at_least_once_witness : exists due, forall t x q3, due <= t ->
  receive t (runs Demo.new [publish]) = (x, q3) ->
  exists out, x = Ok (Delivered out) /\
    ((exists d, d ∈ out /\ AIJobDelivery.Envelope d = Demo.env) \/ Z.of_nat (length out) = 2).
Proof.
  destruct (at_least_once (range := canonical_range) 100 Demo.new [] None 5 Demo.env "" 0
    (runs Demo.new [publish]) []) as [due Hdue].
  - reflexivity.
  - vm_compute. reflexivity.
  - constructor.
  - exists due. intros t x q3 Ht Hr.
    destruct (Hdue t "worker"%string 2 (Some 50) Demo.tokens x q3 Ht ltac:(by vm_compute) ltac:(lia) Hr)
      as (out & Hx & [Hd|[Hl _]]); exists out; split; auto.
Defined.

Lemma waiting_misses_nothing_witness :
  match receive 2 (runs Demo.new [OpPublish None 1 Demo.env "" 20]) with
  | (Ok (WaitFor w channel), q1) => w = 18 /\ readyEntriesLocked (range := canonical_range) 19 5
      (reclaimExpiredLocked (range := canonical_range) 19 q1) = []
  | _ => False
  end.
Proof.
  set (ops := [OpPublish None 1 Demo.env "" 20]).
  assert (El : match receive 2 (runs Demo.new ops) with
    | (Ok (WaitFor w channel), q1) => (w =? 18) && (channel =? notify q1)
        && (nextWakeLocked (range := canonical_range) 2 q1 =? 20)
    | _ => false end = true) by (vm_compute; reflexivity).
  destruct (receive 2 (runs Demo.new ops)) as [[[out|w channel]|] q1] eqn:E;
    [discriminate El| |discriminate El].
  apply andb_true_iff in El as [[Ew Ec]%andb_true_iff En]. apply Z.eqb_eq in Ew, Ec, En. split; [exact Ew|].
  refine (proj2 (waiting_misses_nothing (range := canonical_range) 100 Demo.new ops 2 "worker" 2 (Some 50)
    Demo.tokens w channel q1 [] _ _ E) _ _ 19 5 _).
  - reflexivity.
  - lia.
  - constructor.
  - exact (eq_sym Ec).
  - right. rewrite En. reflexivity.
Defined.
