(* ===== verification/JobRepository.v ===== *)
(** * Durable jobs: the in-memory repository

    The [MemoryRepository] half of
    [backend/internal/controlplane/ai_job_repository.go]: creation with its
    billing hold, queries, cancellation, claiming by fair ranking, lease
    extension, fenced transitions and requeueing.  An operation that returns a
    job with flags returns [None] where the code returns a zero job and [false].
    The Postgres statements are left out; progress events are in [Progress]. *)

From S2P Require Import Prelude Calendar UsageDimensions Repository JobModel FairQueue BillingHolds.

(** ** Queries *)

Module AIJobQuery.
Record t := mk {
  Search : string;
  ApplicationID : string;
  Model : string;
  Modality : string;
  Operation : string;
  Status : string;
  ArtifactPolicy : string;
  Limit : Z;
  Offset : Z;
}.
End AIJobQuery.

Record AIJobSummary := mkSummary { Total : Z; ByStatus : gmap string Z }.

Record AIJobReadyReference := mkReference { ReferenceJobID : string; ReferenceStatusVersion : Z }.

Definition aiJobMatchesQuery `{UnicodeCase} (job : AIJob.t) (query : AIJobQuery.t) : bool :=
  let search := ToLower (TrimSpace (AIJobQuery.Search query)) in
  let field (wanted value : string) := (TrimSpace wanted =s "") || (value =s TrimSpace wanted) in
  if (search <>s "") && negb (Contains (ToLower (AIJob.ID job)) search)
     && negb (Contains (ToLower (AIJob.OperationID job)) search)
     && negb (Contains (ToLower (AIJob.ApplicationID job)) search)
     && negb (Contains (ToLower (AIJob.Model job)) search)
  then false
  else field (AIJobQuery.ApplicationID query) (AIJob.ApplicationID job)
       && field (AIJobQuery.Model query) (AIJob.Model job)
       && field (AIJobQuery.Modality query) (AIJob.Modality job)
       && field (AIJobQuery.Operation query) (AIJob.Operation job)
       && field (AIJobQuery.Status query) (AIJob.Status job)
       && field (AIJobQuery.ArtifactPolicy query) (AIJob.ArtifactPolicy job).

Definition admin_less (i j : AIJob.t) : bool :=
  if AIJob.CreatedAt i =? AIJob.CreatedAt j then str_ltb (AIJob.ID j) (AIJob.ID i)
  else After (AIJob.CreatedAt i) (AIJob.CreatedAt j).
Definition sortAIJobsForAdmin (jobs : list AIJob.t) : list AIJob.t := sort_by admin_less jobs.

Definition aiJobAdminQueryLimit (limit : Z) : Z :=
  if (limit <=? 0) || (limit >? 100) then 100 else limit.

Definition paginateAIJobs (jobs : list AIJob.t) (limit offset : Z) : list AIJob.t :=
  let offset := nonNegative offset in
  if offset >=? Z.of_nat (length jobs) then []
  else
    let limit := aiJobAdminQueryLimit limit in
    let end_ := Z.min (offset +i limit) (Z.of_nat (length jobs)) in
    take (Z.to_nat (end_ - offset)) (drop (Z.to_nat offset) jobs).

(** The instant a job is due in the ready index ([ai_job_ready_index.go]). *)
Definition aiJobReadyAt (job : AIJob.t) : time :=
  match AIJob.QueueLeaseUntil job with
  | Some leaseUntil => if AIJob.Status job =s AIJobStatusDispatching then leaseUntil
                       else AIJob.NextEligibleAt job
  | None => AIJob.NextEligibleAt job
  end.

(** ** Creation *)

Definition validateDurableAIJobAdmission (operation : AIOperation.t) (job : AIJob.t)
    (event : AIJobEvent.t) (outbox : TransactionalOutboxEvent.t) : result go_error unit :=
  guard_err
    ((AIOperation.ID operation =s "")
     || (AIOperation.ID operation <>s AIJob.OperationID job)
     || (AIOperation.Lane operation <>s "durable")
     || (AIOperation.IdempotencyKey operation =s "")
     || (AIJob.ID job =s "") || (AIJob.Status job <>s AIJobStatusQueued)
     || negb (AIJob.StatusVersion job =? 1) || (AIJob.RequestFingerprint job =s "")
     || (AIJob.RequestFingerprint job <>s AIOperation.RequestFingerprint operation)
     || (AIJob.IdempotencyKey job <>s AIOperation.IdempotencyKey operation)
     || (AIJob.RequestPayloadCiphertext job =s "")
     || negb (validArtifactPolicy (AIOperation.ArtifactPolicy operation))
     || negb (validArtifactSinkBinding (AIOperation.ArtifactPolicy operation)
                (AIOperation.ArtifactSinkID operation))
     || (AIJob.ArtifactPolicy job <>s AIOperation.ArtifactPolicy operation)
     || (AIJob.ArtifactSinkID job <>s AIOperation.ArtifactSinkID operation)
     || (AIJobEvent.JobID event <>s AIJob.ID job)
     || negb (AIJobEvent.Version event =? AIJob.StatusVersion job)
     || (AIJobEvent.EventType event <>s AIJobEventQueued)
     || (TransactionalOutboxEvent.AggregateType outbox <>s AIJobOutboxAggregate)
     || (TransactionalOutboxEvent.AggregateID outbox <>s AIJob.ID job)
     || negb (TransactionalOutboxEvent.EventVersion outbox =? AIJob.StatusVersion job)
     || (TransactionalOutboxEvent.EventType outbox <>s AIJobEvent.EventType event))
    (ErrNew "invalid durable ai job admission records").

Definition sameAIJobIdempotencyScope (left right : AIJob.t) : bool :=
  (AIJob.IdempotencyKey left <>s "")
  && (AIJob.ApplicationID left =s AIJob.ApplicationID right)
  && (AIJob.CredentialSource left =s AIJob.CredentialSource right)
  && (AIJob.CredentialID left =s AIJob.CredentialID right)
  && (AIJob.IntegrationID left =s AIJob.IntegrationID right)
  && (AIJob.PrincipalType left =s AIJob.PrincipalType right)
  && (AIJob.PrincipalID left =s AIJob.PrincipalID right)
  && (AIJob.ExternalSubjectReference left =s AIJob.ExternalSubjectReference right)
  && (AIJob.Operation left =s AIJob.Operation right)
  && (AIJob.IdempotencyKey left =s AIJob.IdempotencyKey right).

Definition job_event_exists (id : string) : go_error := exists_error "ai job event %q already exists" id.

Section Jobs.
Context `{range : MapRange}.

(** The writes of a change: operation, job, event and outbox event. *)
Definition commit_change (operation : AIOperation.t) (key : string) (job : AIJob.t)
    (event : AIJobEvent.t) (outbox : TransactionalOutboxEvent.t) (r : MemoryRepository)
    : MemoryRepository :=
  let r := r.[aiOperations]:[AIOperation.ID operation] <- operation in
  let r := r.[aiJobs]:[key] <- job in
  let r := r.[aiJobEvents]:[AIJobEvent.ID event] <- event in
  r.[transactionalOutboxEvents]:[TransactionalOutboxEvent.ID outbox] <- outbox.

Definition check_records (event : AIJobEvent.t) (outbox : TransactionalOutboxEvent.t) : M unit :=
  r ← read id;
  _ ← check (has (aiJobEvents r) (AIJobEvent.ID event)) (job_event_exists (AIJobEvent.ID event));
  lift (validateMemoryOutboxInsert (transactionalOutboxEvents r) outbox).

Definition operation_of (job : AIJob.t) : M AIOperation.t :=
  r ← read id;
  match aiOperations r !! AIJob.OperationID job with
  | Some operation => mret operation
  | None => fail (exists_error "ai operation %q not found" (AIJob.OperationID job))
  end.

Definition CreateDurableAIJob `{UnicodeCase} (operation : AIOperation.t) (job : AIJob.t)
    (event : AIJobEvent.t) (outbox : TransactionalOutboxEvent.t) (limits : AIJobAdmissionLimits)
    (billing : BillingHoldAdmission.t) : M (AIJob.t * bool) :=
  let operation := normalizeAIOperation operation in
  _ ← lift (validateDurableAIJobAdmission operation job event outbox);
  _ ← lift (validateBillingHoldAdmission operation billing);
  _ ← lift (limits_validate limits);
  r ← read id;
  match find_value (fun current => sameAIJobIdempotencyScope current job) (aiJobs r) with
  | Some current => mret (current, false)
  | None =>
      _ ← lift (enforceAIJobAdmissionLimits limits (aiJobAdmissionCountsForJobs (aiJobs r) job));
      _ ← check (has (aiOperations r) (AIOperation.ID operation))
            (exists_error "ai operation %q already exists" (AIOperation.ID operation));
      _ ← check (has (aiJobs r) (AIJob.ID job)) (exists_error "ai job %q already exists" (AIJob.ID job));
      _ ← check_records event outbox;
      _ ← check_admission billing (AIOperation.ID operation);
      _ ← lift (enforceMemoryBillingHoldBudget r billing);
      _ ← write (fun r =>
            insert_admission billing (commit_change operation (AIJob.ID job) job event outbox r));
      mret (job, true)
  end.

(** ** Lookups *)

Definition FindAIJob (id : string) (r : MemoryRepository) : option AIJob.t := aiJobs r !! id.
Definition FindAIJobByOperationID (operationID : string) (r : MemoryRepository) : option AIJob.t :=
  memoryAIJobByOperationID (aiJobs r) operationID.
Definition FindOwnedAIJob (id : string) (owner : AIJobOwner.t) (r : MemoryRepository) : option AIJob.t :=
  match aiJobs r !! id with
  | Some job => if negb (aiJobOwnerMatches job owner) then None else Some job
  | None => None
  end.

Definition QueryAIJobs `{UnicodeCase} (query : AIJobQuery.t) (r : MemoryRepository) : list AIJob.t :=
  let jobs := List.filter (fun job => aiJobMatchesQuery job query) (map_values (aiJobs r)) in
  paginateAIJobs (sortAIJobsForAdmin jobs) (AIJobQuery.Limit query) (AIJobQuery.Offset query).

(** One round of the summary; the counters count jobs in memory. *)
Definition summarize_job (summary : AIJobSummary) (job : AIJob.t) : AIJobSummary :=
  mkSummary (Total summary + 1)
    (<[AIJob.Status job := default 0 (ByStatus summary !! AIJob.Status job) + 1]> (ByStatus summary)).
Definition SummarizeAIJobs `{UnicodeCase} (query : AIJobQuery.t) (r : MemoryRepository) : AIJobSummary :=
  foldl (fun summary job =>
    if negb (aiJobMatchesQuery job query) then summary else summarize_job summary job)
    (mkSummary 0 ∅) (map_values (aiJobs r)).

Definition ready_less (i j : AIJob.t) : bool :=
  if negb (aiJobReadyAt i =? aiJobReadyAt j) then Before (aiJobReadyAt i) (aiJobReadyAt j)
  else str_ltb (AIJob.ID i) (AIJob.ID j).

Definition ListAIJobsForReadyIndex (limit : Z) (r : MemoryRepository) : list AIJob.t :=
  if limit <=? 0 then []
  else
    let jobs := List.filter (fun job =>
      (AIJob.Status job =s AIJobStatusQueued)
      || ((AIJob.Status job =s AIJobStatusDispatching)
          && match AIJob.QueueLeaseUntil job with Some _ => true | None => false end))
      (map_values (aiJobs r)) in
    first_n limit (sort_by ready_less jobs).

Definition delivery_less (i j : AIJob.t) : bool :=
  if negb (AIJob.UpdatedAt i =? AIJob.UpdatedAt j) then Before (AIJob.UpdatedAt i) (AIJob.UpdatedAt j)
  else str_ltb (AIJob.ID i) (AIJob.ID j).
Definition ListAIJobsForDeliveryRebuild (now : time) (limit : Z) (r : MemoryRepository) : list AIJob.t :=
  if limit <=? 0 then []
  else
    let jobs := List.filter (fun job =>
      (AIJob.Status job =s AIJobStatusDispatching)
      && match AIJob.QueueLeaseUntil job with Some leaseUntil => After leaseUntil now | None => false end
      && (TrimSpace (AIJob.QueueLeaseToken job) <>s "")) (map_values (aiJobs r)) in
    first_n limit (sort_by delivery_less jobs).

(** Events of one job come by version.  Over several jobs the comparison of the
    code is not a weak order, and Go leaves the result open. *)
Definition event_less (i j : AIJobEvent.t) : bool :=
  if AIJobEvent.JobID i =s AIJobEvent.JobID j then AIJobEvent.Version i <? AIJobEvent.Version j
  else Before (AIJobEvent.CreatedAt i) (AIJobEvent.CreatedAt j).
Definition ListAIJobEvents (jobID : string) (r : MemoryRepository) : list AIJobEvent.t :=
  sort_by event_less (List.filter (fun event => (jobID =s "") || (AIJobEvent.JobID event =s jobID))
    (map_values (aiJobEvents r))).

(** ** Cancellation *)

Section Transitions.
Context `{json : JSONText}.

(** What both cancellations do once they have found the job.  [audit] is the
    audit entry of an administrator, [key] the key the job is stored under. *)
Definition cancel_found (key : string) (job : AIJob.t) (reason : string) (requestedAt : time)
    (audit : option AuditLog.t) : M (option AIJob.t * bool) :=
  if oneOf (AIJob.Status job) [AIJobStatusCanceling; AIJobStatusCanceled] then mret (Some job, false)
  else if oneOf (AIJob.Status job) [AIJobStatusSucceeded; AIJobStatusFailed; AIJobStatusUnknown;
                                    AIJobStatusExpired]
  then fail ErrAIJobNotCancelable
  else
    let toStatus :=
      if (AIJob.Status job =s AIJobStatusAccepted) || (AIJob.Status job =s AIJobStatusQueued)
      then AIJobStatusCanceled else AIJobStatusCanceling in
    '(updated, event, outbox) ← lift (prepareAIJobTransition job toStatus reason requestedAt);
    let updated := if AIJob.Status job =s AIJobStatusDispatching
      then updated <| AIJob.FenceToken := AIJob.FenceToken updated +i 1 |> else updated in
    _ ← check_records event outbox;
    r ← read id;
    _ ← match audit with
        | Some audit => check (has (auditLogs r) (AuditLog.ID audit))
                          (exists_error "audit log %q already exists" (AuditLog.ID audit))
        | None => mret tt
        end;
    operation ← operation_of job;
    _ ← (if toStatus =s AIJobStatusCanceled
         then releaseMemoryBillingHoldForOperation (AIJob.OperationID job)
                "job_canceled_before_dispatch" requestedAt
         else mret tt);
    let operation := applyMemoryOperationJobStatus operation (AIJob.Status updated)
                       (AIJob.ErrorType updated) requestedAt in
    _ ← write (commit_change operation key updated event outbox);
    _ ← match audit with
        | Some audit => write (fun r => r.[auditLogs]:[AuditLog.ID audit] <- audit)
        | None => mret tt
        end;
    mret (Some updated, true).

Definition RequestAIJobCancellation (id : string) (owner : AIJobOwner.t) (requestedAt : time)
    : M (option AIJob.t * bool) :=
  found ← read (FindOwnedAIJob id owner);
  match found with
  | None => mret (None, false)
  | Some job => cancel_found id job "client_requested" requestedAt None
  end.

Definition RequestAIJobAdminCancellation (id : string) (requestedAt : time) (audit : AuditLog.t)
    : M (option AIJob.t * bool) :=
  found ← read (FindAIJob (TrimSpace id));
  match found with
  | None => mret (None, false)
  | Some job => cancel_found (AIJob.ID job) job "admin_requested" requestedAt (Some audit)
  end.

(** ** Claiming *)

Definition claim_candidate (now leaseUntil : time) (workerID leaseToken : string) (candidate : AIJob.t)
    : M AIJob.t :=
  '(updated, event, outbox) ← lift (prepareAIJobClaim candidate now);
  let updated := updated
    <| AIJob.FenceToken := AIJob.FenceToken updated +i 1 |>
    <| AIJob.QueueLeaseUntil := Some leaseUntil |>
    <| AIJob.QueueLeaseToken := leaseToken |>
    <| AIJob.QueueWorkerID := workerID |> in
  _ ← check_records event outbox;
  operation ← read (fun r => default AIOperation.zero (aiOperations r !! AIJob.OperationID candidate));
  let operation := applyMemoryOperationJobStatus operation (AIJob.Status updated)
                     (AIJob.ErrorType updated) now in
  _ ← write (commit_change operation (AIJob.ID updated) updated event outbox);
  mret updated.

Fixpoint claimAIJobCandidatesLocked (candidates : list AIJob.t) (now leaseUntil : time)
    (workerID leaseToken : string) (limit : Z) (claimed : list AIJob.t) : M (list AIJob.t) :=
  match candidates with
  | [] => mret claimed
  | candidate :: rest =>
      if Z.of_nat (length claimed) >=? limit then mret claimed
      else
        updated ← claim_candidate now leaseUntil workerID leaseToken candidate;
        claimAIJobCandidatesLocked rest now leaseUntil workerID leaseToken limit (claimed ++ [updated])
  end.

Definition dispatch_activities (r : MemoryRepository) : list aiJobDispatchActivity :=
  omap (fun event =>
    if AIJobEvent.EventType event <>s AIJobEventScheduled then None
    else (fun job => mkActivity job (AIJobEvent.CreatedAt event)) <$> aiJobs r !! AIJobEvent.JobID event)
    (map_values (aiJobEvents r)).

Definition ClaimQueuedAIJobs (now leaseUntil : time) (workerID leaseToken : string) (limit : Z)
    : M (list AIJob.t) :=
  if (limit <=? 0) || (TrimSpace workerID =s "") || (TrimSpace leaseToken =s "")
     || negb (After leaseUntil now)
  then mret []
  else
    r ← read id;
    let jobs := map_values (aiJobs r) in
    let candidates := List.filter (fun job => aiJobReadyForClaim job now) jobs in
    let candidates := rankAIJobFairCandidates candidates jobs (dispatch_activities r) now limit in
    claimAIJobCandidatesLocked candidates now leaseUntil workerID leaseToken limit [].

Definition wanted_versions (references : list AIJobReadyReference) : gmap string Z :=
  foldl (fun wanted reference =>
    if (TrimSpace (ReferenceJobID reference) <>s "") && (ReferenceStatusVersion reference >? 0)
    then <[ReferenceJobID reference := ReferenceStatusVersion reference]> wanted else wanted)
    ∅ references.

Definition ClaimAIJobsByReadyReferences (references : list AIJobReadyReference)
    (now leaseUntil : time) (workerID leaseToken : string) (limit : Z) : M (list AIJob.t) :=
  if (limit <=? 0) || (length references =? 0)%nat || (TrimSpace workerID =s "")
     || (TrimSpace leaseToken =s "") || negb (After leaseUntil now)
  then mret []
  else
    r ← read id;
    let wanted := wanted_versions references in
    let jobs := map_values (aiJobs r) in
    let candidates := List.filter (fun job =>
      (default 0 (wanted !! AIJob.ID job) =? AIJob.StatusVersion job) && aiJobReadyForClaim job now) jobs in
    let candidates := rankAIJobFairCandidates candidates jobs (dispatch_activities r) now limit in
    claimAIJobCandidatesLocked candidates now leaseUntil workerID leaseToken limit [].

(** ** Leases and transitions *)

Definition ExtendAIJobQueueLease (id : string) (expectedVersion fenceToken : Z) (leaseToken : string)
    (leaseUntil extendedAt : time) : M (option AIJob.t * bool) :=
  if negb (After leaseUntil extendedAt) || (TrimSpace leaseToken =s "") then mret (None, false)
  else
    found ← read (FindAIJob id);
    match found with
    | None => mret (None, false)
    | Some job =>
        match AIJob.QueueLeaseUntil job with
        | None => mret (Some job, false)
        | Some current =>
            if (AIJob.Status job <>s AIJobStatusDispatching)
               || negb (AIJob.StatusVersion job =? expectedVersion)
               || negb (AIJob.FenceToken job =? fenceToken)
               || negb (After current extendedAt) || (AIJob.QueueLeaseToken job <>s leaseToken)
            then mret (Some job, false)
            else if negb (After leaseUntil current) then mret (Some job, true)
            else
              let job := job <| AIJob.QueueLeaseUntil := Some leaseUntil |> in
              let job := if After extendedAt (AIJob.UpdatedAt job)
                then job <| AIJob.UpdatedAt := extendedAt |> else job in
              _ ← write (fun r => r.[aiJobs]:[id] <- job);
              mret (Some job, true)
        end
    end.

(** The stale caller: another version, or another fence than the job's. *)
Definition stale (job : AIJob.t) (expectedVersion fenceToken : Z) : bool :=
  negb (AIJob.StatusVersion job =? expectedVersion)
  || ((AIJob.FenceToken job >? 0) && negb (AIJob.FenceToken job =? fenceToken)).

(** [TransitionAIJob] and [RequeueAIJob] differ in what they do to the prepared
    job. *)
Definition transition_job (id : string) (expectedVersion fenceToken : Z) (toStatus reason : string)
    (adjust : AIJob.t -> AIJob.t) (transitionedAt : time) : M (option AIJob.t * bool) :=
  found ← read (FindAIJob id);
  match found with
  | None => mret (None, false)
  | Some job =>
      if stale job expectedVersion fenceToken then mret (Some job, false)
      else
        '(updated, event, outbox) ← lift (prepareAIJobTransition job toStatus reason transitionedAt);
        let updated := adjust updated in
        _ ← check_records event outbox;
        operation ← operation_of job;
        let operation := applyMemoryOperationJobStatus operation (AIJob.Status updated)
                           (AIJob.ErrorType updated) transitionedAt in
        _ ← write (commit_change operation id updated event outbox);
        mret (Some updated, true)
  end.

Definition TransitionAIJob (id : string) (expectedVersion fenceToken : Z) (toStatus reason : string)
    (transitionedAt : time) : M (option AIJob.t * bool) :=
  transition_job id expectedVersion fenceToken toStatus reason (fun job => job) transitionedAt.

Definition RequeueAIJob (id : string) (expectedVersion fenceToken : Z) (reason : string)
    (nextEligibleAt transitionedAt : time) : M (option AIJob.t * bool) :=
  transition_job id expectedVersion fenceToken AIJobStatusQueued reason
    (fun job => job <| AIJob.NextEligibleAt :=
       if After nextEligibleAt transitionedAt then nextEligibleAt else transitionedAt |>) transitionedAt.
End Transitions.
End Jobs.

(** ** Lemmas: failing without a trace *)

Section Traceless.
Context `{range : MapRange} `{unicode : UnicodeCase} `{json : JSONText}.

Lemma readonly_check_records event outbox : readonly (check_records event outbox).
Proof. unfold check_records. readonly_tac. Qed.
Lemma readonly_operation_of job : readonly (operation_of job).
Proof. unfold operation_of. readonly_tac. Qed.
Lemma readonly_check_admission admission id : readonly (check_admission admission id).
Proof. unfold check_admission. readonly_tac. Qed.
#[local] Hint Resolve readonly_check_records readonly_operation_of readonly_check_admission : repo.

Lemma traceless_release id reason at_ : traceless (releaseMemoryBillingHoldForOperation id reason at_).
Proof. unfold releaseMemoryBillingHoldForOperation. traceless_tac. Qed.

Lemma traceless_cancel key job reason at_ audit : traceless (cancel_found key job reason at_ audit).
Proof.
  unfold cancel_found. repo_cases; try solve [traceless_tac].
  all: apply traceless_after_reads; [solve [readonly_tac]|intros [[updated event] outbox]].
  all: apply traceless_after_reads; [solve [readonly_tac]|intros _].
  all: apply traceless_after_reads; [solve [readonly_tac]|intros r].
  all: apply traceless_after_reads; [solve [readonly_tac]|intros _].
  all: apply traceless_after_reads; [solve [readonly_tac]|intros operation].
  all: apply traceless_before_total; [|intros _; solve [total_tac]].
  all: repo_cases; first [apply traceless_release|traceless_tac].
Qed.

Lemma traceless_transition id version fence toStatus reason adjust at_ :
  traceless (transition_job id version fence toStatus reason adjust at_).
Proof. unfold transition_job. traceless_tac. Qed.

Lemma traceless_create operation job event outbox limits billing :
  traceless (CreateDurableAIJob operation job event outbox limits billing).
Proof.
  unfold CreateDurableAIJob. cbv zeta.
  repeat (apply traceless_after_reads; [solve [readonly_tac]|intros ?]; repo_cases); traceless_tac.
Qed.
End Traceless.

(** ** Specification *)

(** The event of a job's current version names what happened to it. *)
Definition describes (event : AIJobEvent.t) (job : AIJob.t) : Prop :=
  AIJobEvent.JobID event = AIJob.ID job /\ AIJobEvent.Version event = AIJob.StatusVersion job /\
  (AIJobEvent.EventType event = aiJobEventType (AIJob.Status job) \/
   (AIJobEvent.EventType event = AIJobEventLeaseReassigned /\ AIJob.Status job = AIJobStatusDispatching)).
(** The outbox event that tells the outside of an event of a job. *)
Definition announces (outbox : TransactionalOutboxEvent.t) (event : AIJobEvent.t) : Prop :=
  TransactionalOutboxEvent.AggregateType outbox = AIJobOutboxAggregate /\
  TransactionalOutboxEvent.AggregateID outbox = AIJobEvent.JobID event /\
  TransactionalOutboxEvent.EventVersion outbox = AIJobEvent.Version event /\
  TransactionalOutboxEvent.EventType outbox = AIJobEvent.EventType event.

(** A change of a job that is ready to be committed. *)
Record ready_change (r : MemoryRepository) (updated : AIJob.t) (event : AIJobEvent.t)
    (outbox : TransactionalOutboxEvent.t) : Prop := {
  change_ok : job_ok updated;
  change_event : describes event updated;
  change_outbox : announces outbox event;
  change_event_new : aiJobEvents r !! AIJobEvent.ID event = None;
  change_outbox_new : transactionalOutboxEvents r !! TransactionalOutboxEvent.ID outbox = None;
}.

(** What a claim makes of a job. *)
Definition claim_of (before after : AIJob.t) (leaseUntil : time) (workerID leaseToken : string) : Prop :=
  AIJob.ID after = AIJob.ID before /\ AIJob.Status after = AIJobStatusDispatching /\
  AIJob.StatusVersion after = AIJob.StatusVersion before +i 1 /\
  AIJob.FenceToken after = AIJob.FenceToken before +i 1 /\
  AIJob.QueueLeaseUntil after = Some leaseUntil /\ AIJob.QueueLeaseToken after = leaseToken /\
  AIJob.QueueWorkerID after = workerID.

(** ** Lemmas: what a successful operation did *)

Section Inversion.
Context `{range : MapRange} `{json : JSONText}.

Lemma check_records_inv event outbox r u r' :
  check_records event outbox r = (Ok u, r') ->
  r' = r /\ aiJobEvents r !! AIJobEvent.ID event = None /\
  transactionalOutboxEvents r !! TransactionalOutboxEvent.ID outbox = None.
Proof.
  unfold check_records. intros H. m_inv H.
  match goal with E : has _ _ = false |- _ => apply has_None in E end.
  unfold validateMemoryOutboxInsert, id in *.
  destruct (has (transactionalOutboxEvents _) _) eqn:E; [done|]. by apply has_None in E.
Qed.

Lemma operation_of_inv job r operation r' :
  operation_of job r = (Ok operation, r') ->
  r' = r /\ aiOperations r !! AIJob.OperationID job = Some operation.
Proof.
  unfold operation_of. intros H. m_inv H. unfold id in H.
  destruct (aiOperations _ !! _) eqn:E; by m_inv H.
Qed.

(** A prepared transition is ready, whatever the caller adjusts in the job apart
    from its identity, its status and what its form depends on. *)
Definition harmless (adjust : AIJob.t -> AIJob.t) : Prop := forall job,
  AIJob.ID (adjust job) = AIJob.ID job /\ AIJob.Status (adjust job) = AIJob.Status job /\
  AIJob.StatusVersion (adjust job) = AIJob.StatusVersion job /\
  AIJob.OperationID (adjust job) = AIJob.OperationID job /\ (job_ok job -> job_ok (adjust job)).

Lemma prepared_describes job toStatus reason at_ prepared event outbox adjust :
  prepareAIJobTransition job toStatus reason at_ = Ok (prepared, event, outbox) -> harmless adjust ->
  describes event (adjust prepared) /\ announces outbox event /\
  AIJob.ID (adjust prepared) = AIJob.ID job /\ AIJob.Status (adjust prepared) = toStatus /\
  AIJob.StatusVersion (adjust prepared) = AIJob.StatusVersion job +i 1 /\
  AIJob.OperationID (adjust prepared) = AIJob.OperationID job /\
  (job_ok job -> job_ok (adjust prepared)).
Proof.
  intros Hp Ha. destruct (Ha prepared) as (A1 & A2 & A3 & A4 & A5).
  apply prepareTransition_inv in Hp as (Hallowed & -> & Hr).
  pose proof (transitioned_fields job toStatus reason at_) as (F1 & F2 & F3 & F4 & F5).
  apply newRecords_match in Hr as (R1 & R2 & R3 & R4 & R5 & R6 & R7 & R8 & R9 & R10 & R11).
  unfold describes, announces. split_and!; try congruence.
  - left. congruence.
  - intros Hok. by apply A5, transitioned_ok.
Qed.

Lemma harmless_id : harmless (fun job => job).
Proof. done. Qed.

Lemma harmless_eligible at_ : harmless (fun job => job <| AIJob.NextEligibleAt := at_ |>).
Proof. intros job. split_and!; try done. by intros [? ? ?]; split. Qed.

Lemma harmless_fence : harmless (fun job => job <| AIJob.FenceToken := AIJob.FenceToken job +i 1 |>).
Proof. intros job. split_and!; try done. by intros [? ? ?]; split. Qed.

(** What is common to transitions and cancellations: a job found, a legal step,
    a change made ready. *)
Record stepped (r : MemoryRepository) (key : string) (job updated : AIJob.t) (toStatus : string)
    (event : AIJobEvent.t) (outbox : TransactionalOutboxEvent.t) : Prop := {
  stepped_found : aiJobs r !! key = Some job;
  stepped_edge : status_step (AIJob.Status job) toStatus;
  stepped_ID : AIJob.ID updated = AIJob.ID job;
  stepped_Status : AIJob.Status updated = toStatus;
  stepped_Version : AIJob.StatusVersion updated = AIJob.StatusVersion job +i 1;
  stepped_Operation : AIJob.OperationID updated = AIJob.OperationID job;
  stepped_ready : job_ok job -> ready_change r updated event outbox;
}.

Lemma stepped_intro r key job toStatus reason at_ prepared event outbox adjust :
  aiJobs r !! key = Some job ->
  prepareAIJobTransition job toStatus reason at_ = Ok (prepared, event, outbox) -> harmless adjust ->
  aiJobEvents r !! AIJobEvent.ID event = None ->
  transactionalOutboxEvents r !! TransactionalOutboxEvent.ID outbox = None ->
  stepped r key job (adjust prepared) toStatus event outbox.
Proof.
  intros Hj Hp Ha He Ho.
  destruct (prepared_describes _ _ _ _ _ _ _ _ Hp Ha) as (D1 & D2 & D3 & D4 & D5 & D6 & D7).
  apply prepareTransition_inv in Hp as (Hallowed & _ & _).
  split; try done; [by exists reason|]. intros Hok. split; try done. by apply D7.
Qed.

Lemma transition_inv id version fence toStatus reason adjust at_ r o flag r' :
  transition_job id version fence toStatus reason adjust at_ r = (Ok (o, flag), r') -> harmless adjust ->
  (flag = false /\ r' = r /\ o = aiJobs r !! id) \/
  (flag = true /\ exists job updated event outbox operation,
     stepped r id job updated toStatus event outbox /\ stale job version fence = false /\
     aiOperations r !! AIJob.OperationID job = Some operation /\ o = Some updated /\
     r' = commit_change
            (applyMemoryOperationJobStatus operation (AIJob.Status updated) (AIJob.ErrorType updated) at_)
            id updated event outbox r).
Proof.
  intros H Ha. unfold transition_job in H.
  apply readonly_bind_inv in H as [(e & _ & [=] & _)|(found & [= <-] & H)]; [|apply readonly_read].
  unfold FindAIJob in H. destruct (aiJobs r !! id) as [job|] eqn:Ejob; [|injection H as <- <- <-; by left].
  destruct (stale job version fence) eqn:Est; [injection H as <- <- <-; by left|].
  right. apply readonly_bind_inv in H as [(e & _ & [=] & _)|([[prepared event] outbox] & Hp & H)];
    [|apply readonly_lift]. injection Hp as Hp.
  apply readonly_bind_inv in H as [(e & _ & [=] & _)|([] & Hc & H)]; [|apply readonly_check_records].
  apply check_records_inv in Hc as (_ & He & Ho).
  apply readonly_bind_inv in H as [(e & _ & [=] & _)|(operation & Hop & H)]; [|apply readonly_operation_of].
  apply operation_of_inv in Hop as [_ Hop]. injection H as <- <- <-.
  split; [done|]. exists job, (adjust prepared), event, outbox, operation.
  split_and!; try done. by eapply stepped_intro.
Qed.

Lemma cancel_inv key job reason at_ audit r o flag r' :
  aiJobs r !! key = Some job ->
  cancel_found key job reason at_ audit r = (Ok (o, flag), r') ->
  (flag = false /\ r' = r) \/
  (flag = true /\ exists toStatus updated event outbox operation r1,
     stepped r key job updated toStatus event outbox /\
     aiOperations r !! AIJob.OperationID job = Some operation /\ o = Some updated /\
     toStatus ∈ [AIJobStatusCanceled; AIJobStatusCanceling] /\
     (toStatus = AIJobStatusCanceled <->
        AIJob.Status job ∈ [AIJobStatusAccepted; AIJobStatusQueued]) /\
     (if toStatus =s AIJobStatusCanceled
      then releaseMemoryBillingHoldForOperation (AIJob.OperationID job)
             "job_canceled_before_dispatch" at_ r = (Ok tt, r1)
      else r1 = r) /\
     (let committed := commit_change
            (applyMemoryOperationJobStatus operation (AIJob.Status updated) (AIJob.ErrorType updated) at_)
            key updated event outbox r1 in
      r' = match audit with
           | Some audit => committed.[auditLogs]:[AuditLog.ID audit] <- audit
           | None => committed
           end)).
Proof.
  intros Hj H. unfold cancel_found in H.
  destruct (oneOf _ _); [injection H as <- <- <-; by left|]. destruct (oneOf _ _); [done|].
  right. set (toStatus :=
    if (AIJob.Status job =s AIJobStatusAccepted) || (AIJob.Status job =s AIJobStatusQueued)
    then AIJobStatusCanceled else AIJobStatusCanceling) in H.
  apply readonly_bind_inv in H as [(e & _ & [=] & _)|([[prepared event] outbox] & Hp & H)];
    [|apply readonly_lift]. injection Hp as Hp.
  set (adjust := fun job : AIJob.t => job <| AIJob.FenceToken := AIJob.FenceToken job +i 1 |>).
  cbv beta iota zeta in H.
  set (updated := if AIJob.Status job =s AIJobStatusDispatching then adjust prepared else prepared).
  change (if AIJob.Status job =s AIJobStatusDispatching
    then prepared <| AIJob.FenceToken := AIJob.FenceToken prepared +i 1 |> else prepared) with updated in H.
  assert (Hs : aiJobEvents r !! AIJobEvent.ID event = None ->
    transactionalOutboxEvents r !! TransactionalOutboxEvent.ID outbox = None ->
    stepped r key job updated toStatus event outbox).
  { intros He Ho. unfold updated. destruct (AIJob.Status job =s AIJobStatusDispatching).
    - eapply (stepped_intro _ _ _ _ _ _ _ _ _ adjust); [done..|apply harmless_fence|done|done].
    - eapply (stepped_intro _ _ _ _ _ _ _ _ _ (fun job => job)); [done..|apply harmless_id|done|done]. }
  apply readonly_bind_inv in H as [(e & _ & [=] & _)|([] & Hc & H)]; [|apply readonly_check_records].
  apply check_records_inv in Hc as (_ & He & Ho). specialize (Hs He Ho).
  apply readonly_bind_inv in H as [(e & _ & [=] & _)|(? & _ & H)]; [|apply readonly_read].
  apply readonly_bind_inv in H as [(e & _ & [=] & _)|([] & _ & H)];
    [|destruct audit; [apply readonly_check|apply readonly_ret]].
  apply readonly_bind_inv in H as [(e & _ & [=] & _)|(operation & Hop & H)]; [|apply readonly_operation_of].
  apply operation_of_inv in Hop as [_ Hop].
  apply M_bind_inv in H as [(e & _ & ?)|([] & r1 & Hrel & H)]; [done|].
  apply M_bind_inv in H as [(e & _ & ?)|([] & r2 & Hw & H)]; [done|]. injection Hw as <-.
  assert (Er : r' = match audit with
    | Some audit => (commit_change (applyMemoryOperationJobStatus operation (AIJob.Status updated)
        (AIJob.ErrorType updated) at_) key updated event outbox r1).[auditLogs]:[AuditLog.ID audit] <- audit
    | None => commit_change (applyMemoryOperationJobStatus operation (AIJob.Status updated)
        (AIJob.ErrorType updated) at_) key updated event outbox r1
    end /\ o = Some updated /\ flag = true) by (destruct audit; by injection H as <- <- <-).
  destruct Er as (Er & -> & ->). clear H.
  split; [done|]. exists toStatus, updated, event, outbox, operation, r1.
  split_and!; try done; unfold toStatus.
  - destruct (_ || _); rewrite !elem_of_cons; tauto.
  - rewrite !elem_of_cons, elem_of_nil.
    destruct (String.eqb_spec (AIJob.Status job) AIJobStatusAccepted),
      (String.eqb_spec (AIJob.Status job) AIJobStatusQueued); cbn; try tauto.
    split; [done|]. by intros [|[|[]]].
  - destruct (_ || _); cbn in Hrel |- *; [exact Hrel|]. by injection Hrel as <-.
Qed.

(** ** Lemmas: claims *)

Lemma claim_candidate_inv candidate now leaseUntil workerID leaseToken r x r' :
  claim_candidate now leaseUntil workerID leaseToken candidate r = (x, r') ->
  (exists e, x = Err e /\ r' = r) \/
  exists updated event outbox operation, x = Ok updated /\
    claim_of candidate updated leaseUntil workerID leaseToken /\
    (job_ok candidate -> ready_change r updated event outbox) /\
    r' = commit_change operation (AIJob.ID updated) updated event outbox r.
Proof.
  intros H. unfold claim_candidate in H.
  apply readonly_bind_inv in H as [(e & _ & -> & ->)|([[prepared event] outbox] & Hp & H)];
    [by left; eauto| |apply readonly_lift]. injection Hp as Hp.
  set (updated := prepared <| AIJob.FenceToken := AIJob.FenceToken prepared +i 1 |>
    <| AIJob.QueueLeaseUntil := Some leaseUntil |> <| AIJob.QueueLeaseToken := leaseToken |>
    <| AIJob.QueueWorkerID := workerID |>) in H.
  apply readonly_bind_inv in H as [(e & _ & -> & ->)|([] & Hc & H)];
    [by left; eauto| |apply readonly_check_records].
  apply check_records_inv in Hc as (_ & He & Ho).
  apply readonly_bind_inv in H as [(e & [=] & _)|(operation & _ & H)]; [|apply readonly_read].
  injection H as <- <-. right.
  assert (Hty : AIJobEvent.EventType event = aiJobEventType AIJobStatusDispatching \/
                AIJobEvent.EventType event = AIJobEventLeaseReassigned).
  { unfold prepareAIJobClaim in Hp. destruct (_ =s _).
    - right. unfold prepareAIJobLeaseReassignment in Hp. destruct (_ || _); [done|].
      apply bind_Ok in Hp as ([ev ob] & Hr & [= <- <- <-]). by apply newRecords_match in Hr as (_&_&_&_&?&_).
    - left. apply prepareTransition_inv in Hp as (_ & _ & Hr). by apply newRecords_match in Hr as (_&_&_&_&?&_). }
  apply prepareClaim_inv in Hp as (P1 & P2 & P3 & P4 & P5 & (R1 & R2 & R3 & R4 & R5 & R6 & R7 & R8 & R9 & R10) & _).
  exists updated, event, outbox, (applyMemoryOperationJobStatus operation (AIJob.Status updated)
    (AIJob.ErrorType updated) now).
  split; [done|]. split; [unfold claim_of, updated; cbn; split_and!; congruence|]. split; [|done].
  intros Hok. specialize (P5 Hok) as [Q1 Q2 Q3]. split; [|unfold describes, announces; cbn; split_and!; try congruence..|done|done].
  - split; cbn; [done| |done]. intros Hne. by rewrite P3 in Hne.
  - rewrite P3. naive_solver.
Qed.

(** The jobs a run of claims returned, and what it left of the jobs. *)
Record claimed_from (candidates new : list AIJob.t) (leaseUntil : time) (workerID leaseToken : string)
    (r r' : MemoryRepository) : Prop := {
  claimed_each : Forall2 (fun before after => claim_of before after leaseUntil workerID leaseToken)
    (take (length new) candidates) new;
  claimed_stored : forall after, after ∈ new -> aiJobs r' !! AIJob.ID after = Some after;
  claimed_others : forall k, k ∉ AIJob.ID <$> new -> aiJobs r' !! k = aiJobs r !! k;
}.

(** Whether it ends well or not, a run leaves the claims it has made, each whole. *)
Lemma claim_all_inv candidates now leaseUntil workerID leaseToken limit claimed r x r' :
  NoDup (AIJob.ID <$> candidates) ->
  claimAIJobCandidatesLocked candidates now leaseUntil workerID leaseToken limit claimed r = (x, r') ->
  exists new, claimed_from candidates new leaseUntil workerID leaseToken r r' /\
    Z.of_nat (length (claimed ++ new)) <= Z.max (Z.of_nat (length claimed)) limit /\
    (x = Ok (claimed ++ new) \/ exists e, x = Err e).
Proof.
  assert (Hnone : forall l r, claimed_from l [] leaseUntil workerID leaseToken r r)
    by (split; [constructor|by intros ? ?%elem_of_nil|done]).
  revert claimed r. induction candidates as [|c l IH]; intros claimed r; cbn.
  - intros _ H. injection H as <- <-. exists []. rewrite app_nil_r. split; [done|]. split; [lia|by left].
  - intros [Hc Hnd]%NoDup_cons. rewrite Z.geb_leb.
    destruct (Z.leb_spec limit (Z.of_nat (length claimed))) as [Hl|Hl].
    { intros H. injection H as <- <-. exists []. rewrite app_nil_r. split; [done|]. split; [lia|by left]. }
    intros H. apply M_bind_inv in H as [(e & H1 & ->)|(updated & r1 & H1 & H)].
    { apply claim_candidate_inv in H1 as [(e' & _ & ->)|(u & ? & ? & ? & [=] & _)].
      exists []. rewrite app_nil_r. split; [done|]. split; [lia|right; eauto]. }
    apply claim_candidate_inv in H1 as [(e & [=] & _)|(u & event & outbox & operation & [= ->] & Hof & _ & ->)].
    apply IH in H as (new & [I1 I2 I3] & Hlen & Hx); [|done].
    assert (Eid : AIJob.ID u = AIJob.ID c) by apply Hof.
    assert (Hsub : AIJob.ID u ∉ AIJob.ID <$> new).
    { rewrite Eid. intros Hin. apply Hc. apply list_elem_of_fmap in Hin as (a & Ea & Ha).
      apply list_elem_of_lookup in Ha as [i Hi].
      destruct (Forall2_lookup_r _ _ _ _ _ I1 Hi) as (b & Hb & (E & _)).
      apply list_elem_of_fmap. exists b. split; [congruence|].
      apply list_elem_of_lookup_2 in Hb. eapply elem_of_submseteq; [exact Hb|].
      apply sublist_submseteq, sublist_take. }
    exists (u :: new). rewrite <- app_assoc in *. split; [|split; [rewrite !length_app in *; cbn in *; lia|done]].
    split.
    + cbn. by constructor.
    + intros a [->|Ha]%elem_of_cons; [|by apply I2]. rewrite I3 by done. cbn. apply lookup_insert_eq.
    + cbn. intros k [Hne Hk]%not_elem_of_cons. rewrite I3 by done. cbn. by apply lookup_insert_ne.
Qed.

(** The candidates of a claim: jobs of the repository that are ready, ranked. *)
Lemma ranked_candidates (p : AIJob.t -> bool) r acts now limit :
  keyed AIJob.ID (aiJobs r) ->
  let candidates := rankAIJobFairCandidates (List.filter p (map_values (aiJobs r)))
    (map_values (aiJobs r)) acts now limit in
  NoDup (AIJob.ID <$> candidates) /\
  forall job, job ∈ candidates -> aiJobs r !! AIJob.ID job = Some job /\ p job = true.
Proof.
  intros Hk. cbv zeta. set (candidates := rankAIJobFairCandidates _ _ _ _ _).
  destruct (rank_takes (List.filter p (map_values (aiJobs r))) (map_values (aiJobs r)) acts now limit) as [Hs _].
  fold candidates in Hs. split.
  - assert (Hnd : NoDup (AIJob.ID <$> List.filter p (map_values (aiJobs r)))).
    { apply (sublist_NoDup _ (AIJob.ID <$> map_values (aiJobs r))); [by apply values_NoDup|].
      apply sublist_fmap, filter_sublist. }
    apply submseteq_Permutation in Hs as [rest Hs]. rewrite Hs, fmap_app in Hnd. by apply NoDup_app in Hnd as [Hnd _].
  - intros job Hin. pose proof (elem_of_submseteq _ _ _ Hin Hs) as Hf.
    apply list_elem_of_In, filter_In in Hf as [Hf Hp]. split; [|done].
    by apply (keyed_values AIJob.ID), list_elem_of_In.
Qed.
End Inversion.

(** ** Lemmas: creation and release *)

Section Creation.
Context `{range : MapRange} `{unicode : UnicodeCase}.

Lemma validate_admission_inv operation job event outbox :
  validateDurableAIJobAdmission operation job event outbox = Ok tt ->
  AIOperation.ID operation = AIJob.OperationID job /\ AIJob.Status job = AIJobStatusQueued /\
  AIJob.StatusVersion job = 1 /\ describes event job /\ announces outbox event.
Proof.
  unfold validateDurableAIJobAdmission. intros H%guard_Ok. boolify.
  unfold describes, announces. split_and!; try congruence.
  left. match goal with E : AIJob.Status job = _ |- _ => rewrite E end. assumption.
Qed.

(** The maps an admission is inserted into. *)
Lemma insert_admission_frame admission r :
  let r' := insert_admission admission r in
  let hold := BillingHoldAdmission.Hold admission in
  r' = (r <| billingHolds := <[BillingHold.ID hold := hold]> (billingHolds r) |>
          <| pricingEvaluations := pricingEvaluations r' |>
          <| billingHoldPricingVersions := billingHoldPricingVersions r' |>).
Proof.
  cbv zeta. unfold insert_admission.
  assert (H1 : forall l r, foldl (fun r evaluation =>
      r.[pricingEvaluations]:[PricingEvaluation.ID evaluation] <- evaluation) r l =
    (r <| pricingEvaluations := foldl (fun m evaluation => <[PricingEvaluation.ID evaluation := evaluation]> m)
            (pricingEvaluations r) l |>)).
  { induction l as [|x l IH]; intros r1; cbn [foldl]; [by destruct r1|]. rewrite IH. by destruct r1. }
  assert (H2 : forall l r, foldl (fun r version => r.[billingHoldPricingVersions]:[
      (BillingHoldPricingVersion.HoldID version +:+ lf +:+ BillingHoldPricingVersion.Purpose version)%string]
      <- version) r l =
    (r <| billingHoldPricingVersions := foldl (fun m version => <[
       (BillingHoldPricingVersion.HoldID version +:+ lf +:+ BillingHoldPricingVersion.Purpose version)%string
       := version]> m) (billingHoldPricingVersions r) l |>)).
  { induction l as [|x l IH]; intros r1; cbn [foldl]; [by destruct r1|]. rewrite IH. by destruct r1. }
  rewrite H1, H2. by destruct r.
Qed.

#[local] Hint Resolve readonly_check_records readonly_check_admission : repo.

Lemma create_inv operation job event outbox limits billing r j created r' :
  CreateDurableAIJob operation job event outbox limits billing r = (Ok (j, created), r') ->
  (created = false /\ r' = r) \/
  (created = true /\ j = job /\
   let operation := normalizeAIOperation operation in
   validateDurableAIJobAdmission operation job event outbox = Ok tt /\
   validateBillingHoldAdmission operation billing = Ok tt /\
   enforceAIJobAdmissionLimits limits (aiJobAdmissionCountsForJobs (aiJobs r) job) = Ok tt /\
   aiJobs r !! AIJob.ID job = None /\
   aiJobEvents r !! AIJobEvent.ID event = None /\
   transactionalOutboxEvents r !! TransactionalOutboxEvent.ID outbox = None /\
   billingHolds r !! BillingHold.ID (BillingHoldAdmission.Hold billing) = None /\
   memoryBillingHoldForOperation (billingHolds r) (AIOperation.ID operation) = None /\
   enforceMemoryBillingHoldBudget r billing = Ok tt /\
   r' = insert_admission billing (commit_change operation (AIJob.ID job) job event outbox r)).
Proof.
  intros H. unfold CreateDurableAIJob in H. cbv zeta in H.
  apply readonly_bind_inv in H as [(e & _ & [=] & _)|([] & Hv & H)]; [|apply readonly_lift].
  apply readonly_bind_inv in H as [(e & _ & [=] & _)|([] & Hb & H)]; [|apply readonly_lift].
  apply readonly_bind_inv in H as [(e & _ & [=] & _)|([] & _ & H)]; [|apply readonly_lift].
  apply readonly_bind_inv in H as [(e & [=] & _)|(? & [= <-] & H)]; [|apply readonly_read]. unfold id in H.
  destruct (find_value _ _); [injection H as <- <- <-; by left|].
  apply readonly_bind_inv in H as [(e & _ & [=] & _)|([] & Hlim & H)]; [|apply readonly_lift].
  apply readonly_bind_inv in H as [(e & _ & [=] & _)|([] & _ & H)]; [|apply readonly_check].
  apply readonly_bind_inv in H as [(e & _ & [=] & _)|([] & Hj & H)]; [|apply readonly_check].
  apply readonly_bind_inv in H as [(e & _ & [=] & _)|([] & Hr & H)]; [|apply readonly_check_records].
  apply readonly_bind_inv in H as [(e & _ & [=] & _)|([] & Ha & H)]; [|apply readonly_check_admission].
  apply readonly_bind_inv in H as [(e & _ & [=] & _)|([] & Hbud & H)]; [|apply readonly_lift].
  injection H as <- <- <-. right. injection Hv as Hv. injection Hb as Hb. injection Hlim as Hlim.
  injection Hbud as Hbud.
  apply check_inv in Hj as [_ [[_ [=]]|[Hj%has_None _]]].
  apply check_records_inv in Hr as (_ & He & Ho). apply check_admission_inv in Ha as [Hh1 Hh2].
  by split_and!.
Qed.

(** Releasing the hold of an operation: an open hold that was not committed ends
    up released, and nothing else changes. *)
Lemma release_inv operationID reason at_ r r' :
  holds_ok (billingHolds r) ->
  releaseMemoryBillingHoldForOperation operationID reason at_ r = (Ok tt, r') ->
  r' = (r <| billingHolds := billingHolds r' |>) /\ holds_ok (billingHolds r') /\
  forall hold, memoryBillingHoldForOperation (billingHolds r) operationID = Some hold ->
    BillingHold.Status hold ∈ [BillingHoldStatusReserved; BillingHoldStatusDisputed] ->
    BillingHold.Status <$> billingHolds r' !! BillingHold.ID hold = Some BillingHoldStatusReleased.
Proof.
  intros Hr H. unfold releaseMemoryBillingHoldForOperation in H.
  apply readonly_bind_inv in H as [(e & [=] & _)|(found & [= <-] & H)]; [|apply readonly_read].
  destruct (memoryBillingHoldForOperation (billingHolds r) operationID) as [hold|] eqn:Ef.
  2: { injection H as <-. split_and!; [by destruct r|done|done]. }
  pose proof (proj1 (memoryHold_spec _ _ _ Hr) Ef) as [Hin _].
  destruct (oneOf _ _) eqn:Es.
  { injection H as <-. split_and!; [by destruct r|done|]. intros h [= <-] Hst. exfalso.
    apply oneOf_In in Es. elem_cases Hst; rewrite Hst in Es; elem_cases Es; done. }
  apply readonly_bind_inv in H as [(e & _ & [=] & _)|(updated & Hp & H)]; [|apply readonly_lift].
  injection H as <-. injection Hp as Hp. destruct (holds_keys _ Hr _ _ Hin) as [_ Hok].
  pose proof (prepareHold_ok _ _ _ _ _ _ Hok Hp) as Hok'.
  assert (Hst : BillingHold.ID updated = BillingHold.ID hold /\
    BillingHold.OperationID updated = BillingHold.OperationID hold /\
    BillingHold.Status updated = BillingHoldStatusReleased).
  { apply prepareHold_inv in Hp as [[-> E]|(_ & _ & E1 & E2 & E3 & _)]; [|done].
    by rewrite E in Es. }
  destruct Hst as (E1 & E2 & E3). split_and!; [by destruct r|by apply holds_update|].
  intros h [= <-] _. cbn. rewrite lookup_insert_eq. cbn. by rewrite E3.
Qed.
End Creation.

(** ** Lemmas: runs of claims *)

Section Claims.
Context `{range : MapRange} `{json : JSONText}.

(** Either way of claiming, with whatever answer: by scanning the queue, or by
    references from the ready index. *)
Definition claim_call (now leaseUntil : time) (workerID leaseToken : string) (limit : Z)
    (r : MemoryRepository) (x : result go_error (list AIJob.t)) (r' : MemoryRepository) : Prop :=
  ClaimQueuedAIJobs now leaseUntil workerID leaseToken limit r = (x, r') \/
  exists references,
    ClaimAIJobsByReadyReferences references now leaseUntil workerID leaseToken limit r = (x, r').
Definition claim_run (now leaseUntil : time) (workerID leaseToken : string) (limit : Z)
    (r : MemoryRepository) (claimed : list AIJob.t) (r' : MemoryRepository) : Prop :=
  claim_call now leaseUntil workerID leaseToken limit r (Ok claimed) r'.

Lemma claim_call_inv now leaseUntil workerID leaseToken limit r x r' :
  keyed AIJob.ID (aiJobs r) -> claim_call now leaseUntil workerID leaseToken limit r x r' ->
  exists candidates new, NoDup (AIJob.ID <$> candidates) /\
    (forall job, job ∈ candidates -> aiJobs r !! AIJob.ID job = Some job /\ aiJobReadyForClaim job now = true) /\
    claimed_from candidates new leaseUntil workerID leaseToken r r' /\
    Z.of_nat (length new) <= Z.max 0 limit /\ (x = Ok new \/ exists e, x = Err e).
Proof.
  intros Hk.
  assert (Hrun : forall p acts r', (forall job, p job = true -> aiJobReadyForClaim job now = true) ->
    claimAIJobCandidatesLocked (rankAIJobFairCandidates (List.filter p (map_values (aiJobs r)))
      (map_values (aiJobs r)) acts now limit) now leaseUntil workerID leaseToken limit [] r = (x, r') ->
    exists candidates new, NoDup (AIJob.ID <$> candidates) /\
      (forall job, job ∈ candidates -> aiJobs r !! AIJob.ID job = Some job /\ aiJobReadyForClaim job now = true) /\
      claimed_from candidates new leaseUntil workerID leaseToken r r' /\
      Z.of_nat (length new) <= Z.max 0 limit /\ (x = Ok new \/ exists e, x = Err e)).
  { intros p acts r1 Hp H. destruct (ranked_candidates p r acts now limit Hk) as [Hnd Hin].
    apply claim_all_inv in H as (new & Hc & Hlen & Hx); [|done].
    eexists _, new. split; [exact Hnd|]. split; [|by split].
    intros job Hj. destruct (Hin job Hj) as [H1 H2]. split; [done|by apply Hp]. }
  assert (Hnone : x = Ok [] -> exists candidates new, NoDup (AIJob.ID <$> candidates) /\
    (forall job, job ∈ candidates -> aiJobs r !! AIJob.ID job = Some job /\ aiJobReadyForClaim job now = true) /\
    claimed_from candidates new leaseUntil workerID leaseToken r r /\
    Z.of_nat (length new) <= Z.max 0 limit /\ (x = Ok new \/ exists e, x = Err e)).
  { intros ->. exists [], []. split; [constructor|]. split; [by intros ? ?%elem_of_nil|].
    split; [split; [constructor|by intros ? ?%elem_of_nil|done]|]. split; [cbn; lia|by left]. }
  intros [H|[references H]].
  - unfold ClaimQueuedAIJobs in H. destruct (_ || _); [injection H as <- <-; by apply Hnone|].
    by apply (Hrun (fun job => aiJobReadyForClaim job now)) in H.
  - unfold ClaimAIJobsByReadyReferences in H. destruct (_ || _); [injection H as <- <-; by apply Hnone|].
    apply (Hrun (fun job => (default 0 (wanted_versions references !! AIJob.ID job) =? AIJob.StatusVersion job)
      && aiJobReadyForClaim job now)) in H; [done|]. by intros job [_ ?]%andb_true_iff.
Qed.

Lemma claim_run_inv now leaseUntil workerID leaseToken limit r claimed r' :
  keyed AIJob.ID (aiJobs r) -> claim_run now leaseUntil workerID leaseToken limit r claimed r' ->
  exists candidates, NoDup (AIJob.ID <$> candidates) /\
    (forall job, job ∈ candidates -> aiJobs r !! AIJob.ID job = Some job /\ aiJobReadyForClaim job now = true) /\
    claimed_from candidates claimed leaseUntil workerID leaseToken r r' /\
    Z.of_nat (length claimed) <= Z.max 0 limit.
Proof.
  intros Hk H. destruct (claim_call_inv _ _ _ _ _ _ _ _ Hk H) as (candidates & new & H1 & H2 & H3 & H4 & [[= ->]|[e [=]]]).
  by exists candidates.
Qed.

Lemma claimed_NoDup candidates claimed leaseUntil workerID leaseToken r r' :
  NoDup (AIJob.ID <$> candidates) -> claimed_from candidates claimed leaseUntil workerID leaseToken r r' ->
  AIJob.ID <$> claimed = AIJob.ID <$> take (length claimed) candidates /\ NoDup (AIJob.ID <$> claimed).
Proof.
  intros Hnd [Hc _ _].
  assert (E : AIJob.ID <$> claimed = AIJob.ID <$> take (length claimed) candidates).
  { clear Hnd. induction Hc as [|a b l k (E & _) _ IH]; [done|]. cbn. by rewrite E, IH. }
  split; [done|]. rewrite E. apply (sublist_NoDup _ (AIJob.ID <$> candidates)); [done|].
  apply sublist_fmap, sublist_take.
Qed.

Lemma claimed_keyed candidates claimed leaseUntil workerID leaseToken r r' :
  claimed_from candidates claimed leaseUntil workerID leaseToken r r' ->
  keyed AIJob.ID (aiJobs r) -> keyed AIJob.ID (aiJobs r').
Proof.
  intros [_ Hs Ho] Hk k job Hj. destruct (decide (k ∈ AIJob.ID <$> claimed)) as [Hin|Hnot].
  - apply list_elem_of_fmap in Hin as (a & -> & Ha). rewrite (Hs a Ha) in Hj. by injection Hj as <-.
  - rewrite Ho in Hj by done. by apply (Hk k).
Qed.

(** Where a claimed job came from. *)
Lemma claimed_origin candidates claimed leaseUntil workerID leaseToken r r' job :
  claimed_from candidates claimed leaseUntil workerID leaseToken r r' -> job ∈ claimed ->
  exists before, before ∈ candidates /\ claim_of before job leaseUntil workerID leaseToken.
Proof.
  intros [Hc _ _] [i Hi]%list_elem_of_lookup.
  destruct (Forall2_lookup_r _ _ _ _ _ Hc Hi) as (before & Hb & Hof). exists before. split; [|done].
  apply list_elem_of_lookup_2 in Hb. eapply elem_of_submseteq; [exact Hb|].
  apply sublist_submseteq, sublist_take.
Qed.

(** A job whose lease runs is nobody else's candidate. *)
Lemma leased_not_ready job now until : AIJob.Status job = AIJobStatusDispatching ->
  AIJob.QueueLeaseUntil job = Some until -> now < until -> aiJobReadyForClaim job now = false.
Proof.
  intros Hs Hl Hnow. unfold aiJobReadyForClaim, lease_over. rewrite Hs, Hl. cbn.
  apply negb_false_iff. by apply Z.ltb_lt.
Qed.

Lemma leased_kept now leaseUntil workerID leaseToken limit r x r' job until :
  keyed AIJob.ID (aiJobs r) -> claim_call now leaseUntil workerID leaseToken limit r x r' ->
  aiJobs r !! AIJob.ID job = Some job -> AIJob.Status job = AIJobStatusDispatching ->
  AIJob.QueueLeaseUntil job = Some until -> now < until ->
  aiJobs r' !! AIJob.ID job = Some job /\
  forall claimed, x = Ok claimed -> AIJob.ID job ∉ AIJob.ID <$> claimed.
Proof.
  intros Hk H Hj Hs Hl Hnow. apply claim_call_inv in H as (candidates & new & _ & Hcand & Hc & _ & Hx); [|done].
  assert (Hnot : AIJob.ID job ∉ AIJob.ID <$> new).
  { intros (job' & Eid & Hin)%list_elem_of_fmap. destruct (claimed_origin _ _ _ _ _ _ _ _ Hc Hin) as (before & Hb & (E & _)).
    destruct (Hcand before Hb) as [H1 H2]. rewrite <- E, <- Eid, Hj in H1. injection H1 as <-.
    by rewrite (leased_not_ready _ _ _ Hs Hl Hnow) in H2. }
  split; [by rewrite (claimed_others _ _ _ _ _ _ _ Hc)|]. intros claimed ->. by destruct Hx as [[= ->]|[e [=]]].
Qed.

(** What a claim returns. *)
Lemma claim_returns now leaseUntil workerID leaseToken limit r claimed r' :
  keyed AIJob.ID (aiJobs r) -> claim_run now leaseUntil workerID leaseToken limit r claimed r' ->
  Z.of_nat (length claimed) <= Z.max 0 limit /\ NoDup (AIJob.ID <$> claimed) /\
  (forall job, job ∈ claimed -> aiJobs r' !! AIJob.ID job = Some job /\
     exists before, aiJobs r !! AIJob.ID job = Some before /\ aiJobReadyForClaim before now = true /\
       claim_of before job leaseUntil workerID leaseToken).
Proof.
  intros Hk (candidates & Hnd & Hcand & Hc & Hlen)%claim_run_inv; [|done].
  destruct (claimed_NoDup _ _ _ _ _ _ _ Hnd Hc) as [_ Hnd'].
  split; [done|]. split; [done|]. intros job Hin. split; [by apply Hc|].
  destruct (claimed_origin _ _ _ _ _ _ _ _ Hc Hin) as (before & Hb & Hof).
  destruct (Hcand before Hb) as [H1 H2]. exists before. split; [|done]. destruct Hof as (-> & _). done.
Qed.
End Claims.

(** ** Properties *)

Section Properties.
Context `{range : MapRange} `{unicode : UnicodeCase} `{json : JSONText}.

(** C18. A job is created together with its operation, its event, its outbox event
    and its billing hold, and never beyond a limit: after a creation the queued
    and dispatched jobs of the installation, of the application and of the
    principal number at most what the enabled limits allow. *)
Theorem creation_within_limits operation job event outbox limits billing r j r' :
  CreateDurableAIJob operation job event outbox limits billing r = (Ok (j, true), r') ->
  (aiJobs r' !! AIJob.ID job = Some job /\
   aiOperations r' !! AIJob.OperationID job = Some (normalizeAIOperation operation) /\
   aiJobEvents r' !! AIJobEvent.ID event = Some event /\
   transactionalOutboxEvents r' !! TransactionalOutboxEvent.ID outbox = Some outbox /\
   billingHolds r' !! BillingHold.ID (BillingHoldAdmission.Hold billing) = Some (BillingHoldAdmission.Hold billing)) /\
  (0 < Organization limits -> number_of in_organization (aiJobs r') <= Organization limits) /\
  (0 < Application limits -> number_of (in_application job) (aiJobs r') <= Application limits) /\
  (0 < Principal limits -> number_of (of_principal job) (aiJobs r') <= Principal limits).
Proof.
  intros [[[=] _]|(_ & _ & Hv & _ & Hlim & Hj & _ & _ & _ & _ & _ & ->)]%create_inv.
  apply validate_admission_inv in Hv as (Eop & Est & _ & _ & _).
  rewrite insert_admission_frame. cbn. rewrite counts_number in Hlim. apply enforce_iff in Hlim as (L1 & L2 & L3).
  split; [rewrite <- Eop; by rewrite !lookup_insert_eq|].
  assert (Hone : forall p, number_of p (<[AIJob.ID job := job]> (aiJobs r)) <= 1 + number_of p (aiJobs r)).
  { intros p. rewrite number_of_insert by done. destruct (p job); lia. }
  pose proof (Hone in_organization). pose proof (Hone (in_application job)). pose proof (Hone (of_principal job)).
  split_and!; lia.
Qed.

(** Cancelling a job that no worker has taken cancels it and its operation and
    frees its money in one step: the job is cancelled, an open operation is
    cancelled, and a hold that was reserved or disputed is released. *)
Theorem cancellation_before_dispatch id owner at_ r o r' job operation :
  holds_ok (billingHolds r) ->
  aiJobs r !! id = Some job -> AIJob.Status job ∈ [AIJobStatusAccepted; AIJobStatusQueued] ->
  aiOperations r !! AIJob.OperationID job = Some operation -> keyed AIOperation.ID (aiOperations r) ->
  RequestAIJobCancellation id owner at_ r = (Ok (o, true), r') ->
  (AIJob.Status <$> aiJobs r' !! id = Some AIJobStatusCanceled) /\
  (AIOperation.ID operation <> ""%string ->
   AIOperation.Status operation ∈ [AIOperationStatusAccepted; AIOperationStatusRunning] ->
   AIOperation.Status <$> aiOperations r' !! AIJob.OperationID job = Some AIOperationStatusCanceled) /\
  (forall hold, memoryBillingHoldForOperation (billingHolds r) (AIJob.OperationID job) = Some hold ->
   BillingHold.Status hold ∈ [BillingHoldStatusReserved; BillingHoldStatusDisputed] ->
   BillingHold.Status <$> billingHolds r' !! BillingHold.ID hold = Some BillingHoldStatusReleased).
Proof.
  intros Hh Hj Hst Hop Hk H. unfold RequestAIJobCancellation in H.
  apply readonly_bind_inv in H as [(e & [=] & _)|(found & [= <-] & H)]; [|apply readonly_read].
  unfold FindOwnedAIJob in H. rewrite Hj in H. destruct (negb _); [done|].
  apply cancel_inv in H as [[[=] _]|(_ & toStatus & updated & event & outbox & op & r1 & Hs & Hop' & _ & _ &
    [_ Hto] & Hrel & ->)]; [|done].
  rewrite (Hto Hst) in *. str_eval. apply release_inv in Hrel as (Er & _ & Hhold); [|done].
  assert (op = operation) as -> by congruence. destruct Hs as [_ _ _ Hs _ _ _].
  split; [cbn; rewrite lookup_insert_eq; cbn; by rewrite Hs|]. split; [|exact Hhold].
  intros Hid Hopen. unfold commit_change. cbn.
  assert (Ea : forall e, AIOperation.Status (applyMemoryOperationJobStatus operation AIJobStatusCanceled e at_)
      = AIOperationStatusCanceled /\
    AIOperation.ID (applyMemoryOperationJobStatus operation AIJobStatusCanceled e at_) = AIOperation.ID operation).
  { intros e. unfold applyMemoryOperationJobStatus. rewrite (proj2 (String.eqb_neq _ _) Hid). str_eval.
    elem_cases Hopen; rewrite Hopen; str_eval; done. }
  rewrite Hs. destruct (Ea (AIJob.ErrorType updated)) as [E1 E2]. rewrite E2.
  rewrite (Hk _ _ Hop), lookup_insert_eq. cbn. by rewrite E1.
Qed.
End Properties.

(** ** A job *)

Module Demo.
#[local] Existing Instance canonical_range.
#[local] Instance no_unicode : UnicodeCase := fun s => s.
#[local] Instance no_escapes : JSONText := fun s => s.
Open Scope string_scope.

Definition operation : AIOperation.t :=
  AIOperation.zero <| AIOperation.ID := "op1" |> <| AIOperation.ApplicationID := "app" |>
    <| AIOperation.CredentialID := "key" |> <| AIOperation.RequestFingerprint := "fp" |>
    <| AIOperation.Lane := "durable" |> <| AIOperation.IdempotencyKey := "k" |>
    <| AIOperation.ArtifactPolicy := GatewayArtifactPolicyProxyOnly |>
    <| AIOperation.Status := AIOperationStatusAccepted |>.
Definition job : AIJob.t :=
  AIJob.zero <| AIJob.ID := "j1" |> <| AIJob.OperationID := "op1" |> <| AIJob.ApplicationID := "app" |>
    <| AIJob.Status := AIJobStatusQueued |> <| AIJob.StatusVersion := 1%Z |>
    <| AIJob.RequestFingerprint := "fp" |> <| AIJob.IdempotencyKey := "k" |>
    <| AIJob.RequestPayloadCiphertext := "c" |>
    <| AIJob.ArtifactPolicy := GatewayArtifactPolicyProxyOnly |>.
Definition records : AIJobEvent.t * TransactionalOutboxEvent.t :=
  match newAIJobTransitionRecords job "" "" (32 * day)%Z with
  | Ok records => records
  | Err _ => (AIJobEvent.zero, TransactionalOutboxEvent.zero)
  end.
Definition limits : AIJobAdmissionLimits := mkLimits 1 1 1.
Definition billing : BillingHoldAdmission.t := BillingHolds.Demo.admission "h1" "op1" 1 100.
Definition created : MemoryRepository :=
  snd (CreateDurableAIJob operation job (fst records) (snd records) limits billing NewMemoryRepository).
Definition owner : AIJobOwner.t := AIJobOwner.zero <| AIJobOwner.ApplicationID := "app" |>.
Close Scope string_scope.

Lemma created_holds : holds_ok (billingHolds created).
Proof.
  assert (E : billingHolds created =
    {["h1"%string := BillingHolds.Demo.hold "h1" "op1" BillingHoldStatusReserved 1]})
    by (vm_compute; reflexivity).
  rewrite E. change {["h1"%string := BillingHolds.Demo.hold "h1" "op1" BillingHoldStatusReserved 1]}
    with (billingHolds BillingHolds.Demo.one_hold). apply BillingHolds.Demo.one_hold_ok.
Qed.

Lemma created_keyed : keyed AIJob.ID (aiJobs created) /\ keyed AIOperation.ID (aiOperations created).
Proof.
  assert (E : aiJobs created = {["j1"%string := job]} /\
    aiOperations created = {["op1"%string := normalizeAIOperation operation]})
    by (split; vm_compute; reflexivity).
  destruct E as [-> ->]. split; apply map_Forall_singleton; reflexivity.
Qed.
End Demo.

#[local] Notation create := (CreateDurableAIJob (range := canonical_range) (H := Demo.no_unicode)
  Demo.operation Demo.job (fst Demo.records) (snd Demo.records) Demo.limits Demo.billing).
#[local] Notation cancel := (RequestAIJobCancellation (range := canonical_range) (json := Demo.no_escapes)
  "j1" Demo.owner (33 * day)).

Lemma creation_within_limits_witness :
  match create NewMemoryRepository with
  | (Ok (_, true), r') => number_of in_organization (aiJobs r') <= 1
  | _ => False
  end.
Proof.
  assert (El : match fst (create NewMemoryRepository) with Ok (_, b) => b | Err _ => false end = true)
    by (vm_compute; reflexivity).
  destruct (create NewMemoryRepository) as [[[j []]|e] r'] eqn:E; [|discriminate El|discriminate El].
  refine (proj1 (proj2 (creation_within_limits (range := canonical_range) (unicode := Demo.no_unicode)
    Demo.operation Demo.job (fst Demo.records) (snd Demo.records) Demo.limits Demo.billing NewMemoryRepository j r' E)) _).
  reflexivity.
Defined.

Lemma cancellation_before_dispatch_witness :
  match cancel Demo.created with
  | (Ok (_, true), r') =>
      BillingHold.Status <$> billingHolds r' !! "h1"%string = Some BillingHoldStatusReleased
  | _ => False
  end.
Proof.
  assert (El : match fst (cancel Demo.created) with Ok (_, b) => b | Err _ => false end = true)
    by (vm_compute; reflexivity).
  destruct (cancel Demo.created) as [[[o []]|e] r'] eqn:E; [|discriminate El|discriminate El].
  refine (proj2 (proj2 (cancellation_before_dispatch (range := canonical_range) (json := Demo.no_escapes)
    "j1" Demo.owner (33 * day) Demo.created o r' Demo.job (normalizeAIOperation Demo.operation)
    Demo.created_holds _ _ _ (proj2 Demo.created_keyed) E))
    (BillingHolds.Demo.hold "h1" "op1" BillingHoldStatusReserved 1) _ _).
  - vm_compute. reflexivity.
  - apply (bool_decide_unpack _). vm_compute. exact I.
  - vm_compute. reflexivity.
  - vm_compute. reflexivity.
  - apply (bool_decide_unpack _). vm_compute. exact I.
Defined.
