(* ===== verification/ReadyIndex.v ===== *)
(** * Durable jobs: the ready index

    [backend/internal/controlplane/ai_job_ready_index.go]: the entries the
    scheduler looks candidates up by, their versions, and the round robin
    between principals.  Each operation of the index in memory is one critical
    section of its mutex. *)

From S2P Require Import Prelude Repository JobModel JobRepository.

Definition ErrAIJobReadyIndexConfig : go_error := ErrNew "invalid ai job ready index configuration".
Definition ErrAIJobReadyIndexConflict : go_error := ErrNew "ai job ready index version conflict".

Definition AIJobReadyScopeAll := "all"%string.
Definition AIJobReadyScopeApplication := "application"%string.
Definition AIJobReadyScopePrincipal := "principal"%string.

Module AIJobReadyEntry.
Record t := mk {
  JobID : string;
  Status : string;
  StatusVersion : Z;
  FenceToken : Z;
  ApplicationID : string;
  CredentialSource : string;
  IntegrationID : string;
  PrincipalType : string;
  PrincipalID : string;
  ExternalSubjectReference : string;
  Priority : Z;
  ReadyAt : time;
  CreatedAt : time;
}.
#[export] Instance eq_dec : EqDecision t.
Proof. solve_decision. Defined.
End AIJobReadyEntry.
Export (hints) AIJobReadyEntry.

Record AIJobReadyQuery := mkQuery { QueryReadyAt : time; QueryLimit : Z }.

Module AIJobReadyScope.
Record t := mk {
  Level : string;
  ApplicationID : string;
  CredentialSource : string;
  IntegrationID : string;
  PrincipalType : string;
  PrincipalID : string;
  ExternalSubjectReference : string;
}.
End AIJobReadyScope.

Notation entry := AIJobReadyEntry.t (only parsing).

Definition normalizeAIJobReadyEntry (e : entry) : entry :=
  AIJobReadyEntry.mk (TrimSpace (AIJobReadyEntry.JobID e)) (TrimSpace (AIJobReadyEntry.Status e))
    (AIJobReadyEntry.StatusVersion e) (AIJobReadyEntry.FenceToken e)
    (TrimSpace (AIJobReadyEntry.ApplicationID e)) (TrimSpace (AIJobReadyEntry.CredentialSource e))
    (TrimSpace (AIJobReadyEntry.IntegrationID e)) (TrimSpace (AIJobReadyEntry.PrincipalType e))
    (TrimSpace (AIJobReadyEntry.PrincipalID e)) (TrimSpace (AIJobReadyEntry.ExternalSubjectReference e))
    (AIJobReadyEntry.Priority e) (AIJobReadyEntry.ReadyAt e) (AIJobReadyEntry.CreatedAt e).

Definition validateAIJobReadyEntry (e : entry) : option go_error :=
  if (TrimSpace (AIJobReadyEntry.JobID e) =s "") || (AIJobReadyEntry.StatusVersion e <=? 0)
     || (TrimSpace (AIJobReadyEntry.ApplicationID e) =s "") || (TrimSpace (AIJobReadyEntry.PrincipalID e) =s "")
     || IsZero (AIJobReadyEntry.ReadyAt e) || IsZero (AIJobReadyEntry.CreatedAt e)
     || negb (oneOf (AIJobReadyEntry.Status e) [AIJobStatusQueued; AIJobStatusDispatching])
  then Some ErrAIJobReadyIndexConfig else None.

Definition newAIJobReadyEntry (job : AIJob.t) : result go_error entry :=
  let readyAt := aiJobReadyAt job in
  match AIJob.Status job =s AIJobStatusDispatching, AIJob.QueueLeaseUntil job with
  | true, None => Err ErrAIJobReadyIndexConfig
  | _, _ =>
      let e := normalizeAIJobReadyEntry (AIJobReadyEntry.mk (AIJob.ID job) (AIJob.Status job)
        (AIJob.StatusVersion job) (AIJob.FenceToken job) (AIJob.ApplicationID job)
        (AIJob.CredentialSource job) (AIJob.IntegrationID job) (AIJob.PrincipalType job)
        (AIJob.PrincipalID job) (AIJob.ExternalSubjectReference job) (AIJob.Priority job) readyAt
        (AIJob.CreatedAt job)) in
      match validateAIJobReadyEntry e with Some err => Err err | None => Ok e end
  end.

Definition entry_reference (e : entry) : AIJobReadyReference :=
  mkReference (AIJobReadyEntry.JobID e) (AIJobReadyEntry.StatusVersion e).

(** ** Scopes *)

Definition aiJobReadyScopeForEntry (level : string) (e : entry) : AIJobReadyScope.t :=
  AIJobReadyScope.mk level (AIJobReadyEntry.ApplicationID e) (AIJobReadyEntry.CredentialSource e)
    (AIJobReadyEntry.IntegrationID e) (AIJobReadyEntry.PrincipalType e) (AIJobReadyEntry.PrincipalID e)
    (AIJobReadyEntry.ExternalSubjectReference e).

Definition validateAIJobReadyScope (scope : AIJobReadyScope.t) : option go_error :=
  let level := AIJobReadyScope.Level scope in
  let application := TrimSpace (AIJobReadyScope.ApplicationID scope) <>s "" in
  if level =s AIJobReadyScopeAll then None
  else if (level =s AIJobReadyScopeApplication) && application then None
  else if (level =s AIJobReadyScopePrincipal) && application
          && (TrimSpace (AIJobReadyScope.PrincipalID scope) <>s "") then None
  else Some ErrAIJobReadyIndexConfig.

Definition aiJobReadyScopeKey (scope : AIJobReadyScope.t) : string :=
  let level := AIJobReadyScope.Level scope in
  if level =s AIJobReadyScopeAll then AIJobReadyScopeAll
  else if level =s AIJobReadyScopeApplication then TrimSpace (AIJobReadyScope.ApplicationID scope)
  else if level =s AIJobReadyScopePrincipal then
    (TrimSpace (AIJobReadyScope.ApplicationID scope) +:+ nul
     +:+ TrimSpace (AIJobReadyScope.CredentialSource scope) +:+ nul
     +:+ TrimSpace (AIJobReadyScope.IntegrationID scope) +:+ nul
     +:+ TrimSpace (AIJobReadyScope.PrincipalType scope) +:+ nul
     +:+ TrimSpace (AIJobReadyScope.PrincipalID scope) +:+ nul
     +:+ TrimSpace (AIJobReadyScope.ExternalSubjectReference scope))%string
  else "".

(** ** The round robin *)

Definition candidate_less (i j : entry) : bool :=
  if negb (AIJobReadyEntry.ReadyAt i =? AIJobReadyEntry.ReadyAt j)
  then Before (AIJobReadyEntry.ReadyAt i) (AIJobReadyEntry.ReadyAt j)
  else if negb (AIJobReadyEntry.Priority i =? AIJobReadyEntry.Priority j)
  then AIJobReadyEntry.Priority i >? AIJobReadyEntry.Priority j
  else if negb (AIJobReadyEntry.CreatedAt i =? AIJobReadyEntry.CreatedAt j)
  then Before (AIJobReadyEntry.CreatedAt i) (AIJobReadyEntry.CreatedAt j)
  else str_ltb (AIJobReadyEntry.JobID i) (AIJobReadyEntry.JobID j).

(** The due time of the first entry of a group, which is never empty. *)
Definition first_ready (groups : gmap string (list entry)) (key : string) : time :=
  match groups !! key with Some (e :: _) => AIJobReadyEntry.ReadyAt e | _ => 0 end.
Definition group_less (groups : gmap string (list entry)) (i j : string) : bool :=
  if negb (first_ready groups i =? first_ready groups j)
  then Before (first_ready groups i) (first_ready groups j) else str_ltb i j.

(** One round over the keys: the entry number [round] of each group that has
    one, until the limit; the flag is [added]. *)
Fixpoint round_pass (groups : gmap string (list entry)) (round : nat) (limit : Z) (keys : list string)
    (out : list entry) (added : bool) : list entry * bool :=
  match keys with
  | [] => (out, added)
  | key :: rest =>
      match default [] (groups !! key) !! round with
      | None => round_pass groups round limit rest out added
      | Some e =>
          let out := out ++ [e] in
          if Z.of_nat (length out) =? limit then (out, true)
          else round_pass groups round limit rest out true
      end
  end.
Fixpoint round_loop (fuel : nat) (groups : gmap string (list entry)) (round : nat) (limit : Z)
    (keys : list string) (out : list entry) : list entry :=
  match fuel with
  | O => out
  | S fuel' =>
      if Z.of_nat (length out) <? limit then
        let '(out', added) := round_pass groups round limit keys out false in
        if added then round_loop fuel' groups (S round) limit keys out' else out'
      else out
  end.

Section ReadyIndex.
Context `{range : MapRange}.

Definition roundRobinAIJobReadyCandidates (groups : gmap string (list entry)) (limit : Z) : list entry :=
  if (limit <=? 0) || (Z.of_nat (size groups) =? 0) then []
  else
    let sorted := sort_by candidate_less <$> groups in
    let keys := sort_by (group_less sorted) (map_range groups).*1 in
    round_loop (S (Z.to_nat limit)) sorted 0 limit keys [].

(** ** The index *)

Definition MemoryAIJobReadyIndex : Type := gmap string entry.
Definition NewMemoryAIJobReadyIndex : MemoryAIJobReadyIndex := ∅.

Definition Register (e : entry) (index : MemoryAIJobReadyIndex) : result go_error unit * MemoryAIJobReadyIndex :=
  let e := normalizeAIJobReadyEntry e in
  match validateAIJobReadyEntry e with
  | Some err => (Err err, index)
  | None =>
      match index !! AIJobReadyEntry.JobID e with
      | Some current =>
          if AIJobReadyEntry.StatusVersion current >? AIJobReadyEntry.StatusVersion e then (Ok tt, index)
          else if (AIJobReadyEntry.StatusVersion current =? AIJobReadyEntry.StatusVersion e)
                  && negb (bool_decide (current = e))
          then (Err ErrAIJobReadyIndexConflict, index)
          else (Ok tt, <[AIJobReadyEntry.JobID e := e]> index)
      | None => (Ok tt, <[AIJobReadyEntry.JobID e := e]> index)
      end
  end.

Definition Remove (reference : AIJobReadyReference) (index : MemoryAIJobReadyIndex)
    : result go_error unit * MemoryAIJobReadyIndex :=
  if (TrimSpace (ReferenceJobID reference) =s "") || (ReferenceStatusVersion reference <=? 0)
  then (Err ErrAIJobReadyIndexConfig, index)
  else match index !! ReferenceJobID reference with
       | Some current =>
           if AIJobReadyEntry.StatusVersion current =? ReferenceStatusVersion reference
           then (Ok tt, delete (ReferenceJobID reference) index) else (Ok tt, index)
       | None => (Ok tt, index)
       end.

Definition principal_key (e : entry) : string :=
  aiJobReadyScopeKey (aiJobReadyScopeForEntry AIJobReadyScopePrincipal e).
Definition add_to_group (readyAt : time) (groups : gmap string (list entry)) (e : entry)
    : gmap string (list entry) :=
  if negb (After (AIJobReadyEntry.ReadyAt e) readyAt)
  then <[principal_key e := default [] (groups !! principal_key e) ++ [e]]> groups else groups.

Definition Candidates (query : AIJobReadyQuery) (index : MemoryAIJobReadyIndex) : list entry :=
  if IsZero (QueryReadyAt query) || (QueryLimit query <=? 0) then []
  else roundRobinAIJobReadyCandidates
         (foldl (add_to_group (QueryReadyAt query)) ∅ (map_values index)) (QueryLimit query).

Definition Count (scope : AIJobReadyScope.t) (index : MemoryAIJobReadyIndex) : result go_error Z :=
  match validateAIJobReadyScope scope with
  | Some err => Err err
  | None =>
      let want := aiJobReadyScopeKey scope in
      Ok (foldl (fun count e =>
            if (AIJobReadyScope.Level scope =s AIJobReadyScopeAll)
               || (aiJobReadyScopeKey (aiJobReadyScopeForEntry (AIJobReadyScope.Level scope) e) =s want)
            then count +i 1 else count) 0 (map_values index))
  end.
End ReadyIndex.

(** ** Lemmas: rounds *)

#[local] Notation jid := AIJobReadyEntry.JobID.

(** The entries of a principal, in order. *)
Definition entries_of (p : string) (l : list entry) : list entry := filter (fun e => principal_key e = p) l.

Lemma entries_of_app p l k : entries_of p (l ++ k) = entries_of p l ++ entries_of p k.
Proof. apply filter_app. Qed.

Lemma elem_of_entries p l e : e ∈ entries_of p l <-> principal_key e = p /\ e ∈ l.
Proof. unfold entries_of. by rewrite list_elem_of_filter. Qed.

Lemma NoDup_entries l : (forall p, NoDup (entries_of p l)) -> NoDup l.
Proof.
  induction l as [|e l IH]; intros H; constructor.
  - specialize (H (principal_key e)). unfold entries_of in H. rewrite filter_cons_True in H by done.
    apply NoDup_cons in H as [H _]. intros He. apply H. by apply elem_of_entries.
  - apply IH. intros p. specialize (H p). unfold entries_of in *. rewrite filter_cons in H.
    destruct (decide _); [by apply NoDup_cons in H as [_ ?]|done].
Qed.

Section Rounds.
Context (groups : gmap string (list entry)) (limit : Z) (keys : list string).

#[local] Notation group k := (default [] (groups !! k)).

Hypothesis groups_keyed : forall k e, e ∈ group k -> principal_key e = k.
Hypothesis keys_complete : forall k, group k <> [] -> k ∈ keys.
Hypothesis keys_NoDup : NoDup keys.

(** What a round adds: the entry number [round] of some first keys, of all of
    them unless the limit is reached. *)
Lemma pass_spec round ks out added out' added' :
  Z.of_nat (length out) < limit -> round_pass groups round limit ks out added = (out', added') ->
  exists ks1 ks2, ks = ks1 ++ ks2 /\ out' = out ++ omap (fun k => group k !! round) ks1 /\
    Z.of_nat (length out') <= limit /\ (ks2 = [] \/ Z.of_nat (length out') = limit) /\
    (added' = added \/ (length out < length out')%nat) /\
    (added' = false -> added = false /\ omap (fun k => group k !! round) ks1 = []).
Proof.
  revert out added. induction ks as [|k ks IH]; intros out added Hlt; cbn.
  { intros [= <- <-]. exists [], []. cbn. rewrite app_nil_r. split_and!; auto; lia. }
  destruct (group k !! round) as [e|] eqn:Ek.
  - destruct (Z.eqb_spec (Z.of_nat (length (out ++ [e]))) limit) as [Heq|Hne].
    + intros [= <- <-]. exists [k], ks. cbn. rewrite Ek. rewrite length_app in *. cbn in *.
      split_and!; auto; try done; lia.
    + intros Hp. apply IH in Hp as (ks1 & ks2 & -> & -> & H1 & H2 & H3 & H4);
        [|rewrite length_app in *; cbn in *; lia].
      exists (k :: ks1), ks2. cbn. rewrite Ek, <- app_assoc. split_and!; try done.
      * by rewrite <- app_assoc in H1.
      * by rewrite <- app_assoc in H2.
      * right. rewrite !length_app. cbn. lia.
      * intros Hf. by destruct (H4 Hf).
  - intros Hp. apply IH in Hp as (ks1 & ks2 & -> & -> & Hrest); [|done].
    exists (k :: ks1), ks2. cbn. rewrite Ek. by split_and!; try apply Hrest.
Qed.

Lemma omap_entries round ks p : NoDup ks ->
  entries_of p (omap (fun k => group k !! round) ks) =
  if decide (p ∈ ks) then option_list (group p !! round) else [].
Proof.
  induction 1 as [|k ks Hk _ IH]; [by rewrite decide_False by (by intros ?%elem_of_nil)|].
  destruct (decide (p = k)) as [->|Hne].
  - rewrite (decide_False (P := k ∈ ks)) in IH by done.
    rewrite decide_True by (apply elem_of_cons; by left).
    cbn. destruct (group k !! round) as [e|] eqn:E; [|done]. unfold entries_of in *.
    rewrite filter_cons_True, IH; [done|]. eapply groups_keyed, list_elem_of_lookup_2, E.
  - assert (E : entries_of p (omap (fun k => group k !! round) (k :: ks)) =
                entries_of p (omap (fun k => group k !! round) ks)).
    { cbn. destruct (group k !! round) as [e|] eqn:E; [|done]. unfold entries_of. rewrite filter_cons_False; [done|].
      apply list_elem_of_lookup_2 in E. rewrite (groups_keyed k e E). done. }
    rewrite E, IH. destruct (decide (p ∈ ks)).
    + by rewrite decide_True by (apply elem_of_cons; by right).
    + rewrite decide_False; [done|]. by intros [?|?]%elem_of_cons.
Qed.

(** A state of the loop: the first [round] entries of every group are out. *)
Definition rounds_done (round : nat) (out : list entry) : Prop := forall p, entries_of p out = take round (group p).

(** What the loop ends with. *)
Definition fair_rounds (out : list entry) : Prop :=
  Z.of_nat (length out) <= limit /\
  (Z.of_nat (length out) = limit \/ forall p, entries_of p out = group p) /\
  exists round, forall p, entries_of p out = take round (group p) \/ entries_of p out = take (S round) (group p).

Lemma take_option (l : list entry) n : take (S n) l = take n l ++ option_list (l !! n).
Proof.
  destruct (l !! n) as [x|] eqn:E; cbn; [by apply take_S_r|].
  apply lookup_ge_None in E. rewrite app_nil_r, !take_ge; [done|lia|lia].
Qed.

Lemma loop_fair fuel round out :
  (Z.to_nat limit - length out < fuel)%nat -> Z.of_nat (length out) <= limit -> rounds_done round out ->
  fair_rounds (round_loop fuel groups round limit keys out).
Proof.
  revert round out. induction fuel as [|fuel IH]; intros round out Hf Hl Hd; [lia|]. cbn.
  destruct (Z.ltb_spec (Z.of_nat (length out)) limit) as [Hlt|Hge].
  2: { split; [done|]. split; [left; lia|]. exists round. intros p. left. apply Hd. }
  destruct (round_pass _ _ _ _ _ _) as [out' added] eqn:Ep.
  apply pass_spec in Ep as (ks1 & ks2 & Eks & -> & H1 & H2 & H3 & H4); [|done].
  assert (Hnd1 : NoDup ks1) by (rewrite Eks in keys_NoDup; by apply NoDup_app in keys_NoDup as [? _]).
  assert (Hp : forall p, entries_of p (out ++ omap (fun k => group k !! round) ks1) =
    if decide (p ∈ ks1) then take (S round) (group p) else take round (group p)).
  { intros p. rewrite entries_of_app, omap_entries, Hd by done.
    destruct (decide (p ∈ ks1)); [by rewrite take_option|apply app_nil_r]. }
  assert (Hall : ks2 = [] -> forall p, p ∉ ks1 -> group p = []).
  { intros E p Hp'. destruct (group p) as [|e l] eqn:Eg; [done|]. exfalso. apply Hp'.
    rewrite E, app_nil_r in Eks. rewrite <- Eks. apply keys_complete. by rewrite Eg. }
  destruct added.
  - destruct H2 as [E|Hfull].
    + apply IH; [destruct H3 as [[=]|?]; lia|done|]. intros p. rewrite Hp.
      destruct (decide _); [done|]. by rewrite (Hall E p) by done; rewrite !take_nil.
    + destruct fuel as [|fuel']; cbn; [|rewrite (proj2 (Z.ltb_ge _ _)) by lia];
        (split; [done|]; split; [by left|]; exists round; intros p; rewrite Hp; destruct (decide _); auto).
  - destruct (H4 eq_refl) as [_ Hnil]. rewrite Hnil, app_nil_r in *. destruct H2 as [E|]; [|lia].
    split; [done|]. split; [right|exists round; intros p; left; apply Hd].
    intros p. rewrite Hd. apply take_ge. destruct (decide (p ∈ ks1)) as [Hin|Hout].
    + specialize (Hp p). rewrite (decide_True (P := p ∈ ks1)), take_option, Hd in Hp by done.
      destruct (group p !! round) as [e|] eqn:Eg; [|by apply lookup_ge_None in Eg].
      apply (f_equal length) in Hp. rewrite length_app in Hp. cbn in Hp. lia.
    + rewrite (Hall E p Hout). cbn. lia.
Qed.
End Rounds.

(** ** Lemmas: grouping *)

Definition is_due (at_ : time) (e : entry) : bool := negb (After (AIJobReadyEntry.ReadyAt e) at_).

Lemma group_of at_ l groups p :
  default [] (foldl (add_to_group at_) groups l !! p) =
  default [] (groups !! p) ++ entries_of p (List.filter (is_due at_) l).
Proof.
  revert groups. induction l as [|e l IH]; intros groups; cbn; [by rewrite app_nil_r|].
  rewrite IH. unfold add_to_group. fold (is_due at_ e). destruct (is_due at_ e); [|done].
  unfold entries_of. rewrite filter_cons. destruct (decide (principal_key e = p)) as [<-|Hne].
  - rewrite lookup_insert_eq. cbn. by rewrite <- app_assoc.
  - by rewrite lookup_insert_ne.
Qed.

Lemma sorted_group (groups : gmap string (list entry)) p :
  default [] ((sort_by candidate_less <$> groups) !! p) ≡ₚ default [] (groups !! p).
Proof. rewrite lookup_fmap. destruct (groups !! p); cbn; [apply sort_by_perm|done]. Qed.

Lemma group_nonempty `{MapRange} (groups : gmap string (list entry)) less p :
  default [] ((sort_by candidate_less <$> groups) !! p) <> [] -> p ∈ sort_by less (map_range groups).*1.
Proof.
  intros Hp. apply elem_of_sort_by. rewrite map_range_perm. rewrite lookup_fmap in Hp.
  destruct (groups !! p) as [l|] eqn:E; [|done]. apply (list_elem_of_fmap_2 fst _ (p, l)).
  by apply elem_of_map_to_list.
Qed.

Section Properties.
Context `{range : MapRange}.

Lemma candidates_rounds query (index : MemoryAIJobReadyIndex) :
  QueryReadyAt query <> 0 -> 0 < QueryLimit query ->
  exists groups : gmap string (list entry),
    (forall p, default [] (groups !! p) ≡ₚ entries_of p (List.filter (is_due (QueryReadyAt query)) (map_values index))) /\
    fair_rounds groups (QueryLimit query) (Candidates query index).
Proof.
  intros Hat Hlimit. unfold Candidates. unfold IsZero.
  rewrite (proj2 (Z.eqb_neq _ _) Hat), (proj2 (Z.leb_gt _ _)) by done. cbn [orb].
  set (g := foldl _ _ _). exists (sort_by candidate_less <$> g).
  assert (Hg : forall p, default [] ((sort_by candidate_less <$> g) !! p)
    ≡ₚ entries_of p (List.filter (is_due (QueryReadyAt query)) (map_values index))).
  { intros p. rewrite sorted_group. unfold g. by rewrite group_of, lookup_empty. }
  split; [exact Hg|]. unfold roundRobinAIJobReadyCandidates. rewrite (proj2 (Z.leb_gt _ _)) by done. cbn [orb].
  destruct (Z.eqb_spec (Z.of_nat (size g)) 0) as [Hz|Hz].
  - assert (Hnil : g = ∅) by (apply map_size_empty_inv; lia).
    split; [cbn; lia|]. rewrite Hnil. split; [right|exists O; left; by rewrite take_0].
    intros p. by rewrite fmap_empty, lookup_empty.
  - apply loop_fair.
    + intros p e He. rewrite Hg in He. by apply elem_of_entries in He as [? _].
    + intros p Hp. by apply group_nonempty.
    + rewrite sort_by_perm, map_range_perm. apply NoDup_fst_map_to_list.
    + cbn. lia.
    + cbn. lia.
    + intros p. by rewrite take_0.
Qed.

(** ** Properties *)

(** Candidates are due entries, each once and at most as many as asked for;
    when fewer, all that are due.  And principals share: whenever one gets two
    more than another, every due entry of the other is among them. *)
Theorem candidates_fair query (index : MemoryAIJobReadyIndex) :
  keyed AIJobReadyEntry.JobID index -> QueryReadyAt query <> 0 -> 0 < QueryLimit query ->
  let out := Candidates query index in
  let due e := index !! AIJobReadyEntry.JobID e = Some e /\ AIJobReadyEntry.ReadyAt e <= QueryReadyAt query in
  NoDup (AIJobReadyEntry.JobID <$> out) /\ Z.of_nat (length out) <= QueryLimit query /\
  Forall due out /\
  (Z.of_nat (length out) = QueryLimit query \/ forall e, due e -> e ∈ out) /\
  forall p1 p2, (length (entries_of p1 out) <= length (entries_of p2 out) + 1)%nat \/
    forall e, due e -> principal_key e = p2 -> e ∈ out.
Proof.
  intros Hk Hat Hlimit. cbv zeta.
  destruct (candidates_rounds query index Hat Hlimit) as (groups & Hg & Hlen & Hall & round & Hround).
  set (out := Candidates query index) in *.
  assert (Hdue : forall p e, e ∈ default [] (groups !! p) <->
    principal_key e = p /\ index !! jid e = Some e /\ AIJobReadyEntry.ReadyAt e <= QueryReadyAt query).
  { intros p e. rewrite Hg, elem_of_entries, list_elem_of_In, filter_In, <- list_elem_of_In, (keyed_values jid) by done.
    unfold is_due, After. rewrite negb_true_iff, Z.ltb_ge. tauto. }
  assert (Hsub : forall p, exists n, entries_of p out = take n (default [] (groups !! p)))
    by (intros p; destruct (Hround p); eauto).
  assert (Hout : forall e, e ∈ out -> index !! jid e = Some e /\ AIJobReadyEntry.ReadyAt e <= QueryReadyAt query).
  { intros e He. assert (He' : e ∈ entries_of (principal_key e) out) by by apply elem_of_entries.
    destruct (Hsub (principal_key e)) as [n E]. rewrite E in He'.
    apply (elem_of_submseteq _ (default [] (groups !! principal_key e))) in He';
      [by apply Hdue in He' as (_ & ? & ?)|]. apply sublist_submseteq, sublist_take. }
  assert (Hfull : forall p e, entries_of p out = default [] (groups !! p) ->
    index !! jid e = Some e /\ AIJobReadyEntry.ReadyAt e <= QueryReadyAt query -> principal_key e = p -> e ∈ out).
  { intros p e E He Hp. assert (Hin : e ∈ default [] (groups !! p)) by by apply Hdue.
    rewrite <- E in Hin. by apply elem_of_entries in Hin as [_ ?]. }
  split_and!; [|done|by apply Forall_forall| |].
  - apply NoDup_fmap_2_strong.
    { intros x y [Hx _]%Hout [Hy _]%Hout E. rewrite E in Hx. congruence. }
    apply NoDup_entries. intros p. destruct (Hsub p) as [n ->]. eapply sublist_NoDup; [|apply sublist_take].
    rewrite Hg. unfold entries_of. apply NoDup_filter. eapply sublist_NoDup; [|apply filter_sublist].
    eapply NoDup_fmap_1. by apply (values_NoDup jid).
  - destruct Hall as [Hall|Hall]; [by left|right]. intros e He. by eapply Hfull.
  - intros p1 p2. destruct (decide (length (default [] (groups !! p2)) <= round)%nat) as [Hle|Hgt].
    + right. intros e He Hp. eapply (Hfull p2); [|done|done].
      destruct (Hround p2) as [-> | ->]; apply take_ge; lia.
    + left. destruct (Hround p1) as [-> | ->], (Hround p2) as [-> | ->]; rewrite !length_take; lia.
Qed.
End Properties.

(** ** Witness *)

Module Demo.
Definition an_entry (id principal : string) (ready : time) : entry :=
  AIJobReadyEntry.mk id AIJobStatusQueued 1 0 "app" "" "" "" principal "" 0 ready 1.
(** Three jobs of one principal that are due before the job of another. *)
Definition index : MemoryAIJobReadyIndex :=
  foldl (fun index e => (Register e index).2) NewMemoryAIJobReadyIndex
    [an_entry "a1" "A" 1; an_entry "a2" "A" 2; an_entry "a3" "A" 3; an_entry "b1" "B" 4].
Example shared : jid <$> Candidates (range := canonical_range) (mkQuery 10 2) index = ["a1"; "b1"]%string.
Proof. vm_compute. reflexivity. Qed.
End Demo.

Lemma candidates_fair_witness :
  NoDup (jid <$> Candidates (range := canonical_range) (mkQuery 10 2) Demo.index).
Proof.
  refine (proj1 (candidates_fair (range := canonical_range) (mkQuery 10 2) Demo.index _ _ _)).
  - apply (bool_decide_unpack _). vm_compute. exact I.
  - discriminate.
  - reflexivity.
Defined.
