(* ===== verification/Progress.v ===== *)
(** * Durable jobs: provider progress

    [backend/internal/controlplane/ai_job_progress_model.go] and the in-memory
    half of [ai_job_progress_repository.go]: immutable progress events of an
    attempt, in the order of the provider's sequence numbers.  An operation that
    returns a zero event returns [None]. *)

From S2P Require Import Prelude Sha256 Repository.
From Stdlib Require Import Ascii.

Definition ErrAIJobNotFound : go_error := ErrNew "ai job not found".
Definition ErrAIAttemptNotFound : go_error := ErrNew "ai attempt not found".
Definition ErrAIJobProgressConflict : go_error :=
  ErrNew "ai job progress sequence conflicts with existing state".
Definition ErrAIJobProgressInvalid : go_error := ErrNew "ai job progress observation is invalid".

Notation progress := AIJobProgressEvent.t (only parsing).

(** The first sixteen bytes of the digest, in hexadecimal. *)
Definition aiJobProgressEventID (attemptID : string) (sequence : Z) : string :=
  ("job_progress_" +:+ EncodeToString (take 16 (Sum256 (TrimSpace attemptID +:+ lf +:+ Itoa sequence))))%string.

Definition stage_punctuation (c : ascii) : bool := Ascii.eqb c "." || Ascii.eqb c "_" || Ascii.eqb c "-".
Definition stage_char (c : ascii) : bool :=
  ascii_in c 97 122 || ascii_in c 48 57 || stage_punctuation c.
Definition validAIJobProgressStage (value : string) : bool :=
  if (value =s "") || (go_len value >? 64) then false
  else match value with
       | String first _ => negb (stage_punctuation first)
                           && forallb stage_char (String.list_ascii_of_string value)
       | EmptyString => true
       end.

Section Events.
Context `{UnicodeCase}.

Definition normalizeAIJobProgressEvent (event : progress) : progress :=
  AIJobProgressEvent.mk (TrimSpace (AIJobProgressEvent.ID event)) (TrimSpace (AIJobProgressEvent.JobID event))
    (TrimSpace (AIJobProgressEvent.AttemptID event)) (TrimSpace (AIJobProgressEvent.ProviderTaskID event))
    (AIJobProgressEvent.ProviderSequence event) (AIJobProgressEvent.Percent event)
    (ToLower (TrimSpace (AIJobProgressEvent.Stage event))) (AIJobProgressEvent.CreatedAt event).

Definition percent_out_of_range (percent : option Z) : bool :=
  match percent with Some p => (p <? 0) || (p >? 100) | None => false end.

Definition validateAIJobProgressEvent (event : progress) : option go_error :=
  let event := normalizeAIJobProgressEvent event in
  if (AIJobProgressEvent.ID event =s "")
     || (AIJobProgressEvent.ID event <>s
           aiJobProgressEventID (AIJobProgressEvent.AttemptID event) (AIJobProgressEvent.ProviderSequence event))
     || (AIJobProgressEvent.JobID event =s "") || (AIJobProgressEvent.AttemptID event =s "")
     || (AIJobProgressEvent.ProviderTaskID event =s "") || (AIJobProgressEvent.ProviderSequence event <=? 0)
  then Some ErrAIJobProgressInvalid
  else match AIJobProgressEvent.Percent event with
       | None => if AIJobProgressEvent.Stage event =s "" then Some ErrAIJobProgressInvalid
                 else if negb (validAIJobProgressStage (AIJobProgressEvent.Stage event))
                 then Some ErrAIJobProgressInvalid else None
       | Some _ =>
           if percent_out_of_range (AIJobProgressEvent.Percent event) then Some ErrAIJobProgressInvalid
           else if (AIJobProgressEvent.Stage event <>s "")
                   && negb (validAIJobProgressStage (AIJobProgressEvent.Stage event))
           then Some ErrAIJobProgressInvalid else None
       end.
End Events.

Definition progressEventsEquivalent (left right : progress) : bool :=
  (AIJobProgressEvent.ID left =s AIJobProgressEvent.ID right)
  && (AIJobProgressEvent.JobID left =s AIJobProgressEvent.JobID right)
  && (AIJobProgressEvent.AttemptID left =s AIJobProgressEvent.AttemptID right)
  && (AIJobProgressEvent.ProviderTaskID left =s AIJobProgressEvent.ProviderTaskID right)
  && (AIJobProgressEvent.ProviderSequence left =? AIJobProgressEvent.ProviderSequence right)
  && bool_decide (AIJobProgressEvent.Percent left = AIJobProgressEvent.Percent right)
  && (AIJobProgressEvent.Stage left =s AIJobProgressEvent.Stage right).

Definition progressPercentRegresses (previous next : progress) : bool :=
  match AIJobProgressEvent.Percent previous, AIJobProgressEvent.Percent next with
  | Some p, Some n => n <? p
  | _, _ => false
  end.

(** The three events the loop over the stored events looks for. *)
Record seen := mkSeen {
  same : option progress;
  latest : option progress;
  latestWithPercent : option progress;
}.

Definition later_than (current : progress) (known : option progress) : bool :=
  match known with
  | None => true
  | Some k => AIJobProgressEvent.ProviderSequence current >? AIJobProgressEvent.ProviderSequence k
  end.

Definition see (event : progress) (s : seen) (current : progress) : seen :=
  if AIJobProgressEvent.AttemptID current <>s AIJobProgressEvent.AttemptID event then s
  else mkSeen
    (if AIJobProgressEvent.ProviderSequence current =? AIJobProgressEvent.ProviderSequence event
     then Some current else same s)
    (if later_than current (latest s) then Some current else latest s)
    (if bool_decide (is_Some (AIJobProgressEvent.Percent current)) && later_than current (latestWithPercent s)
     then Some current else latestWithPercent s).

Definition progress_less (i j : progress) : bool :=
  if negb (AIJobProgressEvent.CreatedAt i =? AIJobProgressEvent.CreatedAt j)
  then Before (AIJobProgressEvent.CreatedAt i) (AIJobProgressEvent.CreatedAt j)
  else if (AIJobProgressEvent.AttemptID i =s AIJobProgressEvent.AttemptID j)
          && negb (AIJobProgressEvent.ProviderSequence i =? AIJobProgressEvent.ProviderSequence j)
  then AIJobProgressEvent.ProviderSequence i <? AIJobProgressEvent.ProviderSequence j
  else str_ltb (AIJobProgressEvent.ID i) (AIJobProgressEvent.ID j).

Section Repository.
Context `{UnicodeCase} `{range : MapRange}.

Definition look (event : progress) (events : gmap string progress) : seen :=
  foldl (see event) (mkSeen None None None) (map_values events).

Definition AppendAIJobProgressEvent (event : progress) : M (option progress * bool) :=
  let event := normalizeAIJobProgressEvent event in
  match validateAIJobProgressEvent event with
  | Some err => fail err
  | None =>
      r ← read id;
      match aiJobs r !! AIJobProgressEvent.JobID event with
      | None => fail ErrAIJobNotFound
      | Some job =>
          match aiAttempts r !! AIJobProgressEvent.AttemptID event with
          | None => fail ErrAIAttemptNotFound
          | Some attempt =>
              if (AIAttempt.OperationID attempt <>s AIJob.OperationID job)
                 || (AIAttempt.ProviderTaskID attempt =s "")
                 || (AIAttempt.ProviderTaskID attempt <>s AIJobProgressEvent.ProviderTaskID event)
              then fail ErrAIJobProgressInvalid
              else
                let s := look event (aiJobProgressEvents r) in
                match same s with
                | Some current =>
                    if negb (progressEventsEquivalent current event) then fail ErrAIJobProgressConflict
                    else mret (Some current, false)
                | None =>
                    if match latest s with
                       | Some known => AIJobProgressEvent.ProviderSequence known
                                       >? AIJobProgressEvent.ProviderSequence event
                       | None => false end
                    then mret (None, false)
                    else if match latestWithPercent s with
                            | Some known => progressPercentRegresses known event
                            | None => false end
                    then fail ErrAIJobProgressInvalid
                    else
                      _ ← write (fun r => r.[aiJobProgressEvents]:[AIJobProgressEvent.ID event] <- event);
                      mret (Some event, true)
                end
          end
      end
  end.

(** The sort is stable; its comparison orders the events of one attempt, and
    those of different attempts by their times. *)
Definition ListAIJobProgressEvents (jobID : string) (r : MemoryRepository) : list progress :=
  sort_by progress_less (List.filter (fun event =>
      (TrimSpace jobID =s "") || (AIJobProgressEvent.JobID event =s TrimSpace jobID))
    (map_values (aiJobProgressEvents r))).
End Repository.

(** ** Lemmas: the loop over the stored events *)

#[local] Notation att := AIJobProgressEvent.AttemptID.
#[local] Notation seqno := AIJobProgressEvent.ProviderSequence.
#[local] Notation percent := AIJobProgressEvent.Percent.
#[local] Notation pid := AIJobProgressEvent.ID.

(** [c] is the latest event of [l] that satisfies [P], if any does. *)
Definition latest_in (P : progress -> Prop) (l : list progress) (c : option progress) : Prop :=
  match c with
  | Some c => c ∈ l /\ P c /\ forall x, x ∈ l -> P x -> seqno x <= seqno c
  | None => forall x, x ∈ l -> ~ P x
  end.

Lemma latest_in_skip (P : progress -> Prop) l c x : ~ P x -> latest_in P l c -> latest_in P (l ++ [x]) c.
Proof.
  intros Hx. destruct c as [c|]; cbn.
  - intros (Hc & HP & Hmax). split_and!; [by apply elem_of_app; left|done|].
    intros y [Hy|Hy]%elem_of_app HPy; [by apply Hmax|]. apply list_elem_of_singleton in Hy as ->. done.
  - intros Hno y [Hy|Hy]%elem_of_app; [by apply Hno|]. by apply list_elem_of_singleton in Hy as ->.
Qed.

Lemma latest_in_see (P : progress -> Prop) l c x : P x -> latest_in P l c ->
  latest_in P (l ++ [x]) (if later_than x c then Some x else c).
Proof.
  intros Hx. assert (Hl : x ∈ l ++ [x]) by (apply elem_of_app; right; by apply list_elem_of_singleton).
  destruct c as [c|]; cbn.
  - intros (Hc & HP & Hmax). rewrite Z.gtb_ltb. destruct (Z.ltb_spec (seqno c) (seqno x)); cbn.
    + split_and!; [done|done|]. intros y [Hy|Hy]%elem_of_app HPy; [specialize (Hmax y Hy HPy); lia|].
      by apply list_elem_of_singleton in Hy as ->.
    + split_and!; [by apply elem_of_app; left|done|]. intros y [Hy|Hy]%elem_of_app HPy; [by apply Hmax|].
      by apply list_elem_of_singleton in Hy as ->.
  - intros Hno. split_and!; [done|done|]. intros y [Hy|Hy]%elem_of_app HPy; [by destruct (Hno y Hy)|].
    by apply list_elem_of_singleton in Hy as ->.
Qed.

Definition same_number (event : progress) (x : progress) : Prop := att x = att event /\ seqno x = seqno event.

Lemma see_spec event l :
  let s := foldl (see event) (mkSeen None None None) l in
  (match same s with
   | Some c => c ∈ l /\ same_number event c
   | None => forall x, x ∈ l -> ~ same_number event x
   end) /\
  latest_in (fun x => att x = att event) l (latest s) /\
  latest_in (fun x => att x = att event /\ is_Some (percent x)) l (latestWithPercent s).
Proof.
  cbv zeta. induction l as [|x l (IH1 & IH2 & IH3)] using rev_ind.
  { split_and!; by intros x ?%elem_of_nil. }
  rewrite foldl_app. cbn. set (s := foldl (see event) _ l) in *. unfold see.
  assert (Hin : forall y, y ∈ l ++ [x] <-> y ∈ l \/ y = x)
    by (intros y; by rewrite elem_of_app, list_elem_of_singleton).
  destruct (String.eqb_spec (att x) (att event)) as [Ea|Ea]; cbn.
  - split_and!.
    + destruct (Z.eqb_spec (seqno x) (seqno event)); [split; [apply Hin; by right|done]|].
      destruct (same s) as [c|]; [destruct IH1; split; [apply Hin; by left|done]|].
      intros y [Hy| ->]%Hin; [by apply IH1|]. by intros [_ ?].
    + by apply latest_in_see.
    + destruct (decide (is_Some (percent x))) as [Hp|Hp].
      * rewrite bool_decide_eq_true_2 by done. by apply latest_in_see.
      * rewrite bool_decide_eq_false_2 by done. apply latest_in_skip; [|done]. by intros [_ ?].
  - split_and!.
    + destruct (same s) as [c|]; [destruct IH1; split; [apply Hin; by left|done]|].
      intros y [Hy| ->]%Hin; [by apply IH1|]. by intros [? _].
    + by apply latest_in_skip.
    + apply latest_in_skip; [|done]. by intros [? _].
Qed.

(** ** The invariant *)

Definition percent_le (e1 e2 : progress) : Prop :=
  match percent e1, percent e2 with Some p1, Some p2 => p1 <= p2 | _, _ => True end.

Lemma regresses_spec e1 e2 : progressPercentRegresses e1 e2 = false <-> percent_le e1 e2.
Proof.
  unfold progressPercentRegresses, percent_le. destruct (percent e1), (percent e2); try done. apply Z.ltb_ge.
Qed.

(** The events of an attempt have sequence numbers of their own, and their
    percentages never fall. *)
Definition progress_ok (events : gmap string progress) : Prop :=
  forall k1 k2 e1 e2, events !! k1 = Some e1 -> events !! k2 = Some e2 -> att e1 = att e2 ->
    (seqno e1 = seqno e2 -> k1 = k2) /\ (seqno e1 < seqno e2 -> percent_le e1 e2).

(** An event that comes after all of its attempt. *)
Definition newest (events : gmap string progress) (e : progress) : Prop :=
  forall k e0, events !! k = Some e0 -> att e0 = att e -> seqno e0 < seqno e /\ percent_le e0 e.

Lemma ok_newest events e : progress_ok events -> newest events e -> progress_ok (<[pid e := e]> events).
Proof.
  intros Hok Hnew k1 k2 e1 e2 H1 H2 Ha.
  destruct (decide (k1 = pid e)) as [->|N1], (decide (k2 = pid e)) as [->|N2];
    repeat match goal with
    | H : <[?k := _]> _ !! ?k = _ |- _ => rewrite lookup_insert_eq in H; injection H as <-
    | H : <[?k := _]> _ !! ?k' = _ |- _ => rewrite lookup_insert_ne in H by done
    end.
  - split; [done|lia].
  - destruct (Hnew _ _ H2 (eq_sym Ha)). lia.
  - destruct (Hnew _ _ H1 Ha). split; [lia|done].
  - by apply (Hok k1 k2).
Qed.

Section Properties.
Context `{unicode : UnicodeCase} `{range : MapRange}.

Lemma look_same event events : let s := look event events in
  match same s with
  | Some c => (exists k, events !! k = Some c) /\ same_number event c
  | None => forall k e, events !! k = Some e -> ~ same_number event e
  end.
Proof.
  cbv zeta. unfold look. destruct (see_spec event (map_values events)) as [H _]. cbv zeta in H.
  destruct (same _) as [c|]; [by rewrite <- elem_of_map_values|].
  intros k e He. apply H. apply elem_of_map_values. eauto.
Qed.

Lemma look_newest event events : let s := look event events in
  progress_ok events -> same s = None ->
  match latest s with Some known => seqno known >? seqno event | None => false end = false ->
  match latestWithPercent s with Some known => progressPercentRegresses known event | None => false end = false ->
  newest events event.
Proof.
  cbv zeta. intros Hok Hsame Hl Hp k e He Ha. pose proof (look_same event events) as Hs. cbv zeta in Hs.
  rewrite Hsame in Hs. specialize (Hs k e He).
  unfold look in *. destruct (see_spec event (map_values events)) as (_ & H1 & H2). cbv zeta in H1, H2.
  assert (Hin : e ∈ map_values events) by (apply elem_of_map_values; eauto).
  assert (Hlt : seqno e < seqno event).
  { destruct (latest _) as [c|]; [|by destruct (H1 e Hin)]. destruct H1 as (_ & _ & Hmax).
    specialize (Hmax e Hin Ha). rewrite Z.gtb_ltb in Hl. apply Z.ltb_ge in Hl.
    assert (seqno e <> seqno event) by (intros E; by apply Hs). lia. }
  split; [done|]. destruct (percent e) as [p|] eqn:Ep; [|by unfold percent_le; rewrite Ep].
  destruct (latestWithPercent _) as [c|]; [|by destruct (H2 e Hin); rewrite Ep].
  destruct H2 as (Hc & (Hca & [pc Epc]) & Hmax). apply elem_of_map_values in Hc as [kc Hc].
  apply regresses_spec in Hp.
  assert (Hs' : is_Some (percent e)) by (rewrite Ep; eauto). specialize (Hmax e Hin (conj Ha Hs')).
  assert (Hle : percent_le e c).
  { destruct (decide (seqno e = seqno c)) as [E|E].
    - destruct (Hok k kc e c He Hc) as [Hk _]; [congruence|]. rewrite (Hk E) in He.
      rewrite He in Hc. injection Hc as ->. unfold percent_le. by rewrite Epc.
    - destruct (Hok k kc e c He Hc) as [_ Hk]; [congruence|]. apply Hk. lia. }
  unfold percent_le in *. rewrite Ep, Epc in *. destruct (percent event); [lia|done].
Qed.

(** What [AppendAIJobProgressEvent] has checked when it gets to the events. *)
Definition accepted (event : progress) (r : MemoryRepository) : Prop :=
  validateAIJobProgressEvent event = None /\ exists job attempt,
    aiJobs r !! AIJobProgressEvent.JobID event = Some job /\ aiAttempts r !! att event = Some attempt /\
    (AIAttempt.OperationID attempt <>s AIJob.OperationID job) || (AIAttempt.ProviderTaskID attempt =s "")
    || (AIAttempt.ProviderTaskID attempt <>s AIJobProgressEvent.ProviderTaskID event) = false.

Lemma append_inv event r x r' :
  let e := normalizeAIJobProgressEvent event in let s := look e (aiJobProgressEvents r) in
  AppendAIJobProgressEvent event r = (x, r') ->
  (r' = r /\ exists err, x = Err err) \/
  accepted e r /\
  ((r' = r /\ exists c, same s = Some c /\ progressEventsEquivalent c e = true /\ x = Ok (Some c, false)) \/
   (r' = r /\ x = Ok (None, false) /\ exists known, latest s = Some known /\ seqno e < seqno known) \/
   (x = Ok (Some e, true) /\ r' = (r.[aiJobProgressEvents]:[pid e] <- e) /\ same s = None /\
    match latest s with Some known => seqno known >? seqno e | None => false end = false /\
    match latestWithPercent s with Some known => progressPercentRegresses known e | None => false end = false)).
Proof.
  cbv zeta. unfold AppendAIJobProgressEvent. set (e := normalizeAIJobProgressEvent event).
  destruct (validateAIJobProgressEvent e) as [err|] eqn:Ev; [intros [= <- <-]; eauto|].
  unfold mbind, M_bind, read, id.
  destruct (aiJobs r !! _) as [job|] eqn:Ej; [|intros [= <- <-]; eauto].
  destruct (aiAttempts r !! _) as [attempt|] eqn:Ea; [|intros [= <- <-]; eauto].
  destruct (_ || _) eqn:Et; [intros [= <- <-]; eauto|].
  assert (Hacc : accepted e r) by (split; [done|]; exists job, attempt; done).
  destruct (same _) as [c|] eqn:Es.
  { destruct (progressEventsEquivalent c e) eqn:Eq; intros [= <- <-]; [right; split; [done|]; left|]; eauto 6. }
  destruct (match latest _ with Some _ => _ | None => _ end) eqn:El.
  { intros [= <- <-]. right. split; [done|]. right. left. split_and!; [done|done|].
    destruct (latest _) as [known|]; [|done]. exists known. split; [done|]. rewrite Z.gtb_ltb in El. by apply Z.ltb_lt. }
  destruct (match latestWithPercent _ with Some _ => _ | None => _ end) eqn:Ep; intros [= <- <-]; [eauto|].
  right. split; [done|]. right. by right.
Qed.

(** The event just stored is recognised. *)
Lemma append_again event r :
  let e := normalizeAIJobProgressEvent event in
  accepted e r -> newest (aiJobProgressEvents r) e ->
  let r' := r.[aiJobProgressEvents]:[pid e] <- e in
  AppendAIJobProgressEvent event r' = (Ok (Some e, false), r').
Proof.
  cbv zeta. set (e := normalizeAIJobProgressEvent event). intros (Hv & job & attempt & Hj & Ha & Ht) Hnew.
  set (r' := r.[aiJobProgressEvents]:[pid e] <- e). unfold AppendAIJobProgressEvent. fold e. rewrite Hv.
  unfold mbind, M_bind, read, id.
  assert (Ej : aiJobs r' = aiJobs r) by done. assert (Ea : aiAttempts r' = aiAttempts r) by done.
  assert (Ep : aiJobProgressEvents r' = <[pid e := e]> (aiJobProgressEvents r)) by done.
  clearbody r'. rewrite Ej, Hj, Ea, Ha, Ht, Ep.
  pose proof (look_same e (<[pid e := e]> (aiJobProgressEvents r))) as H. cbv zeta in H.
  destruct (same _) as [c|].
  - destruct H as [[k Hc] [Hca Hcs]].
    assert (c = e) as ->.
    { destruct (decide (k = pid e)) as [->|Hne]; [rewrite lookup_insert_eq in Hc; congruence|].
      rewrite lookup_insert_ne in Hc by done. destruct (Hnew k c Hc Hca). lia. }
    unfold progressEventsEquivalent. rewrite !String.eqb_refl, Z.eqb_refl, bool_decide_eq_true_2 by done. done.
  - by destruct (H (pid e) e (lookup_insert_eq _ _ _)).
Qed.

(** ** Properties *)

(** Progress only goes forward: the events of an attempt keep distinct
    sequence numbers and percentages that never fall; an event that is stored
    comes after all the attempt had, and sending it again is answered with the
    stored event; anything else writes nothing. *)
Theorem progress_monotone event r x r' :
  progress_ok (aiJobProgressEvents r) -> AppendAIJobProgressEvent event r = (x, r') ->
  progress_ok (aiJobProgressEvents r') /\
  match x with
  | Ok (Some e, true) =>
      newest (aiJobProgressEvents r) e /\ r' = (r.[aiJobProgressEvents]:[pid e] <- e) /\
      AppendAIJobProgressEvent event r' = (Ok (Some e, false), r')
  | Ok (Some e, false) => r' = r /\ exists k, aiJobProgressEvents r !! k = Some e
  | _ => r' = r
  end.
Proof.
  intros Hok Happ. apply append_inv in Happ as [[-> [err ->]]|[Hacc Hcases]]; [done|].
  set (e := normalizeAIJobProgressEvent event) in *.
  destruct Hcases as [(-> & c & Hs & _ & ->)|[(-> & -> & _)|(-> & -> & Hs & Hl & Hp)]].
  - pose proof (look_same e (aiJobProgressEvents r)) as H. cbv zeta in H. rewrite Hs in H. by destruct H.
  - done.
  - pose proof (look_newest e (aiJobProgressEvents r) Hok Hs Hl Hp) as Hnew. cbn.
    split; [by apply ok_newest|]. split_and!; [done|done|]. by apply append_again.
Qed.
End Properties.

(** ** Witness *)

Module Demo.
Definition no_unicode : UnicodeCase := fun s => s.
Definition repository : MemoryRepository :=
  NewMemoryRepository
    <| aiJobs := {["j1"%string := AIJob.zero <| AIJob.OperationID := "op1"%string |>]} |>
    <| aiAttempts := {["a1"%string := AIAttempt.zero <| AIAttempt.OperationID := "op1"%string |>
         <| AIAttempt.ProviderTaskID := "task"%string |>]} |>.
Definition event (sequence percent : Z) : progress :=
  AIJobProgressEvent.mk (aiJobProgressEventID "a1" sequence) "j1" "a1" "task" sequence (Some percent) "Render" 7.

(** Progress from 30 to 60 is accepted; back to 50 is not. *)
Example forward :
  ((_ ← AppendAIJobProgressEvent (H := no_unicode) (range := canonical_range) (event 1 30);
    _ ← AppendAIJobProgressEvent (H := no_unicode) (range := canonical_range) (event 2 60);
    AppendAIJobProgressEvent (H := no_unicode) (range := canonical_range) (event 3 50)) repository).1
  = Err ErrAIJobProgressInvalid.
Proof. vm_compute. reflexivity. Qed.
End Demo.

Lemma progress_monotone_witness :
  match AppendAIJobProgressEvent (H := Demo.no_unicode) (range := canonical_range) (Demo.event 1 30) Demo.repository with
  | (Ok (Some e, true), r') => AIJobProgressEvent.Stage e = "render"%string /\ progress_ok (aiJobProgressEvents r')
  | _ => False
  end.
Proof.
  assert (El : match (AppendAIJobProgressEvent (H := Demo.no_unicode) (range := canonical_range)
      (Demo.event 1 30) Demo.repository).1 with
    | Ok (Some e, true) => AIJobProgressEvent.Stage e =s "render" | _ => false end = true)
    by (vm_compute; reflexivity).
  destruct (AppendAIJobProgressEvent (H := Demo.no_unicode) (range := canonical_range)
    (Demo.event 1 30) Demo.repository) as [[[[e|] []]|err] r'] eqn:E;
    [|discriminate El|discriminate El|discriminate El|discriminate El].
  split; [apply String.eqb_eq; exact El|].
  refine (proj1 (progress_monotone (unicode := Demo.no_unicode) (range := canonical_range)
    (Demo.event 1 30) Demo.repository _ r' _ E)).
  intros k1 k2 e1 e2 H1. exfalso. assert (H0 : (∅ : gmap string AIJobProgressEvent.t) !! k1 = Some e1) by exact H1.
  by rewrite lookup_empty in H0.
Defined.
