(* ===== verification/UsagePricing.v ===== *)
(** * The price of recorded usage

    [buildUsageSettlement] of [backend/internal/controlplane/operation_service.go]
    and what it calls: the facts of a usage record, their evaluation under the
    versions of the rules that the billing hold of the operation has fixed, and the
    evaluations, ledger entries and outbox event of the settlement.  The program
    reads the operation, the hold, its versions and the catalogue one after the
    other, with other calls in between ([Threads]). *)

From S2P Require Import Prelude Sha256 Threads PricingMoney PricingRule PricingEval UsageDimensions Repository JobModel Attempts BillingHolds Settlement PricingCatalog PricingService.

(** ** Facts and identifiers *)

Definition int64Value (value : option Z) : Z := default 0 value.

Definition pricingFactsFromUsage (operation : AIOperation.t) (record : UsageRecord.t) : Facts :=
  let totalInput := default (UsageRecord.InputTokens record) (UsageRecord.TotalInputTokens record) in
  let uncachedInput := default totalInput (UsageRecord.UncachedInputTokens record) in
  let quantity := usageDimensionQuantity (UsageRecord.UsageDimensions record) in
  {|
    TotalInputTokens := totalInput;
    UncachedInputTokens := uncachedInput;
    CacheReadTokens := int64Value (UsageRecord.CacheReadTokens record);
    CacheWrite5mTokens := int64Value (UsageRecord.CacheWrite5mTokens record);
    CacheWrite1hTokens := int64Value (UsageRecord.CacheWrite1hTokens record);
    OutputTokens := UsageRecord.OutputTokens record;
    CacheFieldsPresent := UsageRecord.CacheFieldsPresent record;
    InputImages := quantity UsageDimensionInputImages;
    PricingEval.OutputImages := quantity UsageDimensionOutputImages;
    PartialImages := quantity UsageDimensionPartialImages;
    InputVideoMilliseconds := quantity UsageDimensionInputVideoMilliseconds;
    OutputVideoMilliseconds := quantity UsageDimensionOutputVideoMilliseconds;
    InputAudioMilliseconds := quantity UsageDimensionInputAudioMilliseconds;
    OutputAudioMilliseconds := quantity UsageDimensionOutputAudioMilliseconds;
    RealtimeAudioMilliseconds := quantity UsageDimensionRealtimeAudioMilliseconds;
    InputCharacters := quantity UsageDimensionInputCharacters;
    Actions := quantity UsageDimensionActions;
    BatchItems := quantity UsageDimensionBatchItems;
    InputBytes := quantity UsageDimensionInputBytes;
    OutputBytes := quantity UsageDimensionOutputBytes;
    TransferBytes := quantity UsageDimensionTransferBytes;
    SessionMilliseconds := quantity UsageDimensionSessionMilliseconds;
    Protocol := UsageRecord.Protocol record;
    Operation := AIOperation.Operation operation;
    Modality := AIOperation.Modality operation;
    Lane := AIOperation.Lane operation;
    Stream := false;
    OutputCount := 0;
    ServiceTier := "";
    AvailableFacts := ∅;
    NormalizationStatus := UsageRecord.UsageNormalizationStatus record;
    Phase := PhaseSettlement;
    ObservedAt := UsageRecord.CreatedAt record |}.

Definition usageLedgerDigest (record : UsageRecord.t) : string :=
  let identity := (UsageRecord.OperationID record +:+ nul +:+ UsageRecord.AttemptID record
    +:+ nul +:+ Itoa (UsageRecord.UsageVersion record))%string in
  prefix (hashAPIKey identity) 24.

Definition deterministicPricingEvaluationID (record : UsageRecord.t) (purpose : string) : string :=
  ("peval_" +:+ prefix (hashAPIKey (usageLedgerDigest record +:+ nul +:+ purpose)) 24)%string.

Definition deterministicBillingLedgerID (record : UsageRecord.t) (purpose : string) : string :=
  ("billing_" +:+ prefix (hashAPIKey (usageLedgerDigest record +:+ nul +:+ purpose)) 24)%string.

(** The engine returns nothing but pricing errors. *)
Definition pricingFailureCode (err : Error) : string :=
  if Code err <>s "" then Code err else "pricing_evaluation_failed".

Section Usage.
Context `{range : MapRange} `{unicode : UnicodeCase} `{json : JSONText}.
Context {VMProgram : Type}.
Context (Parse : string -> result string Node) (CompileExpr : string -> result string VMProgram).
Context (Run : VMProgram -> gmap string value -> script) (wrapCallError : Error -> run_error).
Context (render : message -> string) (Marshal : Facts -> result string string).
(** [json.Marshal] of a map of usage dimensions. *)
Context (MarshalDimensions : gmap string UsageDimension -> result go_error string).

(** ** The outbox event *)

(** [json.Marshal] of [UsageRecordedEvent], its fields in the order of the struct. *)
Definition usage_recorded_payload (record : UsageRecord.t) : result go_error string :=
  dimensions ← MarshalDimensions (UsageRecord.UsageDimensions record);
  Ok ("{" +:+ json_field "usage_record_id" (json_string (UsageRecord.ID record))
   +:+ "," +:+ json_field "operation_id" (json_string (UsageRecord.OperationID record))
   +:+ "," +:+ json_field "attempt_id" (json_string (UsageRecord.AttemptID record))
   +:+ "," +:+ json_field "usage_version" (Itoa (UsageRecord.UsageVersion record))
   +:+ "," +:+ json_field "api_key_id" (json_string (UsageRecord.APIKeyID record))
   +:+ "," +:+ json_field "input_tokens" (Itoa (UsageRecord.InputTokens record))
   +:+ "," +:+ json_field "output_tokens" (Itoa (UsageRecord.OutputTokens record))
   +:+ "," +:+ json_field "usage_dimensions" dimensions
   +:+ match UsageRecord.UsageCostMicros record with
       | Some cost => "," +:+ json_field "usage_cost_micros" (Itoa cost)
       | None => ""
       end
   +:+ "," +:+ json_field "pricing_status" (json_string (UsageRecord.PricingStatus record))
   +:+ "," +:+ json_field "status" (json_string (UsageRecord.Status record)) +:+ "}")%string.

Definition usageRecordedOutbox (record : UsageRecord.t) : result go_error TransactionalOutboxEvent.t :=
  match usage_recorded_payload record with
  | Err e => Err (ErrWrap "marshal usage recorded event: %w" e)
  | Ok payload =>
      let digest := usageLedgerDigest record in
      Ok (TransactionalOutboxEvent.zero
        <| TransactionalOutboxEvent.ID :=
             ("outbox_" +:+ prefix (hashAPIKey (digest +:+ nul +:+ OutboxEventUsageRecorded)) 24)%string |>
        <| TransactionalOutboxEvent.AggregateType := "usage"%string |>
        <| TransactionalOutboxEvent.AggregateID :=
             (UsageRecord.OperationID record +:+ ":" +:+ UsageRecord.AttemptID record)%string |>
        <| TransactionalOutboxEvent.EventType := OutboxEventUsageRecorded |>
        <| TransactionalOutboxEvent.EventVersion := UsageRecord.UsageVersion record |>
        <| TransactionalOutboxEvent.PayloadJSON := payload |>
        <| TransactionalOutboxEvent.Status := OutboxStatusPending |>
        <| TransactionalOutboxEvent.AvailableAt := UsageRecord.CreatedAt record |>
        <| TransactionalOutboxEvent.MaxAttempts := OutboxDefaultMaxAttempts |>
        <| TransactionalOutboxEvent.CreatedAt := UsageRecord.CreatedAt record |>
        <| TransactionalOutboxEvent.UpdatedAt := UsageRecord.CreatedAt record |>)
  end.

(** ** One price *)

Definition usage_evaluation (record : UsageRecord.t) (facts : Facts) (purpose ruleID : string) (v : version)
    : PricingEvaluation.t :=
  PricingEvaluation.zero
    <| PricingEvaluation.ID := deterministicPricingEvaluationID record purpose |>
    <| PricingEvaluation.Purpose := purpose |>
    <| PricingEvaluation.Phase := PhaseSettlement |>
    <| PricingEvaluation.OperationID := UsageRecord.OperationID record |>
    <| PricingEvaluation.AttemptID := UsageRecord.AttemptID record |>
    <| PricingEvaluation.UsageRecordID := UsageRecord.ID record |>
    <| PricingEvaluation.UsageVersion := UsageRecord.UsageVersion record |>
    <| PricingEvaluation.PricingRuleID := ruleID |>
    <| PricingEvaluation.PricingRuleVersionID := PricingRuleVersion.ID v |>
    <| PricingEvaluation.Facts := facts |>
    <| PricingEvaluation.NormalizationStatus := NormalizationStatus facts |>
    <| PricingEvaluation.CreatedAt := UsageRecord.CreatedAt record |>.

Definition disputed_evaluation (record : UsageRecord.t) (facts : Facts) (purpose ruleID : string) (v : version)
    (err : Error) : PricingEvaluation.t :=
  (usage_evaluation record facts purpose ruleID v)
    <| PricingEvaluation.EngineVersion := PricingRuleVersion.EngineVersion v |>
    <| PricingEvaluation.ExpressionHash := PricingRuleVersion.ExpressionHash v |>
    <| PricingEvaluation.FactsHash :=
         match Facts_Hash Marshal facts with Ok hash => hash | Err _ => ""%string end |>
    <| PricingEvaluation.Currency := CurrencyUSD |>
    <| PricingEvaluation.Status := PricingEvaluationStatusDisputed |>
    <| PricingEvaluation.FailureCode := pricingFailureCode err |>.

Definition priced_evaluation (record : UsageRecord.t) (facts : Facts) (purpose ruleID : string) (v : version)
    (evaluated : Result) : PricingEvaluation.t :=
  (usage_evaluation record facts purpose ruleID v)
    <| PricingEvaluation.EngineVersion := ResultEngineVersion evaluated |>
    <| PricingEvaluation.ExpressionHash := ResultExpressionHash evaluated |>
    <| PricingEvaluation.FactsHash := FactsHash evaluated |>
    <| PricingEvaluation.AmountMicros := Some (ResultAmountMicros evaluated) |>
    <| PricingEvaluation.Currency := PricingEval.Currency evaluated |>
    <| PricingEvaluation.MatchedTier := MatchedTier evaluated |>
    <| PricingEvaluation.Lines := Lines evaluated |>
    <| PricingEvaluation.Status := PricingEvaluationStatusSuccess |>.

Definition usage_ledger (record : UsageRecord.t) (purpose : string) (v : version) (evaluated : Result)
    : BillingLedgerEntry.t :=
  BillingLedgerEntry.mk (deterministicBillingLedgerID record purpose) (UsageRecord.OperationID record)
    (UsageRecord.AttemptID record) (UsageRecord.UsageVersion record) (UsageRecord.ID record)
    (UsageRecord.RequestFingerprint record) purpose (ResultAmountMicros evaluated) (PricingEval.Currency evaluated)
    (deterministicPricingEvaluationID record purpose) (PricingRuleVersion.ID v) BillingLedgerStatusApplied
    (UsageRecord.CreatedAt record).

Definition disputed_record (settled : UsageRecord.t) : UsageRecord.t :=
  settled <| UsageRecord.PricingStatus := "disputed"%string |> <| UsageRecord.UsageCostMicros := None |>.

Definition priced_record (settled : UsageRecord.t) (evaluationID : string) (evaluated : Result) : UsageRecord.t :=
  settled
    <| UsageRecord.UsageCostMicros := Some (ResultAmountMicros evaluated) |>
    <| UsageRecord.UsageCostCurrency := PricingEval.Currency evaluated |>
    <| UsageRecord.UsagePricingEvaluationID := evaluationID |>
    <| UsageRecord.PricingStatus := if ResultAmountMicros evaluated =? 0 then "free"%string else "priced"%string |>.

(** The expression of a version, compiled and run on the facts. *)
Definition evaluate_version (v : version) (facts : Facts) : result Error Result :=
  compiled ← engine_CompileByHash Parse CompileExpr (PricingRuleVersion.Expression v)
    (PricingRuleVersion.ExpressionHash v);
  engine_Evaluate Run wrapCallError render Marshal compiled facts.

(** The round of the loop for one version the hold has fixed. *)
Definition settle_snapshot (record : UsageRecord.t) (facts : Facts) (purpose ruleID : string) (v : version)
    (settlement : UsageSettlement.t) : UsageSettlement.t :=
  let usage := purpose =s PricingPurposeUsageCost in
  match evaluate_version v facts with
  | Err err =>
      let settlement := settlement <| UsageSettlement.Evaluations :=
        UsageSettlement.Evaluations settlement ++ [disputed_evaluation record facts purpose ruleID v err] |> in
      if usage
      then settlement <| UsageSettlement.Record := disputed_record (UsageSettlement.Record settlement) |>
      else settlement
  | Ok evaluated =>
      let evaluation := priced_evaluation record facts purpose ruleID v evaluated in
      let settlement := settlement
        <| UsageSettlement.Evaluations := UsageSettlement.Evaluations settlement ++ [evaluation] |>
        <| UsageSettlement.Ledgers := UsageSettlement.Ledgers settlement ++ [usage_ledger record purpose v evaluated] |> in
      if usage
      then settlement <| UsageSettlement.Record :=
        priced_record (UsageSettlement.Record settlement) (PricingEvaluation.ID evaluation) evaluated |>
      else settlement
  end.

(** ** The settlement *)

(** [x, err := f(...)] where the code looks at the error itself. *)
Definition attempt {A} (p : srv A) : srv (result service_error A) := prog_bind p (fun x => Ret (Ok x)).

Fixpoint settle_snapshots (record : UsageRecord.t) (facts : Facts) (versions : list BillingHoldPricingVersion.t)
    (settlement : UsageSettlement.t) : srv UsageSettlement.t :=
  match versions with
  | [] => mret settlement
  | snapshot :: versions =>
      found ← attempt (PricingRuleVersionDetail (BillingHoldPricingVersion.PricingRuleVersionID snapshot));
      match found with
      | Err _ => throw ErrUsageLedgerConflict
      | Ok (r, v) =>
          _ ← refuse (PricingRuleVersion.State v <>s PricingVersionStatePublished) ErrUsageLedgerConflict;
          settle_snapshots record facts versions
            (settle_snapshot record facts (BillingHoldPricingVersion.Purpose snapshot) (PricingRule.ID r) v settlement)
      end
  end.

Definition buildUsageSettlement (record : UsageRecord.t) : srv UsageSettlement.t :=
  found ← query (FindAIOperation (UsageRecord.OperationID record));
  match found with
  | None => throw ErrUsageLedgerConflict
  | Some operation =>
      _ ← refuse (AIOperation.RequestFingerprint operation <>s UsageRecord.RequestFingerprint record)
            ErrUsageLedgerConflict;
      found ← query (FindBillingHoldByOperationID (UsageRecord.OperationID record));
      match found with
      | None => throw (ErrNew "billing hold not found for usage settlement")
      | Some hold =>
          versions ← query (ListBillingHoldPricingVersions (BillingHold.ID hold));
          let facts := pricingFactsFromUsage operation record in
          settlement ← settle_snapshots record facts versions (UsageSettlement.mk record [] [] []);
          match usageRecordedOutbox (UsageSettlement.Record settlement) with
          | Err e => throw e
          | Ok riskOutbox =>
              mret (settlement <| UsageSettlement.OutboxEvents :=
                UsageSettlement.OutboxEvents settlement ++ [riskOutbox] |>)
          end
      end
  end.
End Usage.

(** ** The settlement in one look *)

Section Reference.
Context `{range : MapRange} `{unicode : UnicodeCase} `{json : JSONText}.
Context {VMProgram : Type}.
Context (Parse : string -> result string Node) (CompileExpr : string -> result string VMProgram).
Context (Run : VMProgram -> gmap string value -> script) (wrapCallError : Error -> run_error).
Context (render : message -> string) (Marshal : Facts -> result string string).
Context (MarshalDimensions : gmap string UsageDimension -> result go_error string).

Notation settle := (settle_snapshot Parse CompileExpr Run wrapCallError render Marshal).

(** What a hold fixes for one purpose: the published version that prices it. *)
Definition fixed_price (s : MemoryRepository) (snapshot : BillingHoldPricingVersion.t) : option (string * version) :=
  v ← pricingRuleVersions s !! TrimSpace (BillingHoldPricingVersion.PricingRuleVersionID snapshot);
  if is_published v then Some (BillingHoldPricingVersion.Purpose snapshot, v) else None.

Definition priced_usage (record : UsageRecord.t) (facts : Facts) (prices : list (string * version))
    (settlement : UsageSettlement.t) : UsageSettlement.t :=
  foldl (fun settlement '(purpose, v) => settle record facts purpose (PricingRuleVersion.RuleID v) v settlement)
    settlement prices.

Definition settlement_of (record : UsageRecord.t) (operation : AIOperation.t) (prices : list (string * version))
    : result go_error UsageSettlement.t :=
  let settlement := priced_usage record (pricingFactsFromUsage operation record) prices
                      (UsageSettlement.mk record [] [] []) in
  riskOutbox ← usageRecordedOutbox MarshalDimensions (UsageSettlement.Record settlement);
  Ok (settlement <| UsageSettlement.OutboxEvents := UsageSettlement.OutboxEvents settlement ++ [riskOutbox] |>).

Definition answer_of {A} (x : result go_error A) : result service_error A :=
  match x with Ok a => Ok a | Err e => Err (Plain e) end.

(** ** Lemmas: the program and the reference *)

Notation ok := (catalogue_ok (validated Parse CompileExpr Run wrapCallError render Marshal)).
Notation obeys := (holds max_int64 ok later present).
Notation relies := (rely ok later present).

Lemma obeys_attempt {A B} ids (p : srv A) (k : result service_error A -> srv B) Q w :
  obeys ids p (fun x w' => obeys ids (k x) Q w') w -> ok w -> obeys ids (attempt p ≫= k) Q w.
Proof.
  intros H Hw. apply (obeys_bind Parse CompileExpr Run wrapCallError render Marshal); [|done]. unfold attempt.
  apply holds_bind; [apply later_refl| |done]. eapply holds_impl; [|exact H]. intros x w1 _ Hx w2 Hr. cbn.
  eapply holds_later; [apply later_trans|exact Hx|exact Hr].
Qed.

(** What the detail of a version tells about the catalogue. *)
Lemma detail_found ids id w : ok w ->
  obeys ids (PricingRuleVersionDetail id) (fun x w' => later w w' /\ ok w' /\
    match x with
    | Ok (r, v) => PricingRule.ID r = PricingRuleVersion.RuleID v /\
        (is_published v = true -> pricingRuleVersions w'.2 !! TrimSpace id = Some v) /\
        (is_published v = false -> forall v0, pricingRuleVersions w.2 !! TrimSpace id = Some v0 -> is_published v0 = false)
    | Err _ => forall v0, pricingRuleVersions w.2 !! TrimSpace id = Some v0 -> is_published v0 = false
    end) w.
Proof.
  intros Hw. apply (obeys_query Parse CompileExpr Run wrapCallError render Marshal). intros w1 (O1 & L1 & _).
  assert (Hone : forall v0, pricingRuleVersions w.2 !! TrimSpace id = Some v0 -> is_published v0 = true ->
    pricingRuleVersions w1.2 !! TrimSpace id = Some v0) by (intros; by apply (later_published _ _ L1)).
  unfold FindPricingRuleVersion. rewrite TrimSpace_idemp.
  destruct (pricingRuleVersions w1.2 !! TrimSpace id) as [v|] eqn:Ev; cbn [fmap option_fmap option_map].
  2: { intros w3 (O3 & L3 & _). split_and!; [|done|].
    - eapply later_trans; [exact L1|]. eapply later_trans; [apply tick_later|exact L3].
    - intros v0 H0. destruct (is_published v0) eqn:E0; [|done]. by specialize (Hone v0 H0 E0). }
  apply (obeys_query Parse CompileExpr Run wrapCallError render Marshal). intros w2 (O2 & L2 & _).
  unfold clonePricingRuleVersion. destruct (version_rule _ _ _ (ok_versions _ _ O1 _ _ Ev)) as [r1 Hr1].
  destruct (later_rules _ _ L2 _ _ Hr1) as (r2 & Hr2 & _). unfold FindPricingRule.
  pose proof (ok_rules_keyed _ _ O2 _ _ Hr2) as Hk. cbn in Hk.
  pose proof (rule_id _ _ (ok_rules _ _ O2 _ _ Hr2)) as Ht. rewrite Hk in Ht. rewrite Ht, Hr2.
  intros w3 (O3 & L3 & _).
  assert (L13 : later w1 w3).
  { eapply later_trans; [apply tick_later|]. eapply later_trans; [exact L2|].
    eapply later_trans; [apply tick_later|exact L3]. }
  split_and!; [by eapply later_trans|done|done| |].
  - intros Hp. by apply (later_published _ _ L13).
  - intros Hp v0 H0. destruct (is_published v0) eqn:E0; [|done]. specialize (Hone v0 H0 E0). congruence.
Qed.

Lemma fixed_later w w' snapshot price : later w w' -> fixed_price w.2 snapshot = Some price ->
  fixed_price w'.2 snapshot = Some price.
Proof.
  intros L. unfold fixed_price. destruct (pricingRuleVersions w.2 !! _) as [v|] eqn:Ev; [|done]. cbn.
  destruct (is_published v) eqn:Ep; [|done]. rewrite (later_published _ _ L _ _ Ev Ep). cbn. by rewrite Ep.
Qed.

Notation fixed s versions prices := (Forall2 (fun snapshot price => fixed_price s snapshot = Some price) versions prices).

(** The loop fails where a version is not published yet, and otherwise prices the
    usage with the versions as they are. *)
Lemma snapshots_spec ids record facts versions settlement w : ok w ->
  obeys ids (settle_snapshots Parse CompileExpr Run wrapCallError render Marshal record facts versions settlement)
    (fun x w' => later w w' /\ ok w' /\
      (x = Err (Plain ErrUsageLedgerConflict) /\ (exists snapshot, snapshot ∈ versions /\ fixed_price w.2 snapshot = None) \/
       exists prices, fixed w'.2 versions prices /\ x = Ok (priced_usage record facts prices settlement))) w.
Proof.
  intros Hw. revert settlement w Hw. induction versions as [|snapshot versions IH]; intros settlement w Hw; cbn [settle_snapshots].
  { intros w' (O & L & _). split_and!; [done|done|]. right. by exists []. }
  apply obeys_attempt; [|done]. eapply holds_impl; [|by apply detail_found]. intros [[r v]|e] w1 _ (L1 & O1 & Hx).
  2: { intros w2 (O2 & L2 & _). split_and!; [by eapply later_trans|done|]. left. split; [done|]. exists snapshot.
       split; [by left|]. unfold fixed_price. destruct (pricingRuleVersions w.2 !! _) as [v0|] eqn:E0; [|done]. cbn.
       by rewrite (Hx v0 eq_refl). }
  destruct Hx as (Hr & Hpub & Hnot). unfold refuse. fold (is_published v).
  destruct (is_published v) eqn:Ep; cbn [negb].
  2: { intros w2 (O2 & L2 & _). split_and!; [by eapply later_trans|done|]. left. split; [done|]. exists snapshot.
       split; [by left|]. unfold fixed_price. destruct (pricingRuleVersions w.2 !! _) as [v0|] eqn:E0; [|done]. cbn.
       by rewrite (Hnot eq_refl v0 eq_refl). }
  eapply holds_impl; [|by apply IH]. intros x w2 _ (L2 & O2 & Hx). split_and!; [by eapply later_trans|done|].
  destruct Hx as [(-> & s & Hin & Hs)|(prices & Hall & ->)].
  - left. split; [done|]. exists s. split; [by right|]. destruct (fixed_price w.2 s) eqn:E; [|done].
    by rewrite (fixed_later w w1 s _ L1 E) in Hs.
  - right. exists ((BillingHoldPricingVersion.Purpose snapshot, v) :: prices). split.
    + constructor; [|done]. apply (fixed_later w1); [done|]. unfold fixed_price. rewrite Hpub by done. cbn. by rewrite Ep.
    + cbn [priced_usage foldl]. by rewrite Hr.
Qed.

(** What the program answers when it has read the operation in [s1], the hold in
    [s2], its versions in [s3], and ends in [s4]. *)
Definition settled_as (record : UsageRecord.t) (s1 s2 s3 s4 : MemoryRepository)
    (x : result service_error UsageSettlement.t) : Prop :=
  match FindAIOperation (UsageRecord.OperationID record) s1 with
  | None => x = Err (Plain ErrUsageLedgerConflict)
  | Some operation =>
      if AIOperation.RequestFingerprint operation <>s UsageRecord.RequestFingerprint record
      then x = Err (Plain ErrUsageLedgerConflict)
      else match FindBillingHoldByOperationID (UsageRecord.OperationID record) s2 with
      | None => x = Err (Plain (ErrNew "billing hold not found for usage settlement"))
      | Some hold =>
          let versions := ListBillingHoldPricingVersions (BillingHold.ID hold) s3 in
          x = Err (Plain ErrUsageLedgerConflict) /\ (exists snapshot, snapshot ∈ versions /\ fixed_price s3 snapshot = None) \/
          exists prices, fixed s4 versions prices /\ x = answer_of (settlement_of record operation prices)
      end
  end.

Lemma build_spec ids record w : ok w ->
  obeys ids (buildUsageSettlement Parse CompileExpr Run wrapCallError render Marshal MarshalDimensions record)
    (fun x w' => exists w1 w2 w3, later w w1 /\ later w1 w2 /\ later w2 w3 /\ later w3 w' /\
       settled_as record w1.2 w2.2 w3.2 w'.2 x) w.
Proof.
  intros Hw. apply (obeys_query Parse CompileExpr Run wrapCallError render Marshal). intros w1 (O1 & L1 & _).
  unfold settled_as.
  assert (Hstop : forall w', later (w1.1 + 1, w1.2) w' -> later w1 w')
    by (intros w' L; eapply later_trans; [apply tick_later|exact L]).
  destruct (FindAIOperation _ w1.2) as [operation|] eqn:Eo.
  2: { intros w' (O' & L' & _). exists w1, w1, w1. rewrite Eo. split_and!; [done|apply later_refl|apply later_refl|auto|done]. }
  unfold refuse. destruct (_ <>s _) eqn:Ef.
  { intros w' (O' & L' & _). exists w1, w1, w1. rewrite Eo, Ef. split_and!; [done|apply later_refl|apply later_refl|auto|done]. }
  apply (obeys_query Parse CompileExpr Run wrapCallError render Marshal). intros w2 (O2 & L2 & _).
  assert (L12 : later w1 w2) by auto.
  destruct (FindBillingHoldByOperationID _ w2.2) as [hold|] eqn:Eh.
  2: { intros w' (O' & L' & _). exists w1, w2, w2. rewrite Eo, Ef, Eh.
       split_and!; [done|done|apply later_refl| |done]. eapply later_trans; [apply tick_later|exact L']. }
  apply (obeys_query Parse CompileExpr Run wrapCallError render Marshal). intros w3 (O3 & L3 & _).
  assert (L23 : later w2 w3) by (eapply later_trans; [apply tick_later|exact L3]).
  apply (obeys_bind Parse CompileExpr Run wrapCallError render Marshal); [|by destruct (relies_tick Parse CompileExpr Run wrapCallError render Marshal ∅ w3 O3)].
  eapply holds_impl; [|apply snapshots_spec; by destruct (relies_tick Parse CompileExpr Run wrapCallError render Marshal ∅ w3 O3)].
  intros x w4 _ (L4 & O4 & Hx). cbn [fst snd] in *.
  assert (L34 : later w3 w4) by (eapply later_trans; [apply tick_later|exact L4]).
  destruct Hx as [(-> & Hs)|(prices & Hall & ->)].
  - intros w' (_ & L' & _). exists w1, w2, w3. rewrite Eo, Ef, Eh. split_and!; [done..|by eapply later_trans|by left].
  - assert (Hend : forall w', later w4 w' -> fixed w'.2 (ListBillingHoldPricingVersions (BillingHold.ID hold) w3.2) prices).
    { intros w' L'. eapply Forall2_impl; [exact Hall|]. intros a b. by apply fixed_later. }
    assert (Hans : forall w' y, relies ids w4 w' -> y = answer_of (settlement_of record operation prices) ->
      exists w1 w2 w3, later w w1 /\ later w1 w2 /\ later w2 w3 /\ later w3 w' /\ settled_as record w1.2 w2.2 w3.2 w'.2 y).
    { intros w' y (_ & L' & _) ->. exists w1, w2, w3. unfold settled_as. rewrite Eo, Ef, Eh.
      split_and!; [done..|by eapply later_trans|]. right. eauto. }
    unfold settlement_of in Hans. destruct (usageRecordedOutbox _ _) eqn:Eout; cbn in Hans |- *; intros w' Hr; by apply (Hans w').
Qed.

(** ** Lemmas: the parts of a settlement *)

Notation evaluate := (evaluate_version Parse CompileExpr Run wrapCallError render Marshal).

Definition ledger_of (record : UsageRecord.t) (facts : Facts) (price : string * version) : option BillingLedgerEntry.t :=
  match evaluate price.2 facts with
  | Ok evaluated => Some (usage_ledger record price.1 price.2 evaluated)
  | Err _ => None
  end.
Definition evaluation_of (record : UsageRecord.t) (facts : Facts) (price : string * version) : PricingEvaluation.t :=
  let '(purpose, v) := price in
  match evaluate v facts with
  | Ok evaluated => priced_evaluation record facts purpose (PricingRuleVersion.RuleID v) v evaluated
  | Err err => disputed_evaluation Marshal record facts purpose (PricingRuleVersion.RuleID v) v err
  end.
Definition charge (record : UsageRecord.t) (facts : Facts) (settled : UsageRecord.t) (price : string * version)
    : UsageRecord.t :=
  if price.1 =s PricingPurposeUsageCost then
    match evaluate price.2 facts with
    | Ok evaluated => priced_record settled (deterministicPricingEvaluationID record price.1) evaluated
    | Err _ => disputed_record settled
    end
  else settled.

Lemma priced_usage_parts record facts prices settlement :
  priced_usage record facts prices settlement =
  UsageSettlement.mk (foldl (charge record facts) (UsageSettlement.Record settlement) prices)
    (UsageSettlement.Evaluations settlement ++ map (evaluation_of record facts) prices)
    (UsageSettlement.Ledgers settlement ++ omap (ledger_of record facts) prices)
    (UsageSettlement.OutboxEvents settlement).
Proof.
  revert settlement. induction prices as [|[purpose v] prices IH]; intros settlement.
  { cbn. rewrite !app_nil_r. by destruct settlement. }
  change (priced_usage record facts ((purpose, v) :: prices) settlement) with (priced_usage record facts prices
    (settle record facts purpose (PricingRuleVersion.RuleID v) v settlement)). rewrite IH.
  assert (E : settle record facts purpose (PricingRuleVersion.RuleID v) v settlement =
    UsageSettlement.mk (charge record facts (UsageSettlement.Record settlement) (purpose, v))
      (UsageSettlement.Evaluations settlement ++ [evaluation_of record facts (purpose, v)])
      (UsageSettlement.Ledgers settlement ++ option_list (ledger_of record facts (purpose, v)))
      (UsageSettlement.OutboxEvents settlement)).
  { unfold settle_snapshot, charge, evaluation_of, ledger_of. cbn [fst snd].
    destruct (evaluate v facts); destruct (purpose =s _); destruct settlement; cbn; by rewrite ?app_nil_r. }
  rewrite E. cbn [UsageSettlement.Record UsageSettlement.Evaluations UsageSettlement.Ledgers UsageSettlement.OutboxEvents map foldl].
  rewrite <- !app_assoc. f_equal. cbn [omap list_omap]. by destruct (ledger_of record facts (purpose, v)).
Qed.

(** The record is charged with nothing but its cost. *)
Lemma charge_fields record facts prices settled :
  let charged := foldl (charge record facts) settled prices in
  UsageRecord.ID charged = UsageRecord.ID settled /\
  UsageRecord.OperationID charged = UsageRecord.OperationID settled /\
  UsageRecord.AttemptID charged = UsageRecord.AttemptID settled /\
  UsageRecord.UsageVersion charged = UsageRecord.UsageVersion settled /\
  UsageRecord.RequestFingerprint charged = UsageRecord.RequestFingerprint settled /\
  UsageRecord.UsageDimensions charged = UsageRecord.UsageDimensions settled.
Proof.
  cbv zeta. revert settled. induction prices as [|price prices IH]; intros settled; cbn [foldl]; [done|].
  destruct (IH (charge record facts settled price)) as (-> & -> & -> & -> & -> & ->).
  unfold charge. destruct (_ =s _); [|done]. by destruct (evaluate _ _).
Qed.

Lemma evaluated_amount v facts evaluated : evaluate v facts = Ok evaluated ->
  0 <= ResultAmountMicros evaluated /\ PricingEval.Currency evaluated = CurrencyUSD.
Proof.
  unfold evaluate_version. intros (compiled & _ & He)%bind_Ok.
  by apply Evaluate_Ok in He as (? & ? & ? & ? & ? & ? & ? & ? & ? & ? & ? & ? & ? & ?).
Qed.

Lemma evaluation_native record facts price : foreign_evaluation record (evaluation_of record facts price) = false.
Proof.
  destruct price as [purpose v]. unfold foreign_evaluation, evaluation_of.
  destruct (evaluate v facts); cbn; by rewrite !String.eqb_refl, Z.eqb_refl.
Qed.

Lemma ledger_native record facts price b : ledger_of record facts price = Some b ->
  foreign_ledger record b = false /\
  PricingEvaluation.ID (evaluation_of record facts price) = BillingLedgerEntry.PricingEvaluationID b /\
  BillingLedgerEntry.Purpose b = price.1 /\
  forall evaluations, evaluations !! BillingLedgerEntry.PricingEvaluationID b = Some (evaluation_of record facts price) ->
    unsupported evaluations b = false.
Proof.
  destruct price as [purpose v]. unfold ledger_of, evaluation_of. cbn [fst snd].
  destruct (evaluate v facts) as [evaluated|] eqn:Ee; [|done]. intros [= <-].
  destruct (evaluated_amount _ _ _ Ee) as [Ha Hc]. split_and!; [|done|done|].
  - unfold foreign_ledger. cbn. rewrite Hc, !String.eqb_refl, Z.eqb_refl. by rewrite (proj2 (Z.ltb_ge _ _) Ha).
  - intros evaluations He. unfold unsupported. rewrite He. cbn. by rewrite !String.eqb_refl, Z.eqb_refl.
Qed.

Lemma evaluation_id record facts price :
  PricingEvaluation.ID (evaluation_of record facts price) = deterministicPricingEvaluationID record price.1.
Proof. destruct price as [purpose v]. cbn. by destruct (evaluate v facts). Qed.

(** Distinct identifiers are identifiers of distinct purposes. *)
Lemma purposes_distinct record facts prices :
  NoDup (PricingEvaluation.ID <$> map (evaluation_of record facts) prices) -> NoDup prices.*1.
Proof.
  intros H. apply (NoDup_fmap_1 (deterministicPricingEvaluationID record)). rewrite <- list_fmap_compose.
  assert (E : (deterministicPricingEvaluationID record ∘ fst) <$> prices =
    PricingEvaluation.ID <$> map (evaluation_of record facts) prices); [|by rewrite E].
  clear H. induction prices as [|price prices IH]; cbn; [done|]. by rewrite evaluation_id, <- IH.
Qed.

Lemma ledger_purposes record facts prices :
  sublist (BillingLedgerEntry.Purpose <$> omap (ledger_of record facts) prices) prices.*1.
Proof.
  induction prices as [|price prices IH]; [constructor|]. cbn [omap list_omap fmap list_fmap].
  destruct (ledger_of record facts price) as [b|] eqn:Eb; cbn.
  - apply ledger_native in Eb as (_ & _ & -> & _). by constructor.
  - by constructor.
Qed.

Lemma validate_evaluations record l m : Forall (fun e => foreign_evaluation record e = false) l ->
  foldM (validate_evaluation record) m l = Ok (foldl (fun m e => <[PricingEvaluation.ID e := e]> m) m l).
Proof.
  revert m. induction l as [|e l IH]; intros m; [done|]. intros [He Hl]%Forall_cons_iff. cbn.
  unfold validate_evaluation. rewrite He. cbn. by apply IH.
Qed.

Lemma validate_entries record evaluations l purposes :
  Forall (fun b => foreign_ledger record b = false /\ unsupported evaluations b = false) l ->
  NoDup (BillingLedgerEntry.Purpose <$> l) -> Forall (fun b => BillingLedgerEntry.Purpose b ∉ purposes) l ->
  exists out, foldM (validate_ledger record evaluations) purposes l = Ok out.
Proof.
  revert purposes. induction l as [|b l IH]; intros purposes; [by eexists|].
  intros [[H1 H2] Hl]%Forall_cons_iff [Hb Hnd]%NoDup_cons [Hp Hps]%Forall_cons_iff. cbn. unfold validate_ledger.
  rewrite H1, H2. cbn. destruct (contains purposes (BillingLedgerEntry.Purpose b)) eqn:Ec; [by apply contains_In in Ec|].
  cbn. apply IH; [done|done|]. apply Forall_forall. intros x Hx [E|Hin]%elem_of_cons.
  - apply Hb. rewrite <- E. by apply list_elem_of_fmap_2.
  - rewrite Forall_forall in Hps. by apply (Hps x Hx).
Qed.

Definition recordable (record : UsageRecord.t) : Prop :=
  TrimSpace (UsageRecord.OperationID record) <> ""%string /\ 0 < UsageRecord.UsageVersion record /\
  UsageRecord.ID record <> ""%string /\ UsageRecord.RequestFingerprint record <> ""%string.

Lemma settlement_parts record operation prices settlement (facts := pricingFactsFromUsage operation record) :
  settlement_of record operation prices = Ok settlement ->
  UsageSettlement.Record settlement = foldl (charge record facts) record prices /\
  UsageSettlement.Evaluations settlement = map (evaluation_of record facts) prices /\
  UsageSettlement.Ledgers settlement = omap (ledger_of record facts) prices.
Proof.
  unfold settlement_of. cbv zeta. intros (outbox & _ & H)%bind_Ok. injection H as <-. cbn.
  by rewrite priced_usage_parts.
Qed.

Lemma settlement_valid record operation prices settlement : recordable record ->
  settlement_of record operation prices = Ok settlement ->
  NoDup (PricingEvaluation.ID <$> UsageSettlement.Evaluations settlement) ->
  validateUsageSettlement settlement = Ok tt.
Proof.
  intros (R1 & R2 & R3 & R4) Hs Hnd. apply settlement_parts in Hs as (Er & Ee & El).
  set (facts := pricingFactsFromUsage operation record) in *. unfold validateUsageSettlement. rewrite Er, Ee, El in *.
  destruct (charge_fields record facts prices record) as (F1 & F2 & F3 & F4 & F5 & _).
  set (charged := foldl _ _ _) in *. rewrite F1, F2, F4, F5.
  rewrite (proj2 (String.eqb_neq _ _) R1), (proj2 (String.eqb_neq _ _) R3), (proj2 (String.eqb_neq _ _) R4).
  rewrite (proj2 (Z.leb_gt _ _) R2). cbn [orb guard_err mbind result_bind].
  assert (Hn : forall e, foreign_evaluation charged e = foreign_evaluation record e)
    by (intros e; unfold foreign_evaluation; by rewrite F1, F2, F3, F4).
  assert (Hm : forall b, foreign_ledger charged b = foreign_ledger record b)
    by (intros b; unfold foreign_ledger; by rewrite F1, F2, F3, F4, F5).
  rewrite validate_evaluations.
  2: { apply Forall_forall. intros e (price & <- & _)%list_elem_of_In%in_map_iff. by rewrite Hn, evaluation_native. }
  cbn [mbind result_bind]. destruct (validate_entries charged
    (foldl (fun m e => <[PricingEvaluation.ID e := e]> m) ∅ (map (evaluation_of record facts) prices))
    (omap (ledger_of record facts) prices) []) as [out ->]; [| | |done].
  - apply Forall_forall. intros b Hb. apply list_elem_of_omap in Hb as (price & Hp & Eb).
    apply ledger_native in Eb as (Hf & Hid & _ & Hsup). rewrite Hm. split; [done|]. apply Hsup. rewrite <- Hid.
    apply (foldl_store PricingEvaluation.ID); [done|]. by apply list_elem_of_In, in_map, list_elem_of_In.
  - apply purposes_distinct in Hnd. by eapply sublist_NoDup, ledger_purposes.
  - apply Forall_forall. by intros b _ ?%elem_of_nil.
Qed.

Lemma charge_none record facts settled prices : PricingPurposeUsageCost ∉ prices.*1 ->
  foldl (charge record facts) settled prices = settled.
Proof.
  revert settled. induction prices as [|price prices IH]; intros settled; cbn [foldl fmap list_fmap]; [done|].
  intros [Hne Hn]%not_elem_of_cons. rewrite IH by done. unfold charge.
  by rewrite (proj2 (String.eqb_neq _ _) (not_eq_sym Hne)).
Qed.

Lemma charge_cost record facts settled prices c : NoDup prices.*1 -> UsageRecord.UsageCostMicros settled = None ->
  UsageRecord.UsageCostMicros (foldl (charge record facts) settled prices) = Some c <->
  exists b, b ∈ omap (ledger_of record facts) prices /\
    BillingLedgerEntry.Purpose b = PricingPurposeUsageCost /\ BillingLedgerEntry.AmountMicros b = c.
Proof.
  revert settled. induction prices as [|[purpose v] prices IH]; intros settled; cbn [foldl fmap list_fmap fst].
  { intros _ ->. split; [done|]. by intros (b & ?%elem_of_nil & _). }
  intros [Hn Hnd]%NoDup_cons Hs. cbn [omap list_omap].
  assert (Hrest : forall b, b ∈ omap (ledger_of record facts) prices -> BillingLedgerEntry.Purpose b ∈ prices.*1).
  { intros b Hb. eapply elem_of_submseteq; [by apply list_elem_of_fmap_2|]. apply sublist_submseteq, ledger_purposes. }
  unfold charge at 2. cbn [fst snd]. destruct (String.eqb_spec purpose PricingPurposeUsageCost) as [->|Hne].
  - rewrite charge_none by done. unfold ledger_of at 1. cbn [fst snd].
    destruct (evaluate v facts) as [evaluated|e]; cbn.
    + split.
      * intros [= <-]. eexists. split; [by left|done].
      * intros (b & [->|Hb]%elem_of_cons & Hp & <-); [done|]. apply Hrest in Hb. by rewrite Hp in Hb.
    + split; [done|]. intros (b & Hb & Hp & _). apply Hrest in Hb. by rewrite Hp in Hb.
  - rewrite IH by done. unfold ledger_of at 2. cbn [fst snd].
    destruct (evaluate v facts) as [evaluated|e]; [|done]. setoid_rewrite elem_of_cons. split; [naive_solver|].
    intros (b & [->|Hb] & Hp & Hc); [by cbn in Hp|eauto].
Qed.

(** ** Property *)

(** C33. What usage is billed is what its hold has fixed: among any other calls,
    the settlement that is built is the one that the operation, the hold and the
    published versions the hold names give.  If the identifiers of its evaluations
    are distinct it passes the repository's validation of settlements (whether it
    is then applied depends on what is stored: a ledger entry of the same usage
    with another content is a conflict), and the cost it writes on the record is
    the amount of the ledger entry for the cost of usage. *)
Theorem usage_settlement_valid `{upper : UnicodeUpper} P record :
  pool_steps max_int64 (pricing_calls Parse CompileExpr Run wrapCallError render Marshal) elsewhere start P ->
  recordable record -> UsageRecord.UsageCostMicros record = None ->
  obeys ∅ (buildUsageSettlement Parse CompileExpr Run wrapCallError render Marshal MarshalDimensions record) (fun x w' =>
    (exists w1 w2 w3, later (world P) w1 /\ later w1 w2 /\ later w2 w3 /\ later w3 w' /\
       settled_as record w1.2 w2.2 w3.2 w'.2 x) /\
    forall settlement, x = Ok settlement -> NoDup (PricingEvaluation.ID <$> UsageSettlement.Evaluations settlement) ->
      validateUsageSettlement settlement = Ok tt /\
      forall cost, UsageRecord.UsageCostMicros (UsageSettlement.Record settlement) = Some cost <->
        exists b, b ∈ UsageSettlement.Ledgers settlement /\
          BillingLedgerEntry.Purpose b = PricingPurposeUsageCost /\ BillingLedgerEntry.AmountMicros b = cost) (world P).
Proof.
  intros HP Hrec Hcost. pose proof (pool_world _ _ _ _ _ (pool_reachable_ok _ _ _ _ _ _ P HP)) as Hw.
  eapply holds_impl; [|by apply build_spec]. intros x w' _ (w1 & w2 & w3 & L1 & L2 & L3 & L4 & Hx).
  split; [by exists w1, w2, w3|]. intros settlement -> Hnd. unfold settled_as in Hx.
  destruct (FindAIOperation _ _) as [operation|]; [|done]. destruct (_ <>s _); [done|].
  destruct (FindBillingHoldByOperationID _ _) as [hold|]; [|done].
  destruct Hx as [[? _]|(prices & _ & Hx)]; [done|].
  destruct (settlement_of record operation prices) as [s|e] eqn:Es; [|done]. injection Hx as <-.
  split; [by eapply settlement_valid|]. intros cost. apply settlement_parts in Es as (-> & Ee & ->). rewrite Ee in Hnd.
  apply charge_cost; [by eapply purposes_distinct|done].
Qed.
End Reference.

(** ** Witness *)

Module Demo.
#[local] Instance no_escapes : JSONText := fun s => s.
Definition marshal_dimensions (_ : gmap string UsageDimension) : result go_error string := Ok "{}"%string.
Definition record : UsageRecord.t := UsageRecord.zero
  <| UsageRecord.ID := "usage_1"%string |> <| UsageRecord.OperationID := "op1"%string |>
  <| UsageRecord.UsageVersion := 1 |> <| UsageRecord.UsageSource := "gateway_final"%string |>
  <| UsageRecord.RequestFingerprint := "f"%string |> <| UsageRecord.InputTokens := 3 |>
  <| UsageRecord.PricingStatus := "unpriced"%string |>.
End Demo.

#[local] Existing Instance canonical_range.
#[local] Existing Instance PricingService.Demo.no_lower.
#[local] Existing Instance Demo.no_escapes.
#[local] Notation demo f := (f PricingService.Demo.parse PricingService.Demo.compile PricingService.Demo.run
  PricingService.Demo.wrap PricingService.Demo.show PricingService.Demo.marshal) (only parsing).

Lemma usage_settlement_valid_witness :
  holds max_int64 (catalogue_ok (demo validated)) later present ∅
    (demo buildUsageSettlement Demo.marshal_dimensions Demo.record) (fun x w' =>
    (exists w1 w2 w3, later (world PricingService.Demo.P2) w1 /\ later w1 w2 /\ later w2 w3 /\ later w3 w' /\
       demo settled_as Demo.marshal_dimensions Demo.record w1.2 w2.2 w3.2 w'.2 x) /\
    forall settlement, x = Ok settlement -> NoDup (PricingEvaluation.ID <$> UsageSettlement.Evaluations settlement) ->
      validateUsageSettlement settlement = Ok tt /\
      forall cost, UsageRecord.UsageCostMicros (UsageSettlement.Record settlement) = Some cost <->
        exists b, b ∈ UsageSettlement.Ledgers settlement /\
          BillingLedgerEntry.Purpose b = PricingPurposeUsageCost /\ BillingLedgerEntry.AmountMicros b = cost)
    (world PricingService.Demo.P2).
Proof.
  apply (usage_settlement_valid (upper := PricingService.Demo.no_upper) _ _ _ _ _ _ _ _ _
    PricingService.Demo.steps_to_2); [split_and!; by vm_compute|reflexivity].
Defined.
