(* ===== verification/System.v ===== *)
(** * The repository as a whole

    Every operation of the in-memory repository that the other files model, as
    one step relation, and what all of them together guarantee: the invariant of
    the repository and the absence of partial writes. *)

From S2P Require Import Prelude Calendar UsageDimensions Repository JobModel FairQueue Outbox Attempts BillingHolds Settlement JobRepository Progress.

#[local] Notation eid := TransactionalOutboxEvent.ID.

(** ** The invariant *)

(** The history of a job reaches its present: its current version has an event
    that says what happened, and an outbox event that announces it. *)
Definition job_recorded (r : MemoryRepository) (job : AIJob.t) : Prop :=
  exists event outbox,
    aiJobEvents r !! AIJobEvent.ID event = Some event /\
    transactionalOutboxEvents r !! eid outbox = Some outbox /\
    describes event job /\ announces outbox event.

Record repository_ok (r : MemoryRepository) : Prop := {
  ok_jobs_keyed : keyed AIJob.ID (aiJobs r);
  ok_jobs : map_Forall (fun _ job => job_ok job) (aiJobs r);
  ok_recorded : map_Forall (fun _ job => job_recorded r job) (aiJobs r);
  ok_holds : holds_ok (billingHolds r);
  ok_outbox : keyed eid (transactionalOutboxEvents r);
  ok_ledger_keyed : keyed BillingLedgerEntry.ID (billingLedgerEntries r);
  ok_ledger : ledger_unique (billingLedgerEntries r);
}.

(** A hold as the service prepares it. *)
Definition fresh_hold (billing : BillingHoldAdmission.t) : Prop :=
  BillingHold.SettledAt (BillingHoldAdmission.Hold billing) = None /\
  BillingHold.ReleasedAt (BillingHoldAdmission.Hold billing) = None /\
  TrimSpace (BillingHold.ID (BillingHoldAdmission.Hold billing)) = BillingHold.ID (BillingHoldAdmission.Hold billing).

Section System.
Context `{range : MapRange} `{unicode : UnicodeCase} `{json : JSONText}.
Context (Marshal : gmap string UsageDimension -> result go_error string).

(** One operation, whatever its answer.  The conditions are on the caller's
    records: a new job is well formed, a new hold is not settled or released and
    has a plain identifier, a settlement has distinct ledger identifiers. *)
Inductive repository_step : MemoryRepository -> MemoryRepository -> Prop :=
| Step_CreateAIOperation operation r x r' :
    CreateAIOperation operation r = (x, r') -> repository_step r r'
| Step_MarkAIOperationRunning id at_ r x r' :
    MarkAIOperationRunning id at_ r = (x, r') -> repository_step r r'
| Step_CompleteAIOperation id status errorType at_ r x r' :
    CompleteAIOperation id status errorType at_ r = (x, r') -> repository_step r r'
| Step_CreateAIAttempt attempt r x r' :
    CreateAIAttempt attempt r = (x, r') -> repository_step r r'
| Step_CreateOrGetAIAttempt attempt r x r' :
    CreateOrGetAIAttempt attempt r = (x, r') -> repository_step r r'
| Step_UpdateAIAttemptDispatch requested version r x r' :
    UpdateAIAttemptDispatch requested version r = (x, r') -> repository_step r r'
| Step_ScheduleAIAttemptReconciliation id version at_ audit r x r' :
    ScheduleAIAttemptReconciliation id version at_ audit r = (x, r') -> repository_step r r'
| Step_ScheduleArtifactDeliveryRetry id requested version audit r x r' :
    ScheduleArtifactDeliveryRetry id requested version audit r = (x, r') -> repository_step r r'
| Step_CompleteAIAttempt id status errorType at_ r x r' :
    CompleteAIAttempt id status errorType at_ r = (x, r') -> repository_step r r'
| Step_CreateAIOperationWithBillingHold operation admission r x r' :
    fresh_hold admission ->
    CreateAIOperationWithBillingHold operation admission r = (x, r') -> repository_step r r'
| Step_TransitionBillingHold id version toStatus amount reason at_ r x r' :
    TransitionBillingHold id version toStatus amount reason at_ r = (x, r') -> repository_step r r'
| Step_CreateDurableAIJob operation job event outbox limits billing r x r' :
    job_ok job -> fresh_hold billing ->
    CreateDurableAIJob operation job event outbox limits billing r = (x, r') -> repository_step r r'
| Step_RequestAIJobCancellation id owner at_ r x r' :
    RequestAIJobCancellation id owner at_ r = (x, r') -> repository_step r r'
| Step_RequestAIJobAdminCancellation id at_ audit r x r' :
    RequestAIJobAdminCancellation id at_ audit r = (x, r') -> repository_step r r'
| Step_ClaimQueuedAIJobs now leaseUntil workerID leaseToken limit r x r' :
    ClaimQueuedAIJobs now leaseUntil workerID leaseToken limit r = (x, r') -> repository_step r r'
| Step_ClaimAIJobsByReadyReferences references now leaseUntil workerID leaseToken limit r x r' :
    ClaimAIJobsByReadyReferences references now leaseUntil workerID leaseToken limit r = (x, r') ->
    repository_step r r'
| Step_ExtendAIJobQueueLease id version fence leaseToken leaseUntil at_ r x r' :
    ExtendAIJobQueueLease id version fence leaseToken leaseUntil at_ r = (x, r') -> repository_step r r'
| Step_TransitionAIJob id version fence toStatus reason at_ r x r' :
    TransitionAIJob id version fence toStatus reason at_ r = (x, r') -> repository_step r r'
| Step_RequeueAIJob id version fence reason eligible at_ r x r' :
    RequeueAIJob id version fence reason eligible at_ r = (x, r') -> repository_step r r'
| Step_ApplyUsageSettlement settlement r x r' :
    NoDup (BillingLedgerEntry.ID <$> UsageSettlement.Ledgers settlement) ->
    ApplyUsageSettlement Marshal settlement r = (x, r') -> repository_step r r'
| Step_ClaimDueTransactionalOutboxEvents now leaseUntil leaseToken limit r x r' :
    ClaimDueTransactionalOutboxEvents now leaseUntil leaseToken limit r = (x, r') -> repository_step r r'
| Step_CompleteTransactionalOutboxEvent id leaseToken at_ r x r' :
    CompleteTransactionalOutboxEvent id leaseToken at_ r = (x, r') -> repository_step r r'
| Step_RescheduleTransactionalOutboxEvent id leaseToken next text dead at_ r x r' :
    RescheduleTransactionalOutboxEvent id leaseToken next text dead at_ r = (x, r') -> repository_step r r'
| Step_RequeueTransactionalOutboxEvent id at_ r x r' :
    RequeueTransactionalOutboxEvent id at_ r = (x, r') -> repository_step r r'
| Step_AppendAIJobProgressEvent event r x r' :
    AppendAIJobProgressEvent event r = (x, r') -> repository_step r r'.
(** The operations that change one thing or nothing: all but the claims of jobs,
    which work through a list. *)
Inductive single : forall {A}, M A -> Prop :=
| Op_CreateAIOperation operation : single (CreateAIOperation operation)
| Op_MarkAIOperationRunning id at_ : single (MarkAIOperationRunning id at_)
| Op_CompleteAIOperation id status errorType at_ :
    single (CompleteAIOperation id status errorType at_)
| Op_CreateAIAttempt attempt : single (CreateAIAttempt attempt)
| Op_CreateOrGetAIAttempt attempt : single (CreateOrGetAIAttempt attempt)
| Op_UpdateAIAttemptDispatch requested version :
    single (UpdateAIAttemptDispatch requested version)
| Op_ScheduleAIAttemptReconciliation id version at_ audit :
    single (ScheduleAIAttemptReconciliation id version at_ audit)
| Op_ScheduleArtifactDeliveryRetry id requested version audit :
    single (ScheduleArtifactDeliveryRetry id requested version audit)
| Op_CompleteAIAttempt id status errorType at_ :
    single (CompleteAIAttempt id status errorType at_)
| Op_CreateAIOperationWithBillingHold operation admission :
    single (CreateAIOperationWithBillingHold operation admission)
| Op_TransitionBillingHold id version toStatus amount reason at_ :
    single (TransitionBillingHold id version toStatus amount reason at_)
| Op_CreateDurableAIJob operation job event outbox limits billing :
    single (CreateDurableAIJob operation job event outbox limits billing)
| Op_RequestAIJobCancellation id owner at_ : single (RequestAIJobCancellation id owner at_)
| Op_RequestAIJobAdminCancellation id at_ audit :
    single (RequestAIJobAdminCancellation id at_ audit)
| Op_ExtendAIJobQueueLease id version fence leaseToken leaseUntil at_ :
    single (ExtendAIJobQueueLease id version fence leaseToken leaseUntil at_)
| Op_TransitionAIJob id version fence toStatus reason at_ :
    single (TransitionAIJob id version fence toStatus reason at_)
| Op_RequeueAIJob id version fence reason eligible at_ :
    single (RequeueAIJob id version fence reason eligible at_)
| Op_ApplyUsageSettlement settlement : single (ApplyUsageSettlement Marshal settlement)
| Op_ClaimDueTransactionalOutboxEvents now leaseUntil leaseToken limit :
    single (ClaimDueTransactionalOutboxEvents now leaseUntil leaseToken limit)
| Op_CompleteTransactionalOutboxEvent id leaseToken at_ :
    single (CompleteTransactionalOutboxEvent id leaseToken at_)
| Op_RescheduleTransactionalOutboxEvent id leaseToken next text dead at_ :
    single (RescheduleTransactionalOutboxEvent id leaseToken next text dead at_)
| Op_RequeueTransactionalOutboxEvent id at_ : single (RequeueTransactionalOutboxEvent id at_)
| Op_AppendAIJobProgressEvent event : single (AppendAIJobProgressEvent event).
End System.

(** ** Lemmas: operations outside the invariant *)

(** The maps the invariant speaks about. *)
Definition core (r : MemoryRepository) :=
  (aiJobs r, aiJobEvents r, billingHolds r, billingLedgerEntries r, transactionalOutboxEvents r).

Lemma ok_core r r' : core r' = core r -> repository_ok r -> repository_ok r'.
Proof.
  intros [= E1 E2 E3 E4 E5] [H1 H2 H3 H4 H5 H6 H7].
  split; unfold map_Forall, job_recorded in *; rewrite ?E1, ?E2, ?E3, ?E4, ?E5; done.
Qed.

Lemma new_repository_ok : repository_ok NewMemoryRepository.
Proof.
  split; try apply map_Forall_empty.
  - split; [intros k h Hh|intros k1 k2 h1 h2 Hh]; cbn in Hh; by rewrite lookup_empty in Hh.
  - intros k1 k2 e1 e2 H1. cbn in H1. by rewrite lookup_empty in H1.
Qed.

Notation quiet := (preserves core) (only parsing).

Section Quiet.
Context `{range : MapRange}.

Lemma quiet_CreateAIOperation operation : quiet (CreateAIOperation operation).
Proof. unfold CreateAIOperation. preserves_tac. Qed.
Lemma quiet_MarkAIOperationRunning id at_ : quiet (MarkAIOperationRunning id at_).
Proof. unfold MarkAIOperationRunning. preserves_tac. Qed.
Lemma quiet_CompleteAIOperation id status e at_ : quiet (CompleteAIOperation id status e at_).
Proof. unfold CompleteAIOperation. preserves_tac. Qed.
Lemma quiet_CreateOrGetAIAttempt attempt : quiet (CreateOrGetAIAttempt attempt).
Proof. unfold CreateOrGetAIAttempt. preserves_tac. Qed.
Lemma quiet_CreateAIAttempt attempt : quiet (CreateAIAttempt attempt).
Proof. unfold CreateAIAttempt. apply preserves_bind; [apply quiet_CreateOrGetAIAttempt|]. intros []. preserves_tac. Qed.
Lemma quiet_UpdateAIAttemptDispatch requested v : quiet (UpdateAIAttemptDispatch requested v).
Proof. unfold UpdateAIAttemptDispatch. preserves_tac. Qed.
Lemma quiet_ScheduleAIAttemptReconciliation id v at_ audit :
  quiet (ScheduleAIAttemptReconciliation id v at_ audit).
Proof. unfold ScheduleAIAttemptReconciliation. preserves_tac. Qed.
Lemma quiet_ScheduleArtifactDeliveryRetry id requested v audit :
  quiet (ScheduleArtifactDeliveryRetry id requested v audit).
Proof. unfold ScheduleArtifactDeliveryRetry. preserves_tac. Qed.
Lemma quiet_AppendAIJobProgressEvent `{UnicodeCase} event : quiet (AppendAIJobProgressEvent event).
Proof. unfold AppendAIJobProgressEvent. preserves_tac. Qed.
Lemma quiet_CompleteAIAttempt id status e at_ : quiet (CompleteAIAttempt id status e at_).
Proof. unfold CompleteAIAttempt. preserves_tac. Qed.
End Quiet.

(** ** Lemmas: parts of the invariant *)

Lemma ok_set_holds r r' :
  r' = (r <| billingHolds := billingHolds r' |>) -> holds_ok (billingHolds r') ->
  repository_ok r -> repository_ok r'.
Proof.
  intros E Hh [H1 H2 H3 H4 H5 H6 H7]. destruct r. cbn in *.
  rewrite E in Hh |- *. by split.
Qed.

(** The outbox may lose nothing, and events keep their identity. *)
Definition same_event (e e' : TransactionalOutboxEvent.t) : Prop :=
  eid e' = eid e /\
  TransactionalOutboxEvent.AggregateType e' = TransactionalOutboxEvent.AggregateType e /\
  TransactionalOutboxEvent.AggregateID e' = TransactionalOutboxEvent.AggregateID e /\
  TransactionalOutboxEvent.EventVersion e' = TransactionalOutboxEvent.EventVersion e /\
  TransactionalOutboxEvent.EventType e' = TransactionalOutboxEvent.EventType e.

Definition outbox_grows (m m' : gmap string TransactionalOutboxEvent.t) : Prop :=
  forall k e, m !! k = Some e -> exists e', m' !! k = Some e' /\ same_event e e'.

Lemma outbox_grows_refl m : outbox_grows m m.
Proof. intros k e He. exists e. done. Qed.

Lemma outbox_grows_insert m k e e' :
  m !! k = Some e -> same_event e e' -> outbox_grows m (<[k := e']> m).
Proof.
  intros He Hs k' d Hd. destruct (decide (k = k')) as [<-|Hne].
  - exists e'. rewrite lookup_insert_eq. split; [done|]. by assert (d = e) as -> by congruence.
  - exists d. by rewrite lookup_insert_ne.
Qed.

Lemma recorded_grows r r' job :
  (forall k e, aiJobEvents r !! k = Some e -> aiJobEvents r' !! k = Some e) ->
  outbox_grows (transactionalOutboxEvents r) (transactionalOutboxEvents r') ->
  job_recorded r job -> job_recorded r' job.
Proof.
  intros Hev Hob (event & outbox & H1 & H2 & H3 & H4).
  destruct (Hob _ _ H2) as (outbox' & H2' & (E0 & E1 & E2 & E3 & E4)). exists event, outbox'.
  split; [by apply Hev|]. split; [by rewrite E0|]. split; [done|].
  unfold announces in *. by rewrite E1, E2, E3, E4.
Qed.

Lemma ok_set_outbox r r' :
  r' = (r <| transactionalOutboxEvents := transactionalOutboxEvents r' |>) ->
  outbox_grows (transactionalOutboxEvents r) (transactionalOutboxEvents r') ->
  keyed eid (transactionalOutboxEvents r') -> repository_ok r -> repository_ok r'.
Proof.
  intros E Hg Hk [H1 H2 H3 H4 H5 H6 H7].
  assert (Ec : aiJobs r' = aiJobs r /\ aiJobEvents r' = aiJobEvents r /\ billingHolds r' = billingHolds r /\
    billingLedgerEntries r' = billingLedgerEntries r) by (rewrite E; by destruct r).
  destruct Ec as (E1 & E2 & E3 & E4). split; rewrite ?E1, ?E3, ?E4; try done.
  eapply map_Forall_impl; [exact H3|]. intros k job. apply recorded_grows; [by rewrite E2|done].
Qed.

(** The commit of a change that was made ready. *)
Lemma ok_commit r operation updated event outbox :
  repository_ok r -> ready_change r updated event outbox ->
  repository_ok (commit_change operation (AIJob.ID updated) updated event outbox r).
Proof.
  intros [H1 H2 H3 H4 H5 H6 H7] [C1 C2 C3 C4 C5]. split; cbn; try done.
  - by apply keyed_insert.
  - by apply map_Forall_insert_2.
  - apply map_Forall_insert_2.
    + exists event, outbox. cbn. by rewrite !lookup_insert_eq.
    + eapply map_Forall_impl; [exact H3|]. intros k job. apply recorded_grows; cbn.
      * intros k' e He. rewrite lookup_insert_ne; [done|]. congruence.
      * intros k' e He. exists e. split; [|done]. rewrite lookup_insert_ne; [done|]. congruence.
  - by apply keyed_insert.
Qed.

(** A job that changes without a new version keeps its record. *)
Lemma ok_set_job r key job job' :
  repository_ok r -> aiJobs r !! key = Some job -> job_ok job' ->
  AIJob.ID job' = AIJob.ID job -> AIJob.Status job' = AIJob.Status job ->
  AIJob.StatusVersion job' = AIJob.StatusVersion job ->
  repository_ok (r.[aiJobs]:[key] <- job').
Proof.
  intros [H1 H2 H3 H4 H5 H6 H7] Hj Hok E1 E2 E3. split; cbn; try done.
  - apply keyed_insert; [done|]. rewrite E1. by apply (H1 key).
  - by apply map_Forall_insert_2.
  - assert (Hsame : forall j, job_recorded r j -> job_recorded (r.[aiJobs]:[key] <- job') j) by done.
    apply map_Forall_insert_2.
    + apply Hsame. destruct (H3 _ _ Hj) as (event & outbox & R1 & R2 & R3 & R4). exists event, outbox.
      split_and!; try done. unfold describes in *. by rewrite E1, E2, E3.
    + eapply map_Forall_impl; [exact H3|]. intros k j. apply Hsame.
Qed.

Section Parts.
Context `{range : MapRange} `{unicode : UnicodeCase} `{json : JSONText}.

(** *** Holds *)

Lemma ok_admission admission operationID r :
  repository_ok r -> hold_ok (BillingHoldAdmission.Hold admission) ->
  BillingHold.OperationID (BillingHoldAdmission.Hold admission) = operationID ->
  billingHolds r !! BillingHold.ID (BillingHoldAdmission.Hold admission) = None ->
  memoryBillingHoldForOperation (billingHolds r) operationID = None ->
  repository_ok (insert_admission admission r).
Proof.
  intros Hr Hok <- H1 H2. rewrite insert_admission_frame. cbv zeta.
  set (hold := BillingHoldAdmission.Hold admission) in *.
  assert (Hset : repository_ok (r <| billingHolds := <[BillingHold.ID hold := hold]> (billingHolds r) |>)).
  { apply (ok_set_holds r); [by destruct r| |done]. cbn. by apply holds_insert; [apply Hr|..]. }
  revert Hset. apply ok_core. by destruct r.
Qed.

Lemma ok_CreateAIOperationWithBillingHold operation admission r x r' :
  fresh_hold admission -> CreateAIOperationWithBillingHold operation admission r = (x, r') ->
  repository_ok r -> repository_ok r'.
Proof.
  intros (F1 & F2 & _) H Hr. unfold CreateAIOperationWithBillingHold in H. cbv zeta in H.
  apply readonly_bind_inv in H as [(e & _ & _ & ->)|([] & Hv & H)]; [done| |apply readonly_lift].
  injection Hv as Hv. apply admitted_hold in Hv as (Eop & _ & Hok).
  apply readonly_bind_inv in H as [(e & [=] & _)|(replay & _ & H)]; [|apply readonly_read].
  destruct replay; [by injection H as _ <-|].
  apply readonly_bind_inv in H as [(e & [=] & _)|(? & [= <-] & H)]; [|apply readonly_read].
  apply readonly_bind_inv in H as [(e & _ & _ & ->)|([] & _ & H)]; [done| |apply readonly_check].
  apply readonly_bind_inv in H as [(e & _ & _ & ->)|([] & Hc & H)]; [done| |apply readonly_check_admission].
  apply readonly_bind_inv in H as [(e & _ & _ & ->)|([] & _ & H)]; [done| |apply readonly_lift].
  injection H as _ <-. apply check_admission_inv in Hc as [H1 H2].
  eapply ok_admission; [|by apply Hok|exact Eop|exact H1|exact H2].
  by apply (ok_core r).
Qed.

Lemma ok_TransitionBillingHold id version toStatus amount reason at_ r x r' :
  TransitionBillingHold id version toStatus amount reason at_ r = (x, r') ->
  repository_ok r -> repository_ok r'.
Proof.
  intros H Hr. pose proof (ok_holds _ Hr) as Hh. unfold TransitionBillingHold in H.
  apply readonly_bind_inv in H as [(e & [=] & _)|(found & [= <-] & H)]; [|apply readonly_read].
  unfold FindBillingHoldByOperationID in H.
  destruct (memoryBillingHoldForOperation _ _) as [hold|] eqn:Ef; [|by injection H as _ <-].
  destruct (negb _); [by injection H as _ <-|].
  apply readonly_bind_inv in H as [(e & _ & _ & ->)|(updated & Hp & H)]; [done| |apply readonly_lift].
  destruct (_ =? _); [by injection H as _ <-|]. injection H as _ <-. injection Hp as Hp.
  apply memoryHold_spec in Ef as [Ef _]; [|done]. destruct (holds_keys _ Hh _ _ Ef) as [_ Hok].
  apply (ok_set_holds r); [by destruct r| |done]. cbn.
  pose proof Hp as Hp'. apply prepareHold_inv in Hp' as [[-> _]|(_ & _ & _ & E1 & E2 & _)];
    apply holds_update; try done. by eapply prepareHold_ok.
Qed.

(** *** Jobs *)

Lemma ok_CreateDurableAIJob operation job event outbox limits billing r x r' :
  job_ok job -> fresh_hold billing ->
  CreateDurableAIJob operation job event outbox limits billing r = (x, r') ->
  repository_ok r -> repository_ok r'.
Proof.
  intros Hjob (F1 & F2 & _) H Hr. destruct x as [[j created]|e].
  - apply create_inv in H as [[_ ->]|(_ & _ & Hv & Hb & _ & _ & He & Ho & Hh1 & Hh2 & _ & ->)]; [done|].
    apply validate_admission_inv in Hv as (_ & _ & _ & Hd & Ha). apply admitted_hold in Hb as (Eop & _ & Hok).
    eapply ok_admission; [|by apply Hok|exact Eop|exact Hh1|exact Hh2].
    by apply ok_commit.
  - by apply traceless_create in H as ->.
Qed.

(** A job found, stepped and committed. *)
Lemma ok_stepped r r1 key job updated toStatus event outbox operation :
  repository_ok r -> stepped r key job updated toStatus event outbox ->
  r1 = (r <| billingHolds := billingHolds r1 |>) -> holds_ok (billingHolds r1) ->
  repository_ok (commit_change operation key updated event outbox r1).
Proof.
  intros Hr [S1 S2 S3 S4 S5 S6 S7] E1 Hh.
  assert (Ekey : key = AIJob.ID updated) by (rewrite S3; symmetry; by apply (ok_jobs_keyed _ Hr)).
  rewrite Ekey. apply ok_commit; [by eapply ok_set_holds|].
  destruct (S7 (ok_jobs _ Hr _ _ S1)) as [C1 C2 C3 C4 C5].
  split; [done|done|done| |]; rewrite E1; by destruct r.
Qed.

Lemma ok_transition id version fence toStatus reason adjust at_ r x r' :
  harmless adjust -> transition_job id version fence toStatus reason adjust at_ r = (x, r') ->
  repository_ok r -> repository_ok r'.
Proof.
  intros Ha H Hr. destruct x as [[o flag]|e]; [|by apply traceless_transition in H as ->].
  apply transition_inv in H as [(_ & -> & _)|(_ & job & updated & event & outbox & operation & Hs & _ & _ & _ & ->)];
    [done| |done].
  eapply (ok_stepped r); [done|exact Hs|by destruct r|apply Hr].
Qed.

Lemma ok_cancel key job reason at_ audit r x r' :
  aiJobs r !! key = Some job -> cancel_found key job reason at_ audit r = (x, r') ->
  repository_ok r -> repository_ok r'.
Proof.
  intros Hj H Hr. destruct x as [[o flag]|e]; [|by apply traceless_cancel in H as ->].
  apply cancel_inv in H as [[_ ->]|(_ & toStatus & updated & event & outbox & operation & r1 & Hs & _ & _ & _ & _ &
    Hrel & ->)]; [done| |done].
  assert (H1 : r1 = (r <| billingHolds := billingHolds r1 |>) /\ holds_ok (billingHolds r1)).
  { destruct (_ =s _).
    - apply release_inv in Hrel as (E & K & _); [done|apply Hr].
    - subst r1. split; [by destruct r|apply Hr]. }
  destruct H1 as [E1 K1]. cbv zeta.
  pose proof (ok_stepped r r1 key job updated toStatus event outbox
    (applyMemoryOperationJobStatus operation (AIJob.Status updated) (AIJob.ErrorType updated) at_) Hr Hs E1 K1) as Hok.
  destruct audit; [|done]. revert Hok. by apply ok_core.
Qed.

Lemma ok_claims candidates now leaseUntil workerID leaseToken limit claimed r x r' :
  NoDup (AIJob.ID <$> candidates) ->
  (forall job, job ∈ candidates -> aiJobs r !! AIJob.ID job = Some job) ->
  claimAIJobCandidatesLocked candidates now leaseUntil workerID leaseToken limit claimed r = (x, r') ->
  repository_ok r -> repository_ok r'.
Proof.
  revert claimed r. induction candidates as [|c l IH]; intros claimed r; cbn.
  - intros _ _ H Hr. by injection H as _ <-.
  - intros [Hc Hnd]%NoDup_cons Hin H Hr. destruct (_ >=? _); [by injection H as _ <-|].
    assert (Hcj : aiJobs r !! AIJob.ID c = Some c) by (apply Hin; by left).
    assert (Hone : forall y r1, claim_candidate now leaseUntil workerID leaseToken c r = (y, r1) ->
      repository_ok r1 /\ forall job, job ∈ l -> aiJobs r1 !! AIJob.ID job = Some job).
    { intros y r1 [(e & _ & ->)|(u & event & outbox & operation & _ & (Eid & _) & Hready & ->)]%claim_candidate_inv.
      - split; [done|]. intros job Hj. apply Hin. by right.
      - split; [apply ok_commit; [done|]; apply Hready, (ok_jobs _ Hr _ _ Hcj)|].
        intros job Hj. cbn. rewrite lookup_insert_ne; [apply Hin; by right|].
        rewrite Eid. intros Eq. apply Hc. rewrite Eq. by apply list_elem_of_fmap_2. }
    apply M_bind_inv in H as [(e & H1 & _)|(u & r1 & H1 & H)]; destruct (Hone _ _ H1) as [Hr1 Hl]; [done|].
    by eapply IH.
Qed.

Lemma ok_ClaimQueuedAIJobs now leaseUntil workerID leaseToken limit r x r' :
  ClaimQueuedAIJobs now leaseUntil workerID leaseToken limit r = (x, r') ->
  repository_ok r -> repository_ok r'.
Proof.
  intros H Hr. unfold ClaimQueuedAIJobs in H. destruct (_ || _); [by injection H as _ <-|].
  destruct (ranked_candidates (fun job => aiJobReadyForClaim job now) r (dispatch_activities r) now limit
    (ok_jobs_keyed _ Hr)) as [Hnd Hin].
  eapply ok_claims; [exact Hnd| |exact H|exact Hr]. intros job Hj. by apply Hin.
Qed.

Lemma ok_ClaimAIJobsByReadyReferences references now leaseUntil workerID leaseToken limit r x r' :
  ClaimAIJobsByReadyReferences references now leaseUntil workerID leaseToken limit r = (x, r') ->
  repository_ok r -> repository_ok r'.
Proof.
  intros H Hr. unfold ClaimAIJobsByReadyReferences in H. destruct (_ || _); [by injection H as _ <-|].
  destruct (ranked_candidates (fun job =>
    (default 0 (wanted_versions references !! AIJob.ID job) =? AIJob.StatusVersion job)
    && aiJobReadyForClaim job now) r (dispatch_activities r) now limit (ok_jobs_keyed _ Hr)) as [Hnd Hin].
  eapply ok_claims; [exact Hnd| |exact H|exact Hr]. intros job Hj. by apply Hin.
Qed.

Lemma ok_ExtendAIJobQueueLease id version fence leaseToken leaseUntil at_ r x r' :
  ExtendAIJobQueueLease id version fence leaseToken leaseUntil at_ r = (x, r') ->
  repository_ok r -> repository_ok r'.
Proof.
  intros H Hr. unfold ExtendAIJobQueueLease in H. destruct (_ || _); [by injection H as _ <-|].
  apply readonly_bind_inv in H as [(e & [=] & _)|(found & [= <-] & H)]; [|apply readonly_read].
  unfold FindAIJob in H. destruct (aiJobs r !! id) as [job|] eqn:Ej; [|by injection H as _ <-].
  destruct (AIJob.QueueLeaseUntil job); [|by injection H as _ <-].
  match type of H with (if ?c then _ else _) _ = _ => destruct c eqn:Eg end; [by injection H as _ <-|].
  match type of H with (if ?c then _ else _) _ = _ => destruct c end; [by injection H as _ <-|].
  injection H as _ <-. boolify. destruct (ok_jobs _ Hr _ _ Ej) as [J1 J2 J3].
  eapply ok_set_job; [exact Hr|exact Ej|..]; destruct (After at_ (AIJob.UpdatedAt job)); try done;
    (split; cbn; [done| |done]; by intros []).
Qed.
End Parts.

Section Rest.
Context `{range : MapRange} `{unicode : UnicodeCase} `{json : JSONText}.
Context (Marshal : gmap string UsageDimension -> result go_error string).

(** *** Outbox *)

Lemma ok_ClaimDue now leaseUntil leaseToken limit r x r' :
  ClaimDueTransactionalOutboxEvents now leaseUntil leaseToken limit r = (x, r') ->
  repository_ok r -> repository_ok r'.
Proof.
  intros H Hr. destruct x as [claimed|e].
  2: { exfalso. unfold ClaimDueTransactionalOutboxEvents in H. destruct (_ || _); [done|].
       unfold mbind, M_bind, read in H. by rewrite for_each_write in H. }
  apply claim_due_inv in H as (E & Hk & _ & Hcl & Hout); [|apply Hr].
  apply (ok_set_outbox r); try done. intros k e He.
  destruct (decide (k ∈ eid <$> claimed)) as [Hin|Hnot].
  - apply list_elem_of_fmap in Hin as (c & -> & Hc). destruct (Hcl c Hc) as (Hc' & e0 & He0 & _ & ->).
    exists (claimed_event now leaseUntil leaseToken e0). split; [done|].
    assert (e0 = e) as -> by congruence. unfold same_event, claimed_event, normalizeTransactionalOutboxEvent.
    by destruct (_ <=? 0).
  - exists e. by rewrite Hout.
Qed.

Lemma ok_outbox_update r id e e' :
  repository_ok r -> transactionalOutboxEvents r !! id = Some e -> same_event e e' ->
  repository_ok (r.[transactionalOutboxEvents]:[id] <- e').
Proof.
  intros Hr He Hs. apply (ok_set_outbox r); [by destruct r| | |done]; cbn.
  - by eapply outbox_grows_insert.
  - apply keyed_insert; [apply Hr|]. destruct Hs as (-> & _). by apply (ok_outbox _ Hr).
Qed.

Lemma ok_Complete id leaseToken at_ r x r' :
  CompleteTransactionalOutboxEvent id leaseToken at_ r = (x, r') -> repository_ok r -> repository_ok r'.
Proof.
  intros H Hr. unfold CompleteTransactionalOutboxEvent in H.
  apply readonly_bind_inv in H as [(e & [=] & _)|(found & [= <-] & H)]; [|apply readonly_read].
  destruct (owned id leaseToken r) as [e|] eqn:Eo; injection H as _ <-; [|done].
  apply owned_Some in Eo as (He & _). by eapply ok_outbox_update.
Qed.

Lemma ok_Reschedule id leaseToken next text dead at_ r x r' :
  RescheduleTransactionalOutboxEvent id leaseToken next text dead at_ r = (x, r') ->
  repository_ok r -> repository_ok r'.
Proof.
  intros H Hr. unfold RescheduleTransactionalOutboxEvent in H.
  apply readonly_bind_inv in H as [(e & [=] & _)|(found & [= <-] & H)]; [|apply readonly_read].
  destruct (owned id leaseToken r) as [e|] eqn:Eo; injection H as _ <-; [|done].
  apply owned_Some in Eo as (He & _). by eapply ok_outbox_update.
Qed.

Lemma ok_Requeue id at_ r x r' :
  RequeueTransactionalOutboxEvent id at_ r = (x, r') -> repository_ok r -> repository_ok r'.
Proof.
  intros H Hr. unfold RequeueTransactionalOutboxEvent in H.
  apply readonly_bind_inv in H as [(e & [=] & _)|(found & [= <-] & H)]; [|apply readonly_read].
  destruct (transactionalOutboxEvents r !! id) as [e|] eqn:Ee; [|by injection H as _ <-].
  destruct (negb _); injection H as _ <-; [done|]. by eapply ok_outbox_update.
Qed.

(** *** Settlement *)

Lemma for_each_lift_inv {A} (f : A -> result go_error unit) l r r' :
  for_each (fun x => lift (f x)) l r = (Ok tt, r') -> Forall (fun x => f x = Ok tt) l.
Proof.
  induction l as [|x l IH]; cbn; [constructor|]. intros H.
  apply readonly_bind_inv in H as [(e & _ & [=] & _)|([] & Hx & H)]; [|apply readonly_lift].
  injection Hx as Hx. constructor; [done|by apply IH].
Qed.

(** The outbox events of a settlement are new. *)
Lemma absent_outbox settlement r :
  check_absent settlement r = (Ok tt, r) ->
  Forall (fun outbox => transactionalOutboxEvents r !! eid outbox = None)
    (UsageSettlement.OutboxEvents settlement).
Proof.
  unfold check_absent. intros H.
  apply readonly_bind_inv in H as [(e & [=] & _)|(? & [= <-] & H)]; [|apply readonly_read].
  apply readonly_bind_inv in H as [(e & _ & [=] & _)|([] & _ & H)]; [|apply readonly_check].
  apply readonly_bind_inv in H as [(e & _ & [=] & _)|([] & _ & H)]; [|solve [readonly_tac]].
  apply readonly_bind_inv in H as [(e & _ & [=] & _)|([] & _ & H)]; [|solve [readonly_tac]].
  apply for_each_lift_inv in H. eapply Forall_impl; [exact H|]. cbn. intros outbox.
  unfold validateMemoryOutboxInsert, id. destruct (has _ _) eqn:E; [done|]. by apply has_None in E.
Qed.

Lemma ok_ApplyUsageSettlement settlement r x r' :
  NoDup (BillingLedgerEntry.ID <$> UsageSettlement.Ledgers settlement) ->
  ApplyUsageSettlement Marshal settlement r = (x, r') -> repository_ok r -> repository_ok r'.
Proof.
  intros Hids H Hr. apply apply_inv in H as
    [[-> _]|(_ & normal & r1 & Hn & _ & Hf & Habs & Hh & Ho & ->)]; [done| |apply Hr].
  destruct (recorded_ledger Marshal settlement normal r r1 Hn Hf Ho Hids
    (ok_ledger_keyed _ Hr) (ok_ledger _ Hr)) as (Hk & Hu & _).
  destruct Hr as [H1 H2 H3 H4 H5 H6 H7].
  assert (E : aiJobs r1 = aiJobs r /\ aiJobEvents r1 = aiJobEvents r /\
    transactionalOutboxEvents r1 = transactionalOutboxEvents r) by (rewrite Ho; by destruct r).
  destruct E as (E1 & E2 & E3). set (r' := record_settlement normal r1) in *.
  assert (F : aiJobs r' = aiJobs r1 /\ aiJobEvents r' = aiJobEvents r1 /\ billingHolds r' = billingHolds r1 /\
    transactionalOutboxEvents r' = foldl (fun m outbox => <[eid outbox := outbox]> m)
      (transactionalOutboxEvents r1) (UsageSettlement.OutboxEvents normal)) by done.
  destruct F as (F1 & F2 & F3 & F4).
  split; rewrite ?F1, ?F3, ?E1; try done.
  - eapply map_Forall_impl; [exact H3|]. intros k job. apply recorded_grows; [by rewrite F2, E2|].
    rewrite F4, E3. intros k' e He. exists e. split; [|done]. rewrite foldl_store_other; [done|].
    intros Hin. apply list_elem_of_fmap in Hin as (o & -> & Hin).
    apply absent_outbox in Habs. rewrite Forall_forall in Habs. by rewrite (Habs o Hin) in He.
  - rewrite F4, E3. by apply keyed_store.
Qed.

(** *** Progress *)

(** The catalogue of prices, the sessions, the alerts and the progress of the
    jobs, which all other operations leave alone. *)
Definition aside (r : MemoryRepository) :=
  (aiJobProgressEvents r, pricingRules r, pricingRuleVersions r, realtimeSessions r, alertEvents r).
#[local] Notation silent := (preserves aside).

Lemma silent_admission admission g :
  (forall r, aside (g r) = aside r) -> silent (write (fun r => insert_admission admission (g r))).
Proof. intros Hg. apply preserves_write. intros r. rewrite insert_admission_frame. cbn. apply Hg. Qed.

Lemma silent_cancel id job reason at_ audit : silent (cancel_found id job reason at_ audit).
Proof. unfold cancel_found, releaseMemoryBillingHoldForOperation. preserves_tac. Qed.

Lemma silent_claims candidates now until worker token limit claimed :
  silent (claimAIJobCandidatesLocked candidates now until worker token limit claimed).
Proof.
  revert claimed. induction candidates as [|c candidates IH]; intros claimed; cbn; [preserves_tac|].
  unfold claim_candidate. preserves_tac. apply IH.
Qed.

Lemma silent_step r r' : repository_step Marshal r r' ->
  aside r' = aside r \/
  exists event x, AppendAIJobProgressEvent event r = (x, r').
Proof.
  destruct 1 as
    [? ? ? ? H|? ? ? ? ? H|? ? ? ? ? ? ? H|? ? ? ? H|? ? ? ? H|? ? ? ? ? H|? ? ? ? ? ? ? H|? ? ? ? ? ? ? H
    |? ? ? ? ? ? ? H|? ? ? ? ? Hf H|? ? ? ? ? ? ? ? ? H|? ? ? ? ? ? ? ? ? Hj Hf H|? ? ? ? ? ? H|? ? ? ? ? ? H
    |? ? ? ? ? ? ? ? H|? ? ? ? ? ? ? ? ? H|? ? ? ? ? ? ? ? ? H|? ? ? ? ? ? ? ? ? H|? ? ? ? ? ? ? ? ? H
    |? ? ? ? Hids H|? ? ? ? ? ? ? H|? ? ? ? ? ? H|? ? ? ? ? ? ? ? ? H|? ? ? ? ? H|? ? ? ? H]; [left..|by right; eauto].
  all: apply (preserves_run aside _ _ _ _) in H; [done|]; clear.
  - unfold CreateAIOperation; preserves_tac.
  - unfold MarkAIOperationRunning; preserves_tac.
  - unfold CompleteAIOperation; preserves_tac.
  - unfold CreateAIAttempt, CreateOrGetAIAttempt; preserves_tac.
  - unfold CreateOrGetAIAttempt; preserves_tac.
  - unfold UpdateAIAttemptDispatch; preserves_tac.
  - unfold ScheduleAIAttemptReconciliation; preserves_tac.
  - unfold ScheduleArtifactDeliveryRetry; preserves_tac.
  - unfold CompleteAIAttempt; preserves_tac.
  - unfold CreateAIOperationWithBillingHold; preserves_tac. by apply silent_admission.
  - unfold TransitionBillingHold; preserves_tac.
  - unfold CreateDurableAIJob; preserves_tac. by apply silent_admission.
  - unfold RequestAIJobCancellation; preserves_tac. apply silent_cancel.
  - unfold RequestAIJobAdminCancellation; preserves_tac. apply silent_cancel.
  - unfold ClaimQueuedAIJobs; preserves_tac. apply silent_claims.
  - unfold ClaimAIJobsByReadyReferences; preserves_tac. apply silent_claims.
  - unfold ExtendAIJobQueueLease; preserves_tac.
  - unfold TransitionAIJob, transition_job; preserves_tac.
  - unfold RequeueAIJob, transition_job; preserves_tac.
  - unfold ApplyUsageSettlement, settle_hold, settle_ledger, settle_evaluation, move_hold,
      settleMemoryBillingHoldForUsage; preserves_tac.
  - unfold ClaimDueTransactionalOutboxEvents; preserves_tac.
  - unfold CompleteTransactionalOutboxEvent; preserves_tac.
  - unfold RescheduleTransactionalOutboxEvent; preserves_tac.
  - unfold RequeueTransactionalOutboxEvent; preserves_tac.
Qed.

Lemma progress_step_ok r r' : repository_step Marshal r r' ->
  progress_ok (aiJobProgressEvents r) -> progress_ok (aiJobProgressEvents r').
Proof.
  intros [[= -> _ _ _ _] | (event & x & H)]%silent_step Hok; [done|]. apply append_inv in H as [[-> _]|[_ Hcases]]; [done|].
  destruct Hcases as [(-> & _)|[(-> & _)|(_ & -> & Hs & Hl & Hp)]]; [done|done|].
  cbn. by apply ok_newest, look_newest.
Qed.

Lemma step_aside {A} (part : MemoryRepository -> A) r r' :
  (forall r r', aside r' = aside r -> part r' = part r) ->
  (forall event, preserves part (AppendAIJobProgressEvent event)) ->
  repository_step Marshal r r' -> part r' = part r.
Proof.
  intros Ha Hp [H|(event & x & H)]%silent_step; [by apply Ha|]. by apply (preserves_run part _ _ _ _ (Hp event)) in H.
Qed.

Lemma step_catalogue r r' : repository_step Marshal r r' ->
  pricingRules r' = pricingRules r /\ pricingRuleVersions r' = pricingRuleVersions r.
Proof.
  intros H. apply (step_aside (fun r => (pricingRules r, pricingRuleVersions r))) in H; [by injection H| |].
  - by intros ? ? [= _ -> -> _ _].
  - intros event. unfold AppendAIJobProgressEvent; preserves_tac.
Qed.

Lemma step_sessions r r' : repository_step Marshal r r' -> realtimeSessions r' = realtimeSessions r.
Proof.
  apply step_aside; [by intros ? ? [=]|]. intros event. unfold AppendAIJobProgressEvent; preserves_tac.
Qed.

(** *** Errors *)

Lemma traceless_holds operation admission :
  traceless (CreateAIOperationWithBillingHold operation admission).
Proof.
  unfold CreateAIOperationWithBillingHold.
  repeat (apply traceless_after_reads;
    [first [apply readonly_check_admission|solve [readonly_tac]]|intros ?]; repo_cases); traceless_tac.
Qed.

Lemma traceless_attempt attempt : traceless (CreateOrGetAIAttempt attempt).
Proof. unfold CreateOrGetAIAttempt. traceless_tac. Qed.

(** An attempt that existed was not written. *)
Lemma existing_attempt attempt r a r' :
  CreateOrGetAIAttempt attempt r = (Ok (a, false), r') -> r' = r.
Proof.
  intros H. unfold CreateOrGetAIAttempt in H.
  apply readonly_bind_inv in H as [(e & [=] & _)|(? & [= <-] & H)]; [|apply readonly_read].
  apply readonly_bind_inv in H as [(e & _ & [=] & _)|([] & _ & H)]; [|apply readonly_check].
  destruct (find_value _ _); [by injection H as _ <-|].
  apply readonly_bind_inv in H as [(e & _ & [=] & _)|([] & _ & H)]; [|apply readonly_check].
  discriminate H.
Qed.

Lemma traceless_CreateAIAttempt attempt : traceless (CreateAIAttempt attempt).
Proof.
  intros r e r' H. apply M_bind_inv in H as [(e' & H & _)|([a created] & r1 & H1 & H)].
  - by eapply traceless_attempt.
  - apply check_inv in H as [-> [[Hc _]|[_ [=]]]]. destruct created; [done|]. by eapply existing_attempt.
Qed.

Lemma traceless_claim_due now leaseUntil leaseToken limit :
  traceless (ClaimDueTransactionalOutboxEvents now leaseUntil leaseToken limit).
Proof.
  intros r e r' H. unfold ClaimDueTransactionalOutboxEvents in H. destruct (_ || _); [done|].
  unfold mbind, M_bind, read in H. by rewrite for_each_write in H.
Qed.

Lemma traceless_operation {A} (m : M A) r e r' :
  repository_ok r -> single Marshal m -> m r = (Err e, r') -> r' = r.
Proof.
  intros Hr Hm. destruct Hm.
  18: { intros H. apply apply_inv in H as [[-> _]|[[=] _]]; [done|apply Hr]. }
  all: clear Hr; revert r e r'; match goal with |- forall r e r', ?m r = _ -> _ => change (traceless m) end.
  - unfold CreateAIOperation. traceless_tac.
  - unfold MarkAIOperationRunning. traceless_tac.
  - unfold CompleteAIOperation. traceless_tac.
  - apply traceless_CreateAIAttempt.
  - apply traceless_attempt.
  - unfold UpdateAIAttemptDispatch. traceless_tac.
  - unfold ScheduleAIAttemptReconciliation. traceless_tac.
  - unfold ScheduleArtifactDeliveryRetry. traceless_tac.
  - unfold CompleteAIAttempt. traceless_tac.
  - apply traceless_holds.
  - unfold TransitionBillingHold. traceless_tac.
  - apply traceless_create.
  - unfold RequestAIJobCancellation. apply traceless_after_reads; [apply readonly_read|].
    intros [job|]; [apply traceless_cancel|traceless_tac].
  - unfold RequestAIJobAdminCancellation. apply traceless_after_reads; [apply readonly_read|].
    intros [job|]; [apply traceless_cancel|traceless_tac].
  - unfold ExtendAIJobQueueLease. traceless_tac.
  - apply traceless_transition.
  - apply traceless_transition.
  - apply traceless_claim_due.
  - unfold CompleteTransactionalOutboxEvent. traceless_tac.
  - unfold RescheduleTransactionalOutboxEvent. traceless_tac.
  - unfold RequeueTransactionalOutboxEvent. traceless_tac.
  - unfold AppendAIJobProgressEvent. traceless_tac.
Qed.

(** *** One step *)

Lemma repository_step_ok r r' : repository_step Marshal r r' -> repository_ok r -> repository_ok r'.
Proof.
  destruct 1 as
    [? ? ? ? H|? ? ? ? ? H|? ? ? ? ? ? ? H|? ? ? ? H|? ? ? ? H|? ? ? ? ? H|? ? ? ? ? ? ? H|? ? ? ? ? ? ? H
    |? ? ? ? ? ? ? H|? ? ? ? ? Hf H|? ? ? ? ? ? ? ? ? H|? ? ? ? ? ? ? ? ? Hj Hf H|? ? ? ? ? ? H|? ? ? ? ? ? H
    |? ? ? ? ? ? ? ? H|? ? ? ? ? ? ? ? ? H|? ? ? ? ? ? ? ? ? H|? ? ? ? ? ? ? ? ? H|? ? ? ? ? ? ? ? ? H
    |? ? ? ? Hids H|? ? ? ? ? ? ? H|? ? ? ? ? ? H|? ? ? ? ? ? ? ? ? H|? ? ? ? ? H|? ? ? ? H].
  all: try (apply ok_core;
    first [eapply (preserves_run core _ _ _ _ (quiet_CreateAIOperation _)); exact H
          |eapply (preserves_run core _ _ _ _ (quiet_MarkAIOperationRunning _ _)); exact H
          |eapply (preserves_run core _ _ _ _ (quiet_CompleteAIOperation _ _ _ _)); exact H
          |eapply (preserves_run core _ _ _ _ (quiet_CreateAIAttempt _)); exact H
          |eapply (preserves_run core _ _ _ _ (quiet_CreateOrGetAIAttempt _)); exact H
          |eapply (preserves_run core _ _ _ _ (quiet_UpdateAIAttemptDispatch _ _)); exact H
          |eapply (preserves_run core _ _ _ _ (quiet_ScheduleAIAttemptReconciliation _ _ _ _)); exact H
          |eapply (preserves_run core _ _ _ _ (quiet_ScheduleArtifactDeliveryRetry _ _ _ _)); exact H
          |eapply (preserves_run core _ _ _ _ (quiet_CompleteAIAttempt _ _ _ _)); exact H
          |eapply (preserves_run core _ _ _ _ (quiet_AppendAIJobProgressEvent _)); exact H]).
  - by eapply ok_CreateAIOperationWithBillingHold.
  - by eapply ok_TransitionBillingHold.
  - by eapply ok_CreateDurableAIJob.
  - intros Hr. unfold RequestAIJobCancellation in H.
    apply readonly_bind_inv in H as [(e & [=] & _)|(found & [= <-] & H)]; [|apply readonly_read].
    unfold FindOwnedAIJob in H. destruct (aiJobs _ !! _) as [job|] eqn:Ej; [|by injection H as _ <-].
    destruct (negb _); [by injection H as _ <-|]. by eapply ok_cancel.
  - intros Hr. unfold RequestAIJobAdminCancellation in H.
    apply readonly_bind_inv in H as [(e & [=] & _)|(found & [= <-] & H)]; [|apply readonly_read].
    unfold FindAIJob in H. destruct (aiJobs _ !! _) as [job|] eqn:Ej; [|by injection H as _ <-].
    eapply ok_cancel; [|exact H|exact Hr]. by rewrite (ok_jobs_keyed _ Hr _ _ Ej).
  - by eapply ok_ClaimQueuedAIJobs.
  - by eapply ok_ClaimAIJobsByReadyReferences.
  - by eapply ok_ExtendAIJobQueueLease.
  - eapply ok_transition; [apply harmless_id|exact H].
  - eapply ok_transition; [apply harmless_eligible|exact H].
  - by eapply ok_ApplyUsageSettlement.
  - by eapply ok_ClaimDue.
  - by eapply ok_Complete.
  - by eapply ok_Reschedule.
  - by eapply ok_Requeue.
Qed.
End Rest.

(** ** Properties *)

Section Properties.
Context `{range : MapRange} `{unicode : UnicodeCase} `{json : JSONText}.
Context (Marshal : gmap string UsageDimension -> result go_error string).

(** C1. Whatever operations are performed on a new repository, in whatever order
    and with whatever outcome: every job is well formed and stored under its
    identity, its current version has an event that says what happened and an
    outbox event that announces it, an operation has at most one hold and every
    hold is coherent, no two ledger entries bill the same usage for the same
    purpose, and the progress of an attempt never goes back. *)
Theorem repository_invariant r :
  rtc (repository_step Marshal) NewMemoryRepository r ->
  repository_ok r /\ progress_ok (aiJobProgressEvents r).
Proof.
  intros Hrtc. pose proof new_repository_ok as H0.
  assert (P0 : progress_ok (aiJobProgressEvents NewMemoryRepository))
    by (intros k1 k2 e1 e2 H1; cbn in H1; by rewrite lookup_empty in H1).
  induction Hrtc as [x|x y z Hs _ IH]; [done|].
  apply IH; [by apply (repository_step_ok Marshal x y)|by eapply progress_step_ok].
Qed.

(** C20. On a coherent repository, an operation that returns an error has written
    nothing.  A claim that fails keeps the claims it has made before, each whole:
    every job is as it was, or was ready and is claimed as asked for, with the
    event and the outbox event of its new version, and the repository is
    coherent. *)
Theorem errors_leave_no_trace r :
  repository_ok r ->
  (forall A (m : M A) e r', single Marshal m -> m r = (Err e, r') -> r' = r) /\
  (forall now leaseUntil workerID leaseToken limit e r',
     claim_call now leaseUntil workerID leaseToken limit r (Err e) r' ->
     repository_ok r' /\
     forall id, aiJobs r' !! id = aiJobs r !! id \/
       exists before after, aiJobs r !! id = Some before /\ aiJobReadyForClaim before now = true /\
         aiJobs r' !! id = Some after /\ claim_of before after leaseUntil workerID leaseToken).
Proof.
  intros Hr. split; [intros A m e r' Hm; by apply (traceless_operation Marshal)|].
  intros now leaseUntil workerID leaseToken limit e r' Hc. split.
  - destruct Hc as [H|[references H]];
      [by eapply ok_ClaimQueuedAIJobs|by eapply ok_ClaimAIJobsByReadyReferences].
  - apply claim_call_inv in Hc as (candidates & new & _ & Hcand & Hfrom & _ & _); [|apply Hr]. intros id.
    destruct (decide (id ∈ AIJob.ID <$> new)) as [Hin|Hnot]; [right|left; by apply Hfrom].
    apply list_elem_of_fmap in Hin as (after & -> & Hin).
    destruct (claimed_origin _ _ _ _ _ _ _ _ Hfrom Hin) as (before & Hb & Hof).
    destruct (Hcand before Hb) as [H1 H2]. exists before, after.
    split_and!; [|done|by apply Hfrom|done]. destruct Hof as (-> & _). done.
Qed.
End Properties.

(** ** Witness *)

Lemma repository_invariant_witness : repository_ok JobRepository.Demo.created.
Proof.
  apply (repository_invariant (range := canonical_range) (unicode := JobRepository.Demo.no_unicode)
    (json := JobRepository.Demo.no_escapes) (fun _ => Ok ""%string)).
  apply rtc_once.
  apply (Step_CreateDurableAIJob (range := canonical_range) (unicode := JobRepository.Demo.no_unicode)
    (json := JobRepository.Demo.no_escapes) (fun _ => Ok ""%string)
    JobRepository.Demo.operation JobRepository.Demo.job (fst JobRepository.Demo.records)
    (snd JobRepository.Demo.records) JobRepository.Demo.limits JobRepository.Demo.billing NewMemoryRepository
    (fst (CreateDurableAIJob (range := canonical_range) (H := JobRepository.Demo.no_unicode)
       JobRepository.Demo.operation JobRepository.Demo.job (fst JobRepository.Demo.records)
       (snd JobRepository.Demo.records) JobRepository.Demo.limits JobRepository.Demo.billing
       NewMemoryRepository))).
  - split; cbn; [|done|done]. split; [by intros [? [=]]|done].
  - split_and!; reflexivity.
  - apply surjective_pairing.
Defined.

(** Of a job that no worker has taken, success is no next status. *)
#[local] Notation skip := (TransitionAIJob (range := canonical_range) (json := JobRepository.Demo.no_escapes)
  "j1" 1 0 AIJobStatusSucceeded "late" (33 * day)).

Lemma errors_leave_no_trace_witness :
  (skip JobRepository.Demo.created).2 = JobRepository.Demo.created /\
  exists e, (skip JobRepository.Demo.created).1 = Err e.
Proof.
  assert (E : exists e, (skip JobRepository.Demo.created).1 = Err e)
    by (eexists; vm_compute; reflexivity).
  split; [|exact E]. destruct E as [e E].
  assert (Hok : repository_ok JobRepository.Demo.created).
  { apply (repository_step_ok (range := canonical_range) (unicode := JobRepository.Demo.no_unicode)
      (json := JobRepository.Demo.no_escapes) (fun _ => Ok ""%string) NewMemoryRepository);
      [|apply new_repository_ok].
    eapply (Step_CreateDurableAIJob (range := canonical_range) (unicode := JobRepository.Demo.no_unicode)
      (json := JobRepository.Demo.no_escapes) (fun _ => Ok ""%string)); [| |apply surjective_pairing].
    - split; cbn; [|done|done]. split; [by intros [? [=]]|done].
    - split_and!; reflexivity. }
  apply (proj1 (errors_leave_no_trace (range := canonical_range) (unicode := JobRepository.Demo.no_unicode)
    (json := JobRepository.Demo.no_escapes) (fun _ => Ok ""%string) JobRepository.Demo.created Hok) (option AIJob.t * bool)%type
    skip e); [apply Op_TransitionAIJob|].
  rewrite <- E. apply surjective_pairing.
Defined.
