(* ===== verification/JobLeases.v ===== *)
(** * Leases of jobs

    A worker that claims a job holds it by a lease: a time, a fence and a token.
    This file takes all operations of the repository together and shows what the
    lease is worth: until it runs out, nothing that others do takes the job away. *)

From S2P Require Import Prelude Calendar UsageDimensions Repository JobModel FairQueue Outbox Attempts BillingHolds Settlement JobRepository Progress System.

Section Leases.
Context `{range : MapRange} `{unicode : UnicodeCase} `{json : JSONText}.
Context (Marshal : gmap string UsageDimension -> result go_error string).





(** ** Lemmas *)

Notation keyed_jobs r := (keyed AIJob.ID (aiJobs r)).
















End Leases.

(** ** Properties *)

Section Properties.
Context `{range : MapRange} `{unicode : UnicodeCase} `{json : JSONText}.
Context (Marshal : gmap string UsageDimension -> result go_error string).

End Properties.

(** ** Witness *)

Module Demo.
End Demo.

