(* ===== verification/UsageBilling.v ===== *)
(** * What usage is billed by, and that it is billed once

    The price of recorded usage ([UsagePricing]) rests on records that other calls
    could change in between: the operation, its hold, the versions the hold has
    fixed, and what is billed already.  The first part shows that no operation of
    the repository ([System]) changes them; the second that the same usage, recorded
    again at any time, is priced the same and billed no second time. *)

From S2P Require Import Prelude Calendar Sha256 Threads PricingMoney PricingRule PricingEval UsageDimensions Repository JobModel FairQueue Outbox Attempts BillingHolds Settlement JobRepository Progress System PricingCatalog PricingService HoldEstimate UsagePricing.

(** ** What does not change *)

Definition same_kind (o o' : AIOperation.t) : Prop :=
  AIOperation.Operation o' = AIOperation.Operation o /\ AIOperation.Modality o' = AIOperation.Modality o /\
  AIOperation.Lane o' = AIOperation.Lane o /\ AIOperation.RequestFingerprint o' = AIOperation.RequestFingerprint o.

Definition version_key (v : BillingHoldPricingVersion.t) : string :=
  (BillingHoldPricingVersion.HoldID v +:+ lf +:+ BillingHoldPricingVersion.Purpose v)%string.

Lemma same_kind_refl o : same_kind o o.
Proof. by split_and!. Qed.
#[local] Hint Resolve same_kind_refl : core.

(** What a version says to the settlement of the hold [h]. *)
Definition price_fixed (h : string) (v : BillingHoldPricingVersion.t) : option (string * string) :=
  if BillingHoldPricingVersion.HoldID v =s h
  then Some (BillingHoldPricingVersion.Purpose v, BillingHoldPricingVersion.PricingRuleVersionID v) else None.

(** The basis of billing from one moment to a later one. *)
Record kept (r r' : MemoryRepository) : Prop := {
  kept_operations : forall id o, id <> ""%string -> aiOperations r !! id = Some o ->
    exists o', aiOperations r' !! id = Some o' /\ same_kind o o';
  kept_attempts : forall id a, aiAttempts r !! id = Some a ->
    exists a', aiAttempts r' !! id = Some a' /\ AIAttempt.OperationID a' = AIAttempt.OperationID a;
  kept_holds : forall id h, billingHolds r !! id = Some h ->
    exists h', billingHolds r' !! id = Some h' /\ BillingHold.OperationID h' = BillingHold.OperationID h;
  kept_prices : forall id k, is_Some (billingHolds r !! id) ->
    (billingHoldPricingVersions r' !! k) ≫= price_fixed id = (billingHoldPricingVersions r !! k) ≫= price_fixed id;
  kept_ledger : billingLedgerEntries r ⊆ billingLedgerEntries r';
  kept_records : usageRecords r ⊆ usageRecords r';
}.

(** What must hold for that: records are stored under their keys. *)
Record billing_ok (r : MemoryRepository) : Prop := {
  basis_holds : holds_ok (billingHolds r);
  basis_trimmed : forall id, is_Some (billingHolds r !! id) -> TrimSpace id = id;
  basis_operations : keyed AIOperation.ID (aiOperations r);
  basis_attempts : keyed AIAttempt.ID (aiAttempts r);
  basis_prices : keyed version_key (billingHoldPricingVersions r);
}.

Lemma kept_refl r : kept r r.
Proof. split; eauto; intros *; intros; try eexists; split_and!; try done. Qed.

Lemma kept_trans r1 r2 r3 : kept r1 r2 -> kept r2 r3 -> kept r1 r3.
Proof.
  intros [A1 A2 A3 A4 A5 A6] [B1 B2 B3 B4 B5 B6]. split.
  - intros id o Hid Ho. destruct (A1 id o Hid Ho) as (o' & Ho' & S1 & S2 & S3 & S4).
    destruct (B1 id o' Hid Ho') as (o'' & Ho'' & T1 & T2 & T3 & T4). exists o''. unfold same_kind. split_and!; congruence.
  - intros id a Ha. destruct (A2 id a Ha) as (a' & Ha' & E). destruct (B2 id a' Ha') as (a'' & Ha'' & E'). exists a''. split; congruence.
  - intros id h Hh. destruct (A3 id h Hh) as (h' & Hh' & E). destruct (B3 id h' Hh') as (h'' & Hh'' & E'). exists h''. split; congruence.
  - intros id k [h Hh]. destruct (A3 id h Hh) as (h' & Hh' & _). rewrite B4, A4; [done|by exists h|by exists h'].
  - by transitivity (billingLedgerEntries r2).
  - by transitivity (usageRecords r2).
Qed.

(** An operation that keeps all that, from a state and from every state. *)
Definition sound_at (r r' : MemoryRepository) : Prop := billing_ok r' /\ kept r r'.
Definition sound {A} (m : M A) : Prop := forall r, billing_ok r -> sound_at r (m r).2.

Lemma sound_refl r : billing_ok r -> sound_at r r.
Proof. intros Hr. split; [done|apply kept_refl]. Qed.
Lemma sound_trans r1 r2 r3 : sound_at r1 r2 -> (billing_ok r2 -> sound_at r2 r3) -> sound_at r1 r3.
Proof. intros [O1 K1] H. destruct (H O1) as [O2 K2]. split; [done|by eapply kept_trans]. Qed.

(** The maps that matter. *)
Definition basis (r : MemoryRepository) :=
  (aiOperations r, aiAttempts r, billingHolds r, billingHoldPricingVersions r, billingLedgerEntries r, usageRecords r).

Lemma sound_basis r r1 r2 : basis r2 = basis r1 -> sound_at r r1 -> sound_at r r2.
Proof.
  intros [= E1 E2 E3 E4 E5 E6] [[O1 O0 O2 O3 O4] [K1 K2 K3 K4 K5 K6]].
  split; split; rewrite ?E1, ?E2, ?E3, ?E4, ?E5, ?E6; done.
Qed.

Lemma sound_same r r' : billing_ok r -> basis r' = basis r -> sound_at r r'.
Proof. intros Hr E. eapply sound_basis; [exact E|by apply sound_refl]. Qed.

Lemma sound_preserves {A} (m : M A) : preserves basis m -> sound m.
Proof. intros Hm r Hr. apply sound_same; [done|apply Hm]. Qed.

Lemma sound_bind {A B} (m : M A) (k : A -> M B) : sound m -> (forall a, sound (k a)) -> sound (m ≫= k).
Proof.
  intros Hm Hk r Hr. specialize (Hm r Hr). unfold mbind, M_bind. destruct (m r) as [[a|e] r1]; cbn in *; [|done].
  eapply sound_trans; [exact Hm|]. intros H1. by apply Hk.
Qed.

(** After a part that only looks, the answer is what it saw. *)
Lemma sound_look {A B} (m : M A) (k : A -> M B) r :
  readonly m -> billing_ok r -> (forall a, m r = (Ok a, r) -> sound_at r (k a r).2) -> sound_at r ((m ≫= k) r).2.
Proof.
  intros Hm Hr Hk. specialize (Hm r). unfold mbind, M_bind. destruct (m r) as [[a|e] r1]; cbn in *; subst r1.
  - by apply Hk.
  - by apply sound_refl.
Qed.

Lemma sound_for_each {A} (g : A -> M unit) l : (forall a, sound (g a)) -> sound (for_each g l).
Proof.
  intros Hg. induction l as [|x l IH]; [intros r Hr; by apply sound_refl|]. cbn. by apply sound_bind.
Qed.

(** *** One record *)

Lemma sound_operation r o :
  (AIOperation.ID o = ""%string \/ aiOperations r !! AIOperation.ID o = None \/
   exists o0, aiOperations r !! AIOperation.ID o = Some o0 /\ same_kind o0 o) ->
  billing_ok r -> sound_at r (r.[aiOperations]:[AIOperation.ID o] <- o).
Proof.
  intros Hcase [O1 O0 O2 O3 O4]. split; [by split; [| |apply keyed_insert|..]|].
  split; try done; cbn; [|by eauto|by eauto]; intros id x.
  intros Hid Hx. destruct (decide (id = AIOperation.ID o)) as [->|Hne].
  - rewrite lookup_insert_eq. destruct Hcase as [?|[?|(o0 & H0 & Hs)]]; [done|congruence|].
    exists o. split; [done|]. congruence.
  - exists x. by rewrite lookup_insert_ne.
Qed.

Lemma sound_attempt r a :
  (aiAttempts r !! AIAttempt.ID a = None \/
   exists a0, aiAttempts r !! AIAttempt.ID a = Some a0 /\ AIAttempt.OperationID a = AIAttempt.OperationID a0) ->
  billing_ok r -> sound_at r (r.[aiAttempts]:[AIAttempt.ID a] <- a).
Proof.
  intros Hcase [O1 O0 O2 O3 O4]. split; [by split; [| | |apply keyed_insert|]|].
  split; try done; cbn; [by eauto| |by eauto]; intros id x.
  intros Hx. destruct (decide (id = AIAttempt.ID a)) as [->|Hne].
  - rewrite lookup_insert_eq. destruct Hcase as [?|(a0 & H0 & Hs)]; [congruence|]. exists a. split; [done|congruence].
  - exists x. by rewrite lookup_insert_ne.
Qed.

Lemma sound_hold r h h' :
  billingHolds r !! BillingHold.ID h = Some h -> hold_ok h' -> BillingHold.ID h' = BillingHold.ID h ->
  BillingHold.OperationID h' = BillingHold.OperationID h ->
  billing_ok r -> sound_at r (r.[billingHolds]:[BillingHold.ID h] <- h').
Proof.
  intros Hh Hok Ei Eo [O1 O0 O2 O3 O4]. split.
  { split; [by apply holds_update| |done..].
    cbn. intros id [x [[<- _]|[_ Hx]]%lookup_insert_Some]; apply O0; by eexists. }
 
  split; try done; cbn; [by eauto|by eauto|]; intros id x.
  intros Hx. destruct (decide (id = BillingHold.ID h)) as [->|Hne].
  - exists h'. rewrite lookup_insert_eq. split; [done|congruence].
  - exists x. by rewrite lookup_insert_ne.
Qed.

(** *** Operations of the repository *)

Section Steps.
Context `{range : MapRange} `{unicode : UnicodeCase} `{json : JSONText}.
Context (MarshalDimensions : gmap string UsageDimension -> result go_error string).


Lemma check_admission_versions admission operationID r r' :
  check_admission admission operationID r = (Ok tt, r') ->
  Forall (fun v => BillingHoldPricingVersion.HoldID v = BillingHold.ID (BillingHoldAdmission.Hold admission) /\
    billingHoldPricingVersions r !! version_key v = None) (BillingHoldAdmission.PricingVersions admission).
Proof.
  unfold check_admission. intros H.
  apply readonly_bind_inv in H as [(e & [=] & _)|(? & [= <-] & H)]; [|apply readonly_read].
  apply readonly_bind_inv in H as [(e & _ & [=] & _)|([] & _ & H)]; [|apply readonly_check].
  apply readonly_bind_inv in H as [(e & _ & [=] & _)|([] & _ & H)]; [|apply readonly_check].
  apply readonly_bind_inv in H as [(e & _ & [=] & _)|([] & _ & H)]; [|solve [readonly_tac]]. unfold id in H.
  revert H. generalize (BillingHoldAdmission.PricingVersions admission) as l. induction l as [|v l IH]; [constructor|].
  cbn [for_each]. intros H. apply readonly_bind_inv in H as [(e & _ & [=] & _)|([] & Hv & H)]; [|solve [readonly_tac]].
  constructor; [|by apply IH]. apply readonly_bind_inv in Hv as [(e & _ & [=] & _)|([] & H1 & H2)]; [|apply readonly_check].
  apply check_inv in H1 as [_ [[_ [=]]|[H1 _]]]. apply check_inv in H2 as [_ [[_ [=]]|[H2%has_None _]]]. boolify. done.
Qed.

(** The insertion of a fresh admission, beside other maps. *)
Lemma sound_admission admission operationID r r1 :
  check_admission admission operationID r = (Ok tt, r) -> fresh_hold admission ->
  BillingHold.OperationID (BillingHoldAdmission.Hold admission) = operationID ->
  hold_ok (BillingHoldAdmission.Hold admission) ->
  billingHolds r1 = billingHolds r -> billingHoldPricingVersions r1 = billingHoldPricingVersions r ->
  billing_ok r1 -> sound_at r1 (insert_admission admission r1).
Proof.
  intros Hc (_ & _ & Ht) <- Hok E1 E2 [O1 O0 O2 O3 O4]. pose proof (check_admission_versions _ _ _ _ Hc) as Hv.
  apply check_admission_inv in Hc as [H1 H2]. set (hold := BillingHoldAdmission.Hold admission) in *.
  rewrite <- E1 in H1, H2.
  assert (Ev : billingHoldPricingVersions (insert_admission admission r1) =
    foldl (fun m v => <[version_key v := v]> m) (billingHoldPricingVersions r1) (BillingHoldAdmission.PricingVersions admission)).
  { assert (E3 : forall l rr, billingHoldPricingVersions (foldl (fun r evaluation =>
        r.[pricingEvaluations]:[PricingEvaluation.ID evaluation] <- evaluation) rr l) = billingHoldPricingVersions rr)
      by (induction l as [|x l IH]; intros rr; [done|]; cbn; by rewrite IH).
    assert (E4 : forall l rr, billingHoldPricingVersions (foldl (fun r version =>
        r.[billingHoldPricingVersions]:[version_key version] <- version) rr l) =
      foldl (fun m v => <[version_key v := v]> m) (billingHoldPricingVersions rr) l)
      by (induction l as [|x l IH]; intros rr; [done|]; cbn; by rewrite IH).
    unfold insert_admission. unfold version_key in E4 |- *. by rewrite E4, E3. }
  pose proof (insert_admission_frame admission r1) as Ef. cbv zeta in Ef. fold hold in Ef.
  assert (Eh : billingHolds (insert_admission admission r1) = <[BillingHold.ID hold := hold]> (billingHolds r1))
    by by rewrite Ef.
  assert (Eo : aiOperations (insert_admission admission r1) = aiOperations r1 /\
    aiAttempts (insert_admission admission r1) = aiAttempts r1 /\
    billingLedgerEntries (insert_admission admission r1) = billingLedgerEntries r1 /\
    usageRecords (insert_admission admission r1) = usageRecords r1) by (rewrite Ef; by destruct r1).
  clear Ef. set (r' := insert_admission admission r1) in *. destruct Eo as (F1 & F2 & F3 & F4).
  split; split; rewrite ?F1, ?F2, ?F3, ?F4, ?Eh, ?Ev; try done; try by eauto.
  - by apply holds_insert.
  - intros id [h [[<- _]|[_ Hh]]%lookup_insert_Some]; [done|by apply O0].
  - by apply keyed_store.
  - intros id h Hh. exists h. rewrite lookup_insert_ne; [done|]. intros <-. congruence.
  - intros id k [h Hh]. destruct (decide (k ∈ version_key <$> BillingHoldAdmission.PricingVersions admission)) as [Hin|Hout].
    2: by rewrite foldl_store_other.
    apply list_elem_of_fmap in Hin as (v & -> & Hin). rewrite Forall_forall in Hv.
    assert (Hnew : forall l (m : gmap string BillingHoldPricingVersion.t) k,
      (forall x, x ∈ l -> x ∈ BillingHoldAdmission.PricingVersions admission) -> m !! k ≫= price_fixed id = None ->
      foldl (fun m v => <[version_key v := v]> m) m l !! k ≫= price_fixed id = None).
    { clear -Hv Hh H1. induction l as [|x l IH]; intros m k Hl Hm; [done|]. cbn. apply IH; [intros y Hy; apply Hl; by right|].
      destruct (decide (k = version_key x)) as [->|Hne]; [|by rewrite lookup_insert_ne].
      rewrite lookup_insert_eq. cbn. unfold price_fixed. destruct (String.eqb_spec (BillingHoldPricingVersion.HoldID x) id) as [<-|]; [|done].
      destruct (Hv x) as [E _]; [apply Hl; by left|]. congruence. }
    destruct (Hv v Hin) as [_ Hnone]. rewrite <- E2 in Hnone. rewrite Hnone. by apply Hnew; [|rewrite Hnone].
Qed.

(** *** Each operation *)

#[local] Ltac look := apply sound_look; [solve [readonly_tac]|done|intros ? [= <-]].
#[local] Ltac branch := lazymatch goal with |- sound_at _ ((match ?x with _ => _ end) _).2 => destruct x eqn:? end.

Lemma sound_CreateAIOperation operation : sound (CreateAIOperation operation).
Proof.
  intros r Hr. unfold CreateAIOperation. look. branch; [by apply sound_refl|].
  look. unfold id. apply sound_look; [apply readonly_check|done|]. intros [] Hc.
  apply check_inv in Hc as [_ [[_ [=]]|[Hc%has_None _]]]. apply sound_operation; [by right; left|done].
Qed.

Lemma sound_found_operation r id o o' :
  billing_ok r -> aiOperations r !! id = Some o -> AIOperation.ID o' = AIOperation.ID o -> same_kind o o' ->
  sound_at r (r.[aiOperations]:[id] <- o').
Proof.
  intros Hr Ho Ei Hs. pose proof (basis_operations _ Hr _ _ Ho) as E. cbn in E. rewrite <- E, <- Ei in *.
  apply sound_operation; [|done]. right. right. eauto.
Qed.

Lemma sound_MarkAIOperationRunning id at_ : sound (MarkAIOperationRunning id at_).
Proof.
  intros r Hr. unfold MarkAIOperationRunning. look. unfold FindAIOperation.
  destruct (aiOperations r !! id) as [o|] eqn:Eo; [|by apply sound_refl]. destruct (_ && _); [by apply sound_refl|].
  by eapply sound_found_operation.
Qed.

Lemma sound_CompleteAIOperation id status e at_ : sound (CompleteAIOperation id status e at_).
Proof.
  intros r Hr. unfold CompleteAIOperation. look. unfold FindAIOperation.
  destruct (aiOperations r !! id) as [o|] eqn:Eo; [|by apply sound_refl]. destruct (_ && _); [by apply sound_refl|].
  by eapply sound_found_operation.
Qed.

Lemma sound_CreateOrGetAIAttempt attempt : sound (CreateOrGetAIAttempt attempt).
Proof.
  intros r Hr. unfold CreateOrGetAIAttempt. look. unfold id.
  apply sound_look; [apply readonly_check|done|]. intros [] _.
  destruct (find_value _ _); [by apply sound_refl|].
  apply sound_look; [apply readonly_check|done|]. intros [] Hc.
  apply check_inv in Hc as [_ [[_ [=]]|[Hc%has_None _]]]. apply sound_attempt; [by left|done].
Qed.

Lemma sound_CreateAIAttempt attempt : sound (CreateAIAttempt attempt).
Proof.
  unfold CreateAIAttempt. apply sound_bind; [apply sound_CreateOrGetAIAttempt|]. intros [a c].
  apply sound_preserves. preserves_tac.
Qed.

Lemma sound_found_attempt r id a a' :
  billing_ok r -> aiAttempts r !! id = Some a -> AIAttempt.ID a' = AIAttempt.ID a ->
  AIAttempt.OperationID a' = AIAttempt.OperationID a -> sound_at r (r.[aiAttempts]:[AIAttempt.ID a] <- a').
Proof.
  intros Hr Ha Ei Eo. pose proof (basis_attempts _ Hr _ _ Ha) as E. cbn in E. rewrite <- E in Ha. rewrite <- Ei in *.
  apply sound_attempt; [|done]. right. eauto.
Qed.

Lemma sound_UpdateAIAttemptDispatch requested v : sound (UpdateAIAttemptDispatch requested v).
Proof.
  intros r Hr. unfold UpdateAIAttemptDispatch. look. unfold id.
  destruct (aiAttempts r !! _) as [a|] eqn:Ea; [|by apply sound_refl]. destruct (_ || _); [by apply sound_refl|].
  apply sound_look; [apply readonly_check|done|]. intros [] _. by apply (sound_found_attempt _ _ _ _ Hr Ea).
Qed.

Lemma sound_audited r r1 id audit : billing_ok r -> sound_at r r1 -> sound_at r (r1.[auditLogs]:[id] <- audit).
Proof. intros _. by apply sound_basis. Qed.

Lemma sound_ScheduleAIAttemptReconciliation id_ v at_ audit : sound (ScheduleAIAttemptReconciliation id_ v at_ audit).
Proof.
  intros r Hr. unfold ScheduleAIAttemptReconciliation. look. unfold id, FindAIAttempt.
  destruct (aiAttempts r !! _) as [a|] eqn:Ea; [|by apply sound_refl]. destruct (_ || _); [by apply sound_refl|].
  apply sound_look; [apply readonly_check|done|]. intros [] _. apply sound_audited; [done|]. by apply (sound_found_attempt _ _ _ _ Hr Ea).
Qed.

Lemma sound_ScheduleArtifactDeliveryRetry id_ requested v audit : sound (ScheduleArtifactDeliveryRetry id_ requested v audit).
Proof.
  intros r Hr. unfold ScheduleArtifactDeliveryRetry. look. unfold id.
  destruct (aiAttempts r !! _) as [a|] eqn:Ea; [|by apply sound_refl]. destruct (_ || _); [by apply sound_refl|].
  apply sound_look; [apply readonly_check|done|]. intros [] _. apply sound_audited; [done|]. by apply (sound_found_attempt _ _ _ _ Hr Ea).
Qed.

Lemma sound_CompleteAIAttempt id_ status e at_ : sound (CompleteAIAttempt id_ status e at_).
Proof.
  intros r Hr. unfold CompleteAIAttempt. look.
  destruct (aiAttempts r !! id_) as [a|] eqn:Ea; [|by apply sound_refl]. destruct (_ <>s _); [by apply sound_refl|].
  pose proof (basis_attempts _ Hr _ _ Ea) as E. cbn in E. rewrite <- E in Ea |- *. by apply (sound_found_attempt _ _ _ _ Hr Ea).
Qed.

Lemma sound_CreateAIOperationWithBillingHold operation admission :
  fresh_hold admission -> sound (CreateAIOperationWithBillingHold operation admission).
Proof.
  intros (F1 & F2 & F3) r Hr. unfold CreateAIOperationWithBillingHold. cbv zeta.
  apply sound_look; [apply readonly_lift|done|]. intros [] [= Hv]. apply admitted_hold in Hv as (Eop & _ & Hok).
  look. branch; [by apply sound_refl|]. look. unfold id.
  apply sound_look; [apply readonly_check|done|]. intros [] Hc. apply check_inv in Hc as [_ [[_ [=]]|[Hc%has_None _]]].
  apply sound_look; [apply readonly_check_admission|done|]. intros [] Ha.
  apply sound_look; [apply readonly_lift|done|]. intros [] _. cbn [write mbind M_bind snd mret M_ret].
  eapply sound_trans; [apply sound_operation; [right; left; exact Hc|exact Hr]|]. intros H1.
  eapply sound_admission; [exact Ha|done|exact Eop|by apply Hok|done..].
Qed.

Lemma sound_prepared r h toStatus amount reason at_ h' :
  billing_ok r -> billingHolds r !! BillingHold.ID h = Some h ->
  prepareBillingHoldTransition h toStatus amount reason at_ = Ok h' ->
  sound_at r (r.[billingHolds]:[BillingHold.ID h] <- h').
Proof.
  intros Hr Hh Hp. destruct (holds_keys _ (basis_holds _ Hr) _ _ Hh) as [_ Hok].
  pose proof (prepareHold_ok _ _ _ _ _ _ Hok Hp) as Hok'.
  apply prepareHold_inv in Hp as [[-> _]|(_ & _ & _ & E1 & E2 & _)]; by apply sound_hold.
Qed.

Lemma found_hold r operationID h : billing_ok r ->
  memoryBillingHoldForOperation (billingHolds r) operationID = Some h -> billingHolds r !! BillingHold.ID h = Some h.
Proof. intros Hr Hf. by apply memoryHold_spec in Hf as [Hf _]; [|apply Hr]. Qed.

Lemma sound_TransitionBillingHold id_ v toStatus amount reason at_ :
  sound (TransitionBillingHold id_ v toStatus amount reason at_).
Proof.
  intros r Hr. unfold TransitionBillingHold. look. unfold FindBillingHoldByOperationID.
  destruct (memoryBillingHoldForOperation _ _) as [h|] eqn:Ef; [|by apply sound_refl].
  destruct (negb _); [by apply sound_refl|]. apply sound_look; [apply readonly_lift|done|]. intros h' [= Hp].
  destruct (_ =? _); [by apply sound_refl|]. eapply sound_prepared; [done|by eapply found_hold|exact Hp].
Qed.

Lemma sound_release operationID reason at_ : sound (releaseMemoryBillingHoldForOperation operationID reason at_).
Proof.
  intros r Hr. unfold releaseMemoryBillingHoldForOperation. look.
  destruct (memoryBillingHoldForOperation _ _) as [h|] eqn:Ef; [|by apply sound_refl].
  destruct (oneOf _ _); [by apply sound_refl|]. apply sound_look; [apply readonly_lift|done|]. intros h' [= Hp].
  eapply sound_prepared; [done|by eapply found_hold|exact Hp].
Qed.

(** *** Jobs *)

Lemma sound_commit r o key job event outbox :
  (AIOperation.ID o = ""%string \/ aiOperations r !! AIOperation.ID o = None \/
   exists o0, aiOperations r !! AIOperation.ID o = Some o0 /\ same_kind o0 o) ->
  billing_ok r -> sound_at r (commit_change o key job event outbox r).
Proof. intros Hc Hr. by apply (sound_basis _ (r.[aiOperations]:[AIOperation.ID o] <- o)), sound_operation. Qed.

Lemma job_status_operation o status e at_ : let o' := applyMemoryOperationJobStatus o status e at_ in
  AIOperation.ID o' = AIOperation.ID o /\ same_kind o o'.
Proof. cbv zeta. unfold applyMemoryOperationJobStatus. repeat case_match; by split_and!. Qed.

Lemma sound_commit_job r id o status e at_ key job event outbox :
  aiOperations r !! id = Some o -> billing_ok r ->
  sound_at r (commit_change (applyMemoryOperationJobStatus o status e at_) key job event outbox r).
Proof.
  intros Ho Hr. destruct (job_status_operation o status e at_) as [Ei Hs].
  pose proof (basis_operations _ Hr _ _ Ho) as E. cbn in E. rewrite <- E, <- Ei in Ho.
  apply sound_commit; [|done]. right. right. eauto.
Qed.

Lemma sound_CreateDurableAIJob operation job event outbox limits billing :
  fresh_hold billing -> sound (CreateDurableAIJob operation job event outbox limits billing).
Proof.
  intros (F1 & F2 & F3) r Hr. unfold CreateDurableAIJob. cbv zeta.
  apply sound_look; [apply readonly_lift|done|]. intros [] _.
  apply sound_look; [apply readonly_lift|done|]. intros [] [= Hv]. apply admitted_hold in Hv as (Eop & _ & Hok).
  apply sound_look; [apply readonly_lift|done|]. intros [] _. look. unfold id. branch; [by apply sound_refl|].
  apply sound_look; [apply readonly_lift|done|]. intros [] _.
  apply sound_look; [apply readonly_check|done|]. intros [] Hc. apply check_inv in Hc as [_ [[_ [=]]|[Hc%has_None _]]].
  apply sound_look; [apply readonly_check|done|]. intros [] _.
  apply sound_look; [apply readonly_check_records|done|]. intros [] _.
  apply sound_look; [apply readonly_check_admission|done|]. intros [] Ha.
  apply sound_look; [apply readonly_lift|done|]. intros [] _. cbn [write mbind M_bind snd mret M_ret].
  eapply sound_trans; [apply sound_commit; [right; left; exact Hc|exact Hr]|]. intros H1.
  eapply sound_admission; [exact Ha|done|exact Eop|by apply Hok|done..].
Qed.

Lemma sound_operation_of {A} job (k : AIOperation.t -> M A) r :
  billing_ok r -> (forall o, aiOperations r !! AIJob.OperationID job = Some o -> sound_at r (k o r).2) ->
  sound_at r ((operation_of job ≫= k) r).2.
Proof.
  intros Hr Hk. apply sound_look; [apply readonly_operation_of|done|]. intros o Ho. apply Hk.
  by apply operation_of_inv in Ho as [_ Ho].
Qed.

Lemma sound_transition id_ v fence toStatus reason adjust at_ :
  sound (transition_job id_ v fence toStatus reason adjust at_).
Proof.
  intros r Hr. unfold transition_job. look. unfold FindAIJob. branch; [|by apply sound_refl].
  branch; [by apply sound_refl|]. apply sound_look; [apply readonly_lift|done|]. intros [[u event] outbox] _.
  apply sound_look; [apply readonly_check_records|done|]. intros [] _.
  apply sound_operation_of; [done|]. intros o Ho. by eapply sound_commit_job.
Qed.

Lemma sound_cancel key job reason at_ audit : sound (cancel_found key job reason at_ audit).
Proof.
  intros r Hr. unfold cancel_found. destruct (oneOf _ _); [by apply sound_refl|]. destruct (oneOf _ _); [by apply sound_refl|].
  apply sound_look; [apply readonly_lift|done|]. intros [[u event] outbox] _.
  apply sound_look; [apply readonly_check_records|done|]. intros [] _.
  look. apply sound_look; [destruct audit; solve [readonly_tac]|done|]. intros [] _.
  apply sound_operation_of; [done|]. intros o Ho.
  unfold mbind at 1, M_bind at 1. set (m := if _ =s _ then _ else _).
  assert (Hm : sound m) by (subst m; destruct (_ =s _); [apply sound_release|intros r0 H0; by apply sound_refl]).
  specialize (Hm r Hr). destruct (m r) as [[[]|e] r1]; cbn in Hm; [|done].
  eapply sound_trans; [exact Hm|]. intros H1. destruct Hm as [_ K1].
  match goal with |- context [commit_change (applyMemoryOperationJobStatus o ?st ?er ?t)] =>
    destruct (job_status_operation o st er t) as [Ei Hs]; set (o1 := applyMemoryOperationJobStatus o st er t) in * end.
  match goal with |- context [commit_change o1 key ?u ?ev ?ob] =>
    assert (Hc : sound_at r1 (commit_change o1 key u ev ob r1)) end.
  { pose proof (basis_operations _ Hr _ _ Ho) as E. cbn in E. apply sound_commit; [|done].
    destruct (decide (AIOperation.ID o1 = ""%string)) as [?|Hne]; [by left|]. right. right. rewrite Ei in *.
    rewrite <- E in Ho. destruct (kept_operations _ _ K1 _ _ Hne Ho) as (o' & Ho' & Hs'). exists o'. split; [done|].
    unfold same_kind in *. naive_solver congruence. }
  destruct audit; [by apply sound_audited|exact Hc].
Qed.

Lemma sound_claims candidates now leaseUntil workerID leaseToken limit claimed :
  sound (claimAIJobCandidatesLocked candidates now leaseUntil workerID leaseToken limit claimed).
Proof.
  revert claimed. induction candidates as [|c l IH]; intros claimed; cbn; [intros r Hr; by apply sound_refl|].
  destruct (_ >=? _); [intros r Hr; by apply sound_refl|]. apply sound_bind; [|done].
  intros r Hr. unfold claim_candidate. apply sound_look; [apply readonly_lift|done|]. intros [[u event] outbox] _.
  apply sound_look; [apply readonly_check_records|done|]. intros [] _. look.
  destruct (aiOperations r !! AIJob.OperationID c) as [o|] eqn:Eo; cbn [default from_option id].
  - by eapply sound_commit_job.
  - apply sound_commit; [by left|done].
Qed.

(** *** Settlements *)

Lemma sound_move_hold record kept_ toStatus reason : sound (move_hold record kept_ toStatus reason).
Proof.
  intros r Hr. unfold move_hold. look. destruct (memoryBillingHoldForOperation _ _) as [h|] eqn:Ef; [|by apply sound_refl].
  destruct (oneOf _ _); [by apply sound_refl|]. apply sound_look; [apply readonly_lift|done|]. intros h' [= Hp].
  eapply sound_prepared; [done|by eapply found_hold|exact Hp].
Qed.

Lemma sound_settle_ledger record billing : sound (settle_ledger record billing).
Proof.
  intros r Hr. unfold settle_ledger, settleMemoryBillingHoldForUsage. destruct (_ =s _); [|by apply sound_refl].
  destruct (negb _); [by apply sound_refl|]. look. unfold id.
  destruct (memoryBillingHoldForOperation _ _) as [h|] eqn:Ef; [|by apply sound_refl].
  destruct (oneOf _ _); [by apply sound_refl|]. apply sound_look; [apply readonly_lift|done|]. intros amount _.
  apply sound_look; [apply readonly_lift|done|]. intros h' [= Hp].
  eapply sound_prepared; [done|by eapply found_hold|exact Hp].
Qed.

Lemma sound_settle_evaluation record evaluation : sound (settle_evaluation record evaluation).
Proof.
  intros r Hr. unfold settle_evaluation. look. unfold id. unfold mbind at 1, M_bind at 1.
  set (key := memoryBillingHoldPricingVersionKeyForEvaluation _ _ _ _).
  match goal with |- context [match ?m r with _ => _ end] => assert (Hm : sound_at r (m r).2) end.
  { destruct (key <>s "") eqn:Ek; [|by apply sound_refl]. cbn [write snd].
    assert (Hv : exists v, billingHoldPricingVersions r !! key = Some v).
    { revert Ek. subst key. unfold memoryBillingHoldPricingVersionKeyForEvaluation.
      destruct (memoryBillingHoldForOperation _ _); [|done].
      destruct (billingHoldPricingVersions r !! _) as [v|] eqn:Ev; [|done].
      destruct (BillingHoldPricingVersion.PricingRuleVersionID v <>s _); [done|]. intros _. eauto. }
    destruct Hv as [v Hv]. rewrite Hv. cbn [default from_option id]. pose proof (basis_prices _ Hr _ _ Hv) as Hk. cbn in Hk.
    destruct Hr as [O1 O0 O2 O3 O4]. split; [split; try done; by apply keyed_insert|].
    split; cbn; try done; try by eauto. intros id_ k _. destruct (decide (k = key)) as [->|Hne].
    - by rewrite lookup_insert_eq, Hv.
    - by rewrite lookup_insert_ne. }
  match goal with |- context [match ?m r with _ => _ end] => destruct (m r) as [[[]|e] r1] end; cbn in Hm; [|done].
  eapply sound_trans; [exact Hm|]. intros H1. destruct (_ && _); [by apply sound_move_hold|by apply sound_refl].
Qed.

Lemma sound_settle_hold settlement : sound (settle_hold settlement).
Proof.
  unfold settle_hold. apply sound_bind; [apply sound_for_each, sound_settle_ledger|]. intros _.
  apply sound_bind; [apply sound_for_each, sound_settle_evaluation|]. intros _.
  destruct (_ && _); [apply sound_move_hold|intros r Hr; by apply sound_refl].
Qed.

Lemma absent_billing settlement r : check_absent settlement r = (Ok tt, r) ->
  usageRecords r !! UsageRecord.ID (UsageSettlement.Record settlement) = None /\
  Forall (fun b => billingLedgerEntries r !! BillingLedgerEntry.ID b = None) (UsageSettlement.Ledgers settlement).
Proof.
  unfold check_absent. intros H.
  apply readonly_bind_inv in H as [(e & [=] & _)|(? & [= <-] & H)]; [|apply readonly_read].
  apply readonly_bind_inv in H as [(e & _ & [=] & _)|([] & H1 & H)]; [|apply readonly_check].
  apply readonly_bind_inv in H as [(e & _ & [=] & _)|([] & _ & H)]; [|solve [readonly_tac]].
  apply readonly_bind_inv in H as [(e & _ & [=] & _)|([] & H2 & _)]; [|solve [readonly_tac]]. unfold id in *.
  apply check_inv in H1 as [_ [[_ [=]]|[H1%has_None _]]]. split; [done|].
  revert H2. induction (UsageSettlement.Ledgers settlement) as [|b l IH]; [constructor|]. cbn [for_each]. intros H2.
  apply readonly_bind_inv in H2 as [(e & _ & [=] & _)|([] & H3 & H2)]; [|apply readonly_check].
  apply check_inv in H3 as [_ [[_ [=]]|[H3%has_None _]]]. constructor; [done|by apply IH].
Qed.

Lemma foldl_store_subset {V} (key : V -> string) l (m : gmap string V) :
  Forall (fun x => m !! key x = None) l -> m ⊆ foldl (fun m x => <[key x := x]> m) m l.
Proof.
  intros Hl. apply map_subseteq_spec. intros k v Hk. rewrite foldl_store_other; [done|].
  intros Hin. apply list_elem_of_fmap in Hin as (x & -> & Hx). rewrite Forall_forall in Hl. by rewrite (Hl x Hx) in Hk.
Qed.

Lemma sound_ApplyUsageSettlement settlement : sound (ApplyUsageSettlement MarshalDimensions settlement).
Proof.
  intros r Hr. unfold ApplyUsageSettlement. apply sound_look; [apply readonly_lift|done|]. intros normal [= Hn].
  apply sound_look; [apply readonly_check_references|done|]. intros [] _. look. unfold id.
  apply sound_look; [apply readonly_lift|done|]. intros [answer|] _; [by apply sound_refl|].
  apply sound_look; [apply readonly_check_absent|done|]. intros [] Habs.
  unfold mbind at 1, M_bind at 1. pose proof (sound_settle_hold normal r Hr) as Hs.
  destruct (settle_hold normal r) as [[[]|e] r1] eqn:Eh; cbn in Hs |- *; [|done].
  pose proof (normalizeSettlement_inv _ _ Hn) as (_ & _ & _ & Hnd).
  pose proof (basis_holds _ Hr) as Hh. apply settle_hold_ok in Eh as (_ & Ho & _); [|done|done].
  apply absent_billing in Habs as [Hu Hl]. eapply sound_trans; [exact Hs|]. intros [O1 O0 O2 O3 O4].
  assert (E : usageRecords r1 = usageRecords r /\ billingLedgerEntries r1 = billingLedgerEntries r)
    by (rewrite Ho; by destruct r). destruct E as [E1 E2]. rewrite <- E1 in Hu. rewrite <- E2 in Hl.
  split; [by split|]. split; try done; try (cbn; by eauto).
  - by apply foldl_store_subset.
  - by apply insert_subseteq.
Qed.

Lemma repository_step_sound r r' : repository_step MarshalDimensions r r' -> billing_ok r -> sound_at r r'.
Proof.
  destruct 1 as
    [? ? ? ? H|? ? ? ? ? H|? ? ? ? ? ? ? H|? ? ? ? H|? ? ? ? H|? ? ? ? ? H|? ? ? ? ? ? ? H|? ? ? ? ? ? ? H
    |? ? ? ? ? ? ? H|? ? ? ? ? Hf H|? ? ? ? ? ? ? ? ? H|? ? ? ? ? ? ? ? ? Hj Hf H|? ? ? ? ? ? H|? ? ? ? ? ? H
    |? ? ? ? ? ? ? ? H|? ? ? ? ? ? ? ? ? H|? ? ? ? ? ? ? ? ? H|? ? ? ? ? ? ? ? ? H|? ? ? ? ? ? ? ? ? H
    |? ? ? ? Hids H|? ? ? ? ? ? ? H|? ? ? ? ? ? H|? ? ? ? ? ? ? ? ? H|? ? ? ? ? H|? ? ? ? H]; intros Hr.
  all: lazymatch type of H with ?m ?r0 = (_, ?r1) =>
    cut (sound m); [intros Hm; specialize (Hm r0 Hr); by rewrite H in Hm|clear H Hr] end.
  - apply sound_CreateAIOperation.
  - apply sound_MarkAIOperationRunning.
  - apply sound_CompleteAIOperation.
  - apply sound_CreateAIAttempt.
  - apply sound_CreateOrGetAIAttempt.
  - apply sound_UpdateAIAttemptDispatch.
  - apply sound_ScheduleAIAttemptReconciliation.
  - apply sound_ScheduleArtifactDeliveryRetry.
  - apply sound_CompleteAIAttempt.
  - by apply sound_CreateAIOperationWithBillingHold.
  - apply sound_TransitionBillingHold.
  - by apply sound_CreateDurableAIJob.
  - intros r0 H0. unfold RequestAIJobCancellation. look. branch; [by apply sound_cancel|by apply sound_refl].
  - intros r0 H0. unfold RequestAIJobAdminCancellation. look. branch; [by apply sound_cancel|by apply sound_refl].
  - intros r0 H0. unfold ClaimQueuedAIJobs. branch; [by apply sound_refl|]. look. by apply sound_claims.
  - intros r0 H0. unfold ClaimAIJobsByReadyReferences. branch; [by apply sound_refl|]. look. by apply sound_claims.
  - apply sound_preserves. unfold ExtendAIJobQueueLease. preserves_tac.
  - apply sound_transition.
  - apply sound_transition.
  - apply sound_ApplyUsageSettlement.
  - apply sound_preserves. unfold ClaimDueTransactionalOutboxEvents. preserves_tac.
  - apply sound_preserves. unfold CompleteTransactionalOutboxEvent. preserves_tac.
  - apply sound_preserves. unfold RescheduleTransactionalOutboxEvent. preserves_tac.
  - apply sound_preserves. unfold RequeueTransactionalOutboxEvent. preserves_tac.
  - apply sound_preserves. unfold AppendAIJobProgressEvent. preserves_tac.
Qed.
End Steps.

(** ** Runs among other calls *)

Section Runs.
Context `{range : MapRange} `{unicode : UnicodeCase} `{json : JSONText}.
Context {VMProgram : Type}.
Context (Parse : string -> result string Node) (CompileExpr : string -> result string VMProgram).
Context (Run : VMProgram -> gmap string value -> script) (wrapCallError : Error -> run_error).
Context (render : message -> string) (Marshal : Facts -> result string string).
Context (MarshalDimensions : gmap string UsageDimension -> result go_error string).

Notation ok := (catalogue_ok (validated Parse CompileExpr Run wrapCallError render Marshal)).
Notation world := (Z * MemoryRepository)%type.
Notation build := (buildUsageSettlement Parse CompileExpr Run wrapCallError render Marshal MarshalDimensions).
Notation Apply := (ApplyUsageSettlement MarshalDimensions).

(** What the other calls do between two critical sections: an operation of the
    repository, or something in the catalogue, of which [PricingService] shows
    that it keeps the invariant and undoes nothing. *)
Inductive evolves : world -> world -> Prop :=
| Evolve_repository n n' r r' : n <= n' -> repository_step MarshalDimensions r r' -> evolves (n, r) (n', r')
| Evolve_catalogue w w' : ok w' -> later w w' -> core w'.2 = core w.2 -> basis w'.2 = basis w.2 -> evolves w w'.
Notation evolve := (rtc evolves).

(** A run of a program from one world to another: before each of its critical
    sections, and after the last, the others do what they do. *)
Fixpoint runs {A} (p : prog MemoryRepository A) (w : world) (a : A) (w' : world) : Prop :=
  match p with
  | Ret b => b = a /\ evolve w w'
  | Atomic act k => exists w1, evolve w w1 /\ w1.1 < max_int64 /\ runs (k (after act w1).1) (after act w1).2 a w'
  end.

Record world_ok (w : world) : Prop := {
  world_catalogue : ok w;
  world_repository : repository_ok w.2;
  world_billing : billing_ok w.2;
}.

(** ** Lemmas: runs *)

Lemma evolves_ok w w' : evolves w w' -> world_ok w -> world_ok w' /\ later w w' /\ kept w.2 w'.2.
Proof.
  intros He [O1 O2 O3]. destruct He as [n n' r r' Hn Hs|w w' Hok Hl Ec Eb].
  - destruct (step_catalogue MarshalDimensions _ _ Hs) as [E1 E2].
    destruct (quiet_ok (validated Parse CompileExpr Run wrapCallError render Marshal) (n, r) n' r' O1 Hn E1 E2) as (Q1 & Q2 & _).
    destruct (repository_step_sound MarshalDimensions _ _ Hs O3) as [H1 H2]. cbn in *.
    split_and!; [|done|done]. split; [done| |done]. by eapply (repository_step_ok MarshalDimensions).
  - destruct (sound_same _ _ O3 Eb) as [H1 H2]. split_and!; [|done|done]. split; [done|by eapply ok_core|done].
Qed.

Lemma evolve_ok w w' : evolve w w' -> world_ok w -> world_ok w' /\ later w w' /\ kept w.2 w'.2.
Proof.
  induction 1 as [w|w1 w2 w3 H1 _ IH]; intros Hw; [split_and!; [done|apply later_refl|apply kept_refl]|].
  destruct (evolves_ok _ _ H1 Hw) as (Hw2 & L12 & K12). destruct (IH Hw2) as (Hw3 & L23 & K23).
  split_and!; [done|by eapply later_trans|by eapply kept_trans].
Qed.

Lemma evolve_tick w : world_ok w -> evolves w (w.1 + 1, w.2).
Proof.
  intros [O1 O2 O3]. destruct (relies_tick Parse CompileExpr Run wrapCallError render Marshal ∅ w O1) as (T1 & T2 & _).
  by apply Evolve_catalogue.
Qed.

Lemma runs_query {A B} (f : MemoryRepository -> A) (k : A -> srv B) w x w' : world_ok w ->
  runs (query f ≫= k) w x w' ->
  exists w1, evolve w w1 /\ world_ok w1 /\ evolves w1 (w1.1 + 1, w1.2) /\ runs (k (f w1.2)) (w1.1 + 1, w1.2) x w'.
Proof.
  intros Hw (w1 & H1 & _ & H2). destruct (evolve_ok _ _ H1 Hw) as (O1 & _). exists w1.
  split_and!; [done|done|by apply evolve_tick|exact H2].
Qed.

Lemma runs_bind {A B} (p : srv A) (f : A -> srv B) w x w' : runs (p ≫= f) w x w' ->
  exists y w1, runs p w y w1 /\
    match y with Ok a => runs (f a) w1 x w' | Err e => x = Err e /\ evolve w1 w' end.
Proof.
  unfold mbind, srv_mbind, srv_bind. revert w. induction p as [y|X act k IH]; intros w; cbn.
  - intros H. exists y, w. split; [done|]. destruct y; [done|]. destruct H as [-> H]. done.
  - intros (w1 & H1 & Hb & H2). apply IH in H2 as (y & w2 & H2 & H3). exists y, w2. split; [|done]. eauto.
Qed.

(** A program that only looks. *)
Fixpoint looks {A} (p : prog MemoryRepository A) : Prop :=
  match p with
  | Ret _ => True
  | Atomic act k => (forall r, (act r).2 = r) /\ forall x, looks (k x)
  end.

Lemma looks_bind {A B} (p : prog MemoryRepository A) (f : A -> prog MemoryRepository B) :
  looks p -> (forall a, looks (f a)) -> looks (prog_bind p f).
Proof. induction p as [a|X act k IH]; cbn; [by auto|]. intros [Ha Hk] Hf. split; [done|]. intros x. by apply IH. Qed.

Lemma looks_srv {A B} (p : srv A) (f : A -> srv B) : looks p -> (forall a, looks (f a)) -> looks (p ≫= f).
Proof. intros Hp Hf. apply looks_bind; [done|]. by intros []. Qed.

Lemma looks_loop record facts versions settlement :
  looks (settle_snapshots Parse CompileExpr Run wrapCallError render Marshal record facts versions settlement).
Proof.
  revert settlement. induction versions as [|v versions IH]; intros settlement; cbn [settle_snapshots]; [done|].
  apply looks_srv.
  - apply looks_bind; [|done]. unfold PricingRuleVersionDetail. apply looks_srv; [done|]. intros []; [|done].
    apply looks_srv; [done|]. by intros [].
  - intros [[r v']|e]; [|done]. apply looks_srv; [by destruct (_ <>s _)|]. intros _. apply IH.
Qed.

Lemma looks_after {X} (act : MemoryRepository -> X * MemoryRepository) w :
  (forall r, (act r).2 = r) -> (after act w).2 = (w.1 + 1, w.2).
Proof. intros Ha. unfold after. cbn. by rewrite Ha. Qed.

(** It leaves the world to the others, and what it guarantees among all others,
    it guarantees in a run. *)
Lemma looks_run {A} (p : prog MemoryRepository A) w a w' : looks p -> world_ok w -> runs p w a w' ->
  evolve w w' /\ forall Q, holds max_int64 ok later present ∅ p Q w -> Q a w'.
Proof.
  revert w. induction p as [b|X act k IH]; intros w Hp Hw; cbn in *.
  - intros [-> He]. split; [done|]. destruct (evolve_ok _ _ He Hw) as ([] & L & _).
    intros Q HQ. apply HQ. split_and!; [done..|set_solver].
  - destruct Hp as [Ha Hk]. intros (w1 & He & Hb & Hr). destruct (evolve_ok _ _ He Hw) as (Hw1 & L & _).
    pose proof (evolve_tick _ Hw1) as Ht. rewrite <- (looks_after act w1 Ha) in Ht.
    destruct (evolves_ok _ _ Ht Hw1) as (Hw2 & _). destruct (IH _ _ (Hk _) Hw2 Hr) as [He2 HQ]. split.
    + etransitivity; [exact He|]. by eapply rtc_l.
    + intros Q Hh. apply HQ. eapply (Hh w1); [|done]. split_and!; [by destruct Hw1|done|set_solver].
Qed.

(** A run of the program: what it read, and when. *)
Lemma build_run record w x w' : world_ok w -> runs (build record) w x w' ->
  exists w1 w2 w3, evolve w w1 /\ evolve w1 w2 /\ evolve w2 w3 /\ evolve w3 w' /\
    settled_as Parse CompileExpr Run wrapCallError render Marshal MarshalDimensions record w1.2 w2.2 w3.2 w'.2 x.
Proof.
  intros Hw Hrun. unfold buildUsageSettlement in Hrun. unfold settled_as.
  apply runs_query in Hrun as (w1 & H1 & O1 & T1 & Hrun); [|done].
  pose proof (evolves_ok _ _ T1 O1) as (O1' & _).
  destruct (FindAIOperation _ w1.2) as [operation|] eqn:Eo.
  2: { destruct Hrun as [<- He]. exists w1, w1, w1. rewrite Eo. split_and!; [done..|by eapply rtc_l|done]. }
  unfold refuse in Hrun. destruct (_ <>s _) eqn:Ef.
  { destruct Hrun as [<- He]. exists w1, w1, w1. rewrite Eo, Ef. split_and!; [done..|by eapply rtc_l|done]. }
  apply runs_query in Hrun as (w2 & H2 & O2 & T2 & Hrun); [|done].
  assert (H12 : evolve w1 w2) by by eapply rtc_l. pose proof (evolves_ok _ _ T2 O2) as (O2' & _).
  destruct (FindBillingHoldByOperationID _ w2.2) as [hold|] eqn:Eh.
  2: { destruct Hrun as [<- He]. exists w1, w2, w2. rewrite Eo, Ef, Eh. split_and!; [done..|by eapply rtc_l|done]. }
  apply runs_query in Hrun as (w3 & H3 & O3 & T3 & Hrun); [|done].
  assert (H23 : evolve w2 w3) by by eapply rtc_l. pose proof (evolves_ok _ _ T3 O3) as (O3' & _).
  apply runs_bind in Hrun as (y & w4 & Hloop & Hrest).
  apply looks_run in Hloop as [H4 Hloop]; [|apply looks_loop|done].
  pose proof (Hloop _ (snapshots_spec Parse CompileExpr Run wrapCallError render Marshal ∅ record
    (pricingFactsFromUsage operation record) (ListBillingHoldPricingVersions (BillingHold.ID hold) w3.2)
    (UsageSettlement.mk record [] [] []) _ (world_catalogue _ O3'))) as (_ & _ & Hy).
  assert (H34 : evolve w3 w4) by by eapply rtc_l. pose proof (evolve_ok _ _ H34 O3) as (O4 & _).
  destruct Hy as [(-> & s & Hs & Hf)|(prices & Hall & ->)].
  { destruct Hrest as [-> He]. exists w1, w2, w3. rewrite Eo, Ef, Eh. split_and!; [done..|by etransitivity|]. left. eauto. }
  assert (Hend : forall w5, evolve w4 w5 -> Forall2 (fun snapshot price => fixed_price w5.2 snapshot = Some price)
    (ListBillingHoldPricingVersions (BillingHold.ID hold) w3.2) prices).
  { intros w5 He. eapply Forall2_impl; [exact Hall|]. intros a b. apply fixed_later. by destruct (evolve_ok _ _ He O4) as (_ & L & _). }
  exists w1, w2, w3. rewrite Eo, Ef, Eh. assert (He : evolve w4 w' /\ x = answer_of (settlement_of Parse CompileExpr Run
    wrapCallError render Marshal MarshalDimensions record operation prices)).
  { unfold settlement_of. destruct (usageRecordedOutbox _ _); cbn in Hrest |- *; by destruct Hrest as [<- ?]. }
  destruct He as [He ->]. split_and!; [done..|by etransitivity|]. right. eauto.
Qed.

Lemma build_evolves record w x w' : world_ok w -> runs (build record) w x w' -> evolve w w'.
Proof.
  intros Hw Hr. apply build_run in Hr as (w1 & w2 & w3 & H1 & H2 & H3 & H4 & _); [|done].
  do 3 (etransitivity; [eassumption|]). done.
Qed.

Lemma build_keeps record w x w' : world_ok w -> runs (build record) w x w' -> world_ok w'.
Proof. intros Hw Hr. apply (evolve_ok w w'); [by eapply build_evolves|done]. Qed.

(** ** Lemmas: the same prices at any time *)

Definition price_view (v : BillingHoldPricingVersion.t) : string * string :=
  (BillingHoldPricingVersion.Purpose v, BillingHoldPricingVersion.PricingRuleVersionID v).

Lemma sort_by_map {A B} (f : A -> B) less less' (l : list A) :
  (forall x y, less x y = less' (f x) (f y)) -> map f (sort_by less l) = sort_by less' (map f l).
Proof.
  intros Hless. unfold sort_by. induction l as [|x l IH]; cbn; [done|]. rewrite <- IH.
  generalize (foldr (insert_by less) [] l) as k. induction k as [|y k IHk]; cbn; [done|].
  rewrite <- Hless. destruct (less y x); cbn; [by rewrite IHk|done].
Qed.

(** The versions of a hold, by purpose. *)
Lemma hold_prices r id : billing_ok r -> is_Some (billingHolds r !! id) ->
  let prices := map price_view (ListBillingHoldPricingVersions id r) in
  NoDup prices.*1 /\
  (exists l, prices = sort_by (fun a b => str_ltb a.1 b.1) l /\ NoDup l /\
     forall p, p ∈ l <-> exists k, billingHoldPricingVersions r !! k ≫= price_fixed id = Some p).
Proof.
  intros Hr Hid. cbv zeta. unfold ListBillingHoldPricingVersions. rewrite (basis_trimmed _ Hr id Hid).
  rewrite (sort_by_map price_view _ (fun a b => str_ltb a.1 b.1)) by done.
  set (l := List.filter _ _).
  assert (Hnd : NoDup (map price_view l).*1).
  { assert (Hk : NoDup (version_key <$> map_values (billingHoldPricingVersions r))) by apply values_NoDup, Hr.
    apply (sublist_NoDup (version_key <$> l)) in Hk; [|apply sublist_fmap, filter_sublist].
    assert (E : version_key <$> l = (fun p => (id +:+ lf +:+ p)%string) <$> (map price_view l).*1).
    { subst l. clear. induction (map_values _) as [|v vs IH]; cbn; [done|].
      destruct (String.eqb_spec (BillingHoldPricingVersion.HoldID v) id) as [E|E]; cbn; [|exact IH].
      rewrite IH. unfold version_key. by rewrite E. }
    rewrite E in Hk. by apply NoDup_fmap_1 in Hk. }
  split.
  - assert (Hp : (sort_by (fun a b => str_ltb a.1 b.1) (map price_view l)).*1 ≡ₚ (map price_view l).*1)
      by by rewrite sort_by_perm. by rewrite Hp.
  - exists (map price_view l). split_and!; [done|by eapply NoDup_fmap_1|]. intros p.
    rewrite list_elem_of_In, in_map_iff. setoid_rewrite <- list_elem_of_In. subst l.
    setoid_rewrite list_elem_of_In. setoid_rewrite filter_In. setoid_rewrite <- list_elem_of_In. setoid_rewrite elem_of_map_values.
    split.
    + intros (v & <- & [k Hk] & E). exists k. rewrite Hk. cbn. unfold price_fixed. by rewrite E.
    + intros [k Hk]. destruct (billingHoldPricingVersions r !! k) as [v|] eqn:Ev; [|done]. cbn in Hk.
      unfold price_fixed in Hk. destruct (_ =s _) eqn:E; [|done]. injection Hk as <-. exists v. split_and!; [done|by exists k|done].
Qed.

Lemma hold_prices_kept r r' id : billing_ok r -> billing_ok r' -> kept r r' -> is_Some (billingHolds r !! id) ->
  map price_view (ListBillingHoldPricingVersions id r') = map price_view (ListBillingHoldPricingVersions id r).
Proof.
  intros Hr Hr' Hk Hid. assert (Hid' : is_Some (billingHolds r' !! id))
    by (destruct Hid as [h Hh]; destruct (kept_holds _ _ Hk _ _ Hh) as (h' & Hh' & _); by exists h').
  destruct (hold_prices r id Hr Hid) as (Hnd & l & E & Hl & Hin).
  destruct (hold_prices r' id Hr' Hid') as (_ & l' & E' & Hl' & Hin'). rewrite E in Hnd. rewrite E, E'.
  rewrite (sort_by_ext _ (fun a b : string * string => is_lt (cmp_on fst String.compare a b))) by done.
  rewrite (sort_by_ext (fun a b : string * string => str_ltb a.1 b.1)
    (fun a b : string * string => is_lt (cmp_on fst String.compare a b)) l) by done.
  apply (sort_by_unique (cmp_on fst String.compare)).
  - apply NoDup_Permutation; [done|done|]. intros p. rewrite Hin, Hin'. by setoid_rewrite (kept_prices _ _ Hk _ _ Hid).
  - intros x y Hx Hy Exy. apply str_compare_eq in Exy.
    assert (Hl2 : NoDup l.*1) by by rewrite <- (sort_by_perm (fun a b => str_ltb a.1 b.1) l).
    assert (Hx' : x ∈ l) by (rewrite Hin; setoid_rewrite <- (kept_prices _ _ Hk _ _ Hid); by rewrite <- Hin').
    assert (Hy' : y ∈ l) by (rewrite Hin; setoid_rewrite <- (kept_prices _ _ Hk _ _ Hid); by rewrite <- Hin').
    apply list_elem_of_lookup in Hx' as [i Hi], Hy' as [j Hj].
    assert (i = j) as ->; [|congruence]. eapply NoDup_lookup; [exact Hl2| |]; rewrite list_lookup_fmap.
    + by rewrite Hi.
    + rewrite Hj. cbn. by rewrite Exy.
Qed.

Lemma fixed_view s l1 l2 p1 p2 : map price_view l1 = map price_view l2 ->
  Forall2 (fun v price => fixed_price s v = Some price) l1 p1 ->
  Forall2 (fun v price => fixed_price s v = Some price) l2 p2 -> p1 = p2.
Proof.
  revert l2 p1 p2. induction l1 as [|v1 l1 IH]; intros [|v2 l2] p1 p2 E H1 H2; try done;
    inversion H1; inversion H2; subst; [done|]. injection E as E1 E2 E3. f_equal; [|by eapply IH].
  assert (E0 : fixed_price s v1 = fixed_price s v2) by (unfold fixed_price; by rewrite E1, E2). congruence.
Qed.

Lemma found_later w w' operationID hold : world_ok w -> evolve w w' ->
  FindBillingHoldByOperationID operationID w.2 = Some hold ->
  is_Some (billingHolds w.2 !! BillingHold.ID hold) /\
  exists hold', billingHolds w'.2 !! BillingHold.ID hold = Some hold' /\ BillingHold.OperationID hold' = TrimSpace operationID.
Proof.
  intros Hw He Hf. apply memoryHold_spec in Hf as [Hh Ho]; [|apply Hw]. split; [by eexists|].
  destruct (evolve_ok _ _ He Hw) as (_ & _ & K). destruct (kept_holds _ _ K _ _ Hh) as (h' & Hh' & E).
  exists h'. split; [done|congruence].
Qed.

(** Two runs that read the hold of one operation read the same prices, if their
    times meet in a later one. *)
Lemma prices_shared operationID hold hold' w2 w3 w4 v2 v3 v4 b prices prices' :
  world_ok w2 -> evolve w2 w3 -> evolve w3 w4 -> evolve w4 b ->
  world_ok v2 -> evolve v2 v3 -> evolve v3 v4 -> evolve v4 b ->
  FindBillingHoldByOperationID operationID w2.2 = Some hold ->
  FindBillingHoldByOperationID operationID v2.2 = Some hold' ->
  Forall2 (fun v price => fixed_price w4.2 v = Some price) (ListBillingHoldPricingVersions (BillingHold.ID hold) w3.2) prices ->
  Forall2 (fun v price => fixed_price v4.2 v = Some price) (ListBillingHoldPricingVersions (BillingHold.ID hold') v3.2) prices' ->
  prices' = prices.
Proof.
  intros Hw2 W3 W4 Wb Hv2 V3 V4 Vb Hh Hh' Hp Hp'.
  assert (Hlater : forall u4 l p, world_ok u4 -> evolve u4 b -> Forall2 (fun v price => fixed_price u4.2 v = Some price) l p ->
    Forall2 (fun v price => fixed_price b.2 v = Some price) l p).
  { intros u4 l p Hu He H. eapply Forall2_impl; [exact H|]. intros x y. apply fixed_later.
    by destruct (evolve_ok _ _ He Hu) as (_ & L & _). }
  assert (Hview : forall u2 u3 u4 h, world_ok u2 -> evolve u2 u3 -> evolve u3 u4 -> evolve u4 b ->
    FindBillingHoldByOperationID operationID u2.2 = Some h -> world_ok u4 /\
    map price_view (ListBillingHoldPricingVersions (BillingHold.ID h) b.2) =
    map price_view (ListBillingHoldPricingVersions (BillingHold.ID h) u3.2)).
  { intros u2 u3 u4 h Hu U3 U4 Ub Hf. destruct (evolve_ok _ _ U3 Hu) as (Hu3 & _ & K3).
    destruct (evolve_ok _ _ U4 Hu3) as (Hu4 & _ & _). split; [done|].
    assert (U3b : evolve u3 b) by by etransitivity. destruct (evolve_ok _ _ U3b Hu3) as (Hb & _ & Kb).
    destruct (found_later _ _ _ _ Hu U3 Hf) as (_ & h' & Hh3 & _). apply hold_prices_kept; [apply Hu3|apply Hb|done|by eexists]. }
  destruct (Hview w2 w3 w4 hold) as [Hw4 E]; [done..|]. destruct (Hview v2 v3 v4 hold') as [Hv4 E']; [done..|].
  assert (W2b : evolve w2 b) by (etransitivity; [exact W3|]; by etransitivity).
  assert (V2b : evolve v2 b) by (etransitivity; [exact V3|]; by etransitivity).
  destruct (found_later _ _ _ _ Hw2 W2b Hh) as (_ & hb & Hb1 & Hb2).
  destruct (found_later _ _ _ _ Hv2 V2b Hh') as (_ & hb' & Hb1' & Hb2').
  destruct (evolve_ok _ _ W2b Hw2) as (Hbok & _).
  assert (Eid : BillingHold.ID hold' = BillingHold.ID hold).
  { eapply (holds_one _ (basis_holds _ (world_billing _ Hbok))); [exact Hb1'|exact Hb1|congruence]. }
  rewrite Eid in *. eapply fixed_view; [|exact (Hlater v4 _ _ Hv4 Vb Hp')|exact (Hlater w4 _ _ Hw4 Wb Hp)]. by rewrite <- E', E.
Qed.

(** ** Lemmas: the same ledger for the same usage *)

(** One usage recorded twice: what identifies it and what it used agree; when it
    was recorded, and what was observed of the provider, need not. *)
Record same_usage (a b : UsageRecord.t) : Prop := {
  same_id : UsageRecord.ID b = UsageRecord.ID a;
  same_operation : UsageRecord.OperationID b = UsageRecord.OperationID a;
  same_attempt_id : UsageRecord.AttemptID b = UsageRecord.AttemptID a;
  same_version : UsageRecord.UsageVersion b = UsageRecord.UsageVersion a;
  same_fingerprint : UsageRecord.RequestFingerprint b = UsageRecord.RequestFingerprint a;
  same_facts : forall o, pricingFactsFromUsage o b =
    ((pricingFactsFromUsage o a) <| ObservedAt := UsageRecord.CreatedAt b |>);
  same_dimensions : UsageRecord.UsageDimensions b = UsageRecord.UsageDimensions a;
  same_status : UsageRecord.PricingStatus b = UsageRecord.PricingStatus a;
  same_cost : UsageRecord.UsageCostMicros b = UsageRecord.UsageCostMicros a;
}.

Notation evaluate := (evaluate_version Parse CompileExpr Run wrapCallError render Marshal).
Notation ledger_of := (ledger_of Parse CompileExpr Run wrapCallError render Marshal).
Notation evaluation_of := (evaluation_of Parse CompileExpr Run wrapCallError render Marshal).
Notation charge := (charge Parse CompileExpr Run wrapCallError render Marshal).

Lemma evaluate_same a b o o' v : same_usage a b -> same_kind o o' ->
  evaluate v (pricingFactsFromUsage o' b) = evaluate v (pricingFactsFromUsage o a).
Proof.
  intros Hs (K1 & K2 & K3 & _). rewrite (same_facts _ _ Hs).
  assert (E : pricingFactsFromUsage o' a = pricingFactsFromUsage o a) by (unfold pricingFactsFromUsage; by rewrite K1, K2, K3).
  rewrite E. unfold evaluate_version. destruct (engine_CompileByHash _ _ _ _) as [compiled|]; [|done]. cbn.
  set (facts := pricingFactsFromUsage o a).
  assert (Ep : forall t, set ObservedAt (fun _ => t) facts = (facts <| Phase := PhaseSettlement |> <| ObservedAt := t |>)) by done.
  assert (E0 : facts = (facts <| Phase := PhaseSettlement |> <| ObservedAt := UsageRecord.CreatedAt a |>)) by done.
  rewrite Ep. rewrite E0 at 2. apply Evaluate_phase_independent; set_solver.
Qed.

Lemma digest_same a b purpose : same_usage a b ->
  deterministicPricingEvaluationID b purpose = deterministicPricingEvaluationID a purpose /\
  deterministicBillingLedgerID b purpose = deterministicBillingLedgerID a purpose.
Proof.
  intros [_ E1 E2 E3 _ _ _ _ _]. unfold deterministicPricingEvaluationID, deterministicBillingLedgerID, usageLedgerDigest.
  by rewrite E1, E2, E3.
Qed.

Lemma ledgers_same a b o o' prices : same_usage a b -> same_kind o o' ->
  Forall2 (fun x y => sameBillingLedgerContent x y = true /\ BillingLedgerEntry.ID y = BillingLedgerEntry.ID x)
    (omap (ledger_of a (pricingFactsFromUsage o a)) prices) (omap (ledger_of b (pricingFactsFromUsage o' b)) prices).
Proof.
  intros Hs Hk. induction prices as [|[purpose v] prices IH]; cbn [omap list_omap]; [constructor|].
  unfold UsagePricing.ledger_of in IH |- *. cbn [fst snd] in IH |- *. rewrite (evaluate_same a b o o' v) by done.
  destruct (evaluate v _) as [evaluated|]; [|exact IH]. constructor; [|exact IH].
  destruct (digest_same a b purpose Hs) as [D1 D2]. split; [|exact D2].
  unfold sameBillingLedgerContent, sameBillingLedgerIdentity, usage_ledger. cbn.
  by rewrite D1, (same_id _ _ Hs), (same_operation _ _ Hs), (same_attempt_id _ _ Hs), (same_version _ _ Hs),
    (same_fingerprint _ _ Hs), !String.eqb_refl, !Z.eqb_refl.
Qed.

Lemma evaluation_ids_same a b o o' prices : same_usage a b ->
  PricingEvaluation.ID <$> map (evaluation_of b (pricingFactsFromUsage o' b)) prices =
  PricingEvaluation.ID <$> map (evaluation_of a (pricingFactsFromUsage o a)) prices.
Proof.
  intros Hs. induction prices as [|price prices IH]; cbn; [done|].
  rewrite IH, !evaluation_id. by destruct (digest_same a b price.1 Hs) as [-> _].
Qed.

Lemma charge_same a b o o' prices x y : same_usage a b -> same_kind o o' ->
  UsageRecord.PricingStatus y = UsageRecord.PricingStatus x -> UsageRecord.UsageCostMicros y = UsageRecord.UsageCostMicros x ->
  let x' := foldl (charge a (pricingFactsFromUsage o a)) x prices in
  let y' := foldl (charge b (pricingFactsFromUsage o' b)) y prices in
  UsageRecord.PricingStatus y' = UsageRecord.PricingStatus x' /\ UsageRecord.UsageCostMicros y' = UsageRecord.UsageCostMicros x'.
Proof.
  cbv zeta. intros Hs Hk. revert x y. induction prices as [|[purpose v] prices IH]; intros x y E1 E2; cbn [foldl]; [done|].
  apply IH; unfold UsagePricing.charge; cbn [fst snd]; rewrite (evaluate_same a b o o') by done;
    (destruct (_ =s _); [|done]); by destruct (evaluate v _).
Qed.

(** ** Lemmas: the second application *)

Lemma ledger_ids record facts prices :
  NoDup (PricingEvaluation.ID <$> map (evaluation_of record facts) prices) ->
  NoDup (BillingLedgerEntry.ID <$> omap (ledger_of record facts) prices).
Proof.
  intros H. apply (sublist_NoDup _ (deterministicBillingLedgerID record <$> prices.*1)).
  - assert (E : PricingEvaluation.ID <$> map (evaluation_of record facts) prices =
      String.append "peval_" <$> ((fun purpose => prefix (hashAPIKey (usageLedgerDigest record +:+ nul +:+ purpose)) 24) <$> prices.*1)).
    { clear H. induction prices as [|price prices IH]; cbn; [done|]. rewrite evaluation_id. f_equal. exact IH. }
    rewrite E in H. apply NoDup_fmap_1 in H.
    assert (E' : deterministicBillingLedgerID record <$> prices.*1 =
      String.append "billing_" <$> ((fun purpose => prefix (hashAPIKey (usageLedgerDigest record +:+ nul +:+ purpose)) 24) <$> prices.*1))
      by (generalize (prices.*1) as l; induction l as [|purpose l IHl]; cbn; [done|]; f_equal; exact IHl).
    rewrite E'. apply NoDup_fmap_2; [|done]. intros x y Exy. by repeat (injection Exy as Exy).
  - clear H. induction prices as [|price prices IH]; [constructor|]. cbn [omap list_omap fmap list_fmap].
    destruct (ledger_of record facts price) as [b|] eqn:Eb; cbn; [|by constructor].
    assert (BillingLedgerEntry.ID b = deterministicBillingLedgerID record price.1) as ->; [|by constructor].
    unfold UsagePricing.ledger_of in Eb. by destruct (evaluate _ _); [injection Eb as <-|].
Qed.

Lemma count_again r l1 l2 acc : ledger_unique (billingLedgerEntries r) ->
  Forall (fun x => billingLedgerEntries r !! BillingLedgerEntry.ID x = Some x) l1 ->
  Forall2 (fun x y => sameBillingLedgerContent x y = true /\ BillingLedgerEntry.ID y = BillingLedgerEntry.ID x) l1 l2 ->
  foldM (count_existing r) acc l2 = Ok (acc + Z.of_nat (length l2)).
Proof.
  intros Hu Hall H. revert acc Hall. induction H as [|x y l1 l2 [Hc _] _ IH]; intros acc; cbn [foldM length]; [by rewrite Z.add_0_r|].
  intros [Hx Hl]%Forall_cons_iff.
  assert (Hid : sameBillingLedgerIdentity x y = true) by (unfold sameBillingLedgerContent in Hc; by boolify).
  assert (E : count_existing r acc y = Ok (acc + 1)).
  { apply count_spec. apply sameIdentity_spec in Hid as (I1 & I2 & I3 & I4). split.
    - f_equal. rewrite <- (occurrences_1 _ _ _ Hu Hx). apply sum_map_ext. intros k v _.
      unfold sameBillingLedgerIdentity. by rewrite I1, I2, I3, I4.
    - intros k current Hk Hs. apply sameIdentity_spec in Hs as (S1 & S2 & S3 & S4).
      assert (k = BillingLedgerEntry.ID x) as -> by (eapply Hu; [exact Hk|exact Hx|]; apply sameIdentity_spec; split_and!; congruence).
      by assert (current = x) as -> by congruence. }
  rewrite E. cbn. rewrite IH by done. f_equal. lia.
Qed.

Lemma find_again first again r : ledger_unique (billingLedgerEntries r) ->
  Forall (fun x => billingLedgerEntries r !! BillingLedgerEntry.ID x = Some x) (UsageSettlement.Ledgers first) ->
  Forall2 (fun x y => sameBillingLedgerContent x y = true /\ BillingLedgerEntry.ID y = BillingLedgerEntry.ID x)
    (UsageSettlement.Ledgers first) (UsageSettlement.Ledgers again) ->
  usageRecords r !! UsageRecord.ID (UsageSettlement.Record again) = Some (UsageSettlement.Record first) ->
  same_record MarshalDimensions (UsageSettlement.Record first) (UsageSettlement.Record again) = true ->
  find_settled MarshalDimensions again r = Ok (Some false).
Proof.
  intros Hu Hs Hall Hr Hsame. unfold find_settled. rewrite (count_again r _ _ 0 Hu Hs Hall). cbn [mbind result_bind].
  rewrite Z.add_0_l, Z.eqb_refl, Hr, Hsame. cbn [negb].
  destruct (UsageSettlement.Ledgers again); [done|]. cbn [length]. by rewrite (proj2 (Z.gtb_lt _ _)) by lia.
Qed.

Lemma references_kept record record' r r' : kept r r' -> UsageRecord.OperationID record <> ""%string ->
  UsageRecord.OperationID record' = UsageRecord.OperationID record ->
  UsageRecord.AttemptID record' = UsageRecord.AttemptID record ->
  check_references record r = (Ok tt, r) -> check_references record' r' = (Ok tt, r').
Proof.
  intros K Hne E1 E2 H. unfold check_references in *. rewrite E1, E2.
  apply readonly_bind_inv in H as [(e & [=] & _)|(? & [= <-] & H)]; [|apply readonly_read]. unfold id in *.
  apply readonly_bind_inv in H as [(e & _ & [=] & _)|([] & Hc & H)]; [|apply readonly_check].
  apply check_inv in Hc as [_ [[_ [=]]|[Hc _]]]. apply negb_false_iff, has_Some in Hc as [o Ho].
  destruct (kept_operations _ _ K _ _ Hne Ho) as (o' & Ho' & _).
  unfold mbind, M_bind, read. unfold check at 1. rewrite (proj2 (negb_false_iff _) (proj2 (has_Some _ _) (mk_is_Some _ _ Ho'))).
  cbn [mret M_ret]. destruct (_ <>s ""); [|done]. apply check_inv in H as [_ [[_ [=]]|[H _]]].
  destruct (aiAttempts r !! _) as [attempt|] eqn:Ea; [|done]. destruct (kept_attempts _ _ K _ _ Ea) as (a' & Ea' & E).
  unfold check. by rewrite Ea', E, H.
Qed.

Lemma validate_recordable settlement : validateUsageSettlement settlement = Ok tt ->
  recordable (UsageSettlement.Record settlement).
Proof. unfold validateUsageSettlement. intros ([] & H%guard_Ok & _)%bind_Ok. boolify. by split_and!. Qed.

Lemma validate_dimensions settlement d :
  validateUsageSettlement (settlement <| UsageSettlement.Record :=
    (UsageSettlement.Record settlement) <| UsageRecord.UsageDimensions := d |> |>) = validateUsageSettlement settlement.
Proof. by destruct settlement as [[] ? ? ?]. Qed.

Lemma apply_settled settlement normal r : normalizeSettlement settlement = Ok normal ->
  check_references (UsageSettlement.Record normal) r = (Ok tt, r) ->
  find_settled MarshalDimensions normal r = Ok (Some false) -> Apply settlement r = (Ok false, r).
Proof.
  intros Hn Hr Hf. unfold ApplyUsageSettlement, mbind, M_bind, lift. rewrite Hn, Hr. unfold read, id. by rewrite Hf.
Qed.

(** What two records of one usage have in common when they are settled. *)
Record settled_alike (a b : UsageRecord.t) : Prop := {
  alike_id : UsageRecord.ID b = UsageRecord.ID a;
  alike_operation : UsageRecord.OperationID b = UsageRecord.OperationID a;
  alike_attempt : UsageRecord.AttemptID b = UsageRecord.AttemptID a;
  alike_version : UsageRecord.UsageVersion b = UsageRecord.UsageVersion a;
  alike_fingerprint : UsageRecord.RequestFingerprint b = UsageRecord.RequestFingerprint a;
  alike_dimensions : UsageRecord.UsageDimensions b = UsageRecord.UsageDimensions a;
  alike_status : UsageRecord.PricingStatus b = UsageRecord.PricingStatus a;
  alike_cost : UsageRecord.UsageCostMicros b = UsageRecord.UsageCostMicros a;
}.

Notation settlement_of := (settlement_of Parse CompileExpr Run wrapCallError render Marshal MarshalDimensions).

Lemma settlements_alike record record' o o' prices settlement again :
  same_usage record record' -> same_kind o o' ->
  settlement_of record o prices = Ok settlement -> settlement_of record' o' prices = Ok again ->
  settled_alike (UsageSettlement.Record settlement) (UsageSettlement.Record again) /\
  Forall2 (fun x y => sameBillingLedgerContent x y = true /\ BillingLedgerEntry.ID y = BillingLedgerEntry.ID x)
    (UsageSettlement.Ledgers settlement) (UsageSettlement.Ledgers again) /\
  PricingEvaluation.ID <$> UsageSettlement.Evaluations again = PricingEvaluation.ID <$> UsageSettlement.Evaluations settlement /\
  (recordable (UsageSettlement.Record settlement) -> recordable record').
Proof.
  intros Hs Hk E1 E2. apply settlement_parts in E1 as (R1 & V1 & L1), E2 as (R2 & V2 & L2).
  rewrite L1, L2, V1, V2. split; [|split; [by apply ledgers_same|split; [by apply evaluation_ids_same|]]].
  - rewrite R1, R2.
    destruct (charge_fields Parse CompileExpr Run wrapCallError render Marshal record (pricingFactsFromUsage o record) prices record)
      as (F1 & F2 & F3 & F4 & F5 & F6).
    destruct (charge_fields Parse CompileExpr Run wrapCallError render Marshal record' (pricingFactsFromUsage o' record') prices record')
      as (G1 & G2 & G3 & G4 & G5 & G6).
    destruct (charge_same record record' o o' prices record record' Hs Hk (same_status _ _ Hs) (same_cost _ _ Hs)) as [C1 C2].
    destruct Hs as [S1 S2 S3 S4 S5 _ S7 _ _]. split; congruence.
  - rewrite R1. destruct (charge_fields Parse CompileExpr Run wrapCallError render Marshal record (pricingFactsFromUsage o record) prices record)
      as (F1 & F2 & _ & F4 & F5 & _). unfold recordable. rewrite F1, F2, F4, F5.
    destruct Hs as [S1 S2 S3 S4 S5 _ _ _ _]. by rewrite S1, S2, S4, S5.
Qed.

(** The second settlement, where the first is already in the books. *)
Lemma apply_again record record' o o' prices settlement again normal r b :
  (forall m, exists text, MarshalDimensions m = Ok text) -> same_usage record record' -> same_kind o o' ->
  settlement_of record o prices = Ok settlement -> settlement_of record' o' prices = Ok again ->
  NoDup (PricingEvaluation.ID <$> UsageSettlement.Evaluations settlement) ->
  normalizeSettlement settlement = Ok normal ->
  check_references (UsageSettlement.Record normal) r = (Ok tt, r) -> kept r b ->
  ledger_unique (billingLedgerEntries b) ->
  Forall (fun x => billingLedgerEntries b !! BillingLedgerEntry.ID x = Some x) (UsageSettlement.Ledgers normal) ->
  usageRecords b !! UsageRecord.ID (UsageSettlement.Record normal) = Some (UsageSettlement.Record normal) ->
  Forall2 (fun x y => sameBillingLedgerContent x y = true) (UsageSettlement.Ledgers settlement) (UsageSettlement.Ledgers again) /\
  Apply again b = (Ok false, b).
Proof.
  intros HM Hs Hk E1 E2 Hnd Hn Href K Hu Hst Hrec.
  destruct (settlements_alike record record' o o' prices settlement again Hs Hk E1 E2) as (Ha & Hl & Hids & Hr).
  split. { eapply Forall2_impl; [exact Hl|]. by intros x y [? _]. }
  pose proof (normalizeSettlement_inv _ _ Hn) as (Hnorm & El & _). cbv zeta in Hnorm.
  unfold normalizeSettlement in Hn. cbv zeta in Hn. apply bind_Ok in Hn as (d & Hd & Hn).
  apply bind_Ok in Hn as ([] & Hv & Hn). rewrite validate_dimensions in Hv. specialize (Hr (validate_recordable _ Hv)).
  assert (Hv2 : validateUsageSettlement again = Ok tt)
    by (eapply settlement_valid; [exact Hr|exact E2|by rewrite Hids]).
  destruct (validate_recordable _ Hv) as (Hne & _). destruct Ha as [A1 A2 A3 A4 A5 A6 A7 A8].
  assert (Hn2 : exists normal2, normalizeSettlement again = Ok normal2 /\ settled_alike (UsageSettlement.Record normal) (UsageSettlement.Record normal2) /\
    UsageSettlement.Ledgers normal2 = UsageSettlement.Ledgers again).
  { unfold normalizeSettlement. cbv zeta. rewrite A6, Hd. cbn [mbind result_bind]. rewrite validate_dimensions, Hv2.
    cbn [mbind result_bind]. eexists. split; [done|]. injection Hn as <-. by split. }
  destruct Hn2 as (normal2 & Hn2 & [B1 B2 B3 B4 B5 B6 B7 B8] & El2).
  assert (Enormal : UsageRecord.OperationID (UsageSettlement.Record normal) = UsageRecord.OperationID (UsageSettlement.Record settlement))
    by by injection Hn as <-.
  eapply apply_settled; [exact Hn2| |].
  - eapply references_kept; [exact K| |exact B2|exact B3|exact Href]. rewrite Enormal. intros E. by rewrite E in Hne.
  - apply (find_again normal); [done|done|by rewrite El, El2|by rewrite B1|].
    pose proof (same_record_refl MarshalDimensions _ HM Hnorm) as E. unfold same_record in E |- *. by rewrite B6, B7, B8.
Qed.

(** What a run that gives a settlement has read. *)
Record built_from (record : UsageRecord.t) (w w1 : world) (settlement : UsageSettlement.t) (operation : AIOperation.t)
    (hold : BillingHold.t) (prices : list (string * version)) (m1 m2 m3 : world) : Prop := {
  built_start : evolve w m1;
  built_operation_at : evolve m1 m2;
  built_hold_at : evolve m2 m3;
  built_prices_at : evolve m3 w1;
  built_operation : aiOperations m1.2 !! UsageRecord.OperationID record = Some operation;
  built_fingerprint : AIOperation.RequestFingerprint operation = UsageRecord.RequestFingerprint record;
  built_hold : FindBillingHoldByOperationID (UsageRecord.OperationID record) m2.2 = Some hold;
  built_prices : Forall2 (fun v price => fixed_price w1.2 v = Some price)
    (ListBillingHoldPricingVersions (BillingHold.ID hold) m3.2) prices;
  built_settlement : settlement_of record operation prices = Ok settlement;
}.

Lemma build_built record w settlement w1 : world_ok w -> runs (build record) w (Ok settlement) w1 ->
  exists operation hold prices m1 m2 m3, built_from record w w1 settlement operation hold prices m1 m2 m3.
Proof.
  intros Hw Hrun. apply build_run in Hrun as (m1 & m2 & m3 & H1 & H2 & H3 & H4 & Hx); [|done]. unfold settled_as in Hx.
  destruct (FindAIOperation _ _) as [operation|] eqn:Eo; [|done]. destruct (_ <>s _) eqn:Ef; [done|].
  destruct (FindBillingHoldByOperationID _ _) as [hold|] eqn:Eh; [|done].
  destruct Hx as [[[=] _]|(prices & Hall & Hx)]. exists operation, hold, prices, m1, m2, m3. boolify.
  split; try done. by destruct (UsagePricing.settlement_of _ _ _ _ _ _ _ _ _ _); [injection Hx as <-|].
Qed.

(** A later run finds all of it again. *)
Lemma build_succeeds record record' w w1 settlement operation hold prices m1 m2 m3 w' x w1' :
  (forall m, exists text, MarshalDimensions m = Ok text) -> world_ok w ->
  built_from record w w1 settlement operation hold prices m1 m2 m3 ->
  UsageRecord.OperationID record <> ""%string -> same_usage record record' ->
  evolve w1 w' -> runs (build record') w' x w1' -> exists again, x = Ok again.
Proof.
  intros HM Hw [H1 H2 H3 H4 Eo Ef Eh Hall Es] Hne Hs Hw' Hrun.
  destruct (evolve_ok _ _ H1 Hw) as (O1 & _). destruct (evolve_ok _ _ H2 O1) as (O2 & _).
  destruct (evolve_ok _ _ H3 O2) as (O3 & _). destruct (evolve_ok _ _ H4 O3) as (Ow1 & _).
  destruct (evolve_ok _ _ Hw' Ow1) as (Ow' & _).
  apply build_run in Hrun as (n1 & n2 & n3 & G1 & G2 & G3 & G4 & Hx); [|done]. unfold settled_as in Hx.
  rewrite (same_operation _ _ Hs), (same_fingerprint _ _ Hs) in Hx.
  assert (R1 : evolve m1 n1) by (do 3 (etransitivity; [eassumption|]); by etransitivity).
  destruct (evolve_ok _ _ R1 O1) as (N1 & _ & K1). destruct (kept_operations _ _ K1 _ _ Hne Eo) as (o' & Eo' & _ & _ & _ & Ko).
  unfold FindAIOperation in Hx. rewrite Eo', Ko, Ef, String.eqb_refl in Hx. cbn [negb] in Hx.
  assert (R2 : evolve m2 n2) by (do 4 (etransitivity; [eassumption|]); done).
  destruct (evolve_ok _ _ G2 N1) as (N2 & _). destruct (evolve_ok _ _ G3 N2) as (N3 & _).
  destruct (found_later _ _ _ _ O2 R2 Eh) as (Hm2 & h' & Hh' & Eop').
  assert (Eid : BillingHold.ID h' = BillingHold.ID hold) by apply (holds_keys _ (basis_holds _ (world_billing _ N2)) _ _ Hh').
  assert (Eh' : FindBillingHoldByOperationID (UsageRecord.OperationID record) n2.2 = Some h').
  { apply memoryHold_spec; [apply N2|]. by rewrite Eid. }
  rewrite Eh', Eid in Hx. assert (R3 : evolve m3 n3) by (do 4 (etransitivity; [eassumption|]); done).
  destruct (evolve_ok _ _ R3 O3) as (_ & _ & K3). destruct (found_later _ _ _ _ O2 H3 Eh) as (_ & h3 & Hh3 & _).
  pose proof (hold_prices_kept m3.2 n3.2 (BillingHold.ID hold) (world_billing _ O3) (world_billing _ N3) K3 (mk_is_Some _ _ Hh3)) as Ev.
  assert (Rn : evolve w1 n3) by (do 3 (etransitivity; [eassumption|]); done). destruct (evolve_ok _ _ Rn Ow1) as (_ & Ln & _).
  destruct Hx as [(_ & s & Hs1 & Hs2)|(prices' & _ & ->)].
  - exfalso. apply list_elem_of_In, (in_map price_view) in Hs1. rewrite Ev in Hs1.
    apply in_map_iff in Hs1 as (v & Ev2 & Hv). apply list_elem_of_In in Hv.
    apply list_elem_of_lookup in Hv as [i Hi]. destruct (Forall2_lookup_l _ _ _ _ _ Hall Hi) as (price & _ & Hp).
    apply (fixed_later _ n3) in Hp; [|done]. injection Ev2 as E1 E2. unfold fixed_price in Hs2, Hp.
    rewrite E2 in Hp. destruct (pricingRuleVersions n3.2 !! _) as [v0|]; [|done]. cbn in *. by destruct (is_published v0).
  - unfold UsagePricing.settlement_of, usageRecordedOutbox, usage_recorded_payload.
    match goal with |- context [MarshalDimensions ?m] => destruct (HM m) as [text ->] end. cbn. by eexists.
Qed.

(** The books after the first application. *)
Lemma booked settlement a r1 : world_ok a -> NoDup (BillingLedgerEntry.ID <$> UsageSettlement.Ledgers settlement) ->
  Apply settlement a.2 = (Ok true, r1) ->
  evolves a (a.1, r1) /\ exists normal, normalizeSettlement settlement = Ok normal /\
    check_references (UsageSettlement.Record normal) a.2 = (Ok tt, a.2) /\
    Forall (fun e => billingLedgerEntries r1 !! BillingLedgerEntry.ID e = Some e) (UsageSettlement.Ledgers normal) /\
    usageRecords r1 !! UsageRecord.ID (UsageSettlement.Record normal) = Some (UsageSettlement.Record normal).
Proof.
  intros Hw Hids Ha. split.
  - destruct a as [n ra]. apply Evolve_repository; [done|]. by eapply (Step_ApplyUsageSettlement MarshalDimensions).
  - destruct Hw as [_ Hrep Hbil]. apply apply_inv in Ha as [[_ ?]|(_ & normal & r2 & Hn & Hr & Hf & _ & _ & Ho & ->)]; [done| |apply Hbil].
    destruct (recorded_ledger MarshalDimensions settlement normal a.2 r2 Hn Hf Ho Hids
      (ok_ledger_keyed _ Hrep) (ok_ledger _ Hrep)) as (_ & _ & Hst).
    exists normal. split_and!; [done..|]. by destruct (recorded normal r2) as (? & _).
Qed.

(** The usage of a settlement that has been applied, settled again. *)
Lemma billed_again record record' w w1 a r1 w' w1' b settlement x :
  (forall m, exists text, MarshalDimensions m = Ok text) ->
  world_ok w -> runs (build record) w (Ok settlement) w1 ->
  NoDup (PricingEvaluation.ID <$> UsageSettlement.Evaluations settlement) ->
  evolve w1 a -> Apply settlement a.2 = (Ok true, r1) -> evolve (a.1, r1) b ->
  same_usage record record' ->
  world_ok w' -> runs (build record') w' x w1' -> evolve w1' b ->
  (evolve w1 w' -> exists again, x = Ok again) /\
  (forall again, x = Ok again ->
     Forall2 (fun e e' => sameBillingLedgerContent e e' = true) (UsageSettlement.Ledgers settlement) (UsageSettlement.Ledgers again) /\
     Apply again b.2 = (Ok false, b.2)).
Proof.
  intros HM Hw Hrun Hnd Ha Happly Hb Hs Hw' Hrun' Hb'.
  destruct (build_built _ _ _ _ Hw Hrun) as (o & hold & prices & m1 & m2 & m3 & Hbuilt).
  pose proof Hbuilt as [H1 H2 H3 H4 Eo _ Eh Hall Es].
  destruct (evolve_ok _ _ H1 Hw) as (O1 & _). destruct (evolve_ok _ _ H2 O1) as (O2 & _).
  destruct (evolve_ok _ _ H3 O2) as (O3 & _). destruct (evolve_ok _ _ H4 O3) as (Ow1 & _).
  destruct (evolve_ok _ _ Ha Ow1) as (Oa & _).
  assert (Hids : NoDup (BillingLedgerEntry.ID <$> UsageSettlement.Ledgers settlement)).
  { destruct (settlement_parts _ _ _ _ _ _ _ _ _ _ _ Es) as (_ & Ee & ->). rewrite Ee in Hnd. by apply ledger_ids. }
  destruct (booked _ _ _ Oa Hids Happly) as (Hstep & normal & Hn & Href & Hst & Hrec).
  assert (Hab : evolve a b) by by eapply rtc_l. destruct (evolve_ok _ _ Hab Oa) as (Ob & _ & Kab).
  destruct (evolves_ok _ _ Hstep Oa) as (Or1 & _). destruct (evolve_ok _ _ Hb Or1) as (_ & _ & Krb).
  assert (Hne : UsageRecord.OperationID record <> ""%string).
  { pose proof Hn as Hn'. unfold normalizeSettlement in Hn'. apply bind_Ok in Hn' as (d & _ & ([] & Hv & _)%bind_Ok).
    rewrite validate_dimensions in Hv. apply validate_recordable in Hv as (Hv & _).
    destruct (settlement_parts _ _ _ _ _ _ _ _ _ _ _ Es) as (Er & _). rewrite Er in Hv.
    destruct (charge_fields Parse CompileExpr Run wrapCallError render Marshal record (pricingFactsFromUsage o record) prices record)
      as (_ & F2 & _). rewrite F2 in Hv. intros E. by rewrite E in Hv. }
  split; [intros Hlate; exact (build_succeeds _ _ _ _ _ _ _ _ _ _ _ _ _ _ HM Hw Hbuilt Hne Hs Hlate Hrun')|]. intros again ->.
  destruct (build_built _ _ _ _ Hw' Hrun') as (o' & hold' & prices' & n1 & n2 & n3 & [G1 G2 G3 G4 Eo' _ Eh' Hall' Es']).
  destruct (evolve_ok _ _ G1 Hw') as (N1 & _). destruct (evolve_ok _ _ G2 N1) as (N2 & _).
  rewrite (same_operation _ _ Hs) in Eo', Eh'.
  assert (Hkind : same_kind o o').
  { assert (R : evolve m1 b) by (do 4 (etransitivity; [eassumption|]); done). assert (R' : evolve n1 b) by (do 3 (etransitivity; [eassumption|]); done).
    destruct (evolve_ok _ _ R O1) as (_ & _ & K). destruct (evolve_ok _ _ R' N1) as (_ & _ & K').
    destruct (kept_operations _ _ K _ _ Hne Eo) as (ob & Eob & B1 & B2 & B3 & B4).
    destruct (kept_operations _ _ K' _ _ Hne Eo') as (ob' & Eob' & B1' & B2' & B3' & B4').
    assert (ob' = ob) as -> by congruence. unfold same_kind. split_and!; congruence. }
  assert (prices' = prices) as ->.
  { eapply (prices_shared (UsageRecord.OperationID record) hold hold' m2 m3 w1 n2 n3 w1' b); try done.
    etransitivity; [exact Ha|exact Hab]. }
  eapply (apply_again record record' o o' prices settlement again normal a.2); [done..|apply Ob| |].
  - eapply Forall_impl; [exact Hst|]. intros e He. eapply lookup_weaken; [exact He|apply Krb].
  - eapply lookup_weaken; [exact Hrec|apply Krb].
Qed.

(** The versions a hold fixes have distinct purposes; where their evaluations get
    distinct identifiers, so do those of the settlement. *)
Definition hold_purposes (operationID : string) (r : MemoryRepository) : list string :=
  match FindBillingHoldByOperationID operationID r with
  | Some hold => (map price_view (ListBillingHoldPricingVersions (BillingHold.ID hold) r)).*1
  | None => []
  end.

Lemma built_distinct record w0 w w1 settlement : world_ok w0 -> evolve w0 w -> runs (build record) w (Ok settlement) w1 ->
  is_Some (FindBillingHoldByOperationID (UsageRecord.OperationID record) w0.2) ->
  (forall p q, p ∈ hold_purposes (UsageRecord.OperationID record) w0.2 -> q ∈ hold_purposes (UsageRecord.OperationID record) w0.2 ->
     deterministicPricingEvaluationID record p = deterministicPricingEvaluationID record q -> p = q) ->
  NoDup (PricingEvaluation.ID <$> UsageSettlement.Evaluations settlement).
Proof.
  intros Hw0 H0 Hrun [h0 Eh0] Hinj. destruct (evolve_ok _ _ H0 Hw0) as (Hw & _).
  destruct (build_built _ _ _ _ Hw Hrun) as (o & hold & prices & m1 & m2 & m3 & [H1 H2 H3 H4 Eo _ Eh Hall Es]).
  destruct (evolve_ok _ _ H1 Hw) as (O1 & _). destruct (evolve_ok _ _ H2 O1) as (O2 & _).
  destruct (evolve_ok _ _ H3 O2) as (O3 & _).
  assert (R2 : evolve w0 m2) by (do 2 (etransitivity; [eassumption|]); done). assert (R3 : evolve w0 m3) by by etransitivity.
  destruct (evolve_ok _ _ R3 Hw0) as (_ & _ & K3).
  destruct (found_later _ _ _ _ Hw0 R2 Eh0) as (Hh0 & h2 & Hh2 & Eop).
  assert (Eid : BillingHold.ID h2 = BillingHold.ID h0) by apply (holds_keys _ (basis_holds _ (world_billing _ O2)) _ _ Hh2).
  assert (Eh2 : FindBillingHoldByOperationID (UsageRecord.OperationID record) m2.2 = Some h2)
    by (apply memoryHold_spec; [apply O2|by rewrite Eid]).
  assert (hold = h2) as -> by congruence.
  destruct (hold_prices w0.2 (BillingHold.ID h0) (world_billing _ Hw0) Hh0) as (Hnd & _).
  pose proof (hold_prices_kept w0.2 m3.2 (BillingHold.ID h0) (world_billing _ Hw0) (world_billing _ O3) K3 Hh0) as Ev.
  assert (Ep : prices.*1 = hold_purposes (UsageRecord.OperationID record) w0.2).
  { unfold hold_purposes. rewrite Eh0, <- Ev, <- Eid. clear -Hall.
    induction Hall as [|v price versions prices Hv _ IH]; cbn; [done|]. f_equal; [|exact IH].
    unfold fixed_price in Hv. destruct (pricingRuleVersions _ !! _) as [v0|]; [|done]. cbn in Hv.
    by destruct (is_published v0); [injection Hv as <-|]. }
  destruct (settlement_parts _ _ _ _ _ _ _ _ _ _ _ Es) as (_ & -> & _).
  assert (E : PricingEvaluation.ID <$> map (evaluation_of record (pricingFactsFromUsage o record)) prices =
    deterministicPricingEvaluationID record <$> prices.*1).
  { clear. induction prices as [|price prices IH]; cbn; [done|]. by rewrite evaluation_id, <- IH. }
  rewrite E, Ep. apply NoDup_fmap_2_strong; [exact Hinj|]. unfold hold_purposes. by rewrite Eh0.
Qed.

Lemma built_entries record w w1 settlement : world_ok w -> runs (build record) w (Ok settlement) w1 ->
  NoDup (PricingEvaluation.ID <$> UsageSettlement.Evaluations settlement) ->
  NoDup (BillingLedgerEntry.ID <$> UsageSettlement.Ledgers settlement).
Proof.
  intros Hw Hrun Hnd. destruct (build_built _ _ _ _ Hw Hrun) as (o & hold & prices & m1 & m2 & m3 & [_ _ _ _ _ _ _ _ Es]).
  destruct (settlement_parts _ _ _ _ _ _ _ _ _ _ _ Es) as (_ & Ee & ->). rewrite Ee in Hnd. by apply ledger_ids.
Qed.

(** ** Property *)

(** Usage is billed once.  When a settlement has been built among other calls
    and applied, then whatever happened before, between or since, building the
    settlement of the same usage again among other calls, started at any time,
    gives entries of the same content if it gives an answer - which it does when it
    starts after the first was built - and applying it reports that it is known
    and changes nothing. *)
Theorem usage_billed_once record record' w w1 a r1 w' w1' b settlement x :
  (forall m, exists text, MarshalDimensions m = Ok text) ->
  world_ok w -> runs (build record) w (Ok settlement) w1 ->
  NoDup (PricingEvaluation.ID <$> UsageSettlement.Evaluations settlement) ->
  evolve w1 a -> Apply settlement a.2 = (Ok true, r1) -> evolve (a.1, r1) b ->
  same_usage record record' ->
  world_ok w' -> runs (build record') w' x w1' -> evolve w1' b ->
  (evolve w1 w' -> exists again, x = Ok again) /\
  (forall again, x = Ok again ->
     Forall2 (fun e e' => sameBillingLedgerContent e e' = true) (UsageSettlement.Ledgers settlement) (UsageSettlement.Ledgers again) /\
     Apply again b.2 = (Ok false, b.2)).
Proof. apply billed_again. Qed.
End Runs.

(** *** The books *)

Section Books.
Context `{range : MapRange} `{unicode : UnicodeCase} `{json : JSONText}.
Context (MarshalDimensions : gmap string UsageDimension -> result go_error string).

Lemma new_billing_ok : billing_ok NewMemoryRepository.
Proof.
  split; try apply keyed_empty.
  - split; [intros k h Hh|intros k1 k2 h1 h2 Hh]; cbn in Hh; by rewrite lookup_empty in Hh.
  - intros id [h Hh]. cbn in Hh. by rewrite lookup_empty in Hh.
Qed.

Lemma steps_sound r r' : rtc (repository_step MarshalDimensions) r r' -> billing_ok r -> sound_at r r'.
Proof.
  induction 1 as [r|r1 r2 r3 H1 _ IH]; intros Hr; [by apply sound_refl|].
  eapply sound_trans; [by eapply repository_step_sound|exact IH].
Qed.

(** The books only grow: whatever operations run, an entry of the ledger and
    a usage record stay as they are; and what is billed by stays: what an operation
    does, which operation an attempt or a hold belongs to, and the prices a hold
    has fixed, of which there are no more and no fewer later. *)
Theorem books_kept r r' :
  rtc (repository_step MarshalDimensions) NewMemoryRepository r -> rtc (repository_step MarshalDimensions) r r' ->
  kept r r'.
Proof.
  intros H H'. destruct (steps_sound _ _ H new_billing_ok) as [Hr _]. by destruct (steps_sound _ _ H' Hr).
Qed.
End Books.

(** ** Witnesses *)

(** A run that nobody interrupts. *)
Lemma runs_alone `{range : MapRange} `{unicode : UnicodeCase} `{json : JSONText} {VMProgram}
    Parse (CompileExpr : string -> result string VMProgram) Run wrap render Marshal MarshalDimensions
    {A} (p : prog MemoryRepository A) w : (run_in p w).2.1 <= max_int64 ->
  runs Parse CompileExpr Run wrap render Marshal MarshalDimensions p w (run_in p w).1 (run_in p w).2.
Proof.
  revert w. induction p as [a|X act k IH]; intros w Hb; cbn [runs run_in]; [split; [done|apply rtc_refl]|].
  exists w. split; [apply rtc_refl|]. destruct (after act w) as [x w1] eqn:Ea. cbn [run_in] in Hb. rewrite Ea in Hb.
  split; [|by apply IH]. pose proof (run_in_clock (k x) w1) as Hc. unfold after in Ea. injection Ea as _ <-. cbn in *. lia.
Qed.

Module Demo.
#[local] Existing Instance canonical_range.
#[local] Existing Instance PricingService.Demo.no_lower.
#[local] Existing Instance PricingService.Demo.no_upper.
#[local] Existing Instance UsagePricing.Demo.no_escapes.

Notation build := (buildUsageSettlement PricingService.Demo.parse PricingService.Demo.compile
  PricingService.Demo.run PricingService.Demo.wrap PricingService.Demo.show PricingService.Demo.marshal
  UsagePricing.Demo.marshal_dimensions).
Notation evolves := (evolves PricingService.Demo.parse PricingService.Demo.compile PricingService.Demo.run
  PricingService.Demo.wrap PricingService.Demo.show PricingService.Demo.marshal UsagePricing.Demo.marshal_dimensions).
Notation world_ok := (world_ok PricingService.Demo.parse PricingService.Demo.compile PricingService.Demo.run
  PricingService.Demo.wrap PricingService.Demo.show PricingService.Demo.marshal).
Notation runs := (runs PricingService.Demo.parse PricingService.Demo.compile PricingService.Demo.run
  PricingService.Demo.wrap PricingService.Demo.show PricingService.Demo.marshal UsagePricing.Demo.marshal_dimensions).
Notation step := (repository_step UsagePricing.Demo.marshal_dimensions).

(** An operation is admitted with the hold that [HoldEstimate.Demo] has prepared,
    and its usage is settled, twice. *)
Definition admission : BillingHoldAdmission.t :=
  match HoldEstimate.Demo.prepared.1 with Ok a => a | Err _ => BillingHoldAdmission.zero end.
Notation opening := (CreateAIOperationWithBillingHold HoldEstimate.Demo.operation admission).
Definition published : Z * MemoryRepository := world PricingService.Demo.P2.
Definition admitted : Z * MemoryRepository := (published.1, (opening published.2).2).
Definition record : UsageRecord.t :=
  UsagePricing.Demo.record <| UsageRecord.CreatedAt := 719162 * day + 5 |>.
Definition later_record : UsageRecord.t :=
  record <| UsageRecord.LatencyMS := 20 |> <| UsageRecord.CreatedAt := 719162 * day + 9 |>.

Definition built := run_in (build record) admitted.
Definition settlement : UsageSettlement.t :=
  match built.1 with Ok s => s | Err _ => UsageSettlement.zero end.
Definition applied := ApplyUsageSettlement UsagePricing.Demo.marshal_dimensions settlement built.2.2.
Definition after_first : Z * MemoryRepository := (built.2.1, applied.2).
Definition rebuilt := run_in (build later_record) after_first.
Definition again : UsageSettlement.t :=
  match rebuilt.1 with Ok s => s | Err _ => UsageSettlement.zero end.

Example settles :
  built.1 = Ok settlement /\ applied.1 = Ok true /\ rebuilt.1 = Ok again /\
  length (UsageSettlement.Ledgers settlement) = 1%nat /\
  UsageRecord.PricingStatus (UsageSettlement.Record settlement) = "free"%string.
Proof. vm_compute. split_and!; reflexivity. Qed.

Lemma published_ok : world_ok published.
Proof.
  split.
  - apply (pool_world _ _ _ _ _ (pool_reachable_ok _ _ _ _ _ _ _ PricingService.Demo.steps_to_2)).
  - apply (ok_core NewMemoryRepository); [by vm_compute|apply new_repository_ok].
  - apply (sound_same NewMemoryRepository); [apply new_billing_ok|by vm_compute].
Qed.

Lemma fresh_admission : fresh_hold admission.
Proof. by vm_compute. Qed.

Lemma admits o a r : fresh_hold a -> step r (CreateAIOperationWithBillingHold o a r).2.
Proof.
  intros H. destruct (CreateAIOperationWithBillingHold o a r) as [x r'] eqn:E.
  by eapply Step_CreateAIOperationWithBillingHold.
Qed.

Lemma applies s r : NoDup (BillingLedgerEntry.ID <$> UsageSettlement.Ledgers s) ->
  step r (ApplyUsageSettlement UsagePricing.Demo.marshal_dimensions s r).2.
Proof.
  intros Hs. destruct (ApplyUsageSettlement UsagePricing.Demo.marshal_dimensions s r) as [x r'] eqn:E.
  by eapply Step_ApplyUsageSettlement.
Qed.

Lemma one_entry : NoDup (BillingLedgerEntry.ID <$> UsageSettlement.Ledgers settlement).
Proof. vm_compute. apply NoDup_singleton. Qed.

Lemma steps_evolve (w : Z * MemoryRepository) r : step w.2 r -> evolves w (w.1, r).
Proof. destruct w. by apply Evolve_repository. Qed.

Lemma admitted_ok : world_ok admitted.
Proof.
  exact (proj1 (evolves_ok _ _ _ _ _ _ _ _ _ (steps_evolve published _ (admits _ _ _ fresh_admission)) published_ok)).
Qed.
End Demo.

#[local] Existing Instance canonical_range.
#[local] Existing Instance PricingService.Demo.no_lower.
#[local] Existing Instance UsagePricing.Demo.no_escapes.

Lemma usage_billed_once_witness :
  (rtc Demo.evolves Demo.built.2 Demo.after_first -> exists again, Ok (E := service_error) Demo.again = Ok again) /\
  (forall again, Ok (E := service_error) Demo.again = Ok again ->
     Forall2 (fun e e' => sameBillingLedgerContent e e' = true)
       (UsageSettlement.Ledgers Demo.settlement) (UsageSettlement.Ledgers again) /\
     ApplyUsageSettlement UsagePricing.Demo.marshal_dimensions again Demo.rebuilt.2.2 = (Ok false, Demo.rebuilt.2.2)).
Proof.
  destruct Demo.settles as (Eb & Ea & Er & _).
  assert (H1 : Demo.runs (Demo.build Demo.record) Demo.admitted (Ok Demo.settlement) Demo.built.2)
    by (rewrite <- Eb; apply runs_alone; vm_compute; discriminate).
  assert (H2 : Demo.runs (Demo.build Demo.later_record) Demo.after_first (Ok Demo.again) Demo.rebuilt.2)
    by (rewrite <- Er; apply runs_alone; vm_compute; discriminate).
  assert (O1 : Demo.world_ok Demo.built.2) by (apply (build_keeps _ _ _ _ _ _ _ _ _ _ _ Demo.admitted_ok H1)).
  assert (O2 : Demo.world_ok Demo.after_first) by (exact (proj1 (evolves_ok _ _ _ _ _ _ _ _ _ (Demo.steps_evolve _ _ (Demo.applies _ _ Demo.one_entry)) O1))).
  apply (usage_billed_once _ _ _ _ _ _ UsagePricing.Demo.marshal_dimensions Demo.record Demo.later_record
    Demo.admitted Demo.built.2 Demo.built.2 Demo.applied.2 Demo.after_first Demo.rebuilt.2 Demo.rebuilt.2
    Demo.settlement (Ok Demo.again));
    [by eexists|apply Demo.admitted_ok|exact H1|vm_compute; apply NoDup_singleton|apply rtc_refl
    |rewrite <- Ea; apply surjective_pairing
    |apply (build_evolves _ _ _ _ _ _ _ _ _ _ _ O2 H2)|by split|exact O2|exact H2|apply rtc_refl].
Defined.

Lemma books_kept_witness :
  kept (CreateAIOperationWithBillingHold HoldEstimate.Demo.operation Demo.admission NewMemoryRepository).2
    (ApplyUsageSettlement UsagePricing.Demo.marshal_dimensions Demo.settlement
      (CreateAIOperationWithBillingHold HoldEstimate.Demo.operation Demo.admission NewMemoryRepository).2).2.
Proof.
  apply (books_kept UsagePricing.Demo.marshal_dimensions);
    apply rtc_once; [apply Demo.admits, Demo.fresh_admission|apply Demo.applies, Demo.one_entry].
Defined.
