(* ===== verification/UsageRecording.v ===== *)
(** * Recording usage

    [RecordGatewayUsage] of [service.go] with the estimate of what the provider
    charges ([effective_pricing_usage.go], [effective_pricing_service.go]), and the
    calls of [operation_usage.go] that end in it.  The record is made, priced and
    applied as a program over the repository ([record_usage]); the alerts that
    follow run over the state of the service. *)

From S2P Require Import Prelude Threads Sha256 Calendar Float64 Canonical AccessModel RoutingModel Service GatewayPolicy APIKeys RoutingPrices UsageDimensions Repository PricingMoney PricingRule PricingEval UsageQueries Alerts JobModel Attempts Dispatch BillingHolds Settlement System PricingCatalog PricingService UsagePricing HoldEstimate UsageBilling.
From Stdlib Require Import Floats.SpecFloat.

Definition ProcurementCostConfidenceExact := "exact"%string.
Definition ProcurementCostConfidenceDerived := "derived"%string.
Definition ProcurementCostConfidenceEstimated := "estimated"%string.
Definition ProcurementCostConfidenceUnallocated := "unallocated"%string.
Definition ProcurementCostConfidenceUnknown := "unknown"%string.

Definition ProviderBillingStatusUnknown := "unknown"%string.
Definition ProviderBillingStatusPending := "pending"%string.
Definition ProviderBillingStatusFinal := "final"%string.
Definition ProviderBillingStatusNotCharged := "not_charged"%string.

Definition ArtifactRoleFinal := "final"%string.

Definition ErrProviderBillingObservationInvalid : go_error := ErrNew "provider billing observation is invalid".

Module GatewayUsageInput.
Record t := mk {
  OperationID : string;
  AttemptID : string;
  UsageVersion : Z;
  UsageSource : string;
  RequestFingerprint : string;
  Model : string;
  UpstreamModel : string;
  Protocol : string;
  ProviderID : string;
  ProviderAccountID : string;
  Status : string;
  ErrorType : string;
  LatencyMS : Z;
  TTFTMS : option Z;
  InputTokens : Z;
  OutputTokens : Z;
  TotalInputTokens : option Z;
  UncachedInputTokens : option Z;
  CacheReadTokens : option Z;
  CacheWrite5mTokens : option Z;
  CacheWrite1hTokens : option Z;
  CacheFieldsPresent : bool;
  UsageDimensions : gmap string UsageDimension;
  UsageNormalizationStatus : string;
  UpstreamRequestID : string;
  ProcurementCostMicros : option Z;
  ProcurementCostCurrency : string;
  ProcurementCostSource : string;
  ProcurementCostConfidence : string;
  ProcurementPriceID : string;
  ProviderBillingLineID : string;
  SkipProcurementCostEstimate : bool;
}.
#[export] Instance settable : Settable t := fun r => mk
  (OperationID r) (AttemptID r) (UsageVersion r) (UsageSource r) (RequestFingerprint r) (Model r)
  (UpstreamModel r) (Protocol r) (ProviderID r) (ProviderAccountID r) (Status r) (ErrorType r)
  (LatencyMS r) (TTFTMS r) (InputTokens r) (OutputTokens r) (TotalInputTokens r)
  (UncachedInputTokens r) (CacheReadTokens r) (CacheWrite5mTokens r) (CacheWrite1hTokens r)
  (CacheFieldsPresent r) (UsageDimensions r) (UsageNormalizationStatus r) (UpstreamRequestID r)
  (ProcurementCostMicros r) (ProcurementCostCurrency r) (ProcurementCostSource r)
  (ProcurementCostConfidence r) (ProcurementPriceID r) (ProviderBillingLineID r)
  (SkipProcurementCostEstimate r).
Definition zero : t := mk
  "" "" 0 "" "" "" "" "" "" "" "" "" 0 None 0 0 None None None None None false ∅ "" "" None "" "" ""
  "" "" false.
End GatewayUsageInput.
Export (hints) GatewayUsageInput.

Notation usage_input := GatewayUsageInput.t (only parsing).

(** ** The estimate of the provider's price *)

Module gatewayProcurementCostEstimate.
Record t := mk {
  CostMicros : Z;
  Currency : string;
  Source : string;
  Confidence : string;
  PriceID : string;
}.
End gatewayProcurementCostEstimate.

Definition nonNegativeIntPointer (value : option Z) : option Z := option_map nonNegative value.
Definition nonNegativeInt64Pointer (value : option Z) : option Z := option_map nonNegativeInt64 value.

Definition tokenCostMicros (tokens microsPerMillion : Z) : option Z :=
  if (tokens <? 0) || (microsPerMillion <? 0) then None
  else if (tokens =? 0) || (microsPerMillion =? 0) then Some 0
  else if tokens >? Z.quot max_int64 microsPerMillion then None
  else
    let product := wrap64 (tokens * microsPerMillion) in
    if product >? max_int64 - 500000 then None
    else Some (Z.quot (product +i 500000) 1000000).

Definition normalizedRechargeMultiplier (multiplier : float64) : float64 :=
  if fleb multiplier float_zero then float_one else multiplier.

Definition unbounded (x : float64) : bool := match x with S754_nan | S754_infinity _ => true | _ => false end.

Definition applyRechargeMultiplier (costMicros : Z) (multiplier : float64) : option Z :=
  if costMicros <? 0 then None
  else
    let adjusted := fmul (of_int costMicros) (normalizedRechargeMultiplier multiplier) in
    if unbounded adjusted || fltb (of_int max_int64) adjusted then None
    else Some (to_int64 (round_int adjusted)).

(** A price that holds for the usage at that time. *)
Definition price_applies (input : usage_input) (at_ : time) (price : ProcurementPrice.t) : bool :=
  let providerID := TrimSpace (GatewayUsageInput.ProviderID input) in
  (ProcurementPrice.Status price =s ProcurementPriceStatusActive)
  && (ProcurementPrice.ProviderAccountID price =s TrimSpace (GatewayUsageInput.ProviderAccountID input))
  && (ProcurementPrice.UpstreamModel price =s TrimSpace (GatewayUsageInput.UpstreamModel input))
  && (ProcurementPrice.Protocol price =s TrimSpace (GatewayUsageInput.Protocol input))
  && negb ((providerID <>s "") && (ProcurementPrice.ProviderID price <>s providerID))
  && negb (After (ProcurementPrice.EffectiveFrom price) at_)
  && match ProcurementPrice.ExpiresAt price with None => true | Some expires => After expires at_ end.

Definition activeProcurementPrice (prices : list ProcurementPrice.t) (input : usage_input) (at_ : time)
    : option ProcurementPrice.t :=
  foldl (fun selected price =>
      if price_applies input at_ price
         && match selected with
            | None => true
            | Some s => After (ProcurementPrice.EffectiveFrom price) (ProcurementPrice.EffectiveFrom s)
            end
      then Some price else selected)
    None prices.

(** The rounds of the loop over the components. *)
Definition add_component (cost : option Z) (component : Z * Z) : option Z :=
  costMicros ← cost;
  value ← tokenCostMicros component.1 component.2;
  if value >? (max_int64 -i costMicros) then None else Some (costMicros +i value).

Definition cost_components (price : ProcurementPrice.t) (input : usage_input) : list (Z * Z) :=
  let totalInputTokens := match GatewayUsageInput.TotalInputTokens input with
    | Some total => nonNegative total
    | None => nonNegative (GatewayUsageInput.InputTokens input)
    end in
  let present := GatewayUsageInput.CacheFieldsPresent input in
  let tokens (fallback : Z) (value : option Z) :=
    if present then match value with Some n => nonNegative n | None => fallback end else fallback in
  [(tokens totalInputTokens (GatewayUsageInput.UncachedInputTokens input),
      ProcurementPrice.UncachedInputMicrosPer1MTokens price);
   (tokens 0 (GatewayUsageInput.CacheReadTokens input), ProcurementPrice.CacheReadMicrosPer1MTokens price);
   (tokens 0 (GatewayUsageInput.CacheWrite5mTokens input), ProcurementPrice.CacheWrite5mMicrosPer1MTokens price);
   (tokens 0 (GatewayUsageInput.CacheWrite1hTokens input), ProcurementPrice.CacheWrite1hMicrosPer1MTokens price);
   (nonNegative (GatewayUsageInput.OutputTokens input), ProcurementPrice.OutputMicrosPer1MTokens price)].

Section Recording.
Context `{range : MapRange} `{unicode : UnicodeCase} `{upper : UnicodeUpper} `{json : JSONText}.
Context {VMProgram : Type}.
Context (Parse : string -> result string Node) (CompileExpr : string -> result string VMProgram).
Context (Run : VMProgram -> gmap string value -> script) (wrapCallError : Error -> run_error).
Context (render : message -> string) (Marshal : Facts -> result string string).
Context (MarshalDimensions : gmap string UsageDimension -> result go_error string).

Definition estimate_at_price (price : ProcurementPrice.t) (input : usage_input)
    : option gatewayProcurementCostEstimate.t :=
  costMicros ← foldl add_component (Some (ProcurementPrice.RequestMicros price)) (cost_components price input);
  costMicros ← applyRechargeMultiplier costMicros (ProcurementPrice.RechargeMultiplier price);
  let confidence := TrimSpace (ProcurementPrice.Confidence price) in
  let currency := ToUpper (TrimSpace (ProcurementPrice.Currency price)) in
  Some (gatewayProcurementCostEstimate.mk costMicros
    (if currency =s "" then "USD"%string else currency) "procurement_price"
    (if confidence =s "" then ProcurementCostConfidenceEstimated else confidence)
    (ProcurementPrice.ID price)).

Definition estimateGatewayProcurementCost (input : usage_input) (at_ : time)
    : srv (option gatewayProcurementCostEstimate.t) :=
  if (TrimSpace (GatewayUsageInput.ProviderAccountID input) =s "")
     || (TrimSpace (GatewayUsageInput.UpstreamModel input) =s "")
     || (TrimSpace (GatewayUsageInput.Protocol input) =s "")
  then mret None
  else
    prices ← query ListProcurementPrices;
    mret (price ← activeProcurementPrice prices input at_; estimate_at_price price input).

(** ** The record *)

Definition normalizeUsageLedgerInput (input : usage_input) : usage_input :=
  if GatewayUsageInput.OperationID input =s "" then input
  else
    let input := if GatewayUsageInput.UsageVersion input <=? 0
                 then input <| GatewayUsageInput.UsageVersion := 1 |> else input in
    if TrimSpace (GatewayUsageInput.UsageSource input) =s ""
    then input <| GatewayUsageInput.UsageSource := "gateway_final"%string |> else input.

Definition applyGatewayPlatformSnapshotToUsage (record : UsageRecord.t) (auth : GatewayAuthContext.t) : UsageRecord.t :=
  match GatewayAuthContext.Application auth, GatewayAuthContext.GatewayPrincipal auth with
  | Some application, Some principal =>
      let record := record
        <| UsageRecord.ApplicationID := Application.ID application |>
        <| UsageRecord.ApplicationName := Application.Name application |>
        <| UsageRecord.GatewayPrincipalID := GatewayPrincipal.ID principal |>
        <| UsageRecord.GatewayPrincipalName := GatewayPrincipal.Name principal |> in
      match GatewayAuthContext.ExternalAuthIntegration auth with
      | Some integration => record
          <| UsageRecord.ExternalAuthIntegrationID := ExternalAuthIntegration.ID integration |>
          <| UsageRecord.ExternalSubjectReference := GatewayAuthContext.ExternalSubjectReference auth |>
      | None => record
      end
  | _, _ => record
  end.

(** The procurement the input names, or the estimate. *)
Record procurement := mkProcurement {
  cost_micros : option Z;
  cost_currency : string;
  cost_source : string;
  cost_confidence : string;
  price_id : string;
}.
Definition named_procurement (input : usage_input) : procurement := mkProcurement
  (nonNegativeInt64Pointer (GatewayUsageInput.ProcurementCostMicros input))
  (ToUpper (TrimSpace (GatewayUsageInput.ProcurementCostCurrency input)))
  (TrimSpace (GatewayUsageInput.ProcurementCostSource input))
  (TrimSpace (GatewayUsageInput.ProcurementCostConfidence input))
  (TrimSpace (GatewayUsageInput.ProcurementPriceID input)).

Definition procurement_of (input : usage_input) (at_ : time) : srv procurement :=
  let named := named_procurement input in
  match cost_micros named with
  | Some _ => mret named
  | None =>
      if GatewayUsageInput.SkipProcurementCostEstimate input then mret named
      else
        estimate ← estimateGatewayProcurementCost input at_;
        mret match estimate with
             | Some e => mkProcurement (Some (gatewayProcurementCostEstimate.CostMicros e))
                 (gatewayProcurementCostEstimate.Currency e) (gatewayProcurementCostEstimate.Source e)
                 (gatewayProcurementCostEstimate.Confidence e) (gatewayProcurementCostEstimate.PriceID e)
             | None => named
             end
  end.

Definition or_else (value fallback : string) : string := if value =s "" then fallback else value.

(** The record before its platform snapshot and its identity. *)
Definition usage_record (auth : GatewayAuthContext.t) (input : usage_input) (cost : procurement)
    (usageDimensions : gmap string UsageDimension) (random : string) (now : time) : UsageRecord.t :=
  {| UsageRecord.ID := ("usage_" +:+ random)%string;
     UsageRecord.OperationID := TrimSpace (GatewayUsageInput.OperationID input);
     UsageRecord.AttemptID := TrimSpace (GatewayUsageInput.AttemptID input);
     UsageRecord.UsageVersion := GatewayUsageInput.UsageVersion input;
     UsageRecord.UsageSource := TrimSpace (GatewayUsageInput.UsageSource input);
     UsageRecord.RequestFingerprint := TrimSpace (GatewayUsageInput.RequestFingerprint input);
     UsageRecord.APIKeyID := APIKeyRecord.ID (GatewayAuthContext.APIKey auth);
     UsageRecord.ApplicationID := "";
     UsageRecord.ApplicationName := "";
     UsageRecord.GatewayPrincipalID := "";
     UsageRecord.GatewayPrincipalName := "";
     UsageRecord.ExternalAuthIntegrationID := "";
     UsageRecord.ExternalSubjectReference := "";
     UsageRecord.APIFingerprint := APIKeyRecord.Fingerprint (GatewayAuthContext.APIKey auth);
     UsageRecord.Model := TrimSpace (GatewayUsageInput.Model input);
     UsageRecord.UpstreamModel := TrimSpace (GatewayUsageInput.UpstreamModel input);
     UsageRecord.Protocol := TrimSpace (GatewayUsageInput.Protocol input);
     UsageRecord.ProviderID := TrimSpace (GatewayUsageInput.ProviderID input);
     UsageRecord.ProviderAccountID := TrimSpace (GatewayUsageInput.ProviderAccountID input);
     UsageRecord.Status := or_else (TrimSpace (GatewayUsageInput.Status input)) "accepted";
     UsageRecord.ErrorType := TrimSpace (GatewayUsageInput.ErrorType input);
     UsageRecord.LatencyMS := GatewayUsageInput.LatencyMS input;
     UsageRecord.TTFTMS := nonNegativeInt64Pointer (GatewayUsageInput.TTFTMS input);
     UsageRecord.InputTokens := nonNegative (GatewayUsageInput.InputTokens input);
     UsageRecord.OutputTokens := nonNegative (GatewayUsageInput.OutputTokens input);
     UsageRecord.TotalInputTokens := nonNegativeIntPointer (GatewayUsageInput.TotalInputTokens input);
     UsageRecord.UncachedInputTokens := nonNegativeIntPointer (GatewayUsageInput.UncachedInputTokens input);
     UsageRecord.CacheReadTokens := nonNegativeIntPointer (GatewayUsageInput.CacheReadTokens input);
     UsageRecord.CacheWrite5mTokens := nonNegativeIntPointer (GatewayUsageInput.CacheWrite5mTokens input);
     UsageRecord.CacheWrite1hTokens := nonNegativeIntPointer (GatewayUsageInput.CacheWrite1hTokens input);
     UsageRecord.CacheFieldsPresent := GatewayUsageInput.CacheFieldsPresent input;
     UsageRecord.UsageDimensions := usageDimensions;
     UsageRecord.UsageNormalizationStatus := or_else (TrimSpace (GatewayUsageInput.UsageNormalizationStatus input)) "unknown";
     UsageRecord.UpstreamRequestID := TrimSpace (GatewayUsageInput.UpstreamRequestID input);
     UsageRecord.ProcurementCostMicros := cost_micros cost;
     UsageRecord.ProcurementCostCurrency := cost_currency cost;
     UsageRecord.ProcurementCostSource := or_else (cost_source cost) "unknown";
     UsageRecord.ProcurementCostConfidence := or_else (cost_confidence cost) ProcurementCostConfidenceUnknown;
     UsageRecord.ProcurementPriceID := price_id cost;
     UsageRecord.ProviderBillingLineID := TrimSpace (GatewayUsageInput.ProviderBillingLineID input);
     UsageRecord.UsageCostMicros := None;
     UsageRecord.UsageCostCurrency := CurrencyUSD;
     UsageRecord.UsagePricingEvaluationID := "";
     UsageRecord.PricingStatus := "unpriced";
     UsageRecord.CreatedAt := now |}%string.

(** A record of an operation is identified by what it records. *)
Definition identified (record : UsageRecord.t) : UsageRecord.t :=
  if UsageRecord.OperationID record <>s ""
  then record <| UsageRecord.ID := ("usage_" +:+ usageLedgerDigest record)%string |> else record.

(** [x, err := f(...); if err != nil { return err }] for a pure [f] *)
Definition lifted {A} (x : result go_error A) : srv A :=
  Ret (match x with Ok a => Ok a | Err e => Err (Plain e) end).

Notation build := (buildUsageSettlement Parse CompileExpr Run wrapCallError render Marshal MarshalDimensions).
Notation Apply := (ApplyUsageSettlement MarshalDimensions).

(** The record made, priced and stored: the record as it is stored, and whether it
    was new.  [estimated_at] and [now] are two readings of the clock. *)
Definition prepared_record (auth : GatewayAuthContext.t) (input : usage_input) (random : string)
    (estimated_at now : time) : srv UsageRecord.t :=
  let input := normalizeUsageLedgerInput input in
  cost ← procurement_of input estimated_at;
  usageDimensions ← lifted (NormalizeUsageDimensions (GatewayUsageInput.UsageDimensions input));
  mret (identified (applyGatewayPlatformSnapshotToUsage (usage_record auth input cost usageDimensions random now) auth)).

Definition record_usage (auth : GatewayAuthContext.t) (input : usage_input) (random : string)
    (estimated_at now : time) : srv (UsageRecord.t * bool) :=
  record ← prepared_record auth input random estimated_at now;
  if UsageRecord.OperationID record =s "" then
    _ ← call (SaveUsageRecord record); mret (record, true)
  else
    settlement ← build record;
    applied ← call (Apply settlement);
    mret (UsageSettlement.Record settlement, applied).

(** ** The service *)

(** A program of the repository, run by the service. *)
Fixpoint on_service {A} (p : prog MemoryRepository A) : prog service_state A :=
  match p with
  | Ret a => Ret a
  | Atomic act k =>
      Atomic (fun s => let '(x, r) := act (Service.repository s) in (x, s <| Service.repository := r |>))
        (fun x => on_service (k x))
  end.

(** [_ = s.sync...(...)]: what it hands to the dispatcher. *)
Definition dispatched (p : serv (option AlertEvent.t)) : prog service_state (list AlertEvent.t) :=
  prog_bind p (fun x => Ret (match x with Ok (Some event) => [event] | _ => [] end)).
Definition if_due (due : bool) (p : serv (option AlertEvent.t)) : prog service_state (list AlertEvent.t) :=
  if due then dispatched p else Ret [].

(** The random identifiers of a call. *)
Record usage_draws := mkUsageDraws {
  record_random : string;
  quota_random : string;
  budget_random : string;
  rate_random : string;
}.

Definition usage_alerts (auth : GatewayAuthContext.t) (input : usage_input) (record : UsageRecord.t) (d : usage_draws)
    : prog service_state (list AlertEvent.t) :=
  prog_bind (if_due ((effectiveMonthlyTokenLimit auth >? 0)
      && ((GatewayUsageInput.InputTokens input >? 0) || (GatewayUsageInput.OutputTokens input >? 0)))
    (syncAPIKeyQuotaAlertForAuth auth (UsageRecord.CreatedAt record) (quota_random d))) (fun quota =>
  prog_bind (if_due ((effectiveMonthlyBudgetMicros auth >? 0)
      && match UsageRecord.UsageCostMicros record with Some cost => cost >? 0 | None => false end)
    (syncAPIKeyBudgetAlertForAuth auth (UsageRecord.CreatedAt record) (budget_random d))) (fun budget =>
  prog_bind (dispatched (syncGatewayErrorRateAlert auth (rate_random d))) (fun rate =>
  Ret (quota ++ budget ++ rate)))).

(** The answer is what is handed to the dispatcher of alerts. *)
Definition RecordGatewayUsage (auth : GatewayAuthContext.t) (input : usage_input) (d : usage_draws)
    (estimated_at now : time) : prog service_state (result service_error (list AlertEvent.t)) :=
  prog_bind (on_service (record_usage auth input (record_random d) estimated_at now)) (fun x =>
  match x with
  | Err e => Ret (Err e)
  | Ok (record, applied) =>
      if applied : bool
      then prog_bind (usage_alerts auth input record d) (fun alerts => Ret (Ok alerts))
      else Ret (Ok [])
  end).

(** ** Usage of operations ([operation_usage.go]) *)

Definition integration_less (i j : ExternalAuthIntegration.t) : bool :=
  if ExternalAuthIntegration.CreatedAt i =? ExternalAuthIntegration.CreatedAt j
  then str_ltb (ExternalAuthIntegration.Name i) (ExternalAuthIntegration.Name j)
  else Before (ExternalAuthIntegration.CreatedAt i) (ExternalAuthIntegration.CreatedAt j).
Definition ListExternalAuthIntegrations (r : MemoryRepository) : list ExternalAuthIntegration.t :=
  sort_by integration_less (map_values (externalAuthIntegrations r)).

Definition operationApplicationIdentity (operation : AIOperation.t) : srv (Application.t * GatewayPrincipal.t) :=
  let applicationID := AIOperation.ApplicationID operation in
  applications ← query ListApplications;
  principals ← query ListGatewayPrincipals;
  mret (default (Application.zero <| Application.ID := applicationID |> <| Application.Name := applicationID |>)
          (List.find (fun candidate => Application.ID candidate =s applicationID) applications),
        default (GatewayPrincipal.zero
            <| GatewayPrincipal.ID := AIOperation.PrincipalID operation |>
            <| GatewayPrincipal.ApplicationID := applicationID |>
            <| GatewayPrincipal.Name := AIOperation.PrincipalID operation |>
            <| GatewayPrincipal.PrincipalType := AIOperation.PrincipalType operation |>)
          (List.find (fun candidate => (GatewayPrincipal.ID candidate =s AIOperation.PrincipalID operation)
             && (GatewayPrincipal.ApplicationID candidate =s applicationID)) principals)).

Definition operationExternalAuthIntegration (id : string) : srv ExternalAuthIntegration.t :=
  integrations ← query ListExternalAuthIntegrations;
  mret (default (ExternalAuthIntegration.zero <| ExternalAuthIntegration.ID := id |>)
    (List.find (fun integration => ExternalAuthIntegration.ID integration =s id) integrations)).

(** The key an operation was admitted with, as it is now. *)
Definition operation_key (operation : AIOperation.t) : srv APIKeyRecord.t :=
  let fallback := prefix (hashAPIKey (AIOperation.CredentialID operation)) 12 in
  let key := APIKeyRecord.zero
    <| APIKeyRecord.ID := AIOperation.CredentialID operation |>
    <| APIKeyRecord.Name := "Operation credential"%string |>
    <| APIKeyRecord.Fingerprint := fallback |>
    <| APIKeyRecord.ApplicationID := AIOperation.ApplicationID operation |>
    <| APIKeyRecord.PrincipalType := AIOperation.PrincipalType operation |>
    <| APIKeyRecord.PrincipalReference := AIOperation.PrincipalID operation |> in
  key ← (if AIOperation.CredentialSource operation =s CredentialSourceAPIKey
         then keys ← query ListAPIKeys;
              mret (default key (List.find (fun candidate => APIKeyRecord.ID candidate =s AIOperation.CredentialID operation) keys))
         else if oneOf (AIOperation.CredentialSource operation) [CredentialSourceHMACContext; CredentialSourceJWTJWKS]
         then mret key
         else throw (ErrFmt "unsupported operation credential source %q" [FmtStr (AIOperation.CredentialSource operation)]));
  let key := key
    <| APIKeyRecord.ID := AIOperation.CredentialID operation |>
    <| APIKeyRecord.ApplicationID := AIOperation.ApplicationID operation |>
    <| APIKeyRecord.PrincipalType := AIOperation.PrincipalType operation |>
    <| APIKeyRecord.PrincipalReference := AIOperation.PrincipalID operation |> in
  mret (if APIKeyRecord.Fingerprint key =s "" then key <| APIKeyRecord.Fingerprint := fallback |> else key).

Definition gatewayAuthForOperationUsage (operation : AIOperation.t) : srv GatewayAuthContext.t :=
  key ← operation_key operation;
  let auth := GatewayAuthContext.zero
    <| GatewayAuthContext.APIKey := key |>
    <| GatewayAuthContext.ExternalSubjectReference := AIOperation.ExternalSubjectReference operation |> in
  auth ← (if (APIKeyRecord.ApplicationID key <>s "") && (APIKeyRecord.GatewayPrincipalID key <>s "")
          then '(application, principal) ← operationApplicationIdentity operation;
               mret (auth
                 <| GatewayAuthContext.Application := Some application |>
                 <| GatewayAuthContext.GatewayPrincipal := Some principal |>
                 <| GatewayAuthContext.APIKey := key
                      <| APIKeyRecord.ApplicationID := Application.ID application |>
                      <| APIKeyRecord.GatewayPrincipalID := GatewayPrincipal.ID principal |> |>)
          else mret auth);
  if TrimSpace (AIOperation.IntegrationID operation) <>s ""
  then integration ← operationExternalAuthIntegration (AIOperation.IntegrationID operation);
       mret (auth <| GatewayAuthContext.ExternalAuthIntegration := Some integration |>)
  else mret auth.

(** What the operation and the attempt say, in place of what the input says. *)
Definition operation_input (operation : AIOperation.t) (attempt : AIAttempt.t) (input : usage_input) : usage_input :=
  let input := input
    <| GatewayUsageInput.OperationID := AIOperation.ID operation |>
    <| GatewayUsageInput.AttemptID := AIAttempt.ID attempt |>
    <| GatewayUsageInput.RequestFingerprint := AIOperation.RequestFingerprint operation |>
    <| GatewayUsageInput.Model := AIOperation.Model operation |>
    <| GatewayUsageInput.UpstreamModel := AIAttempt.UpstreamModel attempt |>
    <| GatewayUsageInput.Protocol := AIOperation.Protocol operation |>
    <| GatewayUsageInput.ProviderID := AIAttempt.ProviderID attempt |>
    <| GatewayUsageInput.ProviderAccountID := AIAttempt.ProviderAccountID attempt |> in
  let input := if GatewayUsageInput.UpstreamRequestID input =s ""
               then input <| GatewayUsageInput.UpstreamRequestID := AIAttempt.ProviderRequestID attempt |> else input in
  if GatewayUsageInput.UsageVersion input <=? 0 then input <| GatewayUsageInput.UsageVersion := 1 |> else input.

Notation recording := (prog service_state (result service_error (list AlertEvent.t))).

Definition recordAIOperationUsage (operation : AIOperation.t) (attempt : AIAttempt.t) (input : usage_input)
    (d : usage_draws) (estimated_at now : time) : recording :=
  prog_bind (on_service (gatewayAuthForOperationUsage operation)) (fun x =>
  match x with
  | Err e => Ret (Err e)
  | Ok auth => RecordGatewayUsage auth (operation_input operation attempt input) d estimated_at now
  end).

(** *** What a provider says about its bill *)

Notation observation := ProviderBillingObservation.t.

(** A cost comes with what explains it, and nothing explains a cost that is missing. *)
Definition cost_explained (billing : observation) : bool :=
  match ProviderBillingObservation.ProcurementCostMicros billing with
  | Some cost =>
      negb ((cost <? 0) || negb (go_len (ProviderBillingObservation.Currency billing) =? 3)
        || negb (validUsageDimensionToken (ProviderBillingObservation.Source billing))
        || negb (oneOf (ProviderBillingObservation.Confidence billing)
             [ProcurementCostConfidenceExact; ProcurementCostConfidenceDerived;
              ProcurementCostConfidenceEstimated; ProcurementCostConfidenceUnallocated]))
  | None =>
      negb ((ProviderBillingObservation.Currency billing <>s "") || (ProviderBillingObservation.Source billing <>s "")
        || (ProviderBillingObservation.Confidence billing <>s "") || (ProviderBillingObservation.PriceID billing <>s "")
        || (ProviderBillingObservation.ProviderBillingLineID billing <>s ""))
  end.

Definition has_cost (billing : observation) : bool :=
  match ProviderBillingObservation.ProcurementCostMicros billing with Some _ => true | None => false end.

(** What the status of a bill allows. *)
Definition status_allows (billing : observation) (dimensions : gmap string UsageDimension) : bool :=
  let some_usage := map_len dimensions >? 0 in
  if ProviderBillingObservation.Status billing =s ProviderBillingStatusFinal
  then has_cost billing || some_usage
  else negb (has_cost billing || some_usage).

Definition trimmed_billing (billing : observation) : observation :=
  let status := ToLower (TrimSpace (ProviderBillingObservation.Status billing)) in
  ProviderBillingObservation.mk
    (if status =s "" then ProviderBillingStatusUnknown else status)
    (ProviderBillingObservation.ProcurementCostMicros billing)
    (ToUpper (TrimSpace (ProviderBillingObservation.Currency billing)))
    (ToLower (TrimSpace (ProviderBillingObservation.Source billing)))
    (ToLower (TrimSpace (ProviderBillingObservation.Confidence billing)))
    (TrimSpace (ProviderBillingObservation.PriceID billing))
    (TrimSpace (ProviderBillingObservation.ProviderBillingLineID billing)).

Definition normalizeProviderTerminalBilling (billing : observation) (dimensions : gmap string UsageDimension)
    : result go_error (observation * gmap string UsageDimension) :=
  let billing := trimmed_billing billing in
  normalized ← NormalizeUsageDimensions dimensions;
  if negb (oneOf (ProviderBillingObservation.Status billing)
       [ProviderBillingStatusUnknown; ProviderBillingStatusPending; ProviderBillingStatusFinal; ProviderBillingStatusNotCharged])
     || negb (cost_explained billing)
     || (go_len (ProviderBillingObservation.PriceID billing) >? 160)
     || (go_len (ProviderBillingObservation.ProviderBillingLineID billing) >? 160)
     || negb (status_allows billing normalized)
  then Err ErrProviderBillingObservationInvalid
  else Ok (billing, normalized).

Definition normalizeProviderSuccessBilling (billing : observation) (dimensions : gmap string UsageDimension)
    : result go_error observation :=
  let final := ToLower (TrimSpace (ProviderBillingObservation.Status billing)) =s ProviderBillingStatusFinal in
  '(normalized, _) ← normalizeProviderTerminalBilling billing (if final then dimensions else ∅);
  Ok normalized.

Definition applyProviderBillingUsageFields (input : usage_input) (billing : observation) : usage_input :=
  let input := input
    <| GatewayUsageInput.SkipProcurementCostEstimate := true |>
    <| GatewayUsageInput.ProcurementCostMicros := ProviderBillingObservation.ProcurementCostMicros billing |>
    <| GatewayUsageInput.ProcurementCostCurrency := ProviderBillingObservation.Currency billing |>
    <| GatewayUsageInput.ProcurementCostSource := ProviderBillingObservation.Source billing |>
    <| GatewayUsageInput.ProcurementCostConfidence := ProviderBillingObservation.Confidence billing |>
    <| GatewayUsageInput.ProcurementPriceID := ProviderBillingObservation.PriceID billing |>
    <| GatewayUsageInput.ProviderBillingLineID := ProviderBillingObservation.ProviderBillingLineID billing |> in
  if ProviderBillingObservation.Status billing =s ProviderBillingStatusNotCharged
  then input
    <| GatewayUsageInput.ProcurementCostMicros := Some 0 |>
    <| GatewayUsageInput.ProcurementCostSource := "provider_not_charged"%string |>
    <| GatewayUsageInput.ProcurementCostConfidence := ProcurementCostConfidenceExact |>
  else input.

Definition RecordDirectAIProviderUsage (operation : AIOperation.t) (attempt : AIAttempt.t)
    (result_ : ProviderDispatchResult.t) (input : usage_input) (d : usage_draws) (estimated_at now : time) : recording :=
  if (TrimSpace (AIOperation.ID operation) =s "") || (AIAttempt.OperationID attempt <>s AIOperation.ID operation)
  then Ret (Err (Plain (ErrNew "direct ai usage attempt does not belong to the operation")))
  else match normalizeProviderSuccessBilling (ProviderDispatchResult.Billing result_)
               (GatewayUsageInput.UsageDimensions input) with
  | Err e => Ret (Err (Plain e))
  | Ok billing =>
      let input := if GatewayUsageInput.UsageSource input =s ""
                   then input <| GatewayUsageInput.UsageSource := "provider_final"%string |> else input in
      let input := if GatewayUsageInput.UpstreamRequestID input =s ""
                   then input <| GatewayUsageInput.UpstreamRequestID :=
                     ProviderTaskReference.ProviderRequestID (ProviderDispatchResult.Task result_) |> else input in
      recordAIOperationUsage operation attempt (applyProviderBillingUsageFields input billing) d estimated_at now
  end.

(** The input for an operation that has ended without success. *)
Definition terminal_input (terminalStatus : string) (result_ : ProviderDispatchResult.t) (usageVersion : Z)
    (dimensions : gmap string UsageDimension) : usage_input :=
  let canceled := terminalStatus =s AIJobStatusCanceled in
  GatewayUsageInput.zero
    <| GatewayUsageInput.UsageVersion := usageVersion |>
    <| GatewayUsageInput.UsageSource := "provider_final"%string |>
    <| GatewayUsageInput.Status := (if canceled then "canceled" else "upstream_error")%string |>
    <| GatewayUsageInput.ErrorType := (if canceled then "provider_canceled" else "provider_failed")%string |>
    <| GatewayUsageInput.UsageDimensions := dimensions |>
    <| GatewayUsageInput.UsageNormalizationStatus := "normalized_provider_terminal"%string |>
    <| GatewayUsageInput.UpstreamRequestID :=
         ProviderTaskReference.ProviderRequestID (ProviderDispatchResult.Task result_) |>.

(** Whether the bill was final, with the alerts of the recording. *)
Definition finalizeAIOperationTerminalBilling (operation : AIOperation.t) (attempt : AIAttempt.t)
    (terminalStatus : string) (result_ : ProviderDispatchResult.t) (usageVersion : Z) (d : usage_draws)
    (estimated_at now : time) : prog service_state (result service_error (bool * list AlertEvent.t)) :=
  match normalizeProviderTerminalBilling (ProviderDispatchResult.Billing result_)
          (ProviderDispatchResult.UsageDimensions result_) with
  | Err e => Ret (Err (Plain e))
  | Ok (billing, dimensions) =>
      if (ProviderBillingObservation.Status billing =s ProviderBillingStatusPending)
         || (ProviderBillingObservation.Status billing =s ProviderBillingStatusUnknown)
      then Ret (Ok (false, []))
      else
        prog_bind (recordAIOperationUsage operation attempt
            (applyProviderBillingUsageFields (terminal_input terminalStatus result_ usageVersion dimensions) billing)
            d estimated_at now) (fun x =>
        Ret (match x with Ok alerts => Ok (true, alerts) | Err e => Err e end))
  end.

Definition FinalizeDirectAIProviderTerminalBilling (operation : AIOperation.t) (attempt : AIAttempt.t)
    (terminalStatus : string) (result_ : ProviderDispatchResult.t) :=
  finalizeAIOperationTerminalBilling operation attempt terminalStatus result_ 2.

(** *** What the artifacts of a job add to its usage *)

Definition durableArtifactDeliverable (policy : string) (artifact : Artifact.t) : bool :=
  if policy =s GatewayArtifactPolicyCustomerSink
  then Artifact.Status artifact =s ArtifactStatusDelivered
  else oneOf (Artifact.Status artifact) [ArtifactStatusReady; ArtifactStatusDelivered].

(** [strings.EqualFold(s, text)] for a text of ASCII letters none of which has a
    case variant outside ASCII (as [k] and [s] have). *)
Definition equal_fold_ascii (s text : string) : bool :=
  String.string_of_list_ascii (map lower_ascii (String.list_ascii_of_string s)) =s text.

Definition core_dimension (quantity : Z) (unit_ : string) : UsageDimension :=
  mkDimension quantity unit_ "core_artifact" UsageConfidenceObserved "" ∅.

Definition durableProviderUsageDimensions (job : AIJob.t) (result_ : ProviderDispatchResult.t) (artifacts : list Artifact.t)
    : result go_error (gmap string UsageDimension) :=
  let final := List.filter (fun artifact => (Artifact.Role artifact =s ArtifactRoleFinal)
    && durableArtifactDeliverable (AIJob.ArtifactPolicy job) artifact) artifacts in
  let outputBytes := foldl (fun total artifact => saturatingUsageAdd total (Artifact.SizeBytes artifact)) 0 final in
  let observed := if equal_fold_ascii (AIJob.Modality job) GatewayModalityImage
    then <[UsageDimensionOutputImages := core_dimension (Z.of_nat (length final)) UsageUnitCount]> ∅ else ∅ in
  let observed := if outputBytes >? 0
    then <[UsageDimensionOutputBytes := core_dimension outputBytes UsageUnitByte]> observed else observed in
  MergeUsageDimensions (ProviderDispatchResult.UsageDimensions result_) observed.
End Recording.

(** ** The estimate in exact arithmetic *)

(** Millionths, rounded half up. *)
Definition half_up (n : Z) : Z := (n + 500000) / 1000000.
Definition component_cost (component : Z * Z) : Z := half_up (component.1 * component.2).
Definition component_fits (component : Z * Z) : Prop := component.1 * component.2 <= max_int64 - 500000.
Definition amount (n : Z) : Prop := 0 <= n <= max_int64.

Record well_priced (price : ProcurementPrice.t) : Prop := {
  priced_request : amount (ProcurementPrice.RequestMicros price);
  priced_uncached : amount (ProcurementPrice.UncachedInputMicrosPer1MTokens price);
  priced_read : amount (ProcurementPrice.CacheReadMicrosPer1MTokens price);
  priced_write_5m : amount (ProcurementPrice.CacheWrite5mMicrosPer1MTokens price);
  priced_write_1h : amount (ProcurementPrice.CacheWrite1hMicrosPer1MTokens price);
  priced_output : amount (ProcurementPrice.OutputMicrosPer1MTokens price);
}.

(** The counts of the input are 64-bit integers. *)
Definition counts_fit (input : usage_input) : Prop :=
  GatewayUsageInput.InputTokens input <= max_int64 /\ GatewayUsageInput.OutputTokens input <= max_int64 /\
  Forall (fun count => default 0 count <= max_int64)
    [GatewayUsageInput.TotalInputTokens input; GatewayUsageInput.UncachedInputTokens input;
     GatewayUsageInput.CacheReadTokens input; GatewayUsageInput.CacheWrite5mTokens input;
     GatewayUsageInput.CacheWrite1hTokens input].

Lemma nonNegative_amount n : n <= max_int64 -> amount (nonNegative n).
Proof. unfold nonNegative, amount, max_int64. destruct (Z.ltb_spec n 0); lia. Qed.

Lemma components_amounts price input : well_priced price -> counts_fit input ->
  Forall (fun c => amount c.1 /\ amount c.2) (cost_components price input).
Proof.
  intros [P1 P2 P3 P4 P5 P6] (C1 & C2 & C3). repeat (apply Forall_cons in C3 as [? C3]). cbn in *.
  assert (A0 : amount 0) by (unfold amount, max_int64; lia).
  unfold cost_components.
  repeat apply Forall_cons_2; try apply Forall_nil_2; cbn [fst snd];
    (split; [|done]); repeat case_match; cbn in *; auto using nonNegative_amount.
Qed.

Lemma tokenCostMicros_exact tokens rate : amount tokens -> amount rate ->
  tokenCostMicros tokens rate =
    if tokens * rate <=? max_int64 - 500000 then Some (half_up (tokens * rate)) else None.
Proof.
  unfold amount, tokenCostMicros, half_up. intros [T0 T1] [R0 R1].
  rewrite (proj2 (Z.ltb_ge tokens 0) T0), (proj2 (Z.ltb_ge rate 0) R0). cbn [orb].
  destruct (Z.eqb_spec tokens 0) as [->|Ht]; [done|]. destruct (Z.eqb_spec rate 0) as [->|Hr]; [by rewrite Z.mul_0_r|].
  cbn [orb]. rewrite Z.quot_div_nonneg by (unfold max_int64; lia).
  pose proof (Z.mul_div_le max_int64 rate ltac:(lia)) as L1. pose proof (Z.mul_succ_div_gt max_int64 rate ltac:(lia)) as L2.
  destruct (Z.gtb_spec tokens (max_int64 / rate)) as [H|H].
  - rewrite (proj2 (Z.leb_gt _ _)); [done|]. unfold max_int64 in *. nia.
  - assert (tokens * rate <= max_int64) by nia.
    rewrite (wrap64_id (tokens * rate)) by (unfold in_int64, min_int64, max_int64 in *; nia).
    destruct (Z.gtb_spec (tokens * rate) (max_int64 - 500000)) as [H1|H1].
    + by rewrite (proj2 (Z.leb_gt _ _)) by lia.
    + rewrite (proj2 (Z.leb_le _ _)) by lia. rewrite wrap64_id by (unfold in_int64, min_int64, max_int64 in *; nia).
      by rewrite Z.quot_div_nonneg by nia.
Qed.

Lemma components_none l : foldl add_component None l = None.
Proof. by induction l. Qed.

Lemma components_nonneg l : Forall (fun c => amount c.1 /\ amount c.2) l -> 0 <= sum_Z component_cost l.
Proof.
  induction 1 as [|[t r] l [Ht Hr] _ IH]; cbn; [done|]. unfold component_cost, half_up, amount in *. cbn in *.
  pose proof (Z.div_pos (t * r + 500000) 1000000 ltac:(nia) ltac:(lia)). lia.
Qed.

Lemma components_exact l cost : amount cost -> Forall (fun c => amount c.1 /\ amount c.2) l ->
  forall total, foldl add_component (Some cost) l = Some total <->
    Forall component_fits l /\ total = cost + sum_Z component_cost l /\ total <= max_int64.
Proof.
  intros Hc Hl. revert cost Hc. induction Hl as [|[tokens rate] l [Ht Hr] Hl IH]; intros cost Hc total; cbn [foldl].
  { unfold sum_Z. cbn. unfold amount in Hc. split; [intros [= ->]; split_and!; [constructor|lia|lia]|intros (_ & -> & _); f_equal; lia]. }
  pose proof (components_nonneg l Hl) as Hsum.
  cbn [add_component mbind option_bind fst snd] in *. rewrite tokenCostMicros_exact by done.
  assert (Hv : 0 <= half_up (tokens * rate)) by (unfold half_up, amount in *; apply Z.div_pos; nia).
  destruct (Z.leb_spec (tokens * rate) (max_int64 - 500000)) as [Hf|Hf]; cbn [mbind option_bind].
  2: { rewrite components_none. split; [done|]. intros (Hfit & _). apply Forall_cons in Hfit as [Hfit _].
       unfold component_fits in Hfit. cbn in Hfit. lia. }
  rewrite wrap64_id by (unfold in_int64, min_int64, amount, max_int64 in *; lia).
  change (sum_Z component_cost ((tokens, rate) :: l)) with (half_up (tokens * rate) + sum_Z component_cost l).
  destruct (Z.gtb_spec (half_up (tokens * rate)) (max_int64 - cost)) as [Hb|Hb].
  - rewrite components_none. split; [done|]. intros (_ & -> & Hmax). lia.
  - rewrite wrap64_id by (unfold in_int64, min_int64, amount, max_int64 in *; lia). rewrite IH by (unfold amount in *; lia).
    rewrite Forall_cons. unfold component_fits at 2. cbn. split.
    + intros (H1 & -> & H2). split_and!; [done|done|lia|lia].
    + intros ([_ H1] & -> & H2). split_and!; [done|lia|lia].
Qed.

(** *** The multiplier *)

(** A multiplier that is not positive counts as one. *)
Definition multiplier_in_force (multiplier : float64) : float64 :=
  match multiplier with
  | S754_zero _ | S754_infinity true | S754_finite true _ _ => float_one
  | _ => multiplier
  end.

(** What is charged for a product: the nearest integer, half up, of a finite
    product that is at most 2^63; 2^63 itself has no place among 64-bit integers
    and wraps. *)
Inductive charged : float64 -> Z -> Prop :=
| charged_nothing s : charged (S754_zero s) 0
| charged_rounded m e n :
    let numerator := Z.pos m * 2 ^ Z.max e 0 in
    let denominator := 2 ^ Z.max (- e) 0 in
    2 * denominator * n <= 2 * numerator + denominator < 2 * denominator * (n + 1) ->
    fleb (S754_finite false m e) (of_int (2 ^ 63)) = true ->
    charged (S754_finite false m e) (if n <=? max_int64 then n else min_int64).


Lemma in_force_sign multiplier : not_negative (multiplier_in_force multiplier).
Proof. by destruct multiplier as [s|[]| |[] m e]. Qed.

Lemma in_force multiplier : normalizedRechargeMultiplier multiplier = multiplier_in_force multiplier.
Proof. by destruct multiplier as [s|[]| |[] m e]. Qed.

Lemma charged_spec total multiplier cost : 0 <= total ->
  applyRechargeMultiplier total multiplier = Some cost <->
  charged (fmul (of_int total) (multiplier_in_force multiplier)) cost.
Proof.
  intros Ht. unfold applyRechargeMultiplier. rewrite (proj2 (Z.ltb_ge _ _)) by done. rewrite in_force. cbv zeta.
  pose proof (fmul_sign _ _ (of_int_sign total Ht) (in_force_sign multiplier)) as Hs.
  set (product := fmul _ _) in *. clearbody product. change (of_int max_int64) with (of_int (2 ^ 63)).
  destruct product as [s|s| |s m e]; cbn in Hs; subst.
  - cbn. split; [intros [= <-]; constructor|by inversion 1].
  - cbn. split; [done|inversion 1].
  - cbn. split; [done|inversion 1].
  - destruct (round_int_nearest m e) as (n & En & Hn). rewrite En. cbn [unbounded orb].
    assert (E63 : of_int (2 ^ 63) = S754_finite false (2 ^ 52)%positive 11) by (vm_compute; reflexivity).
    rewrite E63, greater_leb, <- E63. unfold to_int64.
    assert (H0 : 0 <= n) by nia.
    replace (min_int64 <=? n) with true by (symmetry; apply Z.leb_le; unfold min_int64; lia). cbn [andb].
    destruct (fleb _ _) eqn:El; cbn [negb].
    + split; [intros [= <-]; by apply charged_rounded|]. inversion 1; subst. do 2 f_equal.
      assert (n = n0) as -> by nia. done.
    + split; [done|]. inversion 1; subst. congruence.
Qed.

(** Charged at multiplier one, an amount below 2^53 is that amount. *)
Lemma charged_one total cost : 0 <= total < 2 ^ 53 -> charged (fmul (of_int total) float_one) cost -> cost = total.
Proof.
  intros Ht Hc. destruct total as [|p|p]; [by inversion Hc| |lia].
  destruct (of_int_exact p) as (m & e & E & He & Hd & Hm); [lia|].
  rewrite E, fmul_one in Hc by (try done; lia). inversion Hc as [|m' e' n num den Hn Hl]; subst.
  unfold num, den in *. rewrite (Z.max_r e 0), (Z.max_l (- e) 0) in Hn by lia. rewrite Hm in Hn.
  assert (0 < 2 ^ (- e)) by (apply Z.pow_pos_nonneg; lia). change (2 ^ 0) with 1 in Hn. set (b := 2 ^ (- e)) in *.
  assert (n = Z.pos p) as -> by nia. rewrite (proj2 (Z.leb_le _ _)); [done|]. unfold max_int64. lia.
Qed.

(** The price is one of the usage's account, model and protocol - and provider, when
    the usage names one - and in force. *)
Record covers (input : usage_input) (at_ : time) (price : ProcurementPrice.t) : Prop := {
  covers_status : ProcurementPrice.Status price = ProcurementPriceStatusActive;
  covers_account : ProcurementPrice.ProviderAccountID price = TrimSpace (GatewayUsageInput.ProviderAccountID input);
  covers_model : ProcurementPrice.UpstreamModel price = TrimSpace (GatewayUsageInput.UpstreamModel input);
  covers_protocol : ProcurementPrice.Protocol price = TrimSpace (GatewayUsageInput.Protocol input);
  covers_provider : TrimSpace (GatewayUsageInput.ProviderID input) = ""%string \/
    ProcurementPrice.ProviderID price = TrimSpace (GatewayUsageInput.ProviderID input);
  covers_from : ProcurementPrice.EffectiveFrom price <= at_;
  covers_until : forall ends, ProcurementPrice.ExpiresAt price = Some ends -> at_ < ends;
}.

Lemma covers_iff input at_ price : price_applies input at_ price = true <-> covers input at_ price.
Proof.
  unfold price_applies, After. rewrite !andb_true_iff, !negb_true_iff, !andb_false_iff, !negb_false_iff, !String.eqb_eq, Z.ltb_ge.
  split.
  - intros ((((((H1 & H2) & H3) & H4) & H5) & H6) & H7). split; try done.
    intros ends E. rewrite E in H7. by apply Z.ltb_lt.
  - intros [H1 H2 H3 H4 H5 H6 H7]. split_and!; try done. destruct (ProcurementPrice.ExpiresAt price) as [ends|]; [|done].
    by apply Z.ltb_lt, H7.
Qed.

(** The price that holds: among those that cover the usage the first of the latest. *)
Definition holds_now (prices : list ProcurementPrice.t) (input : usage_input) (at_ : time) (price : ProcurementPrice.t) : Prop :=
  exists i, prices !! i = Some price /\ covers input at_ price /\
    forall j q, prices !! j = Some q -> covers input at_ q ->
      ProcurementPrice.EffectiveFrom q < ProcurementPrice.EffectiveFrom price \/
      ProcurementPrice.EffectiveFrom q = ProcurementPrice.EffectiveFrom price /\ (i <= j)%nat.

Lemma active_price prices input at_ :
  match activeProcurementPrice prices input at_ with
  | Some price => holds_now prices input at_ price
  | None => forall j q, prices !! j = Some q -> ~ covers input at_ q
  end.
Proof.
  induction prices as [|x prices IH] using rev_ind; [by intros j q|]. unfold activeProcurementPrice in *. rewrite foldl_app. cbn [foldl].
  set (acc := foldl _ None prices) in *. destruct (price_applies input at_ x) eqn:Ex; cbn [andb]; [apply covers_iff in Ex|apply not_true_iff_false in Ex; rewrite covers_iff in Ex].
  - destruct acc as [p|].
    + destruct IH as (i & Hi & Hp & Hbest). unfold After. destruct (Z.ltb_spec (ProcurementPrice.EffectiveFrom p) (ProcurementPrice.EffectiveFrom x)).
      * exists (length prices). split_and!; [by apply list_lookup_middle|done|]. intros j q Hj Hq.
        apply lookup_snoc_Some in Hj as [[_ Hj]|[-> ->]]; [destruct (Hbest j q Hj Hq); lia|lia].
      * exists i. split_and!; [by apply lookup_app_l_Some|done|]. intros j q Hj Hq. apply lookup_lt_Some in Hi.
        apply lookup_snoc_Some in Hj as [[_ Hj]|[-> ->]]; [by apply Hbest|lia].
    + exists (length prices). split_and!; [by apply list_lookup_middle|done|]. intros j q Hj Hq.
      apply lookup_snoc_Some in Hj as [[_ Hj]|[-> ->]]; [by destruct (IH j q Hj)|lia].
  - destruct acc as [p|].
    + destruct IH as (i & Hi & Hp & Hbest). exists i. split_and!; [by apply lookup_app_l_Some|done|]. intros j q Hj Hq.
      apply lookup_snoc_Some in Hj as [[_ Hj]|[-> ->]]; [by apply Hbest|done].
    + intros j q Hj. apply lookup_snoc_Some in Hj as [[_ Hj]|[-> ->]]; [by apply (IH j)|done].
Qed.

(** C39. The estimate of what a provider charges.  There is one exactly if among the
    prices that cover the usage and are in force the first of the latest gives
    amounts that fit: the price of the request and, for each kind of token, its
    millionths rounded half up, in exact arithmetic with no overflow on the way; and
    if their total times the recharge multiplier is finite and at most 2^63.  That
    product is one of double precision, as in the code, and is rounded half up to an
    integer; 2^63 itself, which the check lets pass, comes out as the least 64-bit
    integer.  A multiplier that is not positive counts as one, and a total below
    2^53 times one is charged exactly. *)
Theorem procurement_estimate_exact `{upper : UnicodeUpper} prices input at_ estimate :
  Forall well_priced prices -> counts_fit input ->
  (price ← activeProcurementPrice prices input at_; estimate_at_price price input) = Some estimate <->
  exists price cost, holds_now prices input at_ price /\
    let total := ProcurementPrice.RequestMicros price + sum_Z component_cost (cost_components price input) in
    let multiplier := multiplier_in_force (ProcurementPrice.RechargeMultiplier price) in
    Forall component_fits (cost_components price input) /\ total <= max_int64 /\
    charged (fmul (of_int total) multiplier) cost /\
    (multiplier = float_one -> total < 2 ^ 53 -> cost = total) /\
    estimate = gatewayProcurementCostEstimate.mk cost
      (or_else (ToUpper (TrimSpace (ProcurementPrice.Currency price))) "USD") "procurement_price"
      (or_else (TrimSpace (ProcurementPrice.Confidence price)) ProcurementCostConfidenceEstimated)
      (ProcurementPrice.ID price).
Proof.
  intros Hprices Hcounts. pose proof (active_price prices input at_) as Hactive.
  assert (Hone : forall p q, holds_now prices input at_ p -> holds_now prices input at_ q -> p = q).
  { intros p q (i & Hi & Hp & Hbp) (j & Hj & Hq & Hbq). pose proof (Hbp j q Hj Hq). pose proof (Hbq i p Hi Hp).
    assert (i = j) as -> by lia. congruence. }
  destruct (activeProcurementPrice prices input at_) as [price|]; cbn [mbind option_bind].
  2: { split; [done|]. intros (price & cost & (i & Hi & Hp & _) & _). by destruct (Hactive i price Hi). }
  assert (Hwell : well_priced price).
  { destruct Hactive as (i & Hi & _). by apply (Forall_lookup_1 _ _ _ _ Hprices Hi). }
  pose proof (components_exact _ _ (priced_request _ Hwell) (components_amounts price input Hwell Hcounts)) as Hsum.
  assert (Hnn : 0 <= ProcurementPrice.RequestMicros price + sum_Z component_cost (cost_components price input)).
  { pose proof (priced_request _ Hwell) as [? _].
    pose proof (components_nonneg _ (components_amounts price input Hwell Hcounts)). lia. }
  unfold estimate_at_price. split.
  - intros H. destruct (foldl add_component _ _) as [total|] eqn:Et; [|done]. cbn [mbind option_bind] in H.
    destruct (proj1 (Hsum total) eq_refl) as (Hfit & -> & Hmax). destruct (applyRechargeMultiplier _ _) as [cost|] eqn:Ec; [|done].
    cbn [mbind option_bind] in H. injection H as <-. apply charged_spec in Ec; [|done].
    exists price, cost. split; [done|]. cbv zeta. split_and!; try done.
    intros E Hlt. rewrite E in Ec. by apply charged_one.
  - intros (p & cost & Hp & Hfit & Hmax & Hc & _ & ->). assert (p = price) as -> by by apply Hone.
    apply charged_spec in Hc; [|done].
    rewrite (proj2 (Hsum _) (conj Hfit (conj eq_refl Hmax))). cbn [mbind option_bind]. by rewrite Hc.
Qed.

(** ** Usage recorded twice *)

Section Once.
Context `{range : MapRange} `{unicode : UnicodeCase} `{upper : UnicodeUpper} `{json : JSONText}.
Context {VMProgram : Type}.
Context (Parse : string -> result string Node) (CompileExpr : string -> result string VMProgram).
Context (Run : VMProgram -> gmap string value -> script) (wrapCallError : Error -> run_error).
Context (render : message -> string) (Marshal : Facts -> result string string).
Context (MarshalDimensions : gmap string UsageDimension -> result go_error string).

Notation world := (Z * MemoryRepository)%type.
Notation record_usage := (record_usage Parse CompileExpr Run wrapCallError render Marshal MarshalDimensions).
Notation build := (buildUsageSettlement Parse CompileExpr Run wrapCallError render Marshal MarshalDimensions).
Notation Apply := (ApplyUsageSettlement MarshalDimensions).
Notation evolves := (evolves Parse CompileExpr Run wrapCallError render Marshal MarshalDimensions).
Notation evolve := (rtc evolves).
Notation runs := (runs Parse CompileExpr Run wrapCallError render Marshal MarshalDimensions).
Notation world_ok := (world_ok Parse CompileExpr Run wrapCallError render Marshal).

(** What identifies a usage, and what is billed by it.  The rest - who presents it,
    how long it took, what the provider charges - may differ. *)
Record same_input (a b : usage_input) : Prop := {
  same_input_operation : GatewayUsageInput.OperationID b = GatewayUsageInput.OperationID a;
  same_input_attempt : GatewayUsageInput.AttemptID b = GatewayUsageInput.AttemptID a;
  same_input_version : GatewayUsageInput.UsageVersion b = GatewayUsageInput.UsageVersion a;
  same_input_fingerprint : GatewayUsageInput.RequestFingerprint b = GatewayUsageInput.RequestFingerprint a;
  same_input_protocol : GatewayUsageInput.Protocol b = GatewayUsageInput.Protocol a;
  same_input_tokens :
    (GatewayUsageInput.InputTokens b, GatewayUsageInput.OutputTokens b, GatewayUsageInput.TotalInputTokens b,
     GatewayUsageInput.UncachedInputTokens b, GatewayUsageInput.CacheReadTokens b,
     GatewayUsageInput.CacheWrite5mTokens b, GatewayUsageInput.CacheWrite1hTokens b,
     GatewayUsageInput.CacheFieldsPresent b)
    = (GatewayUsageInput.InputTokens a, GatewayUsageInput.OutputTokens a, GatewayUsageInput.TotalInputTokens a,
       GatewayUsageInput.UncachedInputTokens a, GatewayUsageInput.CacheReadTokens a,
       GatewayUsageInput.CacheWrite5mTokens a, GatewayUsageInput.CacheWrite1hTokens a,
       GatewayUsageInput.CacheFieldsPresent a);
  same_input_dimensions : GatewayUsageInput.UsageDimensions b = GatewayUsageInput.UsageDimensions a;
  same_input_normalization : GatewayUsageInput.UsageNormalizationStatus b = GatewayUsageInput.UsageNormalizationStatus a;
}.

(** The record that a recording makes, once the provider's price is known. *)
Definition made_of (auth : GatewayAuthContext.t) (input : usage_input) (cost : procurement)
    (dimensions : gmap string UsageDimension) (random : string) (now : time) : UsageRecord.t :=
  identified (applyGatewayPlatformSnapshotToUsage
    (usage_record auth (normalizeUsageLedgerInput input) cost dimensions random now) auth).

(** The identifier of the evaluation for one purpose. *)
Definition evaluation_id (input : usage_input) (purpose : string) : string :=
  deterministicPricingEvaluationID (UsageRecord.zero
    <| UsageRecord.OperationID := TrimSpace (GatewayUsageInput.OperationID input) |>
    <| UsageRecord.AttemptID := TrimSpace (GatewayUsageInput.AttemptID input) |>
    <| UsageRecord.UsageVersion := GatewayUsageInput.UsageVersion (normalizeUsageLedgerInput input) |>) purpose.

(** The parts of the input that end in those parts of the record. *)
Definition input_parts (a : usage_input) :=
  ((GatewayUsageInput.OperationID a, GatewayUsageInput.AttemptID a, GatewayUsageInput.RequestFingerprint a,
    GatewayUsageInput.Protocol a),
   (GatewayUsageInput.InputTokens a, GatewayUsageInput.OutputTokens a, GatewayUsageInput.TotalInputTokens a,
    GatewayUsageInput.UncachedInputTokens a, GatewayUsageInput.CacheReadTokens a,
    GatewayUsageInput.CacheWrite5mTokens a, GatewayUsageInput.CacheWrite1hTokens a,
    GatewayUsageInput.CacheFieldsPresent a),
   (GatewayUsageInput.UsageDimensions a, GatewayUsageInput.UsageNormalizationStatus a)).

Lemma same_parts a b : same_input a b -> input_parts b = input_parts a.
Proof. intros [S1 S2 S3 S4 S5 S6 S7 S8]. unfold input_parts. by rewrite S1, S2, S4, S5, S6, S7, S8. Qed.

Lemma normalized_parts input : input_parts (normalizeUsageLedgerInput input) = input_parts input.
Proof. unfold normalizeUsageLedgerInput. by repeat case_match. Qed.

Lemma normalized_version input : TrimSpace (GatewayUsageInput.OperationID input) <> ""%string ->
  GatewayUsageInput.UsageVersion (normalizeUsageLedgerInput input) =
    if GatewayUsageInput.UsageVersion input <=? 0 then 1 else GatewayUsageInput.UsageVersion input.
Proof.
  intros Hne. unfold normalizeUsageLedgerInput. destruct (String.eqb_spec (GatewayUsageInput.OperationID input) "") as [E|_].
  - by rewrite E in Hne.
  - destruct (_ <=? 0); by case_match.
Qed.

(** The parts of a record that its billing looks at. *)
Definition billed_parts (r : UsageRecord.t) :=
  ((UsageRecord.OperationID r, UsageRecord.AttemptID r, UsageRecord.UsageVersion r, UsageRecord.RequestFingerprint r),
   (UsageRecord.Protocol r, UsageRecord.UsageNormalizationStatus r, UsageRecord.UsageDimensions r),
   (UsageRecord.InputTokens r, UsageRecord.OutputTokens r, UsageRecord.TotalInputTokens r, UsageRecord.UncachedInputTokens r,
    UsageRecord.CacheReadTokens r, UsageRecord.CacheWrite5mTokens r, UsageRecord.CacheWrite1hTokens r,
    UsageRecord.CacheFieldsPresent r),
   (UsageRecord.PricingStatus r, UsageRecord.UsageCostMicros r)).

Lemma snapshot_parts r auth : billed_parts (applyGatewayPlatformSnapshotToUsage r auth) = billed_parts r.
Proof. unfold applyGatewayPlatformSnapshotToUsage. by repeat case_match. Qed.

Lemma identified_parts r : billed_parts (identified r) = billed_parts r.
Proof. unfold identified. by case_match. Qed.

Lemma identified_same a b : billed_parts a = billed_parts b -> UsageRecord.OperationID a <> ""%string ->
  same_usage (identified a) (identified b).
Proof.
  intros H Hne. pose proof (identified_parts a) as Ea. pose proof (identified_parts b) as Eb. rewrite H in Ea.
  rewrite <- Eb in Ea. clear Eb. assert (Hid : UsageRecord.ID (identified b) = UsageRecord.ID (identified a)).
  { unfold identified, usageLedgerDigest. injection H as <- <- <- _ _ _ _ _ _ _ _ _ _ _ _ _ _.
    by destruct (_ <>s _) eqn:E; [|apply negb_false_iff, String.eqb_eq in E]. }
  set (a' := identified a) in *. set (b' := identified b) in *. clearbody a' b'.
  injection Ea as E1 E2 E3 E4 E5 E6 E7 E8 E9 E10 E11 E12 E13 E14 E15 E16 E17.
  split; try congruence. intros o. unfold pricingFactsFromUsage. by rewrite E5, E6, E7, E8, E9, E10, E11, E12, E13, E14, E15.
Qed.

Lemma made_same auth auth' input input' cost cost' dimensions random random' now now' :
  same_input input input' -> TrimSpace (GatewayUsageInput.OperationID input) <> ""%string ->
  same_usage (made_of auth input cost dimensions random now) (made_of auth' input' cost' dimensions random' now').
Proof.
  intros Hs Hne. pose proof (same_parts _ _ Hs) as E. rewrite <- (normalized_parts input), <- (normalized_parts input') in E.
  assert (Hne' : TrimSpace (GatewayUsageInput.OperationID input') <> ""%string) by by rewrite (same_input_operation _ _ Hs).
  assert (V : GatewayUsageInput.UsageVersion (normalizeUsageLedgerInput input') =
    GatewayUsageInput.UsageVersion (normalizeUsageLedgerInput input))
    by (rewrite !normalized_version by done; by rewrite (same_input_version _ _ Hs)).
  pose proof (normalized_parts input) as En. injection En as En _ _ _ _ _ _ _ _ _ _ _ _ _. rewrite <- En in Hne. clear En Hne'.
  unfold made_of. set (n := normalizeUsageLedgerInput input) in *. set (n' := normalizeUsageLedgerInput input') in *.
  clearbody n n'. injection E as E1 E2 E3 E4 E5 E6 E7 E8 E9 E10 E11 E12 E13 E14.
  apply identified_same; rewrite ?snapshot_parts.
  - unfold billed_parts. cbn. by rewrite E1, E2, E3, E4, E5, E6, E7, E8, E9, E10, E11, E12, E14, V.
  - pose proof (snapshot_parts (usage_record auth n cost dimensions random now) auth) as Ep.
    injection Ep as -> _ _ _ _ _ _ _ _ _ _ _ _ _ _ _ _. exact Hne.
Qed.

(** *** Runs of the parts *)

Lemma runs_ret {A} (x a : result service_error A) w w' : runs (Ret x) w a w' -> a = x /\ evolve w w'.
Proof. by intros [-> He]. Qed.

Lemma procurement_run input at_ w x w' : world_ok w -> runs (procurement_of input at_) w x w' ->
  evolve w w' /\ exists cost, x = Ok cost.
Proof.
  intros Hw. unfold procurement_of. destruct (cost_micros _); [intros [-> He]%runs_ret; eauto|].
  destruct (GatewayUsageInput.SkipProcurementCostEstimate input); [intros [-> He]%runs_ret; eauto|].
  intros (y & w1 & H & Hrest)%runs_bind. unfold estimateGatewayProcurementCost in H.
  assert (Hy : evolve w w1 /\ exists estimate, y = Ok estimate).
  { destruct (_ || _); [apply runs_ret in H as [-> He]; eauto|].
    apply (runs_query Parse CompileExpr Run wrapCallError render Marshal MarshalDimensions) in H as (w2 & H1 & _ & T & [-> He]%runs_ret); [|done].
    split; [|eauto]. etransitivity; [exact H1|]. by eapply rtc_l. }
  destruct Hy as [He [estimate ->]]. apply runs_ret in Hrest as [-> He']. split; [by etransitivity|eauto].
Qed.

Lemma prepared_run auth input random estimated_at now w x w' : world_ok w ->
  runs (prepared_record auth input random estimated_at now) w x w' ->
  evolve w w' /\
  match NormalizeUsageDimensions (GatewayUsageInput.UsageDimensions input) with
  | Ok dimensions => exists cost, x = Ok (made_of auth input cost dimensions random now)
  | Err e => x = Err (Plain e)
  end.
Proof.
  intros Hw (y & w1 & H & Hrest)%runs_bind. apply procurement_run in H as [He [cost ->]]; [|done].
  assert (Ed : GatewayUsageInput.UsageDimensions (normalizeUsageLedgerInput input) = GatewayUsageInput.UsageDimensions input)
    by (pose proof (normalized_parts input) as E; by injection E).
  rewrite Ed in Hrest. apply runs_bind in Hrest as (z & w2 & [-> He2]%runs_ret & Hrest).
  destruct (NormalizeUsageDimensions _) as [d|e].
  - apply runs_ret in Hrest as [-> He3]. split; [do 2 (etransitivity; [eassumption|]); done|]. by exists cost.
  - destruct Hrest as [-> He3]. split; [do 2 (etransitivity; [eassumption|]); done|done].
Qed.

(** A recording for an operation. *)
Lemma record_run auth input random estimated_at now w x w' : world_ok w ->
  TrimSpace (GatewayUsageInput.OperationID input) <> ""%string ->
  runs (record_usage auth input random estimated_at now) w x w' ->
  match NormalizeUsageDimensions (GatewayUsageInput.UsageDimensions input) with
  | Err e => x = Err (Plain e)
  | Ok dimensions => exists cost w1, let record := made_of auth input cost dimensions random now in
      evolve w w1 /\
      ((exists y w2, runs (build record) w1 y w2 /\ match y with
          | Err e => x = Err e
          | Ok settlement => exists b, evolve w2 b /\
              (forall e, (Apply settlement b.2).1 = Err e -> x = Err (Plain e)) /\
              (forall applied, (Apply settlement b.2).1 = Ok applied -> x = Ok (UsageSettlement.Record settlement, applied)) /\
              evolve (b.1 + 1, (Apply settlement b.2).2) w'
          end))
  end.
Proof.
  intros Hw Hne (y & w1 & H & Hrest)%runs_bind. apply prepared_run in H as [He Hy]; [|done].
  destruct (NormalizeUsageDimensions _) as [d|e]; [|subst y; by destruct Hrest].
  destruct Hy as [cost ->]. exists cost, w1. cbv zeta. split; [done|].
  set (record := made_of auth input cost d random now) in *.
  assert (Eop : UsageRecord.OperationID record = TrimSpace (GatewayUsageInput.OperationID input)).
  { subst record. unfold made_of. pose proof (identified_parts (applyGatewayPlatformSnapshotToUsage
      (usage_record auth (normalizeUsageLedgerInput input) cost d random now) auth)) as E. rewrite snapshot_parts in E.
    injection E as -> _ _ _ _ _ _ _ _ _ _ _ _ _ _ _ _. cbn.
    pose proof (normalized_parts input) as En. by injection En as -> _ _ _ _ _ _ _ _ _ _ _ _ _. }
  apply String.eqb_neq in Hne. rewrite Eop, Hne in Hrest.
  apply runs_bind in Hrest as (y & w2 & Hb & Hrest). exists y, w2. split; [exact Hb|].
  destruct y as [settlement|e]; [|by destruct Hrest].
  apply runs_bind in Hrest as (z & w3 & (b & Hb1 & _ & Hb2) & Hrest). exists b. split; [done|].
  unfold after in Hb2. destruct (Apply settlement b.2) as [[applied|e] r'] eqn:Ea; cbn in *;
    destruct Hb2 as [<- Hb2]; [apply runs_ret in Hrest as [-> Hrest]|destruct Hrest as [-> Hrest]].
  - split_and!; [done|by intros ? [= <-]|by etransitivity].
  - split_and!; [by intros ? [= <-]|done|by etransitivity].
Qed.

Lemma made_operation auth input cost dimensions random now :
  UsageRecord.OperationID (made_of auth input cost dimensions random now) = TrimSpace (GatewayUsageInput.OperationID input).
Proof.
  unfold made_of. pose proof (identified_parts (applyGatewayPlatformSnapshotToUsage
    (usage_record auth (normalizeUsageLedgerInput input) cost dimensions random now) auth)) as E.
  rewrite snapshot_parts in E. injection E as -> _ _ _ _ _ _ _ _ _ _ _ _ _ _ _ _. cbn.
  pose proof (normalized_parts input) as En. by injection En as -> _ _ _ _ _ _ _ _ _ _ _ _ _.
Qed.

Lemma made_evaluation auth input cost dimensions random now purpose :
  deterministicPricingEvaluationID (made_of auth input cost dimensions random now) purpose = evaluation_id input purpose.
Proof.
  unfold evaluation_id, deterministicPricingEvaluationID, usageLedgerDigest. cbn.
  unfold made_of. pose proof (identified_parts (applyGatewayPlatformSnapshotToUsage
    (usage_record auth (normalizeUsageLedgerInput input) cost dimensions random now) auth)) as E.
  rewrite snapshot_parts in E. injection E as -> -> -> _ _ _ _ _ _ _ _ _ _ _ _ _ _. cbn.
  pose proof (normalized_parts input) as En. by injection En as -> -> _ _ _ _ _ _ _ _ _ _ _ _.
Qed.

(** ** Properties *)

(** C5. Usage is recorded once.  After a recording for an operation that was new,
    every later recording of the same usage - presented by whomever, with whatever
    latency, provider or cost, among any other calls - finds its settlement known:
    it answers that nothing is new and leaves the books as they are, and the record
    and the entries of the first stay. *)
Theorem usage_recorded_once auth auth' input input' random random' t1 t2 t1' t2' w w1 record w' x w1'
    (operationID := TrimSpace (GatewayUsageInput.OperationID input)) :
  (forall m, exists text, MarshalDimensions m = Ok text) -> world_ok w ->
  operationID <> ""%string -> is_Some (FindBillingHoldByOperationID operationID w.2) ->
  (forall p q, p ∈ hold_purposes operationID w.2 -> q ∈ hold_purposes operationID w.2 ->
     evaluation_id input p = evaluation_id input q -> p = q) ->
  runs (record_usage auth input random t1 t2) w (Ok (record, true)) w1 ->
  same_input input input' -> evolve w1 w' ->
  runs (record_usage auth' input' random' t1' t2') w' x w1' ->
  exists record' again b, x = Ok (record', false) /\ evolve w' b /\ Apply again b.2 = (Ok false, b.2) /\
    evolve (b.1 + 1, b.2) w1' /\ kept w1.2 w1'.2.
Proof.
  intros HM Hw Hne Hhold Hinj Hrun Hs Hlate Hrun'.
  apply record_run in Hrun; [|done..]. rewrite <- (same_input_dimensions _ _ Hs) in Hrun.
  destruct (NormalizeUsageDimensions (GatewayUsageInput.UsageDimensions input')) as [d|] eqn:Ed; [|done].
  destruct Hrun as (cost & m1 & Hm1 & y & m2 & Hb & Hy). set (made := made_of auth input cost d random t2) in *.
  destruct y as [settlement|]; [|done]. destruct Hy as (a & Ha & Herr & Hok & Hrest).
  destruct (Apply settlement a.2) as [[applied|e] r1] eqn:Eapply; cbn in *; [|by specialize (Herr e eq_refl)].
  specialize (Hok applied eq_refl). injection Hok as _ <-.
  assert (Hnd : NoDup (PricingEvaluation.ID <$> UsageSettlement.Evaluations settlement)).
  { eapply (built_distinct _ _ _ _ _ _ _ made w m1); [exact Hw|exact Hm1|exact Hb| |]; unfold made; rewrite made_operation; [done|].
    intros p q. rewrite !made_evaluation. apply Hinj. }
  destruct (evolve_ok _ _ _ _ _ _ _ _ _ Hm1 Hw) as (Om1 & _).
  pose proof (build_evolves _ _ _ _ _ _ _ _ _ _ _ Om1 Hb) as Hbe. destruct (evolve_ok _ _ _ _ _ _ _ _ _ Hbe Om1) as (Om2 & _).
  destruct (evolve_ok _ _ _ _ _ _ _ _ _ Ha Om2) as (Oa & _).
  assert (Hids : NoDup (BillingLedgerEntry.ID <$> UsageSettlement.Ledgers settlement))
    by exact (built_entries _ _ _ _ _ _ _ _ _ _ _ Om1 Hb Hnd).
  destruct (booked _ _ _ _ _ _ _ _ _ _ Oa Hids Eapply) as (Hstep & _).
  destruct (evolves_ok _ _ _ _ _ _ _ _ _ Hstep Oa) as (Or1 & _ & _).
  assert (Hr1 : evolve (a.1, r1) w1).
  { eapply rtc_l; [exact (evolve_tick _ _ _ _ _ _ _ _ Or1)|exact Hrest]. }
  destruct (evolve_ok _ _ _ _ _ _ _ _ _ Hr1 Or1) as (Ow1 & _).
  destruct (evolve_ok _ _ _ _ _ _ _ _ _ Hlate Ow1) as (Ow' & _).
  assert (Hne' : TrimSpace (GatewayUsageInput.OperationID input') <> ""%string) by by rewrite (same_input_operation _ _ Hs).
  apply record_run in Hrun'; [|done..]. rewrite Ed in Hrun'.
  destruct Hrun' as (cost' & n1 & Hn1 & y & n2 & Hb' & Hy). destruct (evolve_ok _ _ _ _ _ _ _ _ _ Hn1 Ow') as (On1 & _).
  pose proof (build_evolves _ _ _ _ _ _ _ _ _ _ _ On1 Hb') as Hbe'.
  pose proof (made_same auth auth' input input' cost cost' d random random' t2 t2' Hs Hne) as Hmade. fold made in Hmade.
  assert (Hn : evolve (a.1, r1) n1) by (etransitivity; [exact Hr1|]; etransitivity; [exact Hlate|exact Hn1]).
  assert (Hm2n : evolve m2 n1) by (etransitivity; [exact Ha|]; by eapply rtc_l).
  destruct (billed_again _ _ _ _ _ _ _ made _ m1 m2 a r1 n1 n2 n2 settlement y HM Om1 Hb Hnd Ha Eapply
    (rtc_trans _ _ _ Hn Hbe') Hmade On1 Hb' (rtc_refl _ _)) as [Hagain _].
  destruct (Hagain Hm2n) as [again ->]. destruct Hy as (b & Hb2 & _ & Hok & Hend).
  destruct (billed_again _ _ _ _ _ _ _ made _ m1 m2 a r1 n1 n2 b settlement (Ok again) HM Om1 Hb Hnd Ha Eapply
    (rtc_trans _ _ _ (rtc_trans _ _ _ Hn Hbe') Hb2) Hmade On1 Hb' Hb2) as [_ Hknown].
  destruct (Hknown again eq_refl) as [_ Eagain]. rewrite Eagain in Hok, Hend. cbn in Hok, Hend.
  exists (UsageSettlement.Record again), again, b.
  assert (Hwb : evolve w' b) by (etransitivity; [exact Hn1|]; etransitivity; [exact Hbe'|exact Hb2]).
  destruct (evolve_ok _ _ _ _ _ _ _ _ _ Hwb Ow') as (Ob & _).
  split_and!; [by apply Hok|exact Hwb|exact Eagain|exact Hend|].
  eapply (evolve_ok _ _ _ _ _ _ _ w1); [|exact Ow1]. etransitivity; [exact Hlate|]. etransitivity; [exact Hwb|].
  eapply rtc_l; [exact (evolve_tick _ _ _ _ _ _ _ _ Ob)|exact Hend].
Qed.
End Once.

(** ** Usage and alerts *)

Section Spending.
Context `{range : MapRange} `{unicode : UnicodeCase} `{upper : UnicodeUpper} `{json : JSONText}.
Context {VMProgram : Type}.
Context (Parse : string -> result string Node) (CompileExpr : string -> result string VMProgram).
Context (Run : VMProgram -> gmap string value -> script) (wrapCallError : Error -> run_error).
Context (render : message -> string) (Marshal : Facts -> result string string).
Context (MarshalDimensions : gmap string UsageDimension -> result go_error string).

Notation record_usage := (record_usage Parse CompileExpr Run wrapCallError render Marshal MarshalDimensions).
Notation RecordGatewayUsage := (RecordGatewayUsage Parse CompileExpr Run wrapCallError render Marshal MarshalDimensions).
Notation alerts s := (alertEvents (Service.repository s)).
Notation quota_key auth now := (apiKeyQuotaAlertDedupeKey (APIKeyRecord.ID (GatewayAuthContext.APIKey auth)) now).
Notation rate_key auth := ("gateway_error_rate:" +:+ APIKeyRecord.ID (GatewayAuthContext.APIKey auth))%string.

(** Programs that leave the alerts alone. *)
Fixpoint spares {A} (p : prog MemoryRepository A) : Prop :=
  match p with
  | Ret _ => True
  | Atomic act k => (forall r, alertEvents (act r).2 = alertEvents r) /\ forall x, spares (k x)
  end.

Lemma spares_looks {A} (p : prog MemoryRepository A) : looks p -> spares p.
Proof. induction p as [a|X act k IH]; cbn; [done|]. intros [Ha Hk]. split; [intros r; by rewrite Ha|auto]. Qed.

Lemma spares_bind {A B} (p : srv A) (f : A -> srv B) : spares p -> (forall a, spares (f a)) -> spares (p ≫= f).
Proof.
  unfold mbind, srv_mbind, srv_bind. induction p as [[a|e]|X act k IH]; cbn; [by auto|done|].
  intros [Ha Hk] Hf. split; [done|]. intros x. by apply IH.
Qed.

Lemma spares_call {A} (m : M A) : preserves alertEvents m -> spares (call m).
Proof. intros H. split; [exact H|done]. Qed.

Lemma spares_exec {A} (p : prog MemoryRepository A) s : spares p -> alerts (exec (on_service p) s).2 = alerts s.
Proof.
  revert s. induction p as [a|X act k IH]; intros s; cbn; [done|]. intros [Ha Hk].
  specialize (Ha (Service.repository s)). destruct (act (Service.repository s)) as [x r]. cbn in Ha.
  rewrite IH by done. exact Ha.
Qed.

Lemma looks_build record :
  looks (buildUsageSettlement Parse CompileExpr Run wrapCallError render Marshal MarshalDimensions record).
Proof.
  unfold buildUsageSettlement. apply looks_srv; [done|]. intros [operation|]; [|done].
  apply looks_srv; [by unfold refuse; case_match|]. intros _. apply looks_srv; [done|]. intros [hold|]; [|done].
  apply looks_srv; [done|]. intros versions. apply looks_srv; [apply looks_loop|]. intros settlement. by case_match.
Qed.

Lemma spares_record auth input random estimated_at now : spares (record_usage auth input random estimated_at now).
Proof.
  unfold record_usage. apply spares_bind; [|intros record; case_match].
  - unfold prepared_record. apply spares_bind; [apply spares_looks|intros cost].
    + unfold procurement_of. repeat case_match; [done..|]. apply looks_srv; [|done].
      unfold estimateGatewayProcurementCost. case_match; [done|]. by apply looks_srv.
    + apply spares_bind; [by unfold lifted|done].
  - apply spares_bind; [|done]. apply spares_call. unfold SaveUsageRecord. preserves_tac.
  - apply spares_bind; [apply spares_looks, looks_build|intros settlement].
    apply spares_bind; [|done]. apply spares_call. unfold ApplyUsageSettlement, settle_hold. preserves_tac;
      unfold settle_ledger, settle_evaluation, move_hold, settleMemoryBillingHoldForUsage; preserves_tac.
Qed.

Lemma alert_id_inj (a b : string) : ("alert_" +:+ a = "alert_" +:+ b)%string -> a = b.
Proof. intros E. by repeat (injection E as E). Qed.

(** The part of an alert call that matters to the state. *)
Lemma exec_if_due due (p : serv (option AlertEvent.t)) s :
  (exec (if_due due p) s).2 = if due then (exec p s).2 else s.
Proof.
  destruct due; cbn; [|done]. unfold dispatched. rewrite exec_prog_bind. by destruct (exec p s).
Qed.

Lemma if_due_touches due (p : serv (option AlertEvent.t)) key random s : alerts_ok (alerts s) ->
  solo p (fun _ s' => touches key random s s') s -> touches key random s (exec (if_due due p) s).2.
Proof. intros Hm Hp. rewrite exec_if_due. destruct due; [exact Hp|by apply touches_refl]. Qed.

Lemma exec_alerts auth input record d s :
  (exec (usage_alerts auth input record d) s).2 =
  (exec (syncGatewayErrorRateAlert auth (rate_random d))
    (exec (if_due ((effectiveMonthlyBudgetMicros auth >? 0)
        && match UsageRecord.UsageCostMicros record with Some cost => cost >? 0 | None => false end)
      (syncAPIKeyBudgetAlertForAuth auth (UsageRecord.CreatedAt record) (budget_random d)))
      (exec (if_due ((effectiveMonthlyTokenLimit auth >? 0)
          && ((GatewayUsageInput.InputTokens input >? 0) || (GatewayUsageInput.OutputTokens input >? 0)))
        (syncAPIKeyQuotaAlertForAuth auth (UsageRecord.CreatedAt record) (quota_random d))) s).2).2).2.
Proof.
  unfold usage_alerts. rewrite exec_prog_bind. destruct (exec (if_due _ _) s) as [quota s2]. cbn [fst snd].
  rewrite exec_prog_bind. destruct (exec (if_due _ _) s2) as [budget s3]. cbn [fst snd].
  rewrite exec_prog_bind. unfold dispatched. rewrite exec_prog_bind.
  by destruct (exec (syncGatewayErrorRateAlert _ _) s3) as [rate s4].
Qed.

(** C40. Spending is noticed.  When a recording that runs alone is new and costs
    something, the alert about the monthly budget of its key is open afterwards
    exactly if more than 79 percent of the budget has been spent this month, this
    usage included, critical once all of it has; the other alerts the recording
    raises do not get in its way, and every alert stays coherent. *)
Theorem spending_alerted auth input d t1 t2 s record cost s1 answer s'
    (limit := effectiveMonthlyBudgetMicros auth)
    (key := TrimSpace (budget_dedupe_key auth (UsageRecord.CreatedAt record)))
    (spent := SumUsageCostMicrosByAPIKeySince (APIKeyRecord.ID (GatewayAuthContext.APIKey auth))
      (monthStart (UsageRecord.CreatedAt record)) (Service.repository s1)) :
  alerts_ok (alerts s) ->
  (forall random, random ∈ [quota_random d; budget_random d; rate_random d] -> alerts s !! ("alert_" +:+ random)%string = None) ->
  NoDup [quota_random d; budget_random d; rate_random d] ->
  exec (on_service (record_usage auth input (record_random d) t1 t2)) s = (Ok (record, true), s1) ->
  exec (RecordGatewayUsage auth input d t1 t2) s = (answer, s') ->
  UsageRecord.UsageCostMicros record = Some cost -> 0 < cost -> 0 < limit -> 0 <= spent -> spent * 100 + limit <= max_int64 ->
  alerts_ok (alerts s') /\
  (79 * limit < spent * 100 -> exists e, opened key (alerts s') = Some e /\
     AlertEvent.Severity e = if limit <=? spent then AlertSeverityCritical else AlertSeverityWarning) /\
  (spent * 100 <= 79 * limit -> opened key (alerts s') = None).
Proof.
  intros Hm Hfresh Hnd Hrec Hall Hcost Hpos Hlimit Hspent Hrange.
  pose proof (spares_exec _ s (spares_record auth input (record_random d) t1 t2)) as E1. rewrite Hrec in E1. cbn in E1.
  assert (Es' : s' = (exec (usage_alerts auth input record d) s1).2).
  { unfold UsageRecording.RecordGatewayUsage in Hall. rewrite exec_prog_bind, Hrec, exec_prog_bind in Hall.
    destruct (exec (usage_alerts auth input record d) s1) as [out s2]. cbn in Hall |- *. by injection Hall as _ <-. }
  rewrite exec_alerts, Hcost in Es'.
  rewrite (proj2 (Z.gtb_lt (effectiveMonthlyBudgetMicros auth) 0) Hlimit), (proj2 (Z.gtb_lt cost 0) Hpos) in Es'.
  rewrite (exec_if_due (true && true)) in Es'. cbn [andb] in Es'.
  set (due := _ && _) in Es'. set (now := UsageRecord.CreatedAt record) in *.
  set (s2 := (exec (if_due due _) s1).2) in Es'. set (s3 := (exec (syncAPIKeyBudgetAlertForAuth auth now (budget_random d)) s2).2) in Es'.
  destruct (alert_keys_apart auth now) as (K1 & K2 & _). fold key in K1, K2.
  apply NoDup_cons in Hnd as [N1 [N2 _]%NoDup_cons]. rewrite <- E1 in Hm, Hfresh.
  assert (T1 : touches (TrimSpace (quota_key auth now)) (quota_random d) s1 s2).
  { apply if_due_touches; [exact Hm|]. apply quota_touches; [exact Hm|]. apply Hfresh. by left. }
  assert (Fr : forall random, random ∈ [budget_random d; rate_random d] -> alerts s2 !! ("alert_" +:+ random)%string = None).
  { intros random Hr. apply T1; [|apply Hfresh; by right]. intros E%alert_id_inj. by subst random. }
  assert (T2 : touches key (budget_random d) s2 s3) by (apply budget_touches; [apply T1|apply Fr; by left]).
  assert (T3 : touches (TrimSpace (rate_key auth)) (rate_random d) s3 s').
  { subst s'. apply rate_touches; [apply T2|]. apply T2; [|apply Fr; right; by left]. intros E%alert_id_inj. apply N2. rewrite E. by left. }
  split; [apply T3|].
  assert (Eo : opened key (alerts s') = opened key (alerts s3)).
  { unfold opened. by rewrite <- (touches_elsewhere _ _ _ _ T3 key). }
  rewrite Eo.
  assert (Eused : SumUsageCostMicrosByAPIKeySince (APIKeyRecord.ID (GatewayAuthContext.APIKey auth)) (monthStart now)
    (Service.repository s2) = spent) by (rewrite (touches_rest _ _ _ _ T1); reflexivity).
  pose proof (budget_alert auth spent now (budget_random d) s2 (touches_ok _ _ _ _ T1) (Fr _ ltac:(by left)) Hspent Hrange) as HB.
  assert (E3 : s3 = (exec (syncAPIKeyBudgetAlert auth spent now (budget_random d)) s2).2).
  { unfold s3, syncAPIKeyBudgetAlertForAuth. rewrite (proj2 (Z.leb_gt (effectiveMonthlyBudgetMicros auth) 0) Hlimit).
    cbn. by rewrite Eused. }
  unfold solo in HB. rewrite <- E3 in HB. fold limit key in HB. rewrite (proj2 (Z.ltb_lt 0 limit) Hlimit) in HB. cbn [andb] in HB.
  split; intros Hcase.
  - rewrite (proj2 (Z.ltb_lt _ _) Hcase) in HB. destruct HB as (_ & _ & e & He & Hsev & _). by exists e.
  - rewrite (proj2 (Z.ltb_ge _ _) Hcase) in HB. by destruct HB as (_ & _ & He & _).
Qed.
End Spending.

(** ** Witnesses *)

Module Demo.
#[local] Existing Instance canonical_range.
#[local] Existing Instance PricingService.Demo.no_lower.
#[local] Existing Instance PricingService.Demo.no_upper.
#[local] Existing Instance UsagePricing.Demo.no_escapes.

Definition now_ : time := 719162 * day + 5.
Definition input : usage_input := GatewayUsageInput.zero
  <| GatewayUsageInput.OperationID := "op1"%string |> <| GatewayUsageInput.RequestFingerprint := "f"%string |>
  <| GatewayUsageInput.Model := "m"%string |> <| GatewayUsageInput.UpstreamModel := "up"%string |>
  <| GatewayUsageInput.Protocol := "openai"%string |> <| GatewayUsageInput.ProviderAccountID := "acc"%string |>
  <| GatewayUsageInput.InputTokens := 1500000 |>.
Definition late_input : usage_input := input <| GatewayUsageInput.LatencyMS := 20 |>
  <| GatewayUsageInput.ProviderID := "p"%string |>.
Definition auth : GatewayAuthContext.t := GatewayAuthContext.zero
  <| GatewayAuthContext.APIKey := APIKeyRecord.zero
       <| APIKeyRecord.ID := "key"%string |> <| APIKeyRecord.MonthlyBudgetMicros := 6 |> |>.
Definition d : usage_draws := mkUsageDraws "r" "qa" "ba" "ra".

(** *** What the provider charges *)

Definition old_price : ProcurementPrice.t := ProcurementPrice.zero
  <| ProcurementPrice.ID := "old"%string |> <| ProcurementPrice.Status := "active"%string |>
  <| ProcurementPrice.ProviderAccountID := "acc"%string |> <| ProcurementPrice.UpstreamModel := "up"%string |>
  <| ProcurementPrice.Protocol := "openai"%string |> <| ProcurementPrice.RequestMicros := 2 |>
  <| ProcurementPrice.UncachedInputMicrosPer1MTokens := 3 |>.
Definition new_price : ProcurementPrice.t := old_price
  <| ProcurementPrice.ID := "new"%string |> <| ProcurementPrice.EffectiveFrom := 10 |>
  <| ProcurementPrice.UncachedInputMicrosPer1MTokens := 5 |>.
Definition future_price : ProcurementPrice.t := new_price
  <| ProcurementPrice.ID := "future"%string |> <| ProcurementPrice.EffectiveFrom := now_ + 1 |>.
Definition prices : list ProcurementPrice.t := [future_price; old_price; new_price].
Definition estimate : gatewayProcurementCostEstimate.t :=
  gatewayProcurementCostEstimate.mk 10 "USD" "procurement_price" "estimated" "new".

(** The multiplier lets 2^63 pass: the comparison of floats takes [max_int64] for
    it, and the conversion makes it negative. *)
Example multiplier_overflows : applyRechargeMultiplier max_int64 float_one = Some min_int64.
Proof. vm_compute. reflexivity. Qed.

(** *** A recording for a free operation, twice *)

Notation free_record := (record_usage PricingService.Demo.parse PricingService.Demo.compile PricingService.Demo.run
  PricingService.Demo.wrap PricingService.Demo.show PricingService.Demo.marshal UsagePricing.Demo.marshal_dimensions).
Definition recorded := run_in (free_record auth input "r" now_ now_) UsageBilling.Demo.admitted.
Definition record : UsageRecord.t := match recorded.1 with Ok (x, _) => x | Err _ => UsageRecord.zero end.
Definition late_recorded := run_in (free_record GatewayAuthContext.zero late_input "s" (now_ + 3) (now_ + 4)) recorded.2.

Example records : recorded.1 = Ok (record, true) /\ UsageRecord.PricingStatus record = "free"%string.
Proof. vm_compute. split; reflexivity. Qed.

(** *** A recording for an operation with a fixed price of five *)

Definition parse (_ : string) : result string Node :=
  Ok (CallNode (IdentifierNode "fixed_line") [StringNode "request"; StringNode "request"; IntegerNode 5]).
Definition run (_ : unit) (_ : gmap string value) : script :=
  Call (call_fixed_line "request" "request" (VInt64 5)) (fun amount => Return (VInt64 amount)).
Notation paid f := (f parse PricingService.Demo.compile run PricingService.Demo.wrap PricingService.Demo.show
  PricingService.Demo.marshal) (only parsing).

Definition created := run_in (CreatePricingRule ["m"%string] "admin" PricingService.Demo.request PricingService.Demo.d1) (world start).
Definition published := run_in (paid PublishPricingRule "admin" "prule_r1" PricingService.Demo.publish PricingService.Demo.d2) created.2.
Definition prepared := run_in (paid service_newBillingHoldAdmission HoldEstimate.Demo.unmarshal "h" "e"
  HoldEstimate.Demo.operation HoldEstimate.Demo.limits HoldEstimate.Demo.request) published.2.
Definition admission := match prepared.1 with Ok a => a | Err _ => BillingHoldAdmission.zero end.
Definition before : service_state :=
  mkService (CreateAIOperationWithBillingHold HoldEstimate.Demo.operation admission prepared.2.2).2 now_ ∅.
Definition alone := exec (on_service (paid record_usage UsagePricing.Demo.marshal_dimensions auth input "r" now_ now_)) before.
Definition whole := exec (paid RecordGatewayUsage UsagePricing.Demo.marshal_dimensions auth input d now_ now_) before.
Definition paid_record : UsageRecord.t := match alone.1 with Ok (x, _) => x | Err _ => UsageRecord.zero end.

Example charges : alone.1 = Ok (paid_record, true) /\ UsageRecord.UsageCostMicros paid_record = Some 5.
Proof. vm_compute. split; reflexivity. Qed.
End Demo.

#[local] Existing Instance canonical_range.
#[local] Existing Instance PricingService.Demo.no_lower.
#[local] Existing Instance PricingService.Demo.no_upper.
#[local] Existing Instance UsagePricing.Demo.no_escapes.

Lemma procurement_estimate_exact_witness :
  exists price cost, holds_now Demo.prices Demo.input Demo.now_ price /\
    let total := ProcurementPrice.RequestMicros price + sum_Z component_cost (cost_components price Demo.input) in
    let multiplier := multiplier_in_force (ProcurementPrice.RechargeMultiplier price) in
    Forall component_fits (cost_components price Demo.input) /\ total <= max_int64 /\
    charged (fmul (of_int total) multiplier) cost /\
    (multiplier = float_one -> total < 2 ^ 53 -> cost = total) /\
    Demo.estimate = gatewayProcurementCostEstimate.mk cost
      (or_else (ToUpper (TrimSpace (ProcurementPrice.Currency price))) "USD") "procurement_price"
      (or_else (TrimSpace (ProcurementPrice.Confidence price)) ProcurementCostConfidenceEstimated)
      (ProcurementPrice.ID price).
Proof.
  apply (procurement_estimate_exact Demo.prices Demo.input Demo.now_ Demo.estimate).
  - repeat constructor; vm_compute; discriminate.
  - split_and!; [vm_compute; discriminate..|]. repeat constructor; vm_compute; discriminate.
  - vm_compute. reflexivity.
Defined.

Lemma spending_alerted_witness :
  alerts_ok (alertEvents (Service.repository Demo.whole.2)) /\
  (79 * 6 < 5 * 100 -> exists e, opened "api_key_budget:key:1970-01" (alertEvents (Service.repository Demo.whole.2)) = Some e /\
     AlertEvent.Severity e = AlertSeverityWarning) /\
  (5 * 100 <= 79 * 6 -> opened "api_key_budget:key:1970-01" (alertEvents (Service.repository Demo.whole.2)) = None).
Proof.
  assert (Elimit : effectiveMonthlyBudgetMicros Demo.auth = 6) by reflexivity.
  assert (Ekey : TrimSpace (budget_dedupe_key Demo.auth (UsageRecord.CreatedAt Demo.paid_record)) = "api_key_budget:key:1970-01"%string)
    by (vm_compute; reflexivity).
  assert (Espent : SumUsageCostMicrosByAPIKeySince (APIKeyRecord.ID (GatewayAuthContext.APIKey Demo.auth))
    (monthStart (UsageRecord.CreatedAt Demo.paid_record)) (Service.repository Demo.alone.2) = 5) by (vm_compute; reflexivity).
  assert (H := spending_alerted Demo.parse PricingService.Demo.compile Demo.run PricingService.Demo.wrap PricingService.Demo.show
    PricingService.Demo.marshal UsagePricing.Demo.marshal_dimensions Demo.auth Demo.input Demo.d Demo.now_ Demo.now_
    Demo.before Demo.paid_record 5 Demo.alone.2 Demo.whole.1 Demo.whole.2).
  cbv zeta in H. rewrite Elimit, Ekey, Espent in H. apply H.
  - vm_compute. apply no_alerts_ok.
  - intros random _. vm_compute. reflexivity.
  - apply (bool_decide_unpack _). vm_compute. reflexivity.
  - rewrite <- (proj1 Demo.charges). apply surjective_pairing.
  - apply surjective_pairing.
  - vm_compute. reflexivity.
  - reflexivity.
  - reflexivity.
  - lia.
  - vm_compute. discriminate.
Defined.

Lemma usage_recorded_once_witness :
  exists record' again b, Demo.late_recorded.1 = Ok (record', false) /\
    rtc UsageBilling.Demo.evolves Demo.recorded.2 b /\
    ApplyUsageSettlement UsagePricing.Demo.marshal_dimensions again b.2 = (Ok false, b.2) /\
    rtc UsageBilling.Demo.evolves (b.1 + 1, b.2) Demo.late_recorded.2 /\ kept Demo.recorded.2.2 Demo.late_recorded.2.2.
Proof.
  apply (usage_recorded_once PricingService.Demo.parse PricingService.Demo.compile PricingService.Demo.run
    PricingService.Demo.wrap PricingService.Demo.show PricingService.Demo.marshal UsagePricing.Demo.marshal_dimensions
    Demo.auth GatewayAuthContext.zero Demo.input Demo.late_input "r" "s" Demo.now_ Demo.now_ (Demo.now_ + 3) (Demo.now_ + 4)
    UsageBilling.Demo.admitted Demo.recorded.2 Demo.record Demo.recorded.2).
  - by eexists.
  - apply UsageBilling.Demo.admitted_ok.
  - done.
  - vm_compute. by eexists.
  - intros p q. vm_compute (hold_purposes _ _). intros ->%list_elem_of_singleton ->%list_elem_of_singleton. done.
  - rewrite <- (proj1 Demo.records). apply runs_alone. vm_compute. discriminate.
  - by split.
  - apply rtc_refl.
  - apply runs_alone. vm_compute. discriminate.
Defined.
