(* ===== verification/RealtimeSessions.v ===== *)
(** * Realtime sessions

    [realtime_session.go], the store in memory of [realtime_session_repository.go]
    and the methods of [realtime_session_service.go].  A session belongs to one
    attempt of one operation and goes from connecting to connected to an end; each
    update carries the version it was made for. *)

From S2P Require Import Prelude Threads Canonical AccessModel RoutingModel UsageDimensions Repository Service JobModel Attempts System UsageBilling.

Definition RealtimeSessionStatusConnecting := "connecting"%string.
Definition RealtimeSessionStatusConnected := "connected"%string.
Definition RealtimeSessionStatusCompleted := "completed"%string.
Definition RealtimeSessionStatusFailed := "failed"%string.
Definition RealtimeSessionStatusCanceled := "canceled"%string.

Definition ErrRealtimeSessionStateConflict : go_error := ErrNew "realtime session state changed concurrently".

Notation session := RealtimeSession.t (only parsing).

Module RealtimeSessionUpdate.
Record t := mk {
  Status : string;
  InputAudioBytes : Z;
  OutputAudioBytes : Z;
  ClientMessageCount : Z;
  ProviderMessageCount : Z;
  TransferBytes : Z;
  UsageVersion : Z;
  ErrorType : string;
  ConnectedAt : option time;
  ClosedAt : option time;
  UpdatedAt : time;
}.
#[export] Instance settable : Settable t := fun r => mk
  (Status r) (InputAudioBytes r) (OutputAudioBytes r) (ClientMessageCount r)
  (ProviderMessageCount r) (TransferBytes r) (UsageVersion r) (ErrorType r) (ConnectedAt r)
  (ClosedAt r) (UpdatedAt r).
End RealtimeSessionUpdate.
Export (hints) RealtimeSessionUpdate.

(** ** One session *)

Definition is_set (t : option time) : bool := match t with Some _ => true | None => false end.

Definition validateRealtimeSession (s : session) : result go_error unit :=
  guard_err
    ((TrimSpace (RealtimeSession.ID s) =s "") || (TrimSpace (RealtimeSession.OperationID s) =s "")
     || (TrimSpace (RealtimeSession.AttemptID s) =s "") || (TrimSpace (RealtimeSession.CredentialID s) =s "")
     || (TrimSpace (RealtimeSession.Model s) =s "")
     || (RealtimeSession.Status s <>s RealtimeSessionStatusConnecting)
     || negb (RealtimeSession.Version s =? 1) || IsZero (RealtimeSession.CreatedAt s)
     || IsZero (RealtimeSession.UpdatedAt s) || is_set (RealtimeSession.ConnectedAt s)
     || is_set (RealtimeSession.ClosedAt s)
     || negb (RealtimeSession.InputAudioBytes s =? 0) || negb (RealtimeSession.OutputAudioBytes s =? 0)
     || negb (RealtimeSession.ClientMessageCount s =? 0) || negb (RealtimeSession.ProviderMessageCount s =? 0)
     || negb (RealtimeSession.TransferBytes s =? 0) || negb (RealtimeSession.UsageVersion s =? 0)
     || negb (RealtimeSession.SessionDurationMS s =? 0) || (RealtimeSession.ErrorType s <>s ""))
    (ErrNew "invalid realtime session").

Definition validRealtimeSessionTransition (from to : string) : bool :=
  if (from =s to) && oneOf from [RealtimeSessionStatusConnecting; RealtimeSessionStatusConnected] then true
  else if from =s RealtimeSessionStatusConnecting
  then oneOf to [RealtimeSessionStatusConnected; RealtimeSessionStatusFailed; RealtimeSessionStatusCanceled]
  else if from =s RealtimeSessionStatusConnected
  then oneOf to [RealtimeSessionStatusCompleted; RealtimeSessionStatusFailed; RealtimeSessionStatusCanceled]
  else false.

Definition ends (status : string) : bool :=
  oneOf status [RealtimeSessionStatusCompleted; RealtimeSessionStatusFailed; RealtimeSessionStatusCanceled].

(** The checks of an update against the session as it is. *)
Definition goes_back (current : session) (update : RealtimeSessionUpdate.t) : bool :=
  negb (validRealtimeSessionTransition (RealtimeSession.Status current) (RealtimeSessionUpdate.Status update))
  || IsZero (RealtimeSessionUpdate.UpdatedAt update)
  || Before (RealtimeSessionUpdate.UpdatedAt update) (RealtimeSession.UpdatedAt current)
  || (RealtimeSessionUpdate.InputAudioBytes update <? RealtimeSession.InputAudioBytes current)
  || (RealtimeSessionUpdate.OutputAudioBytes update <? RealtimeSession.OutputAudioBytes current)
  || (RealtimeSessionUpdate.ClientMessageCount update <? RealtimeSession.ClientMessageCount current)
  || (RealtimeSessionUpdate.ProviderMessageCount update <? RealtimeSession.ProviderMessageCount current)
  || (RealtimeSessionUpdate.TransferBytes update <? RealtimeSession.TransferBytes current)
  || (RealtimeSessionUpdate.UsageVersion update <? RealtimeSession.UsageVersion current).

Definition incomplete (update : RealtimeSessionUpdate.t) : bool :=
  ((RealtimeSessionUpdate.Status update =s RealtimeSessionStatusConnected)
   && negb (is_set (RealtimeSessionUpdate.ConnectedAt update)))
  || (ends (RealtimeSessionUpdate.Status update) && negb (is_set (RealtimeSessionUpdate.ClosedAt update)))
  || ((RealtimeSessionUpdate.Status update =s RealtimeSessionStatusCompleted)
      && (TrimSpace (RealtimeSessionUpdate.ErrorType update) <>s ""))
  || ((RealtimeSessionUpdate.Status update =s RealtimeSessionStatusFailed)
      && (TrimSpace (RealtimeSessionUpdate.ErrorType update) =s "")).

(** The moment of the connection after an update: it does not change. *)
Definition connected_at (current : session) (update : RealtimeSessionUpdate.t) : result go_error (option time) :=
  match RealtimeSessionUpdate.ConnectedAt update with
  | None => Ok (RealtimeSession.ConnectedAt current)
  | Some at_ =>
      match RealtimeSession.ConnectedAt current with
      | Some before => if before =? at_ then Ok (Some at_) else Err ErrRealtimeSessionStateConflict
      | None => Ok (Some at_)
      end
  end.

Definition duration_ms (connectedAt closedAt : option time) : result go_error Z :=
  match closedAt, connectedAt with
  | Some closed, Some connected =>
      if Before closed connected then Err (ErrNew "realtime session closed before it connected")
      else Ok (Z.quot (TimeSub closed connected) millisecond)
  | _, _ => Ok 0
  end.

Definition applyRealtimeSessionUpdate (current : session) (update : RealtimeSessionUpdate.t)
    : result go_error session :=
  if goes_back current update then Err ErrRealtimeSessionStateConflict
  else if incomplete update then Err (ErrNew "invalid realtime session update")
  else
    connectedAt ← connected_at current update;
    durationMS ← duration_ms connectedAt (RealtimeSessionUpdate.ClosedAt update);
    Ok (current
      <| RealtimeSession.Status := RealtimeSessionUpdate.Status update |>
      <| RealtimeSession.Version := RealtimeSession.Version current +i 1 |>
      <| RealtimeSession.InputAudioBytes := RealtimeSessionUpdate.InputAudioBytes update |>
      <| RealtimeSession.OutputAudioBytes := RealtimeSessionUpdate.OutputAudioBytes update |>
      <| RealtimeSession.ClientMessageCount := RealtimeSessionUpdate.ClientMessageCount update |>
      <| RealtimeSession.ProviderMessageCount := RealtimeSessionUpdate.ProviderMessageCount update |>
      <| RealtimeSession.TransferBytes := RealtimeSessionUpdate.TransferBytes update |>
      <| RealtimeSession.UsageVersion := RealtimeSessionUpdate.UsageVersion update |>
      <| RealtimeSession.SessionDurationMS := durationMS |>
      <| RealtimeSession.ErrorType := TrimSpace (RealtimeSessionUpdate.ErrorType update) |>
      <| RealtimeSession.ConnectedAt := connectedAt |>
      <| RealtimeSession.ClosedAt := RealtimeSessionUpdate.ClosedAt update |>
      <| RealtimeSession.UpdatedAt := RealtimeSessionUpdate.UpdatedAt update |>).

(** ** The store *)

Section Store.
Context `{range : MapRange}.

Definition same_work (s current : session) : bool :=
  (RealtimeSession.OperationID current =s RealtimeSession.OperationID s)
  || (RealtimeSession.AttemptID current =s RealtimeSession.AttemptID s).

Definition CreateOrGetRealtimeSession (s : session) : M (session * bool) :=
  _ ← lift (validateRealtimeSession s);
  r ← read id;
  _ ← check (negb (has (aiOperations r) (RealtimeSession.OperationID s))) (ErrNew "realtime operation not found");
  _ ← check (negb (has (aiAttempts r) (RealtimeSession.AttemptID s))) (ErrNew "realtime attempt not found");
  match find_value (same_work s) (realtimeSessions r) with
  | Some current => mret (current, false)
  | None =>
      _ ← check (has (realtimeSessions r) (RealtimeSession.ID s)) (ErrNew "realtime session id already exists");
      _ ← write (fun r => r.[realtimeSessions]:[RealtimeSession.ID s] <- s);
      mret (s, true)
  end.

Definition FindRealtimeSession (id : string) (r : MemoryRepository) : option session :=
  realtimeSessions r !! TrimSpace id.

Definition UpdateRealtimeSession (id : string) (expectedVersion : Z) (update : RealtimeSessionUpdate.t)
    : M (session * bool) :=
  found ← read (FindRealtimeSession id);
  match found with
  | None => mret (RealtimeSession.zero, false)
  | Some current =>
      if negb (RealtimeSession.Version current =? expectedVersion) then mret (current, false)
      else
        updated ← lift (applyRealtimeSessionUpdate current update);
        _ ← write (fun r => r.[realtimeSessions]:[RealtimeSession.ID current] <- updated);
        mret (updated, true)
  end.

(** ** The service *)

Definition BeginRealtimeSession (operation : AIOperation.t) (attempt : AIAttempt.t) (provider : GatewayProvider.t)
    (random : string) : serv (session * bool) :=
  _ ← refuse ((AIOperation.ID operation =s "") || (AIOperation.Protocol operation <>s ProtocolRealtime)
      || (AIOperation.Operation operation <>s GatewayOperationRealtimeSession)
      || (AIOperation.Modality operation <>s GatewayModalityAudio) || (AIOperation.Lane operation <>s LaneDirect)
      || (AIOperation.Status operation <>s AIOperationStatusRunning)
      || (AIAttempt.OperationID attempt <>s AIOperation.ID operation)
      || (AIAttempt.Status attempt <>s AIAttemptStatusRunning) || (AIAttempt.ID attempt =s ""))
    (ErrNew "invalid realtime operation or attempt");
  now ← nowUTC;
  section (CreateOrGetRealtimeSession {|
    RealtimeSession.ID := "rts_" +:+ random;
    RealtimeSession.OperationID := AIOperation.ID operation;
    RealtimeSession.AttemptID := AIAttempt.ID attempt;
    RealtimeSession.ApplicationID := AIOperation.ApplicationID operation;
    RealtimeSession.CredentialID := AIOperation.CredentialID operation;
    RealtimeSession.PrincipalType := AIOperation.PrincipalType operation;
    RealtimeSession.PrincipalID := AIOperation.PrincipalID operation;
    RealtimeSession.Model := AIOperation.Model operation;
    RealtimeSession.ProviderID := GatewayProvider.ID provider;
    RealtimeSession.ProviderAccountID := GatewayProvider.AccountID provider;
    RealtimeSession.UpstreamModel := GatewayProvider.UpstreamModel provider;
    RealtimeSession.Status := RealtimeSessionStatusConnecting;
    RealtimeSession.Version := 1;
    RealtimeSession.InputAudioBytes := 0;
    RealtimeSession.OutputAudioBytes := 0;
    RealtimeSession.ClientMessageCount := 0;
    RealtimeSession.ProviderMessageCount := 0;
    RealtimeSession.TransferBytes := 0;
    RealtimeSession.UsageVersion := 0;
    RealtimeSession.SessionDurationMS := 0;
    RealtimeSession.ErrorType := "";
    RealtimeSession.ConnectedAt := None;
    RealtimeSession.ClosedAt := None;
    RealtimeSession.CreatedAt := now;
    RealtimeSession.UpdatedAt := now |}%string).

Definition service_UpdateRealtimeSession (id : string) (expectedVersion : Z) (update : RealtimeSessionUpdate.t)
    : serv session :=
  now ← nowUTC;
  '(updated, changed) ← section (UpdateRealtimeSession (TrimSpace id) expectedVersion
    (update <| RealtimeSessionUpdate.UpdatedAt := now |>));
  if changed : bool then mret updated else throw ErrRealtimeSessionStateConflict.
End Store.

(** ** What a session is, and what becomes of it *)

Definition statuses : list string :=
  [RealtimeSessionStatusConnecting; RealtimeSessionStatusConnected;
   RealtimeSessionStatusCompleted; RealtimeSessionStatusFailed; RealtimeSessionStatusCanceled].

(** A session after [n] critical sections. *)
Record session_ok (n : Z) (s : session) : Prop := {
  session_status : oneOf (RealtimeSession.Status s) statuses = true;
  session_version : 1 <= RealtimeSession.Version s <= n;
  session_counters : 0 <= RealtimeSession.InputAudioBytes s /\ 0 <= RealtimeSession.OutputAudioBytes s /\
    0 <= RealtimeSession.ClientMessageCount s /\ 0 <= RealtimeSession.ProviderMessageCount s /\
    0 <= RealtimeSession.TransferBytes s /\ 0 <= RealtimeSession.UsageVersion s;
  session_connected : oneOf (RealtimeSession.Status s) [RealtimeSessionStatusConnected; RealtimeSessionStatusCompleted] = true ->
    is_set (RealtimeSession.ConnectedAt s) = true;
  session_closed : ends (RealtimeSession.Status s) = true -> is_set (RealtimeSession.ClosedAt s) = true;
  session_completed : RealtimeSession.Status s = RealtimeSessionStatusCompleted -> RealtimeSession.ErrorType s = ""%string;
  session_failed : RealtimeSession.Status s = RealtimeSessionStatusFailed -> RealtimeSession.ErrorType s <> ""%string;
  session_duration : duration_ms (RealtimeSession.ConnectedAt s) (RealtimeSession.ClosedAt s) =
    Ok (RealtimeSession.SessionDurationMS s);
}.

(** What a session belongs to. *)
Definition belongings (s : session) :=
  (RealtimeSession.ID s, RealtimeSession.OperationID s, RealtimeSession.AttemptID s, RealtimeSession.ApplicationID s,
   RealtimeSession.CredentialID s, RealtimeSession.PrincipalType s, RealtimeSession.PrincipalID s,
   RealtimeSession.Model s, RealtimeSession.ProviderID s, RealtimeSession.ProviderAccountID s,
   RealtimeSession.UpstreamModel s, RealtimeSession.CreatedAt s).

(** A session and the same session later. *)
Record follows (s s' : session) : Prop := {
  follows_belongings : belongings s' = belongings s;
  follows_status : rtc (fun a b => validRealtimeSessionTransition a b = true) (RealtimeSession.Status s) (RealtimeSession.Status s');
  follows_version : RealtimeSession.Version s <= RealtimeSession.Version s';
  follows_same : RealtimeSession.Version s' = RealtimeSession.Version s -> s' = s;
  follows_final : ends (RealtimeSession.Status s) = true -> s' = s;
  follows_counters :
    RealtimeSession.InputAudioBytes s <= RealtimeSession.InputAudioBytes s' /\
    RealtimeSession.OutputAudioBytes s <= RealtimeSession.OutputAudioBytes s' /\
    RealtimeSession.ClientMessageCount s <= RealtimeSession.ClientMessageCount s' /\
    RealtimeSession.ProviderMessageCount s <= RealtimeSession.ProviderMessageCount s' /\
    RealtimeSession.TransferBytes s <= RealtimeSession.TransferBytes s' /\
    RealtimeSession.UsageVersion s <= RealtimeSession.UsageVersion s' /\
    RealtimeSession.UpdatedAt s <= RealtimeSession.UpdatedAt s';
  follows_connected : is_set (RealtimeSession.ConnectedAt s) = true ->
    RealtimeSession.ConnectedAt s' = RealtimeSession.ConnectedAt s;
}.

Lemma follows_refl s : follows s s.
Proof. split; try done; try apply rtc_refl; split_and!; lia. Qed.

Lemma follows_trans s1 s2 s3 : follows s1 s2 -> follows s2 s3 -> follows s1 s3.
Proof.
  intros [A1 A2 A3 A4 A5 A6 A7] [B1 B2 B3 B4 B5 B6 B7]. split; try lia.
  - congruence.
  - by transitivity (RealtimeSession.Status s2).
  - intros E. assert (s2 = s1) as -> by (apply A4; lia). by apply B4.
  - intros E. rewrite (A5 E) in *. by apply B5.
  - intros E. rewrite <- (A7 E). apply B7. by rewrite (A7 E).
Qed.

Lemma transition_ends a b : validRealtimeSessionTransition a b = true -> ends a = false.
Proof.
  unfold validRealtimeSessionTransition, ends. intros H. apply oneOf_not_In. intros Hin.
  destruct (String.eqb a b); elem_cases Hin; subst a; by vm_compute in H.
Qed.

Lemma transition_status a b : validRealtimeSessionTransition a b = true -> oneOf b statuses = true.
Proof.
  unfold validRealtimeSessionTransition, statuses. rewrite !oneOf_In. intros H.
  destruct (_ && _) eqn:E.
  { apply andb_true_iff in E as [->%String.eqb_eq E%oneOf_In]. set_solver. }
  destruct (a =s RealtimeSessionStatusConnecting); [apply oneOf_In in H; set_solver|].
  destruct (a =s RealtimeSessionStatusConnected); [apply oneOf_In in H; set_solver|done].
Qed.

(** Only a connected session is completed. *)
Lemma transition_completed a : validRealtimeSessionTransition a RealtimeSessionStatusCompleted = true ->
  a = RealtimeSessionStatusConnected.
Proof.
  unfold validRealtimeSessionTransition. destruct (String.eqb_spec a RealtimeSessionStatusCompleted) as [->|]; [done|].
  cbn [andb]. destruct (String.eqb_spec a RealtimeSessionStatusConnecting); [done|].
  by destruct (String.eqb_spec a RealtimeSessionStatusConnected).
Qed.

Lemma connected_at_spec current update at_ : connected_at current update = Ok at_ ->
  (is_set (RealtimeSession.ConnectedAt current) = true -> at_ = RealtimeSession.ConnectedAt current) /\
  (is_set (RealtimeSessionUpdate.ConnectedAt update) = true -> at_ = RealtimeSessionUpdate.ConnectedAt update).
Proof.
  unfold connected_at. destruct (RealtimeSessionUpdate.ConnectedAt update) as [t|]; [|by intros [= <-]].
  destruct (RealtimeSession.ConnectedAt current) as [u|]; [|by intros [= <-]].
  destruct (Z.eqb_spec u t) as [->|]; [|done]. by intros [= <-].
Qed.

(** What an accepted update is. *)
Lemma update_accepted n current update updated : n < max_int64 -> session_ok n current ->
  applyRealtimeSessionUpdate current update = Ok updated ->
  session_ok (n + 1) updated /\ follows current updated /\
  RealtimeSession.Version updated = RealtimeSession.Version current + 1.
Proof.
  intros Hn [O1 O2 O3 O4 O5 O6 O7 O8] H. unfold applyRealtimeSessionUpdate in H.
  destruct (goes_back current update) eqn:Eb; [done|]. destruct (incomplete update) eqn:Ei; [done|].
  apply bind_Ok in H as (at_ & Ha & H). apply bind_Ok in H as (ms & Hms & [= <-]).
  apply connected_at_spec in Ha as [Ha1 Ha2]. unfold goes_back, Before in Eb. unfold incomplete in Ei.
  repeat match goal with H : _ || _ = false |- _ => apply orb_false_iff in H as [H ?] end.
  repeat match goal with H : (_ <? _) = false |- _ => apply Z.ltb_ge in H end.
  match goal with H : negb (validRealtimeSessionTransition _ _) = false |- _ => apply negb_false_iff in H; rename H into Ht end.
  assert (Ev : RealtimeSession.Version current +i 1 = RealtimeSession.Version current + 1)
    by (apply wrap64_id; unfold in_int64, min_int64, max_int64 in *; lia).
  pose proof (transition_ends _ _ Ht) as Hend.
  split_and!; [split; cbn; rewrite ?Ev|split; cbn; rewrite ?Ev|done]; try lia; try done.
  - by eapply transition_status.
  - intros Hc%oneOf_In. elem_cases Hc; rewrite Hc in *.
    + destruct (is_set (RealtimeSessionUpdate.ConnectedAt update)) eqn:Es; [by rewrite Ha2|done].
    + apply transition_completed in Ht. rewrite Ht in *. by rewrite Ha1; apply O4.
  - intros Hc. rewrite Hc in *. by destruct (is_set (RealtimeSessionUpdate.ClosedAt update)).
  - intros Hc. rewrite Hc in *. by match goal with H : _ && negb (TrimSpace _ =s _) = false |- _ =>
      apply andb_false_iff in H as [H|H%negb_false_iff%String.eqb_eq] end.
  - intros Hc. rewrite Hc in *. by match goal with H : _ && (TrimSpace _ =s _) = false |- _ =>
      apply andb_false_iff in H as [H|H%String.eqb_neq] end.
  - by apply rtc_once.
  - by rewrite Hend.
Qed.

(** ** The store over time *)

Section Sessions.
Context `{range : MapRange} `{unicode : UnicodeCase} `{json : JSONText}.
Context (MarshalDimensions : gmap string UsageDimension -> result go_error string).
Notation world := (Z * MemoryRepository)%type.

(** Anything that happens to the store: sessions begin and change, the operations
    of the repository run, and whatever else leaves sessions, operations and
    attempts alone; fewer than [2^63 - 1] of them. *)
Inductive session_step : world -> world -> Prop :=
| Step_begin n r s x r' : n < max_int64 ->
    CreateOrGetRealtimeSession s r = (x, r') -> session_step (n, r) (n + 1, r')
| Step_update n r id version update x r' : n < max_int64 ->
    UpdateRealtimeSession id version update r = (x, r') -> session_step (n, r) (n + 1, r')
| Step_repository n r r' : n < max_int64 ->
    repository_step MarshalDimensions r r' -> session_step (n, r) (n + 1, r')
| Step_elsewhere n r r' : n < max_int64 ->
    realtimeSessions r' = realtimeSessions r -> basis r' = basis r -> session_step (n, r) (n + 1, r').

Record sessions_ok (w : world) : Prop := {
  sessions_clock : 0 <= w.1;
  sessions_billing : billing_ok w.2;
  sessions_keyed : keyed RealtimeSession.ID (realtimeSessions w.2);
  sessions_each : map_Forall (fun _ s => session_ok w.1 s) (realtimeSessions w.2);
  sessions_work : map_Forall (fun _ s =>
    RealtimeSession.OperationID s <> ""%string /\
    is_Some (aiOperations w.2 !! RealtimeSession.OperationID s) /\
    is_Some (aiAttempts w.2 !! RealtimeSession.AttemptID s)) (realtimeSessions w.2);
  sessions_alone : forall k1 k2 s1 s2, realtimeSessions w.2 !! k1 = Some s1 -> realtimeSessions w.2 !! k2 = Some s2 ->
    RealtimeSession.OperationID s1 = RealtimeSession.OperationID s2 \/
    RealtimeSession.AttemptID s1 = RealtimeSession.AttemptID s2 -> k1 = k2;
}.

(** Every session of a store is in a later one. *)
Definition continued (r r' : MemoryRepository) : Prop := forall k s, realtimeSessions r !! k = Some s ->
  exists s', realtimeSessions r' !! k = Some s' /\ follows s s'.

Lemma session_later n n' s : n <= n' -> session_ok n s -> session_ok n' s.
Proof. intros Hn [O1 O2 O3 O4 O5 O6 O7 O8]. split; try done. lia. Qed.

Lemma valid_session n s : 0 <= n -> validateRealtimeSession s = Ok tt ->
  session_ok (n + 1) s /\ RealtimeSession.OperationID s <> ""%string.
Proof.
  intros Hn H. unfold validateRealtimeSession in H. apply guard_Ok in H.
  repeat match goal with H : _ || _ = false |- _ => apply orb_false_iff in H as [H ?] end.
  repeat match goal with
  | H : negb _ = false |- _ => apply negb_false_iff in H
  | H : (_ =? _) = true |- _ => apply Z.eqb_eq in H
  | H : (_ =s _) = true |- _ => apply String.eqb_eq in H
  | H : (_ =s _) = false |- _ => apply String.eqb_neq in H
  end.
  split; [|intros E; match goal with H : TrimSpace (RealtimeSession.OperationID _) <> _ |- _ => by rewrite E in H end].
  split; repeat match goal with H : _ s = _ |- _ => rewrite H; clear H end; try done; try lia.
  unfold duration_ms. destruct (RealtimeSession.ClosedAt s); [done|]. congruence.
Qed.

Lemma create_session_inv s r x r' : CreateOrGetRealtimeSession s r = (x, r') ->
  r' = r \/
  (r' = r <| realtimeSessions := <[RealtimeSession.ID s := s]> (realtimeSessions r) |> /\ x = Ok (s, true) /\
   validateRealtimeSession s = Ok tt /\
   is_Some (aiOperations r !! RealtimeSession.OperationID s) /\ is_Some (aiAttempts r !! RealtimeSession.AttemptID s) /\
   realtimeSessions r !! RealtimeSession.ID s = None /\
   forall k s', realtimeSessions r !! k = Some s' ->
     RealtimeSession.OperationID s' <> RealtimeSession.OperationID s /\ RealtimeSession.AttemptID s' <> RealtimeSession.AttemptID s).
Proof.
  unfold CreateOrGetRealtimeSession. intros H. m_inv H; try by left.
  destruct (find_value _ _) as [current|] eqn:Ef; [left; by injection H as _ <-|]. m_inv H; [by left|]. right.
  destruct a. apply negb_false_iff, has_Some in H1, H2. apply has_None in H3.
  split_and!; try done. intros k s' Hk. rewrite find_value_None in Ef. specialize (Ef k s' Hk).
  unfold same_work in Ef. by boolify.
Qed.

Lemma update_session_inv id version update r x r' : UpdateRealtimeSession id version update r = (x, r') ->
  (r' = r /\ forall s, x <> Ok (s, true)) \/
  exists current updated, realtimeSessions r !! TrimSpace id = Some current /\
    RealtimeSession.Version current = version /\ applyRealtimeSessionUpdate current update = Ok updated /\
    x = Ok (updated, true) /\ r' = r <| realtimeSessions := <[RealtimeSession.ID current := updated]> (realtimeSessions r) |>.
Proof.
  unfold UpdateRealtimeSession, FindRealtimeSession. intros H. m_inv H.
  destruct (realtimeSessions r !! TrimSpace id) as [current|] eqn:Ef; [|left; m_inv H; by split].
  destruct (Z.eqb_spec (RealtimeSession.Version current) version) as [Ev|Ev]; cbn [negb] in H; [|left; m_inv H; by split].
  m_inv H; [by left|]. right. eexists current, _. split_and!; eauto.
Qed.

Lemma sessions_unchanged n r r' : n < max_int64 -> realtimeSessions r' = realtimeSessions r -> sound_at r r' ->
  sessions_ok (n, r) -> sessions_ok (n + 1, r') /\ continued r r'.
Proof.
  intros Hn E [Hb Hk] [O1 O2 O3 O4 O5 O6]. cbn in *. split; [split|]; cbn; rewrite ?E; try done; try lia.
  - eapply map_Forall_impl; [exact O4|]. intros k s. apply session_later. lia.
  - eapply map_Forall_impl; [exact O5|]. intros k s (Hne & [o Ho] & [a Ha]).
    destruct (kept_operations _ _ Hk _ _ Hne Ho) as (o' & Ho' & _), (kept_attempts _ _ Hk _ _ Ha) as (a' & Ha' & _).
    split_and!; [done|by exists o'|by exists a'].
  - intros k s Hs. exists s. split; [by rewrite E|apply follows_refl].
Qed.

Lemma session_step_ok w w' : session_step w w' -> sessions_ok w -> sessions_ok w' /\ continued w.2 w'.2.
Proof.
  destruct 1 as [n r s x r' Hn H|n r id version update x r' Hn H|n r r' Hn H|n r r' Hn E1 E2]; intros Hw.
  - apply create_session_inv in H as [->|(-> & _ & Hv & Ho & Ha & Hfresh & Hother)].
    { apply sessions_unchanged; [done..|apply sound_refl, Hw|done]. }
    destruct Hw as [O1 O2 O3 O4 O5 O6]. cbn in *. destruct (valid_session n s O1 Hv) as [Hs Hne]. split; [split|]; cbn.
    + lia.
    + by apply (sound_same r).
    + by apply keyed_insert.
    + apply map_Forall_insert_2; [done|]. eapply map_Forall_impl; [exact O4|]. intros k s'. apply session_later. lia.
    + by apply map_Forall_insert_2.
    + intros k1 k2 s1 s2. rewrite !lookup_insert_Some. intros [[<- <-]|[N1 H1]] [[<- <-]|[N2 H2]] Hs12; try done.
      * destruct (Hother _ _ H2) as [? ?]. destruct Hs12; congruence.
      * destruct (Hother _ _ H1) as [? ?]. destruct Hs12; congruence.
      * by eapply O6.
    + intros k s' Hk. exists s'. split; [|apply follows_refl]. cbn. rewrite lookup_insert_ne; [done|]. congruence.
  - apply update_session_inv in H as [[-> _]|(current & updated & Hf & _ & Hu & _ & ->)].
    { apply sessions_unchanged; [done..|apply sound_refl, Hw|done]. }
    destruct Hw as [O1 O2 O3 O4 O5 O6]. cbn in *. pose proof (O3 _ _ Hf) as Ek. cbn in Ek.
    destruct (update_accepted n current update updated Hn (O4 _ _ Hf) Hu) as (Hs & Hfollow & _).
    pose proof (follows_belongings _ _ Hfollow) as [= EI EO EA _ _ _ _ _ _ _ _ _].
    rewrite Ek in *. split; [split|]; cbn; rewrite ?Ek.
    + lia.
    + by apply (sound_same r).
    + apply keyed_insert; [done|congruence].
    + apply map_Forall_insert_2; [done|]. eapply map_Forall_impl; [exact O4|]. intros k s'. apply session_later. lia.
    + apply map_Forall_insert_2; [|done]. rewrite EO, EA. by apply (O5 _ _ Hf).
    + intros k1 k2 s1 s2. rewrite !lookup_insert_Some.
      intros [[<- <-]|[N1 H1]] [[<- <-]|[N2 H2]]; rewrite ?EO, ?EA; try done; by eapply O6.
    + intros k s' Hk. destruct (decide (k = TrimSpace id)) as [->|Hne].
      * exists updated. cbn. rewrite lookup_insert_eq. split; [done|]. by assert (s' = current) as -> by congruence.
      * exists s'. cbn. rewrite lookup_insert_ne by done. split; [done|apply follows_refl].
  - apply sessions_unchanged; [done|by eapply step_sessions|by eapply repository_step_sound, Hw|done].
  - apply sessions_unchanged; [done..|by apply sound_same, E2; apply Hw|done].
Qed.

Lemma sessions_continue w w' : rtc session_step w w' -> sessions_ok w -> sessions_ok w' /\ continued w.2 w'.2.
Proof.
  induction 1 as [w|w1 w2 w3 H1 _ IH]; intros Hw.
  - split; [done|]. intros k s Hk. exists s. split; [done|apply follows_refl].
  - destruct (session_step_ok _ _ H1 Hw) as [O2 C12]. destruct (IH O2) as [O3 C23]. split; [done|].
    intros k s Hk. destruct (C12 k s Hk) as (s2 & H2 & F12). destruct (C23 k s2 H2) as (s3 & H3 & F23).
    exists s3. split; [done|by eapply follows_trans].
Qed.

Lemma new_sessions_ok : sessions_ok (0, NewMemoryRepository).
Proof.
  split; [done|apply new_billing_ok|apply keyed_empty|apply map_Forall_empty|apply map_Forall_empty|].
  intros k1 k2 s1 s2 H. cbn in H. by rewrite lookup_empty in H.
Qed.

(** ** Properties *)

(** C36. Whatever calls and operations run in whatever order: an attempt and an
    operation have at most one session, which knows them; a session is connected
    before it is completed, has ended when its status says so, with an error type
    exactly where it must have one, and lasts from its connection to its end; its
    counters, its usage version and its own version never go back, its connection
    and what it belongs to never change, and once it has ended nothing of it does. *)
Theorem sessions_sound n r n' r' :
  rtc session_step (0, NewMemoryRepository) (n, r) -> rtc session_step (n, r) (n', r') ->
  sessions_ok (n, r) /\ continued r r'.
Proof.
  intros H H'. destruct (sessions_continue _ _ H new_sessions_ok) as [Hw _].
  by destruct (sessions_continue _ _ H' Hw).
Qed.

(** C37. No update of a session is lost: once an update has been accepted, every
    other update made for the same version is turned away, at any later time, and
    changes nothing. *)
Theorem session_update_once n r id version update s r1 n' r' other :
  rtc session_step (0, NewMemoryRepository) (n, r) -> n < max_int64 ->
  UpdateRealtimeSession id version update r = (Ok (s, true), r1) ->
  rtc session_step (n + 1, r1) (n', r') ->
  exists current, UpdateRealtimeSession id version other r' = (Ok (current, false), r').
Proof.
  intros H Hn Hu H'. destruct (sessions_continue _ _ H new_sessions_ok) as [Hw _].
  assert (Hstep : session_step (n, r) (n + 1, r1)) by by eapply Step_update.
  destruct (session_step_ok _ _ Hstep Hw) as [Hw1 _]. destruct (sessions_continue _ _ H' Hw1) as [_ Hc]. cbn in *.
  apply update_session_inv in Hu as [[_ Hu]|(current & updated & Hf & Hv & Hu & _ & ->)]; [by destruct (Hu s)|].
  pose proof (sessions_keyed _ Hw _ _ Hf) as Ek. cbn in Ek.
  destruct (update_accepted n current update updated Hn (sessions_each _ Hw _ _ Hf) Hu) as (_ & _ & Ev).
  destruct (Hc (TrimSpace id) updated) as (latest & Hl & Hfollow). { cbn. rewrite Ek. apply lookup_insert_eq. }
  exists latest. unfold UpdateRealtimeSession, FindRealtimeSession, mbind, M_bind, read. rewrite Hl.
  rewrite (proj2 (Z.eqb_neq _ _)); [done|]. pose proof (follows_version _ _ Hfollow). lia.
Qed.
End Sessions.

(** ** The service *)

Lemma create_answers `{range : MapRange} s r : validateRealtimeSession s = Ok tt ->
  has (aiOperations r) (RealtimeSession.OperationID s) = true -> has (aiAttempts r) (RealtimeSession.AttemptID s) = true ->
  has (realtimeSessions r) (RealtimeSession.ID s) = false ->
  exists found created, (CreateOrGetRealtimeSession s r).1 = Ok (found, created) /\
    (RealtimeSession.OperationID found = RealtimeSession.OperationID s \/
     RealtimeSession.AttemptID found = RealtimeSession.AttemptID s).
Proof.
  intros Hv Ho Ha Hs. unfold CreateOrGetRealtimeSession, mbind, M_bind, lift, read, id, check. rewrite Hv, Ho, Ha. cbn.
  destruct (find_value _ _) as [found|] eqn:Ef.
  - apply find_value_Some in Ef as [_ Ef]. exists found, false. split; [done|].
    apply orb_true_iff in Ef as [?%String.eqb_eq|?%String.eqb_eq]; auto.
  - rewrite Hs. cbn. eexists _, true. eauto.
Qed.

(** A session is begun for an operation and an attempt the store knows, unless one
    of them has a session already: then that one is the answer. *)
Lemma begins `{range : MapRange} operation attempt provider random s :
  AIOperation.Protocol operation = ProtocolRealtime -> AIOperation.Operation operation = GatewayOperationRealtimeSession ->
  AIOperation.Modality operation = GatewayModalityAudio -> AIOperation.Lane operation = LaneDirect ->
  AIOperation.Status operation = AIOperationStatusRunning -> AIAttempt.Status attempt = AIAttemptStatusRunning ->
  AIAttempt.OperationID attempt = AIOperation.ID operation ->
  TrimSpace (AIOperation.ID operation) <> ""%string -> TrimSpace (AIAttempt.ID attempt) <> ""%string ->
  TrimSpace (AIOperation.CredentialID operation) <> ""%string -> TrimSpace (AIOperation.Model operation) <> ""%string ->
  TrimSpace ("rts_" +:+ random) <> ""%string -> clock s <> 0 ->
  has (aiOperations (repository s)) (AIOperation.ID operation) = true ->
  has (aiAttempts (repository s)) (AIAttempt.ID attempt) = true ->
  has (realtimeSessions (repository s)) ("rts_" +:+ random) = false ->
  exists session created, (exec (BeginRealtimeSession operation attempt provider random) s).1 = Ok (session, created) /\
    (RealtimeSession.OperationID session = AIOperation.ID operation \/
     RealtimeSession.AttemptID session = AIAttempt.ID attempt).
Proof.
  intros E1 E2 E3 E4 E5 E6 E7 N1 N2 N3 N4 N5 Hclock Ho Ha Hs.
  assert (M1 : AIOperation.ID operation <> ""%string) by (intros E; by rewrite E in N1).
  assert (M2 : AIAttempt.ID attempt <> ""%string) by (intros E; by rewrite E in N2).
  unfold BeginRealtimeSession. rewrite E1, E2, E3, E4, E5, E6, E7, !String.eqb_refl.
  rewrite (proj2 (String.eqb_neq _ _) M1), (proj2 (String.eqb_neq _ _) M2). cbn -[TrimSpace String.append].
  match goal with |- context [CreateOrGetRealtimeSession ?x] => set (new := x) end.
  destruct (create_answers new (repository s)) as (found & created & E & Hw); [|done..|].
  - unfold validateRealtimeSession, new, IsZero. cbn -[TrimSpace String.append].
    by rewrite (proj2 (String.eqb_neq _ _) N5), (proj2 (String.eqb_neq _ _) N1), (proj2 (String.eqb_neq _ _) N2),
      (proj2 (String.eqb_neq _ _) N3), (proj2 (String.eqb_neq _ _) N4), (proj2 (Z.eqb_neq _ _) Hclock).
  - exists found, created. unfold on_repository. destruct (CreateOrGetRealtimeSession new (repository s)) as [x r].
    cbn in E |- *. by rewrite E.
Qed.

(** ** Witnesses *)

Module Demo.
#[local] Existing Instance canonical_range.
#[local] Instance no_lower : UnicodeCase := fun s => s.
#[local] Instance no_escapes : JSONText := fun s => s.
Definition marshal_dimensions (_ : gmap string UsageDimension) : result go_error string := Ok "{}"%string.
Notation step := (session_step marshal_dimensions).

Definition operation : AIOperation.t := AIOperation.zero
  <| AIOperation.ID := "op"%string |> <| AIOperation.CredentialID := "key"%string |>
  <| AIOperation.RequestFingerprint := "f"%string |> <| AIOperation.Status := AIOperationStatusRunning |>.
Definition attempt : AIAttempt.t := AIAttempt.zero
  <| AIAttempt.ID := "at"%string |> <| AIAttempt.OperationID := "op"%string |> <| AIAttempt.AttemptNumber := 1 |>.
Definition begun : RealtimeSession.t := RealtimeSession.zero
  <| RealtimeSession.ID := "rts_1"%string |> <| RealtimeSession.OperationID := "op"%string |>
  <| RealtimeSession.AttemptID := "at"%string |> <| RealtimeSession.CredentialID := "key"%string |>
  <| RealtimeSession.Model := "m"%string |> <| RealtimeSession.Status := RealtimeSessionStatusConnecting |>
  <| RealtimeSession.Version := 1 |> <| RealtimeSession.CreatedAt := 10 |> <| RealtimeSession.UpdatedAt := 10 |>.
Definition connect : RealtimeSessionUpdate.t := RealtimeSessionUpdate.mk
  RealtimeSessionStatusConnected 0 0 1 1 64 0 "" (Some 20) None 20.
Definition complete : RealtimeSessionUpdate.t := RealtimeSessionUpdate.mk
  RealtimeSessionStatusCompleted 5 7 2 3 96 1 "" None (Some 3000020) 3000020.

Definition after_operation := (CreateAIOperation operation NewMemoryRepository).2.
Definition after_attempt := (CreateAIAttempt attempt after_operation).2.
Definition after_begin := (CreateOrGetRealtimeSession begun after_attempt).2.
Definition connected := UpdateRealtimeSession "rts_1" 1 connect after_begin.
Definition completed := UpdateRealtimeSession "rts_1" 2 complete connected.2.

(** A session is connected, and completed after three milliseconds; an update made
    for its first version is then turned away. *)
Example runs_through :
  realtimeSessions completed.2 !! "rts_1"%string = Some (begun
    <| RealtimeSession.Status := RealtimeSessionStatusCompleted |> <| RealtimeSession.Version := 3 |>
    <| RealtimeSession.InputAudioBytes := 5 |> <| RealtimeSession.OutputAudioBytes := 7 |>
    <| RealtimeSession.ClientMessageCount := 2 |> <| RealtimeSession.ProviderMessageCount := 3 |>
    <| RealtimeSession.TransferBytes := 96 |> <| RealtimeSession.UsageVersion := 1 |>
    <| RealtimeSession.SessionDurationMS := 3 |> <| RealtimeSession.ConnectedAt := Some 20 |>
    <| RealtimeSession.ClosedAt := Some 3000020 |> <| RealtimeSession.UpdatedAt := 3000020 |>) /\
  (UpdateRealtimeSession "rts_1" 1 complete connected.2).1 = Ok (match connected.1 with Ok (s, _) => s | _ => begun end, false).
Proof. vm_compute. split; reflexivity. Qed.

Definition connected_session : RealtimeSession.t := match connected.1 with Ok (s, _) => s | Err _ => begun end.
Lemma connects : UpdateRealtimeSession "rts_1" 1 connect after_begin = (Ok (connected_session, true), connected.2).
Proof. vm_compute. reflexivity. Qed.

Lemma begins_step n r s : n < max_int64 -> step (n, r) (n + 1, (CreateOrGetRealtimeSession s r).2).
Proof. intros Hn. destruct (CreateOrGetRealtimeSession s r) as [x r'] eqn:E. by eapply Step_begin. Qed.
Lemma updates_step n r id version update : n < max_int64 ->
  step (n, r) (n + 1, (UpdateRealtimeSession id version update r).2).
Proof. intros Hn. destruct (UpdateRealtimeSession id version update r) as [x r'] eqn:E. by eapply Step_update. Qed.
Lemma operation_step n r o : n < max_int64 -> step (n, r) (n + 1, (CreateAIOperation o r).2).
Proof.
  intros Hn. destruct (CreateAIOperation o r) as [x r'] eqn:E. apply Step_repository; [done|].
  by eapply Step_CreateAIOperation.
Qed.
Lemma attempt_step n r a : n < max_int64 -> step (n, r) (n + 1, (CreateAIAttempt a r).2).
Proof.
  intros Hn. destruct (CreateAIAttempt a r) as [x r'] eqn:E. apply Step_repository; [done|].
  by eapply Step_CreateAIAttempt.
Qed.

Lemma to_begin : rtc step (0, NewMemoryRepository) (3, after_begin).
Proof.
  eapply rtc_l; [by apply (operation_step 0 _ operation)|]. eapply rtc_l; [by apply (attempt_step 1 _ attempt)|].
  apply rtc_once. by apply (begins_step 2 _ begun).
Qed.
End Demo.

#[local] Existing Instance canonical_range.

Lemma sessions_sound_witness :
  sessions_ok (3, Demo.after_begin) /\ continued Demo.after_begin Demo.connected.2.
Proof.
  apply (sessions_sound Demo.marshal_dimensions 3 Demo.after_begin 4 Demo.connected.2 Demo.to_begin).
  apply rtc_once. by apply (Demo.updates_step 3).
Defined.

Lemma session_update_once_witness :
  exists current, UpdateRealtimeSession "rts_1" 1 Demo.complete Demo.completed.2 = (Ok (current, false), Demo.completed.2).
Proof.
  apply (session_update_once Demo.marshal_dimensions 3 Demo.after_begin "rts_1" 1 Demo.connect
    Demo.connected_session Demo.connected.2 5 Demo.completed.2 Demo.complete Demo.to_begin).
  - reflexivity.
  - exact Demo.connects.
  - apply rtc_once. exact (Demo.updates_step 4 _ _ _ _ eq_refl).
Defined.
